(* ===== verification/_CoqProject ===== *)
-Q . S2P
Prelude.v
Utf8.v
Unicode.v
Base64.v
Hex.v
Digits.v
ScaledDecimal.v
PgWire.v
PgMarkers.v
PgIeee.v
PgRequest.v
PgResult.v
Backend.v
Scram.v
PgAuth.v
PgValue.v
Connection.v
Response.v
PgSession.v
SessionSync.v
SessionResult.v
ColumnOrigins.v
PgConnect.v
ConnectSafety.v
PgProvider.v
PgCancel.v
ConnString.v
ResultTypes.v
ConvertNumber.v
ConvertTime.v
ConvertData.v
SqlLex.v
CancelExchange.v
SqlDialect.v
AuthCore.v
ResponseOp.v
Credential.v
SessionOwner.v
IssuerTime.v
TemporaryTime.v
PreparedBatch.v
PreparedSequence.v
SessionFacade.v
Diagnostics.v
CursorName.v
OdbcTransaction.v
Registry.v
HandleApi.v
HandleLayout.v
HandleLocks.v
ResultConvert.v
Cursor.v
Rowsets.v
FetchBounds.v
GetData.v
GetDataPieces.v
DataAtExec.v
DataAtExecValues.v
