(* ===== verification/Prelude.v ===== *)
(** * odbcpp verification development

    odbcpp is an ODBC driver in C++ for PostgreSQL and Redshift.  An
    application calls the ODBC entry points ([odbc/]); the driver resolves a
    connection string, translates the application's SQL, and asks a backend
    session to run it.  The session ([core/database/]) builds PostgreSQL
    messages, logs in, sends them over a transport and decodes the answers;
    the driver converts the text of each column to the C type the application
    bound.  Below, an SDK ([sdk/]) owns credentials and physical sessions: an
    authority obtains a credential from an issuer, its expiry is converted to
    the monotonic clock, and an owner lends the authenticated session to one
    borrower at a time.

    ** Files and the code they model

    - [Prelude] (this file): bytes, literals, the result type [res] with the
      exceptions of the code, iteration of a step function ([run]), tactics,
      and lemmas on lists and integers.
    - [Utf8], [Unicode], [Base64], [Hex], [Digits], [ScaledDecimal]: the codecs of
      [sdk/src/util/] and [odbc/unicode.cpp].
    - [PgWire], [PgMarkers], [PgIeee], [PgRequest], [PgResult]:
      [pg_protocol_parser.cpp].  [PgWire] has the readers and writers of the
      wire format, [PgMarkers] the lexer that numbers the markers, [PgIeee]
      the floating-point parameters, [PgRequest] every request, [PgResult] the
      decoding of a stream of messages into results.
    - [Scram], [PgAuth]: [scram_sha256.cpp], the authentication part of the
      parser, and the login loop of [generic_database_connection.cpp].
    - [SqlLex], [SqlDialect]: [pg_sql_dialect.cpp], ODBC escape clauses to SQL.
    - [ConnString]: [odbc/connection_string.cpp].
    - [ResultTypes], [ConvertNumber], [ConvertTime], [ConvertData]:
      [odbc/result_types.cpp] and [odbc/text_data_converter.cpp].
    - [AuthCore], [ResponseOp], [IssuerTime], [TemporaryTime]:
      [auth_core.cpp], [response_operation.cpp] with
      [checked_response_boundary.cpp], [issuer_timestamp.cpp],
      [temporary_db_validity.cpp] and [trusted_clock_sample.cpp] of
      [sdk/src/auth/].
    - [Credential], [SessionOwner], [PreparedBatch], [PreparedSequence],
      [SessionFacade]: [credential_context.cpp] and [session_owner.cpp] of
      [sdk/src/session/].  [SessionOwner] has the owner and its lease,
      [PreparedBatch] and [PreparedSequence] a statement executed for many
      parameter sets, [SessionFacade] the lease's other operations, all over
      the shared state of [SessionOwner].
    - [Backend], [Connection], [Response], [PgSession], [PgConnect], [PgCancel],
      [PgProvider], [PgValue], [ColumnOrigins]: the PostgreSQL session of
      [core/database/].  [Backend] has the results, errors and snapshots of the
      backend interface; [Connection] the message loop of
      [generic_database_connection.cpp] (reading and sending a whole message);
      [Response] the collection of a response with its limits; [PgSession] the
      operations of [pg_database_connection.cpp] (queries, prepared statements,
      transactions, reset, descriptions); [PgConnect] its connection with SSL
      negotiation and login; [PgCancel] the cancellation of a running request
      and [CancelExchange] the packet on a second connection; [PgProvider] the
      resolution of connection options, [PgValue] the normalisation of values
      and [ColumnOrigins] the look-up of a result's base columns.
      [SessionSync], [SessionResult], [ConnectSafety] prove about them.
    - [Diagnostics], [CursorName], [OdbcTransaction], [Registry], [HandleApi],
      [HandleLayout], [HandleLocks]: the handles of [odbc/odbc_handles.cpp],
      [odbc_handles.h], [odbc_api.cpp] and [c_api_guard.h].  [Diagnostics] has
      the records of a handle, [CursorName] the names of cursors,
      [OdbcTransaction] the manual-commit bookkeeping of a connection,
      [Registry] the table of handles, [HandleApi] their allocation and release,
      [HandleLayout] what stays true of them, [HandleLocks] the operation leases
      of concurrent calls.
    - [ResultConvert], [Cursor], [Rowsets], [FetchBounds], [GetData],
      [GetDataPieces]: the result side of an [ODBCStatement].  [Cursor] has
      [SQLFetch], [SQLFetchScroll], [SQLSetPos], [SQLBulkOperations] and
      bookmarks, [ResultConvert] the conversions a statement decides itself,
      [GetData] the column in pieces; the other three prove about them.
    - [DataAtExec], [DataAtExecValues]: [SQLParamData], [SQLPutData] and
      [SQLCancel] of a statement that waits for parameter data.

    ** How code becomes definitions

    A function is a definition of the same name; a loop that is not structural
    is a step function run by [run], whose measure decreases by an instance of
    [Decreases], so that the fuel [S measure] always suffices and no theorem
    speaks of running out.  The mutual recursion of the escape translator has
    the length of the text as its fuel, and [translate_terminates] shows the
    value does not depend on more.  Fixed-width integers are [Z] with the
    code's own range tests, and wrap-around written out where the code relies
    on it.  An exception is a value of [res] or of a sum.  Objects with state
    are records; where several parties hold one object (a session and its
    lease, an authority and its receipts, a token and its generation) the model
    has a store with identities and a step relation over it.  Loops of the
    session are bounded by what they read: the collection of a response by its
    limit of messages, sending by the length of the request, the search in the
    registry by the four kinds of handles.

    Code that is injected into a component is an argument of the definitions:
    the server's bytes, the clocks, the issuer, the observer, the physical
    session, SHA-256, HMAC and PBKDF2, and [strtod] and its relatives.  Where
    two components meet, the promise of one to the other is a class: [Peer] and
    [StreamPeer] (a transport that delivers and accepts bytes), [Connector]
    (opening it and negotiating TLS), [CancelPeer] (the second connection of a
    cancel), [Watched] and [CancelWatched] (what an observer of the wire sees),
    [BackendSession]
    and [HonestSession] (the session under an ODBC connection, implemented by
    the PostgreSQL session).  The application's memory is a function of the
    address, and what a call writes to it is the list of its writes.  In
    [ResponseOp] and [SessionOwner] an injected call may also come back having
    changed the objects (retired the source, rotated the credential, closed
    the owner), and the theorems quantify over that.  An allocation fails
    where the code handles its failure specially and succeeds elsewhere.

    ** What the theorems show

    - Requests and results: the bytes of every prepared request are the
      messages the protocol asks for, a server's reading of them gives back
      the parameters; decoding a stream of messages refines an abstract reading
      by segments between command completions and keeps every result well
      formed; messages and rows are framed exactly.
    - Login: a password leaves the client only over a verified channel or in
      SCRAM form, the login is ready only after the server authenticated, and
      SCRAM accepts exactly a server that knows the password's keys.
    - Sessions and credentials: at most one borrower holds the session, a lease
      is granted only within the credential's and the policy's limits, a return
      is decisive on every branch, a rotated or revoked credential and a closed
      cache scope never become current again; a batch stops at its first
      failure, the results of a sequence keep the described schema and the
      limits, and no operation leaves a session in doubt with its borrower.
    - The PostgreSQL session: every operation leaves the connection at a message
      boundary or retired, a read reassembles exactly one message from any
      fragments, a query's result is the decoding of the server's answer and is
      well formed within the limits, a reset leaves nothing of the borrower, no
      credential outlives the login and nothing but the SSL request is sent
      before the peer is verified, and a cancelled request never leaves a
      session in doubt in use.
    - Handles: the transaction flag of a connection is truthful and no open
      transaction is dropped, every handle a call resolves is registered, and
      concurrent calls on shared handles never deadlock.
    - Fetching: a static cursor moves as the table of [SQLFetchScroll] says, a
      positioned cursor is inside its result, a scan sees every row once and
      ends, a bookmark leads back to its row, every write of a fetch is inside a
      bound element, and the pieces of [SQLGetData] are the value.
    - Parameters at execution: an execution whose cancel succeeded is never
      sent, and what is sent is what was supplied.
    - Authentication exchanges: a receipt is spent once, a response operation
      publishes at most one completion with ordered times, the first fault is
      final, nothing reaches [std::terminate] in orderly use; a timestamp is
      read exactly and a converted expiry never outlives the issuer's.
    - SQL: markers are numbered exactly outside literals and comments, native
      SQL reaches the server unchanged, the translator terminates, datetime
      escapes are checked exactly.
    - Conversions and codecs: exact numbers, dates and times or the right
      diagnostic, truncation that never splits a character or overruns the
      buffer, and round trips of every codec.

    ** Not modelled

    Sockets, completion ports and TLS ([sdk/src/transport/],
    [sdk/src/security/]) and the AWS SDK calls ([sdk/src/auth/aws/]) are code
    of other systems.  Logging, tracing, the Windows registry, the set-up
    dialogs and the object factories have no result to state.  The catalog
    queries are SQL texts whose meaning is the server's, and the parsers of AWS
    responses are built on third-party readers.  The MySQL headers are not
    linked into the driver.  Of the statement, the conversion of an input
    parameter to text, the publication of parameter arrays, the attributes and
    the descriptor fields are not modelled; the theorems take what they produce
    (a converted parameter, the bindings, the policy of the cursor) as arguments.  Of the entry points, those that only marshal their arguments to
    the handles are left out.  A failed allocation is modelled only where the
    text above says so. *)

From stdpp Require Export base strings list gmap numbers option.
From Stdlib Require Export ZArith Lia Bool.
From Stdlib Require Import Ascii.
Export ListNotations.

#[global] Open Scope Z_scope.
#[global] Open Scope list_scope.

(** ** Bytes and literals

    A [char], [unsigned char] or [std::byte] is an integer in [0, 256); a
    [std::string], [std::string_view] or byte vector is a list of them. *)

Abbreviation bytes := (list Z).

Definition is_byte (b : Z) : Prop := 0 <= b < 256.
Abbreviation bytes_ok := (Forall is_byte).

(** [ch "x"] is the code of a character literal, evaluated when it is read. *)
Notation "'ch' c" :=
  (ltac:(let v := eval vm_compute in
           (match c with
            | String.String a _ => Z.of_N (N_of_ascii a)
            | String.EmptyString => 0
            end) in exact v))
  (at level 9, c at level 0, only parsing).

(** The double quote character. *)
Abbreviation DQ := 34.

(** The bytes of a string literal. *)
Definition str (s : String.string) : bytes :=
  map (fun c => Z.of_N (N_of_ascii c)) (String.list_ascii_of_string s).
Arguments str _%_string.

(** [s.size()] as an integer of [std::size_t]. *)
Definition size {A} (s : list A) : Z := Z.of_nat (length s).

(** Equality of two strings as the code's [==]. *)
Definition beq (s t : bytes) : bool := bool_decide (s = t).

Lemma size_nil {A} : size (A := A) [] = 0. Proof. done. Qed.
Lemma size_cons {A} (x : A) (s : list A) : size (x :: s) = size s + 1.
Proof. unfold size. cbn [length]. lia. Qed.
Lemma size_app {A} (s t : list A) : size (s ++ t) = size s + size t.
Proof. unfold size. rewrite length_app. lia. Qed.
Lemma size_nonneg {A} (s : list A) : 0 <= size s.
Proof. unfold size. lia. Qed.
#[export] Hint Resolve size_nonneg : core.

Create Rewrite HintDb size.
#[export] Hint Rewrite @size_nil @size_cons @size_app : size.

(** ** Arithmetic automation *)

Ltac dlia := Z.to_euclidean_division_equations; lia.

(** Turn boolean tests in the context and the goal into propositions. *)
Ltac zb :=
  repeat match goal with
  | H : _ && _ = true |- _ => apply andb_true_iff in H; destruct H
  | H : _ && _ = false |- _ => apply andb_false_iff in H
  | H : _ || _ = false |- _ => apply orb_false_iff in H; destruct H
  | H : _ || _ = true |- _ => apply orb_true_iff in H
  | H : negb _ = true |- _ => apply negb_true_iff in H
  | H : negb _ = false |- _ => apply negb_false_iff in H
  | H : (_ =? _) = true |- _ => apply Z.eqb_eq in H
  | H : (_ =? _) = false |- _ => apply Z.eqb_neq in H
  | H : (_ <? _) = true |- _ => apply Z.ltb_lt in H
  | H : (_ <? _) = false |- _ => apply Z.ltb_ge in H
  | H : (_ <=? _) = true |- _ => apply Z.leb_le in H
  | H : (_ <=? _) = false |- _ => apply Z.leb_gt in H
  end.

(** Decide one integer test of the goal by linear arithmetic. *)
Ltac ztest_by tac :=
  match goal with
  | |- context [?a =? ?b] =>
      first [ rewrite (proj2 (Z.eqb_eq a b)) by tac
            | rewrite (proj2 (Z.eqb_neq a b)) by tac ]
  | |- context [?a <? ?b] =>
      first [ rewrite (proj2 (Z.ltb_lt a b)) by tac
            | rewrite (proj2 (Z.ltb_ge a b)) by tac ]
  | |- context [?a <=? ?b] =>
      first [ rewrite (proj2 (Z.leb_le a b)) by tac
            | rewrite (proj2 (Z.leb_gt a b)) by tac ]
  end; cbn [andb orb negb].
Ltac ztest := ztest_by ltac:(lia).
Ltac dtest := ztest_by ltac:(dlia).

(** Split the [Forall] hypotheses over conses and appends. *)
Ltac inv_forall :=
  repeat match goal with
  | H : Forall _ (_ :: _) |- _ => apply Forall_cons_1 in H as [? H]
  | H : Forall _ (_ ++ _) |- _ => apply Forall_app in H as [? H]
  end.

(** ** Bit operations as arithmetic *)

Lemma lor_add (a b n : Z) :
  0 <= n -> 0 <= b < 2 ^ n -> Z.lor (a * 2 ^ n) b = a * 2 ^ n + b.
Proof.
  intros Hn Hb. symmetry. apply Z.add_nocarry_lor.
  apply Z.bits_inj'. intros i Hi.
  rewrite Z.land_spec, Z.bits_0, <- Z.shiftl_mul_pow2 by lia.
  destruct (Z.lt_ge_cases i n).
  - rewrite Z.shiftl_spec_low by lia. done.
  - rewrite <- (Z.mod_small b (2 ^ n)) by lia.
    rewrite Z.mod_pow2_bits_high by lia. apply andb_false_r.
Qed.

Lemma lor_add6 a b : 0 <= b < 64 -> Z.lor (a * 64) b = a * 64 + b.
Proof. intros; apply (lor_add a b 6); lia. Qed.
Lemma lor_add8 a b : 0 <= b < 256 -> Z.lor (a * 256) b = a * 256 + b.
Proof. intros; apply (lor_add a b 8); lia. Qed.

Lemma lor_add12 a b : 0 <= b < 4096 -> Z.lor (a * 4096) b = a * 4096 + b.
Proof. intros; apply (lor_add a b 12); lia. Qed.
Lemma lor_add16 a b : 0 <= b < 65536 -> Z.lor (a * 65536) b = a * 65536 + b.
Proof. intros; apply (lor_add a b 16); lia. Qed.
Lemma lor_add18 a b : 0 <= b < 262144 -> Z.lor (a * 262144) b = a * 262144 + b.
Proof. intros; apply (lor_add a b 18); lia. Qed.
Lemma lor_add24 a b : 0 <= b < 16777216 -> Z.lor (a * 16777216) b = a * 16777216 + b.
Proof. intros; apply (lor_add a b 24); lia. Qed.

Lemma land_mask a n : 0 <= n -> Z.land a (Z.ones n) = a mod 2 ^ n.
Proof. apply Z.land_ones. Qed.
Lemma land_03 a : Z.land a 0x03 = a mod 4. Proof. apply (land_mask a 2); lia. Qed.
Lemma land_07 a : Z.land a 0x07 = a mod 8. Proof. apply (land_mask a 3); lia. Qed.
Lemma land_0f a : Z.land a 0x0f = a mod 16. Proof. apply (land_mask a 4); lia. Qed.
Lemma land_1f a : Z.land a 0x1f = a mod 32. Proof. apply (land_mask a 5); lia. Qed.
Lemma land_3f a : Z.land a 0x3f = a mod 64. Proof. apply (land_mask a 6); lia. Qed.
Lemma land_ff a : Z.land a 0xff = a mod 256. Proof. apply (land_mask a 8); lia. Qed.
Lemma land_3ff a : Z.land a 0x3ff = a mod 1024. Proof. apply (land_mask a 10); lia. Qed.

Lemma shr_div a n : 0 <= n -> Z.shiftr a n = a / 2 ^ n.
Proof. apply Z.shiftr_div_pow2. Qed.
Lemma shl_mul a n : 0 <= n -> Z.shiftl a n = a * 2 ^ n.
Proof. apply Z.shiftl_mul_pow2. Qed.

Create Rewrite HintDb bits.
#[export] Hint Rewrite land_03 land_07 land_0f land_1f land_3f land_ff land_3ff : bits.
#[export] Hint Rewrite shr_div shl_mul using lia : bits.

(** Shifts and masks of the goal as division, multiplication and modulo. *)
Ltac bits :=
  autorewrite with bits;
  repeat match goal with
  | |- context [2 ^ Z.pos ?p] =>
      let v := eval vm_compute in (2 ^ Z.pos p) in change (2 ^ Z.pos p) with v
  end.

(** A decidable property of bytes holds when it holds of all 256 of them. *)
Lemma byte_forall (P : Z -> bool) :
  forallb P (seqZ 0 256) = true -> forall b, is_byte b -> P b = true.
Proof.
  intros H b Hb. rewrite forallb_forall in H. apply H.
  apply list_elem_of_In, elem_of_seqZ. unfold is_byte in Hb; lia.
Qed.

(** Prove an equation between two executable functions of a byte by trying
    every byte. *)
Lemma byte_eqb (f g : Z -> Z) :
  forallb (fun b => f b =? g b) (seqZ 0 256) = true ->
  forall b, is_byte b -> f b = g b.
Proof. intros H b Hb. apply Z.eqb_eq. by apply (byte_forall (fun b => f b =? g b)). Qed.

Lemma byte_eqb_bool (f g : Z -> bool) :
  forallb (fun b => Bool.eqb (f b) (g b)) (seqZ 0 256) = true ->
  forall b, is_byte b -> f b = g b.
Proof.
  intros H b Hb. apply Bool.eqb_prop.
  by apply (byte_forall (fun b => Bool.eqb (f b) (g b))).
Qed.

(** ** Exceptions

    A C++ exception the code throws, with the message it carries, and the
    result of a computation that may throw. *)

Inductive exn :=
| invalid_argument (what : String.string)
| runtime_error (what : String.string)
| runtime_error_text (what : bytes)
| length_error (what : String.string)
| RequestWireLimitExceeded.

Inductive res (A : Type) :=
| Ok (a : A)
| Throw (e : exn).
Arguments Ok {A} a.
Arguments Throw {A} e.

#[export] Instance res_ret : MRet res := fun A a => Ok a.
#[export] Instance res_bind : MBind res := fun A B f m =>
  match m with Ok a => f a | Throw e => Throw e end.
#[export] Instance res_fmap : FMap res := fun A B f m =>
  match m with Ok a => Ok (f a) | Throw e => Throw e end.
#[export] Instance res_inhabited {A} : Inhabited (res A) := populate (Throw RequestWireLimitExceeded).

Definition is_ok {A} (m : res A) : bool := match m with Ok _ => true | Throw _ => false end.

(** Reduce the binds of the error and option monads, and nothing else. *)
Ltac mcbn := cbn [mbind option_bind res_bind mret option_ret res_ret] in *.

Lemma bind_Ok {A B} (m : res A) (f : A -> res B) (b : B) :
  m ≫= f = Ok b <-> exists a, m = Ok a /\ f a = Ok b.
Proof. destruct m; cbn; split; [eauto|by intros (?&[= ->]&?)|done|by intros (?&?&?)]. Qed.

(** A loop over a list in the error monad. *)
Fixpoint for_each {A B} (f : B -> A -> res B) (acc : B) (l : list A) : res B :=
  match l with
  | [] => Ok acc
  | x :: l => acc ← f acc x; for_each f acc l
  end.

(** What holds of the accumulator before the loop and is kept by every
    iteration holds of the accumulator and the elements passed. *)
Lemma for_each_inv {A B} (f : B -> A -> res B) (P : list A -> B -> Prop) l b b' :
  P [] b ->
  (forall pre x acc acc', P pre acc -> f acc x = Ok acc' -> P (pre ++ [x]) acc') ->
  for_each f b l = Ok b' -> P l b'.
Proof.
  intros H0 Hs. enough (forall pre acc, P pre acc -> for_each f acc l = Ok b' -> P (pre ++ l) b') as H
    by exact (H [] b H0).
  clear b H0. induction l as [|x l IH]; intros pre acc Hp; cbn [for_each].
  - intros [= <-]. by rewrite app_nil_r.
  - intros (acc' & Hf & Hl)%bind_Ok. rewrite cons_middle, app_assoc. by eapply IH; [eapply Hs|].
Qed.

Lemma for_each_throws {A B} (f : B -> A -> res B) l x :
  x ∈ l -> (forall acc, is_ok (f acc x) = false) -> forall acc, is_ok (for_each f acc l) = false.
Proof.
  induction 1 as [y l|y z l Hin IH]; intros Hf acc; cbn.
  - specialize (Hf acc). destruct (f acc y); [done|done].
  - destruct (f acc z) as [b|]; mcbn; [by apply IH|done].
Qed.

Lemma bind_not_ok {A B} (m : res A) (f : A -> res B) : is_ok m = false -> is_ok (m ≫= f) = false.
Proof. by destruct m. Qed.

Lemma bind_not_ok_r {A B} (m : res A) (f : A -> res B) :
  (forall a, is_ok (f a) = false) -> is_ok (m ≫= f) = false.
Proof. destruct m; cbn; auto. Qed.

(** ** Loops

    A [while] or [for] loop is its body as a function of the loop state: [inl]
    is the state the next iteration starts with, [inr] the value the loop is
    left with (a [break], a [return] or the failed loop condition).  [run]
    iterates the body; the bound it is given is the loop's measure, which the
    class [Decreases] shows every iteration lowers, so that [run_eq] is the
    loop's exact unfolding and no result depends on the bound. *)

Class Decreases {S R} (measure : S -> nat) (step : S -> S + R) : Prop :=
  decreases : forall s s', step s = inl s' -> (measure s' < measure s)%nat.

Section Loop.
Context {S R : Type} `{!Inhabited R} (measure : S -> nat) (step : S -> S + R).

Fixpoint run_fuel (n : nat) (s : S) : R :=
  match n with
  | O => inhabitant
  | Datatypes.S n' =>
      match step s with
      | inl s' => run_fuel n' s'
      | inr r => r
      end
  end.

Definition run (s : S) : R := run_fuel (Datatypes.S (measure s)) s.

Context `{!Decreases measure step}.

Lemma run_fuel_enough (n m : nat) (s : S) :
  (measure s < n)%nat -> (measure s < m)%nat -> run_fuel n s = run_fuel m s.
Proof using All.
  revert m s. induction n as [|n IH]; intros m s Hn Hm; [lia|].
  destruct m as [|m]; [lia|]. cbn. destruct (step s) eqn:E; [|done].
  apply decreases in E. apply IH; lia.
Qed.

Lemma run_eq (s : S) :
  run s = match step s with inl s' => run s' | inr r => r end.
Proof using All.
  unfold run at 1. change (run_fuel (Datatypes.S (measure s)) s)
    with (match step s with inl s' => run_fuel (measure s) s' | inr r => r end).
  destruct (step s) eqn:E; [|done].
  apply decreases in E. apply run_fuel_enough; lia.
Qed.

(** Induction along the iterations of a loop. *)
Lemma run_ind (P : S -> R -> Prop) :
  (forall s r, step s = inr r -> P s r) ->
  (forall s s', step s = inl s' -> P s' (run s') -> P s (run s')) ->
  forall s, P s (run s).
Proof using All.
  intros Hend Hstep s. remember (measure s) as n eqn:Hn.
  revert s Hn. induction n as [n IH] using lt_wf_ind. intros s ->.
  rewrite run_eq. destruct (step s) eqn:E; [|by apply Hend].
  apply (Hstep s); [done|]. eapply IH; [|done]. by apply decreases.
Qed.
End Loop.

(** Equal bodies make equal loops. *)
Lemma run_ext {S R} `{!Inhabited R} (measure : S -> nat) (step step' : S -> S + R) s :
  (forall s, step s = step' s) -> run measure step s = run measure step' s.
Proof.
  intros H. unfold run. generalize (Datatypes.S (measure s)). intros n. revert s.
  induction n as [|n IH]; intros s; [done|]. cbn. rewrite H. by destruct (step' s).
Qed.
Arguments run_eq {S R _ measure step _} s.
Arguments run_ind {S R _ measure step _} P.

(** The measure of a loop that consumes the list in front of its state. *)
Definition unread {A B} (st : list A * B) : nat := length st.1.

(** ** Scanning

    The longest prefix whose characters satisfy a test, and what follows it:
    the loop [while (position < size && p(text[position])) ++position]. *)

Fixpoint span (p : Z -> bool) (s : bytes) : bytes * bytes :=
  match s with
  | [] => ([], [])
  | c :: t => if p c then let '(a, b) := span p t in (c :: a, b) else ([], s)
  end.

Fixpoint drop_while (p : Z -> bool) (s : bytes) : bytes :=
  match s with
  | [] => []
  | c :: t => if p c then drop_while p t else s
  end.

(** [remove_prefix] and [remove_suffix] while the end character satisfies a test. *)
Definition trim_by (p : Z -> bool) (s : bytes) : bytes :=
  rev (drop_while p (rev (drop_while p s))).

Lemma drop_while_length (p : Z -> bool) s : (length (drop_while p s) <= length s)%nat.
Proof. induction s; cbn; [lia|]. case_match; cbn; lia. Qed.

(** The string that starts with [p], as [starts_with]. *)
Definition starts_with (s p : bytes) : bool := beq (take (length p) s) p.

(** The position of the first character, as [find]. *)
Fixpoint find_char (c : Z) (s : bytes) : option nat :=
  match s with
  | [] => None
  | d :: t => if d =? c then Some O else S <$> find_char c t
  end.

Lemma find_char_None c s : find_char c s = None <-> ~ In c s.
Proof.
  induction s as [|d s IH]; cbn; [naive_solver|].
  destruct (d =? c) eqn:E; zb.
  - split; [done|]. intros H. destruct H. by left.
  - destruct (find_char c s); cbn; split; try done; [|by intros _ [?|?%IH]].
    intros H. destruct IH as [_ IH]. destruct H. right. by destruct (in_dec Z.eq_dec c s) as [|?%IH].
Qed.

(** The pieces between the separators; there is always at least one. *)
Fixpoint split_on (sep : Z) (s : bytes) : list bytes :=
  match s with
  | [] => [[]]
  | c :: t =>
      if c =? sep then [] :: split_on sep t
      else match split_on sep t with
           | p :: ps => (c :: p) :: ps
           | [] => [[c]]
           end
  end.

Lemma split_on_plain sep s : Forall (fun c => c <> sep) s -> split_on sep s = [s].
Proof.
  induction 1 as [|c s Hc _ IH]; [done|]. cbn. ztest. by rewrite IH.
Qed.

Lemma split_on_app sep s t : Forall (fun c => c <> sep) s ->
  split_on sep (s ++ sep :: t) = s :: split_on sep t.
Proof.
  induction 1 as [|c s Hc _ IH]; cbn; [by rewrite Z.eqb_refl|]. ztest. by rewrite IH.
Qed.

(** *** The C locale's character classes *)

Definition isspace (c : Z) : bool := ((9 <=? c) && (c <=? 13)) || (c =? 32).
Definition isdigit (c : Z) : bool := (ch "0" <=? c) && (c <=? ch "9").
Definition isupper (c : Z) : bool := (ch "A" <=? c) && (c <=? ch "Z").
Definition islower (c : Z) : bool := (ch "a" <=? c) && (c <=? ch "z").
Definition isalpha (c : Z) : bool := isupper c || islower c.
Definition isalnum (c : Z) : bool := isalpha c || isdigit c.
Definition toupper (c : Z) : Z := if islower c then c - 32 else c.
Definition tolower (c : Z) : Z := if isupper c then c + 32 else c.

Lemma span_app (p : Z -> bool) (s a b : bytes) : span p s = (a, b) -> s = a ++ b.
Proof.
  revert a b. induction s as [|c s IH]; cbn; intros a b; [by intros [= <- <-]|].
  destruct (p c); [|by intros [= <- <-]].
  destruct (span p s) as [a' b']. intros [= <- <-]. cbn. by rewrite (IH a' b').
Qed.

Lemma span_forall (p : Z -> bool) (s a b : bytes) :
  span p s = (a, b) -> Forall (fun c => p c = true) a.
Proof.
  revert a b. induction s as [|c s IH]; cbn; intros a b; [by intros [= <- <-]|].
  destruct (p c) eqn:E; [|by intros [= <- <-]].
  destruct (span p s) as [a' b']. intros [= <- <-]. constructor; [done|]. by apply (IH a' b').
Qed.

(** A text that starts with such characters and goes on with another one. *)
Lemma span_exact (p : Z -> bool) (a b : bytes) :
  Forall (fun c => p c = true) a -> (forall c, head b = Some c -> p c = false) ->
  span p (a ++ b) = (a, b).
Proof.
  intros Ha Hb. induction Ha as [|c a Hc _ IH]; cbn.
  - destruct b as [|c b]; [done|]. cbn. by rewrite Hb.
  - by rewrite Hc, IH.
Qed.

Lemma span_stop (p : Z -> bool) (s a b : bytes) (c : Z) :
  span p s = (a, b) -> head b = Some c -> p c = false.
Proof.
  revert a b. induction s as [|d s IH]; cbn; intros a b; [by intros [= <- <-]|].
  destruct (p d) eqn:E; [|intros [= <- <-]; by intros [= <-]].
  destruct (span p s) as [a' b']. intros [= <- <-]. by apply (IH a' b').
Qed.

(** ** Characters by position *)

(** [value[i]], for a position the code has checked. *)
Definition at_pos (value : bytes) (i : nat) : Z := nth i value 0.

Lemma split_at value n : (n < length value)%nat ->
  value = take n value ++ [at_pos value n] ++ drop (S n) value.
Proof.
  unfold at_pos. revert n. induction value as [|c value IH]; intros [|n] H; cbn in *; [lia..|done|].
  f_equal. apply IH. lia.
Qed.

Lemma at_pos_drop value n m : at_pos (drop n value) m = at_pos value (n + m).
Proof.
  unfold at_pos. revert value. induction n as [|n IH]; intros [|c value]; cbn; try done.
  by destruct m.
Qed.

Lemma at_pos_app a c b : at_pos (a ++ c :: b) (length a) = c.
Proof. unfold at_pos. by rewrite app_nth2, Nat.sub_diag by lia. Qed.

Lemma at_pos_app_l a b n : (n < length a)%nat -> at_pos (a ++ b) n = at_pos a n.
Proof. apply app_nth1. Qed.
