(* ===== verification/Utf8.v ===== *)
(** * UTF-8 decoding

    Models [sdk/src/util/utf8.cpp]: the scalar decoder shared by the driver
    ([next_utf8_code_point]), the counter ([utf8_code_point_count]) and the
    sanitiser for server text ([replace_invalid_utf8]).

    A decoding position [offset] into [input] is the suffix
    [input.substr(offset)] that is still unread, so a decoder that advances
    [offset] returns the shorter suffix.  The header leaves the offset
    unspecified after a failure, and so does the model ([None]). *)

From S2P Require Import Prelude.

(** ** The decoder *)

(** The loop over the continuation bytes of one sequence. *)
Fixpoint continuation_bytes (n : nat) (code_point : Z) (s : bytes)
    : option (Z * bytes) :=
  match n, s with
  | O, _ => Some (code_point, s)
  | S n', [] => None
  | S n', byte :: s' =>
      if Z.land byte 0xc0 =? 0x80
      then continuation_bytes n'
             (Z.lor (Z.shiftl code_point 6) (Z.land byte 0x3f)) s'
      else None
  end.

(** Continuation count, initial bits and smallest admissible value for a lead byte. *)
Definition lead_byte (first : Z) : option (nat * Z * Z) :=
  if Z.land first 0xe0 =? 0xc0 then Some (1%nat, Z.land first 0x1f, 0x80)
  else if Z.land first 0xf0 =? 0xe0 then Some (2%nat, Z.land first 0x0f, 0x800)
  else if Z.land first 0xf8 =? 0xf0 then Some (3%nat, Z.land first 0x07, 0x10000)
  else None.

Definition next_utf8_code_point (s : bytes) : option (Z * bytes) :=
  match s with
  | [] => None
  | first :: rest =>
      if first <=? 0x7f then Some (first, rest)
      else
        '(continuation_count, code_point, minimum) ← lead_byte first;
        if (length rest <? continuation_count)%nat then None
        else
          '(code_point, rest) ← continuation_bytes continuation_count code_point rest;
          if (code_point <? minimum) || (0x10ffff <? code_point)
             || ((0xd800 <=? code_point) && (code_point <=? 0xdfff))
          then None
          else Some (code_point, rest)
  end.

(** One iteration of the counting loop: the unread input and the count. *)
Definition count_step (st : bytes * nat) : (bytes * nat) + option nat :=
  let '(s, count) := st in
  match s with
  | [] => inr (Some count)
  | _ => match next_utf8_code_point s with
         | None => inr None
         | Some (_, rest) => inl (rest, S count)
         end
  end.

Definition utf8_code_point_count (input : bytes) : option nat :=
  run unread count_step (input, 0%nat).

Definition replacement_character : bytes := [0xef; 0xbf; 0xbd].

(** One iteration of the sanitiser: the unread input and the output so far.
    [take (length s - length rest) s] is [input.substr(start, offset - start)]. *)
Definition replace_step (st : bytes * bytes) : (bytes * bytes) + bytes :=
  let '(s, output) := st in
  match s with
  | [] => inr output
  | _ :: after_one =>
      match next_utf8_code_point s with
      | Some (_, rest) => inl (rest, output ++ take (length s - length rest) s)
      | None => inl (after_one, output ++ replacement_character)
      end
  end.

Definition replace_invalid_utf8 (input : bytes) : bytes :=
  run unread replace_step (input, []).

(** ** The encoding the decoder accepts *)

(** Unicode scalar values: every code point but the surrogates. *)
Definition is_scalar (c : Z) : bool :=
  (0 <=? c) && (c <=? 0x10ffff) && negb ((0xd800 <=? c) && (c <=? 0xdfff)).

(** The well-formed sequence of a scalar, by its defining arithmetic (RFC 3629). *)
Definition utf8_encode (c : Z) : bytes :=
  if c <=? 0x7f then [c]
  else if c <=? 0x7ff then [0xc0 + c / 64; 0x80 + c mod 64]
  else if c <=? 0xffff then [0xe0 + c / 4096; 0x80 + (c / 64) mod 64; 0x80 + c mod 64]
  else [0xf0 + c / 262144; 0x80 + (c / 4096) mod 64; 0x80 + (c / 64) mod 64; 0x80 + c mod 64].

Definition utf8_text (cs : list Z) : bytes := concat (map utf8_encode cs).

Definition valid_utf8 (s : bytes) : Prop :=
  exists cs, Forall (fun c => is_scalar c = true) cs /\ s = utf8_text cs.

(** ** Lemmas *)

Lemma continuation_test (b : Z) :
  is_byte b -> (Z.land b 0xc0 =? 0x80) = (0x80 <=? b) && (b <? 0xc0).
Proof. revert b. by apply byte_eqb_bool. Qed.

Lemma lead_byte_spec (b : Z) :
  is_byte b ->
  lead_byte b =
    if (0xc0 <=? b) && (b <? 0xe0) then Some (1%nat, b - 0xc0, 0x80)
    else if (0xe0 <=? b) && (b <? 0xf0) then Some (2%nat, b - 0xe0, 0x800)
    else if (0xf0 <=? b) && (b <? 0xf8) then Some (3%nat, b - 0xf0, 0x10000)
    else None.
Proof.
  revert b.
  refine (fun b Hb => bool_decide_eq_true_1 _
    (byte_forall (fun b => bool_decide (lead_byte b = _)) _ b Hb)).
  by vm_compute.
Qed.

Lemma continuation_cons (n : nat) (cp b : Z) (s : bytes) :
  is_byte b ->
  continuation_bytes (S n) cp (b :: s) =
    if (0x80 <=? b) && (b <? 0xc0)
    then continuation_bytes n (cp * 64 + (b - 0x80)) s else None.
Proof.
  intros Hb. cbn [continuation_bytes]. rewrite continuation_test by done.
  destruct (_ && _) eqn:E; [|done]. zb. bits.
  rewrite lor_add6 by dlia. do 2 f_equal. dlia.
Qed.

Lemma continuation_length (n : nat) (cp cp' : Z) (s s' : bytes) :
  continuation_bytes n cp s = Some (cp', s') -> length s = (n + length s')%nat.
Proof.
  revert cp s. induction n as [|n IH]; intros cp [|b s]; cbn; try naive_solver.
  destruct (_ =? _); [|done]. intros H%IH. lia.
Qed.

(** Decoding consumes between one byte and the whole input. *)
Lemma next_length (s rest : bytes) (c : Z) :
  next_utf8_code_point s = Some (c, rest) -> (length rest < length s)%nat.
Proof.
  destruct s as [|b s]; [done|]. cbn [next_utf8_code_point].
  destruct (_ <=? _); [intros [= -> ->]; cbn; lia|].
  destruct (lead_byte b) as [[[n cp] m]|]; mcbn; [|done].
  destruct (_ <? _)%nat; [done|].
  destruct (continuation_bytes n cp s) as [[cp' s']|] eqn:E; mcbn; [|done].
  apply continuation_length in E. destruct (_ || _); [done|].
  intros [= _ <-]. cbn; lia.
Qed.

#[export] Instance count_decreases : Decreases unread count_step.
Proof.
  intros [s n] [s' n']. destruct s as [|b s]; [done|]. unfold count_step.
  destruct (next_utf8_code_point _) as [[c rest]|] eqn:E; [|done].
  intros [= <- <-]. by apply next_length in E.
Qed.

#[export] Instance replace_decreases : Decreases unread replace_step.
Proof.
  intros [s o] [s' o']. destruct s as [|b s]; [done|]. unfold replace_step.
  destruct (next_utf8_code_point _) as [[c rest]|] eqn:E; intros [= <- <-].
  - by apply next_length in E.
  - cbn; lia.
Qed.

Lemma is_scalar_spec (c : Z) :
  is_scalar c = true <-> (0 <= c <= 0x10ffff /\ ~ (0xd800 <= c <= 0xdfff)).
Proof. unfold is_scalar. lia. Qed.

Lemma utf8_encode_bytes (c : Z) : is_scalar c = true -> bytes_ok (utf8_encode c).
Proof.
  rewrite is_scalar_spec. intros Hc. unfold utf8_encode, is_byte.
  repeat case_match; zb; repeat constructor; dlia.
Qed.

Lemma utf8_encode_length (c : Z) : (1 <= length (utf8_encode c) <= 4)%nat.
Proof. unfold utf8_encode. repeat case_match; cbn; lia. Qed.

Lemma decode_sound (s rest : bytes) (c : Z) :
  bytes_ok s -> next_utf8_code_point s = Some (c, rest) ->
  is_scalar c = true /\ s = utf8_encode c ++ rest.
Proof.
  intros Hs. destruct s as [|b0 s]; [done|]. inv_forall.
  cbn [next_utf8_code_point]. case_match; zb.
  { intros [= -> ->]. unfold is_byte, is_scalar, utf8_encode in *. by repeat ztest. }
  rewrite lead_byte_spec by done.
  repeat case_match; zb; try done; mcbn; simplify_eq.
  all: destruct (_ <? _)%nat; [done|].
  all: repeat match goal with
       | |- context [continuation_bytes (S ?n) ?cp ?t] =>
           destruct t as [|? t]; [done|]; inv_forall;
           rewrite continuation_cons by done; case_match; zb; [|done]
       end.
  all: cbn [continuation_bytes]; mcbn; case_match; zb; [done|]; intros [= <- <-].
  all: split; [apply is_scalar_spec; lia|].
  all: unfold utf8_encode; repeat ztest; cbn; repeat f_equal; dlia.
Qed.

Lemma decode_complete (c : Z) (rest : bytes) :
  is_scalar c = true -> next_utf8_code_point (utf8_encode c ++ rest) = Some (c, rest).
Proof.
  intros Hc. pose proof (utf8_encode_bytes c Hc) as Hb. apply is_scalar_spec in Hc.
  unfold utf8_encode in *.
  repeat case_match; zb; cbn [app next_utf8_code_point length].
  { by ztest. }
  all: inv_forall; unfold is_byte in *.
  all: rewrite lead_byte_spec by done.
  all: repeat dtest; mcbn; rewrite (proj2 (Nat.ltb_ge _ _)) by lia.
  all: repeat (rewrite continuation_cons by done; repeat dtest).
  all: cbn [continuation_bytes]; mcbn.
  all: match goal with
       | |- (if ?b then _ else Some (?e, _)) = Some (?c, _) =>
           replace b with false by dlia; replace e with c by dlia
       end; done.
Qed.

(** *** The loops over a text *)

Lemma utf8_text_cons (c : Z) (cs : list Z) :
  utf8_text (c :: cs) = utf8_encode c ++ utf8_text cs.
Proof. done. Qed.

Lemma utf8_text_app (cs ds : list Z) :
  utf8_text (cs ++ ds) = utf8_text cs ++ utf8_text ds.
Proof. unfold utf8_text. by rewrite map_app, concat_app. Qed.

(** Induction over a byte string the way the loops cut it: off a scalar when
    one starts here, off one byte otherwise. *)
Lemma scan_ind (P : bytes -> Prop) :
  P [] ->
  (forall c rest, is_scalar c = true -> bytes_ok rest ->
     P rest -> P (utf8_encode c ++ rest)) ->
  (forall b rest, is_byte b -> bytes_ok rest ->
     next_utf8_code_point (b :: rest) = None -> P rest -> P (b :: rest)) ->
  forall s, bytes_ok s -> P s.
Proof.
  intros Hnil Hgood Hbad s. remember (length s) as n eqn:Hn.
  revert s Hn. induction n as [n IH] using lt_wf_ind. intros s -> Hs.
  destruct s as [|b s]; [done|].
  destruct (next_utf8_code_point (b :: s)) as [[c rest]|] eqn:E.
  - pose proof (next_length _ _ _ E). destruct (decode_sound _ _ _ Hs E) as [Hc Heq].
    rewrite Heq in Hs |- *. inv_forall. apply Hgood; [done..|]. by eapply IH.
  - inv_forall. apply Hbad; [done..|]. eapply IH; [|done..]. cbn; lia.
Qed.

Lemma encode_nonempty (c : Z) (rest : bytes) :
  exists b s, utf8_encode c ++ rest = b :: s.
Proof.
  pose proof (utf8_encode_length c). destruct (utf8_encode c); cbn in *; [lia|eauto].
Qed.

(** The counting loop and the sanitising loop, by scalar and by bad byte. *)
Definition count_from (s : bytes) (n : nat) : option nat :=
  run unread count_step (s, n).
Definition replace_from (s output : bytes) : bytes :=
  run unread replace_step (s, output).

Lemma count_from_nil n : count_from [] n = Some n.
Proof. unfold count_from. by rewrite run_eq. Qed.

Lemma count_from_scalar c rest n :
  is_scalar c = true -> count_from (utf8_encode c ++ rest) n = count_from rest (S n).
Proof.
  intros Hc. unfold count_from. rewrite run_eq. unfold count_step at 1.
  rewrite decode_complete by done.
  destruct (encode_nonempty c rest) as (b & s & ->). done.
Qed.

Lemma count_from_bad b rest n :
  next_utf8_code_point (b :: rest) = None -> count_from (b :: rest) n = None.
Proof. intros H. unfold count_from. rewrite run_eq. unfold count_step at 1. by rewrite H. Qed.

Lemma replace_from_nil o : replace_from [] o = o.
Proof. unfold replace_from. by rewrite run_eq. Qed.

Lemma replace_from_scalar c rest o :
  is_scalar c = true ->
  replace_from (utf8_encode c ++ rest) o = replace_from rest (o ++ utf8_encode c).
Proof.
  intros Hc. unfold replace_from. rewrite run_eq. unfold replace_step at 1.
  rewrite decode_complete by done.
  destruct (encode_nonempty c rest) as (b & s & E). rewrite E, <- E.
  replace (length _ - length rest)%nat with (length (utf8_encode c))
    by (rewrite length_app; lia).
  by rewrite take_app_length.
Qed.

Lemma replace_from_bad b rest o :
  next_utf8_code_point (b :: rest) = None ->
  replace_from (b :: rest) o = replace_from rest (o ++ replacement_character).
Proof. intros H. unfold replace_from. rewrite run_eq. unfold replace_step at 1. by rewrite H. Qed.

Lemma count_from_text cs n :
  Forall (fun c => is_scalar c = true) cs ->
  count_from (utf8_text cs) n = Some (length cs + n)%nat.
Proof.
  intros Hcs. revert n. induction Hcs as [|c cs Hc _ IH]; intros n.
  - apply count_from_nil.
  - rewrite utf8_text_cons, count_from_scalar, IH by done. f_equal. cbn; lia.
Qed.

Lemma count_from_sound s n m :
  bytes_ok s -> count_from s n = Some m ->
  exists cs, Forall (fun c => is_scalar c = true) cs /\ s = utf8_text cs /\ m = (length cs + n)%nat.
Proof.
  intros Hs. revert n. pattern s. apply scan_ind; [| | |done]; clear s Hs.
  - intros n. rewrite count_from_nil. intros [= ->]. by exists [].
  - intros c rest Hc _ IH n. rewrite count_from_scalar by done.
    intros (cs & Hcs & -> & ->)%IH. exists (c :: cs). rewrite utf8_text_cons.
    split_and!; [by constructor|done|cbn; lia].
  - intros b rest _ _ Hb _ n. by rewrite count_from_bad.
Qed.

(** What the sanitiser produces, as a relation on input and output. *)
Inductive sanitised : bytes -> bytes -> Prop :=
| sanitised_nil : sanitised [] []
| sanitised_scalar c rest out :
    is_scalar c = true -> sanitised rest out ->
    sanitised (utf8_encode c ++ rest) (utf8_encode c ++ out)
| sanitised_byte b rest out :
    (forall c tail, is_scalar c = true -> b :: rest <> utf8_encode c ++ tail) ->
    sanitised rest out ->
    sanitised (b :: rest) (replacement_character ++ out).

Lemma decode_none (s : bytes) :
  next_utf8_code_point s = None ->
  forall c tail, is_scalar c = true -> s <> utf8_encode c ++ tail.
Proof. intros H c tail Hc ->. by rewrite decode_complete in H. Qed.

Lemma replace_from_sanitised (s o : bytes) :
  bytes_ok s -> exists out, replace_from s o = o ++ out /\ sanitised s out.
Proof.
  intros Hs. revert o. pattern s. apply scan_ind; [| | |done]; clear s Hs.
  - intros o. exists []. rewrite replace_from_nil, app_nil_r. split; [done|constructor].
  - intros c rest Hc _ IH o. rewrite replace_from_scalar by done.
    destruct (IH (o ++ utf8_encode c)) as (out & -> & Hout).
    exists (utf8_encode c ++ out). rewrite app_assoc. split; [done|by constructor].
  - intros b rest _ _ Hb IH o. rewrite replace_from_bad by done.
    destruct (IH (o ++ replacement_character)) as (out & -> & Hout).
    exists (replacement_character ++ out). rewrite app_assoc.
    split; [done|]. constructor; [by apply decode_none|done].
Qed.

Lemma sanitised_valid (s out : bytes) : sanitised s out -> valid_utf8 out.
Proof.
  induction 1 as [|c rest out Hc _ (cs & Hcs & ->)|b rest out _ _ (cs & Hcs & ->)].
  - by exists [].
  - exists (c :: cs). split; [by constructor|done].
  - exists (0xfffd :: cs). split; [by constructor|done].
Qed.

Lemma replace_from_text cs o :
  Forall (fun c => is_scalar c = true) cs ->
  replace_from (utf8_text cs) o = o ++ utf8_text cs.
Proof.
  intros Hcs. revert o. induction Hcs as [|c cs Hc _ IH]; intros o.
  - by rewrite replace_from_nil, app_nil_r.
  - rewrite utf8_text_cons, replace_from_scalar, IH by done. by rewrite app_assoc.
Qed.

Lemma utf8_text_bytes cs :
  Forall (fun c => is_scalar c = true) cs -> bytes_ok (utf8_text cs).
Proof.
  induction 1; [constructor|]. rewrite utf8_text_cons.
  apply Forall_app; split; [by apply utf8_encode_bytes|done].
Qed.

(** ** Properties *)

(** The decoder accepts exactly the well-formed UTF-8 sequences: it
    returns a code point and the rest of the input if and only if the code
    point is a Unicode scalar and the input is that scalar's encoding followed
    by the rest.  Overlong forms, surrogates, truncated sequences and code
    points above U+10FFFF are therefore all refused, and nothing else is. *)
Theorem next_utf8_code_point_exact (s rest : bytes) (c : Z) :
  bytes_ok s ->
  next_utf8_code_point s = Some (c, rest) <->
  is_scalar c = true /\ s = utf8_encode c ++ rest.
Proof.
  intros Hs. split; [by apply decode_sound|].
  intros [Hc ->]. by apply decode_complete.
Qed.

Lemma next_utf8_code_point_exact_witness :
  next_utf8_code_point [0xe2; 0x82; 0xac; 0x41] = Some (0x20ac, [0x41]).
Proof.
  apply next_utf8_code_point_exact; [|split; reflexivity].
  repeat constructor; vm_compute; congruence.
Defined.

(** The sanitiser is total and copies every valid scalar and replaces each
    byte that starts none by U+FFFD, no more and no less; its output is valid
    UTF-8, and an input that already is valid comes back unchanged. *)
Theorem replace_invalid_utf8_correct (input : bytes) :
  bytes_ok input ->
  sanitised input (replace_invalid_utf8 input) /\
  valid_utf8 (replace_invalid_utf8 input) /\
  (valid_utf8 input -> replace_invalid_utf8 input = input).
Proof.
  intros Hs. destruct (replace_from_sanitised input [] Hs) as (out & Hout & Hsan).
  change (replace_invalid_utf8 input) with (replace_from input []).
  cbn [app] in Hout. rewrite Hout. split_and!; [done|by eapply sanitised_valid|].
  intros (cs & Hcs & ->). rewrite replace_from_text in Hout by done. by rewrite <- Hout.
Qed.

Lemma replace_invalid_utf8_correct_witness :
  valid_utf8 (replace_invalid_utf8 [0x41; 0xff; 0xc3; 0xa9]) /\
  replace_invalid_utf8 [0x41; 0xff; 0xc3; 0xa9] = [0x41; 0xef; 0xbf; 0xbd; 0xc3; 0xa9].
Proof.
  split; [|reflexivity].
  apply replace_invalid_utf8_correct. repeat constructor; vm_compute; congruence.
Defined.

(** The counter returns [n] exactly when the input is the encoding of [n]
    scalars, and refuses every other input. *)
Theorem utf8_code_point_count_exact (input : bytes) (n : nat) :
  bytes_ok input ->
  utf8_code_point_count input = Some n <->
  exists cs, Forall (fun c => is_scalar c = true) cs /\
             input = utf8_text cs /\ n = length cs.
Proof.
  intros Hs. change (utf8_code_point_count input) with (count_from input 0). split.
  - intros (cs & ? & ? & ->)%count_from_sound; [|done]. exists cs. by rewrite Nat.add_0_r.
  - intros (cs & Hcs & -> & ->). rewrite count_from_text, Nat.add_0_r by done. done.
Qed.

Lemma utf8_code_point_count_exact_witness :
  exists cs, Forall (fun c => is_scalar c = true) cs /\
             [0x41; 0xc3; 0xa9] = utf8_text cs /\ 2%nat = length cs.
Proof.
  apply (utf8_code_point_count_exact [0x41; 0xc3; 0xa9] 2); [|reflexivity].
  repeat constructor; vm_compute; congruence.
Defined.
