(* ===== verification/Unicode.v ===== *)
(** * UTF-8 and SQLWCHAR conversion

    Models [odbc/unicode.cpp].  [sizeof(SQLWCHAR)] is 2 under unixODBC and
    Windows and 4 under iODBC; the code's [if constexpr] on it is the
    parameter [wide].  A wide buffer is the list of its units, each as the
    [std::uint32_t] that [read_wide_unit] yields. *)

From S2P Require Import Prelude Utf8.

(** ** Definitions *)

Inductive wide := W16 | W32.

(** [std::numeric_limits<SQLWCHAR>::max()]; the four-byte type is a signed [wchar_t]. *)
Definition wchar_max (w : wide) : Z :=
  match w with W16 => 0xffff | W32 => 0x7fffffff end.

Definition SIZE_MAX : Z := 2 ^ 64 - 1.
Definition SQL_NTS : Z := -3.

(** [append_utf8]: the output extended, or [None] where the code returns false. *)
Definition append_utf8 (output : bytes) (code_point : Z) : option bytes :=
  if code_point <=? 0x7f then Some (output ++ [code_point])
  else if code_point <=? 0x7ff then
    Some (output ++ [Z.lor 0xc0 (Z.shiftr code_point 6);
                     Z.lor 0x80 (Z.land code_point 0x3f)])
  else if code_point <=? 0xffff then
    if (0xd800 <=? code_point) && (code_point <=? 0xdfff) then None
    else Some (output ++ [Z.lor 0xe0 (Z.shiftr code_point 12);
                          Z.lor 0x80 (Z.land (Z.shiftr code_point 6) 0x3f);
                          Z.lor 0x80 (Z.land code_point 0x3f)])
  else if code_point <=? 0x10ffff then
    Some (output ++ [Z.lor 0xf0 (Z.shiftr code_point 18);
                     Z.lor 0x80 (Z.land (Z.shiftr code_point 12) 0x3f);
                     Z.lor 0x80 (Z.land (Z.shiftr code_point 6) 0x3f);
                     Z.lor 0x80 (Z.land code_point 0x3f)])
  else None.

(** The code point read at the front of the unread units, with the units
    after it: [decode_wide_bytes] up to its range check. *)
Definition read_code_point (w : wide) (unit : Z) (rest : list Z) : option (Z * list Z) :=
  match w with
  | W32 => Some (unit, rest)
  | W16 =>
      if (0xd800 <=? unit) && (unit <=? 0xdbff) then
        match rest with
        | [] => None
        | low :: rest' =>
            if (low <? 0xdc00) || (0xdfff <? low) then None
            else Some (0x10000 + Z.shiftl (unit - 0xd800) 10 + (low - 0xdc00), rest')
        end
      else if (0xdc00 <=? unit) && (unit <=? 0xdfff) then None
      else Some (unit, rest)
  end.

Definition bytes_needed (code_point : Z) : Z :=
  if code_point <=? 0x7f then 1 else if code_point <=? 0x7ff then 2
  else if code_point <=? 0xffff then 3 else 4.

(** One iteration of [decode_wide_bytes].  The result carries the string
    returned and whether [*exceeded] was set. *)
Definition decode_wide_step (w : wide) (max_bytes : Z) (st : list Z * bytes)
    : (list Z * bytes) + (option bytes * bool) :=
  let '(units, output) := st in
  match units with
  | [] => inr (Some output, false)
  | unit :: rest =>
      match read_code_point w unit rest with
      | None => inr (None, false)
      | Some (code_point, rest') =>
          if (0x10ffff <? code_point)
             || ((0xd800 <=? code_point) && (code_point <=? 0xdfff))
          then inr (None, false)
          else if max_bytes - size output <? bytes_needed code_point
          then inr (None, true)
          else match append_utf8 output code_point with
               | None => inr (None, false)
               | Some output' => inl (rest', output')
               end
      end
  end.

Definition decode_wide_bytes (w : wide) (units : list Z) (max_bytes : Z)
    : option bytes * bool :=
  run unread (decode_wide_step w max_bytes) (units, []).

Definition wide_to_utf8 (w : wide) (input : list Z) : option bytes :=
  (decode_wide_bytes w input SIZE_MAX).1.

(** The units before the terminator, when the buffer holds one: the
    [while (read_wide_unit(bytes, units) != 0) ++units] scan.  [None]: the scan
    leaves the buffer. *)
Fixpoint nts_units (buffer : list Z) : option (list Z) :=
  match buffer with
  | [] => None
  | unit :: rest => if unit =? 0 then Some [] else cons unit <$> nts_units rest
  end.

(** The same scan with its bound: stop at [max_bytes] units. *)
Fixpoint nts_units_bounded (buffer : list Z) (max_bytes : Z) : option (list Z + unit) :=
  match buffer with
  | [] => None
  | unit :: rest =>
      if unit =? 0 then Some (inl [])
      else if max_bytes =? 0 then Some (inr tt)
      else match nts_units_bounded rest (max_bytes - 1) with
           | Some (inl us) => Some (inl (unit :: us))
           | r => r
           end
  end.

(** The first [length] units of the buffer; [None]: the buffer is shorter. *)
Definition counted_units (buffer : list Z) (length : Z) : option (list Z) :=
  if (Datatypes.length buffer <? Z.to_nat length)%nat then None
  else Some (take (Z.to_nat length) buffer).

(** [sqlwchar_to_utf8].  A null pointer is [None]; the outer [None] of the
    result is a read outside the caller's buffer, which C++ leaves undefined. *)
Definition sqlwchar_to_utf8 (w : wide) (input : option (list Z)) (length : Z)
    : option (option bytes) :=
  match input with
  | None => Some (Some [])
  | Some buffer =>
      if length =? SQL_NTS then
        units ← nts_units buffer; Some (decode_wide_bytes w units SIZE_MAX).1
      else if length <? 0 then Some None
      else units ← counted_units buffer length;
           Some (decode_wide_bytes w units SIZE_MAX).1
  end.

(** [sqlwchar_to_utf8_bounded], with the final value of [exceeded]. *)
Definition sqlwchar_to_utf8_bounded (w : wide) (input : option (list Z))
    (length max_bytes : Z) : option (option bytes * bool) :=
  match input with
  | None => Some (Some [], false)
  | Some buffer =>
      if length =? SQL_NTS then
        scanned ← nts_units_bounded buffer max_bytes;
        match scanned with
        | inr _ => Some (None, true)
        | inl units => Some (decode_wide_bytes w units max_bytes)
        end
      else if length <? 0 then Some (None, false)
      else if max_bytes <? length then Some (None, true)
      else units ← counted_units buffer length;
           Some (decode_wide_bytes w units max_bytes)
  end.

(** One iteration of [utf8_to_wide]. *)
Definition utf8_to_wide_step (w : wide) (st : bytes * list Z)
    : (bytes * list Z) + option (list Z) :=
  let '(s, output) := st in
  match s with
  | [] => inr (Some output)
  | _ =>
      match next_utf8_code_point s with
      | None => inr None
      | Some (code_point, rest) =>
          match w with
          | W16 =>
              if 0xffff <? code_point then
                let value := code_point - 0x10000 in
                inl (rest, output ++ [0xd800 + Z.shiftr value 10;
                                      0xdc00 + Z.land value 0x3ff])
              else if wchar_max w <? code_point then inr None
              else inl (rest, output ++ [code_point])
          | W32 =>
              if wchar_max w <? code_point then inr None
              else inl (rest, output ++ [code_point])
          end
      end
  end.

Definition utf8_to_wide (w : wide) (input : bytes) : option (list Z) :=
  run unread (utf8_to_wide_step w) (input, []).

(** ** The wide encoding of a text *)

Definition wide_encode (w : wide) (c : Z) : list Z :=
  match w with
  | W32 => [c]
  | W16 => if c <=? 0xffff then [c]
           else [0xd800 + (c - 0x10000) / 1024; 0xdc00 + (c - 0x10000) mod 1024]
  end.

Definition wide_text (w : wide) (cs : list Z) : list Z := concat (map (wide_encode w) cs).

Abbreviation scalars := (Forall (fun c => is_scalar c = true)).

(** A unit read from memory: [SQLWCHAR] widened to [std::uint32_t]. *)
Definition unit_ok (w : wide) (u : Z) : Prop :=
  match w with W16 => 0 <= u < 2 ^ 16 | W32 => 0 <= u < 2 ^ 32 end.

(** ** Lemmas *)

Lemma append_utf8_encode (output : bytes) (c : Z) :
  is_scalar c = true -> append_utf8 output c = Some (output ++ utf8_encode c).
Proof.
  intros Hc%is_scalar_spec. unfold append_utf8, utf8_encode. bits.
  repeat case_match; zb; try lia; repeat f_equal.
  all: match goal with
       | |- Z.lor 0x80 ?b = _ => apply (lor_add 2 b 6); dlia
       | |- Z.lor 0xc0 ?b = _ => apply (lor_add 6 b 5); dlia
       | |- Z.lor 0xe0 ?b = _ => apply (lor_add 14 b 4); dlia
       | |- Z.lor 0xf0 ?b = _ => apply (lor_add 30 b 3); dlia
       end.
Qed.

Lemma bytes_needed_length (c : Z) : bytes_needed c = size (utf8_encode c).
Proof. unfold bytes_needed, utf8_encode. by repeat case_match. Qed.

Lemma read_code_point_length w u rest c rest' :
  read_code_point w u rest = Some (c, rest') -> (length rest' <= length rest)%nat.
Proof. unfold read_code_point. repeat case_match; naive_solver. Qed.

#[export] Instance decode_wide_decreases w m : Decreases unread (decode_wide_step w m).
Proof.
  intros [us o] [us' o']. destruct us as [|u us]; [done|]. cbn [decode_wide_step].
  destruct (read_code_point w u us) as [[c rest]|] eqn:E; [|done].
  apply read_code_point_length in E. repeat case_match; intros [= <- <-]; cbn; lia.
Qed.

#[export] Instance utf8_to_wide_decreases w : Decreases unread (utf8_to_wide_step w).
Proof.
  intros [s o] [s' o']. destruct s as [|b s]; [done|]. unfold utf8_to_wide_step.
  destruct (next_utf8_code_point _) as [[c rest]|] eqn:E; [|done].
  apply next_length in E. repeat case_match; intros [= <- <-]; done.
Qed.

(** Reading a scalar's units, and only those, yields a scalar. *)
Lemma read_code_point_encode w c rest :
  is_scalar c = true ->
  exists u us, wide_encode w c ++ rest = u :: us /\ read_code_point w u us = Some (c, rest).
Proof.
  intros Hc%is_scalar_spec. destruct w; cbn [wide_encode]; [|by eexists _, _].
  case_match; zb; eexists _, _; (split; [reflexivity|]); unfold read_code_point.
  - destruct (_ && _) eqn:E; [lia|]. destruct (_ && _) eqn:E' in |- *; [lia|done].
  - repeat dtest. bits. do 2 f_equal. dlia.
Qed.

Lemma read_code_point_sound w u us c rest :
  Forall (unit_ok w) (u :: us) -> read_code_point w u us = Some (c, rest) ->
  0 <= c /\ (is_scalar c = true -> u :: us = wide_encode w c ++ rest).
Proof.
  intros Hu. inv_forall. unfold read_code_point, wide_encode, unit_ok in *.
  destruct w; [|intros [= <- <-]; split; [lia|done]].
  destruct (_ && _) eqn:E; zb.
  - destruct us as [|low us]; [done|]. inv_forall. case_match; zb; [done|].
    bits. intros [= <- <-]. split; [lia|]. intros _. repeat ztest. cbn.
    repeat f_equal; dlia.
  - destruct (_ && _) eqn:E' in |- *; zb; [done|]. intros [= <- <-].
    split; [lia|]. intros _. by ztest.
Qed.

(** The two conversion loops on a text's encoding. *)
Definition decode_wide_from w m us o := run unread (decode_wide_step w m) (us, o).
Definition to_wide_from w s o := run unread (utf8_to_wide_step w) (s, o).

Lemma decode_wide_from_scalar w m c us o :
  is_scalar c = true ->
  decode_wide_from w m (wide_encode w c ++ us) o =
    if m - size o <? size (utf8_encode c) then (None, true)
    else decode_wide_from w m us (o ++ utf8_encode c).
Proof.
  intros Hc. unfold decode_wide_from. rewrite run_eq.
  destruct (read_code_point_encode w c us Hc) as (u & rest & -> & Hr).
  cbn [decode_wide_step]. rewrite Hr. pose proof (proj1 (is_scalar_spec c) Hc).
  destruct (_ || _) eqn:E; [lia|]. rewrite bytes_needed_length.
  destruct (m - size o <? _); [done|]. by rewrite append_utf8_encode.
Qed.

Lemma to_wide_from_scalar w c s o :
  is_scalar c = true ->
  to_wide_from w (utf8_encode c ++ s) o = to_wide_from w s (o ++ wide_encode w c).
Proof.
  intros Hc. unfold to_wide_from. rewrite run_eq. unfold utf8_to_wide_step at 1.
  rewrite decode_complete by done.
  destruct (encode_nonempty c s) as (b & t & ->). apply is_scalar_spec in Hc.
  destruct w; cbn [wide_encode wchar_max]; [|by ztest].
  destruct (c <=? 0xffff) eqn:E; zb; [by repeat ztest|by repeat ztest; bits].
Qed.

Lemma decode_wide_from_text w m cs o :
  scalars cs -> size o <= m ->
  decode_wide_from w m (wide_text w cs) o =
    if m <? size (o ++ utf8_text cs) then (None, true)
    else (Some (o ++ utf8_text cs), false).
Proof.
  intros Hcs. revert o. induction Hcs as [|c cs Hc _ IH]; intros o Ho.
  - unfold decode_wide_from. rewrite run_eq. cbn. rewrite app_nil_r. by ztest.
  - change (wide_text w (c :: cs)) with (wide_encode w c ++ wide_text w cs).
    rewrite decode_wide_from_scalar by done. unfold size in *.
    rewrite utf8_text_cons. case_match; zb.
    + by rewrite !length_app; ztest.
    + rewrite IH by (rewrite length_app; lia). by rewrite app_assoc.
Qed.

Lemma to_wide_from_text w cs o :
  scalars cs -> to_wide_from w (utf8_text cs) o = Some (o ++ wide_text w cs).
Proof.
  intros Hcs. revert o. induction Hcs as [|c cs Hc _ IH]; intros o.
  - unfold to_wide_from. rewrite run_eq. cbn. by rewrite app_nil_r.
  - rewrite utf8_text_cons, to_wide_from_scalar, IH by done. by rewrite <- app_assoc.
Qed.

(** Every accepted wide input is the encoding of some text. *)
Lemma decode_wide_from_sound w m us o r :
  Forall (unit_ok w) us -> (decode_wide_from w m us o).1 = Some r ->
  exists cs, scalars cs /\ us = wide_text w cs /\ r = o ++ utf8_text cs.
Proof.
  remember (length us) as n eqn:Hn. revert us o Hn.
  induction n as [n IH] using lt_wf_ind. intros us o -> Hus.
  unfold decode_wide_from. rewrite run_eq. destruct us as [|u us].
  { cbn. intros [= ->]. exists []. by rewrite app_nil_r. }
  cbn [decode_wide_step]. destruct (read_code_point w u us) as [[c rest]|] eqn:E; [|done].
  destruct (read_code_point_sound w u us c rest Hus E) as [Hc0 Heq].
  apply read_code_point_length in E. destruct (_ || _) eqn:Hr; [done|].
  assert (Hc : is_scalar c = true) by (apply is_scalar_spec; lia).
  destruct (m - size o <? _); [done|]. rewrite append_utf8_encode by done.
  rewrite (Heq Hc) in Hus |- *. inv_forall.
  intros (cs & Hcs & -> & ->)%(IH (length rest)); [|cbn; lia|done..].
  exists (c :: cs). rewrite utf8_text_cons, app_assoc. by split_and!; [constructor| |].
Qed.

Lemma to_wide_from_sound w s o r :
  bytes_ok s -> to_wide_from w s o = Some r ->
  exists cs, scalars cs /\ s = utf8_text cs /\ r = o ++ wide_text w cs.
Proof.
  intros Hs. revert o. pattern s. apply scan_ind; [| | |done]; clear s Hs.
  - intros o. unfold to_wide_from. rewrite run_eq. cbn. intros [= ->].
    exists []. by rewrite app_nil_r.
  - intros c rest Hc _ IH o. rewrite to_wide_from_scalar by done.
    intros (cs & Hcs & -> & ->)%IH. exists (c :: cs). rewrite <- app_assoc.
    by split_and!; [constructor| |].
  - intros b rest _ _ Hb _ o. unfold to_wide_from. rewrite run_eq.
    unfold utf8_to_wide_step. by rewrite Hb.
Qed.

Lemma utf8_text_size w cs : size (utf8_text cs) <= 4 * size (wide_text w cs).
Proof.
  unfold size. induction cs as [|c cs IH]; [cbn; lia|].
  rewrite utf8_text_cons. change (wide_text w (c :: cs)) with (wide_encode w c ++ wide_text w cs).
  rewrite !length_app. pose proof (utf8_encode_length c).
  assert (1 <= length (wide_encode w c))%nat by (destruct w; cbn; repeat case_match; cbn; lia).
  lia.
Qed.

Lemma wide_text_size w cs : size (wide_text w cs) <= size (utf8_text cs).
Proof.
  unfold size. induction cs as [|c cs IH]; [cbn; lia|].
  rewrite utf8_text_cons. change (wide_text w (c :: cs)) with (wide_encode w c ++ wide_text w cs).
  rewrite !length_app. unfold wide_encode, utf8_encode.
  destruct w; repeat case_match; zb; cbn; lia.
Qed.

(** Enough room in [std::size_t] for every conversion of a wide buffer. *)
Definition fits (us : list Z) : Prop := 4 * size us <= SIZE_MAX.

Lemma wide_to_utf8_text w cs :
  scalars cs -> fits (wide_text w cs) -> wide_to_utf8 w (wide_text w cs) = Some (utf8_text cs).
Proof.
  intros Hcs Hfit. unfold wide_to_utf8.
  change (decode_wide_bytes w ?u ?m) with (decode_wide_from w m u []).
  pose proof (utf8_text_size w cs). unfold fits in Hfit.
  rewrite decode_wide_from_text; [|done|by vm_compute]. cbn [app]. by ztest.
Qed.

(** ** Properties *)

(** For both widths of [SQLWCHAR] the two conversions are inverse
    partial bijections: [utf8_to_wide] turns [s] into [us] exactly when
    [wide_to_utf8] turns [us] back into [s]; what the one accepts and produces
    the other accepts and restores, byte for byte and unit for unit.  Unpaired
    surrogates and malformed UTF-8 are accepted by neither. *)
Theorem utf8_wide_inverse (w : wide) (s : bytes) (us : list Z) :
  bytes_ok s -> Forall (unit_ok w) us -> fits us ->
  utf8_to_wide w s = Some us <-> wide_to_utf8 w us = Some s.
Proof.
  intros Hs Hus Hfit. change (utf8_to_wide w s) with (to_wide_from w s []). split.
  - intros (cs & Hcs & -> & ->)%to_wide_from_sound; [|done]. by apply wide_to_utf8_text.
  - intros (cs & Hcs & -> & ->)%(decode_wide_from_sound w SIZE_MAX us []); [|done].
    cbn [app]. by rewrite to_wide_from_text.
Qed.

Lemma utf8_wide_inverse_witness :
  utf8_to_wide W16 [0x41; 0xf0; 0x9f; 0x98; 0x80] = Some [0x41; 0xd83d; 0xde00].
Proof.
  apply utf8_wide_inverse; [| |vm_compute; congruence|reflexivity].
  - repeat constructor; vm_compute; congruence.
  - repeat constructor; vm_compute; congruence.
Defined.

(** The units a bounded conversion reads, when they lie in the buffer. *)
Definition selected_units (buffer : list Z) (length : Z) : option (list Z) :=
  if length =? SQL_NTS then nts_units buffer else counted_units buffer length.

Lemma nts_bounded_spec buffer m us :
  0 <= m -> nts_units buffer = Some us ->
  nts_units_bounded buffer m =
    Some (if m <? size us then inr tt else inl us).
Proof.
  unfold size. revert m us. induction buffer as [|u b IH]; intros m us Hm; [done|].
  cbn [nts_units nts_units_bounded]. case_match; zb.
  { intros [= <-]. cbn. by ztest. }
  destruct (nts_units b) as [us'|]; [|done]. intros [= <-].
  cbn [length]. destruct (m =? 0) eqn:E; zb; [by ztest|].
  rewrite (IH (m - 1) us') by (lia || done).
  destruct (m <? _) eqn:E'; zb; by ztest.
Qed.

(** The bounded conversion agrees with the text it is given: for units
    that encode a text, it returns the text's UTF-8 with [exceeded] false
    exactly when that UTF-8 has at most [max_bytes] bytes, and otherwise nothing
    with [exceeded] true, for counted and for null-terminated input alike. *)
Theorem sqlwchar_to_utf8_bounded_correct
    (w : wide) (buffer : list Z) (length max_bytes : Z) (cs : list Z) :
  0 <= max_bytes -> scalars cs -> (length = SQL_NTS \/ 0 <= length) ->
  selected_units buffer length = Some (wide_text w cs) ->
  sqlwchar_to_utf8_bounded w (Some buffer) length max_bytes =
    Some (if max_bytes <? size (utf8_text cs) then (None, true)
          else (Some (utf8_text cs), false)).
Proof.
  intros Hm Hcs Hlen Hsel. pose proof (wide_text_size w cs) as Hsize.
  pose proof (decode_wide_from_text w max_bytes cs [] Hcs Hm) as Hdec.
  unfold sqlwchar_to_utf8_bounded, selected_units in *.
  destruct (length =? SQL_NTS) eqn:E.
  - rewrite (nts_bounded_spec _ _ _ Hm Hsel). mcbn.
    destruct (max_bytes <? size (wide_text w cs)) eqn:E'; zb; [by ztest|].
    f_equal. exact Hdec.
  - zb. destruct (length <? 0) eqn:E0; zb; [lia|].
    assert (size (wide_text w cs) = length) as Hl.
    { revert Hsel. unfold counted_units, size. destruct (_ <? _)%nat eqn:El; [done|].
      apply Nat.ltb_ge in El. intros [= <-]. rewrite length_take. lia. }
    destruct (max_bytes <? length) eqn:E'; zb; [by ztest|].
    rewrite Hsel. mcbn. f_equal. exact Hdec.
Qed.

Lemma sqlwchar_to_utf8_bounded_correct_witness :
  sqlwchar_to_utf8_bounded W16 (Some [0x41; 0x20ac; 0; 7]) SQL_NTS 3 = Some (None, true) /\
  sqlwchar_to_utf8_bounded W16 (Some [0x41; 0x20ac; 0; 7]) SQL_NTS 4 =
    Some (Some [0x41; 0xe2; 0x82; 0xac], false).
Proof.
  split.
  - apply (sqlwchar_to_utf8_bounded_correct W16 _ SQL_NTS 3 [0x41; 0x20ac]);
      [lia|by repeat constructor|by left|reflexivity].
  - apply (sqlwchar_to_utf8_bounded_correct W16 _ SQL_NTS 4 [0x41; 0x20ac]);
      [lia|by repeat constructor|by left|reflexivity].
Defined.
