(* ===== verification/Base64.v ===== *)
(** * Base64

    Models [sdk/src/util/base64.cpp]: the strict RFC 4648 codec the SCRAM
    exchange and the credential providers use.  An index into a string is
    [nth], whose default is never reached: the length test that precedes each
    access keeps it in range. *)

From S2P Require Import Prelude Unicode.

(** ** Definitions *)

Definition kAlphabet : bytes :=
  str "ABCDEFGHIJKLMNOPQRSTUVWXYZabcdefghijklmnopqrstuvwxyz0123456789+/".

(** [make_decode_table]: 256 entries of [0xff], then one store per letter. *)
Definition make_decode_table : list Z :=
  foldl (fun table '(i, c) => <[Z.to_nat c := i]> table)
        (replicate 256 0xff) (zip (seqZ 0 (size kAlphabet)) kAlphabet).

Definition kDecode : list Z := Eval vm_compute in make_decode_table.

Definition alphabet_at (i : Z) : Z := nth (Z.to_nat i) kAlphabet 0.
Definition decode_at (c : Z) : Z := nth (Z.to_nat c) kDecode 0xff.

Arguments alphabet_at : simpl never.
Arguments decode_at : simpl never.

(** One iteration of [base64_encode]: the input from [offset] on, and the output. *)
Definition encode_step (st : bytes * bytes) : (bytes * bytes) + bytes :=
  let '(s, output) := st in
  match s with
  | [] => inr output
  | _ =>
      let remaining := size s in
      let block :=
        Z.lor (Z.lor (Z.shiftl (nth 0 s 0) 16)
                     (if 1 <? remaining then Z.shiftl (nth 1 s 0) 8 else 0))
              (if 2 <? remaining then nth 2 s 0 else 0) in
      inl (drop 3 s,
           output ++
           [alphabet_at (Z.land (Z.shiftr block 18) 0x3f);
            alphabet_at (Z.land (Z.shiftr block 12) 0x3f);
            (if 1 <? remaining then alphabet_at (Z.land (Z.shiftr block 6) 0x3f) else ch "=");
            (if 2 <? remaining then alphabet_at (Z.land block 0x3f) else ch "=")])
  end.

Definition base64_encode (input : bytes) : res bytes :=
  if (SIZE_MAX - 2) / 4 * 3 <? size input
  then Throw (length_error "base64 input is too large")
  else Ok (run unread encode_step (input, [])).

(** One iteration of [base64_decode]. *)
Definition decode_step (st : bytes * bytes) : (bytes * bytes) + res bytes :=
  let '(s, output) := st in
  match s with
  | [] => inr (Ok output)
  | _ =>
      let final_block := size s =? 4 in
      let third := nth 2 s 0 in
      let fourth := nth 3 s 0 in
      if (negb final_block && ((third =? ch "=") || (fourth =? ch "=")))
         || ((third =? ch "=") && negb (fourth =? ch "="))
      then inr (Throw (runtime_error "invalid base64 padding"))
      else
        let first_value := decode_at (nth 0 s 0) in
        let second_value := decode_at (nth 1 s 0) in
        let third_value := if third =? ch "=" then 0 else decode_at third in
        let fourth_value := if fourth =? ch "=" then 0 else decode_at fourth in
        if (first_value =? 0xff) || (second_value =? 0xff)
           || (third_value =? 0xff) || (fourth_value =? 0xff)
        then inr (Throw (runtime_error "invalid base64 value"))
        else if ((third =? ch "=") && negb (Z.land second_value 0x0f =? 0))
                || ((fourth =? ch "=") && negb (third =? ch "=")
                    && negb (Z.land third_value 0x03 =? 0))
        then inr (Throw (runtime_error "non-canonical base64 value"))
        else
          let block :=
            Z.lor (Z.lor (Z.lor (Z.shiftl first_value 18) (Z.shiftl second_value 12))
                         (Z.shiftl third_value 6)) fourth_value in
          inl (drop 4 s,
               output
               ++ [Z.land (Z.shiftr block 16) 0xff]
               ++ (if third =? ch "=" then [] else [Z.land (Z.shiftr block 8) 0xff])
               ++ (if fourth =? ch "=" then [] else [Z.land block 0xff]))
  end.

Definition base64_decode (input : bytes) : res bytes :=
  match input with
  | [] => Ok []
  | _ =>
      if negb (size input mod 4 =? 0)
      then Throw (runtime_error "invalid base64 value")
      else run unread decode_step (input, [])
  end.

(** ** Lemmas *)

#[export] Instance encode_decreases : Decreases unread encode_step.
Proof.
  intros [s o] [s' o']. destruct s as [|b s]; [done|]. cbn [encode_step].
  intros [= <- _]. unfold unread. cbn [fst]. rewrite length_drop. cbn [length]. lia.
Qed.

#[export] Instance decode_decreases : Decreases unread decode_step.
Proof.
  intros [s o] [s' o']. destruct s as [|b s]; [done|]. unfold decode_step.
  repeat case_match; intros [= <- _]; unfold unread; cbn [fst]; rewrite length_drop;
    cbn [length]; lia.
Qed.

Lemma kDecode_table : kDecode = make_decode_table.
Proof. by vm_compute. Qed.

(** The two tables are inverse to each other. *)
Lemma decode_alphabet (i : Z) : 0 <= i < 64 -> decode_at (alphabet_at i) = i.
Proof.
  intros Hi. apply Z.eqb_eq.
  assert (forallb (fun i => decode_at (alphabet_at i) =? i) (seqZ 0 64) = true) as H by by vm_compute.
  rewrite forallb_forall in H. apply H, list_elem_of_In, elem_of_seqZ. lia.
Qed.

Lemma decode_letter (c : Z) :
  is_byte c ->
  decode_at c = 0xff \/ exists i, 0 <= i < 64 /\ c = alphabet_at i /\ decode_at c = i.
Proof.
  intros Hc.
  assert (((decode_at c =? 0xff) || ((0 <=? decode_at c) && (decode_at c <? 64)
           && (alphabet_at (decode_at c) =? c))) = true) as H.
  { revert c Hc. apply byte_forall. by vm_compute. }
  zb. destruct H as [H|H]; zb; [by left|right]. exists (decode_at c). auto.
Qed.

Lemma alphabet_not_pad (i : Z) : 0 <= i < 64 -> alphabet_at i <> ch "=".
Proof. intros Hi E. pose proof (decode_alphabet i Hi) as H. rewrite E in H. revert H. by vm_compute; intros <-; lia. Qed.

Lemma alphabet_byte (i : Z) : 0 <= i < 64 -> is_byte (alphabet_at i).
Proof.
  intros Hi. assert (((0 <=? alphabet_at i) && (alphabet_at i <? 256)) = true) as H.
  { assert (forallb (fun i => (0 <=? alphabet_at i) && (alphabet_at i <? 256)) (seqZ 0 64) = true) as H by by vm_compute.
    rewrite forallb_forall in H. apply H, list_elem_of_In, elem_of_seqZ. lia. }
  unfold is_byte. lia.
Qed.

(** The two packings of a 24-bit block. *)
Lemma block_of_bytes (a b c : Z) :
  0 <= b < 256 -> 0 <= c < 256 ->
  Z.lor (Z.lor (Z.shiftl a 16) (Z.shiftl b 8)) c = a * 65536 + b * 256 + c.
Proof.
  intros Hb Hc. rewrite <- Z.lor_assoc. bits. rewrite lor_add8 by done.
  rewrite lor_add16 by lia. lia.
Qed.

Lemma block_of_sextets (p q r t : Z) :
  0 <= q < 64 -> 0 <= r < 64 -> 0 <= t < 64 ->
  Z.lor (Z.lor (Z.lor (Z.shiftl p 18) (Z.shiftl q 12)) (Z.shiftl r 6)) t
  = p * 262144 + q * 4096 + r * 64 + t.
Proof.
  intros Hq Hr Ht. rewrite <- !Z.lor_assoc. bits. rewrite lor_add6 by done.
  rewrite lor_add12, lor_add18 by lia. lia.
Qed.

(** *** One block at a time *)

Definition sextets (a b c : Z) : bytes :=
  [alphabet_at (a / 4); alphabet_at (a mod 4 * 16 + b / 16);
   alphabet_at (b mod 16 * 4 + c / 64); alphabet_at (c mod 64)].

Lemma block_sextets (a b c : Z) :
  0 <= a < 256 -> 0 <= b < 256 -> 0 <= c < 256 ->
  ((a * 65536 + b * 256 + c) / 262144) mod 64 = a / 4 /\
  ((a * 65536 + b * 256 + c) / 4096) mod 64 = a mod 4 * 16 + b / 16 /\
  ((a * 65536 + b * 256 + c) / 64) mod 64 = b mod 16 * 4 + c / 64 /\
  (a * 65536 + b * 256 + c) mod 64 = c mod 64.
Proof. intros. split_and!; dlia. Qed.

Definition encode_from (s o : bytes) : bytes := run unread encode_step (s, o).
Definition decode_from (s o : bytes) : res bytes := run unread decode_step (s, o).

Lemma encode_from_nil o : encode_from [] o = o.
Proof. unfold encode_from. by rewrite run_eq. Qed.

(** A whole group of three bytes; the remaining one or two are padded. *)
Lemma encode_from_group a b c s o :
  is_byte a -> is_byte b -> is_byte c ->
  encode_from (a :: b :: c :: s) o = encode_from s (o ++ sextets a b c).
Proof.
  unfold is_byte. intros Ha Hb Hc. unfold encode_from. rewrite run_eq.
  cbn [encode_step nth drop]. unfold size. cbn [length]. repeat ztest.
  rewrite block_of_bytes by done. bits.
  by destruct (block_sextets a b c) as (-> & -> & -> & ->).
Qed.

Lemma encode_from_two a b o :
  is_byte a -> is_byte b ->
  encode_from [a; b] o =
    o ++ [alphabet_at (a / 4); alphabet_at (a mod 4 * 16 + b / 16);
          alphabet_at (b mod 16 * 4); ch "="].
Proof.
  unfold is_byte. intros Ha Hb. unfold encode_from. rewrite run_eq.
  cbn [encode_step nth drop]. unfold size. cbn [length]. repeat ztest.
  rewrite block_of_bytes, run_eq by lia. cbn [encode_step]. bits.
  destruct (block_sextets a b 0) as (-> & -> & -> & _); [lia..|]. by rewrite Z.add_0_r.
Qed.

Lemma encode_from_one a o :
  is_byte a ->
  encode_from [a] o =
    o ++ [alphabet_at (a / 4); alphabet_at (a mod 4 * 16); ch "="; ch "="].
Proof.
  unfold is_byte. intros Ha. unfold encode_from. rewrite run_eq.
  cbn [encode_step nth drop]. unfold size. cbn [length]. repeat ztest.
  change (Z.lor (Z.shiftl a 16) 0) with (Z.lor (Z.shiftl a 16) (Z.shiftl 0 8)).
  rewrite block_of_bytes, run_eq by lia. cbn [encode_step]. bits.
  destruct (block_sextets a 0 0) as (-> & -> & _ & _); [lia..|]. by rewrite Z.add_0_r.
Qed.

Lemma decode_from_nil o : decode_from [] o = Ok o.
Proof. unfold decode_from. by rewrite run_eq. Qed.

(** The letter a character stands for, when it is in the alphabet. *)
Lemma decode_alphabet_test (i : Z) :
  0 <= i < 64 ->
  (alphabet_at i =? ch "=") = false /\ (decode_at (alphabet_at i) =? 0xff) = false.
Proof.
  intros Hi. pose proof (alphabet_not_pad i Hi). rewrite decode_alphabet by done. lia.
Qed.

Lemma block_bytes (p q r t : Z) :
  0 <= p < 64 -> 0 <= q < 64 -> 0 <= r < 64 -> 0 <= t < 64 ->
  ((p * 262144 + q * 4096 + r * 64 + t) / 65536) mod 256 = p * 4 + q / 16 /\
  ((p * 262144 + q * 4096 + r * 64 + t) / 256) mod 256 = q mod 16 * 16 + r / 4 /\
  (p * 262144 + q * 4096 + r * 64 + t) mod 256 = r mod 4 * 64 + t.
Proof. intros. split_and!; dlia. Qed.

(** Four letters decode to three bytes, in a final or an inner block. *)
Lemma decode_from_letters p q r t s o :
  0 <= p < 64 -> 0 <= q < 64 -> 0 <= r < 64 -> 0 <= t < 64 ->
  decode_from (alphabet_at p :: alphabet_at q :: alphabet_at r :: alphabet_at t :: s) o
  = decode_from s (o ++ [p * 4 + q / 16; q mod 16 * 16 + r / 4; r mod 4 * 64 + t]).
Proof.
  intros Hp Hq Hr Ht. unfold decode_from. rewrite run_eq. cbn [decode_step nth drop].
  destruct (decode_alphabet_test p Hp) as [_ ->], (decode_alphabet_test q Hq) as [_ ->],
    (decode_alphabet_test r Hr) as [-> ->], (decode_alphabet_test t Ht) as [-> ->].
  rewrite andb_false_r. cbn [andb orb negb]. rewrite !decode_alphabet by done.
  rewrite block_of_sextets by done. bits.
  by destruct (block_bytes p q r t) as (-> & -> & ->).
Qed.

Lemma decode_from_pad1 p q r o :
  0 <= p < 64 -> 0 <= q < 64 -> 0 <= r < 64 -> r mod 4 = 0 ->
  decode_from [alphabet_at p; alphabet_at q; alphabet_at r; ch "="] o
  = Ok (o ++ [p * 4 + q / 16; q mod 16 * 16 + r / 4]).
Proof.
  intros Hp Hq Hr Hr4. unfold decode_from. rewrite run_eq. cbn [decode_step nth drop].
  destruct (decode_alphabet_test p Hp) as [_ ->], (decode_alphabet_test q Hq) as [_ ->],
    (decode_alphabet_test r Hr) as [-> ->].
  change (ch "=" =? ch "=") with true. unfold size. cbn -[Z.shiftl Z.shiftr Z.land Z.lor].
  rewrite !decode_alphabet by done. rewrite land_03, Hr4. cbn -[Z.shiftl Z.shiftr Z.land Z.lor].
  rewrite block_of_sextets by lia. bits.
  destruct (block_bytes p q r 0) as (-> & -> & _); [lia..|].
  apply decode_from_nil.
Qed.

Lemma decode_from_pad2 p q o :
  0 <= p < 64 -> 0 <= q < 64 -> q mod 16 = 0 ->
  decode_from [alphabet_at p; alphabet_at q; ch "="; ch "="] o = Ok (o ++ [p * 4 + q / 16]).
Proof.
  intros Hp Hq Hq4. unfold decode_from. rewrite run_eq. cbn [decode_step nth drop].
  destruct (decode_alphabet_test p Hp) as [_ ->], (decode_alphabet_test q Hq) as [_ ->].
  change (ch "=" =? ch "=") with true. unfold size. cbn -[Z.shiftl Z.shiftr Z.land Z.lor].
  rewrite !decode_alphabet by done. rewrite land_0f, Hq4. cbn -[Z.shiftl Z.shiftr Z.land Z.lor].
  change (Z.lor (Z.lor ?x 0) 0) with (Z.lor (Z.lor x (Z.shiftl 0 6)) 0).
  rewrite block_of_sextets by lia. bits.
  destruct (block_bytes p q 0 0) as (-> & _ & _); [lia..|].
  apply decode_from_nil.
Qed.

(** *** Whole strings *)

(** The encoding by groups of three bytes (RFC 4648, section 4). *)
Fixpoint base64_text (s : bytes) : bytes :=
  match s with
  | [] => []
  | [a] => [alphabet_at (a / 4); alphabet_at (a mod 4 * 16); ch "="; ch "="]
  | [a; b] => [alphabet_at (a / 4); alphabet_at (a mod 4 * 16 + b / 16);
               alphabet_at (b mod 16 * 4); ch "="]
  | a :: b :: c :: s' => sextets a b c ++ base64_text s'
  end.

Lemma triple_ind (P : bytes -> Prop) :
  P [] -> (forall a, P [a]) -> (forall a b, P [a; b]) ->
  (forall a b c s, P s -> P (a :: b :: c :: s)) -> forall s, P s.
Proof.
  intros H0 H1 H2 H3. fix IH 1. intros [|a [|b [|c s]]]; [done|done|done|].
  apply H3, IH.
Qed.

Lemma encode_from_text s o : bytes_ok s -> encode_from s o = o ++ base64_text s.
Proof.
  revert o. induction s as [|a|a b|a b c s IH] using triple_ind; intros o Hs; inv_forall.
  - by rewrite encode_from_nil, app_nil_r.
  - by rewrite encode_from_one.
  - by rewrite encode_from_two.
  - rewrite encode_from_group, IH by done. cbn [base64_text]. by rewrite app_assoc.
Qed.

Lemma decode_from_text s o : bytes_ok s -> decode_from (base64_text s) o = Ok (o ++ s).
Proof.
  revert o. induction s as [|a|a b|a b c s IH] using triple_ind; intros o Hs; inv_forall;
    unfold is_byte in *; cbn [base64_text].
  - by rewrite decode_from_nil, app_nil_r.
  - rewrite decode_from_pad2 by dlia. repeat f_equal. dlia.
  - rewrite decode_from_pad1 by dlia. do 2 f_equal.
    assert (a / 4 * 4 + (a mod 4 * 16 + b / 16) / 16 = a) as -> by dlia.
    by assert ((a mod 4 * 16 + b / 16) mod 16 * 16 + b mod 16 * 4 / 4 = b) as -> by dlia.
  - unfold sextets. cbn [app]. rewrite decode_from_letters, IH by (done || dlia).
    rewrite <- app_assoc. cbn [app].
    assert (a / 4 * 4 + (a mod 4 * 16 + b / 16) / 16 = a) as -> by dlia.
    assert ((a mod 4 * 16 + b / 16) mod 16 * 16 + (b mod 16 * 4 + c / 64) / 4 = b) as -> by dlia.
    by assert ((b mod 16 * 4 + c / 64) mod 4 * 64 + c mod 64 = c) as -> by dlia.
Qed.

(** The three shapes of an accepted block: four letters, or a final block with
    one or two pads and no stray bits before them. *)
Inductive accepted_block : Z -> Z -> Z -> Z -> bytes -> Prop :=
| block_letters p q r t rest :
    0 <= p < 64 -> 0 <= q < 64 -> 0 <= r < 64 -> 0 <= t < 64 ->
    accepted_block (alphabet_at p) (alphabet_at q) (alphabet_at r) (alphabet_at t) rest
| block_pad1 p q r :
    0 <= p < 64 -> 0 <= q < 64 -> 0 <= r < 64 -> r mod 4 = 0 ->
    accepted_block (alphabet_at p) (alphabet_at q) (alphabet_at r) (ch "=") []
| block_pad2 p q :
    0 <= p < 64 -> 0 <= q < 64 -> q mod 16 = 0 ->
    accepted_block (alphabet_at p) (alphabet_at q) (ch "=") (ch "=") [].

Lemma letter_or_pad (c : Z) :
  is_byte c -> ((if c =? ch "=" then 0 else decode_at c) =? 0xff) = false ->
  c = ch "=" \/ exists i, 0 <= i < 64 /\ c = alphabet_at i /\ decode_at c = i.
Proof.
  intros Hc H. destruct (decode_letter c Hc) as [E|?]; [left|by right].
  rewrite E in H. by destruct (c =? ch "=") eqn:E'; zb.
Qed.

Lemma last_block (w x y z : Z) (t : bytes) :
  negb (size (w :: x :: y :: z :: t) =? 4) = false -> t = [].
Proof. unfold size. intros H. zb. destruct t; [done|]. cbn in *. lia. Qed.

Lemma decode_step_accepts w x y z t o st :
  bytes_ok [w; x; y; z] -> decode_step (w :: x :: y :: z :: t, o) = inl st ->
  accepted_block w x y z t.
Proof.
  intros Hs. inv_forall. cbn [decode_step nth].
  destruct (_ || _) eqn:Epad; [done|]. destruct (_ || _) eqn:Eval in |- *; [done|].
  destruct (_ || _) eqn:Ecan in |- *; [done|]. intros _.
  apply orb_false_iff in Eval as [[[Hw Hx]%orb_false_iff Hy]%orb_false_iff Hz].
  apply orb_false_iff in Epad as [Hfin Hpair]. apply orb_false_iff in Ecan as [Hc2 Hc1].
  destruct (decode_letter w) as [?|(p & Hp & -> & Ep)]; [done|lia|].
  destruct (decode_letter x) as [?|(q & Hq & -> & Eq)]; [done|lia|].
  apply letter_or_pad in Hy as [->|(r & Hr & -> & Er)]; [..|done];
    apply letter_or_pad in Hz as [->|(u & Hu & -> & Eu)]; try done.
  - change (ch "=" =? ch "=") with true in *. cbn [orb andb negb] in *.
    rewrite andb_true_r in Hfin. apply last_block in Hfin as ->.
    rewrite Eq, land_0f in Hc2. zb. by constructor.
  - destruct (decode_alphabet_test u Hu) as [Epad _]. by rewrite Epad in Hpair.
  - destruct (decode_alphabet_test r Hr) as [Epad _]. rewrite Epad in *.
    change (ch "=" =? ch "=") with true in *. cbn [orb andb negb] in *.
    rewrite andb_true_r in Hfin. apply last_block in Hfin as ->.
    rewrite Er, land_03 in Hc1. zb. by constructor.
  - by constructor.
Qed.

Lemma decode_from_sound t o r :
  bytes_ok t -> size t mod 4 = 0 -> decode_from t o = Ok r ->
  exists s, bytes_ok s /\ t = base64_text s /\ r = o ++ s.
Proof.
  unfold size. remember (length t) as n eqn:Hn. revert t o Hn.
  induction n as [n IH] using lt_wf_ind. intros t o -> Ht Hmod.
  destruct t as [|w [|x [|y [|z t]]]]; cbn [length] in Hmod; try dlia.
  { rewrite decode_from_nil. intros [= ->]. exists []. by rewrite app_nil_r. }
  intros Hrun.
  assert (accepted_block w x y z t) as Hblock.
  { revert Hrun. unfold decode_from. rewrite run_eq.
    destruct (decode_step _) as [st|r'] eqn:E; [|].
    - intros _. eapply decode_step_accepts; [|exact E]. inv_forall. by repeat (apply Forall_cons; [done|]).
    - revert E. unfold decode_step. repeat case_match; intros [= <-]; done. }
  destruct Hblock as [p q r' u t Hp Hq Hr Hu|p q r' Hp Hq Hr Hr4|p q Hp Hq Hq16].
  - rewrite decode_from_letters in Hrun by done.
    apply (IH (length t)) in Hrun as (s & Hs & -> & ->);
      [|cbn; lia|done|by inv_forall|dlia].
    exists ([p * 4 + q / 16; q mod 16 * 16 + r' / 4; r' mod 4 * 64 + u] ++ s).
    rewrite app_assoc. split_and!; [|cbn [base64_text app]|done].
    { apply Forall_app; split; [|done]. repeat constructor; dlia. }
    unfold sextets. cbn [app]. repeat f_equal; dlia.
  - rewrite decode_from_pad1 in Hrun by done. injection Hrun as <-.
    eexists; split_and!; [| |reflexivity]; [repeat constructor; dlia|].
    cbn [base64_text]. repeat f_equal; dlia.
  - rewrite decode_from_pad2 in Hrun by done. injection Hrun as <-.
    eexists; split_and!; [| |reflexivity]; [repeat constructor; dlia|].
    cbn [base64_text]. repeat f_equal; dlia.
Qed.

Lemma base64_text_size s : size (base64_text s) = 4 * ((size s + 2) / 3).
Proof.
  unfold size. induction s as [|a|a b|a b c s IH] using triple_ind; [done..|].
  cbn [base64_text sextets app length]. rewrite !Nat2Z.inj_succ, IH. dlia.
Qed.

(** ** Encoder and decoder agree with the text *)

Lemma base64_encode_text (s : bytes) :
  bytes_ok s -> size s <= (SIZE_MAX - 2) / 4 * 3 -> base64_encode s = Ok (base64_text s).
Proof.
  intros Hs Hfit. unfold base64_encode. ztest.
  change (run unread encode_step (s, [])) with (encode_from s []).
  by rewrite encode_from_text by done.
Qed.

Lemma base64_decode_text (s : bytes) : bytes_ok s -> base64_decode (base64_text s) = Ok s.
Proof.
  intros Hs. unfold base64_decode. destruct (base64_text s) eqn:E.
  { destruct s as [|? [|? [|? ?]]]; [done|done..]. }
  rewrite <- E, base64_text_size, Z.mul_comm, Z.mod_mul by lia.
  by apply (decode_from_text s []).
Qed.

Lemma base64_decode_sound (s t : bytes) :
  bytes_ok t -> base64_decode t = Ok s -> bytes_ok s /\ t = base64_text s.
Proof.
  intros Ht H. unfold base64_decode in H. destruct t as [|b t].
  { injection H as <-. by split; [constructor|]. }
  destruct (negb _) eqn:E; [done|]. zb.
  by apply (decode_from_sound _ []) in H as (s' & Hs' & -> & ->).
Qed.

(** ** Properties *)

(** Encoder and strict decoder are inverse to each other: [t] is the
    encoding of [s] if and only if the decoder turns [t] into [s].  Decoding
    therefore inverts encoding, and the decoder accepts no second spelling of
    any value: wrong padding, stray bits before the padding, foreign characters
    and lengths that are no multiple of four are all refused.  (The inputs are
    strings whose size a [std::size_t] can hold.) *)
Theorem base64_inverse (s t : bytes) :
  bytes_ok s -> bytes_ok t -> size t <= SIZE_MAX ->
  size s <= (SIZE_MAX - 2) / 4 * 3 ->
  base64_encode s = Ok t <-> base64_decode t = Ok s.
Proof.
  intros Hs Ht Hsize Hfit. rewrite base64_encode_text by done. split.
  - intros [= <-]. by apply base64_decode_text.
  - by intros [_ ->]%base64_decode_sound.
Qed.

Lemma base64_inverse_witness :
  base64_decode (str "/wA=") = Ok [255; 0] /\ base64_encode [255; 0] = Ok (str "/wA=").
Proof.
  split.
  - apply base64_inverse; [..|reflexivity];
      try (vm_compute; congruence); repeat constructor; vm_compute; congruence.
  - apply base64_inverse; [..|reflexivity];
      try (vm_compute; congruence); repeat constructor; vm_compute; congruence.
Defined.
