(* ===== verification/Hex.v ===== *)
(** * Hexadecimal

    Models [sdk/internal/odbcpp/util/hex.h], the codec behind [bytea] parameters
    and binary results. *)

From S2P Require Import Prelude.

(** ** Definitions *)

(** The lambda [digit] of [decode_hex]: the value of a digit, or -1. *)
Definition digit (c : Z) : Z :=
  if (ch "0" <=? c) && (c <=? ch "9") then c - ch "0"
  else if (ch "a" <=? c) && (c <=? ch "f") then c - ch "a" + 10
  else if (ch "A" <=? c) && (c <=? ch "F") then c - ch "A" + 10
  else -1.

(** The loop of [decode_hex], two characters at a time. *)
Fixpoint decode_pairs (value : bytes) : option bytes :=
  match value with
  | c0 :: c1 :: rest =>
      let high := digit c0 in
      let low := digit c1 in
      if (high <? 0) || (low <? 0) then None
      else cons (Z.lor (Z.shiftl high 4) low) <$> decode_pairs rest
  | _ => Some []
  end.

Definition decode_hex (value : bytes) : option bytes :=
  if negb (size value mod 2 =? 0) then None else decode_pairs value.

Definition hex_digits : bytes := str "0123456789abcdef".
Definition hex_digit (n : Z) : Z := nth (Z.to_nat n) hex_digits 0.

Arguments hex_digit : simpl never.

Definition encode_pairs (value : bytes) : bytes :=
  flat_map (fun byte => [hex_digit (Z.shiftr byte 4); hex_digit (Z.land byte 15)]) value.

(** [max_size] is [std::string::max_size()], which the library chooses. *)
Definition encode_hex (max_size : Z) (value : bytes) : res bytes :=
  if max_size / 2 <? size value
  then Throw (length_error "Hexadecimal value is too large")
  else Ok (encode_pairs value).

(** ** Lemmas *)

Definition ascii_lower (c : Z) : Z :=
  if (ch "A" <=? c) && (c <=? ch "Z") then c + 32 else c.

Lemma digit_hex_digit (n : Z) : 0 <= n < 16 -> digit (hex_digit n) = n.
Proof.
  intros Hn. apply Z.eqb_eq.
  assert (forallb (fun n => digit (hex_digit n) =? n) (seqZ 0 16) = true) as H by by vm_compute.
  rewrite forallb_forall in H. apply H, list_elem_of_In, elem_of_seqZ. lia.
Qed.

Lemma digit_lower (c : Z) : is_byte c -> digit (ascii_lower c) = digit c.
Proof. revert c. by apply byte_eqb. Qed.

(** A digit is one of the sixteen, up to case. *)
Lemma digit_spec (c : Z) :
  is_byte c -> digit c = -1 \/ (0 <= digit c < 16 /\ hex_digit (digit c) = ascii_lower c).
Proof.
  intros Hc.
  assert (((digit c =? -1) || ((0 <=? digit c) && (digit c <? 16)
           && (hex_digit (digit c) =? ascii_lower c))) = true) as H.
  { revert c Hc. apply byte_forall. by vm_compute. }
  zb. destruct H as [H|H]; zb; auto.
Qed.

Lemma pack_nibbles (h l : Z) : 0 <= l < 16 -> Z.lor (Z.shiftl h 4) l = h * 16 + l.
Proof. intros Hl. rewrite shl_mul by lia. by rewrite lor_add by lia. Qed.

Lemma pair_ind (P : bytes -> Prop) :
  P [] -> (forall a, P [a]) -> (forall a b s, P s -> P (a :: b :: s)) -> forall s, P s.
Proof. intros H0 H1 H2. fix IH 1. intros [|a [|b s]]; [done|done|]. apply H2, IH. Qed.

Lemma encode_pairs_cons (b : Z) (s : bytes) :
  encode_pairs (b :: s) = hex_digit (b / 16) :: hex_digit (b mod 16) :: encode_pairs s.
Proof. unfold encode_pairs. cbn [flat_map app]. by rewrite shr_div, land_0f by lia. Qed.

Lemma encode_pairs_length (s : bytes) : length (encode_pairs s) = (2 * length s)%nat.
Proof. induction s as [|b s IH]; [done|]. rewrite encode_pairs_cons. cbn [length]. lia. Qed.

Lemma decode_encode_pairs (s t : bytes) :
  bytes_ok s -> bytes_ok t -> map ascii_lower t = encode_pairs s -> decode_pairs t = Some s.
Proof.
  intros Hs. revert t. induction s as [|b s IH]; intros t Ht H; [by destruct t|].
  rewrite encode_pairs_cons in H. inv_forall.
  destruct t as [|c0 [|c1 t]]; [done..|]. injection H as E0 E1 E.
  inv_forall. cbn [decode_pairs]. unfold is_byte in *.
  rewrite <- (digit_lower c0), <- (digit_lower c1), E0, E1, !digit_hex_digit by (done || dlia).
  repeat dtest. rewrite (IH Hs t), pack_nibbles by (done || dlia).
  cbn. do 2 f_equal. dlia.
Qed.

Lemma decode_pairs_sound (t s : bytes) :
  bytes_ok t -> size t mod 2 = 0 -> decode_pairs t = Some s ->
  bytes_ok s /\ map ascii_lower t = encode_pairs s.
Proof.
  revert s. induction t as [|c|c0 c1 t IH] using pair_ind; intros s Ht Hm.
  { intros [= <-]. by split; [constructor|]. }
  { by cbn in Hm. }
  inv_forall. cbn [decode_pairs]. destruct (_ || _) eqn:E; zb; [done|].
  destruct (decode_pairs t) as [s'|]; [|done]. intros [= <-].
  destruct (IH s') as [Hs' Heq]; [done|unfold size in *; cbn [length] in Hm; dlia|done|].
  destruct (digit_spec c0) as [?|[Hh Eh]]; [done|lia|].
  destruct (digit_spec c1) as [?|[Hl El]]; [done|lia|].
  rewrite pack_nibbles by done. split; [by constructor; [unfold is_byte; lia|]|].
  rewrite encode_pairs_cons. cbn [map]. rewrite Heq, <- Eh, <- El.
  repeat f_equal; dlia.
Qed.

(** ** Properties *)

(** Decoding accepts exactly the hexadecimal spellings: [t] decodes to [s]
    if and only if [t], read without regard to letter case, is the encoding of
    [s].  In particular decoding inverts encoding, odd lengths and foreign
    characters are refused, and an encoding has twice the length of its input. *)
Theorem hex_roundtrip (max_size : Z) (s t : bytes) :
  bytes_ok s -> bytes_ok t -> size s <= max_size / 2 ->
  decode_hex t = Some s <-> encode_hex max_size s = Ok (map ascii_lower t).
Proof.
  intros Hs Ht Hmax. unfold encode_hex, decode_hex. ztest. split.
  - destruct (negb _) eqn:E; [done|]. zb.
    intros [_ ->]%decode_pairs_sound; done.
  - intros [= E]. assert (size t = 2 * size s) as Hlen.
    { unfold size. rewrite <- (length_map ascii_lower t), <- E, encode_pairs_length. lia. }
    rewrite Hlen, Z.mul_comm, Z.mod_mul by lia. by apply decode_encode_pairs.
Qed.

Lemma hex_roundtrip_witness :
  decode_hex (str "0aFf") = Some [10; 255] /\ encode_hex 1000 [10; 255] = Ok (str "0aff").
Proof.
  split; [apply (hex_roundtrip 1000)|apply (hex_roundtrip 1000 _ (str "0AFF"))];
    try reflexivity; try (vm_compute; congruence); repeat constructor; vm_compute; congruence.
Defined.
