(* ===== verification/Digits.v ===== *)
(** * Decimal digit strings

    What the driver's numeric code shares: the value of a digit string and the
    Standard Library's [std::from_chars] for integers ([charconv]). *)

From S2P Require Import Prelude.

(** ** Digit strings *)

Definition digit_step (acc c : Z) : Z := acc * 10 + (c - ch "0").
Definition digits_value (s : bytes) : Z := foldl digit_step 0 s.

Abbreviation digits := (Forall (fun c => isdigit c = true)).

Lemma isdigit_spec (c : Z) : isdigit c = true <-> 48 <= c <= 57.
Proof. unfold isdigit. lia. Qed.

Lemma forallb_digits (s : bytes) : forallb isdigit s = true <-> digits s.
Proof. by rewrite forallb_forall, List.Forall_forall. Qed.

Lemma foldl_digits (s : bytes) (a : Z) :
  foldl digit_step a s = a * 10 ^ size s + digits_value s.
Proof.
  unfold digits_value, size. revert a. induction s as [|c s IH]; intros a; cbn [foldl length].
  { rewrite Z.pow_0_r. lia. }
  rewrite IH, (IH (digit_step 0 c)), Nat2Z.inj_succ, Z.pow_succ_r by lia.
  unfold digit_step. lia.
Qed.

Lemma digits_value_app (s t : bytes) :
  digits_value (s ++ t) = digits_value s * 10 ^ size t + digits_value t.
Proof. unfold digits_value at 1. by rewrite foldl_app, foldl_digits. Qed.

Lemma digits_value_cons (c : Z) (s : bytes) :
  digits_value (c :: s) = (c - ch "0") * 10 ^ size s + digits_value s.
Proof. unfold digits_value at 1. cbn [foldl]. rewrite foldl_digits. unfold digit_step. lia. Qed.

Lemma pow10_pos (n : Z) : 0 <= n -> 0 < 10 ^ n.
Proof. intros. apply Z.pow_pos_nonneg; lia. Qed.

Lemma digits_value_bounds (s : bytes) : digits s -> 0 <= digits_value s < 10 ^ size s.
Proof.
  induction 1 as [|c s Hc%isdigit_spec _ IH]; [by vm_compute|].
  rewrite digits_value_cons, size_cons, Z.pow_add_r, Z.pow_1_r by (auto with core || lia).
  pose proof (pow10_pos (size s) (size_nonneg s)). nia.
Qed.

(** Cutting a digit string divides its value. *)
Lemma digits_value_take (s : bytes) (n : nat) :
  digits s -> (n <= length s)%nat ->
  digits_value (take n s) = digits_value s / 10 ^ (size s - Z.of_nat n) /\
  digits_value (drop n s) = digits_value s mod 10 ^ (size s - Z.of_nat n).
Proof.
  intros Hs Hn. assert (size (drop n s) = size s - Z.of_nat n) as Hsz.
  { unfold size. rewrite length_drop. lia. }
  rewrite <- (take_drop n s) in Hs. apply Forall_app in Hs as [_ Hd].
  apply digits_value_bounds in Hd. rewrite Hsz in Hd.
  pose proof (digits_value_app (take n s) (drop n s)) as E. rewrite take_drop, Hsz in E.
  set (m := 10 ^ (size s - Z.of_nat n)) in *. split.
  - apply (Z.div_unique_pos _ _ _ (digits_value (drop n s))); lia.
  - apply (Z.mod_unique_pos _ _ (digits_value (take n s))); lia.
Qed.

Lemma digits_value_zero (s : bytes) :
  digits s -> digits_value s = 0 <-> Forall (fun c => c = ch "0") s.
Proof.
  induction 1 as [|c s Hc%isdigit_spec Hs IH]; [by vm_compute|].
  rewrite digits_value_cons. pose proof (digits_value_bounds s Hs).
  pose proof (pow10_pos (size s) (size_nonneg s)). split.
  - intros E. assert (c = 48 /\ digits_value s = 0) as [-> E0] by nia.
    constructor; [done|by apply IH].
  - intros F. inv_forall. rewrite (proj2 IH) by done. lia.
Qed.

Lemma digits_value_zeros (n : nat) : digits_value (replicate n (ch "0")) = 0.
Proof. induction n; [done|]. cbn [replicate]. rewrite digits_value_cons. lia. Qed.

Lemma digits_value_head (c : Z) (s : bytes) :
  digits (c :: s) -> c <> ch "0" -> 10 ^ size s <= digits_value (c :: s).
Proof.
  intros Hs Hc. inv_forall. match goal with H : isdigit c = true |- _ => apply isdigit_spec in H end.
  rewrite digits_value_cons.
  pose proof (digits_value_bounds s Hs). pose proof (pow10_pos (size s) (size_nonneg s)). nia.
Qed.

Lemma digits_replicate (n : nat) : digits (replicate n (ch "0")).
Proof. by apply Forall_replicate. Qed.

(** ** [std::to_string] of an unsigned integer *)

Fixpoint decimal_digits (fuel : nat) (n : Z) (acc : bytes) : bytes :=
  match fuel with
  | O => acc
  | S fuel =>
      if n <? 10 then (ch "0" + n) :: acc
      else decimal_digits fuel (n / 10) ((ch "0" + n mod 10) :: acc)
  end.

(** A number below [2 ^ k] has at most [k] decimal digits. *)
Definition to_string (n : Z) : bytes := decimal_digits (S (Z.to_nat (Z.log2 n))) n [].

Lemma decimal_digits_spec (fuel : nat) (n : Z) (acc : bytes) :
  0 <= n < 2 ^ Z.of_nat fuel -> (0 < fuel)%nat ->
  exists ds, decimal_digits fuel n acc = ds ++ acc /\ digits ds /\ ds <> [] /\
    digits_value ds = n /\ (head ds = Some (ch "0") -> n = 0).
Proof.
  revert n acc. induction fuel as [|fuel IH]; intros n acc Hn Hf; [lia|].
  cbn [decimal_digits]. destruct (n <? 10) eqn:E; zb.
  - exists [ch "0" + n]. split; [done|]. split; [constructor; [apply isdigit_spec; lia|done]|].
    split; [done|]. split; [unfold digits_value; cbn; unfold digit_step; lia|].
    intros [= ?]. lia.
  - rewrite Nat2Z.inj_succ, Z.pow_succ_r in Hn by lia.
    assert (0 < fuel)%nat by (destruct fuel; [cbn in Hn|]; lia).
    destruct (IH (n / 10) ((ch "0" + n mod 10) :: acc)) as (ds & -> & Hds & Hne & Hv & Hh);
      [dlia|done|].
    exists (ds ++ [ch "0" + n mod 10]). rewrite <- app_assoc. split; [done|].
    split; [apply Forall_app; split; [done|]; constructor; [apply isdigit_spec; dlia|done]|].
    split; [by destruct ds|]. split.
    + rewrite digits_value_app, Hv, digits_value_cons. change (digits_value []) with 0.
      change (size [ch "0" + n mod 10]) with 1. change (size []) with 0. rewrite Z.pow_1_r, Z.pow_0_r. dlia.
    + destruct ds as [|d ds]; [done|]. cbn. intros Hd%Hh. dlia.
Qed.

Lemma to_string_spec (n : Z) : 0 <= n ->
  digits (to_string n) /\ to_string n <> [] /\ digits_value (to_string n) = n /\
  (head (to_string n) = Some (ch "0") -> n = 0).
Proof.
  intros Hn. pose proof (Z.log2_nonneg n).
  destruct (decimal_digits_spec (S (Z.to_nat (Z.log2 n))) n []) as (ds & E & H1 & H2 & H3 & H4); [|lia|].
  - rewrite Nat2Z.inj_succ, Z2Nat.id by lia.
    destruct (Z.eq_dec n 0) as [->|]; [by vm_compute|]. pose proof (Z.log2_spec n). lia.
  - unfold to_string. by rewrite E, app_nil_r.
Qed.

(** ** [std::from_chars] for integers *)

Inductive from_chars_result :=
| FromChars (value : Z) (rest : bytes)
| FromCharsInvalid
| FromCharsRange (rest : bytes).

(** An unsigned type whose largest value is [hi]. *)
Definition from_chars_unsigned (hi : Z) (s : bytes) : from_chars_result :=
  match span isdigit s with
  | ([], _) => FromCharsInvalid
  | (ds, rest) =>
      if digits_value ds <=? hi then FromChars (digits_value ds) rest else FromCharsRange rest
  end.

(** A signed type from [lo] to [hi]: one minus sign, no plus sign. *)
Definition from_chars_signed (lo hi : Z) (s : bytes) : from_chars_result :=
  let '(neg, t) := match s with
                   | c :: t => if c =? ch "-" then (true, t) else (false, s)
                   | [] => (false, s)
                   end in
  match span isdigit t with
  | ([], _) => FromCharsInvalid
  | (ds, rest) =>
      let v := if (neg : bool) then - digits_value ds else digits_value ds in
      if (lo <=? v) && (v <=? hi) then FromChars v rest else FromCharsRange rest
  end.
