(* ===== verification/ScaledDecimal.v ===== *)
(** * Scaled decimals

    Models [sdk/src/util/scaled_decimal.cpp]: [rescale_decimal] turns decimal
    text, with an optional exponent, into an integer coefficient at a given
    scale, and [format_scaled_decimal] writes such a value back.  The 64-bit
    intermediate values stay far inside their type (the guards on the sizes keep
    every sum below [2 ^ 63]), so they are plain integers here. *)

From S2P Require Import Prelude Digits.

(** ** Definitions *)

Record ScaledDecimal := { coefficient : bytes; scale : Z; negative : bool }.

Inductive DecimalConversionIssue :=
| None' | InvalidCharacter | OutOfRange | WholeDigitsLost | FractionalTruncation.

Definition whitespace (c : Z) : bool :=
  (c =? ch " ") || (c =? 9) || (c =? 13) || (c =? 10) || (c =? 12) || (c =? 11).

(** [numeric_limits<int64_t>::max() / 8]. *)
Definition safe_size : Z := (2 ^ 63 - 1) / 8.

(** The exponent's digits, saturating at [exponent_limit]. *)
Definition exponent_digit (exponent_limit exponent c : Z) : Z :=
  let next := c - ch "0" in
  if (exponent_limit <? next) || ((exponent_limit - next) / 10 <? exponent)
  then exponent_limit else exponent * 10 + next.

(** An optional sign: whether it is a minus, and what follows it. *)
Definition strip_sign (text : bytes) : bool * bytes :=
  match text with
  | c :: t => if (c =? ch "+") || (c =? ch "-") then (c =? ch "-", t) else (false, text)
  | [] => (false, [])
  end.

(** The optional exponent: its value and what follows it, or [None] when no
    digit follows the letter. *)
Definition parse_exponent (exponent_limit : Z) (s : bytes) : option (Z * bytes) :=
  match s with
  | c :: s1 =>
      if (c =? ch "e") || (c =? ch "E") then
        let '(negative_exponent, s2) := strip_sign s1 in
        let '(ds, s3) := span isdigit s2 in
        match ds with
        | [] => None
        | _ => let exponent := foldl (exponent_digit exponent_limit) 0 ds in
               Some (if negative_exponent then - exponent else exponent, s3)
        end
      else Some (0, s)
  | [] => Some (0, s)
  end.

(** Position of the first digit that is not a zero. *)
Fixpoint find_first_not_zero (s : bytes) : option nat :=
  match s with
  | [] => None
  | c :: t => if c =? ch "0" then S <$> find_first_not_zero t else Some O
  end.

(** The loop over the digits the coefficient drops: [None] when a nonzero digit
    of the whole part is among them, otherwise whether any is nonzero. *)
Fixpoint lost_digits (s : bytes) (index decimal_position : Z) (lost_fraction : bool)
    : option bool :=
  match s with
  | [] => Some lost_fraction
  | c :: t =>
      if c =? ch "0" then lost_digits t (index + 1) decimal_position lost_fraction
      else if index <? decimal_position then None
      else lost_digits t (index + 1) decimal_position true
  end.

(** The second half of [rescale_decimal]: cut the digits at the target scale. *)
Definition place_digits (whole fraction : bytes) (exponent precision sc : Z) (neg : bool)
    : option ScaledDecimal * DecimalConversionIssue :=
  let ds := whole ++ fraction in
  match find_first_not_zero ds with
  | None => (Some {| coefficient := [ch "0"]; scale := sc; negative := false |}, None')
  | Some first =>
      let decimal_position := size whole + exponent in
      let coefficient_end := decimal_position + sc in
      let kept := if coefficient_end <=? 0 then 0 else Z.min coefficient_end (size ds) in
      match lost_digits (drop (Z.to_nat kept) ds) kept decimal_position false with
      | None => (None, WholeDigitsLost)
      | Some lost_fraction =>
          let finish coef :=
            (Some {| coefficient := coef; scale := sc;
                     negative := neg && negb (beq coef [ch "0"]) |},
             if lost_fraction : bool then FractionalTruncation else None') in
          if Z.of_nat first <? coefficient_end then
            if precision <? coefficient_end - Z.of_nat first then (None, OutOfRange)
            else finish (take (Z.to_nat kept - first) (drop first ds)
                         ++ replicate (Z.to_nat (coefficient_end - size ds)) (ch "0"))
          else finish [ch "0"]
      end
  end.

(** The text without its sign, cut into whole part, fraction and rest. *)
Definition split_number (text : bytes) : bytes * bytes * bytes :=
  let '(whole, rest) := span isdigit text in
  match rest with
  | c :: r => if c =? ch "." then let '(fraction, rest') := span isdigit r in
                                  (whole, fraction, rest')
              else (whole, [], rest)
  | [] => (whole, [], rest)
  end.

Definition rescale_decimal (text : bytes) (precision sc : Z)
    : option ScaledDecimal * DecimalConversionIssue :=
  let '(neg, text) := strip_sign (trim_by whitespace text) in
  let scale_extent := if sc <? 0 then - sc else sc in
  if (precision =? 0) || (safe_size <? size text) || (safe_size <? precision)
     || (safe_size <? scale_extent)
  then (None, OutOfRange)
  else
    let exponent_limit := size text + precision + scale_extent + 1 in
    let '(whole, fraction, rest) := split_number text in
    match whole, fraction with
    | [], [] => (None, InvalidCharacter)
    | _, _ =>
        match parse_exponent exponent_limit rest with
        | Some (exponent, []) => place_digits whole fraction exponent precision sc neg
        | _ => (None, InvalidCharacter)
        end
    end.

(** *** Formatting *)

(** Whether the coefficient is nonzero, and its digits without leading zeros. *)
Definition significant_digits (coef : bytes) : bool * bytes :=
  match find_first_not_zero coef with
  | Some first => (true, drop first coef)
  | None => (false, [ch "0"])
  end.

(** The size computation and the output, for the significant digits. *)
Definition format_digits (nonzero : bool) (ds : bytes) (sc : Z) (neg : bool)
    (max_output_bytes : Z) : option bytes :=
  let negative_scale := if sc <? 0 then - sc else 0 in
  let positive_scale := if 0 <? sc then sc else 0 in
  let sign_bytes := if neg && nonzero then 1 else 0 in
  if (max_output_bytes <? sign_bytes) || (max_output_bytes - sign_bytes <? size ds) then None
  else
    let required := size ds + sign_bytes in
    let padding := if size ds <=? positive_scale then positive_scale + 1 - size ds else 0 in
    if (if negb (positive_scale =? 0)
        then max_output_bytes - required <=? padding
        else nonzero && (max_output_bytes - required <? negative_scale))
    then None
    else
      Some ((if sign_bytes =? 0 then [] else [ch "-"]) ++
        (if (size ds <=? positive_scale) && negb (positive_scale =? 0) then
           str "0." ++ replicate (Z.to_nat (positive_scale - size ds)) (ch "0") ++ ds
         else if negb (positive_scale =? 0) then
           let point := Z.to_nat (size ds - positive_scale) in
           take point ds ++ [ch "."] ++ drop point ds
         else ds ++ (if nonzero then replicate (Z.to_nat negative_scale) (ch "0") else []))).

Definition format_scaled_decimal (value : ScaledDecimal) (max_output_bytes : Z) : option bytes :=
  if beq (coefficient value) [] || negb (forallb isdigit (coefficient value)) then None
  else let '(nonzero, ds) := significant_digits (coefficient value) in
       format_digits nonzero ds (scale value) (negative value) max_output_bytes.

(** ** The value of a decimal

    [scale10 D k] is the integer part of [D * 10 ^ k], for any sign of [k], and
    [exact10 D k] says that nothing is cut off. *)

Definition scale10 (D k : Z) : Z := if 0 <=? k then D * 10 ^ k else D / 10 ^ (- k).
Definition exact10 (D k : Z) : bool := (0 <=? k) || (D mod 10 ^ (- k) =? 0).

(** A coefficient: the digits of [n] with no leading zero. *)
Definition canonical (c : bytes) (n : Z) : Prop :=
  digits c /\ digits_value c = n /\ (c = [ch "0"] \/ exists d t, c = d :: t /\ d <> ch "0").

(** What rescaling [(-1)^neg * D * 10 ^ x] to scale [sc] must give: an error if
    a nonzero digit before the point would be dropped, an error if the
    coefficient has more than [precision] digits, and otherwise the coefficient
    truncated toward zero, with the truncation reported. *)
Definition rescale_spec (neg : bool) (D x precision sc : Z)
    (r : option ScaledDecimal * DecimalConversionIssue) : Prop :=
  let W := scale10 D x in
  let N := scale10 D (x + sc) in
  if (sc <? 0) && negb (W mod 10 ^ (- sc) =? 0) then r = (None, WholeDigitsLost)
  else if 10 ^ precision <=? N then r = (None, OutOfRange)
  else exists c, canonical c N /\
       r = (Some {| coefficient := c; scale := sc; negative := neg && negb (N =? 0) |},
            if exact10 D (x + sc) then None' else FractionalTruncation).

(** ** Lemmas: placing the digits *)

Lemma lost_digits_spec (s : bytes) (i dp : Z) (b : bool) :
  digits s ->
  lost_digits s i dp b =
    if digits_value (take (Z.to_nat (dp - i)) s) =? 0
    then Some (b || negb (digits_value s =? 0)) else None.
Proof.
  intros Hs. revert i b. induction Hs as [|c s Hc Hs IH]; intros i b; cbn [lost_digits].
  { rewrite take_nil. cbn. by rewrite orb_false_r. }
  apply isdigit_spec in Hc. pose proof (pow10_pos (size s) (size_nonneg s)) as Hp.
  pose proof (digits_value_bounds s Hs). rewrite (digits_value_cons c s).
  destruct (c =? ch "0") eqn:E; zb.
  - subst c. rewrite IH, Z.sub_diag, Z.mul_0_l, Z.add_0_l.
    destruct (Z.to_nat (dp - i)) as [|n] eqn:En.
    + by replace (Z.to_nat (dp - (i + 1))) with 0%nat by lia.
    + replace (Z.to_nat (dp - (i + 1))) with n by lia. cbn [take].
      by rewrite (digits_value_cons (ch "0")), Z.sub_diag, Z.mul_0_l, Z.add_0_l.
  - destruct (i <? dp) eqn:Ei; zb.
    + replace (Z.to_nat (dp - i)) with (S (Z.to_nat (dp - (i + 1)))) by lia.
      cbn [take]. rewrite digits_value_cons.
      pose proof (pow10_pos _ (size_nonneg (take (Z.to_nat (dp - (i + 1))) s))).
      assert (0 <= digits_value (take (Z.to_nat (dp - (i + 1))) s)).
      { apply digits_value_bounds. by apply Forall_take. }
      destruct (_ + digits_value (take _ _) =? 0) eqn:E0; [|done]. zb. nia.
    + rewrite IH. replace (Z.to_nat (dp - i)) with 0%nat by lia.
      replace (Z.to_nat (dp - (i + 1))) with 0%nat by lia. cbn.
      f_equal. destruct (_ + digits_value s =? 0) eqn:E0; [zb; nia|]. by rewrite orb_true_r.
Qed.

Lemma find_first_spec (s : bytes) (i : nat) :
  find_first_not_zero s = Some i ->
  exists c t, s = replicate i (ch "0") ++ c :: t /\ c <> ch "0".
Proof.
  revert i. induction s as [|c s IH]; intros i; [done|]. cbn.
  destruct (c =? ch "0") eqn:E; zb.
  - destruct (find_first_not_zero s) as [j|]; [|done]. intros [= <-].
    destruct (IH j eq_refl) as (c' & t & -> & Hc). subst c. by exists c', t.
  - intros [= <-]. by exists c, s.
Qed.

Lemma find_first_none (s : bytes) :
  find_first_not_zero s = None -> Forall (fun c => c = ch "0") s.
Proof.
  induction s as [|c s IH]; [constructor|]. cbn. destruct (c =? ch "0") eqn:E; [|done]. zb.
  destruct (find_first_not_zero s); [done|]. constructor; auto.
Qed.

Lemma scale10_nonneg (D k : Z) : 0 <= D -> 0 <= scale10 D k.
Proof.
  intros HD. unfold scale10. case_match; zb.
  - pose proof (pow10_pos k). nia.
  - apply Z.div_pos; [done|]. apply pow10_pos. lia.
Qed.

(** Powers of ten of a sum, with the side conditions left to [lia]. *)
Lemma pow10_add (a b : Z) : 0 <= a -> 0 <= b -> 10 ^ (a + b) = 10 ^ a * 10 ^ b.
Proof. intros. by apply Z.pow_add_r. Qed.

Lemma pow10_mono (a b : Z) : a <= b -> 0 <= b -> 10 ^ a <= 10 ^ b.
Proof. intros. apply Z.pow_le_mono_r; lia. Qed.

(** A segment of the digits, by division. *)
Lemma segment_value (s : bytes) (k m : nat) :
  digits s -> (k <= m <= length s)%nat ->
  digits_value (take (m - k) (drop k s)) =
    (digits_value s / 10 ^ (size s - Z.of_nat m)) mod 10 ^ (Z.of_nat m - Z.of_nat k).
Proof.
  intros Hs Hk. destruct (digits_value_take s m Hs) as [<- _]; [lia|].
  rewrite take_drop_commute. replace (k + (m - k))%nat with m by lia.
  destruct (digits_value_take (take m s) k) as [_ ->].
  - by apply Forall_take.
  - rewrite length_take. lia.
  - f_equal. f_equal. unfold size. rewrite length_take. lia.
Qed.

(** The digits kept: those before the cut, inside the string. *)
Definition clamp (a L : Z) : Z := if a <=? 0 then 0 else Z.min a L.

Section Placing.
Context (D L dp sc : Z) (HL : 0 <= L) (HD : 0 <= D < 10 ^ L).
Let K := clamp (dp + sc) L.

Lemma clamp_range : 0 <= K <= L.
Proof using HL. unfold K, clamp. case_match; zb; lia. Qed.

(** No whole digit is dropped when the cut is at or after the point. *)
Lemma no_whole_loss : Z.min dp L <= K -> sc < 0 -> scale10 D (dp - L) mod 10 ^ (- sc) = 0.
Proof using HL HD.
  unfold K, clamp, scale10. intros HM Hsc.
  destruct (dp + sc <=? 0) eqn:E1; destruct (0 <=? dp - L) eqn:E2; zb.
  - assert (L = 0) as -> by lia. assert (D = 0) as -> by lia. done.
  - assert (dp <= 0) by lia. rewrite Z.div_small; [done|].
    split; [lia|]. eapply Z.lt_le_trans; [apply HD|]. apply pow10_mono; lia.
  - assert (L <= dp + sc) by lia.
    replace (dp - L) with ((dp - L + sc) + - sc) by lia.
    rewrite pow10_add, Z.mul_assoc by lia. apply Z.mod_mul.
    pose proof (pow10_pos (- sc)). lia.
  - lia.
Qed.

(** Otherwise the digits between the cut and the point decide. *)
Lemma whole_loss :
  K < Z.min dp L ->
  (D / 10 ^ (L - Z.min dp L)) mod 10 ^ (Z.min dp L - K) = 0 <->
  scale10 D (dp - L) mod 10 ^ (- sc) = 0.
Proof using HL HD.
  intros HK. assert (Hsc : sc < 0).
  { unfold K, clamp in HK. case_match; zb; lia. }
  unfold scale10. destruct (0 <=? dp - L) eqn:E; zb.
  - rewrite Z.min_r in * by lia. rewrite Z.sub_diag, Z.pow_0_r, Z.div_1_r.
    unfold K, clamp in *. destruct (dp + sc <=? 0) eqn:E1; zb.
    + rewrite Z.sub_0_r, Z.mod_small, Z.mod_small; [|split|lia].
      * pose proof (pow10_pos (dp - L)). nia.
      * pose proof (pow10_pos (dp - L)). nia.
      * replace (- sc) with ((dp - L) + (L - (dp + sc))) by lia.
        rewrite pow10_add by lia.
        assert (10 ^ L <= 10 ^ (L - (dp + sc))) by (apply pow10_mono; lia).
        pose proof (pow10_pos (dp - L)). nia.
    + rewrite Z.min_l in * by lia.
      replace (- sc) with ((L - (dp + sc)) + (dp - L)) by lia.
      pose proof (pow10_pos (dp - L)). pose proof (pow10_pos (L - (dp + sc))).
      rewrite pow10_add, Z.mul_mod_distr_r by lia. nia.
  - rewrite Z.min_l in * by lia. replace (- (dp - L)) with (L - dp) by lia.
    unfold K, clamp in *. destruct (dp + sc <=? 0) eqn:E1; zb.
    + rewrite Z.sub_0_r.
      assert (0 <= D / 10 ^ (L - dp) < 10 ^ dp) as Hq.
      { split; [apply Z.div_pos; [lia|apply pow10_pos; lia]|].
        apply Z.div_lt_upper_bound; [apply pow10_pos; lia|].
        rewrite <- pow10_add by lia. replace (L - dp + dp) with L by lia. lia. }
      rewrite !Z.mod_small; [done| |done].
      split; [lia|]. eapply Z.lt_le_trans; [apply Hq|]. apply pow10_mono; lia.
    + rewrite Z.min_l by lia. by replace (dp - (dp + sc)) with (- sc) by lia.
Qed.

(** What is dropped after the cut, and what is kept before it. *)
Lemma dropped_zero : (D mod 10 ^ (L - K) =? 0) = exact10 D (dp + sc - L).
Proof using HL HD.
  unfold exact10, K, clamp. destruct (0 <=? dp + sc - L) eqn:E; zb; cbn [orb].
  - destruct (dp + sc <=? 0) eqn:E1; zb.
    + assert (L = 0) as -> by lia. by rewrite Z.mod_1_r.
    + rewrite Z.min_r, Z.sub_diag, Z.pow_0_r, Z.mod_1_r by lia. done.
  - replace (- (dp + sc - L)) with (L - (dp + sc)) by lia.
    destruct (dp + sc <=? 0) eqn:E1; zb.
    + rewrite Z.sub_0_r, !Z.mod_small; [done| |done].
      split; [lia|]. eapply Z.lt_le_trans; [apply HD|]. apply pow10_mono; lia.
    + by rewrite Z.min_l by lia.
Qed.

Lemma kept_value :
  0 < dp + sc -> D / 10 ^ (L - K) * 10 ^ Z.max 0 (dp + sc - L) = scale10 D (dp + sc - L).
Proof using HL HD.
  intros Hce. unfold scale10, K, clamp. destruct (dp + sc <=? 0) eqn:E1; zb; [lia|].
  case_match; zb.
  - rewrite Z.min_r, Z.sub_diag, Z.pow_0_r, Z.div_1_r, Z.max_r by lia. done.
  - rewrite Z.min_l, Z.max_l, Z.pow_0_r, Z.mul_1_r by lia.
    by replace (- (dp + sc - L)) with (L - (dp + sc)) by lia.
Qed.
End Placing.

Lemma dropped_whole (ds : bytes) (dp K : Z) :
  digits ds -> 0 <= K <= size ds ->
  digits_value (take (Z.to_nat (dp - K)) (drop (Z.to_nat K) ds)) =
    if K <? Z.min dp (size ds)
    then (digits_value ds / 10 ^ (size ds - Z.min dp (size ds))) mod 10 ^ (Z.min dp (size ds) - K)
    else 0.
Proof.
  intros Hds HK. unfold size in *. case_match; zb.
  - set (m := Z.to_nat (Z.min dp (Z.of_nat (length ds)))).
    replace (take (Z.to_nat (dp - K)) (drop (Z.to_nat K) ds))
      with (take (m - Z.to_nat K) (drop (Z.to_nat K) ds)).
    + rewrite segment_value by (done || lia). unfold size, m. by rewrite !Z2Nat.id by lia.
    + destruct (Z.le_gt_cases dp (Z.of_nat (length ds))).
      * f_equal. lia.
      * rewrite !take_ge; [done|rewrite length_drop; lia..].
  - destruct (Z.le_gt_cases dp K).
    + by replace (Z.to_nat (dp - K)) with 0%nat by lia.
    + rewrite drop_ge by lia. by rewrite take_nil.
Qed.

Lemma place_lost (ds : bytes) (dp sc : Z) :
  digits ds ->
  let L := size ds in
  let D := digits_value ds in
  let K := clamp (dp + sc) L in
  lost_digits (drop (Z.to_nat K) ds) K dp false =
    if (sc <? 0) && negb (scale10 D (dp - L) mod 10 ^ (- sc) =? 0) then None
    else Some (negb (exact10 D (dp + sc - L))).
Proof.
  intros Hds L D K. pose proof (digits_value_bounds ds Hds) as HD.
  pose proof (clamp_range L dp sc (size_nonneg ds)) as HK. fold K in HK.
  rewrite lost_digits_spec by (by apply Forall_drop). cbn [orb].
  destruct (digits_value_take ds (Z.to_nat K) Hds) as [_ ->]; [unfold size in *; lia|].
  rewrite Z2Nat.id, dropped_whole by (done || lia).
  pose proof (dropped_zero D L dp sc (size_nonneg ds) HD) as Hzero. fold K in Hzero.
  fold L D. rewrite Hzero. destruct (K <? Z.min dp L) eqn:HKm; zb.
  - pose proof (whole_loss D L dp sc (size_nonneg ds) HD) as Hw. fold K in Hw.
    assert (sc < 0).
    { revert HKm. unfold K, clamp.
      destruct (dp + sc <=? 0) eqn:?; zb; lia. }
    specialize (Hw HKm). clear Hzero. ztest.
    destruct ((D / _) mod _ =? 0) eqn:E1; destruct (scale10 _ _ mod _ =? 0) eqn:E2; zb;
      cbn [negb]; try done; exfalso; tauto.
  - destruct (sc <? 0) eqn:E; [|done]. zb.
    by rewrite (no_whole_loss D L dp sc (size_nonneg ds) HD) by done.
Qed.

(** The coefficient written out: the kept digits and the zeros after them. *)
Lemma coefficient_value (first : nat) (c : Z) (t : bytes) (ce : Z) :
  let ds := replicate first (ch "0") ++ c :: t in
  digits ds -> c <> ch "0" -> Z.of_nat first < ce ->
  let K := clamp ce (size ds) in
  let coef := take (Z.to_nat K - first) (drop first ds)
              ++ replicate (Z.to_nat (ce - size ds)) (ch "0") in
  canonical coef (scale10 (digits_value ds) (ce - size ds)) /\
  size coef = ce - Z.of_nat first /\ (exists u, coef = c :: u).
Proof.
  intros ds Hds Hc Hce K coef.
  assert (size ds = Z.of_nat first + size t + 1) as Hsz.
  { unfold ds. rewrite size_app, size_cons. unfold size. rewrite length_replicate. lia. }
  assert (drop first ds = c :: t) as Hdrop.
  { unfold ds. rewrite drop_app_ge, length_replicate by (rewrite length_replicate; lia).
    by rewrite Nat.sub_diag. }
  pose proof (size_nonneg t) as Ht.
  assert (Z.of_nat first < K <= size ds /\ (ce <= size ds -> K = ce) /\ (size ds < ce -> K = size ds)) as HK.
  { unfold K, clamp. case_match; zb; lia. }
  assert (exists u, coef = c :: u) as [u Hu].
  { unfold coef. rewrite Hdrop. destruct (Z.to_nat K - first)%nat eqn:E; [lia|]. cbn. eauto. }
  assert (size coef = ce - Z.of_nat first) as Hsize.
  { unfold coef. rewrite size_app. unfold size in *.
    rewrite length_take, length_drop, length_replicate. lia. }
  assert (digits coef) as Hcoef.
  { unfold coef. apply Forall_app; split; [|apply digits_replicate].
    by apply Forall_take, Forall_drop. }
  split_and!; [|done|by eauto]. split; [done|]. split; [|right; eauto].
  pose proof (digits_value_bounds ds Hds) as HD.
  pose proof (kept_value (digits_value ds) (size ds) ce 0) as Hkept.
  rewrite !Z.add_0_r in Hkept. fold K in Hkept. rewrite <- Hkept by lia.
  unfold coef. rewrite digits_value_app, digits_value_zeros, Z.add_0_r. f_equal.
  - destruct (digits_value_take ds (Z.to_nat K) Hds) as [E _]; [unfold size in *; lia|].
    rewrite Z2Nat.id in E by lia. rewrite <- E.
    rewrite <- (take_drop first (take (Z.to_nat K) ds)), digits_value_app.
    rewrite take_take, Nat.min_l by lia.
    unfold ds at 2. rewrite take_app_le by (rewrite length_replicate; lia).
    rewrite (take_ge (replicate _ _)) by (rewrite length_replicate; lia).
    rewrite digits_value_zeros, Z.mul_0_l, Z.add_0_l, take_drop_commute.
    do 3 f_equal. lia.
  - f_equal. unfold size. rewrite length_replicate. lia.
Qed.

Lemma scale10_small (D k : Z) (n : Z) : 0 <= D < 10 ^ n -> 0 <= n -> k <= - n -> scale10 D k = 0.
Proof.
  intros HD Hn Hk. unfold scale10. case_match; zb.
  - assert (n = 0) as -> by lia. assert (k = 0) as -> by lia. assert (D = 0) by lia. lia.
  - apply Z.div_small. split; [lia|]. eapply Z.lt_le_trans; [apply HD|]. apply pow10_mono; lia.
Qed.

Lemma scale10_zero (k : Z) : scale10 0 k = 0.
Proof.
  unfold scale10. case_match; [lia|]. apply Z.div_0_l.
  pose proof (pow10_pos (- k)). zb. lia.
Qed.

Lemma exact10_zero (k : Z) : exact10 0 k = true.
Proof.
  unfold exact10. destruct (0 <=? k) eqn:E; [done|]. zb.
  rewrite Z.mod_0_l; [done|]. pose proof (pow10_pos (- k)). lia.
Qed.

Lemma rescale_spec_zero (neg : bool) (x precision sc : Z) :
  0 <= precision ->
  rescale_spec neg 0 x precision sc
    (Some {| coefficient := [ch "0"]; scale := sc; negative := false |}, None').
Proof.
  intros Hp. unfold rescale_spec. rewrite !scale10_zero, exact10_zero.
  assert ((sc <? 0) && negb (0 mod 10 ^ (- sc) =? 0) = false) as ->.
  { destruct (sc <? 0) eqn:E; [|done]. zb.
    rewrite Z.mod_0_l; [done|]. pose proof (pow10_pos (- sc)). lia. }
  pose proof (pow10_pos precision Hp). repeat ztest. exists [ch "0"].
  rewrite andb_false_r. split; [by vm_compute; auto|done].
Qed.

Lemma place_digits_correct (whole fraction : bytes) (e precision sc : Z) (neg : bool) :
  digits whole -> digits fraction -> 0 <= precision ->
  rescale_spec neg (digits_value (whole ++ fraction)) (e - size fraction) precision sc
    (place_digits whole fraction e precision sc neg).
Proof.
  intros Hw Hf Hp. set (ds := whole ++ fraction).
  assert (Hds : digits ds) by (by apply Forall_app).
  pose proof (digits_value_bounds ds Hds) as HD.
  assert (Hx : size whole + e - size ds = e - size fraction)
    by (unfold ds; rewrite size_app; lia).
  unfold rescale_spec, place_digits. fold ds.
  destruct (find_first_not_zero ds) as [first|] eqn:Efirst.
  - destruct (find_first_spec ds first Efirst) as (c & t & Edss & Hc).
    pose proof (place_lost ds (size whole + e) sc Hds) as Hlost. cbn zeta in Hlost.
    fold (clamp (size whole + e + sc) (size ds)). rewrite Hlost, Hx. clear Hlost.
    destruct ((sc <? 0) && _); [done|].
    replace (e - size fraction + sc) with (size whole + e + sc - size ds) by lia.
    set (ce := size whole + e + sc).
    assert (size ds = Z.of_nat first + size t + 1) as Hsz.
    { rewrite Edss, size_app, size_cons. unfold size. rewrite length_replicate. lia. }
    destruct (Z.of_nat first <? ce) eqn:Ece; zb.
    + destruct (coefficient_value first c t ce) as (Hcan & Hsize & u & Hu);
        [by rewrite <- Edss|done|done|]. rewrite <- Edss in *.
      set (coef := take _ _ ++ replicate _ _) in *.
      destruct Hcan as (Hcd & Hval & Hhead). rewrite Hu in Hcd, Hval, Hsize.
      pose proof (digits_value_head c u Hcd Hc) as Hlow.
      pose proof (digits_value_bounds _ Hcd) as Hhigh. rewrite size_cons in Hsize, Hhigh.
      assert (N0 : (scale10 (digits_value ds) (ce - size ds) =? 0) = false).
      { pose proof (pow10_pos (size u) (size_nonneg u)). lia. }
      destruct (precision <? ce - Z.of_nat first) eqn:Eprec; zb.
      * assert (10 ^ precision <= 10 ^ size u) by (apply pow10_mono; auto; lia).
        by repeat ztest.
      * assert (10 ^ (size u + 1) <= 10 ^ precision) by (apply pow10_mono; lia).
        repeat ztest. exists coef. split; [by rewrite Hu in *; split_and!; eauto|].
        assert (beq coef [ch "0"] = false) as ->.
        { unfold beq. apply bool_decide_eq_false. rewrite Hu. congruence. }
        by destruct (exact10 _ _).
    + assert (0 <= digits_value ds < 10 ^ (size ds - Z.of_nat first)) as Hsmall.
      { split; [lia|]. rewrite Edss, digits_value_app, digits_value_zeros, Z.mul_0_l, Z.add_0_l.
        assert (digits (c :: t)) as Hct%digits_value_bounds.
        { rewrite Edss in Hds. by apply Forall_app in Hds as [_ ?]. }
        rewrite size_cons in Hct. rewrite <- Edss, Hsz.
        replace (Z.of_nat first + size t + 1 - Z.of_nat first) with (size t + 1) by lia. lia. }
      pose proof (size_nonneg t). rewrite (scale10_small _ _ _ Hsmall) by lia.
      pose proof (pow10_pos precision Hp). repeat ztest. exists [ch "0"].
      split; [by vm_compute; auto|]. rewrite !andb_false_r. by destruct (exact10 _ _).
  - apply find_first_none in Efirst.
    pose proof (proj2 (digits_value_zero ds Hds) Efirst) as HD0. rewrite HD0.
    by apply rescale_spec_zero.
Qed.

(** ** Lemmas: the saturated exponent *)

Lemma exponent_digit_min (limit A c : Z) :
  0 <= limit -> 0 <= A -> isdigit c = true ->
  exponent_digit limit (Z.min limit A) c = Z.min limit (digit_step A c).
Proof.
  intros Hl HA Hc%isdigit_spec. unfold exponent_digit, digit_step.
  destruct (_ || _) eqn:E; zb; [|dlia]. destruct E as [E|E]; zb; dlia.
Qed.

Lemma exponent_saturates (limit : Z) (ds : bytes) :
  0 <= limit -> digits ds ->
  foldl (exponent_digit limit) 0 ds = Z.min limit (digits_value ds).
Proof.
  intros Hl Hds. unfold digits_value.
  enough (forall A, 0 <= A ->
    foldl (exponent_digit limit) (Z.min limit A) ds = Z.min limit (foldl digit_step A ds)) as H.
  { rewrite <- (H 0) by lia. by rewrite Z.min_r by lia. }
  induction Hds as [|c ds Hc Hds IH]; intros A HA; [done|]. cbn [foldl].
  rewrite exponent_digit_min by done. apply IH.
  apply isdigit_spec in Hc. unfold digit_step. lia.
Qed.

Lemma exact10_small (D k n : Z) :
  0 < D < 10 ^ n -> 0 <= n -> k <= - n -> exact10 D k = false.
Proof.
  intros HD Hn Hk. unfold exact10. destruct (0 <=? k) eqn:E; zb; cbn [orb].
  - assert (n = 0) as -> by lia. lia.
  - rewrite Z.mod_small; [lia|]. split; [lia|].
    eapply Z.lt_le_trans; [apply HD|]. apply pow10_mono; lia.
Qed.

(** A value beyond every coefficient, and one below every coefficient. *)
Lemma rescale_spec_high neg D x precision sc r :
  0 < D -> 0 <= precision -> precision <= x + sc -> - sc <= x -> 0 <= x ->
  rescale_spec neg D x precision sc r <-> r = (None, OutOfRange).
Proof.
  intros HD Hp Hx Hsc Hx0. unfold rescale_spec, scale10. repeat ztest.
  assert ((sc <? 0) && negb ((D * 10 ^ x) mod 10 ^ (- sc) =? 0) = false) as ->.
  { destruct (sc <? 0) eqn:E; [|done]. zb.
    replace x with ((x + sc) + - sc) by lia. rewrite pow10_add, Z.mul_assoc by lia.
    rewrite Z.mod_mul; [done|]. pose proof (pow10_pos (- sc)). lia. }
  assert (10 ^ precision <= 10 ^ (x + sc)) by (apply pow10_mono; lia).
  pose proof (pow10_pos (x + sc)). rewrite (proj2 (Z.leb_le _ _)) by nia. done.
Qed.

Lemma rescale_spec_low neg D x n precision sc r :
  0 < D < 10 ^ n -> 0 <= n -> 0 <= precision -> x <= - n -> x + sc <= - n ->
  rescale_spec neg D x precision sc r <->
  exists c, canonical c 0 /\
    r = (Some {| coefficient := c; scale := sc; negative := false |}, FractionalTruncation).
Proof.
  intros HD Hn Hp Hx Hsc. unfold rescale_spec.
  rewrite (scale10_small D x n), (scale10_small D (x + sc) n), (exact10_small D (x + sc) n) by lia.
  assert ((sc <? 0) && negb (0 mod 10 ^ (- sc) =? 0) = false) as ->.
  { destruct (sc <? 0) eqn:E; [|done]. zb.
    rewrite Z.mod_0_l; [done|]. pose proof (pow10_pos (- sc)). lia. }
  pose proof (pow10_pos precision Hp). repeat ztest. by rewrite andb_false_r.
Qed.

Definition saturate (limit e : Z) : Z := Z.max (- limit) (Z.min limit e).

Lemma rescale_spec_saturate neg D L f e precision sc limit r :
  0 <= D < 10 ^ L -> 0 <= f <= L -> 0 <= precision ->
  L + precision + Z.abs sc + 1 <= limit ->
  rescale_spec neg D (saturate limit e - f) precision sc r ->
  rescale_spec neg D (e - f) precision sc r.
Proof.
  intros HD Hf Hp Hlimit. unfold saturate.
  destruct (Z.le_gt_cases (- limit) e), (Z.le_gt_cases e limit); try lia.
  - by rewrite Z.min_r, Z.max_r by lia.
  - rewrite Z.min_l, Z.max_r by lia. destruct (Z.eq_dec D 0) as [->|HD0].
    { unfold rescale_spec. by rewrite !scale10_zero, !exact10_zero. }
    rewrite rescale_spec_high by lia. intros ->. apply rescale_spec_high; [lia..|done].
  - rewrite Z.min_r, Z.max_l by lia. destruct (Z.eq_dec D 0) as [->|HD0].
    { unfold rescale_spec. by rewrite !scale10_zero, !exact10_zero. }
    rewrite (rescale_spec_low _ _ _ L) by lia. intros ?. apply (rescale_spec_low _ _ _ L); [lia..|done].
Qed.

(** ** Lemmas: reading the text *)

Inductive sign_text : bytes -> bool -> Prop :=
| sign_none : sign_text [] false
| sign_plus : sign_text [ch "+"] false
| sign_minus : sign_text [ch "-"] true.

Inductive exponent_text : bytes -> Z -> Prop :=
| exponent_none : exponent_text [] 0
| exponent_some c s neg ds :
    c = ch "e" \/ c = ch "E" -> sign_text s neg -> digits ds -> ds <> [] ->
    exponent_text (c :: s ++ ds) (if neg : bool then - digits_value ds else digits_value ds).

(** The unsigned part: digits, an optional point and digits, an optional exponent. *)
Inductive number_text : bytes -> bytes -> bytes -> Z -> Prop :=
| number_whole whole ex e :
    digits whole -> whole <> [] -> exponent_text ex e ->
    number_text (whole ++ ex) whole [] e
| number_point whole fraction ex e :
    digits whole -> digits fraction -> whole ++ fraction <> [] -> exponent_text ex e ->
    number_text (whole ++ [ch "."] ++ fraction ++ ex) whole fraction e.

(** A decimal literal with blanks around it. *)
Definition decimal_text (text : bytes) (neg : bool) (whole fraction : bytes) (e : Z) : Prop :=
  exists s body, trim_by whitespace text = s ++ body /\ sign_text s neg /\
                 number_text body whole fraction e.

Lemma exponent_head_not_digit ex e c :
  exponent_text ex e -> head ex = Some c -> isdigit c = false.
Proof.
  destruct 1 as [|c' s neg ds Hc _ _ _]; [done|]. intros [= ->].
  destruct Hc as [-> | ->]; done.
Qed.

Lemma sign_text_strip s neg t c :
  sign_text s neg -> head t = Some c -> c <> ch "+" -> c <> ch "-" ->
  strip_sign (s ++ t) = (neg, t).
Proof.
  intros Hs Hh H1 H2. destruct t as [|c' t]; [done|]. injection Hh as ->.
  unfold strip_sign. destruct Hs; cbn [app]; [by repeat ztest|done..].
Qed.

Lemma digit_head (ds : bytes) (c : Z) : digits ds -> head ds = Some c -> 48 <= c <= 57.
Proof. destruct ds; [done|]. intros H [= <-]. inv_forall. by apply isdigit_spec. Qed.

Lemma parse_exponent_complete limit ex e :
  0 <= limit -> exponent_text ex e ->
  parse_exponent limit ex = Some (saturate limit e, []).
Proof.
  intros Hl Hex. destruct Hex as [|c s neg ds Hc Hs Hds Hne].
  { unfold saturate. cbn. do 2 f_equal. lia. }
  assert (exists d u, ds = d :: u) as (d & u & Eds) by (destruct ds; eauto; done).
  assert (48 <= d <= 57) as Hd by (eapply digit_head; [exact Hds|by rewrite Eds]).
  unfold parse_exponent. assert ((c =? ch "e") || (c =? ch "E") = true) as ->
    by (destruct Hc as [-> | ->]; done).
  rewrite (sign_text_strip s neg ds d) by (rewrite ?Eds; done || lia).
  assert (span isdigit ds = (ds, [])) as ->.
  { rewrite <- (app_nil_r ds) at 1. by apply span_exact. }
  rewrite exponent_saturates by done. pose proof (digits_value_bounds ds Hds).
  rewrite Eds at 1. unfold saturate. do 2 f_equal. destruct neg; lia.
Qed.

Lemma split_number_complete body whole fraction e limit :
  0 <= limit -> number_text body whole fraction e ->
  exists rest, split_number body = (whole, fraction, rest) /\
               parse_exponent limit rest = Some (saturate limit e, []) /\
               size whole + size fraction <= size body /\ whole ++ fraction <> [].
Proof.
  intros Hl Hn. unfold split_number.
  destruct Hn as [whole ex e Hw Hne Hex|whole fraction ex e Hw Hf Hne Hex]; exists ex.
  - rewrite span_exact; [|done|intros c; by apply exponent_head_not_digit with e].
    rewrite app_nil_r, size_app. pose proof (size_nonneg ex).
    split_and!; [|by apply parse_exponent_complete|change (size (@nil Z)) with 0; lia|done].
    destruct Hex as [|c s neg ds Hc _ _ _]; [done|].
    by assert ((c =? ch ".") = false) as -> by (destruct Hc; lia).
  - rewrite span_exact; [|done|by intros c [= <-]]. cbn [app].
    change (ch "." =? ch ".") with true. cbn iota.
    rewrite span_exact; [|done|intros c; by apply exponent_head_not_digit with e].
    rewrite !size_app, size_cons, size_app. pose proof (size_nonneg ex).
    split_and!; [done|by apply parse_exponent_complete|lia|done].
Qed.

Lemma strip_sign_sound t neg body :
  strip_sign t = (neg, body) -> exists s, t = s ++ body /\ sign_text s neg.
Proof.
  unfold strip_sign. destruct t as [|c t]; [intros [= <- <-]; exists []; split; [done|constructor]|].
  destruct (c =? ch "+") eqn:E1; zb; cbn [orb].
  { intros [= <- <-]. subst c. exists [ch "+"]. split; [done|constructor]. }
  destruct (c =? ch "-") eqn:E2; zb; intros [= <- <-].
  - subst c. exists [ch "-"]. split; [done|constructor].
  - exists []. split; [done|constructor].
Qed.

Lemma parse_exponent_sound limit rest e' :
  parse_exponent limit rest = Some (e', []) -> exists e, exponent_text rest e.
Proof.
  unfold parse_exponent. destruct rest as [|c s1]; [eexists; constructor|].
  destruct (_ || _) eqn:E; [|done]. apply orb_true_iff in E.
  destruct (strip_sign s1) as [neg s2] eqn:Es.
  apply strip_sign_sound in Es as (s & -> & Hs).
  destruct (span isdigit s2) as [ds s3] eqn:Eds. destruct ds as [|d ds]; [done|].
  intros [= _ ->]. pose proof (span_app _ _ _ _ Eds) as ->. rewrite app_nil_r.
  eexists. apply (exponent_some c s neg (d :: ds)); [|done|by eapply span_forall|done].
  by destruct E as [->%Z.eqb_eq | ->%Z.eqb_eq]; [left|right].
Qed.

Lemma split_number_sound limit body whole fraction rest e' :
  split_number body = (whole, fraction, rest) -> whole ++ fraction <> [] ->
  parse_exponent limit rest = Some (e', []) -> exists e, number_text body whole fraction e.
Proof.
  unfold split_number. destruct (span isdigit body) as [w r] eqn:E.
  pose proof (span_app _ _ _ _ E) as ->. pose proof (span_forall _ _ _ _ E) as Hw.
  destruct r as [|c r].
  { intros [= <- <- <-]. rewrite app_nil_r. intros Hne (e & He)%parse_exponent_sound.
    exists e. rewrite <- (app_nil_r w) at 1. by constructor. }
  destruct (c =? ch ".") eqn:Ec; zb.
  - subst c. destruct (span isdigit r) as [f r'] eqn:E'. intros [= <- <- <-].
    pose proof (span_app _ _ _ _ E') as ->. intros Hne (e & He)%parse_exponent_sound.
    exists e. apply number_point; [done|by eapply span_forall|done|done].
  - intros [= <- <- <-]. rewrite app_nil_r. intros Hne (e & He)%parse_exponent_sound.
    exists e. by constructor.
Qed.

Lemma number_text_head body whole fraction e :
  number_text body whole fraction e ->
  exists c, head body = Some c /\ c <> ch "+" /\ c <> ch "-".
Proof.
  destruct 1 as [whole ex e Hw Hne Hex|whole fraction ex e Hw Hf Hne Hex].
  - destruct whole as [|c w]; [done|]. exists c. inv_forall.
    match goal with H : isdigit c = true |- _ => apply isdigit_spec in H end.
    split_and!; [done|lia..].
  - destruct whole as [|c w]; [by exists (ch ".")|]. exists c. inv_forall.
    match goal with H : isdigit c = true |- _ => apply isdigit_spec in H end.
    split_and!; [done|lia..].
Qed.

Lemma trim_by_size p s : size (trim_by p s) <= size s.
Proof.
  unfold trim_by, size. rewrite length_rev.
  pose proof (drop_while_length p (rev (drop_while p s))) as H. rewrite length_rev in H.
  pose proof (drop_while_length p s). lia.
Qed.

(** ** Properties of rescaling *)

(** The inputs the size guards admit. *)
Definition admissible (text : bytes) (precision sc : Z) : Prop :=
  1 <= precision <= safe_size /\ size text <= safe_size /\ Z.abs sc <= safe_size.

Lemma strip_sign_size t neg body : strip_sign t = (neg, body) -> size body <= size t.
Proof. intros (s & -> & _)%strip_sign_sound. rewrite size_app. pose proof (size_nonneg s). lia. Qed.

Lemma rescale_guard text precision sc neg body :
  admissible text precision sc -> strip_sign (trim_by whitespace text) = (neg, body) ->
  (precision =? 0) || (safe_size <? size body) || (safe_size <? precision)
   || (safe_size <? (if sc <? 0 then - sc else sc)) = false /\
  (if sc <? 0 then - sc else sc) = Z.abs sc.
Proof.
  intros (Hp & Ht & Hs) Hb%strip_sign_size. pose proof (trim_by_size whitespace text).
  destruct (sc <? 0) eqn:E; zb; lia.
Qed.

Lemma rescale_decimal_spec (text : bytes) (precision sc : Z)
    (neg : bool) (whole fraction : bytes) (e : Z) :
  admissible text precision sc -> decimal_text text neg whole fraction e ->
  rescale_spec neg (digits_value (whole ++ fraction)) (e - size fraction) precision sc
    (rescale_decimal text precision sc).
Proof.
  intros Hadm (s & body & Htrim & Hs & Hbody).
  destruct (number_text_head _ _ _ _ Hbody) as (c & Hc & Hc1 & Hc2).
  pose proof (sign_text_strip s neg body c Hs Hc Hc1 Hc2) as Hstrip. rewrite <- Htrim in Hstrip.
  unfold rescale_decimal. rewrite Hstrip.
  destruct (rescale_guard _ _ _ _ _ Hadm Hstrip) as [-> ->].
  destruct Hadm as (Hp & _ & _). set (limit := size body + precision + Z.abs sc + 1).
  pose proof (size_nonneg body).
  destruct (split_number_complete body whole fraction e limit) as (rest & -> & -> & Hsize & Hne);
    [unfold limit; lia|done|].
  assert (digits whole /\ digits fraction) as [Hw Hf]
    by (destruct Hbody; split; try done; constructor).
  assert (forall r, match whole, fraction with [], [] => (None, InvalidCharacter) | _, _ => r end = r) as ->.
  { intros r. by destruct whole, fraction. }
  eapply (rescale_spec_saturate _ _ (size (whole ++ fraction)) _ _ _ _ limit).
  - by apply digits_value_bounds, Forall_app.
  - rewrite size_app. pose proof (size_nonneg whole). pose proof (size_nonneg fraction). lia.
  - lia.
  - rewrite size_app. unfold limit. lia.
  - apply place_digits_correct; [done|done|lia].
Qed.

(** Rescaling is exact decimal arithmetic.  On the text of
    [(-1)^neg * D * 10 ^ (e - |fraction|)], with an exponent of any size, the
    result is the coefficient of the value at the requested scale, truncated
    toward zero, in canonical digits; truncation is reported exactly when a
    nonzero fractional digit was dropped; a nonzero digit before the point is
    never dropped silently ([WholeDigitsLost]); and a coefficient of more than
    [precision] digits is refused ([OutOfRange]).  The saturation of huge
    exponents changes none of this. *)
Theorem rescale_decimal_correct (text : bytes) (precision sc : Z)
    (neg : bool) (whole fraction : bytes) (e : Z) :
  admissible text precision sc -> decimal_text text neg whole fraction e ->
  rescale_spec neg (digits_value (whole ++ fraction)) (e - size fraction) precision sc
    (rescale_decimal text precision sc).
Proof. apply rescale_decimal_spec. Qed.

Lemma rescale_decimal_correct_witness :
  rescale_spec true 12345 (-1) 10 1 (rescale_decimal (str " -123.45E+1 ") 10 1) /\
  rescale_decimal (str " -123.45E+1 ") 10 1 =
    (Some {| coefficient := str "12345"; scale := 1; negative := true |}, None').
Proof.
  split; [|reflexivity].
  apply (rescale_decimal_correct (str " -123.45E+1 ") 10 1 true (str "123") (str "45") 1).
  - by vm_compute.
  - exists [ch "-"], (str "123.45E+1"). split_and!; [reflexivity|constructor|].
    apply (number_point (str "123") (str "45") (str "E+1") 1);
      [by repeat constructor|by repeat constructor|done|].
    apply (exponent_some (ch "E") [ch "+"] false (str "1"));
      [by right|constructor|by repeat constructor|done].
Defined.

Lemma rescale_spec_not_invalid neg D x precision sc :
  ~ rescale_spec neg D x precision sc (None, InvalidCharacter).
Proof. unfold rescale_spec. repeat case_match; try done; by intros (c & _ & ?). Qed.

Lemma place_digits_not_invalid whole fraction e precision sc neg :
  place_digits whole fraction e precision sc neg <> (None, InvalidCharacter).
Proof. unfold place_digits. repeat case_match; congruence. Qed.

(** [InvalidCharacter] is reported exactly for text that is no decimal
    literal: blanks, an optional sign, digits with an optional point and at
    least one digit, an optional exponent with at least one digit, blanks. *)
Theorem rescale_decimal_rejects (text : bytes) (precision sc : Z) :
  admissible text precision sc ->
  rescale_decimal text precision sc = (None, InvalidCharacter) <->
  ~ exists neg whole fraction e, decimal_text text neg whole fraction e.
Proof.
  intros Hadm. split.
  - intros H (neg & whole & fraction & e & Ht).
    pose proof (rescale_decimal_spec _ _ _ _ _ _ _ Hadm Ht) as Hspec.
    rewrite H in Hspec. by eapply rescale_spec_not_invalid.
  - intros Hno. unfold rescale_decimal.
    destruct (strip_sign (trim_by whitespace text)) as [neg body] eqn:Hstrip.
    destruct (rescale_guard _ _ _ _ _ Hadm Hstrip) as [-> ->].
    destruct (split_number body) as [[whole fraction] rest] eqn:Hsplit.
    assert (whole ++ fraction = [] \/ whole ++ fraction <> []) as [E|Hne]
      by (destruct (whole ++ fraction); auto).
    { apply app_eq_nil in E as [-> ->]. done. }
    destruct (parse_exponent _ rest) as [[e' [|]]|] eqn:Hexp; [|by destruct whole, fraction..].
    exfalso. apply Hno. destruct (split_number_sound _ _ _ _ _ _ Hsplit Hne Hexp) as [e He].
    apply strip_sign_sound in Hstrip as (s & Htrim & Hs).
    by exists neg, whole, fraction, e, s, body.
Qed.

Lemma rescale_decimal_rejects_witness :
  rescale_decimal (str "1.2e") 5 2 = (None, InvalidCharacter) /\
  ~ exists neg whole fraction e, decimal_text (str "1.2e") neg whole fraction e.
Proof.
  split; [reflexivity|]. apply (rescale_decimal_rejects (str "1.2e") 5 2); [|reflexivity].
  by vm_compute.
Defined.

(** ** Formatting *)

(** Digit strings of one length are determined by their value. *)
Lemma digits_value_inj (s t : bytes) :
  digits s -> digits t -> length s = length t -> digits_value s = digits_value t -> s = t.
Proof.
  intros Hs. revert t. induction Hs as [|c s Hc Hs IH]; intros [|d t] Ht Hlen Hval; try done.
  inv_forall. match goal with H : isdigit d = true |- _ => apply isdigit_spec in H as Hd end.
  apply isdigit_spec in Hc. rewrite !digits_value_cons in Hval.
  injection Hlen as Hlen. pose proof (digits_value_bounds s Hs) as Bs.
  pose proof (digits_value_bounds t Ht) as Bt.
  assert (size s = size t) as E by (unfold size; lia). rewrite E in *.
  pose proof (pow10_pos (size t) (size_nonneg t)).
  assert (c = d) as -> by nia. f_equal. apply IH; [done|done|lia].
Qed.

Lemma canonical_unique (c d : bytes) (n : Z) : canonical c n -> canonical d n -> c = d.
Proof.
  assert (forall c u d n, digits (c :: u) -> digits d -> c <> ch "0" ->
            digits_value (c :: u) = n -> digits_value d = n -> size u < size d) as Hlen.
  { intros x u y m Hx Hy Hx0 E1 E2. pose proof (digits_value_head x u Hx Hx0).
    pose proof (digits_value_bounds y Hy).
    destruct (Z.lt_ge_cases (size u) (size y)); [done|].
    pose proof (pow10_mono (size y) (size u)) as Hm. pose proof (size_nonneg u). lia. }
  intros (Hc & Vc & Cc) (Hd & Vd & Cd).
  destruct Cc as [->|(x & u & -> & Hx)], Cd as [->|(y & v & -> & Hy)]; [done|..].
  - pose proof (digits_value_head y v Hd Hy). pose proof (pow10_pos (size v) (size_nonneg v)).
    change (digits_value [ch "0"]) with 0 in Vc. lia.
  - pose proof (digits_value_head x u Hc Hx). pose proof (pow10_pos (size u) (size_nonneg u)).
    change (digits_value [ch "0"]) with 0 in Vd. lia.
  - apply digits_value_inj; [done|done| |lia].
    pose proof (Hlen x u (y :: v) n Hc Hd Hx Vc Vd). pose proof (Hlen y v (x :: u) n Hd Hc Hy Vd Vc).
    rewrite size_cons in *. unfold size in *. cbn. lia.
Qed.

Lemma drop_while_id p s : Forall (fun c => p c = false) s -> drop_while p s = s.
Proof. destruct 1 as [|c s Hc _]; [done|]. cbn. by rewrite Hc. Qed.

Lemma trim_by_id p s : Forall (fun c => p c = false) s -> trim_by p s = s.
Proof.
  intros H. unfold trim_by. rewrite (drop_while_id p s H), drop_while_id, rev_involutive; [done|].
  by apply Forall_rev.
Qed.

(** Numbers without exponent have no blanks. *)
Lemma number_text_plain body whole fraction :
  number_text body whole fraction 0 -> Forall (fun c => whitespace c = false) body.
Proof.
  assert (forall s, digits s -> Forall (fun c => whitespace c = false) s) as Hd.
  { intros s. apply Forall_impl. intros c Hc%isdigit_spec. unfold whitespace. lia. }
  assert (forall ex e, exponent_text ex e -> Forall (fun c => whitespace c = false) ex) as He.
  { intros ex e [|c s neg ds Hc Hs Hds Hne]; [constructor|]. constructor.
    - destruct Hc as [-> | ->]; done.
    - apply Forall_app; split; [destruct Hs; by repeat constructor|by apply Hd]. }
  destruct 1; repeat (apply Forall_app; split); eauto.
Qed.

Section Format.
Context (nonzero : bool) (ds : bytes) (sc : Z) (neg : bool).

(** The text without the output bound. *)
Definition plain_body : bytes :=
  if 0 <? sc then
    if size ds <=? sc
    then str "0." ++ replicate (Z.to_nat (sc - size ds)) (ch "0") ++ ds
    else take (Z.to_nat (size ds - sc)) ds ++ [ch "."] ++ drop (Z.to_nat (size ds - sc)) ds
  else ds ++ (if nonzero then replicate (Z.to_nat (- sc)) (ch "0") else []).

Definition plain_text : bytes := (if neg && nonzero then [ch "-"] else []) ++ plain_body.

Lemma plain_body_size :
  size plain_body =
    if 0 <? sc then (if size ds <=? sc then sc + 2 else size ds + 1)
    else size ds + (if nonzero then - sc else 0).
Proof.
  unfold plain_body, size. repeat case_match; zb;
    rewrite ?length_app, ?length_cons, ?length_take, ?length_drop, ?length_replicate; cbn; lia.
Qed.

Lemma format_plain (max : Z) :
  0 < size ds ->
  format_digits nonzero ds sc neg max =
    if size plain_text <=? max then Some plain_text else None.
Proof.
  intros Hds. unfold plain_text. rewrite size_app, plain_body_size.
  unfold format_digits, plain_body. set (n := size ds) in *.
  assert (size (if neg && nonzero then [ch "-"] else []) = if neg && nonzero then 1 else 0) as ->
    by (by destruct (neg && nonzero)).
  destruct (0 <? sc) eqn:Esc; zb.
  - destruct (n <=? sc) eqn:En; zb; destruct (neg && nonzero); repeat ztest;
      repeat case_match; zb; try lia; done.
  - assert ((if sc <? 0 then - sc else 0) = - sc) as -> by (destruct (sc <? 0) eqn:?; zb; lia).
    rewrite andb_false_r. cbn [negb Z.eqb].
    destruct nonzero, neg; cbn [andb]; repeat case_match; zb; try lia; done.
Qed.

(** What the text says: the digits, placed. *)
Lemma plain_decimal_text :
  digits ds -> 0 < size ds ->
  exists whole fraction,
    decimal_text plain_text (neg && nonzero) whole fraction 0 /\
    (if 0 <? sc then size fraction = sc /\ digits_value (whole ++ fraction) = digits_value ds
     else fraction = [] /\
          digits_value whole = if nonzero then digits_value ds * 10 ^ (- sc) else digits_value ds).
Proof.
  intros Hd Hsz.
  enough (exists whole fraction, number_text plain_body whole fraction 0 /\
    (if 0 <? sc then size fraction = sc /\ digits_value (whole ++ fraction) = digits_value ds
     else fraction = [] /\
          digits_value whole = if nonzero then digits_value ds * 10 ^ (- sc) else digits_value ds))
    as (whole & fraction & Hn & Hv).
  { exists whole, fraction. split; [|done].
    exists (if neg && nonzero then [ch "-"] else []), plain_body.
    split_and!; [|by destruct (neg && nonzero); constructor|done].
    apply trim_by_id. unfold plain_text. apply Forall_app; split;
      [by destruct (neg && nonzero); repeat constructor|by eapply number_text_plain]. }
  unfold plain_body. destruct (0 <? sc) eqn:Esc; zb.
  - destruct (size ds <=? sc) eqn:En; zb.
    + exists [ch "0"], (replicate (Z.to_nat (sc - size ds)) (ch "0") ++ ds). split_and!.
      * rewrite <- (app_nil_r (replicate _ _ ++ ds)) at 1.
        apply (number_point [ch "0"] _ [] 0); [by repeat constructor| |done|constructor].
        apply Forall_app; split; [apply digits_replicate|done].
      * rewrite size_app. unfold size at 1. rewrite length_replicate. lia.
      * rewrite app_assoc, digits_value_app, digits_value_app, digits_value_zeros. done.
    + exists (take (Z.to_nat (size ds - sc)) ds), (drop (Z.to_nat (size ds - sc)) ds).
      rewrite take_drop. split_and!; [|unfold size in *; rewrite length_drop; lia|done].
      rewrite <- (app_nil_r (drop _ ds)) at 1.
      apply number_point; [by apply Forall_take|by apply Forall_drop| |constructor].
      rewrite take_drop. intros ->. done.
  - set (zs := if nonzero then replicate (Z.to_nat (- sc)) (ch "0") else []).
    exists (ds ++ zs), []. rewrite <- (app_nil_r (ds ++ zs)) at 1. split_and!; [|done|].
    + apply number_whole; [| |constructor].
      * apply Forall_app; split; [done|]. unfold zs. destruct nonzero; [apply digits_replicate|done].
      * intros [-> _]%app_eq_nil. done.
    + unfold zs. rewrite digits_value_app. destruct nonzero.
      * rewrite digits_value_zeros. unfold size. rewrite length_replicate, Z2Nat.id by lia. lia.
      * rewrite Z.pow_0_r. cbn. lia.
Qed.
End Format.

Lemma significant_digits_spec (c : bytes) :
  digits c -> let '(nonzero, ds) := significant_digits c in
  digits ds /\ digits_value ds = digits_value c /\ 0 < size ds /\
  nonzero = negb (digits_value c =? 0).
Proof.
  intros Hc. unfold significant_digits. destruct (find_first_not_zero c) as [i|] eqn:E.
  - apply find_first_spec in E as (d & t & -> & Hd).
    rewrite drop_app_ge, length_replicate, Nat.sub_diag by (rewrite length_replicate; lia).
    apply Forall_app in Hc as [_ Hdt]. cbn [drop].
    rewrite digits_value_app, digits_value_zeros, size_cons. pose proof (size_nonneg t).
    pose proof (digits_value_head d t Hdt Hd). pose proof (pow10_pos (size t)).
    split_and!; [done|lia..].
  - apply find_first_none in E. apply (digits_value_zero c Hc) in E. rewrite E.
    split_and!; [by repeat constructor|done..].
Qed.

Lemma format_some (c : bytes) (sc : Z) (neg : bool) (max : Z) (r : bytes) :
  format_scaled_decimal {| coefficient := c; scale := sc; negative := neg |} max = Some r ->
  let N := digits_value c in
  digits c /\ size r <= max /\
  exists whole fraction,
    decimal_text r (neg && negb (N =? 0)) whole fraction 0 /\
    (if 0 <? sc then size fraction = sc /\ digits_value (whole ++ fraction) = N
     else fraction = [] /\ digits_value whole = N * 10 ^ (- sc)).
Proof.
  unfold format_scaled_decimal. cbn [coefficient scale negative].
  destruct (_ || _) eqn:E; [done|]. apply orb_false_iff in E as [_ E]. zb.
  apply forallb_digits in E as Hc.
  pose proof (significant_digits_spec c Hc) as Hs.
  destruct (significant_digits c) as [nonzero ds]. destruct Hs as (Hd & Hv & Hsz & Hnz).
  rewrite format_plain by done. case_match; [|done]. intros [= <-]. zb. split_and!; [done|done|].
  destruct (plain_decimal_text nonzero ds sc neg Hd Hsz) as (whole & fraction & Ht & Hval).
  rewrite <- Hnz. exists whole, fraction. split; [done|]. rewrite Hv in Hval.
  destruct (0 <? sc); [done|]. destruct Hval as [-> Hval]. split; [done|].
  rewrite Hval. destruct nonzero; [done|]. zb. lia.
Qed.

(** Digits placed at scale [sc] are worth [N] at that scale. *)
Lemma placed_value (whole fraction : bytes) (sc N : Z) :
  (if 0 <? sc then size fraction = sc /\ digits_value (whole ++ fraction) = N
   else fraction = [] /\ digits_value whole = N * 10 ^ (- sc)) ->
  let D := digits_value (whole ++ fraction) in
  let x := 0 - size fraction in
  scale10 D (x + sc) = N /\ exact10 D (x + sc) = true /\
  (sc < 0 -> scale10 D x mod 10 ^ (- sc) = 0).
Proof.
  intros Hval D x. unfold D, x. clear D x. destruct (0 <? sc) eqn:Es; zb.
  - destruct Hval as [-> ->]. unfold scale10, exact10. ztest.
    rewrite Z.sub_0_l, Z.add_opp_diag_l, Z.mul_1_r. split_and!; [done|done|lia].
  - destruct Hval as [-> Hv]. rewrite app_nil_r, Hv. change (size (@nil Z)) with 0.
    change (0 - 0 + sc) with sc. pose proof (pow10_pos (- sc)).
    split_and!; [| |intros _; unfold scale10; cbn; rewrite Z.mul_1_r; apply Z.mod_mul; lia].
    + unfold scale10. destruct (0 <=? sc) eqn:E; zb; [|apply Z.div_mul; lia].
      assert (sc = 0) as -> by lia. cbn. lia.
    + unfold exact10. destruct (0 <=? sc) eqn:E; zb; [done|]. rewrite Z.mod_mul by lia. done.
Qed.

(** ** Properties of formatting *)

(** Formatting succeeds exactly when the coefficient is a nonempty digit
    string and the text fits the output bound; the text then has at most
    [max_output_bytes] bytes and is the decimal literal, without exponent, of
    the value [(-1)^negative * N * 10 ^ -scale], with [scale] digits after the
    point when the scale is positive and no sign before a zero. *)
Theorem format_scaled_decimal_correct (v : ScaledDecimal) (max : Z) :
  (format_scaled_decimal v max = None <->
   ~ (digits (coefficient v) /\ coefficient v <> []) \/
   max < size (let '(nonzero, ds) := significant_digits (coefficient v) in
               plain_text nonzero ds (scale v) (negative v))) /\
  (forall r, format_scaled_decimal v max = Some r ->
   let N := digits_value (coefficient v) in
   size r <= max /\
   exists whole fraction,
     decimal_text r (negative v && negb (N =? 0)) whole fraction 0 /\
     (if 0 <? scale v then size fraction = scale v /\ digits_value (whole ++ fraction) = N
      else fraction = [] /\ digits_value whole = N * 10 ^ (- scale v))).
Proof.
  destruct v as [c sc neg]. cbn [coefficient scale negative]. split.
  - unfold format_scaled_decimal. cbn [coefficient scale negative].
    destruct (beq c [] || negb (forallb isdigit c)) eqn:E.
    { split; [intros _; left|done]. intros [Hd Hne]. apply orb_true_iff in E as [E|E].
      - unfold beq in E. by apply bool_decide_eq_true in E.
      - zb. apply forallb_digits in Hd. congruence. }
    apply orb_false_iff in E as [E1 E2]. zb.
    apply forallb_digits in E2 as Hc.
    apply bool_decide_eq_false in E1.
    pose proof (significant_digits_spec c Hc) as Hs.
    destruct (significant_digits c) as [nonzero ds]. destruct Hs as (_ & _ & Hsz & _).
    rewrite format_plain by done. case_match; zb; split; intros H'; try done; [|right; lia].
    destruct H' as [H'|H']; [|lia]. exfalso. by apply H'.
  - intros r (_ & Hsize & Hrest)%format_some. done.
Qed.

(** Round trip: formatting a canonical value (no leading zeros, no
    negative zero) and rescaling the text at the same scale gives the value
    back, with no truncation reported, whenever the coefficient has at most
    [precision] digits and the sizes are admissible. *)
Theorem format_rescale_roundtrip (v : ScaledDecimal) (max precision : Z) (r : bytes) :
  canonical (coefficient v) (digits_value (coefficient v)) ->
  (negative v = true -> digits_value (coefficient v) <> 0) ->
  digits_value (coefficient v) < 10 ^ precision ->
  max <= safe_size -> 1 <= precision <= safe_size -> Z.abs (scale v) <= safe_size ->
  format_scaled_decimal v max = Some r ->
  rescale_decimal r precision (scale v) = (Some v, None').
Proof.
  destruct v as [c sc neg]. cbn [coefficient scale negative].
  intros Hcan Hneg HN Hmax Hp Hsc (_ & Hsize & whole & fraction & Ht & Hval)%format_some.
  assert (Hadm : admissible r precision sc) by (split_and!; lia).
  pose proof (rescale_decimal_spec _ _ _ _ _ _ _ Hadm Ht) as Hspec.
  set (N := digits_value c) in *. destruct Hcan as (Hcd & HNc & Hhd).
  pose proof (digits_value_bounds c Hcd) as HN0. fold N in HN0.
  assert (forall x D, scale10 D (x + sc) = N -> exact10 D (x + sc) = true ->
    (sc < 0 -> scale10 D x mod 10 ^ (- sc) = 0) ->
    rescale_spec (neg && negb (N =? 0)) D x precision sc (rescale_decimal r precision sc) ->
    rescale_decimal r precision sc = (Some {| coefficient := c; scale := sc; negative := neg |}, None')) as K.
  { intros x D E1 E2 E3. unfold rescale_spec. rewrite E1, E2.
    assert ((sc <? 0) && negb (scale10 D x mod 10 ^ (- sc) =? 0) = false) as ->
      by (destruct (sc <? 0) eqn:Es; zb; [rewrite E3 by done|]; done).
    ztest. intros (c' & Hc' & ->). rewrite (canonical_unique c' c N); [|done|done].
    do 3 f_equal. destruct neg; [|done]. rewrite (proj2 (Z.eqb_neq N 0)) by auto. done. }
  destruct (placed_value whole fraction sc N Hval) as (E1 & E2 & E3). by eapply K.
Qed.

Lemma format_scaled_decimal_correct_witness :
  let v := {| coefficient := str "00123"; scale := 5; negative := true |} in
  size (str "-0.00123") <= 8 /\ format_scaled_decimal v 8 = Some (str "-0.00123") /\
  format_scaled_decimal v 7 = None.
Proof.
  intros v. split; [|split; [reflexivity|]].
  - apply (proj2 (format_scaled_decimal_correct v 8) (str "-0.00123")). reflexivity.
  - apply (proj1 (format_scaled_decimal_correct v 7)). right. by vm_compute.
Defined.

Lemma format_rescale_roundtrip_witness :
  let v := {| coefficient := str "123"; scale := 5; negative := true |} in
  rescale_decimal (str "-0.00123") 38 5 = (Some v, None').
Proof.
  intros v. apply (format_rescale_roundtrip v 100 38 (str "-0.00123")); try by vm_compute.
  split_and!; [by repeat constructor|done|]. right. by exists (ch "1"), (str "23").
Defined.
