(* ===== verification/PgWire.v ===== *)
(** * PostgreSQL wire primitives

    The byte-level writers and readers of
    [src/core/database/postgres/pg_protocol_parser.cpp]: the big-endian
    integers, NUL-terminated strings and message framing that every request is
    written with, the readers every response is read with, and the DataRow,
    error and notice payloads.  A reader's offset into the payload is the
    unread suffix of it; a read past the end is the code's exception.

    [frame] is the protocol's message layout and [begin_message] /
    [finish_message], which patch the length into the buffer afterwards,
    refine it ([finish_message_frame]).  The readers are exact inverses of the
    writers, so the theorems characterise each decoder as the inverse of the
    protocol's encoding. *)

From S2P Require Import Prelude Utf8.

Definition UINT32_MAX : Z := 4294967295.
Definition INT32_MAX : Z := 2147483647.

(** ** Writers *)

Definition append_u16 (out : bytes) (value : Z) : bytes :=
  out ++ [Z.land (Z.shiftr value 8) 0xff; Z.land value 0xff].

Definition append_u32 (out : bytes) (value : Z) : bytes :=
  out ++ [Z.land (Z.shiftr value 24) 0xff; Z.land (Z.shiftr value 16) 0xff;
          Z.land (Z.shiftr value 8) 0xff; Z.land value 0xff].

Definition append_cstring (out value : bytes) : bytes := (out ++ value) ++ [0].

Definition reject_sql_nul (sql : bytes) : res unit :=
  match find_char 0 sql with
  | Some _ => Throw (invalid_argument "SQL text contains an embedded NUL byte")
  | None => Ok tt
  end.

Definition begin_message (out : bytes) (tag : Z) : bytes * nat :=
  (append_u32 (out ++ [tag]) 0, length out).

Definition finish_message (out : bytes) (start : nat) : res bytes :=
  let len := size out - Z.of_nat start - 1 in
  if UINT32_MAX <? len then Throw (length_error "PostgreSQL message is too large")
  else
    let value := len in
    Ok (<[(start + 4)%nat := Z.land value 0xff]>
       (<[(start + 3)%nat := Z.land (Z.shiftr value 8) 0xff]>
       (<[(start + 2)%nat := Z.land (Z.shiftr value 16) 0xff]>
       (<[(start + 1)%nat := Z.land (Z.shiftr value 24) 0xff]> out)))).

(** ** Readers *)

Definition read_u16 (data : bytes) : res (Z * bytes) :=
  match data with
  | a :: b :: rest => Ok (Z.lor (Z.shiftl a 8) b, rest)
  | _ => Throw (runtime_error "truncated PostgreSQL message")
  end.

Definition read_u32 (data : bytes) : res (Z * bytes) :=
  match data with
  | a :: b :: c :: d :: rest =>
      Ok (Z.lor (Z.lor (Z.lor (Z.shiftl a 24) (Z.shiftl b 16)) (Z.shiftl c 8)) d, rest)
  | _ => Throw (runtime_error "truncated PostgreSQL message")
  end.

Definition not_nul (c : Z) : bool := negb (c =? 0).

Definition read_cstring (data : bytes) : res (bytes * bytes) :=
  match span not_nul data with
  | (_, []) => Throw (runtime_error "unterminated PostgreSQL metadata string")
  | (value, _ :: rest) => Ok (value, rest)
  end.

(** ** DataRow *)

Abbreviation ResultRow := (list (option bytes)).

Fixpoint read_columns (count : nat) (payload : bytes) : res (ResultRow * bytes) :=
  match count with
  | O => Ok ([], payload)
  | S count =>
      '(len, payload) ← read_u32 payload;
      if len =? 0xffffffff then
        '(row, payload) ← read_columns count payload;
        Ok (None :: row, payload)
      else if (0x7fffffff <? len) || (size payload <? len) then
        Throw (runtime_error "invalid PostgreSQL DataRow column length")
      else
        '(row, rest) ← read_columns count (drop (Z.to_nat len) payload);
        Ok (Some (take (Z.to_nat len) payload) :: row, rest)
  end.

Definition parse_data_row (payload : bytes) : res ResultRow :=
  '(column_count, payload) ← read_u16 payload;
  '(row, payload) ← read_columns (Z.to_nat column_count) payload;
  match payload with
  | [] => Ok row
  | _ => Throw (runtime_error "invalid PostgreSQL DataRow length")
  end.

(** ** Error and notice fields *)

Definition error_fields_step (st : bytes * gmap Z bytes)
    : (bytes * gmap Z bytes) + res (bytes * gmap Z bytes) :=
  let '(payload, fields) := st in
  match payload with
  | [] => inr (Ok st)
  | code :: payload' =>
      if code =? 0 then inr (Ok st)
      else
        match span not_nul payload' with
        | (_, []) => inr (Throw (runtime_error "Unterminated PostgreSQL error field"))
        | (value, _ :: rest) =>
            match fields !! code with
            | Some _ => inr (Throw (runtime_error "Duplicate PostgreSQL error field"))
            | None => inl (rest, <[code := replace_invalid_utf8 value]> fields)
            end
        end
  end.

Definition sqlstate_char (c : Z) : bool := isdigit c || isupper c.

Definition valid_sqlstate (s : bytes) : bool :=
  (size s =? 5) && forallb sqlstate_char s.

Definition decode_error_fields (payload : bytes) : res (gmap Z bytes) :=
  '(rest, fields) ← run unread error_fields_step (payload, ∅);
  if negb (size rest =? 1) then
    Throw (runtime_error "Invalid PostgreSQL error/notice payload")
  else
    match fields !! ch "S", fields !! ch "C", fields !! ch "M" with
    | Some _, Some sqlstate, Some (_ :: _) =>
        if valid_sqlstate sqlstate then Ok fields
        else Throw (runtime_error "Invalid PostgreSQL SQLSTATE")
    | _, _, _ => Throw (runtime_error "Invalid PostgreSQL error/notice payload")
    end.

(** [ErrorResponse::message] and [ErrorResponse::code]. *)
Definition error_message (fields : gmap Z bytes) : bytes := default [] (fields !! ch "M").
Definition error_code (fields : gmap Z bytes) : bytes := default [] (fields !! ch "C").

(** ** The protocol's layout *)

Definition be16 (v : Z) : bytes := [v / 256; v mod 256].
Definition be32 (v : Z) : bytes :=
  [v / 16777216; v / 65536 mod 256; v / 256 mod 256; v mod 256].

(** A tagged message: the length counts itself and the payload. *)
Definition frame (tag : Z) (payload : bytes) : bytes :=
  tag :: be32 (4 + size payload) ++ payload.

Definition cstring (s : bytes) : bytes := s ++ [0].

Lemma size_be32 v : size (be32 v) = 4. Proof. done. Qed.
Lemma size_be16 v : size (be16 v) = 2. Proof. done. Qed.
Lemma length_size {A} (s : list A) : Z.of_nat (length s) = size s. Proof. done. Qed.
#[export] Hint Rewrite size_be32 size_be16 : size.

(** Compute the sizes of the goal's concatenations. *)
Ltac sizes := unfold frame, cstring; autorewrite with size; cbn [size length].

Lemma frame_size tag payload : size (frame tag payload) = 5 + size payload.
Proof. sizes. lia. Qed.

Lemma append_u16_be16 out v : 0 <= v < 65536 -> append_u16 out v = out ++ be16 v.
Proof. intros. unfold append_u16, be16. bits. do 2 f_equal; dlia. Qed.

Lemma append_u32_be32 out v : 0 <= v <= UINT32_MAX -> append_u32 out v = out ++ be32 v.
Proof.
  unfold UINT32_MAX. intros. unfold append_u32, be32. bits.
  do 2 f_equal. dlia.
Qed.

Lemma append_cstring_app out s : append_cstring out s = out ++ cstring s.
Proof. unfold append_cstring, cstring. by rewrite <- app_assoc. Qed.

Lemma begin_message_app out tag :
  begin_message out tag = (out ++ tag :: [0; 0; 0; 0], length out).
Proof. unfold begin_message. rewrite append_u32_be32 by done. by rewrite <- app_assoc. Qed.

(** Patching the length of a message that was begun makes it a frame. *)
Lemma finish_message_frame out tag payload :
  finish_message (out ++ tag :: [0; 0; 0; 0] ++ payload) (length out) =
  if UINT32_MAX <? 4 + size payload
  then Throw (length_error "PostgreSQL message is too large")
  else Ok (out ++ frame tag payload).
Proof.
  unfold finish_message. rewrite length_size.
  replace (size (out ++ tag :: [0; 0; 0; 0] ++ payload) - size out - 1)
    with (4 + size payload) by (sizes; lia).
  destruct (UINT32_MAX <? 4 + size payload) eqn:E; [done|].
  apply Z.ltb_ge in E. unfold UINT32_MAX in E.
  pose proof (size_nonneg payload). f_equal.
  rewrite !insert_app_r. unfold frame, be32. cbn. bits. f_equal.
  repeat f_equal; dlia.
Qed.

(** ** The readers invert the layout *)

Lemma read_u16_be16 v rest : 0 <= v < 65536 -> read_u16 (be16 v ++ rest) = Ok (v, rest).
Proof. intros. cbn. bits. rewrite lor_add8 by dlia. do 2 f_equal. dlia. Qed.

Lemma read_u32_be32 v rest : 0 <= v <= UINT32_MAX -> read_u32 (be32 v ++ rest) = Ok (v, rest).
Proof.
  unfold UINT32_MAX. intros. cbn. bits.
  rewrite (lor_add24 _ (_ * 65536)) by dlia.
  replace (v / 16777216 * 16777216 + v / 65536 mod 256 * 65536)
    with (v / 65536 * 65536) by dlia.
  rewrite lor_add16 by dlia.
  replace (v / 65536 * 65536 + v / 256 mod 256 * 256) with (v / 256 * 256) by dlia.
  rewrite lor_add8 by dlia. do 2 f_equal. dlia.
Qed.

Lemma read_u16_inv data v rest :
  bytes_ok data -> read_u16 data = Ok (v, rest) ->
  data = be16 v ++ rest /\ 0 <= v < 65536 /\ bytes_ok rest.
Proof.
  intros Hok. destruct data as [|a [|b data]]; [done|done|]. cbn. intros [= <- <-].
  inv_forall. unfold is_byte in *. bits. rewrite lor_add8 by lia.
  split; [|split; [lia|done]]. unfold be16. cbn. repeat f_equal; dlia.
Qed.

Lemma read_u32_inv data v rest :
  bytes_ok data -> read_u32 data = Ok (v, rest) ->
  data = be32 v ++ rest /\ 0 <= v <= UINT32_MAX /\ bytes_ok rest.
Proof.
  intros Hok. destruct data as [|a [|b [|c [|d data]]]]; try done. cbn. intros [= <- <-].
  inv_forall. unfold is_byte, UINT32_MAX in *. bits.
  rewrite (lor_add24 a (b * 65536)) by lia.
  replace (a * 16777216 + b * 65536) with ((a * 256 + b) * 65536) by lia.
  rewrite lor_add16 by lia.
  replace ((a * 256 + b) * 65536 + c * 256) with ((a * 65536 + b * 256 + c) * 256) by lia.
  rewrite lor_add8 by lia.
  split; [|split; [lia|done]]. unfold be32. cbn. repeat f_equal; dlia.
Qed.

Lemma not_nul_true c : not_nul c = true <-> c <> 0.
Proof. unfold not_nul. rewrite negb_true_iff. apply Z.eqb_neq. Qed.

Abbreviation no_nul := (Forall (fun c => c <> 0)).

Lemma no_nul_span s rest : no_nul s -> span not_nul (s ++ 0 :: rest) = (s, 0 :: rest).
Proof.
  intros H. apply span_exact; [|by intros c [= <-]].
  eapply Forall_impl; [|exact H]. intros c. apply not_nul_true.
Qed.

Lemma span_not_nul data s t : span not_nul data = (s, t) ->
  no_nul s /\ data = s ++ t /\ (t = [] \/ exists rest, t = 0 :: rest).
Proof.
  intros E. split; [|split].
  - eapply Forall_impl; [|by eapply span_forall]. intros c. apply not_nul_true.
  - by apply span_app in E.
  - destruct t as [|c t]; [by left|right]. exists t. f_equal.
    apply (span_stop _ _ _ _ c) in E; [|done]. unfold not_nul in E. zb. lia.
Qed.

Lemma read_cstring_cstring s rest : no_nul s -> read_cstring (cstring s ++ rest) = Ok (s, rest).
Proof.
  intros H. unfold read_cstring, cstring. rewrite <- app_assoc. cbn.
  by rewrite no_nul_span.
Qed.

Lemma read_cstring_inv data s rest : read_cstring data = Ok (s, rest) ->
  data = cstring s ++ rest /\ no_nul s.
Proof.
  unfold read_cstring. destruct (span not_nul data) as [v t] eqn:E.
  apply span_not_nul in E as (Hv & -> & [->|[r ->]]); [done|].
  intros [= <- <-]. unfold cstring. by rewrite <- app_assoc.
Qed.

(** ** DataRow: exactness *)

Definition encode_cell (cell : option bytes) : bytes :=
  match cell with
  | None => be32 UINT32_MAX
  | Some v => be32 (size v) ++ v
  end.

Definition encode_data_row (row : ResultRow) : bytes :=
  be16 (size row) ++ concat (map encode_cell row).

Definition cell_fits (cell : option bytes) : Prop :=
  match cell with None => True | Some v => size v <= INT32_MAX end.

Definition row_fits (row : ResultRow) : Prop :=
  size row < 65536 /\ Forall cell_fits row.

Lemma read_columns_encode row rest : Forall cell_fits row ->
  read_columns (length row) (concat (map encode_cell row) ++ rest) = Ok (row, rest).
Proof.
  intros H. induction H as [|cell row Hc _ IH]; [done|].
  cbn [map concat length read_columns]. rewrite <- app_assoc.
  destruct cell as [v|]; cbn [encode_cell].
  - unfold cell_fits, INT32_MAX in Hc. pose proof (size_nonneg v). rewrite <- app_assoc.
    rewrite read_u32_be32 by (unfold UINT32_MAX; lia). mcbn.
    ztest. rewrite size_app. pose proof (size_nonneg (concat (map encode_cell row) ++ rest)).
    repeat ztest. unfold size. rewrite Nat2Z.id, drop_app_length, take_app_length.
    by rewrite IH.
  - rewrite read_u32_be32 by done. mcbn. by rewrite IH.
Qed.

Lemma read_columns_inv count data row rest :
  bytes_ok data -> read_columns count data = Ok (row, rest) ->
  data = concat (map encode_cell row) ++ rest /\ length row = count /\ Forall cell_fits row.
Proof.
  revert data row rest. induction count as [|count IH]; intros data row rest Hok.
  - by intros [= <- <-].
  - cbn [read_columns]. intros ([len data'] & (-> & Hlen & Hok')%read_u32_inv & E)%bind_Ok; [|done].
    destruct (len =? 0xffffffff) eqn:E1; zb.
    + apply bind_Ok in E as ([row' rest'] & (-> & <- & Hfit)%IH & [= <- <-]); [|done].
      subst len. split; [done|]. split; [done|]. by constructor.
    + destruct ((0x7fffffff <? len) || (size data' <? len)) eqn:E2; [done|]. zb.
      apply bind_Ok in E as ([row' rest'] & (Ed & <- & Hfit)%IH & [= <- <-]); [|by apply Forall_drop].
      assert (Hs : size (take (Z.to_nat len) data') = len)
        by (unfold size in *; rewrite length_take; lia).
      rewrite <- (take_drop (Z.to_nat len) data') at 1. rewrite Ed.
      cbn [map concat encode_cell]. rewrite Hs. split; [by rewrite <- !app_assoc|].
      split; [done|]. constructor; [|done]. cbn. rewrite Hs. unfold INT32_MAX. lia.
Qed.

Lemma parse_data_row_encode row : row_fits row -> parse_data_row (encode_data_row row) = Ok row.
Proof.
  intros [Hn Hf]. unfold parse_data_row, encode_data_row. pose proof (size_nonneg row).
  rewrite read_u16_be16 by lia. mcbn. unfold size. rewrite Nat2Z.id.
  rewrite <- (app_nil_r (concat _)), read_columns_encode by done. done.
Qed.

(** A DataRow payload is accepted exactly when it is the protocol's encoding
    of a row of at most 65535 cells whose values fit a non-negative int32
    length, and then the row read is that row: NULL and the empty value are
    kept apart, and truncated, oversized or trailing bytes are errors. *)
Theorem parse_data_row_exact (payload : bytes) (row : ResultRow) :
  bytes_ok payload ->
  (parse_data_row payload = Ok row <->
   payload = encode_data_row row /\ row_fits row).
Proof.
  intros Hok. split; [|intros [-> Hf]; by apply parse_data_row_encode].
  unfold parse_data_row.
  intros ([n data] & (-> & Hn & Hd)%read_u16_inv & E)%bind_Ok; [|done].
  apply bind_Ok in E as ([row' rest] & (-> & Hl & Hf)%read_columns_inv & E); [|done].
  destruct rest; [|done]. injection E as <-.
  assert (Hs : size row' = n) by (unfold size; lia).
  unfold encode_data_row. rewrite Hs, app_nil_r. split; [done|]. split; [lia|done].
Qed.

Lemma parse_data_row_exact_witness :
  parse_data_row [0; 2; 255; 255; 255; 255; 0; 0; 0; 1; 65] = Ok [None; Some [65]].
Proof.
  apply parse_data_row_exact.
  - repeat (apply Forall_cons; [done|]). apply Forall_nil.
  - split; [reflexivity|]. split; [done|]. by repeat constructor.
Defined.

(** ** Error fields: exactness *)

Definition encode_field (f : Z * bytes) : bytes := f.1 :: cstring f.2.
Definition encode_fields (fs : list (Z * bytes)) : bytes :=
  concat (map encode_field fs) ++ [0].

(** The fields a server may send: distinct non-zero codes, values without NUL. *)
Definition fields_ok (fs : list (Z * bytes)) : Prop :=
  NoDup fs.*1 /\ Forall (fun f => f.1 <> 0 /\ no_nul f.2) fs.

Definition sanitized (fs : list (Z * bytes)) : gmap Z bytes :=
  list_to_map (map (fun f => (f.1, replace_invalid_utf8 f.2)) fs).

(** What the decoder requires of the published fields. *)
Definition complete_error (fields : gmap Z bytes) : Prop :=
  is_Some (fields !! ch "S") /\
  (exists s, fields !! ch "C" = Some s /\ valid_sqlstate s = true) /\
  (exists m, fields !! ch "M" = Some m /\ m <> []).

#[export] Instance error_fields_decreases : Decreases unread error_fields_step.
Proof.
  intros [payload fields] [payload' fields']. unfold unread. cbn.
  destruct payload as [|c payload]; [done|]. destruct (c =? 0); [done|].
  destruct (span not_nul payload) as [v [|z t]] eqn:E; [done|].
  destruct (fields !! c); [done|]. intros [= <- <-].
  apply span_app in E as ->. cbn. rewrite length_app. cbn. lia.
Qed.

Definition error_loop : bytes * gmap Z bytes -> res (bytes * gmap Z bytes) :=
  run unread error_fields_step.

Lemma error_loop_eq st : error_loop st =
  match error_fields_step st with inl st' => error_loop st' | inr r => r end.
Proof. apply run_eq. Qed.

Definition absorb (fields : gmap Z bytes) (f : Z * bytes) : gmap Z bytes :=
  <[f.1 := replace_invalid_utf8 f.2]> fields.

Lemma error_loop_encode fs fields rest :
  fields_ok fs -> (forall f, f ∈ fs -> fields !! f.1 = None) ->
  error_loop (concat (map encode_field fs) ++ 0 :: rest, fields) =
  Ok (0 :: rest, foldl absorb fields fs).
Proof.
  intros [Hnd Hf]. revert fields. induction Hf as [|[c v] fs [Hc Hv] _ IH]; intros fields Hfresh.
  - rewrite error_loop_eq. done.
  - rewrite fmap_cons in Hnd. apply list.NoDup_cons in Hnd as [Hnin Hnd].
    cbn [fst snd] in *. cbn [map concat]. rewrite error_loop_eq.
    unfold encode_field at 1, cstring. cbn [fst snd]. rewrite <- !app_assoc. cbn [app error_fields_step].
    rewrite <- !app_assoc. cbn [app]. ztest. rewrite no_nul_span by done.
    assert (fields !! c = None) as -> by apply (Hfresh (c, v)), list_elem_of_here.
    rewrite IH; [done|done|]. intros f Hin. rewrite lookup_insert_ne.
    + apply Hfresh. by right.
    + intros ->. apply Hnin. apply list_elem_of_fmap. eauto.
Qed.

(** What the loop has read when it stops: whole fields, up to a NUL or the end. *)
Definition fields_read (st : bytes * gmap Z bytes) (data : bytes) (fields : gmap Z bytes) : Prop :=
  exists fs, st.1 = concat (map encode_field fs) ++ data /\ fields_ok fs /\
    (forall f, f ∈ fs -> st.2 !! f.1 = None) /\ fields = foldl absorb st.2 fs /\
    (forall c, head data = Some c -> c = 0).

Lemma error_loop_inv st data fields :
  error_loop st = Ok (data, fields) -> fields_read st data fields.
Proof.
  revert data fields. unfold error_loop.
  apply (run_ind (fun st r => forall data fields, r = Ok (data, fields) -> fields_read st data fields)).
  - intros [payload fs0] r. cbn. destruct payload as [|c payload].
    + intros [= <-] data fields [= <- <-]. exists [].
      repeat split; try done; try (by constructor); try set_solver.
    + destruct (c =? 0) eqn:Ec; zb.
      * intros [= <-] data fields [= <- <-]. exists [].
        repeat split; try done; try (by constructor); try set_solver.
      * destruct (span not_nul payload) as [v [|z t]]; [by intros [= <-]|].
        destruct (fs0 !! c); by intros [= <-].
  - intros [payload fs0] [payload' fs1] E IH data fields Hr. cbn in E.
    destruct payload as [|c payload]; [done|]. destruct (c =? 0) eqn:Ec; [done|]. zb.
    destruct (span not_nul payload) as [v [|z t]] eqn:Es; [done|].
    destruct (fs0 !! c) eqn:Ef; [done|]. injection E as <- <-.
    apply span_not_nul in Es as (Hv & -> & [?|[r [= -> ->]]]); [done|].
    destruct (IH data fields Hr) as (fs & E1 & [Hnd Hok] & Hfresh & E2 & Hh). cbn in *.
    exists ((c, v) :: fs). split_and!; try done.
    + cbn. unfold encode_field, cstring. cbn. rewrite E1, <- !app_assoc. done.
    + split; [|by constructor]. cbn. apply list.NoDup_cons. split; [|done].
      intros (f & -> & Hin)%list_elem_of_fmap. specialize (Hfresh f Hin).
      by rewrite lookup_insert in Hfresh; case_decide.
    + intros f [->|Hin]%elem_of_cons; [done|]. specialize (Hfresh f Hin).
      destruct (decide (c = f.1)) as [->|Hne]; [|by rewrite lookup_insert_ne in Hfresh].
      by rewrite lookup_insert in Hfresh; case_decide.
Qed.

Lemma foldl_absorb fs fields :
  NoDup fs.*1 -> (forall f, f ∈ fs -> fields !! f.1 = None) ->
  foldl absorb fields fs = sanitized fs ∪ fields.
Proof.
  revert fields. induction fs as [|[c v] fs IH]; intros fields Hnd Hfresh; cbn [foldl].
  - symmetry. apply map_empty_union.
  - rewrite fmap_cons in Hnd. apply list.NoDup_cons in Hnd as [Hnin Hnd].
    change (absorb fields (c, v)) with (<[c := replace_invalid_utf8 v]> fields).
    cbn [fst snd] in *.
    rewrite IH; [|done|].
    + unfold sanitized at 2. cbn. fold (sanitized fs).
      rewrite <- insert_union_l, <- insert_union_r; [done|].
      apply not_elem_of_list_to_map. intros (f & Ef & Hin)%list_elem_of_fmap.
      apply list_elem_of_In, in_map_iff in Hin as ([c' v'] & <- & Hin). cbn in *. subst c'.
      apply Hnin, list_elem_of_fmap. exists (c, v'). split; [done|]. by apply list_elem_of_In.
    + intros f Hin. rewrite lookup_insert_ne; [apply Hfresh; by right|].
      intros ->. apply Hnin, list_elem_of_fmap. eauto.
Qed.

Lemma foldl_absorb_sanitized fs : fields_ok fs -> foldl absorb ∅ fs = sanitized fs.
Proof. intros [Hnd _]. rewrite foldl_absorb; [apply map_union_empty|done|]. intros. apply lookup_empty. Qed.

Lemma decode_error_fields_spec (payload : bytes) (fields : gmap Z bytes) :
  decode_error_fields payload = Ok fields <->
  exists fs, payload = encode_fields fs /\ fields_ok fs /\
    fields = sanitized fs /\ complete_error fields.
Proof.
  unfold decode_error_fields. fold error_loop. split.
  - intros ([rest fields'] & E & H)%bind_Ok.
    apply error_loop_inv in E as (fs & E & Hok & _ & -> & Hh). cbn [fst snd] in *.
    destruct (negb (size rest =? 1)) eqn:Es; [done|]. zb.
    destruct rest as [|z [|z' rest]]; [done| |by rewrite !size_cons in Es; pose proof (size_nonneg rest); lia].
    rewrite (Hh z eq_refl) in E. rewrite foldl_absorb_sanitized in H by done.
    exists fs. split; [done|]. split; [done|]. unfold complete_error.
    destruct (sanitized fs !! ch "S") eqn:E1, (sanitized fs !! ch "C") as [st|] eqn:E2,
      (sanitized fs !! ch "M") as [[|m ms]|] eqn:E3; try done.
    destruct (valid_sqlstate st) eqn:Ev; [|done]. injection H as <-.
    rewrite E1, E2, E3. split; [done|]. split_and!; eauto.
  - intros (fs & -> & Hok & -> & [s E1] & (c & E2 & Hc) & (m & E3 & Hm)).
    unfold encode_fields. rewrite error_loop_encode by (done || intros; apply lookup_empty).
    rewrite foldl_absorb_sanitized by done. mcbn. cbn [size length negb Z.eqb Pos.eqb Z.of_nat Pos.of_succ_nat].
    rewrite E1, E2, E3, Hc. by destruct m.
Qed.

(** An error or notice payload is accepted exactly when it is the protocol's
    list of fields with distinct codes, a severity, a five-character SQLSTATE
    and a non-empty message, closed by one NUL at its very end; the fields
    published are the server's with every byte that is not valid UTF-8 replaced. *)
Theorem decode_error_fields_exact (payload : bytes) (fields : gmap Z bytes) :
  decode_error_fields payload = Ok fields <->
  exists fs, payload = encode_fields fs /\ fields_ok fs /\
    fields = sanitized fs /\ complete_error fields.
Proof. apply decode_error_fields_spec. Qed.

(** An ERROR with a two-field text and an invalid byte, decoded. *)
Example decode_error_fields_example :
  decode_error_fields (str "SERROR" ++ [0] ++ str "C42P01" ++ [0] ++ str "Mx" ++ [255; 0; 0]) =
  Ok (sanitized [(ch "S", str "ERROR"); (ch "C", str "42P01"); (ch "M", str "x" ++ [255])]).
Proof. vm_compute. reflexivity. Qed.
