(* ===== verification/PgMarkers.v ===== *)
(** * ODBC parameter markers in PostgreSQL SQL

    [replace_parameter_markers] of
    [src/core/database/postgres/pg_protocol_parser.cpp] rewrites each [?] of the
    SQL code into [$1], [$2], ... and leaves string literals, quoted
    identifiers, comments and dollar-quoted text alone.

    The loop is one [lex_step] per iteration.  The text is held as the part
    already passed, in reverse, and the part ahead, so that [sql[i - 1]] is the
    head of the first and [sql[i]] the head of the second.  The reference is the
    declarative grammar [lexes], which splits a text into markers, code
    characters and opaque regions. *)

From S2P Require Import Prelude Digits.

(** ** The lexer *)

Inductive State :=
| Normal | SingleQuote | EscapeString | DoubleQuote | LineComment | BlockComment.

#[export] Instance state_eq_dec : EqDecision State.
Proof. solve_decision. Defined.

Definition is_dollar_tag_start (c : Z) : bool := isalpha c || (c =? ch "_").
Definition is_dollar_tag_continue (c : Z) : bool := isalnum c || (c =? ch "_").
Definition is_identifier_continue (c : Z) : bool :=
  is_dollar_tag_continue c || (c =? ch "$") || (0x80 <=? c).

(** [dollar_delimiter], [out] and [marker_count] are the code's variables;
    [before] is the text already passed, the last character first. *)
Record Lexer := {
  state : State;
  block_depth : Z;
  marker_count : Z;
  dollar_delimiter : bytes;
  out : bytes;
  before : bytes;
}.

(** Copy the characters to the output and pass them. *)
Definition copy (text : bytes) (st : Lexer) : Lexer :=
  {| state := state st; block_depth := block_depth st; marker_count := marker_count st;
     dollar_delimiter := dollar_delimiter st; out := out st ++ text;
     before := rev text ++ before st |}.

Definition enter (s : State) (st : Lexer) : Lexer :=
  {| state := s; block_depth := block_depth st; marker_count := marker_count st;
     dollar_delimiter := dollar_delimiter st; out := out st; before := before st |}.

Definition set_depth (d : Z) (st : Lexer) : Lexer :=
  {| state := state st; block_depth := d; marker_count := marker_count st;
     dollar_delimiter := dollar_delimiter st; out := out st; before := before st |}.

Definition set_delimiter (d : bytes) (st : Lexer) : Lexer :=
  {| state := state st; block_depth := block_depth st; marker_count := marker_count st;
     dollar_delimiter := d; out := out st; before := before st |}.

(** [++marker_count], the placeholder on the output, and past the [?]. *)
Definition emit_marker (st : Lexer) : Lexer :=
  let n := marker_count st + 1 in
  {| state := state st; block_depth := block_depth st; marker_count := n;
     dollar_delimiter := dollar_delimiter st;
     out := out st ++ ch "$" :: to_string n;
     before := ch "?" :: before st |}.

(** Whether a quote at this place opens an [E'...'] string. *)
Definition escape_string (before : bytes) : bool :=
  match before with
  | c :: before' =>
      ((c =? ch "E") || (c =? ch "e")) &&
      match before' with
      | d :: _ => negb (is_identifier_continue d)
      | [] => true
      end
  | [] => false
  end.

(** The dollar-quote delimiter that starts the text, if one does. *)
Definition dollar_tag (text : bytes) : option bytes :=
  match text with
  | c :: t =>
      let '(tag, rest) :=
        match t with
        | d :: _ => if is_dollar_tag_start d then span is_dollar_tag_continue t else ([], t)
        | [] => ([], t)
        end in
      match rest with
      | d :: _ => if d =? ch "$" then Some (c :: tag ++ [d]) else None
      | [] => None
      end
  | [] => None
  end.

Definition after_identifier (before : bytes) : bool :=
  match before with [] => false | c :: _ => is_identifier_continue c end.

Definition next_char (t : bytes) : Z := match t with [] => 0 | c :: _ => c end.

(** Inside a quoted region. *)
Definition quoted_step (st : Lexer) (c : Z) (t : bytes) : bytes * Lexer :=
  let quote := if decide (state st = DoubleQuote) then DQ else ch "'" in
  if c =? quote then
    match t with
    | d :: t' => if d =? quote then (t', copy [c; d] st) else (t, enter Normal (copy [c] st))
    | [] => (t, enter Normal (copy [c] st))
    end
  else if bool_decide (state st = EscapeString) && (c =? ch "\") then
    match t with
    | d :: t' => (t', copy [c; d] st)
    | [] => (t, copy [c] st)
    end
  else (t, copy [c] st).

(** In SQL code. *)
Definition normal_step (st : Lexer) (c : Z) (t : bytes) : bytes * Lexer :=
  let next := next_char t in
  if (c =? ch "'") || (c =? DQ) then
    (t, copy [c] (enter (if c =? DQ then DoubleQuote
                         else if escape_string (before st) then EscapeString
                         else SingleQuote) st))
  else if (c =? ch "-") && (next =? ch "-") then
    (tail t, copy [c; next] (enter LineComment st))
  else if (c =? ch "/") && (next =? ch "*") then
    (tail t, copy [c; next] (set_depth 1 (enter BlockComment st)))
  else if (c =? ch "$") && negb (after_identifier (before st)) then
    match dollar_tag (c :: t) with
    | Some tag => (drop (length tag) (c :: t), copy tag (set_delimiter tag st))
    | None => (t, copy [c] st)
    end
  else if c =? ch "?" then (t, emit_marker st)
  else (t, copy [c] st).

Definition lex_step (s : bytes * Lexer) : (bytes * Lexer) + (bytes * Z) :=
  let '(text, st) := s in
  match text with
  | [] => inr (out st, marker_count st)
  | c :: t =>
      inl
        match dollar_delimiter st with
        | (_ :: _) as d =>
            if starts_with text d
            then (drop (length d) text, set_delimiter [] (copy d st))
            else (t, copy [c] st)
        | [] =>
            let next := next_char t in
            match state st with
            | LineComment =>
                (t, if (c =? 10) || (c =? 13) then enter Normal (copy [c] st) else copy [c] st)
            | BlockComment =>
                if (c =? ch "/") && (next =? ch "*") then
                  (tail t, copy [c; next] (set_depth (block_depth st + 1) st))
                else if (c =? ch "*") && (next =? ch "/") then
                  let st := copy [c; next] (set_depth (block_depth st - 1) st) in
                  (tail t, if block_depth st =? 0 then enter Normal st else st)
                else (t, copy [c] st)
            | SingleQuote | EscapeString | DoubleQuote => quoted_step st c t
            | Normal => normal_step st c t
            end
        end
  end.

Definition initial_lexer : Lexer :=
  {| state := Normal; block_depth := 0; marker_count := 0;
     dollar_delimiter := []; out := []; before := [] |}.

(** The rewritten text and the number of markers. *)
Definition replace_parameter_markers (sql : bytes) : bytes * Z :=
  run unread lex_step (sql, initial_lexer).

Definition parameter_marker_count (sql : bytes) : Z := (replace_parameter_markers sql).2.

Example marker_examples :
  replace_parameter_markers (str "a=? /*?/*?*/?*/ '?''?' E'\'?' $t$?$$?$t$ ?--?") =
  (str "a=$1 /*?/*?*/?*/ '?''?' E'\'?' $t$?$$?$t$ $2--?", 2) /\
  replace_parameter_markers (str "a$?$?$") = (str "a$$1$$2$", 2).
Proof. split; vm_compute; reflexivity. Qed.

(** ** The reference grammar *)

(** The text starts with these two characters. *)
Definition opens2 (a b : Z) (s : bytes) : bool :=
  match s with x :: y :: _ => (x =? a) && (y =? b) | _ => false end.

(** The inside of a quoted region: a quote only doubled and, in an escape
    string, any character after a backslash. *)
Inductive quoted_body (q : Z) (esc : bool) : bytes -> Prop :=
| qb_nil : quoted_body q esc []
| qb_char c s : c <> q -> (esc = true -> c <> ch "\") ->
    quoted_body q esc s -> quoted_body q esc (c :: s)
| qb_double s : quoted_body q esc s -> quoted_body q esc (q :: q :: s)
| qb_escape c s : esc = true -> quoted_body q esc s -> quoted_body q esc (ch "\" :: c :: s).

(** The inside of a block comment from nesting depth [d]: up to the end of the
    outermost comment, or to the end of the text. *)
Inductive block_body (closed : bool) : nat -> bytes -> Prop :=
| bb_close : closed = true -> block_body closed 1 [ch "*"; ch "/"]
| bb_end d : closed = false -> block_body closed (S d) []
| bb_nest d s : block_body closed (S (S d)) s ->
    block_body closed (S d) (ch "/" :: ch "*" :: s)
| bb_unnest d s : block_body closed (S d) s ->
    block_body closed (S (S d)) (ch "*" :: ch "/" :: s)
| bb_char d c s : opens2 (ch "/") (ch "*") (c :: s) = false ->
    opens2 (ch "*") (ch "/") (c :: s) = false ->
    block_body closed d s -> block_body closed d (c :: s).

Definition newline (c : Z) : bool := (c =? 10) || (c =? 13).
Abbreviation one_line := (Forall (fun c => newline c = false)).

(** A dollar-quote delimiter: [$$] or [$name$]. *)
Definition is_tag (tag : bytes) : Prop :=
  exists name, tag = ch "$" :: name ++ [ch "$"] /\
    Forall (fun c => is_dollar_tag_continue c = true) name /\
    match name with [] => True | c :: _ => is_dollar_tag_start c = true end.

(** [tag] does not occur in [text] at an offset below [n]. *)
Definition absent_below (n : nat) (tag text : bytes) : Prop :=
  forall k, (k < n)%nat -> starts_with (drop k text) tag = false.

(** An opaque region [src] between what precedes it and what follows it. *)
Inductive opaque (before : bytes) : bytes -> bytes -> Prop :=
| op_quoted q body rest :
    q = ch "'" \/ q = DQ ->
    quoted_body q (negb (q =? DQ) && escape_string before) body ->
    head rest <> Some q ->
    opaque before (q :: body ++ [q]) rest
| op_quoted_open q body tl :
    q = ch "'" \/ q = DQ ->
    quoted_body q (negb (q =? DQ) && escape_string before) body ->
    tl = [] \/ (tl = [ch "\"] /\ negb (q =? DQ) && escape_string before = true) ->
    opaque before (q :: body ++ tl) []
| op_line line nl rest :
    one_line line -> newline nl = true ->
    opaque before (ch "-" :: ch "-" :: line ++ [nl]) rest
| op_line_open line : one_line line -> opaque before (ch "-" :: ch "-" :: line) []
| op_block body rest : block_body true 1 body ->
    opaque before (ch "/" :: ch "*" :: body) rest
| op_block_open body : block_body false 1 body -> opaque before (ch "/" :: ch "*" :: body) []
| op_dollar tag body rest :
    after_identifier before = false -> is_tag tag ->
    absent_below (length body) tag (body ++ tag ++ rest) ->
    opaque before (tag ++ body ++ tag) rest
| op_dollar_open tag body :
    after_identifier before = false -> is_tag tag ->
    absent_below (length body) tag body ->
    opaque before (tag ++ body) [].

(** A character of SQL code that is not a marker and opens nothing. *)
Definition code_char (before : bytes) (c : Z) (rest : bytes) : Prop :=
  c <> ch "?" /\ c <> ch "'" /\ c <> DQ /\
  opens2 (ch "-") (ch "-") (c :: rest) = false /\
  opens2 (ch "/") (ch "*") (c :: rest) = false /\
  (after_identifier before = false -> forall tag r, is_tag tag -> c :: rest <> tag ++ r).

Inductive token := Marker | Code (c : Z) | Opaque (text : bytes).

Inductive lexes : bytes -> bytes -> list token -> Prop :=
| lex_nil before : lexes before [] []
| lex_marker before rest ts :
    lexes (ch "?" :: before) rest ts -> lexes before (ch "?" :: rest) (Marker :: ts)
| lex_code before c rest ts :
    code_char before c rest ->
    lexes (c :: before) rest ts -> lexes before (c :: rest) (Code c :: ts)
| lex_opaque before src rest ts :
    opaque before src rest ->
    lexes (rev src ++ before) rest ts -> lexes before (src ++ rest) (Opaque src :: ts).

(** The text of the tokens with the markers numbered from [k + 1]. *)
Fixpoint render (k : Z) (ts : list token) : bytes :=
  match ts with
  | [] => []
  | Marker :: ts => (ch "$" :: to_string (k + 1)) ++ render (k + 1) ts
  | Code c :: ts => c :: render k ts
  | Opaque s :: ts => s ++ render k ts
  end.

Definition is_marker (t : token) : bool := match t with Marker => true | _ => false end.
Definition markers (ts : list token) : Z := size (List.filter is_marker ts).

(** ** The loop *)

Lemma dollar_tag_sound text tag :
  dollar_tag text = Some tag -> head text = Some (ch "$") ->
  is_tag tag /\ exists rest, text = tag ++ rest.
Proof.
  intros H Hh. destruct text as [|c t]; [done|]. injection Hh as ->. revert H. cbn.
  destruct (match t with
            | [] => ([], t)
            | d :: _ => if is_dollar_tag_start d then span is_dollar_tag_continue t else ([], t)
            end) as [name rest] eqn:E.
  destruct rest as [|d rest]; [done|]. destruct (d =? ch "$") eqn:Ed; [|done]. zb. subst d.
  intros [= <-].
  assert (t = name ++ ch "$" :: rest /\ Forall (fun c => is_dollar_tag_continue c = true) name /\
          match name with [] => True | c :: _ => is_dollar_tag_start c = true end)
    as (-> & Hn & Hs).
  { destruct t as [|d t]; [done|]. destruct (is_dollar_tag_start d) eqn:Es.
    - pose proof (span_app _ _ _ _ E) as Et. split; [done|].
      split; [by eapply span_forall|]. destruct name; [done|]. by injection Et as <- _.
    - by injection E as <- <- <-. }
  split; [by exists name|]. exists rest. by rewrite <- app_comm_cons, <- app_assoc.
Qed.

Lemma dollar_tag_complete tag rest : is_tag tag -> dollar_tag (tag ++ rest) = Some tag.
Proof.
  intros (name & -> & Hn & Hs). cbn. rewrite <- app_assoc. cbn.
  destruct name as [|c name]; [done|]. cbn [app]. rewrite Hs.
  change (c :: name ++ ch "$" :: rest) with ((c :: name) ++ ch "$" :: rest).
  rewrite span_exact; [done|done|]. by intros d [= <-].
Qed.

#[export] Instance lex_decreases : Decreases unread lex_step.
Proof.
  intros [text st] [text' st']. unfold unread. cbn [fst].
  destruct text as [|c t]; [done|]. cbn [lex_step].
  intros [= E]. revert E.
  assert (length (tail t) < S (length t))%nat by (destruct t; cbn; lia).
  assert (forall d : bytes, d <> [] -> (length (drop (length d) (c :: t)) < S (length t))%nat)
    as Hd by (intros [|? ?] ?; [done|]; rewrite length_drop; cbn; lia).
  assert (forall d t', t = d :: t' -> (length t' < length t)%nat) by (intros ?? ->; cbn; lia).
  destruct (dollar_delimiter st) as [|d ds] eqn:Ed.
  2: { destruct (starts_with _ _); intros [= <- <-]; [by apply (Hd (d :: ds))|cbn; lia]. }
  destruct (state st).
  - unfold normal_step. repeat case_match; intros [= <- <-]; try (cbn; lia).
    apply Hd. match goal with H : dollar_tag _ = Some _ |- _ => revert H end.
    cbn. repeat case_match; try done; by intros [= <-].
  - unfold quoted_step. repeat case_match; intros [= <- <-]; subst; cbn [length] in *; lia.
  - unfold quoted_step. repeat case_match; intros [= <- <-]; subst; cbn [length] in *; lia.
  - unfold quoted_step. repeat case_match; intros [= <- <-]; subst; cbn [length] in *; lia.
  - intros [= <- <-]; cbn [length]; lia.
  - repeat case_match; intros [= <- <-]; cbn [length]; lia.
Qed.

Definition lexer : bytes * Lexer -> bytes * Z := run unread lex_step.

Lemma lexer_eq s : lexer s = match lex_step s with inl s' => lexer s' | inr r => r end.
Proof. apply run_eq. Qed.

(** The lexer in state [s] with a nesting depth, a count, an output and what
    was passed. *)
Definition at_state (s : State) (d k : Z) (tag o b : bytes) : Lexer :=
  {| state := s; block_depth := d; marker_count := k; dollar_delimiter := tag;
     out := o; before := b |}.

Lemma lexer_end s d k tag o b : lexer ([], at_state s d k tag o b) = (o, k).
Proof. by rewrite lexer_eq. Qed.

Lemma copy_at text s d k tag o b :
  copy text (at_state s d k tag o b) = at_state s d k tag (o ++ text) (rev text ++ b).
Proof. done. Qed.

Lemma lexer_normal c t d k o b :
  lexer (c :: t, at_state Normal d k [] o b) = lexer (normal_step (at_state Normal d k [] o b) c t).
Proof. by rewrite lexer_eq. Qed.

Definition quote_state (q : Z) (esc : bool) : State :=
  if q =? DQ then DoubleQuote else if esc then EscapeString else SingleQuote.

(** A quote character, and escapes only in single quotes. *)
Definition quoting (q : Z) (esc : bool) : Prop :=
  (q = ch "'" \/ q = DQ) /\ (q = DQ -> esc = false).

Lemma lexer_quoted q esc c t d k o b : quoting q esc ->
  lexer (c :: t, at_state (quote_state q esc) d k [] o b) =
  lexer (if c =? q then
           match t with
           | x :: t' => if x =? q then (t', at_state (quote_state q esc) d k [] (o ++ [c; x]) (x :: c :: b))
                        else (t, at_state Normal d k [] (o ++ [c]) (c :: b))
           | [] => (t, at_state Normal d k [] (o ++ [c]) (c :: b))
           end
         else if esc && (c =? ch "\") then
           match t with
           | x :: t' => (t', at_state (quote_state q esc) d k [] (o ++ [c; x]) (x :: c :: b))
           | [] => (t, at_state (quote_state q esc) d k [] (o ++ [c]) (c :: b))
           end
         else (t, at_state (quote_state q esc) d k [] (o ++ [c]) (c :: b))).
Proof.
  intros [[->| ->] He]; [destruct esc|rewrite He by done];
    rewrite lexer_eq; cbn [lex_step at_state quote_state state Z.eqb Pos.eqb];
    unfold quoted_step; cbn [state]; repeat case_decide; try done;
    destruct (c =? _); destruct t; try done; by case_match.
Qed.

(** *** Each opaque region is passed and copied *)

Ltac lex_norm := rewrite <- ?app_assoc; cbn [app rev]; rewrite <- ?app_assoc; cbn [app].

Lemma quoted_body_pass q esc body : quoting q esc -> quoted_body q esc body ->
  forall rest d k o b,
  lexer (body ++ rest, at_state (quote_state q esc) d k [] o b) =
  lexer (rest, at_state (quote_state q esc) d k [] (o ++ body) (rev body ++ b)).
Proof.
  intros Hq H. induction H as [|c s Hc He _ IH|s _ IH|c s He _ IH]; intros rest d k o b; cbn [app rev].
  - by rewrite app_nil_r.
  - rewrite lexer_quoted by done. ztest.
    replace (esc && (c =? ch "\")) with false by (destruct esc; [symmetry; apply Z.eqb_neq; auto|done]).
    rewrite IH. by lex_norm.
  - rewrite lexer_quoted by done. cbn [app]. rewrite ?Z.eqb_refl, IH. by lex_norm.
  - rewrite lexer_quoted by done. destruct Hq as [[->| ->] Hq]; [|by rewrite Hq in He].
    subst esc. cbn [Z.eqb Pos.eqb app andb]. rewrite IH. by lex_norm.
Qed.

Lemma line_pass line : one_line line -> forall rest d k o b,
  lexer (line ++ rest, at_state LineComment d k [] o b) =
  lexer (rest, at_state LineComment d k [] (o ++ line) (rev line ++ b)).
Proof.
  induction 1 as [|c s Hc _ IH]; intros rest d k o b; cbn [app rev].
  - by rewrite app_nil_r.
  - rewrite lexer_eq. cbn [lex_step at_state state dollar_delimiter]. unfold newline in Hc. rewrite Hc.
    rewrite copy_at, IH. by lex_norm.
Qed.

Lemma block_pass closed depth body : block_body closed depth body ->
  forall rest k o b, (closed = false -> rest = []) ->
  exists s d', lexer (body ++ rest, at_state BlockComment (Z.of_nat depth) k [] o b) =
    lexer (rest, at_state s d' k [] (o ++ body) (rev body ++ b)) /\
    (closed = true -> s = Normal).
Proof.
  induction 1 as [Hc|d Hc|d s _ IH|d s Hs IH|d c s E1 E2 Hs IH]; intros rest k o b Hr.
  - exists Normal, 0. by rewrite lexer_eq.
  - exists BlockComment, (Z.of_nat (S d)). rewrite Hc, app_nil_r. done.
  - destruct (IH rest k (o ++ [ch "/"; ch "*"]) ([ch "*"; ch "/"] ++ b) Hr) as (s' & d' & E & H).
    exists s', d'. split; [|done]. rewrite lexer_eq. 
    cbn [lex_step at_state state app next_char tail Z.eqb Pos.eqb andb dollar_delimiter set_depth copy block_depth].
    replace (Z.of_nat (S d) + 1) with (Z.of_nat (S (S d))) by lia. revert E. by lex_norm.
  - destruct (IH rest k (o ++ [ch "*"; ch "/"]) ([ch "/"; ch "*"] ++ b) Hr) as (s' & d' & E & H).
    exists s', d'. split; [|done]. rewrite lexer_eq.
    cbn [lex_step at_state state app next_char tail Z.eqb Pos.eqb andb dollar_delimiter set_depth copy block_depth].
    replace (Z.of_nat (S (S d)) - 1) with (Z.of_nat (S d)) by lia. revert E. by lex_norm.
  - destruct (IH rest k (o ++ [c]) ([c] ++ b) Hr) as (s' & d' & E & H).
    exists s', d'. split; [|done]. rewrite lexer_eq.
    assert ((c =? ch "/") && (next_char (s ++ rest) =? ch "*") = false /\
            (c =? ch "*") && (next_char (s ++ rest) =? ch "/") = false) as [E3 E4].
    { destruct s as [|x s]; [|done]. inversion Hs as [|? Hf| | |]; subst.
      rewrite (Hr eq_refl). cbn. by rewrite !andb_false_r. }
    cbn [lex_step at_state state app dollar_delimiter]. rewrite E3, E4, copy_at. revert E. by lex_norm.
Qed.

Lemma dollar_pass tag body : tag <> [] -> forall rest d k o b,
  absent_below (length body) tag (body ++ rest) ->
  lexer (body ++ rest, at_state Normal d k tag o b) =
  lexer (rest, at_state Normal d k tag (o ++ body) (rev body ++ b)).
Proof.
  intros Ht. induction body as [|c s IH]; intros rest d k o b Ha; cbn [app rev].
  - by rewrite app_nil_r.
  - rewrite lexer_eq. cbn [lex_step at_state dollar_delimiter].
    destruct tag as [|x tag]; [done|].
    pose proof (Ha 0%nat ltac:(cbn; lia)) as H0. cbn [drop app] in H0. rewrite H0, copy_at, IH.
    + by lex_norm.
    + intros i Hi. apply (Ha (S i)). cbn. lia.
Qed.

(** The lexer has passed [src]: it is in SQL code again, or at the end. *)
Definition passed (src rest : bytes) (d k : Z) (o b : bytes) : Prop :=
  exists s d' tag,
    lexer (src ++ rest, at_state Normal d k [] o b) =
    lexer (rest, at_state s d' k tag (o ++ src) (rev src ++ b)) /\
    (rest = [] \/ (s = Normal /\ tag = [])).

Lemma quoting_at q b : q = ch "'" \/ q = DQ -> quoting q (negb (q =? DQ) && escape_string b).
Proof. intros H. split; [done|]. by intros ->. Qed.

Lemma enter_quote q t d k o b : q = ch "'" \/ q = DQ ->
  lexer (q :: t, at_state Normal d k [] o b) =
  lexer (t, at_state (quote_state q (negb (q =? DQ) && escape_string b)) d k [] (o ++ [q]) (q :: b)).
Proof.
  intros H. rewrite lexer_normal. unfold normal_step, quote_state.
  destruct H as [->| ->]; cbn [Z.eqb Pos.eqb orb negb andb]; [|done].
  cbn [before at_state]. by destruct (escape_string b).
Qed.

Lemma enter_dollar tag t d k o b : is_tag tag -> after_identifier b = false ->
  lexer (tag ++ t, at_state Normal d k [] o b) =
  lexer (t, at_state Normal d k tag (o ++ tag) (rev tag ++ b)).
Proof.
  intros Ht Hb. pose proof (dollar_tag_complete tag t Ht) as E.
  destruct Ht as (name & Et & _). rewrite Et. cbn [app]. rewrite lexer_normal. unfold normal_step.
  cbn [Z.eqb Pos.eqb orb andb before at_state]. rewrite Hb. cbn [negb].
  rewrite app_comm_cons, <- Et, E, drop_app_length. done.
Qed.

Lemma leave_dollar tag t d k o b : tag <> [] ->
  lexer (tag ++ t, at_state Normal d k tag o b) =
  lexer (t, at_state Normal d k [] (o ++ tag) (rev tag ++ b)).
Proof.
  intros Ht. rewrite lexer_eq. cbn [lex_step at_state dollar_delimiter].
  destruct tag as [|x tag]; [done|]. unfold starts_with, beq.
  change (x :: tag) with ([x] ++ tag). rewrite (take_app_length ([x] ++ tag) t).
  rewrite bool_decide_true by done. rewrite (drop_app_length ([x] ++ tag) t). done.
Qed.

Lemma rev_wrap (x y : Z) s : rev (x :: s ++ [y]) = y :: rev s ++ [x].
Proof. cbn. by rewrite rev_app_distr. Qed.

Lemma closed_quote_passed q body rest d k o b :
  q = ch "'" \/ q = DQ ->
  quoted_body q (negb (q =? DQ) && escape_string b) body ->
  head rest <> Some q -> passed (q :: body ++ [q]) rest d k o b.
Proof.
  intros Hq Hb Hr. exists Normal, d, []. split; [|by right]. cbn [app]. rewrite enter_quote by done.
  rewrite <- app_assoc, quoted_body_pass by (done || by apply quoting_at).
  cbn [app]. rewrite lexer_quoted, Z.eqb_refl by by apply quoting_at.
  rewrite rev_wrap. destruct rest as [|x t].
  - rewrite !lexer_end. f_equal. by lex_norm.
  - assert ((x =? q) = false) as -> by (apply Z.eqb_neq; intros ->; by apply Hr).
    by lex_norm.
Qed.

Lemma open_quote_passed q body tl d k o b :
  q = ch "'" \/ q = DQ ->
  quoted_body q (negb (q =? DQ) && escape_string b) body ->
  tl = [] \/ (tl = [ch "\"] /\ negb (q =? DQ) && escape_string b = true) ->
  passed (q :: body ++ tl) [] d k o b.
Proof.
  intros Hq Hb Htl. exists Normal, d, []. split; [|by left].
  rewrite lexer_end. cbn [app]. rewrite enter_quote, <- app_assoc by done.
  rewrite quoted_body_pass by (done || by apply quoting_at).
  destruct Htl as [->|[-> He]]; cbn [app].
  - rewrite lexer_end. f_equal. lex_norm. by rewrite app_nil_r.
  - rewrite lexer_quoted by by apply quoting_at. rewrite He.
    destruct Hq as [->| ->]; [|done]. cbn [Z.eqb Pos.eqb andb].
    rewrite lexer_end. f_equal. by lex_norm.
Qed.

Lemma enter_line t d k o b :
  lexer (ch "-" :: ch "-" :: t, at_state Normal d k [] o b) =
  lexer (t, at_state LineComment d k [] (o ++ [ch "-"; ch "-"]) (ch "-" :: ch "-" :: b)).
Proof. by rewrite lexer_normal. Qed.

Lemma enter_block t d k o b :
  lexer (ch "/" :: ch "*" :: t, at_state Normal d k [] o b) =
  lexer (t, at_state BlockComment (Z.of_nat 1) k [] (o ++ [ch "/"; ch "*"]) (ch "*" :: ch "/" :: b)).
Proof. by rewrite lexer_normal. Qed.

Lemma line_passed line nl rest d k o b : one_line line -> newline nl = true ->
  passed (ch "-" :: ch "-" :: line ++ [nl]) rest d k o b.
Proof.
  intros Hl Hn. exists Normal, d, []. split; [|by right]. cbn [app]. rewrite enter_line, <- app_assoc.
  rewrite line_pass, lexer_eq by done. cbn [lex_step app at_state state dollar_delimiter].
  unfold newline in Hn. rewrite Hn, copy_at.
  cbn [rev]. rewrite rev_app_distr. by lex_norm.
Qed.

Lemma block_passed closed body rest d k o b : block_body closed 1 body ->
  (closed = false -> rest = []) -> passed (ch "/" :: ch "*" :: body) rest d k o b.
Proof.
  intros Hb Hr.
  destruct (block_pass _ _ _ Hb rest k (o ++ [ch "/"; ch "*"]) (ch "*" :: ch "/" :: b) Hr)
    as (s & d' & E & Hs).
  exists s, d', []. cbn [app]. rewrite enter_block, E. split; [by lex_norm|].
  destruct closed; [right; by rewrite Hs|left; by apply Hr].
Qed.

Lemma tag_nonempty tag : is_tag tag -> tag <> [].
Proof. by intros (? & -> & _). Qed.

Lemma opaque_pass b src rest : opaque b src rest -> forall d k o, passed src rest d k o b.
Proof.
  intros H d k o. destruct H as [q body rest Hq Hb Hr|q body tl Hq Hb Htl|line nl rest Hl Hn|
    line Hl|body rest Hb|body Hb|tag body rest Hi Ht Ha|tag body Hi Ht Ha].
  - by apply closed_quote_passed.
  - by apply open_quote_passed.
  - by apply line_passed.
  - exists LineComment, d, []. split; [|by left]. cbn [app].
    rewrite enter_line, line_pass, !lexer_end by done. f_equal. by lex_norm.
  - by apply (block_passed true).
  - by apply (block_passed false).
  - exists Normal, d, []. split; [|by right]. rewrite <- !app_assoc, enter_dollar by done.
    rewrite dollar_pass, leave_dollar by (done || by apply tag_nonempty).
    rewrite !rev_app_distr. by rewrite <- !app_assoc.
  - exists Normal, d, tag. split; [|by left]. rewrite <- !app_assoc, enter_dollar by done.
    rewrite dollar_pass by (rewrite ?app_nil_r; done || by apply tag_nonempty).
    rewrite !rev_app_distr. by rewrite <- !app_assoc.
Qed.

(** *** The loop renders any reading of the text *)

Lemma code_char_pass b c rest d k o : code_char b c rest ->
  lexer (c :: rest, at_state Normal d k [] o b) =
  lexer (rest, at_state Normal d k [] (o ++ [c]) (c :: b)).
Proof.
  intros (H1 & H2 & H3 & H4 & H5 & H6). rewrite lexer_normal. unfold normal_step.
  repeat ztest.
  replace ((c =? ch "-") && (next_char rest =? ch "-")) with false
    by (destruct rest; [by rewrite andb_false_r|done]).
  replace ((c =? ch "/") && (next_char rest =? ch "*")) with false
    by (destruct rest; [by rewrite andb_false_r|done]).
  cbn [before at_state]. destruct (c =? ch "$") eqn:Ec; [|done]. zb. subst c.
  destruct (after_identifier b) eqn:Ea; [done|]. cbn [andb negb].
  destruct (dollar_tag (ch "$" :: rest)) as [tag|] eqn:Et; [|done].
  apply dollar_tag_sound in Et as (Ht & r & E); [|done]. by apply (H6 eq_refl tag r) in Ht.
Qed.

Lemma markers_cons t ts : markers (t :: ts) = (if is_marker t then 1 else 0) + markers ts.
Proof. unfold markers. cbn. destruct (is_marker t); rewrite ?size_cons; lia. Qed.

Lemma opaque_nonempty b src rest : opaque b src rest -> src <> [].
Proof.
  intros []; try done; match goal with H : is_tag _ |- _ => apply tag_nonempty in H end;
    by destruct tag.
Qed.

Lemma lexes_nil b ts : lexes b [] ts -> ts = [].
Proof.
  intros H. inversion H as [| | |b' src rest ts' Ho Hl Eb E]; [done|]; subst.
  apply opaque_nonempty in Ho. by destruct src.
Qed.

Lemma lexes_run b text ts : lexes b text ts -> forall d k o,
  lexer (text, at_state Normal d k [] o b) = (o ++ render k ts, k + markers ts).
Proof.
  induction 1 as [b|b rest ts _ IH|b c rest ts Hc _ IH|b src rest ts Ho Hl IH]; intros d k o;
    rewrite ?markers_cons; cbn [render is_marker].
  - rewrite lexer_end, app_nil_r. change (markers []) with 0. by rewrite Z.add_0_r.
  - rewrite lexer_normal.
    change (normal_step _ _ _) with
      (rest, at_state Normal d (k + 1) [] (o ++ ch "$" :: to_string (k + 1)) (ch "?" :: b)).
    rewrite IH. f_equal; [by rewrite <- app_assoc|lia].
  - rewrite code_char_pass, IH by done. by rewrite <- app_assoc.
  - destruct (opaque_pass _ _ _ Ho d k o) as (s & d' & tag & E & [->|[-> ->]]); rewrite E.
    + apply lexes_nil in Hl as ->.
      rewrite lexer_end, app_nil_r. f_equal. change (markers []) with 0. lia.
    + rewrite IH. by rewrite <- app_assoc.
Qed.

(** *** Every text has a reading *)

Lemma quoted_split q esc t :
  (exists body rest, t = body ++ q :: rest /\ quoted_body q esc body /\ head rest <> Some q) \/
  (exists body tl, t = body ++ tl /\ quoted_body q esc body /\
     (tl = [] \/ (tl = [ch "\"] /\ esc = true))).
Proof.
  induction t as [t IH] using (induction_ltof1 _ (@length Z)). unfold ltof in IH.
  assert (forall pre t', t = pre ++ t' -> pre <> [] ->
    (forall body, quoted_body q esc body -> quoted_body q esc (pre ++ body)) ->
    (exists body rest, t = body ++ q :: rest /\ quoted_body q esc body /\ head rest <> Some q) \/
    (exists body tl, t = body ++ tl /\ quoted_body q esc body /\
       (tl = [] \/ (tl = [ch "\"] /\ esc = true)))) as Hstep.
  { intros pre t' -> Hp Hb. destruct (IH t') as [(body & rest & -> & Hq & Hr)|(body & tl & -> & Hq & Htl)].
    - rewrite length_app. destruct pre; [done|cbn; lia].
    - left. exists (pre ++ body), rest. rewrite <- app_assoc. auto.
    - right. exists (pre ++ body), tl. rewrite <- app_assoc. auto. }
  destruct t as [|c t]; [right; exists [], []; split; [done|split; [constructor|by left]]|].
  destruct (Z.eq_dec c q) as [->|Hc].
  - destruct t as [|x t]; [left; exists [], []; split; [done|split; [constructor|done]]|].
    destruct (Z.eq_dec x q) as [->|Hx].
    + apply (Hstep [q; q] t); [done|done|]. by apply qb_double.
    + left. exists [], (x :: t). split; [done|split; [constructor|by intros [= ->]]].
  - destruct esc; [destruct (Z.eq_dec c (ch "\")) as [->|Hb]|].
    + destruct t as [|x t]; [right; exists [], [ch "\"]; split; [done|split; [constructor|by right]]|].
      apply (Hstep [ch "\"; x] t); [done|done|]. intros body. by apply qb_escape.
    + apply (Hstep [c] t); [done|done|]. intros body. by apply qb_char.
    + apply (Hstep [c] t); [done|done|]. intros body. by apply qb_char.
Qed.

Lemma line_split t :
  (exists line nl rest, t = line ++ nl :: rest /\ one_line line /\ newline nl = true) \/ one_line t.
Proof.
  destruct (span (fun c => negb (newline c)) t) as [line rest] eqn:E.
  pose proof (span_app _ _ _ _ E) as ->.
  assert (one_line line).
  { apply span_forall in E. eapply Forall_impl; [|exact E]. intros c. apply negb_true_iff. }
  destruct rest as [|nl rest]; [right; by rewrite app_nil_r|left].
  exists line, nl, rest. split; [done|split; [done|]].
  apply (span_stop _ _ _ _ nl) in E; [|done]. by apply negb_false_iff.
Qed.

Lemma block_body_closed_nonempty d s : block_body true d s -> s <> [].
Proof. by intros H; inversion H. Qed.

Lemma block_split t : forall d,
  (exists body rest, t = body ++ rest /\ block_body true (S d) body) \/ block_body false (S d) t.
Proof.
  induction t as [t IH] using (induction_ltof1 _ (@length Z)). unfold ltof in IH. intros d.
  destruct (opens2 (ch "/") (ch "*") t) eqn:E1; [|destruct (opens2 (ch "*") (ch "/") t) eqn:E2].
  - destruct t as [|x [|y t]]; try done. cbn in E1. zb. subst.
    destruct (IH t ltac:(cbn; lia) (S d)) as [(body & rest & -> & H)|H]; [left|right; by constructor].
    exists (ch "/" :: ch "*" :: body), rest. split; [done|]. by constructor.
  - destruct t as [|x [|y t]]; try done. cbn in E2. zb. subst. destruct d as [|d].
    + left. exists [ch "*"; ch "/"], t. split; [done|]. by constructor.
    + destruct (IH t ltac:(cbn; lia) d) as [(body & rest & -> & H)|H]; [left|right; by constructor].
      exists (ch "*" :: ch "/" :: body), rest. split; [done|]. by constructor.
  - destruct t as [|c t]; [right; by constructor|].
    destruct (IH t ltac:(cbn; lia) d) as [(body & rest & -> & H)|H]; [left|right; by constructor].
    pose proof (block_body_closed_nonempty _ _ H).
    exists (c :: body), rest. split; [done|]. destruct body as [|x body]; [done|]. by constructor.
Qed.

Lemma starts_with_app tag t : starts_with t tag = true <-> exists rest, t = tag ++ rest.
Proof.
  unfold starts_with, beq. rewrite bool_decide_eq_true. split.
  - intros E. exists (drop (length tag) t). rewrite <- E at 1. by rewrite take_drop.
  - intros [rest ->]. apply take_app_length.
Qed.

Lemma dollar_split tag t :
  (exists body rest, t = body ++ tag ++ rest /\ absent_below (length body) tag t) \/
  absent_below (length t) tag t.
Proof.
  induction t as [|c t IH]; [right; intros k Hk; cbn in Hk; lia|].
  destruct (starts_with (c :: t) tag) eqn:E.
  - apply starts_with_app in E as [rest E]. left. exists [], rest. split; [done|].
    intros k Hk. cbn in Hk. lia.
  - assert (forall n, absent_below n tag t -> absent_below (S n) tag (c :: t)) as Hs.
    { intros n Hn [|k] Hk; [done|]. apply Hn. lia. }
    destruct IH as [(body & rest & -> & H)|H]; [left|right; by apply Hs].
    exists (c :: body), rest. split; [done|]. by apply Hs.
Qed.

(** The first region or character of a text. *)
Lemma lexes_first b c t :
  c = ch "?" \/ code_char b c t \/
  exists src rest, c :: t = src ++ rest /\ opaque b src rest.
Proof.
  destruct (Z.eq_dec c (ch "?")) as [|H1]; [by left|right].
  destruct (decide (c = ch "'" \/ c = DQ)) as [Hq|Hq].
  { right. destruct (quoted_split c (negb (c =? DQ) && escape_string b) t)
      as [(body & rest & -> & Hb & Hr)|(body & tl & -> & Hb & Htl)].
    - exists (c :: body ++ [c]), rest. split; [cbn; by rewrite <- app_assoc|]. by apply op_quoted.
    - exists (c :: body ++ tl), []. split; [by rewrite app_nil_r|]. by apply op_quoted_open. }
  destruct (opens2 (ch "-") (ch "-") (c :: t)) eqn:E1.
  { right. destruct t as [|x t]; [done|]. cbn in E1. zb. subst.
    destruct (line_split t) as [(line & nl & rest & -> & Hl & Hn)|Hl].
    - exists (ch "-" :: ch "-" :: line ++ [nl]), rest.
      split; [cbn; by rewrite <- app_assoc|]. by apply op_line.
    - exists (ch "-" :: ch "-" :: t), []. split; [by rewrite app_nil_r|]. by apply op_line_open. }
  destruct (opens2 (ch "/") (ch "*") (c :: t)) eqn:E2.
  { right. destruct t as [|x t]; [done|]. cbn in E2. zb. subst.
    destruct (block_split t 0) as [(body & rest & -> & Hb)|Hb].
    - exists (ch "/" :: ch "*" :: body), rest. split; [done|]. by apply op_block.
    - exists (ch "/" :: ch "*" :: t), []. split; [by rewrite app_nil_r|]. by apply op_block_open. }
  destruct (decide (after_identifier b = false /\ c = ch "$" /\ is_Some (dollar_tag (c :: t))))
    as [(Ha & -> & tag & Et)|Hn].
  { right. apply dollar_tag_sound in Et as (Ht & r & ->); [|done].
    destruct (dollar_split tag r) as [(body & rest & -> & Hd)|Hd].
    - exists (tag ++ body ++ tag), rest. split; [by rewrite <- !app_assoc|]. by apply op_dollar.
    - exists (tag ++ r), []. split; [by rewrite app_nil_r|]. by apply op_dollar_open. }
  left. repeat split; try done; try naive_solver.
  intros Ha tag r Ht E. apply Hn. split; [done|]. rewrite E, dollar_tag_complete by done.
  split; [|done]. destruct Ht as (name & -> & _). by injection E.
Qed.

Lemma lexes_total b text : exists ts, lexes b text ts.
Proof.
  revert b. induction text as [text IH] using (induction_ltof1 _ (@length Z)). unfold ltof in IH.
  intros b. destruct text as [|c t]; [exists []; constructor|].
  destruct (lexes_first b c t) as [->|[Hc|(src & rest & E & Ho)]].
  - destruct (IH t ltac:(cbn; lia) (ch "?" :: b)) as [ts H]. exists (Marker :: ts). by constructor.
  - destruct (IH t ltac:(cbn; lia) (c :: b)) as [ts H]. exists (Code c :: ts). by constructor.
  - pose proof (opaque_nonempty _ _ _ Ho) as Hne. rewrite E in IH |- *.
    destruct (IH rest) with (b := rev src ++ b) as [ts H].
    { rewrite length_app. destruct src; [done|]. cbn. lia. }
    exists (Opaque src :: ts). by constructor.
Qed.

Lemma replace_parameter_markers_lexes sql ts :
  lexes [] sql ts -> replace_parameter_markers sql = (render 0 ts, markers ts).
Proof. intros H. apply (lexes_run _ _ _ H 0 0 []). Qed.


Lemma render_no_markers k ts b text :
  lexes b text ts -> ~ In (ch "?") text -> render k ts = text /\ markers ts = 0.
Proof.
  induction 1 as [b|b rest ts _ IH|b c rest ts Hc _ IH|b src rest ts Ho Hl IH]; intros Hn.
  - done.
  - destruct Hn. by left.
  - rewrite markers_cons. cbn. destruct IH as [-> ->]; [|done]. intros ?. apply Hn. by right.
  - rewrite markers_cons. cbn. destruct IH as [-> ->]; [|done].
    intros ?. apply Hn. apply in_or_app. by right.
Qed.

(** SQL without a question mark is sent as it is. *)
Lemma replace_parameter_markers_id sql :
  ~ In (ch "?") sql -> replace_parameter_markers sql = (sql, 0).
Proof.
  intros Hn. destruct (lexes_total [] sql) as [ts H].
  rewrite (replace_parameter_markers_lexes _ _ H).
  by destruct (render_no_markers 0 ts [] sql H Hn) as [-> ->].
Qed.

Lemma markers_nonneg ts : 0 <= markers ts. Proof. unfold markers. auto. Qed.

Lemma marker_count_nonneg sql : 0 <= (replace_parameter_markers sql).2.
Proof.
  destruct (lexes_total [] sql) as [ts H]. rewrite (replace_parameter_markers_lexes _ _ H).
  apply markers_nonneg.
Qed.

Lemma render_no_nul k ts : 0 <= k ->
  forall b text, lexes b text ts -> Forall (fun c => c <> 0) text ->
  Forall (fun c => c <> 0) (render k ts).
Proof.
  revert k. induction ts as [|[|c|src] ts IH]; intros k Hk b text H Hn; cbn [render]; [constructor|..].
  - inversion H; subst. inv_forall. apply Forall_app. split; [|by eapply IH; [lia|..]].
    constructor; [done|]. destruct (to_string_spec (k + 1)) as [Hd _]; [lia|].
    eapply Forall_impl; [|exact Hd]. intros c Hc%isdigit_spec. lia.
  - inversion H; subst. inv_forall. constructor; [done|]. by eapply IH.
  - inversion H; subst. inv_forall. apply Forall_app. split; [done|]. by eapply IH.
Qed.

(** The rewritten text has no NUL when the original has none. *)
Lemma replace_parameter_markers_no_nul sql :
  Forall (fun c => c <> 0) sql -> Forall (fun c => c <> 0) (replace_parameter_markers sql).1.
Proof.
  intros Hn. destruct (lexes_total [] sql) as [ts H].
  rewrite (replace_parameter_markers_lexes _ _ H). by eapply render_no_nul.
Qed.
