(* ===== verification/PgIeee.v ===== *)
(** * Native IEEE parameters

    The bridge of [src/core/database/postgres/pg_protocol_parser.cpp] that sends
    a Redshift floating-point parameter as its IEEE bits: the literal test
    [native_ieee_decimal], the library conversion [strtof_l] / [strtod_l], and
    [encode_native_ieee].

    The conversion runs in the "C" locale with rounding to nearest, so the
    library's result on a decimal literal is the nearest float, ties to even;
    [strto] computes it on the integers.  [FloatEnv] says what the operating
    system answered to [NativeIeeeContext]: whether the caller's floating
    environment was captured, whether a locale was allocated, and whether the
    environment could be restored. *)

From S2P Require Import Prelude Digits PgWire.

Inductive PgCatalogProfile := PostgreSQL | Redshift.

#[export] Instance profile_eq_dec : EqDecision PgCatalogProfile.
Proof. solve_decision. Defined.

Inductive QueryParameterType :=
| Unspecified | Text | Int16 | Int32 | Int64 | Float32 | Float64 | Numeric
| Boolean | Binary | Date | Time | Timestamp.

#[export] Instance parameter_type_eq_dec : EqDecision QueryParameterType.
Proof. solve_decision. Defined.

Record QueryParameter := {
  value : option bytes;
  type : QueryParameterType;
  binary_input : bool;
}.

(** ** The literal *)

Definition skip (p : Z -> bool) (s : bytes) : bytes :=
  match s with c :: t => if p c then t else s | [] => s end.

(** The whole and fractional digits and what follows them. *)
Definition ieee_coefficient (t : bytes) : bytes * bytes * bytes :=
  let '(whole, t) := span isdigit t in
  match t with
  | c :: t' =>
      if c =? ch "." then let '(fraction, t'') := span isdigit t' in (whole, fraction, t'')
      else (whole, [], t)
  | [] => (whole, [], t)
  end.

Definition is_sign (c : Z) : bool := (c =? ch "+") || (c =? ch "-").
Definition is_exponent_mark (c : Z) : bool := (c =? ch "e") || (c =? ch "E").

(** Whether the text is a literal, and [nonzero_coefficient]. *)
Definition native_ieee_decimal (text : bytes) : bool * bool :=
  let '(whole, fraction, t) := ieee_coefficient (skip (Z.eqb (ch "-")) text) in
  let nonzero := existsb (fun c => negb (c =? ch "0")) (whole ++ fraction) in
  match whole ++ fraction with
  | [] => (false, nonzero)
  | _ =>
      match t with
      | c :: t' =>
          if is_exponent_mark c then
            match span isdigit (skip is_sign t') with
            | ([], _) => (false, nonzero)
            | (_, rest) => (beq rest [], nonzero)
            end
          else (false, nonzero)
      | [] => (true, nonzero)
      end
  end.

(** ** The library conversion *)

(** A binary format: fraction bits and least exponent of a normal number. *)
Record format := { fraction_bits : Z; emin : Z; width : Z }.
Definition binary32 : format := {| fraction_bits := 23; emin := -126; width := 4 |}.
Definition binary64 : format := {| fraction_bits := 52; emin := -1022; width := 8 |}.

Definition round_half_even (n d : Z) : Z :=
  let q := n / d in
  let r := n mod d in
  if 2 * r <? d then q else if d <? 2 * r then q + 1 else if Z.even q then q else q + 1.

(** The ratio [n / d] divided by [2 ^ e]. *)
Definition scale2 (n d e : Z) : Z * Z :=
  if 0 <=? e then (n, d * 2 ^ e) else (n * 2 ^ (- e), d).

(** The exponent of the binade of [n / d], for positive [n] and [d]. *)
Definition binade (n d : Z) : Z :=
  let e := Z.log2 n - Z.log2 d in
  let '(n', d') := scale2 n d e in
  if d' <=? n' then e else e - 1.

(** The bits of the magnitude nearest to [n / d]; a carry out of the
    significand moves to the next binade by itself. *)
Definition nearest_bits (f : format) (n d : Z) : Z :=
  if n =? 0 then 0
  else
    let e := Z.max (binade n d) (emin f) in
    let '(n', d') := scale2 n d (e - fraction_bits f) in
    (e - emin f) * 2 ^ fraction_bits f + round_half_even n' d'.

(** The first magnitude that is not finite. *)
Definition infinity_bits (f : format) : Z :=
  (2 ^ (8 * width f - 1 - fraction_bits f) - 1) * 2 ^ fraction_bits f.

Definition sign_bit (f : format) : Z := 2 ^ (8 * width f - 1).

(** [strtof_l] or [strtod_l] on a whole decimal literal: the sign and the bits
    of the magnitude, infinity on overflow. *)
Definition strto (f : format) (text : bytes) : bool * Z :=
  let neg := match text with c :: _ => c =? ch "-" | [] => false end in
  let '(whole, fraction, t) := ieee_coefficient (skip (Z.eqb (ch "-")) text) in
  let exponent :=
    match t with
    | _ :: t' =>
        let x := digits_value (span isdigit (skip is_sign t')).1 in
        if beq (take 1 t') [ch "-"] then - x else x
    | [] => 0
    end in
  let k := exponent - size fraction in
  let c := digits_value (whole ++ fraction) in
  (neg, Z.min (infinity_bits f)
          (if 0 <=? k then nearest_bits f (c * 10 ^ k) 1 else nearest_bits f c (10 ^ (- k)))).

(** ** The encoder *)

Record FloatEnv := { captured : bool; locale : bool; restored : bool }.

(** [NativeIeeeContext::ready]: a locale is allocated only after the capture. *)
Definition ready (env : FloatEnv) : bool := captured env && locale env.

(** The most significant byte first. *)
Definition ieee_bytes (n : nat) (bits : Z) : bytes :=
  map (fun i => Z.land (Z.shiftr bits (8 * (Z.of_nat n - 1 - Z.of_nat i))) 0xff) (seq 0 n).

Definition encode_native_ieee (f : format) (text : bytes) (env : FloatEnv) : option bytes :=
  let '(decimal, nonzero_coefficient) := native_ieee_decimal text in
  if negb decimal then None
  else if ready env then
    let '(neg, magnitude) := strto f text in
    if (magnitude <? infinity_bits f) && (negb (magnitude =? 0) || negb nonzero_coefficient)
    then Some (ieee_bytes (Z.to_nat (width f))
                 (if (neg : bool) then sign_bit f + magnitude else magnitude))
    else None
  else None.

Definition native_ieee_parameter (parameter : QueryParameter) (profile : PgCatalogProfile)
    (context : option FloatEnv) : option bytes :=
  match context, value parameter with
  | Some env, Some v =>
      if negb (ready env) || negb (bool_decide (profile = Redshift)) || binary_input parameter
         || beq v [] || (INT32_MAX <? size v) then None
      else
        match type parameter with
        | Float32 => encode_native_ieee binary32 v env
        | Float64 => encode_native_ieee binary64 v env
        | _ => None
        end
  | _, _ => None
  end.

Example ieee_examples :
  let env := {| captured := true; locale := true; restored := true |} in
  encode_native_ieee binary32 (str "1") env = Some [0x3f; 0x80; 0; 0] /\
  encode_native_ieee binary32 (str "-0.0") env = Some [0x80; 0; 0; 0] /\
  encode_native_ieee binary32 (str "1e-45") env = Some [0; 0; 0; 1] /\
  encode_native_ieee binary32 (str "1e-46") env = None /\
  encode_native_ieee binary32 (str "3.4028235e38") env = Some [0x7f; 0x7f; 0xff; 0xff] /\
  encode_native_ieee binary32 (str "3.4028236e38") env = None /\
  encode_native_ieee binary64 (str ".1") env = Some [0x3f; 0xb9; 0x99; 0x99; 0x99; 0x99; 0x99; 0x9a] /\
  encode_native_ieee binary64 (str "5e-324") env = Some [0; 0; 0; 0; 0; 0; 0; 1] /\
  encode_native_ieee binary64 (str "NaN") env = None /\
  encode_native_ieee binary64 (str "1e") env = None.
Proof. vm_compute. repeat split. Qed.
