(* ===== verification/PgRequest.v ===== *)
(** * PostgreSQL requests

    The request encoders of [src/core/database/postgres/pg_protocol_parser.cpp]:
    [create_startup_message], [create_ssl_request], [create_simple_query],
    [create_prepared_query] and [create_statement_description].  Each counts its
    exact wire size against [max_wire_bytes] before it writes anything; the
    theorems show that what is written is the protocol's exchange and that the
    count is its size, so the limit refuses exactly the requests that exceed it.

    [max_size] is [std::string::max_size()].  A [std::map] is the list of its
    entries in key order. *)

From S2P Require Import Prelude Digits Hex PgWire PgMarkers PgIeee.

Section Request.
Context (max_size : Z) (profile : PgCatalogProfile).

Definition redshift : bool := bool_decide (profile = Redshift).

Definition postgres_type_oid (t : QueryParameterType) : Z :=
  match t with
  | Unspecified => 0
  | Boolean => 16
  | Binary => if redshift then 6551 else 17
  | Int64 => 20
  | Int16 => 21
  | Int32 => 23
  | Text => 25
  | Float32 => 700
  | Float64 => 701
  | Numeric => 1700
  | Date => 1082
  | Time => 1083
  | Timestamp => 1114
  end.

(** ** Startup *)

(** The lambda [add] of [create_startup_message]. *)
Definition startup_add (max_wire_bytes bytes size : Z) : res Z :=
  if (max_wire_bytes <? bytes) || (max_wire_bytes - bytes <? size)
  then Throw RequestWireLimitExceeded else Ok (bytes + size).

Definition startup_add_param (max_wire_bytes bytes : Z) (param : list Z * list Z) : res Z :=
  bytes ← startup_add max_wire_bytes bytes (size param.1);
  bytes ← startup_add max_wire_bytes bytes 1;
  bytes ← startup_add max_wire_bytes bytes (size param.2);
  startup_add max_wire_bytes bytes 1.

Definition key_extra_float_digits : bytes := str "extra_float_digits".

Definition wants_float_digits (params : list (bytes * bytes)) : bool :=
  redshift && negb (existsb (fun p => beq p.1 key_extra_float_digits) params).

(** The counted size of the message. *)
Definition startup_bytes (user database : bytes) (params : list (bytes * bytes))
    (max_wire_bytes : Z) : res Z :=
  let bytes := 9 in
  bytes ← match user with
          | [] => Ok bytes
          | _ => bytes ← startup_add max_wire_bytes bytes 6;
                 startup_add max_wire_bytes bytes (size user)
          end;
  bytes ← startup_add max_wire_bytes bytes 10;
  bytes ← startup_add max_wire_bytes bytes (size database);
  bytes ← for_each (startup_add_param max_wire_bytes) bytes params;
  bytes ← (if wants_float_digits params
           then startup_add max_wire_bytes bytes (size key_extra_float_digits + 1 + 2)
           else Ok bytes);
  if UINT32_MAX <? bytes then Throw RequestWireLimitExceeded else Ok bytes.

Definition startup_fields (user database : bytes) (params : list (bytes * bytes))
    : list (bytes * bytes) :=
  match user with [] => [] | _ => [(str "user", user)] end ++
  (str "database", database) :: params ++
  (if wants_float_digits params then [(key_extra_float_digits, str "2")] else []).

Definition reject_field_nul (field : bytes * bytes) : bool :=
  match find_char 0 field.1, find_char 0 field.2 with
  | None, None => false
  | _, _ => true
  end.

(** [memcpy] at an offset of the buffer. *)
Definition write_at (buf : bytes) (off : nat) (text : bytes) : bytes :=
  list_inserts off text buf.

Definition write_field (st : bytes * nat) (field : bytes * bytes) : bytes * nat :=
  let '(buf, off) := st in
  let buf := write_at buf off field.1 in
  let off := (off + length field.1)%nat in
  let buf := <[off := 0]> buf in
  let off := S off in
  let buf := write_at buf off field.2 in
  let off := (off + length field.2)%nat in
  (<[off := 0]> buf, S off).

(** The four bytes of an integer at an offset of the buffer. *)
Definition put_u32 (buf : bytes) (off : nat) (v : Z) : bytes :=
  <[(off + 3)%nat := Z.land v 0xff]>
  (<[(off + 2)%nat := Z.land (Z.shiftr v 8) 0xff]>
  (<[(off + 1)%nat := Z.land (Z.shiftr v 16) 0xff]>
  (<[off := Z.land (Z.shiftr v 24) 0xff]> buf))).

Definition create_startup_message (user database : bytes) (params : list (bytes * bytes))
    (max_wire_bytes : Z) : res bytes :=
  bytes ← startup_bytes user database params max_wire_bytes;
  let kv := startup_fields user database params in
  if existsb reject_field_nul kv then
    Throw (invalid_argument "PostgreSQL startup field contains an embedded NUL byte")
  else
    let buf := replicate (Z.to_nat bytes) 0 in
    let buf := put_u32 buf 0 bytes in
    let buf := put_u32 buf 4 196608 in
    let '(buf, off) := foldl write_field (buf, 8%nat) kv in
    Ok (<[off := 0]> buf).

Definition create_ssl_request : bytes :=
  let buf := [0; 0; 0; 8] ++ replicate 4 0 in
  put_u32 buf 4 80877103.

(** ** Simple query *)

Definition create_simple_query (sql : bytes) (max_wire_bytes : Z) : res bytes :=
  if (max_wire_bytes <? 6) || (Z.min (max_wire_bytes - 6) (UINT32_MAX - 5) <? size sql)
  then Throw RequestWireLimitExceeded
  else
    _ ← reject_sql_nul sql;
    let buf := replicate (1 + 4 + length sql + 1) 0 in
    let buf := <[0%nat := ch "Q"]> buf in
    let buf := put_u32 buf 1 (4 + size sql + 1) in
    let buf := write_at buf 5 sql in
    Ok (<[(5 + length sql)%nat := 0]> buf).

(** ** Prepared query *)

Definition raw_binary (p : QueryParameter) : bool :=
  redshift && bool_decide (type p = Binary).

(** A value that is sent as hexadecimal [bytea] text. *)
Definition hex_value (p : QueryParameter) : bool :=
  negb (raw_binary p) && (bool_decide (type p = Binary) || binary_input p).

Definition add (max_wire_bytes wire_bytes bytes : Z) : res Z :=
  if max_wire_bytes - wire_bytes <? bytes then Throw RequestWireLimitExceeded
  else Ok (wire_bytes + bytes).

(** The bound on a value's size. *)
Definition value_maximum (p : QueryParameter) : Z :=
  if hex_value p then (INT32_MAX - 2) / 2 else INT32_MAX.

Definition count_value (context : option FloatEnv) (max_wire_bytes wire_bytes : Z)
    (p : QueryParameter) : res Z :=
  match value p with
  | None => Ok wire_bytes
  | Some v =>
      match native_ieee_parameter p profile context with
      | Some native => add max_wire_bytes wire_bytes (size native)
      | None =>
          if value_maximum p <? size v
          then Throw (length_error "PostgreSQL parameter value is too large")
          else add max_wire_bytes wire_bytes (if hex_value p then 2 + 2 * size v else size v)
      end
  end.

Definition write_value (context : option FloatEnv) (out : bytes) (p : QueryParameter) : res bytes :=
  match value p with
  | None => Ok (append_u32 out UINT32_MAX)
  | Some v =>
      match native_ieee_parameter p profile context with
      | Some native => Ok (append_u32 out (size native) ++ native)
      | None =>
          if value_maximum p <? size v
          then Throw (length_error "PostgreSQL parameter value is too large")
          else
            text ← (if hex_value p then h ← encode_hex max_size v; Ok (str "\x" ++ h) else Ok v);
            Ok (append_u32 out (size text) ++ text)
      end
  end.

(** The lambda that decides on per-parameter formats, and the code it writes. *)
Definition binary_format (context : option FloatEnv) (p : QueryParameter) : bool :=
  raw_binary p || match native_ieee_parameter p profile context with Some _ => true | None => false end.

Definition describe_message (kind : Z) (out : bytes) : res bytes :=
  let '(out, start) := begin_message out (ch "D") in
  finish_message (append_cstring (out ++ [kind]) []) start.

Definition parse_message_request (rewritten_sql : bytes) (types : list QueryParameterType)
    (out : bytes) : res bytes :=
  let '(out, start) := begin_message out (ch "P") in
  let out := append_cstring out [] in
  let out := append_cstring out rewritten_sql in
  let out := append_u16 out (size types) in
  let out := foldl (fun out t => append_u32 out (postgres_type_oid t)) out types in
  finish_message out start.

Definition bind_message (context : option FloatEnv) (explicit_formats : bool)
    (params : list QueryParameter) (out : bytes) : res bytes :=
  let '(out, start) := begin_message out (ch "B") in
  let out := append_cstring out [] in
  let out := append_cstring out [] in
  let out := append_u16 out (if explicit_formats then size params else 0) in
  let out := if explicit_formats
             then foldl (fun out p => append_u16 out (if binary_format context p then 1 else 0)) out params
             else out in
  let out := append_u16 out (size params) in
  out ← for_each (write_value context) out params;
  let out := append_u16 out 0 in
  finish_message out start.

Definition execute_message (out : bytes) : res bytes :=
  let '(out, start) := begin_message out (ch "E") in
  finish_message (append_u32 (append_cstring out []) 0) start.

Definition sync_message (out : bytes) : res bytes :=
  let '(out, start) := begin_message out (ch "S") in
  finish_message out start.

(** The [try] block: the counting pass, then the writing pass. *)
Definition prepared_exchange (context : option FloatEnv) (rewritten_sql : bytes)
    (params : list QueryParameter) (max_wire_bytes : Z) : res bytes :=
  let explicit_formats := existsb (binary_format context) params in
  let wire_bytes := 0 in
  wire_bytes ← add max_wire_bytes wire_bytes 51;
  wire_bytes ← add max_wire_bytes wire_bytes (size rewritten_sql);
  wire_bytes ← add max_wire_bytes wire_bytes (8 * size params);
  wire_bytes ← (if explicit_formats then add max_wire_bytes wire_bytes (2 * size params)
                else Ok wire_bytes);
  _ ← for_each (count_value context max_wire_bytes) wire_bytes params;
  out ← parse_message_request rewritten_sql (map type params) [];
  out ← describe_message (ch "S") out;
  out ← bind_message context explicit_formats params out;
  out ← describe_message (ch "P") out;
  out ← execute_message out;
  sync_message out.

(** [context->finish()], on the way out of the [try] block either way. *)
Definition finish_context (context : option FloatEnv) (r : res bytes) : res bytes :=
  match context with
  | Some env =>
      if captured env && negb (restored env)
      then Throw (runtime_error "Native IEEE conversion could not restore caller floating environment")
      else r
  | None => r
  end.

Definition floating_parameter (p : QueryParameter) : bool :=
  negb (binary_input p) && bool_decide (is_Some (value p)) &&
  (bool_decide (type p = Float32) || bool_decide (type p = Float64)).

Definition create_prepared_query (env : FloatEnv) (sql : bytes) (params : list QueryParameter)
    (max_wire_bytes : Z) : res bytes :=
  _ ← reject_sql_nul sql;
  if 65535 <? size params then Throw (length_error "too many PostgreSQL query parameters")
  else
    let '(rewritten_sql, marker_count) := replace_parameter_markers sql in
    if negb (marker_count =? 0) && negb (marker_count =? size params) then
      Throw (invalid_argument "parameter marker count does not match bound parameter count")
    else
      let context := if redshift && existsb floating_parameter params then Some env else None in
      finish_context context (prepared_exchange context rewritten_sql params max_wire_bytes).

(** ** Statement description *)

Definition create_statement_description (sql : bytes) (parameter_types : list QueryParameterType)
    (max_wire_bytes : Z) : res bytes :=
  _ ← reject_sql_nul sql;
  if 65535 <? size parameter_types then Throw (length_error "too many PostgreSQL query parameters")
  else
    let '(rewritten_sql, marker_count) := replace_parameter_markers sql in
    if negb (marker_count =? size parameter_types) then
      Throw (invalid_argument "parameter marker count does not match described parameter count")
    else
      let overhead := 21 + 4 * size parameter_types in
      if (max_wire_bytes <? overhead) || (max_wire_bytes - overhead <? size rewritten_sql) then
        Throw RequestWireLimitExceeded
      else
        out ← parse_message_request rewritten_sql parameter_types [];
        out ← describe_message (ch "S") out;
        sync_message out.

(** ** The wire layout of the requests *)

Definition field_bytes (field : bytes * bytes) : bytes := cstring field.1 ++ cstring field.2.

Definition startup_body (kv : list (bytes * bytes)) : bytes := concat (map field_bytes kv) ++ [0].

Definition startup_wire (kv : list (bytes * bytes)) : bytes :=
  be32 (8 + size (startup_body kv)) ++ be32 196608 ++ startup_body kv.

(** The bytes the server receives for a parameter; [None] is NULL. *)
Definition wire_value (context : option FloatEnv) (p : QueryParameter) : option bytes :=
  match value p with
  | None => None
  | Some v =>
      Some match native_ieee_parameter p profile context with
           | Some native => native
           | None => if hex_value p then str "\x" ++ encode_pairs v else v
           end
  end.

Definition formats (context : option FloatEnv) (params : list QueryParameter) : list Z :=
  if existsb (binary_format context) params
  then map (fun p => if binary_format context p then 1 else 0) params else [].

Definition parse_payload (sql : bytes) (types : list QueryParameterType) : bytes :=
  cstring [] ++ cstring sql ++ be16 (size types) ++ concat (map (fun t => be32 (postgres_type_oid t)) types).

Definition bind_payload (context : option FloatEnv) (params : list QueryParameter) : bytes :=
  cstring [] ++ cstring [] ++
  be16 (size (formats context params)) ++ concat (map be16 (formats context params)) ++
  be16 (size params) ++ concat (map encode_cell (map (wire_value context) params)) ++ be16 0.

Definition describe_statement : bytes := frame (ch "D") [ch "S"; 0].
Definition describe_portal : bytes := frame (ch "D") [ch "P"; 0].

(** Parse, Describe statement, Bind, Describe portal, Execute, Sync. *)
Definition prepared_wire (context : option FloatEnv) (sql : bytes) (params : list QueryParameter)
    : bytes :=
  frame (ch "P") (parse_payload sql (map type params)) ++ describe_statement ++
  frame (ch "B") (bind_payload context params) ++ describe_portal ++
  frame (ch "E") (cstring [] ++ be32 0) ++ frame (ch "S") [].

Definition description_wire (sql : bytes) (types : list QueryParameterType) : bytes :=
  frame (ch "P") (parse_payload sql types) ++ describe_statement ++ frame (ch "S") [].

(** Every value that is not sent as IEEE bits is within its bound. *)
Definition values_fit (context : option FloatEnv) (params : list QueryParameter) : Prop :=
  Forall (fun p => match value p with
                   | Some v => native_ieee_parameter p profile context = None ->
                               size v <= value_maximum p
                   | None => True
                   end) params.

(** ** Counting *)

Definition limit (m total : Z) : res Z :=
  if m <? total then Throw RequestWireLimitExceeded else Ok total.

Lemma add_limit m w s : add m w s = limit m (w + s).
Proof. unfold add, limit. by destruct (m - w <? s) eqn:E; zb; ztest. Qed.

Lemma startup_add_limit m b s : 0 <= s -> startup_add m b s = limit m (b + s).
Proof.
  intros. unfold startup_add, limit.
  destruct (m <? b + s) eqn:E; zb; destruct (m <? b) eqn:E1; zb; try lia; try done; by ztest.
Qed.

(** Counting further after a bound only compares the larger total with it. *)
Lemma limit_bind m a b (f : Z -> res Z) :
  a <= b -> (a <= m -> f a = limit m b) -> limit m a ≫= f = limit m b.
Proof.
  intros Hab Hf. unfold limit at 1. destruct (m <? a) eqn:E; zb; mcbn.
  - unfold limit. by ztest.
  - by apply Hf.
Qed.

Definition total {A} (f : A -> Z) (l : list A) : Z := foldr Z.add 0 (map f l).

Lemma total_nonneg {A} (f : A -> Z) l : (forall x, 0 <= f x) -> 0 <= total f l.
Proof. intros H. induction l as [|x l IH]; [done|]. cbn. specialize (H x). unfold total in IH. lia. Qed.

Lemma for_each_limit {A} (f : Z -> A -> res Z) (g : A -> Z) m l a :
  (forall x, 0 <= g x) -> (forall w x, x ∈ l -> w <= m -> f w x = limit m (w + g x)) -> a <= m ->
  for_each f a l = limit m (a + total g l).
Proof.
  intros Hg Hf Ha. revert a Ha Hf. induction l as [|x l IH]; intros a Ha Hf; cbn [for_each].
  - unfold limit, total. cbn. rewrite Z.add_0_r. by ztest.
  - rewrite Hf by (done || apply list_elem_of_here).
    pose proof (total_nonneg g l Hg) as Ht. pose proof (Hg x).
    change (total g (x :: l)) with (g x + total g l). apply limit_bind; [lia|].
    intros. rewrite IH; [f_equal; lia|done|]. intros w y Hy. apply Hf. by right.
Qed.

(** ** Writing *)

Lemma fill_bytes pre t n :
  write_at (pre ++ replicate (length t + n) 0) (length pre) t = pre ++ t ++ replicate n 0.
Proof.
  unfold write_at. rewrite <- (Nat.add_0_r (length pre)), list_inserts_app_r, replicate_add.
  by rewrite list_inserts_0_r by by rewrite length_replicate.
Qed.

Lemma insert_app_0 (pre post : bytes) x : <[length pre := x]> (pre ++ post) = pre ++ <[0%nat := x]> post.
Proof. by rewrite <- (Nat.add_0_r (length pre)), insert_app_r. Qed.

Lemma fill_byte pre x n :
  <[length pre := x]> (pre ++ replicate (S n) 0) = pre ++ x :: replicate n 0.
Proof. by rewrite insert_app_0. Qed.

Lemma fill_u32 pre v n : 0 <= v <= UINT32_MAX ->
  put_u32 (pre ++ replicate (4 + n) 0) (length pre) v = pre ++ be32 v ++ replicate n 0.
Proof.
  unfold UINT32_MAX. intros Hv. unfold put_u32. rewrite insert_app_0, !insert_app_r. cbn. unfold be32. bits. f_equal. cbn. repeat f_equal; dlia.
Qed.

Lemma fold_append {A} (f : bytes -> A -> bytes) (g : A -> bytes) l out :
  (forall o x, x ∈ l -> f o x = o ++ g x) -> foldl f out l = out ++ concat (map g l).
Proof.
  revert out. induction l as [|x l IH]; intros out Hf; cbn; [by rewrite app_nil_r|].
  rewrite Hf by apply list_elem_of_here. rewrite IH, app_assoc; [done|].
  intros o y Hy. apply Hf. by right.
Qed.

(** A message that was begun and filled. *)
Definition message (tag : Z) (payload out : bytes) : res bytes :=
  if UINT32_MAX <? 4 + size payload
  then Throw (length_error "PostgreSQL message is too large")
  else Ok (out ++ frame tag payload).

Lemma message_finish out tag payload body :
  body = (out ++ tag :: [0; 0; 0; 0]) ++ payload ->
  finish_message body (length out) = message tag payload out.
Proof. intros ->. rewrite <- app_assoc. apply finish_message_frame. Qed.

Lemma describe_message_frame kind out : describe_message kind out = Ok (out ++ frame (ch "D") [kind; 0]).
Proof.
  unfold describe_message. rewrite begin_message_app.
  rewrite (message_finish out (ch "D") [kind; 0]); [done|].
  rewrite append_cstring_app. by rewrite <- !app_assoc.
Qed.

Lemma execute_message_frame out : execute_message out = Ok (out ++ frame (ch "E") (cstring [] ++ be32 0)).
Proof.
  unfold execute_message. rewrite begin_message_app.
  rewrite (message_finish out (ch "E") (cstring [] ++ be32 0)); [done|].
  rewrite append_cstring_app, append_u32_be32 by done. by rewrite <- !app_assoc.
Qed.

Lemma sync_message_frame out : sync_message out = Ok (out ++ frame (ch "S") []).
Proof.
  unfold sync_message. rewrite begin_message_app.
  rewrite (message_finish out (ch "S") []); [done|]. by rewrite app_nil_r.
Qed.

Lemma oid_range t : 0 <= postgres_type_oid t <= UINT32_MAX.
Proof. destruct t; cbn; try done. by destruct redshift. Qed.

Lemma parse_request_frame sql types out : size types < 65536 ->
  parse_message_request sql types out = message (ch "P") (parse_payload sql types) out.
Proof.
  intros Hn. unfold parse_message_request. rewrite begin_message_app.
  apply message_finish. unfold parse_payload.
  rewrite (fold_append _ (fun t => be32 (postgres_type_oid t)))
    by (intros; apply append_u32_be32, oid_range).
  rewrite append_u16_be16, !append_cstring_app by auto. by rewrite <- !app_assoc.
Qed.

(** *** Parameter values *)

Lemma ieee_bytes_size n bits : size (ieee_bytes n bits) = Z.of_nat n.
Proof. unfold ieee_bytes, size. by rewrite length_map, length_seq. Qed.

Lemma encode_native_size f text env native : 0 <= width f ->
  encode_native_ieee f text env = Some native -> size native = width f.
Proof.
  intros Hw. unfold encode_native_ieee. destruct (native_ieee_decimal text) as [dec nz].
  destruct (negb dec); [done|]. destruct (ready env); [|done].
  destruct (strto f text) as [neg m]. destruct (_ && _); [|done]. intros [= <-].
  rewrite ieee_bytes_size. lia.
Qed.

Lemma native_size p context native :
  native_ieee_parameter p profile context = Some native -> size native = 4 \/ size native = 8.
Proof.
  unfold native_ieee_parameter. destruct context as [env|]; [|done]. destruct (value p) as [v|]; [|done].
  destruct (_ || _); [done|]. destruct (type p); try done; intros H.
  - left. by apply encode_native_size in H.
  - right. by apply encode_native_size in H.
Qed.

Lemma encode_pairs_size v : size (encode_pairs v) = 2 * size v.
Proof. unfold size. rewrite encode_pairs_length. lia. Qed.

(** A parameter whose value fits. *)
Definition value_fits (context : option FloatEnv) (p : QueryParameter) : Prop :=
  match value p with
  | Some v => native_ieee_parameter p profile context = None -> size v <= value_maximum p
  | None => True
  end.

Definition value_bytes (context : option FloatEnv) (p : QueryParameter) : Z :=
  match wire_value context p with Some w => size w | None => 0 end.

Lemma value_bytes_nonneg context p : 0 <= value_bytes context p.
Proof. unfold value_bytes. by destruct (wire_value context p). Qed.

Lemma count_value_limit context m w p : w <= m -> value_fits context p ->
  count_value context m w p = limit m (w + value_bytes context p).
Proof.
  intros Hw Hf. unfold count_value, value_bytes, wire_value, value_fits in *.
  destruct (value p) as [v|]; [|unfold limit; rewrite Z.add_0_r; by ztest].
  destruct (native_ieee_parameter p profile context) as [native|]; [apply add_limit|].
  specialize (Hf eq_refl). ztest. rewrite add_limit.
  destruct (hex_value p); [|done]. by rewrite size_app, encode_pairs_size.
Qed.

Lemma hex_value_bound p (v : bytes) : hex_value p = true -> size v <= value_maximum p ->
  2 + 2 * size v <= INT32_MAX.
Proof. unfold value_maximum, INT32_MAX. intros ->. intros. dlia. Qed.

Lemma wire_value_fits context p : value_fits context p -> cell_fits (wire_value context p).
Proof.
  unfold value_fits, cell_fits, wire_value. destruct (value p) as [v|]; [|done].
  destruct (native_ieee_parameter p profile context) as [native|] eqn:E.
  - intros _. apply native_size in E. unfold INT32_MAX. lia.
  - intros H. specialize (H eq_refl). destruct (hex_value p) eqn:Eh.
    + rewrite size_app, encode_pairs_size. by apply (hex_value_bound p).
    + unfold value_maximum in H. by rewrite Eh in H.
Qed.

Hypothesis max_size_large : INT32_MAX <= max_size.

Lemma write_value_cell context out p : value_fits context p ->
  write_value context out p = Ok (out ++ encode_cell (wire_value context p)).
Proof using max_size_large.
  intros Hf. pose proof (wire_value_fits context p Hf) as Hc.
  unfold write_value, value_fits, wire_value, cell_fits in *.
  destruct (value p) as [v|]; [|by rewrite append_u32_be32 by done].
  assert (forall w : bytes, size w <= INT32_MAX -> append_u32 out (size w) ++ w = out ++ be32 (size w) ++ w) as Ha.
  { intros w Hw. rewrite append_u32_be32, <- app_assoc; [done|].
    split; [auto|]. unfold INT32_MAX, UINT32_MAX in *. lia. }
  cbn [encode_cell].
  destruct (native_ieee_parameter p profile context) as [native|]; [by rewrite Ha|].
  specialize (Hf eq_refl). ztest. destruct (hex_value p) eqn:Eh; mcbn; [|by rewrite Ha].
  unfold encode_hex. pose proof (hex_value_bound p v Eh Hf). pose proof (size_nonneg v).
  unfold INT32_MAX in *. dtest. mcbn. by rewrite Ha.
Qed.

Lemma write_values context params out : Forall (value_fits context) params ->
  for_each (write_value context) out params =
  Ok (out ++ concat (map encode_cell (map (wire_value context) params))).
Proof using max_size_large.
  intros H. revert out. induction H as [|p params Hp _ IH]; intros out; cbn; [by rewrite app_nil_r|].
  rewrite write_value_cell by done. mcbn. by rewrite IH, <- app_assoc.
Qed.

Lemma formats_size context params :
  size (formats context params) = if existsb (binary_format context) params then size params else 0.
Proof.
  unfold formats. destruct (existsb _ _); [|done]. unfold size. by rewrite length_map.
Qed.

Lemma bind_message_frame context params out :
  size params < 65536 -> Forall (value_fits context) params ->
  bind_message context (existsb (binary_format context) params) params out =
  message (ch "B") (bind_payload context params) out.
Proof using max_size_large.
  intros Hn Hf. unfold bind_message. rewrite begin_message_app, !append_cstring_app.
  set (ef := existsb (binary_format context) params).
  assert (forall o, (if ef then foldl (fun out p => append_u16 out (if binary_format context p then 1 else 0)) o params
           else o) = o ++ concat (map be16 (formats context params))) as ->.
  { intros o. unfold formats. fold ef. destruct ef; [|by rewrite app_nil_r].
    rewrite (fold_append _ (fun p => be16 (if binary_format context p then 1 else 0))), map_map; [done|].
    intros o' p _. apply append_u16_be16. by destruct (binary_format context p). }
  pose proof (size_nonneg params).
  rewrite (append_u16_be16 _ (if ef then _ else _)) by (destruct ef; lia).
  rewrite (append_u16_be16 _ (size params)) by lia. rewrite write_values by done. mcbn.
  rewrite append_u16_be16 by done. apply message_finish.
  unfold bind_payload. rewrite formats_size. fold ef. by rewrite <- !app_assoc.
Qed.

(** *** The whole exchange *)

Lemma concat_be_size {A} (f : A -> Z) k (g : Z -> bytes) l :
  (forall v, size (g v) = k) -> size (concat (map (fun x => g (f x)) l)) = k * size l.
Proof.
  intros Hg. induction l as [|x l IH]; [change (0 = k * 0); lia|].
  cbn. rewrite size_app, Hg, IH, size_cons. lia.
Qed.

Lemma cells_size context params :
  size (concat (map encode_cell (map (wire_value context) params))) =
  4 * size params + total (value_bytes context) params.
Proof.
  induction params as [|p params IH]; [done|]. cbn [map concat].
  rewrite size_app, IH, size_cons.
  change (total (value_bytes context) (p :: params))
    with (value_bytes context p + total (value_bytes context) params).
  unfold value_bytes at 2. destruct (wire_value context p); cbn [encode_cell];
    rewrite ?size_app, size_be32; lia.
Qed.

Lemma parse_payload_size sql types :
  size (parse_payload sql types) = 4 + size sql + 4 * size types.
Proof.
  unfold parse_payload. sizes. rewrite (concat_be_size postgres_type_oid 4 be32) by done. lia.
Qed.

Lemma bind_payload_size context params :
  size (bind_payload context params) =
  8 + (if existsb (binary_format context) params then 2 * size params else 0) +
  4 * size params + total (value_bytes context) params.
Proof.
  unfold bind_payload. sizes. rewrite cells_size, (concat_be_size (fun x => x) 2 be16), formats_size by done.
  destruct (existsb _ _); lia.
Qed.

Lemma prepared_wire_size context sql params :
  size (prepared_wire context sql params) =
  51 + size sql + 8 * size params +
  (if existsb (binary_format context) params then 2 * size params else 0) +
  total (value_bytes context) params.
Proof.
  unfold prepared_wire, describe_statement, describe_portal.
  rewrite !size_app, !frame_size, parse_payload_size, bind_payload_size.
  assert (size (map type params) = size params) as -> by (unfold size; by rewrite length_map).
  sizes. lia.
Qed.

Lemma limit_then {A} m a (f : Z -> res A) :
  limit m a ≫= f = if m <? a then Throw RequestWireLimitExceeded else f a.
Proof. unfold limit. by destruct (m <? a). Qed.

Lemma message_then {A} tag payload out (f : bytes -> res A) :
  message tag payload out ≫= f =
  if UINT32_MAX <? 4 + size payload then Throw (length_error "PostgreSQL message is too large")
  else f (out ++ frame tag payload).
Proof. unfold message. by destruct (UINT32_MAX <? _). Qed.

(** A frame whose length does not fit its field. *)
Definition oversized (payload : bytes) : bool := UINT32_MAX <? 4 + size payload.

Lemma prepared_exchange_spec context sql params m :
  size params < 65536 -> Forall (value_fits context) params ->
  prepared_exchange context sql params m =
  if m <? size (prepared_wire context sql params) then Throw RequestWireLimitExceeded
  else if oversized (parse_payload sql (map type params)) || oversized (bind_payload context params)
  then Throw (length_error "PostgreSQL message is too large")
  else Ok (prepared_wire context sql params).
Proof using max_size_large.
  intros Hn Hf. unfold prepared_exchange. rewrite prepared_wire_size.
  set (ef := existsb (binary_format context) params).
  set (T := total (value_bytes context) params).
  assert (0 <= T) by (apply total_nonneg; apply value_bytes_nonneg).
  pose proof (size_nonneg params). pose proof (size_nonneg sql).
  set (F := if ef then 2 * size params else 0).
  assert (0 <= F) by (unfold F; destruct ef; lia).
  rewrite add_limit, limit_then. destruct (m <? 0 + 51) eqn:E0; zb; [by ztest|].
  rewrite add_limit, limit_then. destruct (m <? 0 + 51 + size sql) eqn:E1; zb; [by ztest|].
  rewrite add_limit, limit_then.
  destruct (m <? 0 + 51 + size sql + 8 * size params) eqn:E2; zb; [by ztest|].
  replace (if ef then add m (0 + 51 + size sql + 8 * size params) (2 * size params)
           else Ok (0 + 51 + size sql + 8 * size params))
    with (limit m (51 + size sql + 8 * size params + F))
    by (unfold F; destruct ef; rewrite ?add_limit; [f_equal; lia|unfold limit; ztest; f_equal; lia]).
  rewrite limit_then. destruct (m <? _) eqn:E3; zb; [by ztest|].
  rewrite (for_each_limit _ (value_bytes context) m);
    [|apply value_bytes_nonneg| |done].
  2: { intros w p Hp Hw. apply count_value_limit; [done|]. by eapply list.Forall_forall. }
  fold T. rewrite limit_then. destruct (m <? _) eqn:E4; [done|].
  assert (size (map type params) = size params) as Hs by (unfold size; by rewrite length_map).
  rewrite parse_request_frame, message_then by lia. fold (oversized (parse_payload sql (map type params))).
  destruct (oversized _); [done|]. rewrite describe_message_frame. mcbn.
  unfold ef. rewrite bind_message_frame, message_then by done. fold (oversized (bind_payload context params)).
  destruct (oversized _); [done|]. rewrite describe_message_frame. mcbn.
  rewrite execute_message_frame. mcbn. rewrite sync_message_frame.
  unfold prepared_wire. by rewrite <- !app_assoc.
Qed.

(** The conversion context a request owns. *)
Definition request_context (env : FloatEnv) (params : list QueryParameter) : option FloatEnv :=
  if redshift && existsb floating_parameter params then Some env else None.

(** What the encoder requires before it encodes. *)
Definition request_ok (env : FloatEnv) (sql : bytes) (params : list QueryParameter) : Prop :=
  no_nul sql /\ size params < 65536 /\
  ((replace_parameter_markers sql).2 = 0 \/ (replace_parameter_markers sql).2 = size params) /\
  (captured env = true -> restored env = true).

Lemma no_nul_find s : no_nul s <-> find_char 0 s = None.
Proof.
  rewrite find_char_None. rewrite List.Forall_forall. split.
  - intros H Hin. by apply (H 0).
  - by intros H x Hx ->.
Qed.

Lemma prepared_query_exchange env sql params m : request_ok env sql params ->
  create_prepared_query env sql params m =
  prepared_exchange (request_context env params) (replace_parameter_markers sql).1 params m.
Proof.
  intros (Hs & Hn & Hm & He). unfold create_prepared_query, reject_sql_nul.
  rewrite (proj1 (no_nul_find sql) Hs). mcbn. ztest.
  destruct (replace_parameter_markers sql) as [rewritten count]. cbn [fst snd] in *.
  replace (negb (count =? 0) && negb (count =? size params)) with false
    by (destruct Hm as [->| ->]; rewrite Z.eqb_refl; [done|by rewrite andb_false_r]).
  unfold request_context. destruct (redshift && existsb floating_parameter params); [|done].
  cbn [finish_context]. by destruct (captured env), (restored env); try (specialize (He eq_refl)).
Qed.

End Request.

(** ** What a server reads *)

(** [n] tagged messages and nothing after them. *)
Fixpoint read_frames (n : nat) (data : bytes) : res (list (Z * bytes)) :=
  match n, data with
  | O, [] => Ok []
  | S n, tag :: data =>
      '(len, data) ← read_u32 data;
      if (len <? 4) || (size data <? len - 4) then Throw (runtime_error "frame")
      else
        ms ← read_frames n (drop (Z.to_nat (len - 4)) data);
        Ok ((tag, take (Z.to_nat (len - 4)) data) :: ms)
  | _, _ => Throw (runtime_error "frame")
  end.

Fixpoint read_codes (n : nat) (data : bytes) : res (list Z * bytes) :=
  match n with
  | O => Ok ([], data)
  | S n =>
      '(c, data) ← read_u16 data;
      '(cs, data) ← read_codes n data;
      Ok (c :: cs, data)
  end.

(** The statement text of a Parse message for the unnamed statement. *)
Definition read_parse_sql (payload : bytes) : res bytes :=
  '(name, payload) ← read_cstring payload;
  '(sql, _) ← read_cstring payload;
  if beq name [] then Ok sql else Throw (runtime_error "named").

(** The format codes and the values of a Bind message. *)
Definition read_bind (payload : bytes) : res (list Z * list (option bytes)) :=
  '(_, payload) ← read_cstring payload;
  '(_, payload) ← read_cstring payload;
  '(n, payload) ← read_u16 payload;
  '(codes, payload) ← read_codes (Z.to_nat n) payload;
  '(n, payload) ← read_u16 payload;
  '(values, _) ← read_columns (Z.to_nat n) payload;
  Ok (codes, values).

Lemma read_frames_cons n tag payload rest : 4 + size payload <= UINT32_MAX ->
  read_frames (S n) (frame tag payload ++ rest) =
  ms ← read_frames n rest; Ok ((tag, payload) :: ms).
Proof.
  intros H. unfold frame. cbn [app read_frames]. pose proof (size_nonneg payload).
  rewrite <- app_assoc, read_u32_be32 by lia. mcbn.
  rewrite size_app. pose proof (size_nonneg rest). repeat ztest.
  replace (4 + size payload - 4) with (size payload) by lia.
  unfold size. rewrite Nat2Z.id, drop_app_length, take_app_length. done.
Qed.

Lemma read_codes_be16 l rest : Forall (fun v => 0 <= v < 65536) l ->
  read_codes (length l) (concat (map be16 l) ++ rest) = Ok (l, rest).
Proof.
  induction 1 as [|v l Hv _ IH]; [done|]. cbn [map concat length read_codes].
  rewrite <- app_assoc, read_u16_be16 by done. mcbn. by rewrite IH.
Qed.

Lemma formats_range profile context params :
  Forall (fun v => 0 <= v < 65536) (formats profile context params).
Proof.
  unfold formats. destruct (existsb _ _); [|constructor].
  apply Forall_map, list.Forall_forall. intros p _. by destruct (binary_format profile context p).
Qed.

Lemma formats_size_bound profile context params : 0 <= size (formats profile context params) <= size params.
Proof. rewrite formats_size. pose proof (size_nonneg params). destruct (existsb _ _); lia. Qed.

Lemma read_bind_payload profile context params :
  size params < 65536 -> Forall (value_fits profile context) params ->
  read_bind (bind_payload profile context params) =
  Ok (formats profile context params, map (wire_value profile context) params).
Proof.
  intros Hn Hf. unfold read_bind, bind_payload.
  pose proof (formats_size_bound profile context params).
  rewrite read_cstring_cstring by constructor. mcbn. rewrite read_cstring_cstring by constructor. mcbn.
  rewrite read_u16_be16 by lia. mcbn. unfold size at 1. rewrite Nat2Z.id.
  rewrite read_codes_be16 by apply formats_range. mcbn.
  rewrite read_u16_be16 by auto. mcbn. unfold size at 1. rewrite Nat2Z.id.
  rewrite <- (length_map (wire_value profile context) params), read_columns_encode; [done|].
  apply Forall_map. eapply Forall_impl; [|exact Hf]. intros p. apply wire_value_fits.
Qed.

(** ** Properties of the requests *)

(** C24. A prepared execution is refused exactly when its complete exchange would
    exceed the request limit, or when one message would not fit its length
    field; otherwise the bytes written are the protocol's Parse, Describe
    statement, Bind, Describe portal, Execute and Sync, with the rewritten SQL,
    the type hint of every parameter, and every value in the form the counting
    pass counted. *)
Theorem create_prepared_query_exact (max_size : Z) (profile : PgCatalogProfile) (env : FloatEnv)
    (sql : bytes) (params : list QueryParameter) (max_wire_bytes : Z) :
  INT32_MAX <= max_size ->
  request_ok env sql params ->
  Forall (value_fits profile (request_context profile env params)) params ->
  let context := request_context profile env params in
  let rewritten_sql := (replace_parameter_markers sql).1 in
  create_prepared_query max_size profile env sql params max_wire_bytes =
  if max_wire_bytes <? size (prepared_wire profile context rewritten_sql params)
  then Throw RequestWireLimitExceeded
  else if oversized (parse_payload profile rewritten_sql (map type params))
          || oversized (bind_payload profile context params)
  then Throw (length_error "PostgreSQL message is too large")
  else Ok (prepared_wire profile context rewritten_sql params).
Proof.
  intros Hmax Hok Hf context rewritten. rewrite prepared_query_exchange by done.
  apply prepared_exchange_spec; [done| |done]. apply Hok.
Qed.

Definition sample_env : FloatEnv := {| captured := true; locale := true; restored := true |}.
Definition sample_params : list QueryParameter :=
  [{| value := Some (str "1.5"); type := Float32; binary_input := false |};
   {| value := None; type := Text; binary_input := false |};
   {| value := Some [0; 255]; type := Binary; binary_input := false |}].

Lemma sample_request_ok : request_ok sample_env (str "SELECT ?, ?, ?") sample_params.
Proof. repeat split; try done; [|by right]. repeat (constructor; [done|]). constructor. Qed.

Lemma sample_values_fit context : Forall (value_fits Redshift context) sample_params.
Proof. repeat constructor; intros; vm_compute; congruence. Qed.

Lemma create_prepared_query_exact_witness :
  create_prepared_query (2 ^ 62) Redshift sample_env (str "SELECT ?, ?, ?") sample_params 103 =
    Throw RequestWireLimitExceeded /\
  create_prepared_query (2 ^ 62) Redshift sample_env (str "SELECT ?, ?, ?") sample_params 104 =
    Ok (prepared_wire Redshift (Some sample_env) (str "SELECT $1, $2, $3") sample_params).
Proof.
  split; rewrite create_prepared_query_exact
    by (done || apply sample_request_ok || apply sample_values_fit); vm_compute; reflexivity.
Defined.

(** The server reads back from the request exactly what the application
    bound: the six messages in order, the rewritten SQL text of the unnamed
    statement, one format code per parameter when any is binary, and for every
    parameter its value (NULL, IEEE bits, raw VARBYTE, hexadecimal bytea or
    text), in order. *)
Theorem create_prepared_query_decodes (max_size : Z) (profile : PgCatalogProfile) (env : FloatEnv)
    (sql : bytes) (params : list QueryParameter) (max_wire_bytes : Z) (out : bytes) :
  INT32_MAX <= max_size ->
  request_ok env sql params ->
  Forall (value_fits profile (request_context profile env params)) params ->
  create_prepared_query max_size profile env sql params max_wire_bytes = Ok out ->
  size out <= max_wire_bytes /\
  exists parse bind,
    read_frames 6 out =
      Ok [(ch "P", parse); (ch "D", [ch "S"; 0]); (ch "B", bind); (ch "D", [ch "P"; 0]);
          (ch "E", [0; 0; 0; 0; 0]); (ch "S", [])] /\
    read_parse_sql parse = Ok (replace_parameter_markers sql).1 /\
    read_bind bind = Ok (formats profile (request_context profile env params) params,
                         map (wire_value profile (request_context profile env params)) params).
Proof.
  intros Hmax Hok Hf. rewrite prepared_query_exchange, prepared_exchange_spec
    by (done || apply Hok). set (context := request_context profile env params) in *.
  set (sql' := (replace_parameter_markers sql).1).
  destruct (max_wire_bytes <? _) eqn:E; [done|]. destruct (_ || _) eqn:Eo; [done|].
  intros [= <-]. zb. split; [done|]. unfold oversized in *. zb.
  exists (parse_payload profile sql' (map type params)), (bind_payload profile context params).
  split; [|split].
  - unfold prepared_wire, describe_statement, describe_portal.
    rewrite !read_frames_cons by (done || lia).
    rewrite <- (app_nil_r (frame (ch "S") [])), read_frames_cons by done. done.
  - unfold read_parse_sql, parse_payload. rewrite read_cstring_cstring by constructor. mcbn.
    rewrite read_cstring_cstring; [done|]. apply replace_parameter_markers_no_nul, Hok.
  - apply read_bind_payload; [apply Hok|done].
Qed.

Lemma create_prepared_query_decodes_witness :
  exists out parse bind,
    create_prepared_query (2 ^ 62) Redshift sample_env (str "SELECT ?, ?, ?") sample_params 200 = Ok out /\
    read_frames 6 out =
      Ok [(ch "P", parse); (ch "D", [ch "S"; 0]); (ch "B", bind); (ch "D", [ch "P"; 0]);
          (ch "E", [0; 0; 0; 0; 0]); (ch "S", [])] /\
    read_bind bind = Ok ([1; 0; 1], [Some [0x3f; 0xc0; 0; 0]; None; Some [0; 255]]).
Proof.
  exists (prepared_wire Redshift (Some sample_env) (str "SELECT $1, $2, $3") sample_params).
  destruct (create_prepared_query_decodes (2 ^ 62) Redshift sample_env (str "SELECT ?, ?, ?") sample_params 200
    (prepared_wire Redshift (Some sample_env) (str "SELECT $1, $2, $3") sample_params))
    as (_ & parse & bind & E1 & _ & E2).
  - done.
  - apply sample_request_ok.
  - apply sample_values_fit.
  - vm_compute. reflexivity.
  - exists parse, bind. split; [vm_compute; reflexivity|]. split; [exact E1|]. rewrite E2.
    vm_compute. reflexivity.
Defined.

(** *** Startup *)

Lemma field_bytes_size f : size (field_bytes f) = size f.1 + 1 + size f.2 + 1.
Proof. unfold field_bytes. sizes. lia. Qed.

Definition fields_size (kv : list (bytes * bytes)) : Z := total (fun f => size (field_bytes f)) kv.

Lemma concat_fields_size kv : size (concat (map field_bytes kv)) = fields_size kv.
Proof.
  unfold fields_size. induction kv as [|f kv IH]; [done|]. cbn [map concat].
  change (total _ (f :: kv)) with (size (field_bytes f) + total (fun f => size (field_bytes f)) kv).
  by rewrite size_app, IH.
Qed.

Lemma total_app {A} (g : A -> Z) l1 l2 : total g (l1 ++ l2) = total g l1 + total g l2.
Proof.
  induction l1 as [|x l1 IH]; [done|]. change (total g ((x :: l1) ++ l2)) with (g x + total g (l1 ++ l2)).
  change (total g (x :: l1)) with (g x + total g l1). lia.
Qed.

Lemma startup_wire_size kv : size (startup_wire kv) = 9 + fields_size kv.
Proof. unfold startup_wire, startup_body. rewrite !size_app, !size_be32, concat_fields_size. change (size [0]) with 1. lia. Qed.

(** The counted steps of one parameter. *)
Lemma startup_param_limit m b p : b <= m ->
  startup_add_param m b p = limit m (b + size (field_bytes p)).
Proof.
  intros Hb. unfold startup_add_param. pose proof (size_nonneg p.1). pose proof (size_nonneg p.2).
  rewrite field_bytes_size, startup_add_limit by done. apply limit_bind; [lia|]. intros.
  rewrite startup_add_limit by lia. apply limit_bind; [lia|]. intros.
  rewrite startup_add_limit by lia. apply limit_bind; [lia|]. intros.
  rewrite startup_add_limit by lia. f_equal. lia.
Qed.

(** Counting [k] more bytes before going on with [g]. *)
Lemma limit_chain {A} m a k (f g : Z -> res A) : 0 <= k ->
  (a <= m -> f a = limit m (a + k) ≫= g) -> limit m a ≫= f = limit m (a + k) ≫= g.
Proof.
  intros Hk Hf. rewrite (limit_then m a). destruct (m <? a) eqn:E; zb; [|by apply Hf].
  rewrite limit_then. by ztest.
Qed.

Section Startup.
Context (profile : PgCatalogProfile) (m : Z) (params : list (bytes * bytes)).

Definition float_digits_size : Z := if wants_float_digits profile params then 21 else 0.

Lemma startup_params_limit {A} b (g : Z -> res A) : b <= m ->
  (bytes ← for_each (startup_add_param m) b params;
   bytes ← (if wants_float_digits profile params
            then startup_add m bytes (size key_extra_float_digits + 1 + 2) else Ok bytes);
   g bytes) = limit m (b + (fields_size params + float_digits_size)) ≫= g.
Proof.
  intros Hb. rewrite (for_each_limit _ (fun f => size (field_bytes f)) m);
    [|intros; apply size_nonneg|intros; by apply startup_param_limit|done].
  fold (fields_size params). rewrite Z.add_assoc. apply limit_chain.
  { unfold float_digits_size. destruct (wants_float_digits profile params); lia. }
  intros Hm. unfold float_digits_size. destruct (wants_float_digits profile params).
  - by rewrite startup_add_limit by done.
  - rewrite limit_then, Z.add_0_r. by ztest.
Qed.

Definition user_size (user : bytes) : Z := match user with [] => 0 | _ => 6 + size user end.

Lemma startup_rest_limit (database : bytes) b :
  (bytes ← startup_add m b 10;
   bytes ← startup_add m bytes (size database);
   bytes ← for_each (startup_add_param m) bytes params;
   bytes ← (if wants_float_digits profile params
            then startup_add m bytes (size key_extra_float_digits + 1 + 2) else Ok bytes);
   if UINT32_MAX <? bytes then Throw RequestWireLimitExceeded else Ok bytes) =
  limit m (b + (10 + size database + (fields_size params + float_digits_size))) ≫=
    (fun b => if UINT32_MAX <? b then Throw RequestWireLimitExceeded else Ok b).
Proof.
  assert (0 <= fields_size params) by (apply total_nonneg; intros; apply size_nonneg).
  assert (0 <= float_digits_size)
    by (unfold float_digits_size; destruct (wants_float_digits profile params); lia).
  pose proof (size_nonneg database). rewrite startup_add_limit by lia.
  replace (b + (10 + size database + (fields_size params + float_digits_size)))
    with (b + 10 + (size database + (fields_size params + float_digits_size))) by lia.
  apply limit_chain; [lia|]. intros _. rewrite startup_add_limit, Z.add_assoc by done.
  apply limit_chain; [lia|]. intros. by apply startup_params_limit.
Qed.

Lemma startup_bytes_limit (user database : bytes) :
  startup_bytes profile user database params m =
  limit m (9 + user_size user + (10 + size database + (fields_size params + float_digits_size))) ≫=
    (fun b => if UINT32_MAX <? b then Throw RequestWireLimitExceeded else Ok b).
Proof.
  unfold startup_bytes. cbn zeta. destruct user as [|c user]; mcbn; [apply startup_rest_limit|].
  assert (0 <= fields_size params) by (apply total_nonneg; intros; apply size_nonneg).
  assert (0 <= float_digits_size)
    by (unfold float_digits_size; destruct (wants_float_digits profile params); lia).
  pose proof (size_nonneg database). pose proof (size_nonneg (c :: user)).
  change (user_size (c :: user)) with (6 + size (c :: user)).
  assert (startup_add m 9 6 ≫= (fun bytes => startup_add m bytes (size (c :: user))) =
          limit m (9 + (6 + size (c :: user)))) as ->.
  { rewrite startup_add_limit by lia. apply limit_bind; [lia|]. intros.
    rewrite startup_add_limit by lia. f_equal. lia. }
  apply limit_chain; [lia|]. intros _. apply startup_rest_limit.
Qed.

Lemma startup_fields_size (user database : bytes) :
  size (startup_wire (startup_fields profile user database params)) =
  9 + user_size user + (10 + size database + (fields_size params + float_digits_size)).
Proof.
  rewrite startup_wire_size. unfold startup_fields, fields_size.
  rewrite total_app. change ((str "database", database) :: ?l) with ([(str "database", database)] ++ l).
  rewrite !total_app.
  change (total _ [(str "database", database)]) with (size (field_bytes (str "database", database)) + 0).
  rewrite field_bytes_size. change (size (str "database", database).1) with 8. cbn [snd].
  assert (total (fun f => size (field_bytes f)) match user with [] => [] | _ => [(str "user", user)] end
          = user_size user) as ->.
  { destruct user as [|c user]; [done|]. unfold total. cbn [map foldr].
    rewrite field_bytes_size. change (size (str "user", c :: user).1) with 4. cbn [snd user_size]. lia. }
  assert (total (fun f => size (field_bytes f))
    (if wants_float_digits profile params then [(key_extra_float_digits, str "2")] else [])
    = float_digits_size) as -> by (unfold float_digits_size; by destruct (wants_float_digits profile params)).
  lia.
Qed.

End Startup.

(** Filling the buffer field by field writes the fields one after another. *)
Lemma fill_next (pre : bytes) n : <[length pre := 0]> (pre ++ replicate (S n) 0) = (pre ++ [0]) ++ replicate n 0.
Proof. by rewrite fill_byte, <- app_assoc. Qed.

Lemma length_next (pre : bytes) : S (length pre) = length (pre ++ [0]).
Proof. rewrite length_app. cbn. lia. Qed.

Lemma write_one_field pre f n :
  write_field (pre ++ replicate (length (field_bytes f) + n) 0, length pre) f =
  ((pre ++ field_bytes f) ++ replicate n 0, length (pre ++ field_bytes f)).
Proof.
  destruct f as [k v]. unfold write_field, field_bytes, cstring. cbn [fst snd].
  replace (length ((k ++ [0%Z]) ++ v ++ [0%Z]) + n)%nat
    with (length k + S (length v + S n))%nat by (rewrite !length_app; cbn; lia).
  rewrite fill_bytes, app_assoc, <- length_app, fill_next, length_next.
  rewrite fill_bytes, app_assoc, <- length_app, fill_next, length_next.
  by rewrite <- !app_assoc.
Qed.

Lemma write_fields kv : forall pre n,
  foldl write_field (pre ++ replicate (length (concat (map field_bytes kv)) + n) 0, length pre) kv =
  ((pre ++ concat (map field_bytes kv)) ++ replicate n 0,
   length (pre ++ concat (map field_bytes kv))).
Proof.
  induction kv as [|f kv IH]; intros pre n; cbn [map concat foldl].
  { by rewrite app_nil_r. }
  rewrite length_app, <- Nat.add_assoc, write_one_field, IH.
  by rewrite <- !app_assoc.
Qed.

Lemma create_startup_message_spec profile user database params m :
  let kv := startup_fields profile user database params in
  create_startup_message profile user database params m =
  if (m <? size (startup_wire kv)) || (UINT32_MAX <? size (startup_wire kv))
  then Throw RequestWireLimitExceeded
  else if existsb reject_field_nul kv
  then Throw (invalid_argument "PostgreSQL startup field contains an embedded NUL byte")
  else Ok (startup_wire kv).
Proof.
  intros kv. unfold create_startup_message.
  rewrite startup_bytes_limit, <- startup_fields_size. fold kv. set (n := size (startup_wire kv)).
  rewrite limit_then. destruct (m <? n) eqn:E1; [done|]. cbn [orb].
  destruct (UINT32_MAX <? n) eqn:E2; [done|]. mcbn. destruct (existsb _ kv); [done|]. zb. f_equal.
  assert (Z.to_nat n = 4 + (4 + (length (concat (map field_bytes kv)) + 1)))%nat as Hn.
  { unfold n, startup_wire, startup_body, size. rewrite !length_app. cbn. lia. }
  rewrite Hn. assert (0 <= n <= UINT32_MAX) by (split; [apply size_nonneg|done]).
  change (replicate ?k 0) with ([] ++ replicate k 0).
  rewrite (fill_u32 [] n) by done. cbn [app]. rewrite (fill_u32 (be32 n) 196608) by done.
  rewrite app_assoc. change 8%nat with (length (be32 n ++ be32 196608)). rewrite write_fields.
  rewrite (fill_next _ 0), app_nil_r. unfold startup_wire, startup_body.
  assert (8 + size (concat (map field_bytes kv) ++ [0]) = n) as ->
    by (unfold n, startup_wire, startup_body; rewrite !size_app, !size_be32; lia).
  by rewrite <- !app_assoc.
Qed.

(** The key-value pairs of a startup message, up to the empty key. *)
Fixpoint read_pairs (fuel : nat) (data : bytes) : res (list (bytes * bytes)) :=
  match fuel with
  | O => Throw (runtime_error "fuel")
  | S fuel =>
      '(key, data) ← read_cstring data;
      match key with
      | [] => if beq data [] then Ok [] else Throw (runtime_error "trailing")
      | _ =>
          '(v, data) ← read_cstring data;
          kv ← read_pairs fuel data;
          Ok ((key, v) :: kv)
      end
  end.

Definition read_startup (data : bytes) : res (Z * Z * list (bytes * bytes)) :=
  '(len, rest) ← read_u32 data;
  '(version, rest) ← read_u32 rest;
  kv ← read_pairs (length data) rest;
  Ok (len, version, kv).

Lemma read_pairs_fields kv fuel :
  Forall (fun f => f.1 <> [] /\ no_nul f.1 /\ no_nul f.2) kv -> (length kv < fuel)%nat ->
  read_pairs fuel (startup_body kv) = Ok kv.
Proof.
  intros H. revert fuel. induction H as [|[k v] kv (Hk & Hk0 & Hv0) _ IH]; intros fuel Hl.
  - destruct fuel; [cbn in Hl; lia|]. done.
  - destruct fuel as [|fuel]; [cbn in Hl; lia|]. cbn [read_pairs]. unfold startup_body.
    cbn [map concat fst snd] in *. unfold field_bytes at 1. cbn [fst snd]. rewrite <- !app_assoc.
    rewrite read_cstring_cstring by done. mcbn. destruct k as [|c k]; [done|].
    rewrite read_cstring_cstring by done. mcbn. fold (startup_body kv).
    rewrite IH by (cbn in Hl; lia). done.
Qed.

Lemma reject_field_nul_false f : reject_field_nul f = false <-> no_nul f.1 /\ no_nul f.2.
Proof.
  rewrite !no_nul_find. unfold reject_field_nul.
  destruct (find_char 0 f.1), (find_char 0 f.2); split; try done; by intros [].
Qed.

Lemma startup_fields_no_nul kv :
  existsb reject_field_nul kv = false <-> Forall (fun f => no_nul f.1 /\ no_nul f.2) kv.
Proof.
  induction kv as [|f kv IH]; cbn; [split; [constructor|done]|].
  rewrite orb_false_iff, IH, reject_field_nul_false, list.Forall_cons. done.
Qed.

(** A startup message is refused exactly when it would exceed the startup
    limit or its own length field, or when a field holds a NUL byte; otherwise
    the server reads from it the message's size, protocol 3.0 and the user,
    database and parameter fields in order, an empty user left out and Redshift
    given [extra_float_digits = 2] unless the parameters set it. *)
Theorem create_startup_message_exact (profile : PgCatalogProfile) (user database : bytes)
    (params : list (bytes * bytes)) (max_wire_bytes : Z) :
  Forall (fun p => p.1 <> []) params ->
  let kv := startup_fields profile user database params in
  let n := size (startup_wire kv) in
  match create_startup_message profile user database params max_wire_bytes with
  | Ok out => size out <= max_wire_bytes /\ read_startup out = Ok (size out, 196608, kv)
  | Throw RequestWireLimitExceeded => max_wire_bytes < n \/ UINT32_MAX < n
  | Throw e => e = invalid_argument "PostgreSQL startup field contains an embedded NUL byte" /\
               Exists (fun f => In 0 f.1 \/ In 0 f.2) kv
  end.
Proof.
  intros Hk kv n. rewrite create_startup_message_spec. fold kv. fold n.
  destruct (_ || _) eqn:E1; [zb; lia|]. zb.
  destruct (existsb reject_field_nul kv) eqn:E2.
  - split; [done|]. apply existsb_exists in E2 as (f & Hin & Hf). apply List.Exists_exists.
    exists f. split; [done|]. unfold reject_field_nul in Hf.
    destruct (find_char 0 f.1) eqn:Ef1; [left|right].
    + destruct (in_dec Z.eq_dec 0 f.1) as [|Hn]; [done|]. apply find_char_None in Hn. congruence.
    + destruct (in_dec Z.eq_dec 0 f.2) as [|Hn]; [done|]. apply find_char_None in Hn. by rewrite Hn in Hf.
  - split; [done|].
    assert (startup_wire kv = be32 n ++ be32 196608 ++ startup_body kv) as E.
    { unfold startup_wire at 1. do 2 f_equal.
      unfold n, startup_wire. rewrite !size_app, !size_be32. lia. }
    fold n. unfold read_startup. rewrite E at 1. rewrite read_u32_be32 by (split; [apply size_nonneg|done]). mcbn.
    rewrite read_u32_be32 by done. mcbn. rewrite read_pairs_fields; [done| |].
    + apply startup_fields_no_nul in E2. assert (Forall (fun f => f.1 <> []) kv) as Hne.
      { unfold kv, startup_fields. apply Forall_app. split; [destruct user; by repeat constructor|].
        constructor; [done|]. apply Forall_app. split; [done|].
        destruct (wants_float_digits profile params); by repeat constructor. }
      rewrite list.Forall_forall in Hne, E2 |- *. intros f Hf. split; [by apply Hne|by apply E2].
    + unfold startup_wire. rewrite !length_app. cbn [length be32].
      unfold startup_body. rewrite length_app. cbn [length].
      assert (length kv <= length (concat (map field_bytes kv)))%nat; [|lia].
      clear. induction kv as [|f kv IH]; [done|]. cbn [map concat length]. rewrite length_app.
      unfold field_bytes at 1, cstring. rewrite !length_app. cbn. lia.
Qed.

Lemma create_startup_message_exact_witness :
  exists out,
    create_startup_message Redshift (str "u") (str "d") [(str "a", str "b")] 100 = Ok out /\
    read_startup out = Ok (size out, 196608,
      [(str "user", str "u"); (str "database", str "d"); (str "a", str "b");
       (str "extra_float_digits", str "2")]).
Proof.
  pose proof (create_startup_message_exact Redshift (str "u") (str "d") [(str "a", str "b")] 100) as H.
  destruct (create_startup_message Redshift (str "u") (str "d") [(str "a", str "b")] 100) as [out|e] eqn:E;
    [|exfalso; vm_compute in E; discriminate].
  exists out. split; [done|]. destruct H as [_ H]; [by repeat constructor|]. rewrite H. reflexivity.
Defined.

(** *** Simple queries and statement descriptions *)

Lemma create_simple_query_spec sql m :
  create_simple_query sql m =
  if (m <? size (frame (ch "Q") (cstring sql))) || oversized (cstring sql)
  then Throw RequestWireLimitExceeded
  else _ ← reject_sql_nul sql; Ok (frame (ch "Q") (cstring sql)).
Proof.
  unfold create_simple_query, oversized. rewrite frame_size. sizes.
  pose proof (size_nonneg sql).
  replace ((m <? 6) || (Z.min (m - 6) (UINT32_MAX - 5) <? size sql))
    with ((m <? 5 + (size sql + (0 + 1))) || (UINT32_MAX <? 4 + (size sql + (0 + 1))))
    by (unfold UINT32_MAX; lia).
  destruct (_ || _) eqn:E; [done|]. zb. destruct (reject_sql_nul sql); mcbn; [|done]. f_equal.
  replace (1 + 4 + length sql + 1)%nat with (S (4 + (length sql + 1)))%nat by lia.
  change (<[0%nat := ch "Q"]> (replicate (S ?k) 0)) with ([ch "Q"] ++ replicate k 0).
  pose proof (fill_u32 [ch "Q"] (4 + size sql + 1) (length sql + 1)) as E1.
  change (length [ch "Q"]) with 1%nat in E1. rewrite E1, app_assoc by lia.
  pose proof (fill_bytes ([ch "Q"] ++ be32 (4 + size sql + 1)) sql 1) as E2.
  change (length ([ch "Q"] ++ be32 (4 + size sql + 1))) with 5%nat in E2. rewrite E2, app_assoc.
  change 5%nat with (length ([ch "Q"] ++ be32 (4 + size sql + 1))).
  rewrite <- length_app, (fill_next _ 0), app_nil_r.
  cbn [app]. unfold frame, cstring. cbn [app]. f_equal.
  replace (4 + (size sql + (0 + 1))) with (4 + size sql + 1) by lia. by rewrite <- !app_assoc.
Qed.

Lemma create_statement_description_spec profile sql types m :
  let rewritten_sql := (replace_parameter_markers sql).1 in
  no_nul sql -> size types < 65536 -> (replace_parameter_markers sql).2 = size types ->
  create_statement_description profile sql types m =
  if m <? size (description_wire profile rewritten_sql types) then Throw RequestWireLimitExceeded
  else if oversized (parse_payload profile rewritten_sql types)
  then Throw (length_error "PostgreSQL message is too large")
  else Ok (description_wire profile rewritten_sql types).
Proof.
  intros rewritten Hs Hn Hm. unfold create_statement_description, reject_sql_nul.
  rewrite (proj1 (no_nul_find sql) Hs). mcbn. ztest. unfold rewritten.
  destruct (replace_parameter_markers sql) as [text count]. cbn [fst snd] in *. subst count.
  rewrite Z.eqb_refl. cbn [negb]. unfold description_wire, describe_statement.
  rewrite !size_app, !frame_size, parse_payload_size.
  change (size [ch "S"; 0]) with 2. change (size (@nil Z)) with 0.
  replace ((m <? 21 + 4 * size types) || (m - (21 + 4 * size types) <? size text))
    with (m <? 5 + (4 + size text + 4 * size types) + (5 + 2 + (5 + 0)))
    by (pose proof (size_nonneg text); lia).
  destruct (m <? _); [done|].
  rewrite parse_request_frame, message_then by done. fold (oversized (parse_payload profile text types)).
  destruct (oversized _); [done|]. rewrite describe_message_frame. mcbn. rewrite sync_message_frame.
  by rewrite <- !app_assoc.
Qed.

(** A simple query is the protocol's Query message for the SQL text, refused
    exactly when it would exceed the limit or its length field, or when the text
    holds a NUL byte; a statement description is Parse, Describe, Sync for the
    rewritten text with one type hint per marker, refused exactly when it would
    exceed the limit or its length field. *)
Theorem query_messages_exact (profile : PgCatalogProfile) (sql : bytes)
    (types : list QueryParameterType) (max_wire_bytes : Z) :
  (create_simple_query sql max_wire_bytes =
   if (max_wire_bytes <? size (frame (ch "Q") (cstring sql))) || oversized (cstring sql)
   then Throw RequestWireLimitExceeded
   else if existsb (Z.eqb 0) sql
   then Throw (invalid_argument "SQL text contains an embedded NUL byte")
   else Ok (frame (ch "Q") (cstring sql))) /\
  (no_nul sql -> size types < 65536 -> parameter_marker_count sql = size types ->
   let rewritten_sql := (replace_parameter_markers sql).1 in
   create_statement_description profile sql types max_wire_bytes =
   if max_wire_bytes <? size (description_wire profile rewritten_sql types)
   then Throw RequestWireLimitExceeded
   else if oversized (parse_payload profile rewritten_sql types)
   then Throw (length_error "PostgreSQL message is too large")
   else Ok (description_wire profile rewritten_sql types)).
Proof.
  split; [|apply create_statement_description_spec].
  rewrite create_simple_query_spec. destruct (_ || _); [done|]. unfold reject_sql_nul.
  destruct (find_char 0 sql) eqn:E; destruct (existsb (Z.eqb 0) sql) eqn:E'; try done.
  - assert (find_char 0 sql = None) as Hn; [|by rewrite Hn in E].
    apply find_char_None. intros Hin. apply not_true_iff_false in E'. apply E', existsb_exists.
    exists 0. split; [done|apply Z.eqb_refl].
  - apply find_char_None in E. destruct E. apply existsb_exists in E' as (x & Hin & Hx).
    apply Z.eqb_eq in Hx. by subst.
Qed.

Lemma query_messages_exact_witness :
  create_simple_query (str "SELECT 1") 14 = Ok (frame (ch "Q") (cstring (str "SELECT 1"))) /\
  create_statement_description PostgreSQL (str "SELECT ?") [Int32] 34 =
    Ok (description_wire PostgreSQL (str "SELECT $1") [Int32]).
Proof.
  split.
  - rewrite (proj1 (query_messages_exact PostgreSQL (str "SELECT 1") [] 14)). vm_compute. reflexivity.
  - rewrite (proj2 (query_messages_exact PostgreSQL (str "SELECT ?") [Int32] 34));
      [vm_compute; reflexivity| |done|done].
    repeat (constructor; [done|]). constructor.
Defined.

Lemma existsb_not_no_nul sql : In 0 sql -> find_char 0 sql <> None.
Proof. intros Hin H%find_char_None. done. Qed.

Lemma count_value_large profile context m w p v :
  value p = Some v -> native_ieee_parameter p profile context = None -> value_maximum profile p < size v ->
  count_value profile context m w p = Throw (length_error "PostgreSQL parameter value is too large").
Proof. intros Hv Hn Hl. unfold count_value. rewrite Hv, Hn. by ztest. Qed.

(** The error paths of a prepared execution: SQL with a NUL byte, more than
    65535 parameters and a marker count that differs from the bound count are
    refused with their own exceptions before anything is encoded; a floating
    environment that cannot be restored always fails the request, also when the
    encoding itself failed; and a value beyond the protocol's length field is
    never sent, whatever the wire limit. *)
Theorem create_prepared_query_errors (max_size : Z) (profile : PgCatalogProfile) (env : FloatEnv)
    (sql : bytes) (params : list QueryParameter) (max_wire_bytes : Z) :
  let r := create_prepared_query max_size profile env sql params max_wire_bytes in
  (In 0 sql -> r = Throw (invalid_argument "SQL text contains an embedded NUL byte")) /\
  (no_nul sql -> 65535 < size params ->
   r = Throw (length_error "too many PostgreSQL query parameters")) /\
  (no_nul sql -> size params <= 65535 -> parameter_marker_count sql <> 0 ->
   parameter_marker_count sql <> size params ->
   r = Throw (invalid_argument "parameter marker count does not match bound parameter count")) /\
  (request_context profile env params = Some env -> captured env = true -> restored env = false ->
   is_ok r = false) /\
  (forall p v, p ∈ params -> value p = Some v ->
   native_ieee_parameter p profile (request_context profile env params) = None ->
   value_maximum profile p < size v -> is_ok r = false).
Proof.
  intros r. unfold r, create_prepared_query, reject_sql_nul, parameter_marker_count.
  destruct (replace_parameter_markers sql) as [text count]. cbn [snd].
  fold (request_context profile env params). split_and!.
  - intros Hin%existsb_not_no_nul. by destruct (find_char 0 sql).
  - intros ->%no_nul_find Hn. mcbn. by ztest.
  - intros ->%no_nul_find Hn H1 H2. mcbn. by repeat ztest.
  - intros -> Hc Hr. destruct (find_char 0 sql); [done|]. mcbn. destruct (65535 <? _); [done|].
    destruct (negb _ && _); [done|]. cbn. by rewrite Hc, Hr.
  - intros p v Hin Hv Hn Hl. destruct (find_char 0 sql); [done|]. mcbn. destruct (65535 <? _); [done|].
    destruct (negb _ && _); [done|].
    assert (is_ok (prepared_exchange max_size profile (request_context profile env params) text params
      max_wire_bytes) = false) as He.
    { unfold prepared_exchange. cbn zeta. do 4 (apply bind_not_ok_r; intros ?).
      apply bind_not_ok, (for_each_throws _ _ p Hin). intros acc. by rewrite (count_value_large _ _ _ _ _ v). }
    unfold finish_context. destruct (request_context profile env params); [|done].
    by destruct (_ && _).
Qed.

Lemma create_prepared_query_errors_witness :
  create_prepared_query (2 ^ 62) PostgreSQL sample_env (str "SELECT ?") sample_params 1000 =
  Throw (invalid_argument "parameter marker count does not match bound parameter count").
Proof.
  apply (create_prepared_query_errors (2 ^ 62) PostgreSQL sample_env (str "SELECT ?") sample_params 1000);
    [|vm_compute; congruence..].
  repeat (constructor; [done|]). constructor.
Defined.

(** The SSL request packet. *)
Example create_ssl_request_bytes : create_ssl_request = be32 8 ++ be32 80877103.
Proof. reflexivity. Qed.
