(* ===== verification/PgResult.v ===== *)
(** * PostgreSQL responses

    What the driver makes of the server's messages, from
    [src/core/database/postgres/pg_protocol_parser.cpp] and [pg_command.cpp]:
    framing ([parse_message]), the session's ready and error tests, the
    classification of command tags, and [extract_query_result], the state
    machine that turns the messages of one exchange into results.

    The machine's local variables are the record [Parser]; one message is
    [result_step]; an exception is [Throw].  The reference is [segment_result],
    which reads the result off the messages between two completions without any
    state. *)

From S2P Require Import Prelude Utf8 Digits PgWire PgIeee.

(** ** Messages *)

Record Message := { tag : Z; payload : bytes }.

Definition fixed_length_tag (t : Z) : bool :=
  (t =? ch "1") || (t =? ch "2") || (t =? ch "3") || (t =? ch "n") || (t =? ch "I") || (t =? ch "s").

(** A NotificationResponse: a process id and two strings. *)
Definition check_notification (payload : bytes) : res unit :=
  if size payload <? 6 then Throw (runtime_error "truncated PostgreSQL NotificationResponse")
  else
    '(_, rest) ← read_cstring (drop 4 payload);
    '(_, rest) ← read_cstring rest;
    match rest with
    | [] => Ok tt
    | _ => Throw (runtime_error "invalid PostgreSQL NotificationResponse length")
    end.

Definition parse_message (data : bytes) : res Message :=
  if size data <? 5 then Throw (runtime_error "Message too short")
  else
    let t := nth 0 data 0 in
    '(len, _) ← read_u32 (drop 1 data);
    if (len <? 4) || negb (size data - 1 =? len) then Throw (runtime_error "Invalid message length")
    else if fixed_length_tag t && negb (len =? 4) then
      Throw (runtime_error "Invalid PostgreSQL fixed-length response")
    else
      let body := drop 5 data in
      if (t =? ch "K") && negb (size body =? 8) then
        Throw (runtime_error "Invalid PostgreSQL 3.0 BackendKeyData length")
      else
        _ ← (if t =? ch "N" then _ ← decode_error_fields body; Ok tt
             else if t =? ch "A" then check_notification body
             else Ok tt);
        Ok {| tag := t; payload := body |}.

Definition is_ready_for_query (msg : Message) : res bool :=
  if negb (tag msg =? ch "Z") then Ok false
  else
    match payload msg with
    | [c] => if (c =? ch "I") || (c =? ch "T") || (c =? ch "E") then Ok true
             else Throw (runtime_error "Invalid PostgreSQL ReadyForQuery payload")
    | _ => Throw (runtime_error "Invalid PostgreSQL ReadyForQuery payload")
    end.

Definition is_error_response (msg : Message) : bool := tag msg =? ch "E".

Definition is_terminal_error_response (msg : Message) : res bool :=
  if negb (tag msg =? ch "E") then Ok false
  else
    fields ← decode_error_fields (payload msg);
    match fields !! ch "V" with
    | Some severity =>
        if negb (beq severity (str "ERROR")) && negb (beq severity (str "FATAL"))
           && negb (beq severity (str "PANIC"))
        then Throw (runtime_error "Invalid PostgreSQL error severity")
        else Ok (beq severity (str "FATAL") || beq severity (str "PANIC"))
    | None =>
        match fields !! ch "S" with
        | None | Some [] => Throw (runtime_error "Empty PostgreSQL error severity")
        | Some severity => Ok (beq severity (str "FATAL") || beq severity (str "PANIC"))
        end
    end.

Definition extract_error_message (msg : Message) : res bytes :=
  if negb (tag msg =? ch "E") then Ok []
  else error_message <$> decode_error_fields (payload msg).

Definition extract_error_sqlstate (msg : Message) : res bytes :=
  if negb (tag msg =? ch "E") then Ok []
  else error_code <$> decode_error_fields (payload msg).

(** [extract_query_results]: the rows of every DataRow, without context. *)
Definition extract_query_results (messages : list Message) : res (list ResultRow) :=
  for_each (fun rows msg => if tag msg =? ch "D"
                            then row ← parse_data_row (payload msg); Ok (rows ++ [row])
                            else Ok rows) [] messages.

(** ** Command tags *)

Inductive StatementKind :=
| Unknown | SelectCursor | Insert | UpdateWhere | DeleteWhere | Call | Grant | Revoke
| AlterDomain | AlterTable | CreateAssertion | CreateCharacterSet | CreateCollation
| CreateDomain | CreateIndex | CreateSchema | CreateTable | CreateTranslation | CreateView
| DropAssertion | DropCharacterSet | DropCollation | DropDomain | DropIndex | DropSchema
| DropTable | DropTranslation | DropView.

#[export] Instance statement_kind_eq_dec : EqDecision StatementKind.
Proof. solve_decision. Defined.

Definition mappings : list (bytes * StatementKind) :=
  [(str "SELECT", SelectCursor); (str "INSERT", Insert); (str "UPDATE", UpdateWhere);
   (str "DELETE", DeleteWhere); (str "CALL", Call); (str "GRANT", Grant); (str "REVOKE", Revoke);
   (str "ALTER DOMAIN", AlterDomain); (str "ALTER TABLE", AlterTable);
   (str "CREATE ASSERTION", CreateAssertion); (str "CREATE CHARACTER SET", CreateCharacterSet);
   (str "CREATE COLLATION", CreateCollation); (str "CREATE DOMAIN", CreateDomain);
   (str "CREATE INDEX", CreateIndex); (str "CREATE UNIQUE INDEX", CreateIndex);
   (str "CREATE SCHEMA", CreateSchema); (str "CREATE TABLE", CreateTable);
   (str "CREATE TEMP TABLE", CreateTable); (str "CREATE TEMPORARY TABLE", CreateTable);
   (str "CREATE UNLOGGED TABLE", CreateTable); (str "CREATE TRANSLATION", CreateTranslation);
   (str "CREATE VIEW", CreateView); (str "DROP ASSERTION", DropAssertion);
   (str "DROP CHARACTER SET", DropCharacterSet); (str "DROP COLLATION", DropCollation);
   (str "DROP DOMAIN", DropDomain); (str "DROP INDEX", DropIndex); (str "DROP SCHEMA", DropSchema);
   (str "DROP TABLE", DropTable); (str "DROP TRANSLATION", DropTranslation);
   (str "DROP VIEW", DropView)].

(** [" \t\r\n"]. *)
Definition tag_blank (c : Z) : bool := (c =? 32) || (c =? 9) || (c =? 13) || (c =? 10).

Definition matches_mapping (normalized prefix : bytes) : bool :=
  starts_with normalized prefix &&
  match drop (length prefix) normalized with [] => true | c :: _ => isspace c end.

Definition classify_command_tag (t : bytes) : StatementKind :=
  match drop_while tag_blank t with
  | [] => Unknown
  | rest =>
      let normalized := map toupper rest in
      match find (fun item => matches_mapping normalized item.1) mappings with
      | Some item => item.2
      | None => Unknown
      end
  end.

Definition SIZE_T_MAX : Z := 2 ^ 64 - 1.

(** What follows the last space, or the whole tag. *)
Fixpoint after_last_space (t : bytes) : bytes :=
  match t with
  | [] => []
  | c :: t' => if existsb (Z.eqb 32) t' then after_last_space t' else if c =? 32 then t' else t
  end.

Definition command_affected_rows (command_tag : bytes) : Z :=
  let number := after_last_space command_tag in
  match number with
  | [] => 0
  | c :: _ =>
      if negb (isdigit c) then 0
      else
        match from_chars_unsigned SIZE_T_MAX number with
        | FromChars rows [] => rows
        | _ => 0
        end
  end.

Example command_tag_examples :
  command_affected_rows (str "INSERT 0 42") = 42 /\ command_affected_rows (str "SELECT") = 0 /\
  command_affected_rows (str "UPDATE 18446744073709551616") = 0 /\
  command_affected_rows (str "7") = 7 /\
  classify_command_tag (str " create temp table x") = CreateTable /\
  classify_command_tag (str "SELECT 1") = SelectCursor /\
  classify_command_tag (str "SELECTED") = Unknown.
Proof. vm_compute. repeat split. Qed.

(** ** Results *)

Inductive ExecutionResultShape := NoResultSet | ResultSet.

#[export] Instance shape_eq_dec : EqDecision ExecutionResultShape.
Proof. solve_decision. Defined.

Record ParsedColumnMetadata := {
  name : bytes;
  type_id : Z;
  type_size : Z;
  type_modifier : Z;
  format_code : Z;
  table_oid : Z;
  column_attribute_number : Z;
}.

(** The message and SQLSTATE of [BackendError], whose code is [QueryFailed]. *)
Record QueryError := { error_text : bytes; native_state : bytes }.

(** [additional_results] is the flat list [extract_query_result] returns beside
    the first result. *)
Record ParsedQueryResult := {
  rows : list ResultRow;
  columns : list ParsedColumnMetadata;
  parameter_type_ids : list Z;
  error : option QueryError;
  affected_rows : Z;
  statement_kind : option StatementKind;
  execution_result_shape : option ExecutionResultShape;
  prepared_execution_authority : bool;
}.

Definition empty_result : ParsedQueryResult :=
  {| rows := []; columns := []; parameter_type_ids := []; error := None; affected_rows := 0;
     statement_kind := None; execution_result_shape := None; prepared_execution_authority := false |}.

(** [static_cast] to a signed type of the same width. *)
Definition to_int16 (v : Z) : Z := if v <? 2 ^ 15 then v else v - 2 ^ 16.
Definition to_int32 (v : Z) : Z := if v <? 2 ^ 31 then v else v - 2 ^ 32.

Definition read_column (data : bytes) : res (ParsedColumnMetadata * bytes) :=
  '(nm, data) ← read_cstring data;
  '(oid, data) ← read_u32 data;
  '(attribute, data) ← read_u16 data;
  '(id, data) ← read_u32 data;
  '(sz, data) ← read_u16 data;
  '(modifier, data) ← read_u32 data;
  '(format, data) ← read_u16 data;
  if 1 <? format then Throw (runtime_error "invalid PostgreSQL result format code")
  else Ok ({| name := nm; type_id := id; type_size := to_int16 sz; type_modifier := to_int32 modifier;
              format_code := to_int16 format; table_oid := oid;
              column_attribute_number := to_int16 attribute |}, data).

(** A counted list of items, read one after another. *)
Fixpoint read_items {A} (item : bytes -> res (A * bytes)) (count : nat) (data : bytes)
    : res (list A * bytes) :=
  match count with
  | O => Ok ([], data)
  | S count =>
      '(x, data) ← item data;
      '(xs, data) ← read_items item count data;
      Ok (x :: xs, data)
  end.

(** A 16-bit count, the items, and nothing else. *)
Definition read_counted {A} (item : bytes -> res (A * bytes)) (what : String.string) (payload : bytes)
    : res (list A) :=
  '(count, data) ← read_u16 payload;
  '(xs, data) ← read_items item (Z.to_nat count) data;
  match data with
  | [] => Ok xs
  | _ => Throw (runtime_error what)
  end.

Definition read_row_description : bytes -> res (list ParsedColumnMetadata) :=
  read_counted read_column "invalid PostgreSQL RowDescription length".

Definition read_parameter_description : bytes -> res (list Z) :=
  read_counted read_u32 "invalid PostgreSQL ParameterDescription length".

(** ** The state machine *)

Record Parser := {
  current : ParsedQueryResult;
  completed : list ParsedQueryResult;
  has_row_description : bool;
  bind_complete_since_description : bool;
  extended_execution : bool;
  saw_bind_complete : bool;
  phase_shape : option ExecutionResultShape;
}.

Definition initial_parser : Parser :=
  {| current := empty_result; completed := []; has_row_description := false;
     bind_complete_since_description := false; extended_execution := false;
     saw_bind_complete := false; phase_shape := None |}.

(** [completed.push_back(current)] and the reset that follows every completion. *)
Definition complete (r : ParsedQueryResult) (st : Parser) : Parser :=
  {| current := empty_result; completed := completed st ++ [r]; has_row_description := false;
     bind_complete_since_description := false; extended_execution := extended_execution st;
     saw_bind_complete := false; phase_shape := None |}.

Definition set_current (r : ParsedQueryResult) (st : Parser) : Parser :=
  {| current := r; completed := completed st; has_row_description := has_row_description st;
     bind_complete_since_description := bind_complete_since_description st;
     extended_execution := extended_execution st; saw_bind_complete := saw_bind_complete st;
     phase_shape := phase_shape st |}.

Definition set_columns (c : list ParsedColumnMetadata) (r : ParsedQueryResult) : ParsedQueryResult :=
  {| rows := rows r; columns := c; parameter_type_ids := parameter_type_ids r; error := error r;
     affected_rows := affected_rows r; statement_kind := statement_kind r;
     execution_result_shape := execution_result_shape r;
     prepared_execution_authority := prepared_execution_authority r |}.

Definition set_rows (rs : list ResultRow) (r : ParsedQueryResult) : ParsedQueryResult :=
  {| rows := rs; columns := columns r; parameter_type_ids := parameter_type_ids r; error := error r;
     affected_rows := affected_rows r; statement_kind := statement_kind r;
     execution_result_shape := execution_result_shape r;
     prepared_execution_authority := prepared_execution_authority r |}.

Definition set_parameters (ps : list Z) (r : ParsedQueryResult) : ParsedQueryResult :=
  {| rows := rows r; columns := columns r; parameter_type_ids := ps; error := error r;
     affected_rows := affected_rows r; statement_kind := statement_kind r;
     execution_result_shape := execution_result_shape r;
     prepared_execution_authority := prepared_execution_authority r |}.

(** The completion fields. *)
Definition set_completion (kind : option StatementKind) (affected : Z)
    (shape : option ExecutionResultShape) (authority : bool) (r : ParsedQueryResult) : ParsedQueryResult :=
  {| rows := rows r; columns := columns r; parameter_type_ids := parameter_type_ids r; error := error r;
     affected_rows := affected; statement_kind := kind; execution_result_shape := shape;
     prepared_execution_authority := authority |}.

Section Extract.
Context (profile : PgCatalogProfile) (completed_idle : bool).

Definition on_row_description (st : Parser) (payload : bytes) : res Parser :=
  if has_row_description st &&
     (negb (bind_complete_since_description st) || negb (bool_decide (rows (current st) = []))) then
    Throw (runtime_error "duplicate PostgreSQL RowDescription within result")
  else
    columns ← read_row_description payload;
    Ok {| current := set_columns columns (current st); completed := completed st;
          has_row_description := true; bind_complete_since_description := false;
          extended_execution := extended_execution st; saw_bind_complete := saw_bind_complete st;
          phase_shape := Some ResultSet |}.

Definition on_data_row (st : Parser) (payload : bytes) : res Parser :=
  if negb (has_row_description st) then
    Throw (runtime_error "PostgreSQL DataRow arrived without RowDescription")
  else
    row ← parse_data_row payload;
    if negb (size row =? size (columns (current st))) then
      Throw (runtime_error "PostgreSQL DataRow column count differs from RowDescription")
    else Ok (set_current (set_rows (rows (current st) ++ [row]) (current st)) st).

Definition on_no_data (st : Parser) (payload : bytes) : res Parser :=
  if negb (beq payload []) || negb (bool_decide (rows (current st) = [])) ||
     (bool_decide (is_Some (phase_shape st)) && negb (bind_complete_since_description st)) then
    Throw (runtime_error "invalid PostgreSQL NoData description")
  else
    Ok {| current := set_columns [] (current st); completed := completed st;
          has_row_description := false; bind_complete_since_description := false;
          extended_execution := extended_execution st; saw_bind_complete := saw_bind_complete st;
          phase_shape := Some NoResultSet |}.

Definition on_bind_complete (st : Parser) (payload : bytes) : res Parser :=
  if negb (beq payload []) then Throw (runtime_error "invalid PostgreSQL BindComplete")
  else
    Ok {| current := current st; completed := completed st;
          has_row_description := has_row_description st; bind_complete_since_description := true;
          extended_execution := true; saw_bind_complete := true; phase_shape := None |}.

Definition set_extended (st : Parser) : Parser :=
  {| current := current st; completed := completed st;
     has_row_description := has_row_description st;
     bind_complete_since_description := bind_complete_since_description st;
     extended_execution := true; saw_bind_complete := saw_bind_complete st;
     phase_shape := phase_shape st |}.

Definition on_parse_complete (st : Parser) (payload : bytes) : res Parser :=
  if saw_bind_complete st then
    Throw (runtime_error "PostgreSQL ParseComplete after bound portal description")
  else if negb (beq payload []) then Throw (runtime_error "invalid PostgreSQL ParseComplete")
  else Ok (set_extended st).

Definition on_parameter_description (st : Parser) (payload : bytes) : res Parser :=
  if saw_bind_complete st then
    Throw (runtime_error "PostgreSQL ParameterDescription after bound portal description")
  else
    parameter_types ← read_parameter_description payload;
    Ok (set_current (set_parameters parameter_types (current st)) (set_extended st)).

(** The shape a completed execution publishes. *)
Definition published_shape (extended authority : bool) (phase : option ExecutionResultShape)
    : option ExecutionResultShape :=
  if extended && negb authority then None
  else if negb extended && bool_decide (phase = None) then Some NoResultSet
  else phase.

Definition on_command_complete (st : Parser) (payload : bytes) : res Parser :=
  '(command_tag, rest) ← read_cstring payload;
  match rest with
  | [] =>
      let authority := saw_bind_complete st && bool_decide (is_Some (phase_shape st)) in
      let shape := published_shape (extended_execution st) authority (phase_shape st) in
      let affected :=
        if bool_decide (profile = Redshift) && completed_idle && beq command_tag (str "SELECT") &&
           has_row_description st && bool_decide (shape = Some ResultSet)
        then size (rows (current st)) else command_affected_rows command_tag in
      Ok (complete (set_completion (Some (classify_command_tag command_tag)) affected shape authority
                      (current st)) st)
  | _ => Throw (runtime_error "invalid PostgreSQL CommandComplete length")
  end.

Definition on_empty_query (st : Parser) (payload : bytes) : res Parser :=
  if negb (beq payload []) then Throw (runtime_error "invalid PostgreSQL EmptyQueryResponse")
  else if negb (extended_execution st) then Ok st
  else if negb (saw_bind_complete st) || negb (bool_decide (phase_shape st = Some NoResultSet)) ||
          has_row_description st || negb (bool_decide (length (columns (current st)) = 0%nat)) ||
          negb (bool_decide (rows (current st) = [])) || bool_decide (is_Some (error_text <$> error (current st)))
  then Throw (runtime_error "PostgreSQL empty execution lacks bound NoData authority")
  else
    Ok (complete (set_completion (statement_kind (current st)) (affected_rows (current st))
                    (Some NoResultSet) true (current st)) st).

Definition query_error (fields : gmap Z bytes) : QueryError :=
  {| error_text := str "Query error: " ++ error_message fields; native_state := error_code fields |}.

Definition on_error (st : Parser) (payload : bytes) : res Parser :=
  fields ← decode_error_fields payload;
  Ok (complete {| rows := []; columns := []; parameter_type_ids := []; error := Some (query_error fields);
                  affected_rows := 0; statement_kind := None; execution_result_shape := None;
                  prepared_execution_authority := false |} st).

Definition result_step (st : Parser) (message : Message) : res Parser :=
  let t := tag message in
  if t =? ch "1" then on_parse_complete st (payload message)
  else if t =? ch "T" then on_row_description st (payload message)
  else if t =? ch "D" then on_data_row st (payload message)
  else if t =? ch "n" then on_no_data st (payload message)
  else if t =? ch "2" then on_bind_complete st (payload message)
  else if t =? ch "t" then on_parameter_description st (payload message)
  else if t =? ch "C" then on_command_complete st (payload message)
  else if t =? ch "I" then on_empty_query st (payload message)
  else if t =? ch "E" then on_error st (payload message)
  else Ok st.

End Extract.

(** A complete successful exchange that left the session idle. *)
Definition is_completed_idle (messages : list Message) : bool :=
  match list.last messages with
  | Some m => (tag m =? ch "Z") && beq (payload m) [ch "I"] &&
              forallb (fun m => negb (tag m =? ch "E")) messages
  | None => false
  end.

(** The first result and the additional ones. *)
Definition extract_query_result (profile : PgCatalogProfile) (messages : list Message)
    : res (ParsedQueryResult * list ParsedQueryResult) :=
  st ← for_each (result_step profile (is_completed_idle messages)) initial_parser messages;
  match completed st with
  | [] => Ok (current st, [])
  | first :: additional => Ok (first, additional)
  end.

(** ** The reference: reading a segment

    A segment is the messages between two completions.  Everything the machine
    keeps is a function of them. *)

Definition is_description (m : Message) : bool := (tag m =? ch "T") || (tag m =? ch "n").
Definition is_bind (m : Message) : bool := tag m =? ch "2".

(** The last message that satisfies a test, and the messages after it. *)
Definition last_by (p : Message -> bool) (h : list Message) : option Message := find p (rev h).

Fixpoint take_until (p : Message -> bool) (h : list Message) : list Message :=
  match h with
  | [] => []
  | m :: h => if p m then [] else m :: take_until p h
  end.
Definition since (p : Message -> bool) (h : list Message) : list Message := rev (take_until p (rev h)).

Definition shape_of (m : Message) : ExecutionResultShape :=
  if tag m =? ch "T" then ResultSet else NoResultSet.

(** A portal was bound, and what was described after the last bind. *)
Definition bound (h : list Message) : bool := existsb is_bind h.
Definition portal_shape (h : list Message) : option ExecutionResultShape :=
  shape_of <$> last_by is_description (since is_bind h).

Definition ok_or {A} (d : A) (r : res A) : A := match r with Ok a => a | Throw _ => d end.

Definition segment_rows (h : list Message) : list ResultRow :=
  map (fun m => ok_or [] (parse_data_row (payload m))) (List.filter (fun m => tag m =? ch "D") h).

Definition segment_columns (h : list Message) : list ParsedColumnMetadata :=
  match last_by is_description h with
  | Some m => if tag m =? ch "T" then ok_or [] (read_row_description (payload m)) else []
  | None => []
  end.

Definition segment_parameters (h : list Message) : list Z :=
  match last_by (fun m => tag m =? ch "t") h with
  | Some m => ok_or [] (read_parameter_description (payload m))
  | None => []
  end.

Definition segment_described (h : list Message) : bool :=
  match last_by is_description h with Some m => tag m =? ch "T" | None => false end.

Definition segment_current (h : list Message) : ParsedQueryResult :=
  {| rows := segment_rows h; columns := segment_columns h; parameter_type_ids := segment_parameters h;
     error := None; affected_rows := 0; statement_kind := None; execution_result_shape := None;
     prepared_execution_authority := false |}.

(** Execution authority: a bound portal that was described. *)
Definition segment_authority (h : list Message) : bool :=
  bound h && bool_decide (is_Some (portal_shape h)).

Definition marks_extended (m : Message) : bool :=
  (tag m =? ch "1") || (tag m =? ch "2") || (tag m =? ch "t").

Definition completes (extended : bool) (m : Message) : bool :=
  (tag m =? ch "C") || (tag m =? ch "E") || ((tag m =? ch "I") && extended).

(** The segments, each with its completion and whether the exchange was an
    extended one by then, and the messages after the last completion. *)
Fixpoint segments (extended : bool) (h msgs : list Message)
    : list (bool * list Message * Message) * list Message :=
  match msgs with
  | [] => ([], h)
  | m :: msgs =>
      if completes extended m
      then let '(segs, rest) := segments extended [] msgs in ((extended, h, m) :: segs, rest)
      else segments (extended || marks_extended m) (h ++ [m]) msgs
  end.

Definition segment_result (profile : PgCatalogProfile) (idle : bool)
    (seg : bool * list Message * Message) : ParsedQueryResult :=
  let '(extended, h, m) := seg in
  if tag m =? ch "C" then
    let command_tag := (ok_or ([], []) (read_cstring (payload m))).1 in
    let shape := published_shape extended (segment_authority h) (portal_shape h) in
    set_completion (Some (classify_command_tag command_tag))
      (if bool_decide (profile = Redshift) && idle && beq command_tag (str "SELECT") &&
          segment_described h && bool_decide (shape = Some ResultSet)
       then size (segment_rows h) else command_affected_rows command_tag)
      shape (segment_authority h) (segment_current h)
  else if tag m =? ch "E" then
    {| rows := []; columns := []; parameter_type_ids := [];
       error := Some (query_error (ok_or ∅ (decode_error_fields (payload m))));
       affected_rows := 0; statement_kind := None; execution_result_shape := None;
       prepared_execution_authority := false |}
  else set_completion None 0 (Some NoResultSet) true (segment_current h).

(** ** The machine computes the reference *)

Lemma last_by_snoc p h m : last_by p (h ++ [m]) = if p m then Some m else last_by p h.
Proof. unfold last_by. by rewrite rev_unit. Qed.

Lemma since_snoc p h m : since p (h ++ [m]) = if p m then [] else since p h ++ [m].
Proof. unfold since. rewrite rev_unit. cbn. by destruct (p m). Qed.

Lemma existsb_snoc {A} p (h : list A) m : existsb p (h ++ [m]) = existsb p h || p m.
Proof. rewrite existsb_app. cbn. by rewrite orb_false_r. Qed.

Lemma segment_rows_snoc h m : segment_rows (h ++ [m]) =
  if tag m =? ch "D" then segment_rows h ++ [ok_or [] (parse_data_row (payload m))] else segment_rows h.
Proof.
  unfold segment_rows. rewrite List.filter_app, map_app. cbn. destruct (tag m =? ch "D"); [done|].
  by rewrite app_nil_r.
Qed.

(** The machine's state after a segment's messages so far. *)
Definition machine (extended : bool) (h : list Message) (done : list ParsedQueryResult) : Parser :=
  {| current := segment_current h; completed := done; has_row_description := segment_described h;
     bind_complete_since_description := existsb is_bind (since is_description h);
     extended_execution := extended; saw_bind_complete := bound h; phase_shape := portal_shape h |}.

Lemma machine_snoc e h d t p :
  machine e (h ++ [{| tag := t; payload := p |}]) d =
  let description := (t =? ch "T") || (t =? ch "n") in
  {| current :=
       {| rows := if t =? ch "D" then segment_rows h ++ [ok_or [] (parse_data_row p)] else segment_rows h;
          columns := if description then if t =? ch "T" then ok_or [] (read_row_description p) else []
                     else segment_columns h;
          parameter_type_ids := if t =? ch "t" then ok_or [] (read_parameter_description p)
                                else segment_parameters h;
          error := None; affected_rows := 0; statement_kind := None; execution_result_shape := None;
          prepared_execution_authority := false |};
     completed := d;
     has_row_description := if description then t =? ch "T" else segment_described h;
     bind_complete_since_description :=
       if description then false else existsb is_bind (since is_description h) || (t =? ch "2");
     extended_execution := e;
     saw_bind_complete := bound h || (t =? ch "2");
     phase_shape := if t =? ch "2" then None
                    else if description then Some (if t =? ch "T" then ResultSet else NoResultSet)
                    else portal_shape h |}.
Proof.
  unfold machine, segment_current, segment_described, segment_columns, segment_parameters,
    bound, portal_shape.
  rewrite segment_rows_snoc, !last_by_snoc, !since_snoc, existsb_snoc.
  set (m := {| tag := t; payload := p |}).
  assert (is_description m = (t =? ch "T") || (t =? ch "n")) as Ed by done.
  assert (is_bind m = (t =? ch "2")) as Eb by done. cbn zeta. rewrite <- Ed, <- Eb.
  cbn [tag payload m].
  destruct (t =? ch "t"); destruct (is_description m) eqn:Ed'; destruct (is_bind m) eqn:Eb';
    rewrite ?existsb_snoc, ?last_by_snoc, ?Ed', ?Eb'; done.
Qed.

(** Reduce the tag tests of a message whose tag is known. *)
Ltac known_tag := cbn [Z.eqb Pos.eqb orb andb tag payload]; rewrite ?orb_false_r, ?orb_true_r.

Lemma machine_step profile idle extended h done m st :
  result_step profile idle (machine extended h done) m = Ok st ->
  st = if completes extended m
       then machine extended [] (done ++ [segment_result profile idle (extended, h, m)])
       else machine (extended || marks_extended m) (h ++ [m]) done.
Proof.
  destruct m as [t p]. unfold result_step, completes, marks_extended, segment_result.
  rewrite machine_snoc. cbn [tag payload].
  destruct (t =? ch "1") eqn:E1; zb.
  { subst t. known_tag. unfold on_parse_complete. destruct (saw_bind_complete _); [done|].
    destruct (negb _); [done|]. by intros [= <-]. }
  destruct (t =? ch "T") eqn:E2; zb.
  { subst t. known_tag. unfold on_row_description. destruct (_ && _); [done|].
    by intros (cols & -> & [= <-])%bind_Ok. }
  destruct (t =? ch "D") eqn:E3; zb.
  { subst t. known_tag. unfold on_data_row. destruct (negb _); [done|].
    intros (row & -> & H)%bind_Ok. destruct (negb _); [done|]. by injection H as <-. }
  destruct (t =? ch "n") eqn:E4; zb.
  { subst t. known_tag. unfold on_no_data. destruct (_ || _); [done|]. by intros [= <-]. }
  destruct (t =? ch "2") eqn:E5; zb.
  { subst t. known_tag. unfold on_bind_complete. destruct (negb _); [done|]. by intros [= <-]. }
  destruct (t =? ch "t") eqn:E6; zb.
  { subst t. known_tag. unfold on_parameter_description. destruct (saw_bind_complete _); [done|].
    by intros (ps & -> & [= <-])%bind_Ok. }
  destruct (t =? ch "C") eqn:E7; zb.
  { subst t. known_tag. unfold on_command_complete.
    intros ([tg rest] & -> & H)%bind_Ok. destruct rest; [|done]. by injection H as <-. }
  destruct (t =? ch "I") eqn:E8; zb.
  { subst t. known_tag. unfold on_empty_query. destruct (negb _); [done|].
    cbn [extended_execution machine]. destruct extended; cbn [negb]; [|by intros [= <-]].
    destruct (_ || _); [done|]. by intros [= <-]. }
  destruct (t =? ch "E") eqn:E9; zb.
  { subst t. known_tag. unfold on_error. by intros (fields & -> & [= <-])%bind_Ok. }
  intros [= <-]. by known_tag.
Qed.

Lemma machine_run profile idle msgs : forall extended h done st,
  for_each (result_step profile idle) (machine extended h done) msgs = Ok st ->
  let '(segs, rest) := segments extended h msgs in
  completed st = done ++ map (segment_result profile idle) segs /\ current st = segment_current rest.
Proof.
  induction msgs as [|m msgs IH]; intros extended h done st; cbn [for_each segments].
  - intros [= <-]. by rewrite app_nil_r.
  - intros (st' & ->%machine_step & H)%bind_Ok. destruct (completes extended m).
    + apply IH in H. destruct (segments extended [] msgs) as [segs rest]. destruct H as [-> ->].
      by rewrite <- app_assoc.
    + by apply IH in H.
Qed.


Definition sample_exchange : list Message :=
  [{| tag := ch "1"; payload := [] |}; {| tag := ch "2"; payload := [] |};
   {| tag := ch "T"; payload := [0; 1] ++ str "a" ++ [0; 0; 0; 0; 0; 0; 1; 0; 0; 0; 23; 0; 4; 255; 255; 255; 255; 0; 0] |};
   {| tag := ch "D"; payload := [0; 1; 0; 0; 0; 1; 55] |};
   {| tag := ch "C"; payload := str "SELECT 1" ++ [0] |};
   {| tag := ch "Z"; payload := [ch "I"] |}].


(** ** Well-formed results *)

(** What the rest of the driver relies on: one cell per column in every row; an
    error-only result carries no schema, rows or completion; execution authority
    comes with a published shape; rows only with a result-set shape. *)
Record result_ok (r : ParsedQueryResult) : Prop := {
  rows_arity : Forall (fun row => length row = length (columns r)) (rows r);
  error_only : error r <> None ->
    rows r = [] /\ columns r = [] /\ parameter_type_ids r = [] /\ statement_kind r = None /\
    execution_result_shape r = None /\ prepared_execution_authority r = false;
  authority_shape : prepared_execution_authority r = true -> execution_result_shape r <> None;
}.

(** The result being collected: rows only under a description, with its arity. *)
Record collecting (st : Parser) : Prop := {
  current_arity : Forall (fun row => length row = length (columns (current st))) (rows (current st));
  undescribed : has_row_description st = false -> rows (current st) = [];
  no_error : error (current st) = None;
  no_authority : prepared_execution_authority (current st) = false;
  completed_ok : Forall result_ok (completed st);
}.

Lemma collecting_empty done ext : Forall result_ok done ->
  collecting {| current := empty_result; completed := done; has_row_description := false;
     bind_complete_since_description := false; extended_execution := ext;
     saw_bind_complete := false; phase_shape := None |}.
Proof. intros H. by split. Qed.

Lemma collecting_complete st r : collecting st -> result_ok r -> collecting (complete r st).
Proof.
  intros [] Hr. apply collecting_empty. apply Forall_app. split; [done|]. by constructor.
Qed.

Lemma completion_ok kind n shape authority r :
  Forall (fun row => length row = length (columns r)) (rows r) -> error r = None ->
  (authority = true -> shape <> None) -> result_ok (set_completion kind n shape authority r).
Proof. intros Ha He Hs. split; cbn; [done| |done]. by rewrite He. Qed.

Lemma result_step_collecting profile idle st m st' :
  collecting st -> result_step profile idle st m = Ok st' -> collecting st'.
Proof.
  intros H. pose proof H as [Ha Hu He Hn Hc]. unfold result_step.
  destruct (tag m =? ch "1").
  { unfold on_parse_complete. repeat case_match; try done. intros [= <-]. by split. }
  destruct (tag m =? ch "T").
  { unfold on_row_description. destruct (_ && _) eqn:E; [done|].
    intros (cols & _ & [= <-])%bind_Ok. split; cbn; try done. enough (rows (current st) = []) as -> by done.
    destruct (has_row_description st); [|by apply Hu]. cbn in E. zb.
    match goal with H : bool_decide _ = true |- _ => by apply bool_decide_eq_true in H end. }
  destruct (tag m =? ch "D").
  { unfold on_data_row. destruct (negb (has_row_description st)) eqn:Ed; [done|]. zb.
    intros (row & _ & E)%bind_Ok. destruct (negb _) eqn:El; [done|]. injection E as <-. zb.
    split; cbn; try done; [|congruence]. apply Forall_app. split; [done|]. constructor; [|done].
    unfold size in El. lia. }
  destruct (tag m =? ch "n").
  { unfold on_no_data. destruct (_ || _) eqn:E; [done|]. intros [= <-].
    apply orb_false_iff in E as [E _]. apply orb_false_iff in E as [_ E]. zb.
    apply bool_decide_eq_true in E. split; cbn; try done. by rewrite E. }
  destruct (tag m =? ch "2").
  { unfold on_bind_complete. destruct (negb _); [done|]. intros [= <-]. by split. }
  destruct (tag m =? ch "t").
  { unfold on_parameter_description. destruct (saw_bind_complete st); [done|].
    intros (ps & _ & [= <-])%bind_Ok. by split. }
  destruct (tag m =? ch "C").
  { unfold on_command_complete. intros ([tg rest] & _ & E)%bind_Ok. destruct rest; [|done].
    injection E as <-. apply collecting_complete; [done|]. apply completion_ok; [done|done|].
    unfold published_shape. intros Hauth. rewrite Hauth. cbn [negb]. rewrite andb_false_r.
    apply andb_true_iff in Hauth as [_ Hs]. apply bool_decide_eq_true in Hs as [s ->].
    rewrite bool_decide_false by done. by rewrite andb_false_r. }
  destruct (tag m =? ch "I").
  { unfold on_empty_query. destruct (negb _); [done|]. destruct (negb _); [by intros [= <-]|].
    destruct (_ || _); [done|]. intros [= <-]. apply collecting_complete; [done|]. by apply completion_ok. }
  destruct (tag m =? ch "E").
  { unfold on_error. intros (fields & _ & [= <-])%bind_Ok. apply collecting_complete; [done|]. by split. }
  by intros [= <-].
Qed.

(** C2. Every result the driver publishes is well formed, whatever the server
    sent: each row has exactly one cell per column of its own description, an
    error result carries no rows, schema or completion, and a result that claims
    prepared execution authority publishes a shape. *)
Theorem extract_query_result_ok (profile : PgCatalogProfile) (messages : list Message)
    (first : ParsedQueryResult) (additional : list ParsedQueryResult) :
  extract_query_result profile messages = Ok (first, additional) ->
  Forall result_ok (first :: additional).
Proof.
  unfold extract_query_result. intros (st & H & E)%bind_Ok.
  apply (for_each_inv _ (fun _ => collecting)) in H.
  - destruct H as [Ha Hu He Hn Hc]. destruct (completed st) as [|r rs]; injection E as <- <-; [|done].
    constructor; [|done]. split; [done|by rewrite He|by rewrite Hn].
  - by apply collecting_empty.
  - intros _ x acc acc'. apply result_step_collecting.
Qed.

Lemma extract_query_result_ok_witness :
  exists r, extract_query_result Redshift sample_exchange = Ok (r, []) /\ result_ok r.
Proof.
  destruct (extract_query_result Redshift sample_exchange) as [[r more]|e] eqn:E;
    [|exfalso; vm_compute in E; discriminate].
  exists r. split; [vm_compute in E |- *; congruence|].
  exact (Forall_inv (extract_query_result_ok Redshift sample_exchange r more E)).
Defined.

(** ** Framing *)

(** What a frame must hold beyond its own length. *)
Definition message_valid (m : Message) : Prop :=
  4 + size (payload m) <= UINT32_MAX /\
  (fixed_length_tag (tag m) = true -> payload m = []) /\
  (tag m = ch "K" -> size (payload m) = 8) /\
  (tag m = ch "N" -> is_ok (decode_error_fields (payload m)) = true) /\
  (tag m = ch "A" -> exists pid channel text,
     payload m = pid ++ cstring channel ++ cstring text /\ length pid = 4%nat /\
     no_nul channel /\ no_nul text).

Lemma check_notification_exact p :
  check_notification p = Ok tt <->
  exists pid channel text,
    p = pid ++ cstring channel ++ cstring text /\ length pid = 4%nat /\ no_nul channel /\ no_nul text.
Proof.
  unfold check_notification. split.
  - destruct (size p <? 6) eqn:E; [done|]. zb.
    intros ([c r1] & (E1 & Hc)%read_cstring_inv & H)%bind_Ok.
    apply bind_Ok in H as ([t r2] & (-> & Ht)%read_cstring_inv & H). destruct r2; [|done].
    exists (take 4 p), c, t. rewrite app_nil_r in E1. rewrite <- E1, take_drop.
    split; [done|]. split; [|done]. rewrite length_take. unfold size in E. lia.
  - intros (pid & c & t & -> & Hl & Hc & Ht).
    assert (size pid = 4) by (unfold size; lia). pose proof (size_nonneg c). pose proof (size_nonneg t).
    replace (size _ <? 6) with false by (sizes; lia).
    rewrite <- Hl, drop_app_length, read_cstring_cstring by done. mcbn.
    rewrite <- (app_nil_r (cstring t)), read_cstring_cstring by done. done.
Qed.

Lemma parse_message_frame t p :
  message_valid {| tag := t; payload := p |} ->
  parse_message (frame t p) = Ok {| tag := t; payload := p |}.
Proof.
  intros (Hn & Hf & Hk & Hnt & Ha). cbn [tag payload] in *. unfold parse_message.
  pose proof (size_nonneg p). rewrite frame_size. ztest.
  change (nth 0 (frame t p) 0) with t. change (drop 1 (frame t p)) with (be32 (4 + size p) ++ p).
  change (drop 5 (frame t p)) with p.
  rewrite read_u32_be32 by lia. mcbn.
  replace ((4 + size p <? 4) || negb (5 + size p - 1 =? 4 + size p)) with false by lia.
  replace (fixed_length_tag t && negb (4 + size p =? 4)) with false
    by (destruct (fixed_length_tag t); [rewrite Hf by done; done|done]).
  replace ((t =? ch "K") && negb (size p =? 8)) with false
    by (destruct (t =? ch "K") eqn:E; [zb; rewrite Hk by done; done|done]).
  destruct (t =? ch "N") eqn:En; zb; mcbn.
  - specialize (Hnt En). by destruct (decode_error_fields p).
  - destruct (t =? ch "A") eqn:Ea; zb; [|done]. apply Ha, check_notification_exact in Ea. by rewrite Ea.
Qed.

(** A server message is accepted exactly when its length field is the length
    of what was received and its payload is one the protocol allows for its tag:
    no payload for the fixed-length acknowledgements, eight bytes of key data, a
    complete field list in a notice, and a process id and two strings in a
    notification; framing it again gives the bytes received. *)
Theorem parse_message_exact (data : bytes) (m : Message) :
  bytes_ok data ->
  (parse_message data = Ok m <-> data = frame (tag m) (payload m) /\ message_valid m).
Proof.
  intros Hok. split; [|destruct m; intros [-> H]; by apply parse_message_frame].
  unfold parse_message. destruct (size data <? 5) eqn:E0; [done|]. zb.
  destruct data as [|t data]; [done|]. inv_forall.
  change (drop 1 (t :: data)) with data. change (drop 5 (t :: data)) with (drop 4 data).
  change (nth 0 (t :: data) 0) with t.
  intros ([len rest] & (-> & Hlen & _)%read_u32_inv & E)%bind_Ok; [|done].
  rewrite size_cons, size_app, size_be32 in *.
  destruct ((len <? 4) || _) eqn:E1; [done|]. zb.
  destruct (fixed_length_tag t && _) eqn:E2; [done|].
  change (drop 4 (be32 len ++ rest)) with rest in E.
  destruct ((t =? ch "K") && _) eqn:E3; [done|].
  apply bind_Ok in E as ([] & Hchk & [= <-]). cbn [tag payload].
  assert (len = 4 + size rest) as -> by lia. split; [done|]. split; cbn [tag payload]; [lia|].
  split; [|split; [|split]].
  - intros Hf. rewrite Hf in E2. cbn in E2. zb. destruct rest; [done|].
    rewrite size_cons in E2. pose proof (size_nonneg rest). lia.
  - intros ->. cbn in E3. by zb.
  - intros ->. cbn [Z.eqb Pos.eqb] in Hchk. by destruct (decode_error_fields rest).
  - intros ->. cbn [Z.eqb Pos.eqb] in Hchk. by apply check_notification_exact.
Qed.

Lemma parse_message_exact_witness :
  parse_message [ch "Z"; 0; 0; 0; 5; ch "I"] = Ok {| tag := ch "Z"; payload := [ch "I"] |}.
Proof.
  apply parse_message_exact.
  - repeat (apply Forall_cons; [done|]). apply Forall_nil.
  - split; [reflexivity|]. by repeat split.
Defined.
