(* ===== verification/Backend.v ===== *)
(** * The data sessions exchange

    [sdk/include/odbcpp/util/result.h], [database/backend_result.h],
    [database/query_result.h], [database/native_type_info.h] and the limits of
    [database/i_database_connection.h]: error codes and their classes, the state
    a session reports, results and resource limits.  The message, the native
    code, the retry hint and the public label of an error are not modelled. *)

From S2P Require Import Prelude Utf8 PgIeee PgResult.

(** ** Errors *)

(** A [std::error_code]: the codes of the database category, and of the codes of
    other categories only [std::errc::timed_out] is told apart. *)
Inductive DbErrorCode :=
| ConnectionFailed | AuthenticationFailed | QueryFailed | Timeout | NetworkError | TLSError
| InvalidParameter | NotConnected | ProtocolError | UnsupportedFeature | ResourceLimit | AllocationFailure
| SystemTimedOut | OtherError.
#[export] Instance DbErrorCode_eq_dec : EqDecision DbErrorCode. Proof. solve_decision. Defined.

Inductive BackendOperation :=
| OpUnknown | OpExecuteDirect | OpExecutePrepared | OpDescribe | OpTransaction
| OpBeginTransaction | OpCommitTransaction | OpRollbackTransaction | OpSetTransactionIsolation
| OpConnect | OpAuthenticate | OpStartup | OpResolveTypes | OpCheckHealth | OpResetSession | OpInspectSession
| OpBuildCatalogQuery | OpExecuteCatalog.
#[export] Instance BackendOperation_eq_dec : EqDecision BackendOperation. Proof. solve_decision. Defined.

Inductive BackendErrorClass :=
| CUnknown | CConnection | CAuthentication | CServer | CTimeout | CTransport | CTls
| CInvalidInput | CNotConnected | CProtocol | CUnsupported | CInvalidMetadata | CResourceLimit | CAllocationFailure.
#[export] Instance BackendErrorClass_eq_dec : EqDecision BackendErrorClass. Proof. solve_decision. Defined.

Definition classify_backend_error (code : DbErrorCode) : BackendErrorClass :=
  match code with
  | SystemTimedOut => CTimeout
  | OtherError => CUnknown
  | ConnectionFailed => CConnection
  | AuthenticationFailed => CAuthentication
  | QueryFailed => CServer
  | Timeout => CTimeout
  | NetworkError => CTransport
  | TLSError => CTls
  | InvalidParameter => CInvalidInput
  | NotConnected => CNotConnected
  | ProtocolError => CProtocol
  | UnsupportedFeature => CUnsupported
  | ResourceLimit => CResourceLimit
  | AllocationFailure => CAllocationFailure
  end.

(** ** What a session reports of itself *)

Inductive SessionState := Disconnected | Idle | InTransaction | FailedTransaction | UnknownState.
Inductive SessionDisposition := Reusable | ResetRequired | Retire.
#[export] Instance SessionState_eq_dec : EqDecision SessionState. Proof. solve_decision. Defined.
#[export] Instance SessionDisposition_eq_dec : EqDecision SessionDisposition. Proof. solve_decision. Defined.

Record SessionSnapshot := { snapshot_state : SessionState; disposition : SessionDisposition }.
#[export] Instance SessionSnapshot_eq_dec : EqDecision SessionSnapshot. Proof. solve_decision. Defined.
Definition idle_reusable : SessionSnapshot := {| snapshot_state := Idle; disposition := Reusable |}.

(** ** Results *)

Inductive ScalarType :=
| SBoolean | SBinary | SChar | SVarChar | SBigInt | SSmallInt | SInteger | SReal | SDouble
| SDate | STime | STimestamp | SNumeric | SDecimal | SLongVarChar | SLongVarBinary.
#[export] Instance ScalarType_eq_dec : EqDecision ScalarType. Proof. solve_decision. Defined.

Record NativeTypeInfo := {
  scalar : ScalarType; column_size : Z; decimal_digits : Z; known : bool;
  declared_type : option ScalarType; declared_column_size : option Z; type_name : option bytes }.
#[export] Instance NativeTypeInfo_eq_dec : EqDecision NativeTypeInfo. Proof. solve_decision. Defined.

Record CharacterMetadataPolicy := {
  varchar_threshold : Z; long_varchar_size : Z; boolean_as_character : bool }.

Definition valid_character_metadata_policy (policy : CharacterMetadataPolicy) : bool :=
  (varchar_threshold policy <=? 2 ^ 31 - 1) && (long_varchar_size policy <=? 2 ^ 31 - 1).

(** [native] presented as [type] with [size], the native family and size kept. *)
Definition present (native : NativeTypeInfo) (type : ScalarType) (size : Z) : NativeTypeInfo :=
  {| scalar := type; column_size := size; decimal_digits := decimal_digits native; known := known native;
     declared_type := Some (scalar native); declared_column_size := Some (column_size native);
     type_name := type_name native |}.

Definition apply_character_metadata_policy (native : NativeTypeInfo) (policy : CharacterMetadataPolicy)
    : NativeTypeInfo :=
  if known native && bool_decide (scalar native = SBoolean) && boolean_as_character policy
  then present native SVarChar 1
  else if negb (known native) || (varchar_threshold policy =? 0) ||
          (column_size native <=? varchar_threshold policy) ||
          (negb (bool_decide (scalar native = SChar)) && negb (bool_decide (scalar native = SVarChar)))
  then native
  else present native SLongVarChar
         (if long_varchar_size policy =? 0 then column_size native else long_varchar_size policy).

Definition declared_character_metadata (native : NativeTypeInfo) : NativeTypeInfo :=
  match declared_type native, declared_column_size native with
  | Some t, Some n =>
      {| scalar := t; column_size := n; decimal_digits := decimal_digits native; known := known native;
         declared_type := None; declared_column_size := None; type_name := type_name native |}
  | _, _ => native
  end.

Record ResultColumnMetadata := { column_name : bytes; normalized_type : option NativeTypeInfo }.
Record CellEncodingError := { error_row : nat; error_column : nat }.

Record BackendError := { error_code : DbErrorCode; error_state : SessionState; error_disposition : SessionDisposition }.

Inductive DescribedResultShape := DescribesNoResultSet | DescribesResultSet.
#[export] Instance DescribedResultShape_eq_dec : EqDecision DescribedResultShape. Proof. solve_decision. Defined.

#[warnings="-register-all"]
Inductive QueryResult := MkQueryResult {
  q_rows : list (list (option bytes)); q_columns : list ResultColumnMetadata; q_error : option BackendError;
  q_affected_rows : Z; additional_results : list QueryResult; q_statement_kind : option StatementKind;
  normalized_parameter_types : list NativeTypeInfo; cell_errors : list CellEncodingError;
  described_result_shape : option DescribedResultShape; q_execution_shape : option ExecutionResultShape;
  result_id : Z }.

Definition empty_query_result : QueryResult :=
  {| q_rows := []; q_columns := []; q_error := None; q_affected_rows := 0; additional_results := [];
     q_statement_kind := None; normalized_parameter_types := []; cell_errors := [];
     described_result_shape := None; q_execution_shape := None; result_id := 0 |}.

Inductive BackendResult (T : Type) := Good (value : T) (snapshot : SessionSnapshot) | Bad (e : BackendError).
Arguments Good {T} value snapshot.
Arguments Bad {T} e.

Definition error_snapshot (e : BackendError) : SessionSnapshot :=
  {| snapshot_state := error_state e; disposition := error_disposition e |}.
Definition session_snapshot {T} (r : BackendResult T) : SessionSnapshot :=
  match r with Good _ s => s | Bad e => error_snapshot e end.

(** [BackendError{code, {}}]: nothing is known of the session. *)
Definition plain_error (c : DbErrorCode) : BackendError :=
  {| error_code := c; error_state := UnknownState; error_disposition := Retire |}.

Inductive LocalFailure := InvalidInput | Unsupported.
Definition local_backend_error (kind : LocalFailure) (st : SessionState) : BackendError :=
  {| error_code := match kind with InvalidInput => InvalidParameter | Unsupported => UnsupportedFeature end;
     error_state := st;
     error_disposition := match st with Disconnected => Retire | Idle => Reusable | _ => ResetRequired end |}.

(** ** Limits *)

Record ResponseLimits := { max_wire_bytes : Z; max_messages : Z }.
Record InputLimits := {
  max_sql_bytes : Z; max_parameters : Z; max_parameter_bytes : Z; max_parameter_total_bytes : Z;
  max_connection_field_bytes : Z; max_request_wire_bytes : Z; max_startup_wire_bytes : Z;
  max_auth_wire_bytes : Z }.
Record ResultLimits := {
  max_rows : Z; max_cells : Z; max_columns_per_description : Z; max_results : Z;
  max_metadata_entries : Z; max_column_name_bytes : Z; max_metadata_name_bytes : Z;
  max_diagnostic_bytes : Z }.

(** A difference and a sum of [std::size_t]. *)
Definition size_sub (a b : Z) : Z := (a - b) mod 2 ^ 64.
Definition size_add (a b : Z) : Z := (a + b) mod 2 ^ 64.

(** ** Settings *)

Inductive RedshiftCatalogMode := Show_ | Legacy.
#[export] Instance RedshiftCatalogMode_eq_dec : EqDecision RedshiftCatalogMode. Proof. solve_decision. Defined.
Inductive CatalogDatabaseScope := CurrentDatabase | VisibleDatabases.
#[export] Instance CatalogDatabaseScope_eq_dec : EqDecision CatalogDatabaseScope. Proof. solve_decision. Defined.

Record NativeIdpSettings := {
  idp_token : bytes; idp_type : bytes; provider_name : bytes; token_type : bytes;
  identity_namespace : bytes; plugin_name : bytes }.

Record ConnectionSettings := {
  cs_host : bytes; cs_user : bytes; cs_password : bytes; cs_database : bytes; cs_port : Z; cs_timeout : Z;
  cs_use_ssl : bool; cs_ssl_ca_file : bytes; cs_ssl_ca_dir : bytes;
  response_limits : ResponseLimits; result_limits : ResultLimits; input_limits : InputLimits;
  startup_response_limits : ResponseLimits; redshift_catalog_mode : option RedshiftCatalogMode;
  application_name : option bytes; cs_native_idp : option NativeIdpSettings; read_only : bool;
  character_metadata : CharacterMetadataPolicy; detailed_table_types : bool;
  catalog_database_scope : CatalogDatabaseScope }.

(** The settings a default-constructed [ConnectionSettings] has. *)
Definition default_settings : ConnectionSettings := {|
  cs_host := []; cs_user := []; cs_password := []; cs_database := []; cs_port := 0; cs_timeout := 15000;
  cs_use_ssl := true; cs_ssl_ca_file := []; cs_ssl_ca_dir := [];
  response_limits := {| max_wire_bytes := 64 * 1024 * 1024; max_messages := 100000 |};
  result_limits := {| max_rows := 1000000; max_cells := 4000000; max_columns_per_description := 4096;
                      max_results := 1024; max_metadata_entries := 65536; max_column_name_bytes := 1024;
                      max_metadata_name_bytes := 1024 * 1024; max_diagnostic_bytes := 16 * 1024 |};
  input_limits := {| max_sql_bytes := 1024 * 1024; max_parameters := 65535; max_parameter_bytes := 16 * 1024 * 1024;
                     max_parameter_total_bytes := 64 * 1024 * 1024; max_connection_field_bytes := 64 * 1024;
                     max_request_wire_bytes := 128 * 1024 * 1024; max_startup_wire_bytes := 1024 * 1024;
                     max_auth_wire_bytes := 1024 * 1024 |};
  startup_response_limits := {| max_wire_bytes := 1024 * 1024; max_messages := 10000 |};
  redshift_catalog_mode := None; application_name := None; cs_native_idp := None; read_only := false;
  character_metadata := {| varchar_threshold := 0; long_varchar_size := 0; boolean_as_character := false |};
  detailed_table_types := true; catalog_database_scope := CurrentDatabase |}.

Inductive TlsTrustSource := System | CustomFile | CustomDirectory.
Inductive TlsTrustConflict :=
| NoConflict | FileAndDirectory | SettingsWithoutTls | SystemWithCustom | CustomWithoutLocation.
#[export] Instance TlsTrustConflict_eq_dec : EqDecision TlsTrustConflict. Proof. solve_decision. Defined.

Definition select_tls_trust_source (use_tls : bool) (use_system : option bool) (ca_file ca_directory : bytes)
    : TlsTrustSource * TlsTrustConflict :=
  let file := negb (beq ca_file []) in
  let directory := negb (beq ca_directory []) in
  if negb use_tls then
    (System, if file || directory || bool_decide (is_Some use_system) then SettingsWithoutTls else NoConflict)
  else if file && directory then (System, FileAndDirectory)
  else if bool_decide (use_system = Some true) && (file || directory) then (System, SystemWithCustom)
  else if bool_decide (use_system = Some false) && negb file && negb directory then (System, CustomWithoutLocation)
  else if file then (CustomFile, NoConflict)
  else if directory then (CustomDirectory, NoConflict)
  else (System, NoConflict).

Definition valid_resource_limits (s : ConnectionSettings) : bool :=
  let input := input_limits s in
  (5 <=? max_wire_bytes (response_limits s)) && (0 <? max_messages (response_limits s)) &&
  (5 <=? max_wire_bytes (startup_response_limits s)) && (0 <? max_messages (startup_response_limits s)) &&
  (0 <? max_results (result_limits s)) &&
  (max_sql_bytes input <=? 64 * 1024 * 1024) && (max_parameters input <=? 65535) &&
  (max_parameter_bytes input <=? 64 * 1024 * 1024) && (max_parameter_total_bytes input <=? 256 * 1024 * 1024) &&
  (max_connection_field_bytes input <=? 1024 * 1024) && (max_request_wire_bytes input <=? 1024 * 1024 * 1024) &&
  (max_startup_wire_bytes input <=? 1024 * 1024 * 1024) && (max_auth_wire_bytes input <=? 1024 * 1024 * 1024).

(** ** Presentation keeps what it replaces *)

(** Restoring the declared metadata of a presented type gives the native type
    back, and a type that was not presented is left as it is. *)
Lemma declared_of_presented native policy :
  declared_type native = None -> declared_column_size native = None ->
  declared_character_metadata (apply_character_metadata_policy native policy) = native.
Proof.
  destruct native as [sc n d k dt dn tn]; cbn. intros -> ->. unfold apply_character_metadata_policy.
  repeat match goal with |- context [if ?b then _ else _] => destruct b eqn:? end; reflexivity.
Qed.
