(* ===== verification/Scram.v ===== *)
(** * SCRAM-SHA-256

    The client of [src/core/database/postgres/scram_sha256.cpp].  The hash, the
    keyed hash and the key derivation are OpenSSL's, so they are parameters of
    the model with the size of their digests as the only fact about them.

    [scram_server_verifies] and [server_final_message] are what RFC 5802 asks of
    the server; the theorems show that the client convinces such a server, that
    it accepts that server's signature, and that it accepts nothing else. *)

From S2P Require Import Prelude Digits Base64.

Definition kDigestSize : Z := 32.
Definition kMaximumIterations : Z := 10000000.

(** [base64_decode] of this file: an empty value is refused. *)
Definition scram_base64_decode (input : bytes) : res bytes :=
  match input with
  | [] => Throw (runtime_error "invalid SCRAM base64 value")
  | _ => base64_decode input
  end.

(** ** Attributes *)

Definition add_attribute (attributes : gmap Z bytes) (attribute : bytes) : res (gmap Z bytes) :=
  match attribute with
  | key :: eq :: v :: rest =>
      if negb (eq =? ch "=") then Throw (runtime_error "invalid SCRAM attribute list")
      else
        match attributes !! key with
        | Some _ => Throw (runtime_error "invalid SCRAM attribute list")
        | None => Ok (<[key := v :: rest]> attributes)
        end
  | _ => Throw (runtime_error "invalid SCRAM attribute list")
  end.

Definition parse_attributes (message : bytes) : res (gmap Z bytes) :=
  for_each add_attribute ∅ (split_on (ch ",") message).

Definition escape_username (user : bytes) : bytes :=
  flat_map (fun c => if c =? ch "=" then str "=3D" else if c =? ch "," then str "=2C" else [c]) user.

(** ** The client *)

Record ScramSha256Client := {
  password_ : bytes;
  client_nonce_ : bytes;
  client_first_bare_ : bytes;
  server_first_ : bytes;
  client_final_without_proof_ : bytes;
  expected_server_signature_ : bytes;
  server_first_received_ : bool;
}.

Definition make_client (user password client_nonce : bytes) : res ScramSha256Client :=
  if beq client_nonce [] || bool_decide (is_Some (find_char (ch ",") client_nonce)) then
    Throw (invalid_argument "invalid SCRAM client nonce")
  else
    Ok {| password_ := password; client_nonce_ := client_nonce;
          client_first_bare_ := str "n=" ++ escape_username user ++ str ",r=" ++ client_nonce;
          server_first_ := []; client_final_without_proof_ := [];
          expected_server_signature_ := replicate 32 0; server_first_received_ := false |}.

Definition client_first_message (c : ScramSha256Client) : bytes := str "n,," ++ client_first_bare_ c.

(** [generate_scram_nonce], from the 18 bytes the random source gave. *)
Definition generate_scram_nonce (random : bytes) : res bytes := base64_encode random.

Definition xor_bytes (a b : bytes) : bytes := zip_with Z.lxor a b.

Abbreviation no_comma := (Forall (fun c => c <> 44)).

Section Scram.
Context (sha256 : bytes -> bytes) (hmac_sha256 : bytes -> bytes -> bytes)
        (pbkdf2_hmac_sha256 : bytes -> bytes -> Z -> bytes).

Definition parse_iterations (text : bytes) : res Z :=
  match from_chars_unsigned (2 ^ 32 - 1) text with
  | FromChars n [] =>
      if (n =? 0) || (kMaximumIterations <? n) then Throw (runtime_error "invalid SCRAM iteration count")
      else Ok n
  | _ => Throw (runtime_error "invalid SCRAM iteration count")
  end.

Definition authentication_message (c : ScramSha256Client) (server_first final : bytes) : bytes :=
  client_first_bare_ c ++ str "," ++ server_first ++ str "," ++ final.

(** The answer and the client's new state; an exception leaves the state. *)
Definition receive_server_first (c : ScramSha256Client) (message : bytes)
    : res (bytes * ScramSha256Client) :=
  if server_first_received_ c then Throw (runtime_error "duplicate SCRAM server-first message")
  else
    attributes ← parse_attributes message;
    match attributes !! ch "m" with
    | Some _ => Throw (runtime_error "unsupported mandatory SCRAM extension")
    | None =>
        match attributes !! ch "r", attributes !! ch "s", attributes !! ch "i" with
        | Some nonce, Some salt_value, Some iteration_value =>
            if negb (starts_with nonce (client_nonce_ c)) || (size nonce <=? size (client_nonce_ c)) then
              Throw (runtime_error "invalid SCRAM server-first message")
            else
              iterations ← parse_iterations iteration_value;
              salt ← scram_base64_decode salt_value;
              let salted := pbkdf2_hmac_sha256 (password_ c) salt iterations in
              let client_key := hmac_sha256 salted (str "Client Key") in
              let stored_key := sha256 client_key in
              let final := str "c=biws,r=" ++ nonce in
              let auth := authentication_message c message final in
              let client_signature := hmac_sha256 stored_key auth in
              let client_proof := xor_bytes client_key client_signature in
              let server_key := hmac_sha256 salted (str "Server Key") in
              proof ← base64_encode client_proof;
              Ok (final ++ str ",p=" ++ proof,
                  {| password_ := password_ c; client_nonce_ := client_nonce_ c;
                     client_first_bare_ := client_first_bare_ c; server_first_ := message;
                     client_final_without_proof_ := final;
                     expected_server_signature_ := hmac_sha256 server_key auth;
                     server_first_received_ := true |})
        | _, _, _ => Throw (runtime_error "invalid SCRAM server-first message")
        end
    end.

Definition verify_server_final (c : ScramSha256Client) (message : bytes) : res unit :=
  if negb (server_first_received_ c) then
    Throw (runtime_error "SCRAM server-final message arrived out of sequence")
  else
    attributes ← parse_attributes message;
    match attributes !! ch "e" with
    | Some e => Throw (runtime_error_text (str "SCRAM authentication failed: " ++ e))
    | None =>
        match attributes !! ch "v" with
        | None => Throw (runtime_error "SCRAM server signature is missing")
        | Some verifier =>
            decoded ← scram_base64_decode verifier;
            if beq decoded (expected_server_signature_ c) then Ok tt
            else Throw (runtime_error "SCRAM server signature verification failed")
        end
    end.

(** ** The server of RFC 5802

    It knows the salted password's stored and server keys only. *)

Definition stored_key (salted : bytes) : bytes := sha256 (hmac_sha256 salted (str "Client Key")).
Definition server_key (salted : bytes) : bytes := hmac_sha256 salted (str "Server Key").

Definition server_first_message (nonce salt : bytes) (iterations : Z) : bytes :=
  str "r=" ++ nonce ++ str ",s=" ++ base64_text salt ++ str ",i=" ++ to_string iterations.

(** The client's final message is [c=biws,r=<nonce>,p=<proof>]; the server
    recovers the client key from the proof and hashes it. *)
Definition scram_server_verifies (stored first_bare server_first final_without_proof proof : bytes) : Prop :=
  let auth := first_bare ++ str "," ++ server_first ++ str "," ++ final_without_proof in
  sha256 (xor_bytes proof (hmac_sha256 stored auth)) = stored.

Definition server_final_message (key first_bare server_first final_without_proof : bytes) : bytes :=
  str "v=" ++ base64_text (hmac_sha256 key
    (first_bare ++ str "," ++ server_first ++ str "," ++ final_without_proof)).

(** ** Lemmas *)

Lemma alphabet_no_comma i : alphabet_at i <> ch ",".
Proof.
  unfold alphabet_at. destruct (nth_in_or_default (Z.to_nat i) kAlphabet 0) as [H|H]; [|by rewrite H].
  intros E. rewrite E in H. cbn in H. repeat (destruct H as [H|H]; [done|]). done.
Qed.

Lemma base64_text_no_comma s : no_comma (base64_text s).
Proof.
  induction s as [|a|a b|a b c s IH] using triple_ind; cbn [base64_text].
  - constructor.
  - repeat constructor; try done; apply alphabet_no_comma.
  - repeat constructor; try done; apply alphabet_no_comma.
  - apply Forall_app. split; [|done]. repeat constructor; try done; apply alphabet_no_comma.
Qed.

Lemma base64_text_nonempty s : s <> [] -> base64_text s <> [].
Proof. by destruct s as [|? [|? [|? ?]]]. Qed.

Lemma xor_cancel a b : length a = length b -> xor_bytes (xor_bytes a b) b = a.
Proof.
  revert b. induction a as [|x a IH]; intros [|y b] H; try done. cbn in *.
  rewrite IH by lia. by rewrite Z.lxor_assoc, Z.lxor_nilpotent, Z.lxor_0_r.
Qed.

Lemma to_string_from_chars n : 0 <= n -> from_chars_unsigned (2 ^ 32 - 1) (to_string n) =
  if n <=? 2 ^ 32 - 1 then FromChars n [] else FromCharsRange [].
Proof.
  intros Hn. destruct (to_string_spec n Hn) as (Hd & Hne & Hv & _). unfold from_chars_unsigned.
  rewrite <- (app_nil_r (to_string n)) at 1. rewrite (span_exact isdigit) by done.
  destruct (to_string n) as [|d ds] eqn:E; [done|]. by rewrite Hv.
Qed.

Lemma digits_no_comma s : digits s -> no_comma s.
Proof. intros H. eapply List.Forall_impl; [|exact H]. intros c Hc%isdigit_spec. lia. Qed.

(** An attribute [k=v]. *)
Definition attribute (k : Z) (v : bytes) : bytes := k :: ch "=" :: v.

Lemma add_attribute_new attributes k v : v <> [] -> attributes !! k = None ->
  add_attribute attributes (attribute k v) = Ok (<[k := v]> attributes).
Proof. intros Hv Hk. destruct v as [|c v]; [done|]. cbn. by rewrite Hk. Qed.

Lemma attribute_no_comma k v : k <> ch "," -> no_comma v -> no_comma (attribute k v).
Proof. intros. by repeat constructor. Qed.

Lemma parse_server_first nonce salt iterations :
  nonce <> [] -> no_comma nonce -> salt <> [] -> 0 <= iterations ->
  exists attributes,
    parse_attributes (server_first_message nonce salt iterations) = Ok attributes /\
    attributes !! ch "m" = None /\ attributes !! ch "r" = Some nonce /\
    attributes !! ch "s" = Some (base64_text salt) /\
    attributes !! ch "i" = Some (to_string iterations).
Proof.
  intros Hn Hc Hs Hi. destruct (to_string_spec iterations Hi) as (Hd & Hne & _).
  unfold parse_attributes, server_first_message.
  change (str "r=" ++ nonce ++ str ",s=" ++ base64_text salt ++ str ",i=" ++ to_string iterations)
    with (attribute (ch "r") (nonce ++ ch "," :: attribute (ch "s")
            (base64_text salt ++ ch "," :: attribute (ch "i") (to_string iterations)))).
  change (attribute (ch "r") (nonce ++ ?t)) with (attribute (ch "r") nonce ++ t).
  change (attribute (ch "s") (base64_text salt ++ ?t)) with (attribute (ch "s") (base64_text salt) ++ t).
  rewrite !split_on_app, split_on_plain
    by (apply attribute_no_comma; [done|first [done|apply base64_text_no_comma|by apply digits_no_comma]]).
  cbn [for_each].
  rewrite add_attribute_new by (done || apply lookup_empty). mcbn.
  rewrite add_attribute_new by (by apply base64_text_nonempty || by rewrite lookup_insert_ne, lookup_empty). mcbn.
  rewrite add_attribute_new by (done || by rewrite !lookup_insert_ne, lookup_empty). mcbn.
  eexists. split; [done|].
  repeat split; rewrite ?lookup_insert_ne, ?lookup_insert, ?lookup_empty by done; try done;
    try (case_decide; done); rewrite lookup_insert_ne by done; rewrite lookup_insert; by case_decide.
Qed.

Lemma parse_server_final signature :
  signature <> [] ->
  parse_attributes (str "v=" ++ base64_text signature) = Ok {[ch "v" := base64_text signature]}.
Proof.
  intros Hs. unfold parse_attributes.
  change (str "v=" ++ base64_text signature) with (attribute (ch "v") (base64_text signature)).
  rewrite split_on_plain by (apply attribute_no_comma; [done|apply base64_text_no_comma]).
  cbn [for_each]. rewrite add_attribute_new by (by apply base64_text_nonempty || apply lookup_empty). done.
Qed.

Lemma starts_with_refl p s : starts_with (p ++ s) p = true.
Proof. unfold starts_with, beq. rewrite take_app_length. by apply bool_decide_eq_true. Qed.

End Scram.

(** ** Properties *)

Lemma lxor_byte a b : is_byte a -> is_byte b -> is_byte (Z.lxor a b).
Proof.
  unfold is_byte. intros Ha Hb. assert (0 <= Z.lxor a b) by (apply Z.lxor_nonneg; lia).
  split; [done|]. destruct (Z.eq_dec (Z.lxor a b) 0) as [->|]; [lia|].
  apply Z.log2_lt_pow2 with (b := 8); [lia|].
  pose proof (Z.log2_lxor a b ltac:(lia) ltac:(lia)).
  assert (forall x, 0 <= x < 256 -> Z.log2 x < 8) as Hl.
  { intros x Hx. destruct (Z.eq_dec x 0) as [->|]; [done|]. apply Z.log2_lt_pow2; lia. }
  pose proof (Hl a Ha). pose proof (Hl b Hb). lia.
Qed.

Lemma xor_bytes_ok a b : bytes_ok a -> bytes_ok b -> bytes_ok (xor_bytes a b).
Proof.
  intros Ha. revert b. induction Ha as [|x a Hx _ IH]; intros b Hb; [constructor|].
  destruct Hb as [|y b Hy Hb]; [constructor|]. constructor; [by apply lxor_byte|by apply IH].
Qed.

Lemma xor_bytes_length a b : length a = length b -> length (xor_bytes a b) = length a.
Proof. intros H. unfold xor_bytes. rewrite length_zip_with. lia. Qed.

Lemma split_on_bytes sep s p : bytes_ok s -> In p (split_on sep s) -> bytes_ok p.
Proof.
  revert p. induction s as [|c s IH]; intros p Hs; cbn.
  - intros [<-|[]]. constructor.
  - inv_forall. destruct (c =? sep).
    + intros [<-|Hp]; [constructor|by apply IH].
    + destruct (split_on sep s) as [|q qs]; [intros [<-|[]]; by constructor|].
      intros [<-|Hp]; [constructor; [done|]; apply IH; [done|by left]|apply IH; [done|by right]].
Qed.

Lemma parse_attributes_bytes message attributes k v :
  bytes_ok message -> parse_attributes message = Ok attributes -> attributes !! k = Some v -> bytes_ok v.
Proof.
  intros Hok H. unfold parse_attributes in H.
  assert (Forall bytes_ok (split_on (ch ",") message)) as Hp
    by (apply List.Forall_forall; intros p; by apply split_on_bytes).
  revert k v. revert H. set (pieces := split_on (ch ",") message) in *. clearbody pieces.
  assert (forall k v, (∅ : gmap Z bytes) !! k = Some v -> bytes_ok v) as H0 by (intros; by rewrite lookup_empty in *).
  revert H0. generalize (∅ : gmap Z bytes). induction Hp as [|p ps Hp _ IH]; intros acc H0; cbn.
  - by intros [= <-].
  - intros (acc' & Ha & H)%bind_Ok. apply (IH acc'); [|done]. clear IH H.
    destruct p as [|key [|e [|x rest]]]; try done. cbn in Ha. destruct (negb _); [done|].
    destruct (acc !! key) eqn:Ek; [done|]. injection Ha as <-. inv_forall.
    intros k v. rewrite lookup_insert. case_decide; [intros [= <-]; by constructor|apply H0].
Qed.

Section Properties.
Context (sha256 : bytes -> bytes) (hmac : bytes -> bytes -> bytes) (pbkdf2 : bytes -> bytes -> Z -> bytes).

(** A digest is 32 bytes. *)
Definition digests : Prop := forall key message, length (hmac key message) = 32%nat /\ bytes_ok (hmac key message).

Lemma digest_encode k m : digests -> base64_encode (hmac k m) = Ok (base64_text (hmac k m)).
Proof. intros H. destruct (H k m) as [Hl Hb]. apply base64_encode_text; [done|]. unfold size. rewrite Hl. done. Qed.

Lemma digest_nonempty k m : digests -> hmac k m <> [].
Proof. intros H E. destruct (H k m) as [Hl _]. by rewrite E in Hl. Qed.

(** The state a successful server-first message leaves. *)
Lemma receive_server_first_inv c message response c' :
  digests -> bytes_ok message ->
  receive_server_first sha256 hmac pbkdf2 c message = Ok (response, c') ->
  exists attributes nonce salt_value salt iteration_value iterations,
    parse_attributes message = Ok attributes /\
    attributes !! ch "r" = Some (client_nonce_ c ++ nonce) /\ nonce <> [] /\
    attributes !! ch "s" = Some salt_value /\ scram_base64_decode salt_value = Ok salt /\
    attributes !! ch "i" = Some iteration_value /\ parse_iterations iteration_value = Ok iterations /\
    server_first_received_ c' = true /\
    expected_server_signature_ c' =
      hmac (server_key hmac (pbkdf2 (password_ c) salt iterations))
        (authentication_message c message (str "c=biws,r=" ++ client_nonce_ c ++ nonce)).
Proof.
  intros Hd Hok. unfold receive_server_first. destruct (server_first_received_ c); [done|].
  intros (attributes & Ha & H)%bind_Ok. destruct (attributes !! ch "m"); [done|].
  destruct (attributes !! ch "r") as [nonce|] eqn:Er; [|done].
  destruct (attributes !! ch "s") as [sv|] eqn:Es; [|done].
  destruct (attributes !! ch "i") as [iv|] eqn:Ei; [|done].
  destruct (_ || _) eqn:En; [done|]. apply orb_false_iff in En as [En1 En2]. zb.
  apply bind_Ok in H as (n & Hn & H). apply bind_Ok in H as (salt & Hsalt & H).
  apply bind_Ok in H as (proof & _ & [= _ <-]).
  unfold starts_with, beq in En1. apply bool_decide_eq_true in En1.
  assert (nonce = client_nonce_ c ++ drop (length (client_nonce_ c)) nonce) as E
    by (rewrite <- En1 at 1; by rewrite take_drop).
  exists attributes, (drop (length (client_nonce_ c)) nonce), sv, salt, iv, n.
  rewrite <- E. cbn. split_and!; try done.
  intros Hnil. rewrite Hnil, app_nil_r in E. rewrite E in En2. lia.
Qed.

Lemma verify_server_final_iff c message :
  bytes_ok message -> bytes_ok (expected_server_signature_ c) -> expected_server_signature_ c <> [] ->
  verify_server_final c message = Ok tt <->
  server_first_received_ c = true /\
  exists attributes, parse_attributes message = Ok attributes /\ attributes !! ch "e" = None /\
    attributes !! ch "v" = Some (base64_text (expected_server_signature_ c)).
Proof.
  intros Hok He Hne. unfold verify_server_final. destruct (server_first_received_ c); [|by split; [|intros []]].
  cbn [negb]. split.
  - intros (attributes & Ha & H)%bind_Ok. split; [done|]. exists attributes. split; [done|].
    destruct (attributes !! ch "e"); [done|]. split; [done|].
    destruct (attributes !! ch "v") as [v|] eqn:Ev; [|done].
    apply bind_Ok in H as (decoded & Hdec & H). unfold scram_base64_decode in Hdec.
    destruct (beq decoded _) eqn:Eb; [|done]. apply bool_decide_eq_true in Eb. subst decoded.
    pose proof (parse_attributes_bytes _ _ _ _ Hok Ha Ev). destruct v; [done|]. by apply base64_decode_sound in Hdec as [_ ->].
  - intros (_ & attributes & -> & Ee & Ev). mcbn. rewrite Ee, Ev.
    pose proof (base64_text_nonempty _ Hne) as Hb. unfold scram_base64_decode.
    destruct (base64_text (expected_server_signature_ c)) as [|x t] eqn:Et; [done|].
    rewrite <- Et, base64_decode_text by done. mcbn. unfold beq. by rewrite bool_decide_true.
Qed.

(** C28. Against a server that follows RFC 5802 and knows the salted password,
    the client always authenticates: its answer to the server-first message
    carries a proof the server verifies, and the server's signature is then
    accepted, for every user name, password, nonce, salt and admissible
    iteration count. *)
Theorem scram_agreement (user password nonce server_nonce salt : bytes) (iterations : Z)
    (c : ScramSha256Client) :
  digests ->
  make_client user password nonce = Ok c ->
  server_nonce <> [] -> no_comma server_nonce -> salt <> [] -> bytes_ok salt ->
  0 < iterations <= kMaximumIterations ->
  let server_first := server_first_message (nonce ++ server_nonce) salt iterations in
  let salted := pbkdf2 password salt iterations in
  let final := str "c=biws,r=" ++ nonce ++ server_nonce in
  exists proof c',
    receive_server_first sha256 hmac pbkdf2 c server_first = Ok (final ++ str ",p=" ++ base64_text proof, c') /\
    scram_server_verifies sha256 hmac (stored_key sha256 hmac salted) (client_first_bare_ c) server_first final proof /\
    verify_server_final c' (server_final_message hmac (server_key hmac salted) (client_first_bare_ c) server_first final) = Ok tt.
Proof.
  intros Hd Hc Hsn Hsc Hs Hsb Hi server_first salted final. unfold make_client in Hc.
  destruct (_ || _) eqn:E; [done|]. injection Hc as <-. apply orb_false_iff in E as [E1 E2].
  apply bool_decide_eq_false in E1, E2.
  assert (no_comma (nonce ++ server_nonce)) as Hnc.
  { apply Forall_app. split; [|done]. apply List.Forall_forall. intros x Hx ->.
    destruct (find_char (ch ",") nonce) eqn:Ef; [by apply E2|]. by apply find_char_None in Ef. }
  destruct (parse_server_first (nonce ++ server_nonce) salt iterations) as (attributes & Ha & Em & Er & Es & Ei);
    [by destruct nonce|done|done|lia|].
  unfold receive_server_first. cbn [server_first_received_ client_nonce_ password_]. fold server_first in Ha.
  rewrite Ha. mcbn. rewrite Em, Er, Es, Ei, starts_with_refl.
  assert ((size (nonce ++ server_nonce) <=? size nonce) = false) as ->.
  { rewrite size_app. destruct server_nonce; [done|]. rewrite size_cons. pose proof (size_nonneg server_nonce). lia. }
  cbn [negb orb]. unfold parse_iterations. rewrite to_string_from_chars by lia. unfold kMaximumIterations in *.
  repeat ztest. mcbn.
  assert (scram_base64_decode (base64_text salt) = Ok salt) as ->.
  { unfold scram_base64_decode. pose proof (base64_text_nonempty salt Hs).
    destruct (base64_text salt) eqn:Eb; [done|]. rewrite <- Eb. by apply base64_decode_text. }
  mcbn. fold salted final. set (auth := authentication_message _ server_first final).
  set (key := hmac salted (str "Client Key")). set (sig := hmac (sha256 key) auth).
  destruct (Hd salted (str "Client Key")) as [Hkl Hkb]. destruct (Hd (sha256 key) auth) as [Hgl Hgb].
  rewrite base64_encode_text; [|by apply xor_bytes_ok|].
  2: { unfold size. rewrite xor_bytes_length by (etrans; [exact Hkl|symmetry; exact Hgl]).
       unfold key. by rewrite Hkl. }
  mcbn. exists (xor_bytes key sig). eexists. split; [reflexivity|]. split.
  - unfold scram_server_verifies, stored_key. fold key. change (hmac (sha256 key) _) with sig.
    by rewrite xor_cancel by (etrans; [exact Hkl|symmetry; exact Hgl]).
  - unfold verify_server_final. cbn [server_first_received_ expected_server_signature_ negb].
    unfold server_final_message. set (signature := hmac (server_key hmac salted) _).
    rewrite parse_server_final by by apply digest_nonempty. mcbn.
    rewrite lookup_singleton_ne, lookup_singleton_eq by done.
    assert (scram_base64_decode (base64_text signature) = Ok signature) as ->.
    { unfold scram_base64_decode. pose proof (base64_text_nonempty signature (digest_nonempty _ _ Hd)).
      destruct (base64_text signature) eqn:Eb; [done|]. rewrite <- Eb. apply base64_decode_text, Hd. }
    mcbn. unfold beq. by rewrite bool_decide_true.
Qed.

(** C27. The server is accepted only with the right signature: once the client
    has answered a server-first message, it accepts a server-final message
    exactly when that message reports no error and its verifier is the canonical
    base64 of the keyed hash, under the server key of this password, salt and
    iteration count, of this exchange's messages; and the exchange's nonce
    extends the client's own.  In particular nothing is accepted before the
    server-first message. *)
Theorem scram_server_authentic (c c' : ScramSha256Client) (message final response : bytes) :
  digests -> bytes_ok message -> bytes_ok final ->
  receive_server_first sha256 hmac pbkdf2 c message = Ok (response, c') ->
  exists nonce salt iterations,
    nonce <> [] /\
    (verify_server_final c' final = Ok tt <->
     exists attributes,
       parse_attributes final = Ok attributes /\ attributes !! ch "e" = None /\
       attributes !! ch "v" = Some (base64_text
         (hmac (server_key hmac (pbkdf2 (password_ c) salt iterations))
           (authentication_message c message (str "c=biws,r=" ++ client_nonce_ c ++ nonce))))).
Proof.
  intros Hd Hm Hf H. pose proof H as H'.
  apply receive_server_first_inv in H' as (attributes & nonce & sv & salt & iv & n & _ & _ & Hne & _ & _ & _ & _ & Hr & He);
    [|done|done].
  exists nonce, salt, n. split; [done|]. rewrite <- He.
  rewrite verify_server_final_iff; [|done|rewrite He; apply Hd|rewrite He; by apply digest_nonempty].
  rewrite Hr. split; [intros [_ ?]; done|by intros ?].
Qed.
End Properties.

(** Stand-ins for the library's digests: 32 bytes that depend on the input. *)
Definition sample_hash (m : bytes) : bytes := replicate 32 (foldr Z.add (size m) m mod 256).
Definition sample_hmac (k m : bytes) : bytes := sample_hash (k ++ m).
Definition sample_kdf (p s : bytes) (i : Z) : bytes := sample_hash (p ++ s ++ [i mod 256]).

Lemma sample_digests : digests sample_hmac.
Proof.
  intros k m. split; [reflexivity|]. apply Forall_replicate. unfold is_byte. apply Z.mod_pos_bound. lia.
Qed.

Definition sample_client : ScramSha256Client :=
  {| password_ := str "pencil"; client_nonce_ := str "abc";
     client_first_bare_ := str "n=u=2Cv,r=abc"; server_first_ := []; client_final_without_proof_ := [];
     expected_server_signature_ := replicate 32 0; server_first_received_ := false |}.

Lemma scram_agreement_witness :
  exists proof c',
    receive_server_first sample_hash sample_hmac sample_kdf sample_client
      (str "r=abcXYZ,s=AQI=,i=4096") =
      Ok (str "c=biws,r=abcXYZ,p=" ++ base64_text proof, c') /\
    verify_server_final c' (server_final_message sample_hmac
      (server_key sample_hmac (sample_kdf (str "pencil") [1; 2] 4096)) (str "n=u=2Cv,r=abc")
      (str "r=abcXYZ,s=AQI=,i=4096") (str "c=biws,r=abcXYZ")) = Ok tt.
Proof.
  destruct (scram_agreement sample_hash sample_hmac sample_kdf (str "u,v") (str "pencil") (str "abc") (str "XYZ")
    [1; 2] 4096 sample_client sample_digests) as (proof & c' & H1 & _ & H3);
    [reflexivity|done|by repeat constructor|done|by repeat (apply Forall_cons; [done|])|done|].
  exists proof, c'. split; [exact H1|exact H3].
Defined.

Lemma scram_server_authentic_witness :
  exists response c' nonce salt iterations,
    receive_server_first sample_hash sample_hmac sample_kdf sample_client (str "r=abcXYZ,s=AQI=,i=4096") =
      Ok (response, c') /\
    (verify_server_final c' (str "v=AAAA") = Ok tt <->
     exists attributes,
       parse_attributes (str "v=AAAA") = Ok attributes /\ attributes !! ch "e" = None /\
       attributes !! ch "v" = Some (base64_text
         (sample_hmac (server_key sample_hmac (sample_kdf (password_ sample_client) salt iterations))
           (authentication_message sample_client (str "r=abcXYZ,s=AQI=,i=4096")
              (str "c=biws,r=" ++ client_nonce_ sample_client ++ nonce))))).
Proof.
  destruct (receive_server_first sample_hash sample_hmac sample_kdf sample_client (str "r=abcXYZ,s=AQI=,i=4096"))
    as [[response c']|] eqn:E; [|exfalso; vm_compute in E; discriminate].
  destruct (scram_server_authentic sample_hash sample_hmac sample_kdf sample_client c'
    (str "r=abcXYZ,s=AQI=,i=4096") (str "v=AAAA") response sample_digests) as (nonce & salt & n & _ & H);
    [by repeat (apply Forall_cons; [done|])..|exact E|].
  exists response, c', nonce, salt, n. split; [reflexivity|exact H].
Defined.

(** *** User names *)

Fixpoint unescape_username (s : bytes) : bytes :=
  match s with
  | c :: ((a :: b :: t') as t) =>
      if c =? ch "=" then
        (if (a =? ch "3") && (b =? ch "D") then ch "=" else ch ",") :: unescape_username t'
      else c :: unescape_username t
  | c :: t => c :: unescape_username t
  | [] => []
  end.

(** The escaped user name contains no comma and every equals sign in it
    starts an escape, so that it cannot end its attribute, and the server's
    unescaping gives back the user name. *)
Theorem escape_username_correct (user : bytes) :
  no_comma (escape_username user) /\ unescape_username (escape_username user) = user.
Proof.
  induction user as [|c user [IH1 IH2]]; [done|].
  change (escape_username (c :: user)) with
    ((if c =? ch "=" then str "=3D" else if c =? ch "," then str "=2C" else [c]) ++ escape_username user).
  destruct (c =? ch "=") eqn:E1; zb; [subst|destruct (c =? ch ",") eqn:E2; zb; [subst|]].
  - split; [by repeat constructor|]. cbn. by rewrite IH2.
  - split; [by repeat constructor|]. cbn. by rewrite IH2.
  - split; [by constructor|]. cbn [app]. destruct (escape_username user) as [|a [|b t]] eqn:E.
    + cbn in *. by rewrite <- IH2.
    + cbn in *. by rewrite <- IH2.
    + cbn [unescape_username]. ztest. by rewrite <- IH2.
Qed.
