(* ===== verification/PgAuth.v ===== *)
(** * Authentication

    The authentication state machine of
    [src/core/database/postgres/pg_protocol_parser.cpp] ([parse_auth_request],
    [create_auth_response], [clear_authentication_state]) and the login loop that
    drives it, [GenericDatabaseConnection::perform_authentication_result] of
    [src/core/database/generic_database_connection.cpp].

    An operation that changes the parser's state returns the new state also when
    it throws, because the code assigns before it throws.  The transport is the
    list of what successive reads deliver and a function for the outcome of a
    write; the digests are parameters, as in Scram.v. *)

From S2P Require Import Prelude Digits Hex Base64 Scram PgWire PgIeee PgRequest PgResult Backend.

Inductive AuthType := None_ | Cleartext | MD5 | SASL | SASLContinue | SASLFinal | Idp.

#[export] Instance auth_type_eq_dec : EqDecision AuthType.
Proof. solve_decision. Defined.

Record AuthenticationRequest := { auth_type : AuthType; challenge_data : bytes }.

(** The parser's members [scram_client_] and [scram_server_verified_]. *)
Record Auth := { scram_client_ : option ScramSha256Client; scram_server_verified_ : bool }.

Definition clear_authentication_state : Auth := {| scram_client_ := None; scram_server_verified_ := false |}.

(** ** Requests *)

Definition parse_auth_request (a : Auth) (data : bytes) : Auth * res AuthenticationRequest :=
  if size data <? 4 then (a, Throw (runtime_error "Auth payload too short"))
  else
    match read_u32 data with
    | Throw e => (a, Throw e)
    | Ok (code, rest) =>
        if bool_decide (is_Some (scram_client_ a)) && negb (code =? 0) && negb (code =? 11) && negb (code =? 12)
        then (a, Throw (runtime_error "SCRAM authentication method changed"))
        else if (code =? 0) || (code =? 3) then
          if negb (size data =? 4) then (a, Throw (runtime_error "Invalid authentication request length"))
          else if (code =? 0) && bool_decide (is_Some (scram_client_ a)) then
            if negb (scram_server_verified_ a) then
              (a, Throw (runtime_error "SCRAM AuthenticationOk arrived before server verification"))
            else (clear_authentication_state, Ok {| auth_type := None_; challenge_data := [] |})
          else (a, Ok {| auth_type := if code =? 0 then None_ else Cleartext; challenge_data := [] |})
        else if code =? 5 then
          if negb (size data =? 8) then (a, Throw (runtime_error "Invalid MD5 auth payload"))
          else (a, Ok {| auth_type := MD5; challenge_data := rest |})
        else if code =? 10 then (a, Ok {| auth_type := SASL; challenge_data := rest |})
        else if code =? 11 then (a, Ok {| auth_type := SASLContinue; challenge_data := rest |})
        else if code =? 12 then (a, Ok {| auth_type := SASLFinal; challenge_data := rest |})
        else if code =? 14 then (a, Ok {| auth_type := Idp; challenge_data := [] |})
        else (a, Throw (runtime_error_text (str "Unsupported auth method: " ++ to_string code)))
    end.

(** The mechanism names of a SASL offer, up to the empty one: whether
    SCRAM-SHA-256 is among them, and what follows the list. *)
Definition mechanism_step (st : bytes * bool) : (bytes * bool) + res (bytes * bool) :=
  let '(data, supported) := st in
  match data with
  | [] => inr (Throw (runtime_error "invalid PostgreSQL SASL mechanism list"))
  | _ =>
      match span not_nul data with
      | (_, []) => inr (Throw (runtime_error "unterminated PostgreSQL SASL mechanism"))
      | ([], _ :: rest) => inr (Ok (rest, supported))
      | (mechanism, _ :: rest) => inl (rest, supported || beq mechanism (str "SCRAM-SHA-256"))
      end
  end.

Definition check_mechanisms (data : bytes) : res unit :=
  '(rest, supported) ← run unread mechanism_step (data, false);
  if negb (beq rest []) then Throw (runtime_error "invalid PostgreSQL SASL mechanism list")
  else if negb supported then Throw (runtime_error "server does not offer SCRAM-SHA-256")
  else Ok tt.

(** [tag], the length, the text and a NUL, written into a buffer of that size. *)
Definition credential_message (tag : Z) (text : bytes) : bytes :=
  let buf := replicate (1 + 4 + length text + 1) 0 in
  let buf := <[0%nat := tag]> buf in
  let buf := put_u32 buf 1 (4 + size text + 1) in
  let buf := write_at buf 5 text in
  <[(5 + length text)%nat := 0]> buf.

(** ** Responses *)

Section Auth.
Context (sha256 : bytes -> bytes) (hmac_sha256 : bytes -> bytes -> bytes)
        (pbkdf2_hmac_sha256 : bytes -> bytes -> Z -> bytes) (md5 : bytes -> bytes).

Definition md5_hex (data : bytes) : bytes :=
  flat_map (fun b => [hex_digit (Z.land (Z.shiftr b 4) 0xf); hex_digit (Z.land b 0xf)]) (md5 data).

Definition has_nul (s : bytes) : bool := bool_decide (is_Some (find_char 0 s)).

(** The SASL branch after the mechanism list was accepted. *)
Definition start_scram (a : Auth) (password user random : bytes) (max_wire_bytes : Z) : Auth * res bytes :=
  let a := {| scram_client_ := scram_client_ a; scram_server_verified_ := false |} in
  match nonce ← generate_scram_nonce random; make_client user password nonce with
  | Throw e => (a, Throw e)
  | Ok client =>
      let a := {| scram_client_ := Some client; scram_server_verified_ := false |} in
      let initial := client_first_message client in
      if (max_wire_bytes <? 23) || (max_wire_bytes - 23 <? size initial)
      then (a, Throw RequestWireLimitExceeded)
      else
        let '(out, start) := begin_message [] (ch "p") in
        let out := append_cstring out (str "SCRAM-SHA-256") in
        let out := append_u32 out (size initial) in
        (a, finish_message (out ++ initial) start)
  end.

Definition continue_scram (a : Auth) (client : ScramSha256Client) (challenge : bytes) (max_wire_bytes : Z)
    : Auth * res bytes :=
  match receive_server_first sha256 hmac_sha256 pbkdf2_hmac_sha256 client challenge with
  | Throw e => (a, Throw e)
  | Ok (final, client) =>
      let a := {| scram_client_ := Some client; scram_server_verified_ := scram_server_verified_ a |} in
      if (max_wire_bytes <? 5) || (max_wire_bytes - 5 <? size final)
      then (a, Throw RequestWireLimitExceeded)
      else
        let '(out, start) := begin_message [] (ch "p") in
        (a, finish_message (out ++ final) start)
  end.

Definition create_auth_response (a : Auth) (request : AuthenticationRequest)
    (password user : bytes) (peer_identity_verified : bool) (max_wire_bytes : Z) (random : bytes)
    : Auth * res bytes :=
  if has_nul password || has_nul user then
    (a, Throw (invalid_argument "PostgreSQL authentication credential contains an embedded NUL byte"))
  else if bool_decide (is_Some (scram_client_ a)) &&
          (bool_decide (auth_type request = Cleartext) || bool_decide (auth_type request = MD5)) then
    (a, Throw (runtime_error "SCRAM authentication method changed"))
  else
    match auth_type request with
    | None_ =>
        if bool_decide (is_Some (scram_client_ a)) && negb (scram_server_verified_ a) then
          (a, Throw (runtime_error "SCRAM AuthenticationOk arrived before server verification"))
        else (clear_authentication_state, Ok [])
    | Cleartext =>
        if negb peer_identity_verified then
          (a, Throw (runtime_error "PostgreSQL cleartext password authentication requires verified TLS"))
        else if (max_wire_bytes <? 6) || (max_wire_bytes - 6 <? size password) then
          (a, Throw RequestWireLimitExceeded)
        else (a, Ok (credential_message (ch "p") password))
    | MD5 =>
        if max_wire_bytes <? 41 then (a, Throw RequestWireLimitExceeded)
        else if negb (size (challenge_data request) =? 4) then
          (a, Throw (invalid_argument "PostgreSQL MD5 salt must be four bytes"))
        else
          let step1 := md5_hex (password ++ user) in
          let step2 := md5_hex (step1 ++ challenge_data request) in
          (a, Ok (credential_message (ch "p") (str "md5" ++ step2)))
    | SASL =>
        if bool_decide (is_Some (scram_client_ a)) then
          (a, Throw (runtime_error "duplicate SCRAM mechanism offer"))
        else
          match check_mechanisms (challenge_data request) with
          | Throw e => (a, Throw e)
          | Ok tt => start_scram a password user random max_wire_bytes
          end
    | SASLContinue =>
        match scram_client_ a with
        | None => (a, Throw (runtime_error "SCRAM continuation arrived out of sequence"))
        | Some client => continue_scram a client (challenge_data request) max_wire_bytes
        end
    | SASLFinal =>
        match scram_client_ a with
        | Some client =>
            if scram_server_verified_ a then
              (a, Throw (runtime_error "SCRAM final message arrived out of sequence"))
            else
              match verify_server_final client (challenge_data request) with
              | Throw e => (a, Throw e)
              | Ok tt => ({| scram_client_ := Some client; scram_server_verified_ := true |}, Ok [])
              end
        | None => (a, Throw (runtime_error "SCRAM final message arrived out of sequence"))
        end
    | Idp =>
        if negb peer_identity_verified then
          (a, Throw (runtime_error "Native IdP token authentication requires verified TLS"))
        else if (max_wire_bytes <? 6) || (max_wire_bytes - 6 <? size password) then
          (a, Throw RequestWireLimitExceeded)
        else (a, Ok (credential_message (ch "i") password))
    end.

(** ** The login loop *)

Record Failure := {
  code : DbErrorCode;
  operation : BackendOperation;
  failure_state : option bytes;
}.

(** [sent] holds every response handed to the transport, also one whose write
    then failed. *)

(** The connection's settings that the login reads, the outcome of writing a
    response, and the random source's bytes. *)
Record Settings := {
  user : bytes;
  password : bytes;
  native_idp : option bytes;
  peer_identity_verified : bool;
  max_auth_wire_bytes : Z;
  max_messages : Z;
  write_result : bytes -> option DbErrorCode;
  random : bytes;
}.

Record Login := {
  auth : Auth;
  authenticated : bool;
  sent : list bytes;
  server_params : gmap bytes bytes;
  backend_key : option bytes;
}.

Inductive Outcome :=
| Ready (st : Login) (state : SessionState)
| Failed (st : Login) (f : Failure)
| Waiting (st : Login).

Definition record_parameter_status (payload : bytes) : option (bytes * bytes) :=
  let '(key, rest) := span not_nul payload in
  match key, rest with
  | _ :: _, _ :: rest =>
      let '(v, rest) := span not_nul rest in
      if size rest =? 1 then Some (key, v) else None
  | _, _ => None
  end.

Definition fail (st : Login) (c : DbErrorCode) : Outcome :=
  Failed st {| code := c; operation := if authenticated st then OpStartup else OpAuthenticate;
            failure_state := None |}.

(** The handlers around the loop. *)
Definition caught (st : Login) (e : exn) : Outcome :=
  match e with
  | RequestWireLimitExceeded => fail st ResourceLimit
  | _ => fail st ProtocolError
  end.

Definition set_auth (a : Auth) (st : Login) : Login :=
  {| auth := a; authenticated := authenticated st; sent := sent st;
     server_params := server_params st; backend_key := backend_key st |}.

Definition on_authentication (s : Settings) (st : Login) (payload : bytes) : Login + Outcome :=
  if authenticated st then inr (fail st ProtocolError)
  else
    match parse_auth_request (auth st) payload with
    | (_, Throw e) => inr (caught st e)
    | (a, Ok request) =>
        match auth_type request with
        | None_ =>
            inl {| auth := a; authenticated := true; sent := sent st;
                   server_params := server_params st; backend_key := backend_key st |}
        | _ =>
            let auth_password := default (password s) (native_idp s) in
            match create_auth_response a request auth_password (user s) (peer_identity_verified s)
                    (max_auth_wire_bytes s) (random s) with
            | (_, Throw e) => inr (caught st e)
            | (a, Ok []) => inl (set_auth a st)
            | (a, Ok response) =>
                let st := {| auth := a; authenticated := authenticated st; sent := sent st ++ [response];
                             server_params := server_params st; backend_key := backend_key st |} in
                match write_result s response with
                | Some c => inr (fail st c)
                | None => inl st
                end
            end
        end
    end.

Definition on_login_error (st : Login) (msg : Message) : Outcome :=
  match text ← extract_error_message msg; sqlstate ← extract_error_sqlstate msg; Ok (text, sqlstate) with
  | Throw e => caught st e
  | Ok (_, sqlstate) =>
      let authentication_error := negb (authenticated st) || starts_with sqlstate (str "28") in
      Failed st {| code := if authentication_error then AuthenticationFailed else ConnectionFailed;
                operation := if authentication_error then OpAuthenticate else OpStartup;
                failure_state := Some sqlstate |}
  end.

Definition ready_state (payload : bytes) : SessionState :=
  match payload with
  | [c] => if c =? ch "I" then Idle else if c =? ch "T" then InTransaction else FailedTransaction
  | _ => UnknownState
  end.

Definition login_message (s : Settings) (st : Login) (msg : Message) : Login + Outcome :=
  if tag msg =? ch "R" then on_authentication s st (payload msg)
  else if tag msg =? ch "S" then
    if negb (authenticated st) then inr (fail st ProtocolError)
    else
      match record_parameter_status (payload msg) with
      | None => inr (fail st ProtocolError)
      | Some kv => inl {| auth := auth st; authenticated := authenticated st; sent := sent st;
                          server_params := <[kv.1 := kv.2]> (server_params st); backend_key := backend_key st |}
      end
  else if tag msg =? ch "K" then
    if negb (authenticated st) then inr (fail st ProtocolError)
    else inl {| auth := auth st; authenticated := authenticated st; sent := sent st;
                server_params := server_params st; backend_key := Some (payload msg) |}
  else if is_error_response msg then inr (on_login_error st msg)
  else
    match is_ready_for_query msg with
    | Throw e => inr (caught st e)
    | Ok true =>
        if negb (authenticated st) then inr (fail st ProtocolError)
        else inr (Ready st (ready_state (payload msg)))
    | Ok false =>
        if (tag msg =? ch "N") && authenticated st then inl st
        else inr (fail st ProtocolError)
    end.

(** What one read delivers. *)
Inductive Read := ReadMessage (data : bytes) | ReadError (c : DbErrorCode).

Fixpoint login_loop (s : Settings) (message_count : Z) (st : Login) (reads : list Read) : Outcome :=
  if message_count =? max_messages s then fail st ResourceLimit
  else
    match reads with
    | [] => Waiting st
    | ReadError c :: _ => fail st c
    | ReadMessage data :: reads =>
        match parse_message data with
        | Throw e => caught st e
        | Ok msg =>
            match login_message s st msg with
            | inl st => login_loop s (message_count + 1) st reads
            | inr outcome => outcome
            end
        end
    end.

Definition initial_login : Login :=
  {| auth := clear_authentication_state; authenticated := false; sent := [];
     server_params := ∅; backend_key := None |}.

Definition perform_authentication (s : Settings) (reads : list Read) : Outcome :=
  login_loop s 0 initial_login reads.

(** ** What the operations do to the state *)

Lemma clear_eq a : scram_client_ a = None -> scram_server_verified_ a = false -> a = clear_authentication_state.
Proof. destruct a; cbn. by intros -> ->. Qed.

(** A request that was accepted, by its code. *)
Definition request_of (code : Z) (rest : bytes) (request : AuthenticationRequest) : Prop :=
  match auth_type request with
  | None_ => code = 0
  | Cleartext => code = 3
  | MD5 => code = 5 /\ challenge_data request = rest
  | SASL => code = 10 /\ challenge_data request = rest
  | SASLContinue => code = 11 /\ challenge_data request = rest
  | SASLFinal => code = 12 /\ challenge_data request = rest
  | Idp => code = 14
  end.

Lemma parse_auth_request_inv a data a' request :
  parse_auth_request a data = (a', Ok request) ->
  exists code rest, read_u32 data = Ok (code, rest) /\ request_of code rest request /\
    match auth_type request with
    | None_ => (scram_client_ a = None /\ a' = a) \/
               (scram_server_verified_ a = true /\ a' = clear_authentication_state)
    | _ => a' = a
    end.
Proof.
  unfold parse_auth_request. destruct (size data <? 4); [done|].
  destruct (read_u32 data) as [[code rest]|]; [|done].
  intros H. exists code, rest. split; [done|]. revert H.
  destruct (bool_decide (is_Some (scram_client_ a)) && negb (code =? 0) && negb (code =? 11) && negb (code =? 12));
    [done|].
  destruct ((code =? 0) || (code =? 3)) eqn:E0.
  { destruct (negb (size data =? 4)); [done|]. destruct (code =? 0) eqn:E0'; cbn [andb]; zb.
    - subst code. case_bool_decide as Hc.
      + destruct (scram_server_verified_ a) eqn:Ev; cbn [negb]; [|done]. intros [= <- <-]. cbn. auto.
      + intros [= <- <-]. cbn. split; [done|]. left. split; [|done]. destruct (scram_client_ a); [|done].
        destruct Hc. by eexists.
    - intros [= <- <-]. cbn. split; [lia|done]. }
  destruct (code =? 5) eqn:E5; zb.
  { destruct (negb _); [done|]. by intros [= <- <-]. }
  destruct (code =? 10) eqn:E10; zb; [by intros [= <- <-]|].
  destruct (code =? 11) eqn:E11; zb; [by intros [= <- <-]|].
  destruct (code =? 12) eqn:E12; zb; [by intros [= <- <-]|].
  destruct (code =? 14) eqn:E14; zb; [by intros [= <- <-]|]. done.
Qed.

(** The responses that carry no reusable credential: an MD5 answer, and the two
    SCRAM messages. *)
Inductive protected_response (pw usr rnd : bytes) : bytes -> Prop :=
| protected_md5 salt :
    protected_response pw usr rnd
      (credential_message (ch "p") (str "md5" ++ md5_hex (md5_hex (pw ++ usr) ++ salt)))
| protected_first nonce c :
    generate_scram_nonce rnd = Ok nonce -> make_client usr pw nonce = Ok c ->
    protected_response pw usr rnd
      (frame (ch "p") (cstring (str "SCRAM-SHA-256") ++ be32 (size (client_first_message c)) ++
                       client_first_message c))
| protected_final c c' challenge final :
    receive_server_first sha256 hmac_sha256 pbkdf2_hmac_sha256 c challenge = Ok (final, c') ->
    protected_response pw usr rnd (frame (ch "p") final).

(** The effect of a response on the state, and the response. *)
Definition response_of (a a' : Auth) (request : AuthenticationRequest)
    (pw usr : bytes) (verified : bool) (rnd r : bytes) : Prop :=
  match auth_type request with
  | None_ => a' = clear_authentication_state
  | Cleartext => a' = a /\ verified = true
  | Idp => a' = a /\ verified = true
  | MD5 => a' = a /\ protected_response pw usr rnd r
  | SASL =>
      scram_client_ a = None /\ protected_response pw usr rnd r /\
      exists nonce c, generate_scram_nonce rnd = Ok nonce /\ make_client usr pw nonce = Ok c /\
        a' = {| scram_client_ := Some c; scram_server_verified_ := false |}
  | SASLContinue =>
      protected_response pw usr rnd r /\
      exists c c' final, scram_client_ a = Some c /\
        receive_server_first sha256 hmac_sha256 pbkdf2_hmac_sha256 c (challenge_data request) = Ok (final, c') /\
        a' = {| scram_client_ := Some c'; scram_server_verified_ := scram_server_verified_ a |}
  | SASLFinal =>
      r = [] /\
      exists c, scram_client_ a = Some c /\ verify_server_final c (challenge_data request) = Ok tt /\
        a' = {| scram_client_ := Some c; scram_server_verified_ := true |}
  end.

Lemma start_scram_inv a pw usr rnd m a' r :
  start_scram a pw usr rnd m = (a', Ok r) ->
  exists nonce c, generate_scram_nonce rnd = Ok nonce /\ make_client usr pw nonce = Ok c /\
    a' = {| scram_client_ := Some c; scram_server_verified_ := false |} /\
    protected_response pw usr rnd r.
Proof.
  unfold start_scram. destruct (generate_scram_nonce rnd) as [nonce|] eqn:En; mcbn; [|done].
  destruct (make_client usr pw nonce) as [c|] eqn:Ec; [|done].
  destruct ((m <? 23) || _) eqn:El; [done|]. rewrite begin_message_app.
  set (initial := client_first_message c). intros [= <- H]. exists nonce, c. split_and!; try done.
  change (finish_message (append_u32 (append_cstring ([] ++ ch "p" :: [0; 0; 0; 0]) (str "SCRAM-SHA-256"))
    (size initial) ++ initial) (length (@nil Z)) = Ok r) in H.
  rewrite (message_finish [] (ch "p")
    (cstring (str "SCRAM-SHA-256") ++ append_u32 [] (size initial) ++ initial)) in H
    by (unfold append_u32; rewrite append_cstring_app, <- !app_assoc; done).
  unfold message in H. destruct (UINT32_MAX <? _) eqn:Es; [done|]. zb.
  apply (f_equal (fun x => match x with Ok y => y | Throw _ => r end)) in H. rewrite <- H.
  rewrite !size_app in Es. pose proof (size_nonneg (cstring (str "SCRAM-SHA-256"))).
  pose proof (size_nonneg (append_u32 [] (size initial))). pose proof (size_nonneg initial).
  rewrite append_u32_be32 by lia. by eapply protected_first.
Qed.

Lemma continue_scram_inv a c challenge m a' r pw usr rnd :
  continue_scram a c challenge m = (a', Ok r) ->
  exists c' final,
    receive_server_first sha256 hmac_sha256 pbkdf2_hmac_sha256 c challenge = Ok (final, c') /\
    a' = {| scram_client_ := Some c'; scram_server_verified_ := scram_server_verified_ a |} /\
    protected_response pw usr rnd r.
Proof.
  unfold continue_scram.
  destruct (receive_server_first sha256 hmac_sha256 pbkdf2_hmac_sha256 c challenge) as [[final c']|] eqn:E; [|done].
  destruct ((m <? 5) || _); [done|]. rewrite begin_message_app. intros [= <- H].
  exists c', final. split_and!; try done.
  change (finish_message (([] ++ ch "p" :: [0; 0; 0; 0]) ++ final) (length (@nil Z)) = Ok r) in H.
  rewrite (message_finish [] (ch "p") final) in H by done.
  unfold message in H. destruct (UINT32_MAX <? _); [done|]. injection H as <-. by eapply protected_final.
Qed.

Lemma create_auth_response_inv a request pw usr verified m rnd a' r :
  create_auth_response a request pw usr verified m rnd = (a', Ok r) ->
  response_of a a' request pw usr verified rnd r.
Proof.
  unfold create_auth_response, response_of. destruct (has_nul pw || has_nul usr); [done|].
  destruct (_ && (_ || _)); [done|]. destruct (auth_type request).
  - destruct (_ && _); [done|]. by intros [= <- _].
  - destruct verified; cbn [negb]; [|done]. destruct (_ || _); [done|]. by intros [= <- _].
  - destruct (m <? 41); [done|]. destruct (negb _); [done|]. intros [= <- <-]. split; [done|]. constructor.
  - case_bool_decide as Hc; [done|]. destruct (check_mechanisms _) as [[]|]; [|done].
    intros (nonce & c & H1 & H2 & H3 & H4)%start_scram_inv. split; [|eauto 10].
    destruct (scram_client_ a); [|done]. destruct Hc. by eexists.
  - destruct (scram_client_ a) as [c|] eqn:Ec; [|done].
    intros H. apply (continue_scram_inv _ _ _ _ _ _ pw usr rnd) in H as (c' & final & H1 & H2 & H3).
    split; [done|]. by exists c, c', final.
  - destruct (scram_client_ a) as [c|]; [|done]. destruct (scram_server_verified_ a); [done|].
    destruct (verify_server_final c (challenge_data request)) as [[]|] eqn:Ev; [|done].
    intros [= <- <-]. split; [done|]. by exists c.
  - destruct verified; cbn [negb]; [|done]. destruct (_ || _); [done|]. by intros [= <- _].
Qed.

(** ** The login as steps *)

Inductive login_steps (s : Settings) : list Message -> Login -> Prop :=
| steps_start : login_steps s [] initial_login
| steps_next ms st m st' :
    login_steps s ms st -> login_message s st m = inl st' -> login_steps s (ms ++ [m]) st'.

(** The message is an authentication request with this code and data. *)
Definition requests (m : Message) (code : Z) (data : bytes) : Prop :=
  tag m = ch "R" /\ read_u32 (payload m) = Ok (code, data).

Definition credential (s : Settings) : bytes := default (password s) (native_idp s).

(** The server proved that it knows the credential: the client was made from
    it, answered one of the server's messages and accepted the signature in a
    later one. *)
Definition server_proved (s : Settings) (ms : list Message) : Prop :=
  exists nonce c0 m1 first response c m2 final,
    generate_scram_nonce (random s) = Ok nonce /\ make_client (user s) (credential s) nonce = Ok c0 /\
    m1 ∈ ms /\ requests m1 11 first /\
    receive_server_first sha256 hmac_sha256 pbkdf2_hmac_sha256 c0 first = Ok (response, c) /\
    m2 ∈ ms /\ requests m2 12 final /\ verify_server_final c final = Ok tt.

(** How far a SCRAM exchange has come. *)
Definition scram_progress (s : Settings) (ms : list Message) (a : Auth) : Prop :=
  match scram_client_ a with
  | None => scram_server_verified_ a = false /\ (forall m data, m ∈ ms -> ~ requests m 10 data)
  | Some c =>
      exists nonce c0,
        generate_scram_nonce (random s) = Ok nonce /\ make_client (user s) (credential s) nonce = Ok c0 /\
        ((c = c0 /\ scram_server_verified_ a = false) \/
         exists m1 first response, m1 ∈ ms /\ requests m1 11 first /\
           receive_server_first sha256 hmac_sha256 pbkdf2_hmac_sha256 c0 first = Ok (response, c) /\
           (scram_server_verified_ a = true -> server_proved s ms))
  end.

(** After AuthenticationOk: what came before it and what may come after it. *)
Definition after_ok (m : Message) : Prop := tag m = ch "S" \/ tag m = ch "K" \/ tag m = ch "N".

Definition before_ok (m : Message) : Prop := exists code data, requests m code data /\ code <> 0.

Definition ok_message (m : Message) : Prop := exists data, requests m 0 data.

Definition login_inv (s : Settings) (ms : list Message) (st : Login) : Prop :=
  Forall (fun r => peer_identity_verified s = true \/ protected_response (credential s) (user s) (random s) r)
    (sent st) /\
  if authenticated st then
    exists pre ok post, ms = pre ++ ok :: post /\ Forall before_ok pre /\ ok_message ok /\
      Forall after_ok post /\ ((exists m data, m ∈ pre /\ requests m 10 data) -> server_proved s pre)
  else Forall before_ok ms /\ scram_progress s ms (auth st).

Lemma server_proved_mono s ms m : server_proved s ms -> server_proved s (ms ++ [m]).
Proof.
  intros (nonce & c0 & m1 & first & response & c & m2 & final & H1 & H2 & H3 & H4 & H5 & H6 & H7 & H8).
  exists nonce, c0, m1, first, response, c, m2, final. split_and!; try done; apply elem_of_app; by left.
Qed.

Lemma scram_progress_other s ms m a :
  scram_progress s ms a -> (forall data, ~ requests m 10 data) -> scram_progress s (ms ++ [m]) a.
Proof.
  unfold scram_progress. intros H Hm. destruct (scram_client_ a) as [c|].
  - destruct H as (nonce & c0 & H1 & H2 & H3). exists nonce, c0. split_and!; try done.
    destruct H3 as [?|(m1 & first & response & H4 & H5 & H6 & H7)]; [by left|right].
    exists m1, first, response. split_and!; try done; [apply elem_of_app; by left|].
    intros Hv. by apply server_proved_mono, H7.
  - destruct H as [Hv Hn]. split; [done|]. intros m' data [Hin|Hin]%elem_of_app; [by apply Hn|].
    apply list_elem_of_singleton in Hin as ->. apply Hm.
Qed.

Lemma requests_code m code code' data data' : requests m code data -> requests m code' data' -> code = code' /\ data = data'.
Proof. intros [_ H1] [_ H2]. rewrite H1 in H2. by injection H2. Qed.

Lemma make_client_fresh usr pw nonce c : make_client usr pw nonce = Ok c -> server_first_received_ c = false.
Proof. unfold make_client. destruct (_ || _); [done|]. by intros [= <-]. Qed.

Lemma receive_again c m response c' :
  receive_server_first sha256 hmac_sha256 pbkdf2_hmac_sha256 c m = Ok (response, c') ->
  server_first_received_ c = false /\ server_first_received_ c' = true.
Proof.
  unfold receive_server_first. destruct (server_first_received_ c); [done|].
  intros (attributes & _ & H)%bind_Ok. repeat case_match; try done.
  apply bind_Ok in H as (? & _ & H). apply bind_Ok in H as (? & _ & H).
  by apply bind_Ok in H as (? & _ & [= _ <-]).
Qed.

Lemma elem_last {A} (ms : list A) m : m ∈ ms ++ [m].
Proof. apply elem_of_app. right. apply list_elem_of_here. Qed.

(** One accepted authentication request advances the exchange. *)
Lemma response_progress s ms m code data request a a' r :
  scram_progress s ms a -> requests m code data -> request_of code data request ->
  auth_type request <> None_ ->
  response_of a a' request (credential s) (user s) (peer_identity_verified s) (random s) r ->
  scram_progress s (ms ++ [m]) a'.
Proof.
  intros Hp Hm Hr Hn Hres. unfold response_of, request_of in *.
  assert (code <> 10 -> forall d, ~ requests m 10 d) as Hother.
  { intros Hc d Hd. by destruct (requests_code _ _ _ _ _ Hm Hd). }
  destruct (auth_type request); try done.
  - destruct Hres as [-> _]. apply scram_progress_other; [done|]. apply Hother. lia.
  - destruct Hres as [-> _]. apply scram_progress_other; [done|]. apply Hother. lia.
  - destruct Hres as (_ & _ & nonce & c & H1 & H2 & ->). exists nonce, c. split_and!; try done. by left.
  - destruct Hr as [-> Hch]. destruct Hres as (_ & c & c' & final & Hc & Hrec & ->).
    unfold scram_progress in Hp. rewrite Hc in Hp. destruct Hp as (nonce & c0 & H1 & H2 & H3).
    exists nonce, c0. split_and!; try done. right. cbn [scram_server_verified_].
    destruct H3 as [[-> Hv]|(m1 & first & response & H4 & H5 & H6 & _)].
    + exists m, (challenge_data request), final. split_and!; try done; [apply elem_last|by rewrite Hch|by rewrite Hv].
    + apply receive_again in H6 as [_ H6]. apply receive_again in Hrec as [Hrec _]. congruence.
  - destruct Hr as [-> Hch]. destruct Hres as (_ & c & Hc & Hver & ->).
    unfold scram_progress in Hp. rewrite Hc in Hp. destruct Hp as (nonce & c0 & H1 & H2 & H3).
    exists nonce, c0. split_and!; try done. right.
    destruct H3 as [[-> Hv]|(m1 & first & response & H4 & H5 & H6 & _)].
    + apply make_client_fresh in H2. unfold verify_server_final in Hver. by rewrite H2 in Hver.
    + exists m1, first, response. split_and!; try done; [apply elem_of_app; by left|]. intros _.
      exists nonce, c0, m1, first, response, c, m, (challenge_data request).
      split_and!; try done; [apply elem_of_app; by left|apply elem_last|by rewrite Hch].
  - destruct Hres as [-> _]. apply scram_progress_other; [done|]. apply Hother. lia.
Qed.

Lemma response_protected a a' request pw usr verified rnd r :
  auth_type request <> None_ -> r <> [] -> response_of a a' request pw usr verified rnd r ->
  verified = true \/ protected_response pw usr rnd r.
Proof.
  intros Hn Hr. unfold response_of.
  destruct (auth_type request); intros H; [done|..]; destruct_and? H; auto.
Qed.

(** Every response written so far is one an unverified peer may see. *)
Definition safe_sent (s : Settings) (st : Login) : Prop :=
  Forall (fun r => peer_identity_verified s = true \/ protected_response (credential s) (user s) (random s) r)
    (sent st).

Definition outcome_sent (o : Outcome) : list bytes :=
  match o with Ready st _ | Waiting st | Failed st _ => sent st end.

(** What an authentication request leads to. *)
Definition authentication_post (s : Settings) (ms : list Message) (m : Message) (o : Login + Outcome) : Prop :=
  match o with
  | inl st => login_inv s (ms ++ [m]) st
  | inr o => Forall (fun r => peer_identity_verified s = true \/
                              protected_response (credential s) (user s) (random s) r) (outcome_sent o)
  end.

Lemma caught_sent st e : outcome_sent (caught st e) = sent st.
Proof. by destruct e. Qed.

Lemma accepted_ok s ms st m rest a :
  safe_sent s st -> Forall before_ok ms -> scram_progress s ms (auth st) -> requests m 0 rest ->
  (scram_client_ (auth st) = None /\ a = auth st) \/
  (scram_server_verified_ (auth st) = true /\ a = clear_authentication_state) ->
  login_inv s (ms ++ [m])
    {| auth := a; authenticated := true; sent := sent st; server_params := server_params st;
       backend_key := backend_key st |}.
Proof.
  intros Hsent Hpre Hprog Hm Heff. split; [done|]. cbn. exists ms, m, [].
  split_and!; try done; [by exists rest|].
  intros (m' & data & Hin & H10). destruct Heff as [[Hc _]|[Hv _]]; unfold scram_progress in Hprog.
  - rewrite Hc in Hprog. destruct Hprog as [_ Hno]. by apply Hno in H10.
  - destruct (scram_client_ (auth st)); [|rewrite Hv in Hprog; by destruct Hprog].
    destruct Hprog as (nonce & c0 & _ & _ & [[_ Hv']|(m1 & first & response & _ & _ & _ & Hproved)]);
      [congruence|by apply Hproved].
Qed.

Lemma on_authentication_post s ms st m :
  login_inv s ms st -> tag m = ch "R" -> authentication_post s ms m (on_authentication s st (payload m)).
Proof.
  intros [Hsent Hinv] Ht. unfold on_authentication. destruct (authenticated st) eqn:Ea; [done|].
  destruct Hinv as [Hpre Hprog].
  destruct (parse_auth_request (auth st) (payload m)) as [a [request|e]] eqn:Ep;
    [|cbn; by rewrite caught_sent].
  apply parse_auth_request_inv in Ep as (code & rest & Hread & Hreq & Heff).
  assert (requests m code rest) as Hm by done.
  destruct (decide (auth_type request = None_)) as [En|En].
  { unfold request_of in Hreq. rewrite En in *. subst code. by eapply accepted_ok. }
  assert (code <> 0) as Hcode by (unfold request_of in Hreq; destruct (auth_type request); try done; lia).
  assert (a = auth st) as -> by (by destruct (auth_type request)).
  fold (credential s).
  destruct (create_auth_response (auth st) request (credential s) (user s) (peer_identity_verified s)
    (max_auth_wire_bytes s) (random s)) as [a' [r|e]] eqn:Er.
  2: { destruct (auth_type request); [done|..]; cbn; by rewrite caught_sent. }
  apply create_auth_response_inv in Er.
  pose proof (response_progress s ms m code rest request (auth st) a' r Hprog Hm Hreq En Er) as Hp'.
  assert (Forall before_ok (ms ++ [m])) as Hbefore.
  { apply Forall_app. split; [done|]. constructor; [by exists code, rest|constructor]. }
  assert (login_inv s (ms ++ [m]) (set_auth a' st)) as Hset
    by (split; [done|]; cbn [set_auth authenticated]; by rewrite Ea).
  assert (r <> [] -> safe_sent s {| auth := a'; authenticated := false; sent := sent st ++ [r];
    server_params := server_params st; backend_key := backend_key st |}) as Hsafe.
  { intros Hr. apply Forall_app. split; [done|]. constructor; [|constructor]. by eapply response_protected. }
  assert (authentication_post s ms m match r with
    | [] => inl (set_auth a' st)
    | _ => let st := {| auth := a'; authenticated := false; sent := sent st ++ [r];
                        server_params := server_params st; backend_key := backend_key st |} in
           match write_result s r with Some c => inr (fail st c) | None => inl st end
    end) as Hgoal.
  { destruct r as [|x r]; [done|]. destruct (write_result s (x :: r)); cbn; [by apply Hsafe|].
    split; [by apply Hsafe|done]. }
  destruct (auth_type request); [done|..]; by destruct r.
Qed.

Lemma on_authentication_inv s ms st m st' :
  login_inv s ms st -> tag m = ch "R" -> on_authentication s st (payload m) = inl st' ->
  login_inv s (ms ++ [m]) st'.
Proof. intros Hi Ht E. pose proof (on_authentication_post s ms st m Hi Ht) as H. by rewrite E in H. Qed.

Lemma after_ok_inv s ms st st' m :
  login_inv s ms st -> authenticated st = true -> after_ok m ->
  sent st' = sent st -> authenticated st' = true -> login_inv s (ms ++ [m]) st'.
Proof.
  intros [Hs Hi] Ha Hm Es Ea. rewrite Ha in Hi. split; [by rewrite Es|]. rewrite Ea.
  destruct Hi as (pre & ok & post & -> & Hpre & Hok & Hpost & Hp).
  exists pre, ok, (post ++ [m]). split_and!; try done.
  - by rewrite <- app_assoc.
  - apply Forall_app. split; [done|]. by constructor.
Qed.

Lemma login_message_inv s ms st m st' :
  login_inv s ms st -> login_message s st m = inl st' -> login_inv s (ms ++ [m]) st'.
Proof.
  intros Hi. unfold login_message. destruct (tag m =? ch "R") eqn:Er; zb; [by apply on_authentication_inv|].
  destruct (tag m =? ch "S") eqn:Es; zb.
  { destruct (authenticated st) eqn:Ea; [|done]. cbn [negb].
    destruct (record_parameter_status _) as [kv|]; [|done]. intros [= <-].
    apply (after_ok_inv s ms st); try done. by left. }
  destruct (tag m =? ch "K") eqn:Ek; zb.
  { destruct (authenticated st) eqn:Ea; [|done]. intros [= <-].
    apply (after_ok_inv s ms st); try done. right; by left. }
  destruct (is_error_response m); [done|].
  destruct (is_ready_for_query m) as [[]|]; [by destruct (authenticated st)| |done].
  destruct ((tag m =? ch "N") && authenticated st) eqn:En; [|done]. zb. intros [= <-].
  apply (after_ok_inv s ms st); try done. right; by right.
Qed.

Lemma login_steps_inv s ms st : login_steps s ms st -> login_inv s ms st.
Proof.
  induction 1 as [|ms st m st' _ IH H]; [|by eapply login_message_inv].
  split; [constructor|]. cbn. split; [constructor|]. split; [done|]. intros m data Hm. set_solver.
Qed.

(** The reads that were processed, as messages. *)
Definition received (reads : list Read) (ms : list Message) : Prop :=
  exists datas rest, reads = map ReadMessage datas ++ rest /\ Forall2 (fun d m => parse_message d = Ok m) datas ms.

Lemma login_message_ready s st m st' state :
  login_message s st m = inr (Ready st' state) ->
  st' = st /\ is_ready_for_query m = Ok true /\ authenticated st = true /\ state = ready_state (payload m).
Proof.
  unfold login_message, on_authentication, on_login_error, caught, fail. intros H.
  repeat case_match; try done; simplify_eq. repeat split.
  by match goal with H : negb ?b = false |- ?b = true => apply negb_false_iff in H end.
Qed.

Lemma login_loop_ready s reads : forall n st st' state,
  login_loop s n st reads = Ready st' state ->
  exists ms m, received reads (ms ++ [m]) /\
    (forall ms0, login_steps s ms0 st -> login_steps s (ms0 ++ ms) st') /\
    login_message s st' m = inr (Ready st' state).
Proof.
  induction reads as [|[data|c] reads IH]; intros n st st' state; cbn [login_loop];
    (destruct (n =? max_messages s); [done|]); [done| |done].
  destruct (parse_message data) as [m|] eqn:Em; [|by destruct e].
  destruct (login_message s st m) as [st1|o] eqn:El.
  - intros (ms & z & (datas & rest & -> & Hf) & Hsteps & Hz)%IH. exists (m :: ms), z. split_and!; [| |done].
    + exists (data :: datas), rest. split; [done|]. by constructor.
    + intros ms0 H0. rewrite cons_middle, app_assoc. apply Hsteps. by econstructor.
  - intros ->. pose proof El as (-> & _)%login_message_ready. exists [], m. split_and!; [| |done].
    + exists [data], reads. split; [done|]. by repeat constructor.
    + intros ms0 H0. by rewrite app_nil_r.
Qed.

Lemma perform_ready s reads st state :
  perform_authentication s reads = Ready st state ->
  exists ms m, received reads (ms ++ [m]) /\ login_inv s ms st /\
    is_ready_for_query m = Ok true /\ authenticated st = true /\ state = ready_state (payload m).
Proof.
  intros (ms & m & Hr & Hs & Hm)%login_loop_ready. exists ms, m. split; [done|].
  split; [apply login_steps_inv, (Hs []), steps_start|].
  by apply login_message_ready in Hm as (_ & ? & ? & ?).
Qed.

(** C26. A session becomes ready only after a well-ordered login: the messages
    the server sent are authentication requests other than Ok, then exactly one
    AuthenticationOk, then only parameter statuses, key data and notices, and
    last a ReadyForQuery whose status is the session's state.  When the server
    at any point offered SASL, the Ok was accepted only after the server proved,
    by its SCRAM signature over this client's exchange, that it knows the
    credential. *)
Theorem login_ready_authenticated (s : Settings) (reads : list Read) (st : Login) (state : SessionState) :
  perform_authentication s reads = Ready st state ->
  exists pre ok post ready,
    received reads (pre ++ ok :: post ++ [ready]) /\
    Forall before_ok pre /\ ok_message ok /\ Forall after_ok post /\
    is_ready_for_query ready = Ok true /\ state = ready_state (payload ready) /\
    ((exists m data, m ∈ pre /\ requests m 10 data) -> server_proved s pre).
Proof.
  intros (ms & m & Hr & [_ Hi] & Hm & Ha & Hs)%perform_ready. rewrite Ha in Hi.
  destruct Hi as (pre & ok & post & -> & Hpre & Hok & Hpost & Hp).
  exists pre, ok, post, m. rewrite <- app_assoc in Hr. by split_and!.
Qed.

Lemma login_message_sent s ms st m o :
  login_inv s ms st -> login_message s st m = inr o ->
  Forall (fun r => peer_identity_verified s = true \/ protected_response (credential s) (user s) (random s) r)
    (outcome_sent o).
Proof.
  intros Hi. pose proof Hi as [Hs _]. unfold login_message. destruct (tag m =? ch "R") eqn:Er; zb.
  { intros E. pose proof (on_authentication_post s ms st m Hi Er) as H. by rewrite E in H. }
  unfold on_login_error, caught. intros H. repeat case_match; simplify_eq; done.
Qed.

Lemma login_loop_sent s reads : forall n ms st,
  login_inv s ms st ->
  Forall (fun r => peer_identity_verified s = true \/ protected_response (credential s) (user s) (random s) r)
    (outcome_sent (login_loop s n st reads)).
Proof.
  induction reads as [|[data|c] reads IH]; intros n ms st Hi; cbn [login_loop];
    (destruct (n =? max_messages s); [apply Hi|]); [apply Hi| |apply Hi].
  destruct (parse_message data) as [m|e]; [|rewrite caught_sent; apply Hi].
  destruct (login_message s st m) as [st1|o] eqn:El.
  - eapply IH, login_message_inv; eauto.
  - by eapply login_message_sent.
Qed.

(** C25. Over a connection whose peer was not verified, a login sends no reusable
    credential, whatever the server asks for: every response it writes is an MD5
    answer to a salt, a SCRAM client-first message or a SCRAM proof, never the
    cleartext password or an identity-provider token; also when the login fails. *)
Theorem login_protects_credential (s : Settings) (reads : list Read) :
  peer_identity_verified s = false ->
  Forall (protected_response (credential s) (user s) (random s))
    (outcome_sent (perform_authentication s reads)).
Proof.
  intros Hv. eapply List.Forall_impl; [|apply (login_loop_sent s reads 0 []), login_steps_inv, steps_start].
  intros r [H|H]; [congruence|done].
Qed.

End Auth.

(** ** Concrete logins *)

Definition sample_settings : Settings :=
  {| user := str "u"; password := str "pencil"; native_idp := None; peer_identity_verified := false;
     max_auth_wire_bytes := 1000; max_messages := 20; write_result := fun _ => None;
     random := [1; 2; 3] |}.

Definition login_frame (t : Z) (payload : bytes) : Read := ReadMessage (frame t payload).

(** A SCRAM server that knows the password: the nonce of the sample random
    bytes is AQID. *)
Definition sample_server_first : bytes := str "r=AQIDxyz,s=AQI=,i=4096".
Definition sample_server_final : bytes :=
  server_final_message sample_hmac (server_key sample_hmac (sample_kdf (str "pencil") [1; 2] 4096))
    (str "n=u,r=AQID") sample_server_first (str "c=biws,r=AQIDxyz").

Definition scram_login : list Read :=
  [login_frame (ch "R") (be32 10 ++ cstring (str "SCRAM-SHA-256") ++ [0]);
   login_frame (ch "R") (be32 11 ++ sample_server_first);
   login_frame (ch "R") (be32 12 ++ sample_server_final);
   login_frame (ch "R") (be32 0);
   login_frame (ch "S") (cstring (str "client_encoding") ++ cstring (str "UTF8"));
   login_frame (ch "Z") [ch "I"]].

Abbreviation sample_login := (perform_authentication sample_hash sample_hmac sample_kdf sample_hash sample_settings).

Lemma login_ready_authenticated_witness :
  exists st pre ok post ready,
    sample_login scram_login = Ready st Idle /\
    received scram_login (pre ++ ok :: post ++ [ready]) /\
    ((exists m data, m ∈ pre /\ requests m 10 data) ->
     server_proved sample_hash sample_hmac sample_kdf sample_settings pre).
Proof.
  destruct (sample_login scram_login) as [st state|st f|st] eqn:E; try (exfalso; vm_compute in E; discriminate).
  assert (state = Idle) as -> by (vm_compute in E; congruence).
  destruct (login_ready_authenticated sample_hash sample_hmac sample_kdf sample_hash sample_settings scram_login st Idle E)
    as (pre & ok & post & ready & Hr & _ & _ & _ & _ & _ & Hp).
  exists st, pre, ok, post, ready. split; [reflexivity|]. split; [exact Hr|exact Hp].
Defined.

(** A server that skips its signature, or asks for the password in clear, is
    refused. *)
Example login_refused :
  (exists st, sample_login (take 2 scram_login ++ drop 3 scram_login) =
     Failed st {| code := ProtocolError; operation := OpAuthenticate; failure_state := None |}) /\
  (exists st, sample_login [login_frame (ch "R") (be32 3)] =
     Failed st {| code := ProtocolError; operation := OpAuthenticate; failure_state := None |}).
Proof. split; eexists; vm_compute; reflexivity. Qed.

Lemma login_protects_credential_witness :
  Forall (protected_response sample_hash sample_hmac sample_kdf sample_hash (str "pencil") (str "u") [1; 2; 3])
    (outcome_sent (sample_login scram_login)) /\ length (outcome_sent (sample_login scram_login)) = 2%nat.
Proof.
  split; [|vm_compute; reflexivity].
  exact (login_protects_credential sample_hash sample_hmac sample_kdf sample_hash sample_settings scram_login eq_refl).
Defined.
