(* ===== verification/PgValue.v ===== *)
(** * PostgreSQL values, types and error states

    How the text of a result cell becomes the canonical value of its type
    ([pg_value.h], [pg_value.cpp]), which type a native identifier is
    ([pg_type_info.cpp]), which types are advertised ([pg_type_catalog.cpp]) and
    which ODBC state a server error is ([pg_error.cpp]).

    [strtod_l] and [std::to_chars] of floating-point numbers are library code:
    [reparse] is the pair of them, see below. *)

From S2P Require Import Prelude Utf8 Hex Digits ScaledDecimal PgWire PgIeee PgRequest PgResult Scram PgAuth Backend.

(** ** Types *)

(** A value as a [std::int16_t]. *)
Definition to_int16 (v : Z) : Z := let u := v mod 2 ^ 16 in if u <? 2 ^ 15 then u else u - 2 ^ 16.

Definition type_info (t : ScalarType) (size digits : Z) (known_ : bool) : NativeTypeInfo :=
  {| scalar := t; column_size := size; decimal_digits := digits; known := known_; declared_type := None;
     declared_column_size := None; type_name := None |}.
Definition named_type (name : bytes) (t : NativeTypeInfo) : NativeTypeInfo :=
  {| scalar := scalar t; column_size := column_size t; decimal_digits := decimal_digits t; known := known t;
     declared_type := declared_type t; declared_column_size := declared_column_size t; type_name := Some name |}.

(** A time or timestamp of [whole] characters and its fraction. *)
Definition temporal_type (t : ScalarType) (whole type_modifier : Z) : NativeTypeInfo :=
  let precision := if 0 <=? type_modifier then type_modifier else 6 in
  type_info t (whole + (if 0 <? precision then 1 + precision else 0)) (to_int16 precision) true.

Definition numeric_type (type_modifier : Z) : NativeTypeInfo :=
  if type_modifier <? 4 then type_info SNumeric 0 0 true
  else
    let modifier := type_modifier - 4 in
    let encoded_scale := Z.land modifier 0x7ff in
    type_info SNumeric (Z.land (Z.shiftr modifier 16) 0xffff)
      (to_int16 (if 1024 <=? encoded_scale then encoded_scale - 2048 else encoded_scale)) true.

(** [PgProtocolParser::describe_type]. *)
Definition describe_pg_type (oid type_size type_modifier : Z) : NativeTypeInfo :=
  let sized := if 0 <? type_size then type_size else 0 in
  let length := if 4 <=? type_modifier then type_modifier - 4 else 0 in
  if oid =? 16 then type_info SBoolean 1 0 true
  else if oid =? 17 then type_info SBinary sized 0 true
  else if oid =? 18 then type_info SChar 1 0 true
  else if oid =? 19 then type_info SVarChar 63 0 true
  else if oid =? 20 then type_info SBigInt 19 0 true
  else if oid =? 21 then type_info SSmallInt 5 0 true
  else if oid =? 23 then type_info SInteger 10 0 true
  else if oid =? 25 then type_info SVarChar 0 0 true
  else if oid =? 26 then type_info SBigInt 10 0 true
  else if oid =? 700 then type_info SReal 7 6 true
  else if oid =? 701 then type_info SDouble 15 15 true
  else if oid =? 1042 then type_info SChar length 0 true
  else if oid =? 1043 then type_info SVarChar length 0 true
  else if oid =? 1082 then type_info SDate 10 0 true
  else if oid =? 1083 then temporal_type STime 8 type_modifier
  else if oid =? 1266 then temporal_type STime 14 type_modifier
  else if oid =? 1114 then temporal_type STimestamp 19 type_modifier
  else if oid =? 1184 then temporal_type STimestamp 25 type_modifier
  else if oid =? 2950 then type_info SVarChar 36 0 true
  else if (oid =? 114) || (oid =? 3802) then type_info SVarChar 0 0 true
  else if oid =? 1700 then numeric_type type_modifier
  else type_info SVarChar sized 0 false.

(** [PgDatabaseConnection::describe_type]. *)
Definition describe_type (profile : PgCatalogProfile) (id size modifier : Z) : NativeTypeInfo :=
  let redshift := bool_decide (profile = Redshift) in
  if redshift && (id =? 6551) then type_info SLongVarBinary 0 0 true
  else if redshift && (id =? 4000) then named_type (str "super") (type_info SLongVarChar 0 0 true)
  else if redshift && ((id =? 3000) || (id =? 3001) || (id =? 3999)) then
    named_type (if id =? 3001 then str "geography" else str "geometry") (type_info SLongVarBinary 0 0 true)
  else describe_pg_type id size modifier.

(** ** Cells *)

(** The escape format of [bytea]: a backslash is doubled, any byte may be three
    octal digits. *)
Definition octal_digit (hi c : Z) : bool := (ch "0" <=? c) && (c <=? hi).
Fixpoint unescape (value : bytes) : option bytes :=
  match value with
  | [] => Some []
  | c :: t =>
      if negb (c =? 92) then cons c <$> unescape t
      else
        match t with
        | d :: ((e :: f :: u) as v) =>
            if d =? 92 then cons 92 <$> unescape v
            else if octal_digit (ch "3") d && octal_digit (ch "7") e && octal_digit (ch "7") f
            then cons ((d - ch "0") * 64 + (e - ch "0") * 8 + (f - ch "0")) <$> unescape u
            else None
        | d :: v => if d =? 92 then cons 92 <$> unescape v else None
        | [] => None
        end
  end.

Definition normalize_pg_result_value (type : ScalarType) (value : bytes) : option bytes :=
  match type with
  | SBoolean =>
      if beq value (str "t") || beq value (str "true") || beq value (str "1") then Some (str "1")
      else if beq value (str "f") || beq value (str "false") || beq value (str "0") then Some (str "0")
      else None
  | SBinary => if starts_with value (str "\x") then decode_hex (drop 2 value) else unescape value
  | _ => Some value
  end.

(** *** Floating-point text *)

Definition float_character (c : Z) : bool :=
  isdigit c || (c =? ch ".") || (c =? ch "-") || (c =? ch "+") || (c =? ch "e") || (c =? ch "E").

(** The position of a character that satisfies [f], [std::string::npos] when there is none. *)
Fixpoint find_by (f : Z -> bool) (s : bytes) : option nat :=
  match s with [] => None | c :: t => if f c then Some O else S <$> find_by f t end.
Definition before_position (a b : option nat) : bool :=
  match a, b with
  | Some i, Some j => (i <? j)%nat
  | Some _, None => true
  | None, _ => false
  end.
Definition is_exponent (c : Z) : bool := (c =? ch "e") || (c =? ch "E").

(** A spelling that is zero only because it underflowed. *)
Definition underflowed (zero : bool) (text : bytes) : bool :=
  zero && before_position (find_by (fun c => isdigit c && negb (c =? ch "0")) text) (find_by is_exponent text).

(** The digits and the exponent of the scientific text [d.ddde+xx]. *)
Definition split_scientific (scientific : bytes) : option (bool * bytes * Z) :=
  let '(negative, body) := match scientific with
                           | c :: t => if c =? ch "-" then (true, t) else (false, scientific)
                           | [] => (false, [])
                           end in
  match find_char (ch "e") body with
  | None => None
  | Some marker =>
      let ds := List.filter (fun c => negb (c =? ch ".")) (take marker body) in
      let ex := match drop (S marker) body with
                | c :: t => if c =? ch "+" then t else c :: t
                | [] => []
                end in
      match from_chars_signed (- 2 ^ 31) (2 ^ 31 - 1) ex with
      | FromChars exponent _ => if beq ds [] then None else Some (negative, ds, exponent)
      | _ => None
      end
  end.

(** The default notation of the server for the digits and the exponent. *)
Definition place_point (ds : bytes) (exponent notation_digits : Z) : bytes :=
  if (exponent <? -4) || (notation_digits <=? exponent) then
    let magnitude := to_string (Z.abs exponent) in
    take 1 ds ++ (if 1 <? size ds then str "." ++ drop 1 ds else []) ++
    (if exponent <? 0 then str "e-" else str "e+") ++ (if size magnitude <? 2 then str "0" else []) ++ magnitude
  else if 0 <=? exponent then
    let whole := Z.to_nat (exponent + 1) in
    if (length ds <=? whole)%nat then ds ++ replicate (whole - length ds) (ch "0")
    else take whole ds ++ str "." ++ drop whole ds
  else str "0." ++ replicate (Z.to_nat (- exponent - 1)) (ch "0") ++ ds.

Section Values.
(** [reparse wide text]: [strtod_l] ([strtof_l]) in the C locale consumes all of
    [text] and gives a finite number; whether it is zero, and its shortest
    scientific spelling by [std::to_chars]. *)
Context (reparse : bool -> bytes -> option (bool * bytes)).
(** The locale could be created. *)
Context (locale_ready : bool).
Context (profile : PgCatalogProfile).

Definition shortest_floating_text (wide : bool) (value : bytes) (notation_digits : Z) : option bytes :=
  if beq value [] || (64 <? size value) || beq value (str "NaN") || beq value (str "Infinity") ||
     beq value (str "-Infinity") then None
  else if negb (forallb float_character value) then None
  else if negb locale_ready then None
  else
    match reparse wide value with
    | None => None
    | Some (zero, scientific) =>
        if underflowed zero value then None
        else
          match split_scientific scientific with
          | None => None
          | Some (negative, ds, exponent) =>
              Some ((if negative : bool then str "-" else []) ++ place_point ds exponent notation_digits)
          end
    end.

Definition normalize_result_value (type : ScalarType) (value : bytes) : option bytes :=
  match type with
  | SLongVarBinary => if bool_decide (profile = Redshift) then decode_hex value else None
  | _ => normalize_pg_result_value type value
  end.

Definition normalize_native_result_value (id : Z) (type : ScalarType) (value : bytes) : option bytes :=
  if bool_decide (profile = Redshift) && (bool_decide (type = SDouble) || bool_decide (type = SReal)) then
    Some (default value (if bool_decide (type = SDouble) then shortest_floating_text true value 15
                         else shortest_floating_text false value 6))
  else if bool_decide (profile = Redshift) && (id =? 3000) && bool_decide (type = SLongVarBinary) then
    if negb (beq value []) && negb (at_pos value 0 =? 0) && negb (at_pos value 0 =? 1) then None else Some value
  else normalize_result_value type value.
End Values.

(** ** Error states *)

Inductive ErrorContext := UnknownContext | InCreateTable | InCreateView | InCreateIndex | InDropIndex.
#[export] Instance ErrorContext_eq_dec : EqDecision ErrorContext. Proof. solve_decision. Defined.

Definition state_character (c : Z) : bool := isdigit c || ((ch "A" <=? c) && (c <=? ch "Z")).
Definition normalize_state (server_state : bytes) (context : ErrorContext) : option bytes :=
  let is_state s := beq server_state (str s) in
  if negb (size server_state =? 5) || negb (forallb state_character server_state) then None
  else if is_state "22P02" then Some (str "22018")
  else if beq (take 2 server_state) (str "22") then Some server_state
  else if beq (take 2 server_state) (str "23") then Some (str "23000")
  else if is_state "25P02" then Some (str "25P02")
  else if is_state "3F000" then Some (str "3F000")
  else if is_state "42P07" then
    match context with
    | InCreateIndex => Some (str "42S11")
    | InCreateTable | InCreateView => Some (str "42S01")
    | _ => None
    end
  else if is_state "42P01" then Some (str "42S02")
  else if is_state "42704" && bool_decide (context = InDropIndex) then Some (str "42S12")
  else if is_state "42701" then Some (str "42S21")
  else if is_state "42703" then Some (str "42S22")
  else None.

(** The column of a Redshift NOT NULL violation: printable and not blank. *)
Definition printable_point (p : Z) : bool :=
  negb ((p <? 0x20) || ((0x7f <=? p) && (p <=? 0x9f)) || (p =? 0x2028) || (p =? 0x2029)).
Fixpoint column_points (fuel : nat) (column : bytes) (nonblank : bool) : bool :=
  match column, fuel with
  | [], _ => nonblank
  | _, O => false
  | _, S fuel =>
      match next_utf8_code_point column with
      | Some (point, rest) =>
          if printable_point point then column_points fuel rest (nonblank || negb (point =? 32)) else false
      | None => false
      end
  end.
Definition redshift_null_violation_column (column : bytes) : bool :=
  if beq column [] || (127 <? size column) then false else column_points (length column) column false.

Definition null_violation_prefix : bytes := str "Query error: Cannot insert a NULL value into column ".

(** The overload for a [BackendError]: its code, class, message and native state. *)
Definition normalize_error_sqlstate (profile : PgCatalogProfile) (code : DbErrorCode) (cls : BackendErrorClass)
    (message : bytes) (native_state : option bytes) (context : ErrorContext) : option bytes :=
  if bool_decide (profile = Redshift) && bool_decide (context = UnknownContext) && bool_decide (code = QueryFailed) &&
     bool_decide (cls = CServer) && bool_decide (native_state = Some (str "XX000")) &&
     starts_with message null_violation_prefix &&
     redshift_null_violation_column (drop (length null_violation_prefix) message)
  then Some (str "23000")
  else normalize_state (default [] native_state) context.

(** ** The escape format is read exactly *)

(** The spellings of a byte string in the escape format. *)
Inductive escaped : bytes -> bytes -> Prop :=
| escaped_nil : escaped [] []
| escaped_plain c v t : c <> 92 -> escaped v t -> escaped (c :: v) (c :: t)
| escaped_backslash v t : escaped v t -> escaped (92 :: v) (92 :: 92 :: t)
| escaped_octal a b c v t : 0 <= a <= 3 -> 0 <= b <= 7 -> 0 <= c <= 7 -> escaped v t ->
    escaped (a * 64 + b * 8 + c :: v) (92 :: ch "0" + a :: ch "0" + b :: ch "0" + c :: t).

Lemma octal_digit_spec hi c : octal_digit hi c = true <-> ch "0" <= c <= hi.
Proof. unfold octal_digit. by rewrite andb_true_iff, !Z.leb_le. Qed.

Lemma unescape_complete v t : escaped v t -> unescape t = Some v.
Proof.
  induction 1 as [|c v t Hc He IH|v t He IH|a b c v t Ha Hb Hc He IH]; [done|..]; cbn [unescape].
  - ztest. cbn. by rewrite IH.
  - cbn. destruct t as [|d [|e t]]; by rewrite IH.
  - cbn [Z.eqb negb]. change (92 =? 92) with true. cbn [negb]. ztest.
    assert (octal_digit (ch "3") (ch "0" + a) && octal_digit (ch "7") (ch "0" + b) && octal_digit (ch "7") (ch "0" + c) = true) as ->.
    { rewrite !andb_true_iff, !octal_digit_spec. cbn. lia. }
    rewrite IH. cbn. do 2 f_equal. lia.
Qed.

Lemma fmap_cons_Some (c : Z) (o : option bytes) v : cons c <$> o = Some v -> exists w, o = Some w /\ v = c :: w.
Proof. destruct o; intros [= <-]; eauto. Qed.

Lemma unescape_sound t v : unescape t = Some v -> escaped v t.
Proof.
  revert v. induction (Wf_nat.well_founded_ltof _ (@length Z) t) as [t _ IH]. unfold Wf_nat.ltof in IH. intros v.
  destruct t as [|c t]; cbn [unescape]; [intros [= <-]; constructor|].
  destruct (c =? 92) eqn:Hc; zb; cbn [negb].
  2: { intros (w & Hw & ->)%fmap_cons_Some. constructor; [done|]. apply IH; [cbn; lia|done]. }
  subst c. destruct t as [|d t]; [done|].
  assert (d = 92 -> forall w, unescape t = Some w -> escaped (92 :: w) (92 :: d :: t)) as Hb.
  { intros -> w Hw. apply escaped_backslash, IH; [cbn; lia|done]. }
  destruct t as [|e [|f u]].
  1,2: destruct (d =? 92) eqn:Hd; zb; [|done]; intros (w & Hw & ->)%fmap_cons_Some; by apply Hb.
  destruct (d =? 92) eqn:Hd; zb; [intros (w & Hw & ->)%fmap_cons_Some; by apply Hb|].
  destruct (_ && _ && _) eqn:Ho; [|done]. rewrite !andb_true_iff, !octal_digit_spec in Ho. cbn in Ho.
  intros (w & Hw & ->)%fmap_cons_Some.
  pose proof (escaped_octal (d - ch "0") (e - ch "0") (f - ch "0") w u) as H.
  replace (ch "0" + (d - ch "0")) with d in H by lia. replace (ch "0" + (e - ch "0")) with e in H by lia.
  replace (ch "0" + (f - ch "0")) with f in H by lia. apply H; [cbn; lia..|]. apply IH; [cbn; lia|done].
Qed.

(** A cell of type [bytea] is read exactly: as hexadecimal after its mark, else
    as the byte string it is an escaped spelling of. *)
Lemma binary_cell_exact t v :
  normalize_pg_result_value SBinary t = Some v <->
  if starts_with t (str "\x") then decode_hex (drop 2 t) = Some v else escaped v t.
Proof.
  cbn. destruct (starts_with t _); [done|]. split; [apply unescape_sound|apply unescape_complete].
Qed.

(** ** The point is placed without changing the number *)

Lemma exponent_spelled x :
  exponent_text ((if x <? 0 then str "e-" else str "e+") ++ (if size (to_string (Z.abs x)) <? 2 then str "0" else []) ++
                 to_string (Z.abs x)) x.
Proof.
  destruct (to_string_spec (Z.abs x)) as (H1 & H2 & H3 & _); [lia|]. set (m := to_string (Z.abs x)) in *.
  assert (digits ((if size m <? 2 then str "0" else []) ++ m)) as Hd.
  { apply Forall_app. split; [|done]. destruct (size m <? 2); [|constructor]. by repeat constructor. }
  assert (digits_value ((if size m <? 2 then str "0" else []) ++ m) = Z.abs x) as Hv.
  { rewrite digits_value_app, H3. destruct (size m <? 2); [change (digits_value (str "0")) with 0|change (digits_value []) with 0]; lia. }
  assert ((if size m <? 2 then str "0" else []) ++ m <> []) as Hn by (by intros [_ ?]%app_eq_nil).
  destruct (x <? 0) eqn:Hx; zb.
  - pose proof (exponent_some (ch "e") (str "-") true _ (or_introl eq_refl) sign_minus Hd Hn) as H.
    rewrite Hv in H. by replace (- Z.abs x) with x in H by lia.
  - pose proof (exponent_some (ch "e") (str "+") false _ (or_introl eq_refl) sign_plus Hd Hn) as H.
    rewrite Hv in H. by replace (Z.abs x) with x in H by lia.
Qed.

(** [ds] with the point after its first digit, times ten to the [exponent]: the
    text is a decimal literal of that number, possibly with zeros appended. *)
Lemma place_point_exact ds exponent notation_digits :
  digits ds -> ds <> [] ->
  exists whole fraction e k, number_text (place_point ds exponent notation_digits) whole fraction e /\ 0 <= k /\
    digits_value (whole ++ fraction) = digits_value ds * 10 ^ k /\
    e - size fraction = exponent - (size ds - 1) - k.
Proof.
  intros Hd Hn. unfold place_point. destruct ds as [|d ds]; [done|].
  destruct (Forall_cons_1 _ _ _ Hd) as [Hd1 Hd2].
  destruct ((exponent <? -4) || (notation_digits <=? exponent)) eqn:Hs; [|destruct (0 <=? exponent) eqn:Hx; zb].
  - exists [d], ds, exponent, 0. split; [|rewrite Z.mul_1_r; unfold size; cbn [length app]; split_and!; lia].
    destruct (1 <? size (d :: ds)) eqn:H1; zb.
    + apply (number_point [d] ds); [by repeat constructor|done|done|apply exponent_spelled].
    + destruct ds; [|unfold size in H1; cbn in H1; lia].
      apply (number_whole [d]); [by repeat constructor|done|apply exponent_spelled].
  - destruct (length (d :: ds) <=? Z.to_nat (exponent + 1))%nat eqn:Hl; [apply Nat.leb_le in Hl|apply Nat.leb_gt in Hl].
    + set (n := (Z.to_nat (exponent + 1) - length (d :: ds))%nat).
      exists ((d :: ds) ++ replicate n (ch "0")), [], 0, (Z.of_nat n). split; [|split; [lia|split]].
      * pose proof (number_whole ((d :: ds) ++ replicate n (ch "0")) [] 0) as Hnum. rewrite app_nil_r in Hnum.
        apply Hnum; [apply Forall_app; split; [done|apply digits_replicate]|done|constructor].
      * rewrite app_nil_r, digits_value_app, digits_value_zeros. unfold size. rewrite length_replicate. lia.
      * unfold size, n in *. cbn [length] in *. lia.
    + exists (take (Z.to_nat (exponent + 1)) (d :: ds)), (drop (Z.to_nat (exponent + 1)) (d :: ds)), 0, 0.
      rewrite take_drop, Z.mul_1_r. split; [|split; [lia|split; [done|]]].
      * pose proof (number_point (take (Z.to_nat (exponent + 1)) (d :: ds)) (drop (Z.to_nat (exponent + 1)) (d :: ds)) [] 0) as Hnum.
        rewrite app_nil_r in Hnum. apply Hnum; [by apply Forall_take|by apply Forall_drop|by rewrite take_drop|constructor].
      * unfold size. rewrite length_drop. cbn [length] in *. lia.
  - set (n := Z.to_nat (- exponent - 1)). exists (str "0"), (replicate n (ch "0") ++ d :: ds), 0, 0.
    split; [|split; [lia|split]].
    + pose proof (number_point (str "0") (replicate n (ch "0") ++ d :: ds) [] 0) as Hnum. rewrite app_nil_r in Hnum.
      apply Hnum; [by repeat constructor|apply Forall_app; split; [apply digits_replicate|done]|done|constructor].
    + rewrite digits_value_app, (digits_value_app (replicate _ _)), digits_value_zeros. change (digits_value (str "0")) with 0. lia.
    + unfold size, n. rewrite length_app, length_replicate. cbn [length]. lia.
Qed.
