(* ===== verification/Connection.v ===== *)
(** * The connection and its byte stream

    [core/database/generic_database_connection.cpp], the part of a connection
    that owns the transport: its state, how it is given up
    ([mark_transport_failed], [disconnect]), and how whole messages are written
    to and read from a stream that accepts and delivers them in pieces
    ([write_all_result], [read_message_result]).

    The transport, the clock and the endpoint another thread cancels an
    operation through are code of other components: operations of an interface
    [Peer] on an environment [E].  [StreamPeer] adds what a byte stream
    guarantees.  An allocation always succeeds. *)

From S2P Require Import Prelude PgWire PgIeee PgRequest PgResult Scram PgAuth Backend.

(** ** What the connection calls *)

(** What [ITransport::recv] answers: the count and the end-of-file mark it
    returns, and the bytes it stored from the start of the buffer. *)
Record Received := { r_n : N; r_eof : bool; r_data : bytes }.

Record CancellationOutcome := { claimed : bool; confirmed : bool; retire : bool }.
Definition no_outcome : CancellationOutcome := {| claimed := false; confirmed := false; retire := false |}.

(** [rs::util::Result]. *)
Inductive Result (A : Type) := Value (a : A) | Error (c : DbErrorCode).
Arguments Value {A} a.
Arguments Error {A} c.
#[export] Instance Result_inhabited {A} : Inhabited (Result A) := populate (Error OtherError).

Class Peer (E : Type) := {
  send : bytes -> Z -> E -> E * Result N;
  recv : Z -> Z -> E -> E * Result Received;
  close : E -> E;
  now : E -> E * Z;
  (** the endpoint of the operation in progress, [SessionCancellationWire] *)
  seal : nat -> E -> E * CancellationOutcome;
  before_wire : nat -> E -> E * bool;
  sent_request : nat -> E -> E;
  error_observed : nat -> bytes -> E -> E;
  drained : nat -> bool -> E -> E * CancellationOutcome;
  next_phase : nat -> E -> E * bool;
  enter_resolver : nat -> E -> E * bool;
  leave_resolver : nat -> E -> E;
  (** [IServerCancelTransport::cancellation_wait], no effect on other transports *)
  cancellation_wait : option nat -> E -> E;
}.

(** ** The state *)

Record ParsedColumnProvenance := { pv_table_oid : Z; pv_attribute_number : Z }.

(** The members of [GenericDatabaseConnection]; [cancellation_key_] and
    [catalog_mode_] are those [PgDatabaseConnection] adds. *)
Record Conn := MkConn {
  connected_ : bool;
  session_state_ : SessionState;
  transport_closed_after_failure_ : bool;
  server_params_ : gmap bytes bytes;
  peer_identity_verified_ : bool;
  result_provenance_ : list (Z * list ParsedColumnProvenance);
  next_result_id_ : Z;
  cancellation_phase_active_ : bool;
  cancellation_operation_ : option nat;
  cancellation_key_ : option bytes;
  auth_ : Auth;
  settings_ : ConnectionSettings;
  catalog_mode_ : RedshiftCatalogMode;
}.

(** A connection as it is constructed. *)
Definition initial_conn : Conn := {|
  connected_ := false; session_state_ := Disconnected; transport_closed_after_failure_ := false;
  server_params_ := ∅; peer_identity_verified_ := false; result_provenance_ := []; next_result_id_ := 1;
  cancellation_phase_active_ := false; cancellation_operation_ := None; cancellation_key_ := None;
  auth_ := clear_authentication_state; settings_ := default_settings; catalog_mode_ := Show_ |}.

Definition set_session_state (v : SessionState) (c : Conn) : Conn :=
  let '(MkConn a _ d e f g h i j k l m n) := c in MkConn a v d e f g h i j k l m n.
Definition set_params (v : gmap bytes bytes) (c : Conn) : Conn :=
  let '(MkConn a b d _ f g h i j k l m n) := c in MkConn a b d v f g h i j k l m n.
Definition set_peer_verified (v : bool) (c : Conn) : Conn :=
  let '(MkConn a b d e _ g h i j k l m n) := c in MkConn a b d e v g h i j k l m n.
Definition set_provenance (v : list (Z * list ParsedColumnProvenance)) (c : Conn) : Conn :=
  let '(MkConn a b d e f _ h i j k l m n) := c in MkConn a b d e f v h i j k l m n.
Definition set_next_result (v : Z) (c : Conn) : Conn :=
  let '(MkConn a b d e f g _ i j k l m n) := c in MkConn a b d e f g v i j k l m n.
Definition set_phase_active (v : bool) (c : Conn) : Conn :=
  let '(MkConn a b d e f g h _ j k l m n) := c in MkConn a b d e f g h v j k l m n.
Definition set_cancellation (v : option nat) (c : Conn) : Conn :=
  let '(MkConn a b d e f g h i _ k l m n) := c in MkConn a b d e f g h i v k l m n.
Definition set_key (v : option bytes) (c : Conn) : Conn :=
  let '(MkConn a b d e f g h i j _ l m n) := c in MkConn a b d e f g h i j v l m n.
Definition set_connection_auth (v : Auth) (c : Conn) : Conn :=
  let '(MkConn a b d e f g h i j k _ m n) := c in MkConn a b d e f g h i j k v m n.
Definition set_settings (v : ConnectionSettings) (c : Conn) : Conn :=
  let '(MkConn a b d e f g h i j k l _ n) := c in MkConn a b d e f g h i j k l v n.
Definition set_catalog_mode (v : RedshiftCatalogMode) (c : Conn) : Conn :=
  let '(MkConn a b d e f g h i j k l m _) := c in MkConn a b d e f g h i j k l m v.
Definition set_closed (v : bool) (c : Conn) : Conn :=
  let '(MkConn a b _ e f g h i j k l m n) := c in MkConn a b v e f g h i j k l m n.
Definition set_connected (v : bool) (c : Conn) : Conn :=
  let '(MkConn _ b d e f g h i j k l m n) := c in MkConn v b d e f g h i j k l m n.

(** The same, connected and idle. *)
Definition idle_conn : Conn := set_connected true (set_session_state Idle initial_conn).

(** The password and the token of the settings are overwritten and dropped, and
    the parser forgets its exchange. *)
Definition without_credentials (s : ConnectionSettings) : ConnectionSettings :=
  {| cs_host := cs_host s; cs_user := cs_user s; cs_password := []; cs_database := cs_database s;
     cs_port := cs_port s; cs_timeout := cs_timeout s; cs_use_ssl := cs_use_ssl s;
     cs_ssl_ca_file := cs_ssl_ca_file s; cs_ssl_ca_dir := cs_ssl_ca_dir s;
     response_limits := response_limits s; result_limits := result_limits s; input_limits := input_limits s;
     startup_response_limits := startup_response_limits s; redshift_catalog_mode := redshift_catalog_mode s;
     application_name := application_name s; cs_native_idp := None; read_only := read_only s;
     character_metadata := character_metadata s; detailed_table_types := detailed_table_types s;
     catalog_database_scope := catalog_database_scope s |}.
Definition clear_authentication (c : Conn) : Conn :=
  set_connection_auth clear_authentication_state (set_settings (without_credentials (settings_ c)) c).

(** ** Programs on a connection *)

Record Session (E : Type) := { conn : Conn; io : E }.
Arguments conn {E} _.
Arguments io {E} _.

Definition M (E A : Type) : Type := Session E -> Session E * A.
#[export] Instance M_ret {E} : MRet (M E) := fun A a s => (s, a).
#[export] Instance M_bind {E} : MBind (M E) := fun A B f m s => let '(s, a) := m s in f a s.

Section Operations.
Context {E : Type} `{!Peer E}.
Implicit Types (s : Session E) (deadline : Z).

Definition get : M E Conn := fun s => (s, conn s).
Definition modify (f : Conn -> Conn) : M E unit := fun s => ({| conn := f (conn s); io := io s |}, tt).
Definition call {A} (f : E -> E * A) : M E A := fun s =>
  let '(e, a) := f (io s) in ({| conn := conn s; io := e |}, a).
Definition effect (f : E -> E) : M E unit := call (fun e => (f e, tt)).

(** A loop: the body yields the next state or leaves with a result.  The bound
    is the measure of the initial state. *)
Fixpoint loop_fuel {S A} (n : nat) (step : S -> M E (S + Result A)) (x : S) : M E (Result A) := fun s =>
  match n with
  | O => (s, inhabitant)
  | Datatypes.S n =>
      match step x s with
      | (s, inl x) => loop_fuel n step x s
      | (s, inr r) => (s, r)
      end
  end.
Definition loop {S A} (measure : S -> nat) (step : S -> M E (S + Result A)) (x : S) : M E (Result A) :=
  loop_fuel (Datatypes.S (measure x)) step x.

(** ** Giving the transport up *)

Definition mark_transport_failed : M E unit :=
  c ← get;
  _ ← match cancellation_operation_ c with Some k => _ ← call (seal k); mret tt | None => mret tt end;
  _ ← modify (fun c => set_session_state Disconnected (set_connected false (set_key None c)));
  if connected_ c then _ ← effect close; modify (set_closed true) else mret tt.

Definition finish_cancellation_operation (endpoint : option nat) : M E CancellationOutcome :=
  c ← get;
  match endpoint with
  | Some k =>
      if bool_decide (cancellation_operation_ c = Some k) then
        outcome ← call (seal k);
        _ ← effect (cancellation_wait None);
        _ ← modify (fun c => set_phase_active false (set_cancellation None c));
        _ ← (if retire outcome then mark_transport_failed else mret tt);
        mret outcome
      else mret no_outcome
  | None => mret no_outcome
  end.

Definition disconnect : M E unit :=
  _ ← modify (set_key None);
  c ← get;
  _ ← match cancellation_operation_ c with
      | Some k => _ ← finish_cancellation_operation (Some k); mret tt
      | None => mret tt
      end;
  _ ← modify clear_authentication;
  c ← get;
  _ ← (if transport_closed_after_failure_ c then mret tt else _ ← effect close; modify (set_closed true));
  modify (fun c => set_provenance [] (set_peer_verified false (set_params ∅
           (set_session_state Disconnected (set_connected false c))))).

Definition install_cancellation (k : nat) : M E unit :=
  modify (fun c => set_phase_active true (set_cancellation (Some k) c)).

Definition continue_cancellation_operation (endpoint : option nat) : M E bool :=
  c ← get;
  match endpoint with
  | Some k =>
      if bool_decide (cancellation_operation_ c = Some k) then
        _ ← modify (set_phase_active true);
        continued ← call (next_phase k);
        if continued : bool then _ ← effect (cancellation_wait (Some k)); mret true else mret false
      else mret false
  | None => mret false
  end.

(** [mark_transport_failed(); return {code, ...};] *)
Definition abandon {A} (c : DbErrorCode) : M E (Result A) := _ ← mark_transport_failed; mret (Error c).

(** ** Writing *)

Definition passed deadline : M E bool := t ← call now; mret (deadline <=? t).

Definition late (enforce : bool) deadline : M E bool := if enforce then passed deadline else mret false.

Definition write_step (enforce : bool) deadline (data : bytes) (offset : nat) : M E (nat + Result unit) :=
  if (length data <=? offset)%nat then mret (inr (Value tt))
  else
    expired ← late enforce deadline;
    if expired : bool then r ← abandon Timeout; mret (inr r)
    else
      let requested := size data - Z.of_nat offset in
      answer ← call (send (drop offset data) deadline);
      match answer with
      | Error c => r ← abandon c; mret (inr r)
      | Value n =>
          if requested <? Z.of_N n then r ← abandon ProtocolError; mret (inr r)
          else if (n =? 0)%N then r ← abandon NetworkError; mret (inr r)
          else mret (inl (offset + N.to_nat n)%nat)
      end.
Definition write_all (enforce : bool) deadline (data : bytes) : M E (Result unit) :=
  loop (fun offset => (length data - offset)%nat) (write_step enforce deadline data) 0%nat.

(** ** Reading *)

Definition kShortFrameLimit : Z := 30000.
Definition kLargeFrameLimit : Z := 0x3fffffff.

Definition allows_large_frame (tag : Z) : bool :=
  (tag =? ch "D") || (tag =? ch "E") || (tag =? ch "V") || (tag =? ch "N") || (tag =? ch "A") ||
  (tag =? ch "T") || (tag =? ch "t").

(** One [recv] of up to [requested] bytes into [buffer] at [offset], with the
    checks both loops make: the buffer after it and how many bytes are new. *)
Definition receive (enforce : bool) deadline (buffer : bytes) (offset requested : nat)
    : M E (Result (bytes * nat)) :=
  expired ← late enforce deadline;
  if expired : bool then abandon Timeout
  else
    answer ← call (recv (Z.of_nat requested) deadline);
    match answer with
    | Error c => abandon c
    | Value r =>
        if r_eof r then abandon NetworkError
        else if Z.of_nat requested <? Z.of_N (r_n r) then abandon ProtocolError
        else if (r_n r =? 0)%N then abandon NetworkError
        else mret (Value (write_at buffer offset (take requested (r_data r)), N.to_nat (r_n r)))
    end.

Definition header_step (enforce : bool) deadline (x : bytes * nat) : M E ((bytes * nat) + Result bytes) :=
  let '(header, offset) := x in
  if (5 <=? offset)%nat then mret (inr (Value header))
  else
    answer ← receive enforce deadline header offset (5 - offset);
    match answer with
    | Error c => mret (inr (Error c))
    | Value (header, n) => mret (inl (header, (offset + n)%nat))
    end.

(** The most one [recv] of a body asks for. *)
Definition read_chunk : nat := Z.to_nat 8192.

Definition body_step (enforce : bool) deadline (total : nat) (message : bytes) : M E (bytes + Result bytes) :=
  if (total <=? length message)%nat then mret (inr (Value message))
  else
    let offset := length message in
    let requested := Nat.min (total - offset) read_chunk in
    answer ← receive enforce deadline (message ++ replicate requested 0) offset requested;
    match answer with
    | Error c => mret (inr (Error c))
    | Value (message, n) => mret (inl (take (offset + n) message))
    end.

(** The length word of a header. *)
Definition frame_length (header : bytes) : Z :=
  Z.lor (Z.lor (Z.lor (Z.shiftl (at_pos header 1) 24) (Z.shiftl (at_pos header 2) 16))
               (Z.shiftl (at_pos header 3) 8)) (at_pos header 4).

Definition read_message (enforce : bool) deadline (remaining_bytes : Z) : M E (Result bytes) :=
  if remaining_bytes <? 5 then abandon ResourceLimit
  else
    answer ← loop (fun x => (5 - x.2)%nat) (header_step enforce deadline) (replicate 5 0, 0%nat);
    match answer with
    | Error c => mret (Error c)
    | Value header =>
        c ← get;
        let tag := at_pos header 0 in
        let len := frame_length header in
        let limit := if allows_large_frame tag then kLargeFrameLimit else kShortFrameLimit in
        if (len <? 4) || (limit <? len) then abandon ProtocolError
        else if (tag =? ch "d") || (tag =? ch "c") then _ ← disconnect; mret (Error ProtocolError)
        else
          let total_length := len + 1 in
          if remaining_bytes <? total_length then abandon ResourceLimit
          else if ((tag =? ch "E") || (tag =? ch "N")) &&
                  (max_diagnostic_bytes (result_limits (settings_ c)) <? len - 4) then abandon ResourceLimit
          else
            loop (fun message => (Z.to_nat total_length - length message)%nat)
                 (body_step enforce deadline (Z.to_nat total_length)) header
    end.

End Operations.

(** ** Reasoning about programs

    [wp m Q s]: [m], started in [s], ends with an answer and a state that
    satisfy [Q]. *)

Section Wp.
Context {E : Type}.

Definition wp {A} (m : M E A) (Q : A -> Session E -> Prop) (s : Session E) : Prop := Q (m s).2 (m s).1.

Lemma wp_ret {A} (a : A) Q s : Q a s -> wp (mret a) Q s.
Proof. done. Qed.
Lemma wp_bind {A B} (m : M E A) (f : A -> M E B) Q s : wp m (fun a => wp (f a) Q) s -> wp (m ≫= f) Q s.
Proof. unfold wp, mbind, M_bind. by destruct (m s). Qed.
Lemma wp_mono {A} (m : M E A) (Q R : A -> Session E -> Prop) s :
  wp m Q s -> (forall a s', Q a s' -> R a s') -> wp m R s.
Proof. unfold wp. auto. Qed.
Lemma wp_and {A} (m : M E A) (Q R : A -> Session E -> Prop) s :
  wp m Q s -> wp m R s -> wp m (fun a s' => Q a s' /\ R a s') s.
Proof. done. Qed.
Lemma wp_get Q s : Q (conn s) s -> wp get Q s.
Proof. done. Qed.
Lemma wp_modify f Q s : Q tt {| conn := f (conn s); io := io s |} -> wp (modify f) Q s.
Proof. done. Qed.
Lemma wp_call {A} (f : E -> E * A) Q s :
  (forall e a, f (io s) = (e, a) -> Q a {| conn := conn s; io := e |}) -> wp (call f) Q s.
Proof. unfold wp, call. intros H. specialize (H (f (io s)).1 (f (io s)).2). destruct (f (io s)). by apply H. Qed.
Lemma wp_effect (f : E -> E) Q s : Q tt {| conn := conn s; io := f (io s) |} -> wp (effect f) Q s.
Proof. done. Qed.

(** An invariant that every iteration keeps, while it lowers the measure. *)
Lemma wp_loop {S A} (I : S -> Session E -> Prop) (Q : Result A -> Session E -> Prop) measure
    (step : S -> M E (S + Result A)) x s :
  (forall x s, I x s ->
     wp (step x) (fun r s' => match r with inl x' => I x' s' /\ (measure x' < measure x)%nat | inr r => Q r s' end) s) ->
  I x s -> wp (loop measure step x) Q s.
Proof.
  intros Hs. unfold loop. assert (measure x < Datatypes.S (measure x))%nat as Hm by lia. revert Hm.
  generalize (Datatypes.S (measure x)). intros n. revert x s.
  induction n as [|n IH]; intros x s Hm Hi; [lia|]. specialize (Hs x s Hi). unfold wp in *. cbn [loop_fuel].
  destruct (step x s) as [s' [x'|r]]; cbn [fst snd] in Hs; [|exact Hs].
  destruct Hs as [Hi' Hlt]. apply IH; [lia|done].
Qed.
End Wp.

Ltac wp_step :=
  match goal with
  | |- wp (_ ≫= _) _ _ => apply wp_bind
  | |- wp (mret _) _ _ => apply wp_ret
  | |- wp get _ _ => apply wp_get
  | |- wp (modify _) _ _ => apply wp_modify
  | |- wp (effect _) _ _ => apply wp_effect
  | |- wp (call _) _ _ => apply wp_call; intros ? ? ?
  | |- wp (if ?b then _ else _) _ _ => destruct b eqn:?
  | |- wp (match ?x with _ => _ end) _ _ => destruct x eqn:?
  end.
Ltac wps := repeat (wp_step; cbn [conn io]).

Lemma N_eqb_0 n : (n =? 0)%N = false -> (0 < n)%N.
Proof. intros H%N.eqb_neq. lia. Qed.

(** ** Streams

    A transport that is a byte stream: [delivered] is everything received from
    it so far and [accepted] everything it took.  What a call reports beyond the
    buffer it was given says nothing. *)

Class StreamPeer (E : Type) `{!Peer E} := {
  delivered : E -> bytes;
  accepted : E -> bytes;
  recv_delivers n d e e' r :
    recv n d e = (e', Value r) -> r_eof r = false -> Z.of_N (r_n r) <= n ->
    (N.to_nat (r_n r) <= length (r_data r))%nat /\ delivered e' = delivered e ++ take (N.to_nat (r_n r)) (r_data r);
  recv_accepts n d e : accepted (recv n d e).1 = accepted e;
  send_accepts data d e e' n :
    send data d e = (e', Value n) -> Z.of_N n <= size data ->
    accepted e' = accepted e ++ take (N.to_nat n) data;
  send_delivers data d e : delivered (send data d e).1 = delivered e;
  now_quiet e : delivered (now e).1 = delivered e /\ accepted (now e).1 = accepted e;
  seal_quiet k e : delivered (seal k e).1 = delivered e /\ accepted (seal k e).1 = accepted e;
  before_wire_quiet k e : delivered (before_wire k e).1 = delivered e /\ accepted (before_wire k e).1 = accepted e;
  sent_quiet k e : delivered (sent_request k e) = delivered e /\ accepted (sent_request k e) = accepted e;
  observed_quiet k t e : delivered (error_observed k t e) = delivered e /\ accepted (error_observed k t e) = accepted e;
  drained_quiet k l e : delivered (drained k l e).1 = delivered e /\ accepted (drained k l e).1 = accepted e;
  enter_quiet k e : delivered (enter_resolver k e).1 = delivered e /\ accepted (enter_resolver k e).1 = accepted e;
  leave_quiet k e : delivered (leave_resolver k e) = delivered e /\ accepted (leave_resolver k e) = accepted e;
  wait_quiet k e : delivered (cancellation_wait k e) = delivered e /\ accepted (cancellation_wait k e) = accepted e;
  close_quiet e : delivered (close e) = delivered e /\ accepted (close e) = accepted e;
}.

(** ** Giving up *)

(** From [s] to [s'] the transport was given up. *)
Definition dead {E} (s s' : Session E) : Prop :=
  connected_ (conn s') = false /\ session_state_ (conn s') = Disconnected /\ cancellation_key_ (conn s') = None /\
  (connected_ (conn s) = true -> transport_closed_after_failure_ (conn s') = true).

Section Io.
Context {E : Type} `{!Peer E}.
Implicit Types (s : Session E) (deadline : Z).

Lemma dead_from s s1 s' : connected_ (conn s1) = connected_ (conn s) -> dead s1 s' -> dead s s'.
Proof. unfold dead. by intros ->. Qed.
Lemma dead_of s s1 s' : conn s1 = conn s -> dead s1 s' -> dead s s'.
Proof. intros H. apply dead_from. by rewrite H. Qed.

Lemma mark_transport_failed_dead s : wp mark_transport_failed (fun _ s' => dead s s') s.
Proof.
  unfold mark_transport_failed, dead. destruct s as [[] ?]. wps; cbn in *; try done; by repeat split.
Qed.

Lemma abandon_dead {A} c s : wp (abandon (A := A) c) (fun r s' => r = Error c /\ dead s s') s.
Proof. unfold abandon. wps. eapply wp_mono; [apply mark_transport_failed_dead|]. intros. by wps. Qed.

Lemma abandon_of {A} s0 c (Q : Result A -> Session E -> Prop) s :
  conn s = conn s0 -> (forall s', dead s0 s' -> Q (Error c) s') -> wp (abandon c) Q s.
Proof.
  intros Hc HQ. eapply wp_mono; [apply abandon_dead|]. cbn. intros r s' [-> Hd]. apply HQ. by eapply dead_of.
Qed.

Lemma finish_cancellation_closes endpoint s :
  wp (finish_cancellation_operation endpoint) (fun _ s' =>
    cancellation_key_ (conn s) = None -> cancellation_key_ (conn s') = None) s.
Proof.
  unfold finish_cancellation_operation. wps; try done.
  - eapply wp_mono; [apply mark_transport_failed_dead|]. cbn. intros _ s' Hd. wps. intros _. by destruct Hd as (_ & _ & ? & _).
  - by destruct (conn s).
Qed.

Lemma disconnect_dead s : wp disconnect (fun _ s' => dead s s') s.
Proof.
  unfold disconnect. wps.
  - eapply wp_mono; [apply finish_cancellation_closes|]. cbn. intros _ [[] ?] H. wps; cbn in *;
      unfold dead; cbn; repeat split; intros; try done; try apply H; by destruct (conn s).
  - destruct s as [[] ?]. by unfold dead; cbn.
  - destruct s as [[] ?]. by unfold dead; cbn.
Qed.
End Io.

Section Stream.
Context {E : Type} `{!Peer E, !StreamPeer E}.
Implicit Types (s : Session E) (deadline : Z).

(** [s'] has the connection of [s], after [out] was accepted and [in_] received. *)
Definition moved (out in_ : bytes) (s s' : Session E) : Prop :=
  conn s' = conn s /\ accepted (io s') = accepted (io s) ++ out /\ delivered (io s') = delivered (io s) ++ in_.

Lemma moved_refl s : moved [] [] s s.
Proof. unfold moved. by rewrite !app_nil_r. Qed.
Lemma moved_trans o1 o2 i1 i2 s1 s2 s3 :
  moved o1 i1 s1 s2 -> moved o2 i2 s2 s3 -> moved (o1 ++ o2) (i1 ++ i2) s1 s3.
Proof. intros (?&?&?) (?&?&?). unfold moved. rewrite !app_assoc. repeat split; congruence. Qed.
Lemma moved_dead o i s1 s2 s3 : moved o i s1 s2 -> dead s2 s3 -> dead s1 s3.
Proof. intros [H _]. by apply dead_of. Qed.

Lemma late_moves enforce deadline s : wp (late enforce deadline) (fun _ s' => moved [] [] s s') s.
Proof.
  unfold late, passed. wps; [|apply moved_refl]. pose proof (now_quiet (io s)) as [H1 H2].
  rewrite H in H1, H2. unfold moved. cbn in *. rewrite !app_nil_r. by repeat split.
Qed.

(** Either the transport was given up, or everything was written. *)
Lemma write_all_exact enforce deadline data s :
  wp (write_all enforce deadline data) (fun r s' =>
    match r with Value _ => moved data [] s s' | Error _ => dead s s' end) s.
Proof.
  unfold write_all.
  apply (wp_loop (fun off s' => (off <= length data)%nat /\ moved (take off data) [] s s')); [|split; [lia|apply moved_refl]].
  intros off s1 [Ho Hm]. unfold write_step.
  destruct (length data <=? off)%nat eqn:Hl.
  { apply Nat.leb_le in Hl. wps. by rewrite take_ge in Hm. }
  apply Nat.leb_gt in Hl. wps. eapply wp_mono; [apply late_moves|]. cbn beta. intros late_ s2 Hm2.
  pose proof (moved_trans _ _ _ _ _ _ _ Hm Hm2) as H2. rewrite !app_nil_r in H2.
  wps; try (apply (abandon_of s); [apply H2|]; intros ? ?; by wps). zb.
  match goal with H : (_ =? 0)%N = false |- _ => apply N_eqb_0 in H end.
  pose proof (send_delivers (drop off data) deadline (io s2)) as Hd.
  unfold size in *. split; [|lia]. split; [lia|].
  destruct H2 as (Hc & Ha & Hde). unfold moved. cbn [conn io]. split; [done|].
  rewrite H in Hd. cbn in Hd. split; [|congruence].
  erewrite send_accepts; [|exact H|unfold size; rewrite length_drop; lia].
  rewrite Ha, <- app_assoc. f_equal. by rewrite take_take_drop.
Qed.
(** One piece of a message, in its place of the buffer. *)
Lemma receive_exact enforce deadline buffer offset requested s :
  (offset + requested <= length buffer)%nat ->
  wp (receive enforce deadline buffer offset requested) (fun r s' =>
    match r with
    | Value (buffer', n) =>
        (0 < n <= requested)%nat /\ length buffer' = length buffer /\ take offset buffer' = take offset buffer /\
        moved [] (take n (drop offset buffer')) s s'
    | Error _ => dead s s'
    end) s.
Proof.
  intros Hb. unfold receive. wps. eapply wp_mono; [apply late_moves|]. cbn beta. intros late_ s1 Hm.
  wps; try (apply (abandon_of s); [apply Hm|]; intros ? ?; done). zb.
  match goal with H : (_ =? 0)%N = false |- _ => apply N_eqb_0 in H end.
  match goal with H : recv _ _ _ = (?e, Value ?r) |- _ => rename e into e'; rename r into r'; rename H into Hr end.
  edestruct recv_delivers as [Hl Hd]; [exact Hr|done|done|].
  pose proof (recv_accepts (Z.of_nat requested) deadline (io s1)) as Ha. rewrite Hr in Ha. cbn in Ha.
  unfold write_at. rewrite length_inserts. split; [lia|]. split; [done|].
  assert (length (take requested (r_data r')) <= requested)%nat by (rewrite length_take; lia).
  split.
  { apply list_eq. intros i. destruct (decide (i < offset)%nat).
    - rewrite !lookup_take_lt, list_lookup_inserts_lt by lia. done.
    - rewrite !lookup_take_ge by lia. done. }
  replace (take _ (drop offset _)) with (take (N.to_nat (r_n r')) (r_data r')).
  { destruct Hm as (Hc & Hma & Hmd). unfold moved. cbn [conn io].
    rewrite app_nil_r in *. split; [done|]. split; congruence. }
  apply list_eq. intros i. destruct (decide (i < N.to_nat (r_n r'))%nat).
  - rewrite !lookup_take_lt, lookup_drop by lia. rewrite list_lookup_inserts by (rewrite ?length_take; lia).
    rewrite lookup_take_lt by lia. f_equal. lia.
  - by rewrite !lookup_take_ge by lia.
Qed.

(** The five bytes of a header. *)
Lemma header_exact enforce deadline s :
  wp (loop (fun x => (5 - x.2)%nat) (header_step enforce deadline) (replicate 5 0, 0%nat)) (fun r s' =>
    match r with Value header => length header = 5%nat /\ moved [] header s s' | Error _ => dead s s' end) s.
Proof.
  apply (wp_loop (fun x s' => length x.1 = 5%nat /\ (x.2 <= 5)%nat /\ moved [] (take x.2 x.1) s s'));
    [|split; [done|]; split; [cbn; lia|apply moved_refl]].
  intros [header offset] s1 (Hl & Ho & Hm). cbn [fst snd] in *. unfold header_step.
  destruct (5 <=? offset)%nat eqn:H5.
  { apply Nat.leb_le in H5. wps. rewrite take_ge in Hm by lia. done. }
  apply Nat.leb_gt in H5. wps. eapply wp_mono; [apply receive_exact; lia|]. cbn beta.
  intros [[header' n]|c] s2; [|intros Hd; wps; by eapply moved_dead].
  intros (Hn & Hl' & Ht & Hm2). wps. cbn [fst snd]. split; [|lia]. split; [lia|]. split; [lia|].
  pose proof (moved_trans _ _ _ _ _ _ _ Hm Hm2) as H. cbn [app] in H. rewrite <- Ht in H.
  by rewrite take_take_drop in H.
Qed.

(** The rest of a message of [total] bytes. *)
Lemma body_exact enforce deadline total header s0 s :
  (length header <= total)%nat -> moved [] header s0 s ->
  wp (loop (fun message => (total - length message)%nat) (body_step enforce deadline total) header) (fun r s' =>
    match r with
    | Value message => length message = total /\ (exists body, message = header ++ body) /\ moved [] message s0 s'
    | Error _ => dead s0 s'
    end) s.
Proof.
  intros Hle Hm0.
  apply (wp_loop (fun message s' => (length message <= total)%nat /\ (exists body, message = header ++ body) /\
                                    moved [] message s0 s'));
    [|split; [done|]; split; [exists []; by rewrite app_nil_r|done]].
  intros message s1 (Hl & [body Hb] & Hm). unfold body_step.
  destruct (total <=? length message)%nat eqn:Ht.
  { apply Nat.leb_le in Ht. wps. split; [lia|eauto]. }
  apply Nat.leb_gt in Ht. wps. set (requested := Nat.min _ _).
  assert (0 < requested <= total - length message)%nat by (unfold requested, read_chunk; lia).
  eapply wp_mono; [apply receive_exact; rewrite length_app, length_replicate; lia|]. cbn beta.
  intros [[message' n]|c] s2; [|intros Hd; wps; by eapply moved_dead].
  rewrite length_app, length_replicate. intros (Hn & Hl' & Hp & Hm2). wps.
  rewrite take_app_length in Hp. rewrite length_take. split; [|lia]. split; [lia|].
  rewrite <- take_take_drop, Hp. split.
  - rewrite Hb, <- app_assoc. eauto.
  - by eapply moved_trans in Hm2; [|exact Hm].
Qed.

(** An acceptable message: its length word is right, and it is within the
    protocol's limit for its tag, the bytes that remain, and the limit on
    diagnostics. *)
Record framed (c : Conn) (remaining_bytes : Z) (m : bytes) : Prop := {
  framed_length : frame_length m = size m - 1;
  framed_header : 5 <= size m;
  framed_tag : at_pos m 0 <> ch "d" /\ at_pos m 0 <> ch "c";
  framed_limit : size m - 1 <= if allows_large_frame (at_pos m 0) then kLargeFrameLimit else kShortFrameLimit;
  framed_remaining : size m <= remaining_bytes;
  framed_diagnostic : at_pos m 0 = ch "E" \/ at_pos m 0 = ch "N" ->
    size m - 5 <= max_diagnostic_bytes (result_limits (settings_ c));
}.

Lemma frame_length_app h b : length h = 5%nat -> frame_length (h ++ b) = frame_length h.
Proof. intros. unfold frame_length. by rewrite !at_pos_app_l by lia. Qed.

Lemma read_message_exact enforce deadline remaining_bytes s :
  wp (read_message enforce deadline remaining_bytes) (fun r s' =>
    match r with
    | Value m => framed (conn s) remaining_bytes m /\ moved [] m s s'
    | Error _ => dead s s'
    end) s.
Proof.
  unfold read_message. destruct (remaining_bytes <? 5) eqn:Hr; zb; [by apply (abandon_of s)|].
  wps. eapply wp_mono; [apply header_exact|]. cbn beta. intros [header|c] s1; [|intros; by wps].
  intros [Hl Hm]. wps; zb; try (apply (abandon_of s); [apply Hm|]; by intros).
  { eapply wp_mono; [apply disconnect_dead|]. cbn. intros _ s2 Hd. wps. by eapply moved_dead. }
  eapply wp_mono; [apply (body_exact _ _ _ _ s); [lia|done]|]. cbn beta. intros [m|c] s2; [|done].
  intros (Hlm & [body ->] & Hm2). split; [|done]. destruct Hm as [Hc _]. rewrite Hc in *.
  assert (size (header ++ body) = frame_length header + 1) as Hsz by (unfold size; lia).
  split; rewrite ?frame_length_app, ?at_pos_app_l by lia; try lia.
Qed.
End Stream.

(** ** A stream that arrives in pieces

    A peer that accepts everything and delivers its bytes cut into arbitrary
    pieces, one piece or a part of it per call. *)

Record Chunks := { chunks : list bytes; taken : bytes; given : bytes; clock : Z }.

Definition chunk_recv (n : Z) (e : Chunks) : Chunks * Result Received :=
  match chunks e with
  | [] => (e, Value {| r_n := 0; r_eof := true; r_data := [] |})
  | c :: cs =>
      let got := take (Z.to_nat n) c in
      let left_ := drop (Z.to_nat n) c in
      ({| chunks := if decide (left_ = []) then cs else left_ :: cs; taken := taken e ++ got;
          given := given e; clock := clock e |},
       Value {| r_n := N.of_nat (length got); r_eof := false; r_data := got |})
  end.

#[export] Instance chunk_peer : Peer Chunks := {|
  send data _ e := ({| chunks := chunks e; taken := taken e; given := given e ++ data; clock := clock e |},
                    Value (N.of_nat (length data)));
  recv n _ e := chunk_recv n e;
  close e := e;
  now e := (e, clock e);
  seal _ e := (e, no_outcome);
  before_wire _ e := (e, true);
  sent_request _ e := e;
  error_observed _ _ e := e;
  drained _ _ e := (e, no_outcome);
  next_phase _ e := (e, true);
  enter_resolver _ e := (e, true);
  leave_resolver _ e := e;
  cancellation_wait _ e := e;
|}.

#[export, refine] Instance chunk_stream : StreamPeer Chunks := {| delivered := taken; accepted := given |}.
Proof.
  all: try done.
  - cbn. unfold chunk_recv. intros n _ e e' r. destruct (chunks e) as [|c cs]; intros [= <- <-]; cbn; [done|].
    intros _ _. rewrite Nat2N.id. split; [lia|]. by rewrite (take_ge (take _ _)) by lia.
  - cbn. unfold chunk_recv. intros n _ e. by destruct (chunks e).
  - cbn. intros data _ e e' n [= <- <-] _. cbn. by rewrite Nat2N.id, firstn_all.
Defined.

(** No piece is empty, [pending] is still to come, and a deadline that is
    enforced is not reached. *)
Record flowing (enforce : bool) (deadline : Z) (c : Conn) (stream pending : bytes) (s : Session Chunks) : Prop := {
  flow_conn : conn s = c;
  flow_chunks : Forall (fun x => x <> []) (chunks (io s));
  flow_pending : concat (chunks (io s)) = pending;
  flow_stream : taken (io s) ++ pending = stream;
  flow_clock : enforce = true -> clock (io s) < deadline;
}.

Section Flow.
Context (enforce : bool) (deadline : Z) (c : Conn) (stream : bytes).
Abbreviation flowing := (flowing enforce deadline c stream).

Lemma late_flows pending s : flowing pending s -> wp (late enforce deadline) (fun b s' => b = false /\ flowing pending s') s.
Proof.
  intros [H1 H2 H3 H4 H5]. unfold late, passed. wps; [|by repeat split]. cbn in *.
  match goal with H : (_, _) = (_, _) |- _ => injection H as <- <- end. specialize (H5 eq_refl).
  split; [by ztest|]. by split.
Qed.

Lemma receive_flows buffer offset requested pending s :
  flowing pending s -> (0 < requested)%nat -> pending <> [] ->
  wp (receive enforce deadline buffer offset requested) (fun r s' =>
    exists buffer' n, r = Value (buffer', n) /\ (0 < n <= requested)%nat /\ (n <= length pending)%nat /\
      flowing (drop n pending) s') s.
Proof.
  intros Hf Hr Hp. unfold receive. wps. eapply wp_mono; [by apply late_flows|]. cbn beta. intros late_ s1 [-> [H1 H2 H3 H4 H5]].
  wps.
  all: match goal with H : recv _ _ _ = _ |- _ => revert H end; cbn; unfold chunk_recv;
    (destruct (chunks (io s1)) as [|x xs]; [by subst pending|]); inv_forall; intros [= <- <-];
    cbn in *; rewrite ?Nat2Z.id, ?length_take in *; zb; try lia.
  all: destruct x as [|b x]; [done|]; cbn [length] in *.
  - apply N.eqb_eq in Heqb1. lia.
  - rewrite Nat2N.id. do 2 eexists. split; [done|]. split; [lia|]. subst pending. cbn [concat].
    rewrite length_app. cbn [length]. split; [lia|].
    assert (forall A (l : list A), drop (Nat.min requested (length l)) l = drop requested l) as Hmin.
    { intros A l. destruct (Nat.min_spec requested (length l)) as [[_ ->]|[? ->]]; [done|].
      by rewrite !drop_ge by lia. }
    split; cbn [conn io chunks taken given clock]; try done.
    + case_decide; [done|]. by constructor.
    + rewrite drop_app_le by (cbn [length]; lia). change (S (length x)) with (length (b :: x)). rewrite Hmin.
      case_decide as Hd; [|done]. by rewrite Hd.
    + rewrite <- H4, <- app_assoc. f_equal. cbn [concat]. rewrite drop_app_le by (cbn [length]; lia).
      change (S (length x)) with (length (b :: x)). rewrite Hmin, app_assoc. by rewrite take_drop.
Qed.
Lemma header_flows pending s :
  flowing pending s -> (5 <= length pending)%nat ->
  wp (loop (fun x => (5 - x.2)%nat) (header_step enforce deadline) (replicate 5 0, 0%nat)) (fun r s' =>
    exists header, r = Value header /\ flowing (drop 5 pending) s') s.
Proof.
  intros Hf Hp.
  apply (wp_loop (fun x s' => (x.2 <= 5)%nat /\ flowing (drop x.2 pending) s')); [|by split; [cbn; lia|]].
  intros [header offset] s1 [Ho Hf1]. cbn [fst snd] in *. unfold header_step.
  destruct (5 <=? offset)%nat eqn:H5.
  { apply Nat.leb_le in H5. wps. eexists. split; [done|]. by replace 5%nat with offset by lia. }
  apply Nat.leb_gt in H5. wps.
  eapply wp_mono; [eapply receive_flows; [done|lia|]|].
  { intros H%(f_equal length). rewrite length_drop in H. cbn in H. lia. }
  cbn beta. intros r s2 (header' & n & -> & Hn & _ & Hf2). wps. cbn [fst snd]. split; [|lia]. split; [lia|].
  by rewrite drop_drop in Hf2.
Qed.

Lemma body_flows total header pending s :
  flowing pending s -> (length header <= total)%nat -> (total - length header <= length pending)%nat ->
  wp (loop (fun message => (total - length message)%nat) (body_step enforce deadline total) header) (fun r s' =>
    exists message, r = Value message /\ flowing (drop (total - length header) pending) s') s.
Proof.
  intros Hf Hh Hp.
  apply (wp_loop (fun message s' => (length header <= length message <= total)%nat /\
                    flowing (drop (length message - length header) pending) s'));
    [|by rewrite Nat.sub_diag; split; [cbn; lia|]].
  intros message s1 [Ho Hf1]. unfold body_step.
  destruct (total <=? length message)%nat eqn:Ht.
  { apply Nat.leb_le in Ht. wps. eexists. split; [done|]. by replace total with (length message) by lia. }
  apply Nat.leb_gt in Ht. wps. set (requested := Nat.min _ _).
  assert (0 < requested <= total - length message)%nat by (unfold requested, read_chunk; lia).
  eapply wp_mono; [eapply wp_and; [eapply receive_flows; [done|lia|]|apply receive_exact]|].
  { intros H0%(f_equal length). rewrite length_drop in H0. cbn in H0. lia. }
  { rewrite length_app, length_replicate. lia. }
  cbn beta. intros r s2 [(message' & n & -> & Hn & _ & Hf2) (_ & Hl & _)]. rewrite length_app, length_replicate in Hl.
  wps. rewrite length_take. split; [|lia]. split; [lia|].
  rewrite drop_drop in Hf2. by replace (_ - _)%nat with (length message - length header + n)%nat by lia.
Qed.

(** What was received is what the stream had. *)
Lemma flowing_moved pending s i n s' :
  flowing pending s -> moved [] i s s' -> flowing (drop n pending) s' -> (n <= length pending)%nat -> i = take n pending.
Proof.
  intros [H1 H2 H3 H4 H5] (_ & _ & Hm) [G1 G2 G3 G4 G5] Hn. cbn in Hm. rewrite Hm, <- H4 in G4.
  rewrite <- app_assoc in G4. apply app_inv_head in G4. rewrite <- (take_drop n pending) in G4 at 2.
  by apply app_inv_tail in G4.
Qed.
End Flow.

(** C22.  Whatever pieces a stream is delivered in, [read_message_result] returns
    exactly the next message when that message is acceptable, and leaves the
    bytes that follow it unread. *)
Theorem read_message_reassembles (enforce : bool) (deadline remaining : Z) (c : Conn) (e : Chunks) (m rest : bytes)
    (Hm : framed c remaining m) (Hc : Forall (fun x => x <> []) (chunks e)) (Hs : concat (chunks e) = m ++ rest)
    (Ht : enforce = true -> clock e < deadline) :
  exists e', read_message enforce deadline remaining {| conn := c; io := e |} =
    ({| conn := c; io := e' |}, Value m) /\ concat (chunks e') = rest.
Proof.
  assert (flowing enforce deadline c (taken e ++ m ++ rest) (m ++ rest) {| conn := c; io := e |}) as Hf by (by split).
  pose proof (framed_header _ _ _ Hm) as H5. unfold size in H5.
  enough (wp (read_message enforce deadline remaining) (fun r s' => r = Value m /\ conn s' = c /\
            concat (chunks (io s')) = rest) {| conn := c; io := e |}) as H.
  { unfold wp in H. destruct (read_message _ _ _ _) as [[c' e'] r]. destruct H as (H1 & H2 & H3). cbn in *. subst. eauto. }
  unfold read_message. pose proof (framed_remaining _ _ _ Hm). unfold size in *. ztest. wps.
  eapply wp_mono; [eapply wp_and; [eapply header_flows; [done|rewrite length_app; lia]|apply header_exact]|].
  cbn beta. intros r s1 [(header & -> & Hf1) [Hl Hmv]].
  assert (header = take 5 m) as ->.
  { rewrite <- (take_app_le m rest) by lia. eapply flowing_moved; [exact Hf|done|done|]. rewrite length_app. lia. }
  destruct Hm as [F1 F2 F3 F4 F5 F6]. pose proof (flow_conn _ _ _ _ _ _ Hf1) as Hc1.
  rewrite <- (take_drop 5 m) in F1 at 1. rewrite frame_length_app in F1 by done.
  rewrite <- (take_drop 5 m), at_pos_app_l in F3, F4, F6 by lia.
  rewrite take_drop in *. unfold size in *. wps; rewrite ?Hc1 in *; zb; try lia.
  rewrite F1. replace (Z.to_nat _) with (length m) by lia.
  rewrite drop_app_le in Hf1 by lia.
  eapply wp_mono; [eapply wp_and; [eapply body_flows; [done|lia|rewrite length_app, length_drop; lia]|
    eapply (body_exact _ _ _ _ {| conn := c; io := e |}); [lia|done]]|].
  cbn beta. intros r s2 [(m' & -> & Hf2) (Hl2 & [body ->] & Hm2)].
  assert (flowing enforce deadline c (taken e ++ m ++ rest) (drop (length m) (m ++ rest)) s2) as Hf3.
  { rewrite drop_app_le in Hf2 by (rewrite length_drop; lia). rewrite drop_drop in Hf2.
    rewrite drop_app_le by lia. by replace (5 + (length m - length (take 5 m)))%nat with (length m) in Hf2 by lia. }
  split; [|split].
  - f_equal. rewrite (flowing_moved _ _ _ _ _ _ _ _ _ Hf Hm2 Hf3) by (rewrite length_app; lia).
    by rewrite take_app_length.
  - by destruct Hf3.
  - destruct Hf3 as [_ _ Hr _ _]. by rewrite Hr, drop_app_length.
Qed.

Lemma read_message_reassembles_witness :
  exists e', read_message true 10 100 {| conn := initial_conn;
      io := {| chunks := [[90; 0]; [0; 0; 5; 73; 84; 0]]; taken := []; given := []; clock := 0 |} |} =
    ({| conn := initial_conn; io := e' |}, Value [90; 0; 0; 0; 5; 73]) /\ concat (chunks e') = [84; 0].
Proof.
  apply read_message_reassembles; [|by repeat constructor|done|done]. by split; vm_compute; try split; intros; try destruct_or!.
Defined.
