(* ===== verification/Response.v ===== *)
(** * Reading a response

    [GenericDatabaseConnection::read_query_result]: frames are read and checked
    one by one until ReadyForQuery, then decoded, normalised and validated.
    Every anomaly before ReadyForQuery gives the transport up.

    The backend hooks are arguments: [describe_type], the two value codecs and
    [resolve_types], which may use the connection.  What the code throws is
    caught by its handlers, all of which answer [ProtocolError]; the text of an
    error is not modelled. *)

From S2P Require Import Prelude Utf8 PgWire PgIeee PgRequest PgResult Scram PgAuth Backend Connection.

(** ** Answers of an operation *)

(** A [BackendError] with its class, operation and SQLSTATE. *)
Record OpError := {
  oe : BackendError; oe_class : BackendErrorClass; oe_operation : BackendOperation; oe_native : option bytes }.

Definition op_error (c : DbErrorCode) : OpError :=
  {| oe := plain_error c; oe_class := classify_backend_error c; oe_operation := OpUnknown; oe_native := None |}.

Definition with_class (k : BackendErrorClass) (e : OpError) : OpError :=
  {| oe := oe e; oe_class := k; oe_operation := oe_operation e; oe_native := oe_native e |}.
Definition with_operation (o : BackendOperation) (e : OpError) : OpError :=
  {| oe := oe e; oe_class := oe_class e; oe_operation := o; oe_native := oe_native e |}.
Definition with_native (n : bytes) (e : OpError) : OpError :=
  {| oe := oe e; oe_class := oe_class e; oe_operation := oe_operation e; oe_native := Some n |}.
Definition with_session (p : SessionSnapshot) (e : OpError) : OpError :=
  {| oe := {| error_code := error_code (oe e); error_state := snapshot_state p; error_disposition := disposition p |};
     oe_class := oe_class e; oe_operation := oe_operation e; oe_native := oe_native e |}.

(** The snapshot every operation reports: [session_state_], and [Retire] unless
    connected, [Reusable] when idle. *)
Definition snapshot_of (c : Conn) : SessionSnapshot :=
  {| snapshot_state := session_state_ c;
     disposition := if negb (connected_ c) then Retire
                    else if bool_decide (session_state_ c = Idle) then Reusable else ResetRequired |}.
Definition retired : SessionSnapshot := {| snapshot_state := Disconnected; disposition := Retire |}.

(** ** Checks on one frame *)

Inductive ResponseKind := SimpleExecution | PreparedExecution | Description | DeclinedDescription.
#[export] Instance ResponseKind_eq_dec : EqDecision ResponseKind. Proof. solve_decision. Defined.
Inductive DescriptionPhase := DParse | DParameters | DResult | DComplete | DError.
#[export] Instance DescriptionPhase_eq_dec : EqDecision DescriptionPhase. Proof. solve_decision. Defined.

Definition description_response (kind : ResponseKind) : bool :=
  bool_decide (kind = Description) || bool_decide (kind = DeclinedDescription).

Record Counts := { c_rows : Z; c_cells : Z; c_results : Z; c_metadata : Z; c_names : Z }.

(** The variables of the loop. *)
Record Reading := {
  messages : list Message; query_error : option bytes; saw_completion : bool; saw_expected_completion : bool;
  description_phase : DescriptionPhase; description_shape : option DescribedResultShape;
  wire_bytes : Z; counts : Counts }.

Definition start_reading : Reading :=
  {| messages := []; query_error := None; saw_completion := false; saw_expected_completion := false;
     description_phase := DParse; description_shape := None; wire_bytes := 0;
     counts := {| c_rows := 0; c_cells := 0; c_results := 0; c_metadata := 0; c_names := 0 |} |}.

(** The frames that may follow an ErrorResponse. *)
Definition follows_error (t : Z) : bool :=
  (t =? ch "N") || (t =? ch "S") || (t =? ch "A") || (t =? ch "Z") || (t =? ch "E").

Definition description_step (phase : DescriptionPhase) (shape : option DescribedResultShape) (t : Z)
    : res (DescriptionPhase * option DescribedResultShape) :=
  if t =? ch "1" then
    if bool_decide (phase = DParse) then Ok (DParameters, shape)
    else Throw (runtime_error "PostgreSQL ParseComplete out of sequence")
  else if t =? ch "t" then
    if bool_decide (phase = DParameters) then Ok (DResult, shape)
    else Throw (runtime_error "PostgreSQL ParameterDescription out of sequence")
  else if (t =? ch "T") || (t =? ch "n") then
    if bool_decide (phase = DResult)
    then Ok (DComplete, Some (if t =? ch "n" then DescribesNoResultSet else DescribesResultSet))
    else Throw (runtime_error "PostgreSQL statement description out of sequence")
  else if t =? ch "E" then Ok (DError, shape)
  else if (t =? ch "N") || (t =? ch "S") || (t =? ch "A") || (t =? ch "Z") then Ok (phase, shape)
  else Throw (runtime_error "Unexpected PostgreSQL statement description frame").

Definition execution_step (kind : ResponseKind) (t : Z) : res unit :=
  if (t =? ch "1") || (t =? ch "2") || (t =? ch "t") || (t =? ch "n") then
    if bool_decide (kind = SimpleExecution)
    then Throw (runtime_error "PostgreSQL extended-query frame arrived during simple query") else Ok tt
  else if (t =? ch "T") || (t =? ch "D") || (t =? ch "C") || (t =? ch "I") || (t =? ch "E") || (t =? ch "N") ||
          (t =? ch "S") || (t =? ch "A") || (t =? ch "Z") then Ok tt
  else Throw (runtime_error "Unexpected PostgreSQL query response frame").

Definition order_step (kind : ResponseKind) (r : Reading) (t : Z)
    : res (DescriptionPhase * option DescribedResultShape) :=
  if description_response kind then description_step (description_phase r) (description_shape r) t
  else _ ← execution_step kind t; Ok (description_phase r, description_shape r).

(** A cleanup query must complete once, with the expected tag. *)
Definition completion_step (expected : bytes) (r : Reading) (msg : Message) : res bool :=
  if beq expected [] then Ok (saw_expected_completion r)
  else if tag msg =? ch "C" then
    if saw_expected_completion r || negb (size (payload msg) =? size expected + 1) then
      Throw (runtime_error "Unexpected PostgreSQL reset completion")
    else if negb (at_pos (payload msg) (length expected) =? 0) || negb (beq (take (length expected) (payload msg)) expected)
    then Throw (runtime_error "Unexpected PostgreSQL reset completion")
    else Ok true
  else if (tag msg =? ch "T") || (tag msg =? ch "D") || (tag msg =? ch "I") ||
          ((tag msg =? ch "Z") && negb (bool_decide (is_Some (query_error r))) && negb (saw_expected_completion r))
  then Throw (runtime_error "Unexpected PostgreSQL reset response")
  else Ok (saw_expected_completion r).

Definition result_count (payload : bytes) : res Z :=
  if size payload <? 2 then Throw (runtime_error "Incomplete PostgreSQL result count")
  else Ok (Z.lor (Z.shiftl (at_pos payload 0) 8) (at_pos payload 1)).

(** The names of a RowDescription, against the limits; [None]: exceeded. *)
Fixpoint count_names (limits : ResultLimits) (columns : nat) (data : bytes) (names : Z) : res (option Z) :=
  match columns with
  | O => if beq data [] then Ok (Some names) else Throw (runtime_error "Trailing PostgreSQL column metadata")
  | S columns =>
      match span not_nul data with
      | (_, []) => Throw (runtime_error "Unterminated PostgreSQL column name")
      | (name, _ :: rest) =>
          if (max_column_name_bytes limits <? size name) ||
             (size_sub (max_metadata_name_bytes limits) names <? size name) then Ok None
          else if size rest <? 18 then Throw (runtime_error "Incomplete PostgreSQL column metadata")
          else count_names limits columns (drop 18 rest) (names + size name)
      end
  end.

Definition count_frame (limits : ResultLimits) (n : Counts) (msg : Message) : res (option Counts) :=
  if (tag msg =? ch "T") || (tag msg =? ch "t") then
    columns ← result_count (payload msg);
    if (max_columns_per_description limits <? columns) ||
       (size_sub (max_metadata_entries limits) (c_metadata n) <? columns) then Ok None
    else
      names ← (if tag msg =? ch "T" then count_names limits (Z.to_nat columns) (drop 2 (payload msg)) (c_names n)
               else Ok (Some (c_names n)));
      Ok (match names with
          | None => None
          | Some names => Some {| c_rows := c_rows n; c_cells := c_cells n; c_results := c_results n;
                                  c_metadata := c_metadata n + columns; c_names := names |}
          end)
  else if tag msg =? ch "D" then
    columns ← result_count (payload msg);
    Ok (if (c_rows n =? max_rows limits) || (size_sub (max_cells limits) (c_cells n) <? columns) then None
        else Some {| c_rows := c_rows n + 1; c_cells := c_cells n + columns; c_results := c_results n;
                     c_metadata := c_metadata n; c_names := c_names n |})
  else if (tag msg =? ch "C") || (tag msg =? ch "E") || (tag msg =? ch "I") then
    Ok (if c_results n =? max_results limits then None
        else Some {| c_rows := c_rows n; c_cells := c_cells n; c_results := c_results n + 1;
                     c_metadata := c_metadata n; c_names := c_names n |})
  else Ok (Some n).

(** ** The loop *)

Inductive Next := Continue (r : Reading) | Break (r : Reading) | Return (e : OpError).

Section Loop.
Context {E : Type} `{!Peer E}.
Implicit Types deadline : Z.

Definition stop (c : DbErrorCode) : M E Next := _ ← mark_transport_failed; mret (Return (op_error c)).

(** Inside the [try] of one frame. *)
Definition attempt {A} (m : res A) (k : A -> M E Next) : M E Next :=
  match m with Ok a => k a | Throw _ => stop ProtocolError end.

(** [if (cancellation_phase_active_ && cancellation_operation_) f]. *)
Definition watching (f : nat -> M E unit) : M E unit :=
  c ← get;
  match cancellation_operation_ c with
  | Some k => if cancellation_phase_active_ c then f k else mret tt
  | None => mret tt
  end.

Definition record_status (payload : bytes) : M E bool :=
  match record_parameter_status payload with
  | Some kv => _ ← modify (fun c => set_params (<[kv.1 := kv.2]> (server_params_ c)) c); mret true
  | None => mret false
  end.

(** The ErrorResponse branch: the error to go on with, or the end. *)
Definition on_error_frame (r : Reading) (msg : Message) (go : option bytes -> M E Next) : M E Next :=
  if negb (is_error_response msg) then go (query_error r)
  else
    attempt (is_terminal_error_response msg) (fun terminal =>
    if bool_decide (is_Some (query_error r)) && negb terminal then stop ProtocolError
    else
      attempt (text ← extract_error_message msg; extract_error_sqlstate msg) (fun sqlstate =>
      _ ← watching (fun k => effect (error_observed k sqlstate));
      if terminal then
        _ ← mark_transport_failed;
        mret (Return (with_session retired (with_native sqlstate (op_error NetworkError))))
      else go (Some sqlstate))).

(** The end of one iteration: keep the frame, and leave at ReadyForQuery. *)
Definition keep_frame (kind : ResponseKind) (r : Reading) (msg : Message) : M E Next :=
  attempt (is_ready_for_query msg) (fun ready =>
  let r := {| messages := messages r ++ [msg]; query_error := query_error r; saw_completion := saw_completion r;
              saw_expected_completion := saw_expected_completion r; description_phase := description_phase r;
              description_shape := description_shape r; wire_bytes := wire_bytes r; counts := counts r |} in
  if negb ready then mret (Continue r)
  else
    _ ← modify (set_session_state (ready_state (payload msg)));
    if negb (description_response kind) && negb (saw_completion r) then stop ProtocolError
    else if description_response kind && negb (bool_decide (description_phase r = DComplete)) &&
            negb (bool_decide (description_phase r = DError)) then stop ProtocolError
    else mret (Break r)).

Definition on_frame (kind : ResponseKind) (expected : bytes) (r : Reading) (data : bytes) : M E Next :=
  _ ← (if negb (beq data []) && (at_pos data 0 =? ch "E") then watching (fun k => effect (error_observed k []))
       else mret tt);
  attempt (parse_message data) (fun msg =>
  let t := tag msg in
  if bool_decide (is_Some (query_error r)) && negb (follows_error t) then stop ProtocolError
  else if (t =? ch "G") || (t =? ch "H") || (t =? ch "W") then
    _ ← disconnect; mret (Return (op_error UnsupportedFeature))
  else if (t =? ch "R") || (t =? ch "K") then stop ProtocolError
  else
    attempt (order_step kind r t) (fun ps =>
    attempt (completion_step expected r msg) (fun saw_expected =>
    c ← get;
    attempt (count_frame (result_limits (settings_ c)) (counts r) msg) (fun counted =>
    match counted with
    | None => stop ResourceLimit
    | Some n =>
        recorded ← (if t =? ch "S" then record_status (payload msg) else mret true);
        if negb recorded then stop ProtocolError
        else
          on_error_frame r msg (fun error =>
          keep_frame kind
            {| messages := messages r; query_error := error;
               saw_completion := saw_completion r || (t =? ch "C") || (t =? ch "E") || (t =? ch "I");
               saw_expected_completion := saw_expected; description_phase := ps.1; description_shape := ps.2;
               wire_bytes := wire_bytes r; counts := n |} msg)
    end)))).

Definition add_wire (n : Z) (r : Reading) : Reading :=
  {| messages := messages r; query_error := query_error r; saw_completion := saw_completion r;
     saw_expected_completion := saw_expected_completion r; description_phase := description_phase r;
     description_shape := description_shape r; wire_bytes := wire_bytes r + n; counts := counts r |}.

(** [n] frames may still be read: [max_messages - message_count]. *)
Fixpoint read_frames (kind : ResponseKind) (expected : bytes) deadline (n : nat) (r : Reading)
    : M E (Reading + OpError) :=
  match n with
  | O => _ ← mark_transport_failed; mret (inr (op_error ResourceLimit))
  | S n =>
      c ← get;
      frame ← read_message (negb (bool_decide (kind = DeclinedDescription))) deadline
                (size_sub (max_wire_bytes (response_limits (settings_ c))) (wire_bytes r));
      match frame with
      | Error c => mret (inr (op_error c))
      | Value data =>
          next ← on_frame kind expected (add_wire (size data) r) data;
          match next with
          | Continue r => read_frames kind expected deadline n r
          | Break r => mret (inl r)
          | Return e => mret (inr e)
          end
      end
  end.

(** The operation's endpoint learns that the response was drained. *)
Definition drained_response : M E unit :=
  watching (fun k =>
    outcome ← call (drained k true);
    _ ← modify (set_phase_active false);
    _ ← effect (cancellation_wait None);
    if retire outcome then mark_transport_failed else mret tt).

End Loop.

(** ** The decoded result *)

Definition has_binary_columns (results : ParsedQueryResult * list ParsedQueryResult) : bool :=
  existsb (fun r => existsb (fun c => format_code c =? 1) (columns r)) (results.1 :: results.2).

(** [valid_result_structure]: names are UTF-8 without NUL, rows are as wide as the description. *)
Definition valid_result_structure (r : ParsedQueryResult) : bool :=
  forallb (fun c => negb (existsb (Z.eqb 0) (name c)) && bool_decide (is_Some (utf8_code_point_count (name c)))) (columns r) &&
  forallb (fun row => (length row =? length (columns r))%nat) (rows r).

Definition lacks_authority (r : ParsedQueryResult) : bool :=
  negb (bool_decide (is_Some (error r))) && negb (prepared_execution_authority r).

Definition parsed_error (e : QueryError) : BackendError := plain_error QueryFailed.

Definition is_none {A} (o : option A) : bool := match o with None => true | Some _ => false end.

Definition valid_execution_structure (r : QueryResult) : bool :=
  is_none (q_error r) &&
  forallb (fun item =>
    (length (additional_results item) =? 0)%nat &&
    (is_none (q_error item) ||
     ((length (q_rows item) =? 0)%nat && (length (q_columns item) =? 0)%nat && (length (cell_errors item) =? 0)%nat &&
      (length (normalized_parameter_types item) =? 0)%nat && (q_affected_rows item =? 0) &&
      is_none (q_statement_kind item) && is_none (described_result_shape item) && is_none (q_execution_shape item))))
    (additional_results r).

Definition valid_description_structure (r : QueryResult) : bool :=
  valid_execution_structure r && is_none (q_execution_shape r) && is_none (q_statement_kind r) &&
  (q_affected_rows r =? 0) && (length (additional_results r) =? 0)%nat && (length (q_rows r) =? 0)%nat &&
  (length (cell_errors r) =? 0)%nat &&
  match described_result_shape r with
  | None | Some DescribesResultSet => true
  | Some DescribesNoResultSet => (length (q_columns r) =? 0)%nat
  end.

(** [std::map] keyed by the result id, in order. *)
Fixpoint provenance_insert (id : Z) (p : list ParsedColumnProvenance) (m : list (Z * list ParsedColumnProvenance)) :=
  match m with
  | [] => [(id, p)]
  | (k, q) :: m' =>
      if id <? k then (id, p) :: m
      else if id =? k then (id, p) :: m'
      else (k, q) :: provenance_insert id p m'
  end.

Definition kMaxProvenance : nat := Z.to_nat 4096.

Definition record_result_provenance (id : Z) (p : list ParsedColumnProvenance) (c : Conn) : Conn :=
  let m := result_provenance_ c in
  let m := if (kMaxProvenance <=? length m)%nat then tail m else m in
  set_provenance (provenance_insert id p m) c.

Definition release_result_provenance (id : Z) (c : Conn) : Conn :=
  set_provenance (filter (fun kp => kp.1 <> id) (result_provenance_ c)) c.

Section Normalize.
Context {E : Type} `{!Peer E}.
Context (profile : PgCatalogProfile)
        (describe_type : Z -> Z -> Z -> NativeTypeInfo)
        (normalize_result_value : ScalarType -> bytes -> option bytes)
        (normalize_native_result_value : Z -> ScalarType -> bytes -> option bytes)
        (resolve_types : list Z -> Z -> M E (gmap Z NativeTypeInfo + OpError)).
Implicit Types deadline : Z.

(** One cell: its canonical bytes, and whether they replace an invalid value. *)
Definition normalize_cell (parsed : list ParsedColumnMetadata) (column : nat) (metadata : NativeTypeInfo) (cell : bytes)
    : bytes * bool :=
  let type := default (scalar metadata) (declared_type metadata) in
  match type with
  | SChar | SVarChar | SLongVarChar =>
      if bool_decide (is_Some (utf8_code_point_count cell)) then (cell, false) else ([], true)
  | SBinary | SLongVarBinary | SBoolean | SReal | SDouble =>
      let canonical :=
        match parsed !! column with
        | Some p => normalize_native_result_value (type_id p) type cell
        | None => normalize_result_value type cell
        end in
      match canonical with Some v => (v, false) | None => ([], true) end
  | _ => (cell, false)
  end.

Fixpoint normalize_row (parsed : list ParsedColumnMetadata) (row column : nat) (cells : list (option bytes))
    (described : list ResultColumnMetadata) : list (option bytes) * list CellEncodingError :=
  match cells, described with
  | cell :: cells, d :: described =>
      let '(rest, errors) := normalize_row parsed row (S column) cells described in
      match cell, normalized_type d with
      | Some v, Some metadata =>
          let '(v, bad) := normalize_cell parsed column metadata v in
          (Some v :: rest, if bad then {| error_row := row; error_column := column |} :: errors else errors)
      | _, _ => (cell :: rest, errors)
      end
  | _, _ => (cells, [])
  end.

Fixpoint normalize_rows (parsed : list ParsedColumnMetadata) (row : nat) (rs : list (list (option bytes)))
    (described : list ResultColumnMetadata) : list (list (option bytes)) * list CellEncodingError :=
  match rs with
  | [] => ([], [])
  | r :: rs =>
      let '(r, errors) := normalize_row parsed row 0 r described in
      let '(rs, more) := normalize_rows parsed (S row) rs described in
      (r :: rs, errors ++ more)
  end.

Definition normalize_cells (item : QueryResult) (parsed : ParsedQueryResult) : QueryResult :=
  let '(rs, errors) := normalize_rows (columns parsed) 0 (q_rows item) (q_columns item) in
  {| q_rows := rs; q_columns := q_columns item; q_error := q_error item; q_affected_rows := q_affected_rows item;
     additional_results := additional_results item; q_statement_kind := q_statement_kind item;
     normalized_parameter_types := normalized_parameter_types item; cell_errors := cell_errors item ++ errors;
     described_result_shape := described_result_shape item; q_execution_shape := q_execution_shape item;
     result_id := result_id item |}.

(** Every parameter's type, or [None] when one was not resolved. *)
Definition parameter_types (ids : list Z) (types : gmap Z NativeTypeInfo) : option (list NativeTypeInfo) :=
  mapM (fun id => types !! id) ids.

Definition resolve_parameters (kind : ResponseKind) (ids : list Z) deadline : M E (list NativeTypeInfo + OpError) :=
  if bool_decide (kind = SimpleExecution) || beq ids [] then mret (inl [])
  else
    types ← resolve_types ids deadline;
    match types with
    | inr e => mret (inr (with_operation OpResolveTypes e))
    | inl types =>
        match parameter_types ids types with
        | Some l => mret (inl l)
        | None =>
            c ← get;
            mret (inr (with_session (snapshot_of c)
                        (with_operation OpResolveTypes (with_class CInvalidMetadata (op_error QueryFailed)))))
        end
    end.

Definition normalize_item (kind : ResponseKind) (parsed : ParsedQueryResult) deadline : M E (QueryResult + OpError) :=
  c ← get;
  let rid := next_result_id_ c in
  _ ← modify (fun c => record_result_provenance rid
                (map (fun p => {| pv_table_oid := table_oid p; pv_attribute_number := column_attribute_number p |})
                     (columns parsed))
                (set_next_result (size_add rid 1) c));
  let described := map (fun p => {| column_name := name p;
      normalized_type := Some (apply_character_metadata_policy
        (describe_type (type_id p) (type_size p) (type_modifier p)) (character_metadata (settings_ c))) |}) (columns parsed) in
  parameters ← resolve_parameters kind (parameter_type_ids parsed) deadline;
  match parameters with
  | inr e => mret (inr e)
  | inl parameters =>
      mret (inl (normalize_cells
        {| q_rows := rows parsed; q_columns := described; q_error := parsed_error <$> error parsed;
           q_affected_rows := affected_rows parsed; additional_results := []; q_statement_kind := statement_kind parsed;
           normalized_parameter_types := parameters; cell_errors := []; described_result_shape := None;
           q_execution_shape := if bool_decide (kind = Description) then None else execution_result_shape parsed;
           result_id := rid |} parsed))
  end.

Fixpoint normalize_items (kind : ResponseKind) (items : list ParsedQueryResult) deadline
    : M E (list QueryResult + OpError) :=
  match items with
  | [] => mret (inl [])
  | p :: items =>
      item ← normalize_item kind p deadline;
      match item with
      | inr e => mret (inr e)
      | inl item =>
          rest ← normalize_items kind items deadline;
          match rest with
          | inr e => mret (inr e)
          | inl rest => mret (inl (item :: rest))
          end
      end
  end.

Definition failed {A} (c : DbErrorCode) : M E (A + OpError) := _ ← mark_transport_failed; mret (inr (op_error c)).

(** The result with its additional results and described shape, checked and in time. *)
Definition publish_result (kind : ResponseKind) (r : Reading) (first : QueryResult) (more : list QueryResult) deadline
    : M E (QueryResult + OpError) :=
  let result :=
    {| q_rows := q_rows first; q_columns := q_columns first; q_error := q_error first;
       q_affected_rows := q_affected_rows first; additional_results := more; q_statement_kind := q_statement_kind first;
       normalized_parameter_types := normalized_parameter_types first; cell_errors := cell_errors first;
       described_result_shape := if bool_decide (kind = Description) && is_none (query_error r)
                                 then description_shape r else described_result_shape first;
       q_execution_shape := q_execution_shape first; result_id := result_id first |} in
  if negb (valid_execution_structure result) ||
     (bool_decide (kind = Description) && negb (valid_description_structure result)) then
    mret (inr (with_class CInvalidMetadata (op_error QueryFailed)))
  else
    expired ← late (negb (bool_decide (kind = DeclinedDescription))) deadline;
    if expired : bool then failed Timeout else mret (inl result).

(** A refused candidate: only its parameter count is checked. *)
Definition decline_description (first : ParsedQueryResult) (more : list ParsedQueryResult)
    (declined_parameter_count : Z) deadline : M E (QueryResult + OpError) :=
  if negb (size (parameter_type_ids first) =? declined_parameter_count) || negb (size (rows first) =? 0) ||
     negb (size more =? 0) then failed ProtocolError
  else
    expired ← passed deadline;
    if expired : bool then failed Timeout else mret (inr (op_error UnsupportedFeature)).

(** The checks after a result that is not an error, and its publication. *)
Definition checked_result (kind : ResponseKind) (r : Reading) (first : ParsedQueryResult) (more : list ParsedQueryResult)
    (declined_parameter_count : Z) deadline : M E (QueryResult + OpError) :=
  if bool_decide (kind = PreparedExecution) && existsb lacks_authority (first :: more) then failed ProtocolError
  else if negb (forallb valid_result_structure (first :: more)) then
    mret (inr (with_class CInvalidMetadata (op_error QueryFailed)))
  else if bool_decide (kind = DeclinedDescription) then decline_description first more declined_parameter_count deadline
  else
    item ← normalize_item kind first deadline;
    match item with
    | inr e => mret (inr e)
    | inl item =>
        rest ← normalize_items kind more deadline;
        match rest with
        | inr e => mret (inr e)
        | inl rest => publish_result kind r item rest deadline
        end
    end.

Definition decode_result (kind : ResponseKind) (r : Reading) (declined_parameter_count : Z) deadline
    : M E (QueryResult + OpError) :=
  match extract_query_result profile (messages r) with
  | Throw _ => failed ProtocolError
  | Ok (first, more) =>
      if has_binary_columns (first, more) then mret (inr (op_error UnsupportedFeature))
      else
        match query_error r with
        | Some sqlstate =>
            if bool_decide (is_Some (error first)) || (size more =? 0)
            then mret (inr (with_native sqlstate (op_error QueryFailed)))
            else checked_result kind r first more declined_parameter_count deadline
        | None => checked_result kind r first more declined_parameter_count deadline
        end
  end.

Definition read_query_result deadline (kind : ResponseKind) (expected : bytes) (declined_parameter_count : Z)
    : M E (QueryResult + OpError) :=
  c ← get;
  frames ← read_frames kind expected deadline (Z.to_nat (max_messages (response_limits (settings_ c)))) start_reading;
  match frames with
  | inr e => mret (inr e)
  | inl r =>
      _ ← drained_response;
      decode_result kind r declined_parameter_count deadline
  end.

End Normalize.
