(* ===== verification/PgSession.v ===== *)
(** * Operations of a PostgreSQL session

    The operations of [GenericDatabaseConnection] that execute one request
    ([execute_query], [execute_cleanup_query], [execute_prepared],
    [describe_statement], [decline_prepared_description_candidate]), with their
    limits, their error classification and the snapshot they report
    ([finish_operation]), and those of [PgDatabaseConnection] built on them:
    type resolution, the health probe ([pg_database_connection.cpp]),
    transactions ([pg_transactions.cpp]) and the session reset
    ([pg_session_reset.cpp]).

    [FloatEnv] is the floating-point parsing of PgIeee.v and [max_size] is
    [std::string::max_size()].  An allocation always succeeds. *)

From stdpp Require Import sorting.
From S2P Require Import Prelude Utf8 Digits PgWire PgMarkers PgIeee PgRequest PgResult Scram PgAuth Backend Connection Response.

(** What an operation returns. *)
Inductive Reply (A : Type) := Answered (a : A) (snapshot : SessionSnapshot) | Refused (e : OpError).
Arguments Answered {A} a snapshot.
Arguments Refused {A} e.

(** [local_backend_error] with its operation: no I/O was performed. *)
Definition local_error (kind : LocalFailure) (op : BackendOperation) (st : SessionState) : OpError :=
  let e := local_backend_error kind st in
  {| oe := e; oe_class := classify_backend_error (error_code e); oe_operation := op; oe_native := None |}.

(** The classes after which what the server did, or still sends, is not known. *)
Definition ambiguous (k : BackendErrorClass) : bool :=
  match k with
  | CTimeout | CTransport | CProtocol | CTls | CUnknown | CResourceLimit => true
  | _ => false
  end.

Section Session.
Context {E : Type} `{!Peer E}.
Context (max_size : Z) (profile : PgCatalogProfile) (floats : FloatEnv)
        (base_describe_type describe_type : Z -> Z -> Z -> NativeTypeInfo)
        (normalize_result_value : ScalarType -> bytes -> option bytes)
        (normalize_native_result_value : Z -> ScalarType -> bytes -> option bytes).
Implicit Types deadline : Z.

(** ** The outcome of an operation *)

(** An error inside a result gets the session's state. *)
Definition annotate (c : Conn) (item : QueryResult) : QueryResult :=
  match q_error item with
  | None => item
  | Some e =>
      {| q_rows := q_rows item; q_columns := q_columns item;
         q_error := Some {| error_code := error_code e; error_state := session_state_ c;
                            error_disposition := disposition (snapshot_of c) |};
         q_affected_rows := q_affected_rows item; additional_results := additional_results item;
         q_statement_kind := q_statement_kind item; normalized_parameter_types := normalized_parameter_types item;
         cell_errors := cell_errors item; described_result_shape := described_result_shape item;
         q_execution_shape := q_execution_shape item; result_id := result_id item |}
  end.

Definition with_additional (more : list QueryResult) (r : QueryResult) : QueryResult :=
  {| q_rows := q_rows r; q_columns := q_columns r; q_error := q_error r; q_affected_rows := q_affected_rows r;
     additional_results := more; q_statement_kind := q_statement_kind r;
     normalized_parameter_types := normalized_parameter_types r; cell_errors := cell_errors r;
     described_result_shape := described_result_shape r; q_execution_shape := q_execution_shape r;
     result_id := result_id r |}.

Definition finish_operation (op : BackendOperation) (result : QueryResult + OpError) : M E (Reply QueryResult) :=
  match result with
  | inr e =>
      if bool_decide (oe_operation e = OpResolveTypes) then mret (Refused e)
      else
        let e := with_operation op e in
        _ ← (if ambiguous (oe_class e) then mark_transport_failed else mret tt);
        c ← get;
        mret (Refused (with_session (snapshot_of c) e))
  | inl r =>
      c ← get;
      mret (Answered (with_additional (map (annotate c) (additional_results r)) (annotate c r)) (snapshot_of c))
  end.

Definition reject_request_limit (op : BackendOperation) : M E (Reply QueryResult) :=
  c ← get; mret (Refused (with_session (snapshot_of c) (with_operation op (op_error ResourceLimit)))).

(** ** Requests *)

(** The body of the [*_impl] functions; [None]: [RequestWireLimitExceeded]
    was thrown.  A description has no cancellation hooks. *)
Definition exchange (read : M E (QueryResult + OpError)) (encoded : res bytes) (cancellable : bool) deadline
    : M E (option (QueryResult + OpError)) :=
  c ← get;
  if negb (connected_ c) then mret (Some (inr (op_error NotConnected)))
  else
    match encoded with
    | Throw RequestWireLimitExceeded => mret None
    | Throw _ => mret (Some (inr (op_error InvalidParameter)))
    | Ok request =>
        allowed ← match cancellation_operation_ c with
                  | Some k => if cancellable && cancellation_phase_active_ c then call (before_wire k) else mret true
                  | None => mret true
                  end;
        if negb allowed then mret (Some (inr (op_error QueryFailed)))
        else
          written ← write_all true deadline request;
          match written with
          | Error c => mret (Some (inr (op_error c)))
          | Value _ =>
              _ ← (if cancellable then watching (fun k => effect (sent_request k)) else mret tt);
              r ← read;
              mret (Some r)
          end
    end.

(** What surrounds an [*_impl] function. *)
Definition perform (op : BackendOperation) (over_limit : Conn -> bool) (impl : M E (option (QueryResult + OpError)))
    : M E (Reply QueryResult) :=
  c ← get;
  if connected_ c && over_limit c then reject_request_limit op
  else
    r ← impl;
    match r with
    | None => reject_request_limit op
    | Some r => finish_operation op r
    end.

Definition long_sql (sql : bytes) (c : Conn) : bool := max_sql_bytes (input_limits (settings_ c)) <? size sql.

(** Simple queries resolve no parameter types. *)
Definition unresolved (ids : list Z) deadline : M E (gmap Z NativeTypeInfo + OpError) := mret (inl ∅).
Definition simple_result deadline (expected : bytes) : M E (QueryResult + OpError) :=
  read_query_result profile describe_type normalize_result_value normalize_native_result_value unresolved
    deadline SimpleExecution expected 0.

Definition execute_query_impl (sql : bytes) deadline (expected : bytes) : M E (option (QueryResult + OpError)) :=
  c ← get;
  exchange (simple_result deadline expected)
    (create_simple_query sql (max_request_wire_bytes (input_limits (settings_ c)))) true deadline.

Definition execute_query (sql : bytes) deadline : M E (Reply QueryResult) :=
  perform OpExecuteDirect (long_sql sql) (execute_query_impl sql deadline []).

Definition execute_cleanup_query (sql expected : bytes) deadline : M E (Reply QueryResult) :=
  perform OpResetSession (long_sql sql) (execute_query_impl sql deadline expected).

(** ** Type resolution *)

(** [std::from_chars] of a whole string, for an unsigned 32-bit integer and for
    signed ones of at most [max]. *)
Definition parse_unsigned (v : bytes) : option Z :=
  if forallb isdigit v && negb (beq v []) && (digits_value v <=? UINT32_MAX) then Some (digits_value v) else None.
Definition parse_signed (max : Z) (v : bytes) : option Z :=
  match v with
  | c :: w =>
      if c =? ch "-"
      then if forallb isdigit w && negb (beq w []) && (digits_value w <=? max + 1) then Some (- digits_value w) else None
      else if forallb isdigit v && (digits_value v <=? max) then Some (digits_value v) else None
  | [] => None
  end.

(** The description a passive state gives. *)
Definition passive_snapshot (st : SessionState) : SessionSnapshot :=
  {| snapshot_state := st; disposition := match st with Disconnected => Retire | Idle => Reusable | _ => ResetRequired end |}.

(** Spatial result types are not parameter types. *)
Definition describe_parameter (id modifier : Z) : NativeTypeInfo :=
  if bool_decide (profile = Redshift) && ((id =? 3000) || (id =? 3001) || (id =? 3999))
  then base_describe_type id (-1) modifier else describe_type id (-1) modifier.

(** The known types, and the ids to look up, in the order of their first occurrence. *)
Definition local_types (ids : list Z) : gmap Z NativeTypeInfo * list Z :=
  foldl (fun st id =>
    let '(resolved, pending) := st in
    let type := describe_parameter id (-1) in
    match resolved !! id with
    | Some _ => (resolved, pending)
    | None => (<[id := type]> resolved, if negb (id =? 0) && negb (known type) then pending ++ [id] else pending)
    end) (∅, []) ids.

Fixpoint comma_separated (ids : list Z) : bytes :=
  match ids with
  | [] => []
  | [id] => to_string id
  | id :: ids => to_string id ++ str "," ++ comma_separated ids
  end.

Definition type_query (ids : list Z) : bytes :=
  str "WITH RECURSIVE type_chain(original_oid, type_oid, base_oid, type_modifier) AS (SELECT oid, oid, typbasetype, typtypmod FROM pg_catalog.pg_type WHERE oid IN (" ++
  comma_separated ids ++
  str ") UNION ALL SELECT chain.original_oid, base.oid, base.typbasetype, CASE WHEN chain.type_modifier >= 0 THEN chain.type_modifier ELSE base.typtypmod END FROM type_chain AS chain JOIN pg_catalog.pg_type AS base ON base.oid = chain.base_oid) SELECT original_oid::text, type_oid::text, type_modifier::text FROM type_chain WHERE base_oid = 0".

(** The rows of the answer: each asked id at most once, with its base type. *)
Fixpoint resolved_rows (asked seen : list Z) (resolved : gmap Z NativeTypeInfo) (rs : list (list (option bytes)))
    : option (gmap Z NativeTypeInfo) :=
  match rs with
  | [] => Some resolved
  | [Some original; Some base; Some modifier] :: rs =>
      match parse_unsigned original, parse_unsigned base, parse_signed (2 ^ 31 - 1) modifier with
      | Some original, Some base, Some modifier =>
          if (base =? 0) || negb (bool_decide (original ∈ asked)) || bool_decide (original ∈ seen) then None
          else resolved_rows asked (original :: seen) (<[original := describe_parameter base modifier]> resolved) rs
      | _, _, _ => None
      end
  | _ => None
  end.

(** [ResolverPhase]: the endpoint is told when discovery starts and ends. *)
Definition resolving {A} (skip : A) (body : M E A) : M E A :=
  c ← get;
  match cancellation_operation_ c with
  | None => body
  | Some k =>
      entered ← call (enter_resolver k);
      if negb entered then mret skip
      else r ← body; _ ← effect (leave_resolver k); mret r
  end.

Definition resolve_types (ids : list Z) deadline : M E (gmap Z NativeTypeInfo + OpError) :=
  let '(resolved, pending) := local_types ids in
  if beq pending [] then mret (inl resolved)
  else
    resolving (inl resolved)
      (let asked := merge_sort Z.le pending in
       types ← execute_query (type_query asked) deadline;
       match types with
       | Refused e => mret (inr (with_operation OpResolveTypes e))
       | Answered types _ =>
           match resolved_rows asked [] resolved (q_rows types) with
           | Some resolved => mret (inl resolved)
           | None =>
               c ← get;
               mret (inr (with_session (passive_snapshot (session_state_ c))
                           (with_operation OpResolveTypes (with_class CInvalidMetadata (op_error QueryFailed)))))
           end
       end).

(** ** Prepared execution and description *)

Definition typed_result deadline (kind : ResponseKind) (count : Z) : M E (QueryResult + OpError) :=
  read_query_result profile describe_type normalize_result_value normalize_native_result_value resolve_types
    deadline kind [] count.

Fixpoint parameters_over (limits : InputLimits) (total : Z) (params : list QueryParameter) : bool :=
  match params with
  | [] => false
  | p :: params =>
      let n := match value p with Some v => size v | None => 0 end in
      (max_parameter_bytes limits <? n) || (size_sub (max_parameter_total_bytes limits) total <? n) ||
      parameters_over limits (total + n) params
  end.

Definition over_input_limits (sql : bytes) (params : list QueryParameter) (c : Conn) : bool :=
  let limits := input_limits (settings_ c) in
  (max_sql_bytes limits <? size sql) || (max_parameters limits <? size params) || parameters_over limits 0 params.

Definition execute_prepared_impl (sql : bytes) (params : list QueryParameter) deadline
    : M E (option (QueryResult + OpError)) :=
  c ← get;
  exchange (typed_result deadline PreparedExecution 0)
    (create_prepared_query max_size profile floats sql params (max_request_wire_bytes (input_limits (settings_ c))))
    true deadline.

Definition execute_prepared (sql : bytes) (params : list QueryParameter) deadline : M E (Reply QueryResult) :=
  perform OpExecutePrepared (over_input_limits sql params) (execute_prepared_impl sql params deadline).

Definition describe_statement_impl (sql : bytes) (types : list QueryParameterType) deadline
    : M E (option (QueryResult + OpError)) :=
  c ← get;
  exchange (typed_result deadline Description 0)
    (create_statement_description profile sql types (max_request_wire_bytes (input_limits (settings_ c))))
    false deadline.

Definition describe_statement (sql : bytes) (types : list QueryParameterType) deadline : M E (Reply QueryResult) :=
  perform OpDescribe (fun c => long_sql sql c || (max_parameters (input_limits (settings_ c)) <? size types))
    (describe_statement_impl sql types deadline).

(** A staged description that is always refused, with its own deadline checks. *)
Definition decline_exchange (request : bytes) (count : Z) deadline : M E (Reply QueryResult) :=
  written ← write_all false deadline request;
  match written with
  | Error c => finish_operation OpExecutePrepared (inr (op_error c))
  | Value _ =>
      response ← typed_result deadline DeclinedDescription count;
      expired ← passed deadline;
      if expired : bool then
        _ ← mark_transport_failed; finish_operation OpExecutePrepared (inr (op_error Timeout))
      else finish_operation OpExecutePrepared response
  end.

Definition decline_prepared_description_candidate (sql : bytes) (params : list QueryParameter) deadline
    : M E (Reply QueryResult) :=
  let refuse c := finish_operation OpExecutePrepared (inr (op_error c)) in
  c ← get;
  if negb (connected_ c) then refuse NotConnected
  else if negb (bool_decide (session_state_ c = Idle)) then refuse UnsupportedFeature
  else
    expired ← passed deadline;
    if expired : bool then refuse Timeout
    else
      let limits := input_limits (settings_ c) in
      if over_input_limits sql params c then reject_request_limit OpExecutePrepared
      else if negb (existsb (fun p => bool_decide (type p = Binary)) params) || existsb (Z.eqb 0) sql ||
              negb ((replace_parameter_markers sql).2 =? size params) then refuse InvalidParameter
      else
        match potential ← create_prepared_query max_size profile floats sql params (max_request_wire_bytes limits);
              create_statement_description profile sql (map type params) (max_request_wire_bytes limits) with
        | Throw RequestWireLimitExceeded => reject_request_limit OpExecutePrepared
        | Throw _ => refuse InvalidParameter
        | Ok request =>
            expired ← passed deadline;
            if expired : bool then refuse Timeout else decline_exchange request (size params) deadline
        end.

(** ** Health, transactions and reset *)

(** [disconnect()], and the error of a session that is gone. *)
Definition retire_session (op : BackendOperation) (e : OpError) : M E (Reply unit) :=
  _ ← disconnect; mret (Refused (with_session retired (with_operation op e))).

Definition check_health deadline : M E (Reply unit) :=
  r ← execute_query (str "SELECT 1") deadline;
  match r with
  | Refused e => mret (Refused (with_operation OpCheckHealth e))
  | Answered r p =>
      if negb (size (q_columns r) =? 1) || negb (bool_decide (q_rows r = [[Some (str "1")]])) ||
         negb (size (cell_errors r) =? 0) || negb (size (additional_results r) =? 0) || negb (is_none (q_error r)) ||
         (negb (bool_decide (snapshot_state p = Idle)) && negb (bool_decide (snapshot_state p = InTransaction)))
      then retire_session OpCheckHealth (op_error ProtocolError)
      else mret (Answered tt p)
  end.

Inductive TransactionAction := Begin_ | Commit | Rollback.

Definition transaction_command (action : TransactionAction) : bytes * BackendOperation * SessionSnapshot :=
  match action with
  | Begin_ => (str "BEGIN", OpBeginTransaction, {| snapshot_state := InTransaction; disposition := ResetRequired |})
  | Commit => (str "COMMIT", OpCommitTransaction, idle_reusable)
  | Rollback => (str "ROLLBACK", OpRollbackTransaction, idle_reusable)
  end.

Definition transaction (action : TransactionAction) deadline : M E (Reply unit) :=
  let '(command, op, expected) := transaction_command action in
  r ← execute_query command deadline;
  match r with
  | Refused e => mret (Refused (with_operation op e))
  | Answered _ p =>
      if bool_decide (p = expected) then mret (Answered tt p)
      else retire_session op (op_error ProtocolError)
  end.

Inductive TransactionIsolation := ReadUncommitted | ReadCommitted | RepeatableRead | Serializable.

Definition isolation_name (level : TransactionIsolation) : bytes :=
  match level with
  | ReadUncommitted => str "READ UNCOMMITTED"
  | ReadCommitted => str "READ COMMITTED"
  | RepeatableRead => str "REPEATABLE READ"
  | Serializable => str "SERIALIZABLE"
  end.

Definition set_transaction_isolation (level : TransactionIsolation) deadline : M E (Reply unit) :=
  c ← get;
  if bool_decide (profile = Redshift) then
    mret (Refused (local_error Unsupported OpSetTransactionIsolation (session_state_ c)))
  else
    r ← execute_query (str "SET SESSION CHARACTERISTICS AS TRANSACTION ISOLATION LEVEL " ++ isolation_name level) deadline;
    match r with
    | Refused e => mret (Refused (with_operation OpSetTransactionIsolation e))
    | Answered _ p => mret (Answered tt p)
    end.

Definition unexpected_cleanup (r : QueryResult) (p : SessionSnapshot) : bool :=
  negb (bool_decide (p = idle_reusable)) || negb (size (q_rows r) =? 0) || negb (size (q_columns r) =? 0) ||
  negb (q_affected_rows r =? 0) || negb (size (additional_results r) =? 0) || negb (size (cell_errors r) =? 0) ||
  negb (is_none (q_error r)) || negb (size (normalized_parameter_types r) =? 0) ||
  negb (bool_decide (q_statement_kind r = Some Unknown)).

Definition cleanup (sql : bytes) deadline : M E (Reply unit) :=
  r ← execute_cleanup_query sql sql deadline;
  match r with
  | Refused e => retire_session OpResetSession e
  | Answered r p =>
      if unexpected_cleanup r p then retire_session OpResetSession (op_error ProtocolError)
      else mret (Answered tt p)
  end.

Definition reset_session (has_profile : bool) deadline : M E (Reply unit) :=
  c ← get;
  if negb has_profile then mret (Refused (local_error Unsupported OpResetSession (session_state_ c)))
  else
    match session_state_ c with
    | Disconnected => retire_session OpResetSession (op_error NotConnected)
    | UnknownState => retire_session OpResetSession (op_error ProtocolError)
    | Idle => cleanup (str "DISCARD ALL") deadline
    | InTransaction | FailedTransaction =>
        rolled_back ← cleanup (str "ROLLBACK") deadline;
        match rolled_back with
        | Refused e => mret (Refused e)
        | Answered _ _ => cleanup (str "DISCARD ALL") deadline
        end
    end.

End Session.
