(* ===== verification/SessionSync.v ===== *)
(** * A connected session is a synchronised one

    What the operations of PgSession.v do to the byte stream.  A request is
    written as a whole, its response is read up to and including ReadyForQuery,
    and whenever that cannot be shown the transport is given up: a session that
    is still connected has exchanged whole requests for whole responses.  The
    snapshot an operation reports is the session's. *)

From stdpp Require Import sorting.
From S2P Require Import Prelude Utf8 Digits PgWire PgMarkers PgIeee PgRequest PgResult Scram PgAuth Backend Connection Response PgSession.

(** The frames of one response: the last one is the only ReadyForQuery. *)
Definition is_ready_frame (frame : bytes) : bool := at_pos frame 0 =? ch "Z".
Definition response (frames : list bytes) : Prop :=
  exists before ready, frames = before ++ [ready] /\ is_ready_frame ready = true /\
    Forall (fun f => is_ready_frame f = false) before.

(** A session is connected exactly when it has a state. *)
Definition coherent (c : Conn) : Prop := connected_ c = bool_decide (session_state_ c <> Disconnected).

Section Sync.
Context {E : Type} `{!Peer E, !StreamPeer E}.
Implicit Types (s : Session E) (deadline : Z).

(** Requests accepted, and their responses received, between two states. *)
Definition exchanged (xs : list (bytes * list bytes)) s s' : Prop :=
  accepted (io s') = accepted (io s) ++ concat (map fst xs) /\
  delivered (io s') = delivered (io s) ++ concat (map (fun x => concat x.2) xs) /\
  Forall (fun x => response x.2) xs.

Record evolves s s' : Prop := {
  evolves_coherent : coherent (conn s) -> coherent (conn s');
  evolves_live : connected_ (conn s') = true -> connected_ (conn s) = true /\ exists xs, exchanged xs s s';
}.

Lemma exchanged_nil s s' :
  accepted (io s') = accepted (io s) -> delivered (io s') = delivered (io s) -> exchanged [] s s'.
Proof. intros. unfold exchanged. cbn. rewrite !app_nil_r. by repeat split. Qed.

Lemma exchanged_app xs ys s1 s2 s3 : exchanged xs s1 s2 -> exchanged ys s2 s3 -> exchanged (xs ++ ys) s1 s3.
Proof.
  intros (A1 & D1 & F1) (A2 & D2 & F2). unfold exchanged. rewrite !map_app, !concat_app, !app_assoc, <- A1, <- D1.
  split; [done|]. split; [done|]. by apply Forall_app.
Qed.

#[export] Instance evolves_preorder : PreOrder evolves.
Proof.
  split.
  - intros s. split; [done|]. intros H. split; [done|]. exists []. by apply exchanged_nil.
  - intros s1 s2 s3 [C1 L1] [C2 L2]. split; [auto|]. intros H.
    destruct (L2 H) as [H2 [ys Hy]]. destruct (L1 H2) as [H1 [xs Hx]]. split; [done|].
    exists (xs ++ ys). by eapply exchanged_app.
Qed.

Lemma dead_evolves s s' : dead s s' -> evolves s s'.
Proof.
  intros (H1 & H2 & _). split.
  - intros _. unfold coherent. rewrite H1, H2. by rewrite bool_decide_eq_false_2 by naive_solver.
  - by rewrite H1.
Qed.

(** Nothing happened to the stream or to the link. *)
Definition still s s' : Prop :=
  connected_ (conn s') = connected_ (conn s) /\ session_state_ (conn s') = session_state_ (conn s) /\
  settings_ (conn s') = settings_ (conn s) /\
  accepted (io s') = accepted (io s) /\ delivered (io s') = delivered (io s).

#[export] Instance still_preorder : PreOrder still.
Proof. split; [by intros s|]. intros s1 s2 s3 (?&?&?&?&?) (?&?&?&?&?). unfold still. naive_solver congruence. Qed.

Lemma still_evolves s s' : still s s' -> evolves s s'.
Proof.
  intros (H1 & H2 & _ & Ha & Hd). split.
  - unfold coherent. by rewrite H1, H2.
  - rewrite H1. intros H. split; [done|]. exists []. by apply exchanged_nil.
Qed.

Lemma moved_still s s' : moved [] [] s s' -> still s s'.
Proof. intros (Hc & Ha & Hd). unfold still. rewrite app_nil_r in *. by rewrite Hc. Qed.

Lemma still_call {A} (f : E -> E * A) (Q : A -> Session E -> Prop) s :
  (forall e, delivered (f e).1 = delivered e /\ accepted (f e).1 = accepted e) ->
  (forall a s', still s s' -> Q a s') -> wp (call f) Q s.
Proof.
  intros Hf HQ. apply wp_call. intros e a He. apply HQ. specialize (Hf (io s)). rewrite He in Hf.
  destruct Hf. by unfold still.
Qed.

Lemma still_effect (f : E -> E) (Q : unit -> Session E -> Prop) s :
  (forall e, delivered (f e) = delivered e /\ accepted (f e) = accepted e) ->
  (forall s', still s s' -> Q tt s') -> wp (effect f) Q s.
Proof. intros Hf HQ. apply wp_effect, HQ. destruct (Hf (io s)). by unfold still. Qed.

Lemma watching_still (f : nat -> M E unit) (Q : unit -> Session E -> Prop) s :
  (forall k s', wp (f k) (fun _ s'' => still s' s'') s') -> (forall s', still s s' -> Q tt s') ->
  wp (watching f) Q s.
Proof.
  intros Hf HQ. unfold watching. wps; try by apply HQ. eapply wp_mono; [apply Hf|]. cbn. intros [] s' H'. by apply HQ.
Qed.

Lemma bind_still {A B} (m : M E A) (f : A -> M E B) (Q : B -> Session E -> Prop) s0 s :
  still s0 s -> wp m (fun _ s' => still s s') s -> (forall a s', still s0 s' -> wp (f a) Q s') -> wp (m ≫= f) Q s.
Proof. intros H0 Hm Hf. apply wp_bind. eapply wp_mono; [exact Hm|]. cbn. intros a s' H. apply Hf. by etrans. Qed.

Lemma observing_still k text s : wp (effect (error_observed k text)) (fun _ s' => still s s') s.
Proof. apply still_effect; [apply observed_quiet|done]. Qed.
#[local] Hint Resolve observing_still : core.

(** ** One frame *)

Lemma parse_message_tag data msg : parse_message data = Ok msg -> tag msg = at_pos data 0.
Proof.
  unfold parse_message. destruct (size data <? 5); [done|]. intros ([len rest] & _ & H)%bind_Ok.
  repeat (case_match; try done). all: apply bind_Ok in H as (u & _ & H); by injection H as <-.
Qed.

Lemma is_ready_tag msg b : is_ready_for_query msg = Ok b -> b = (tag msg =? ch "Z").
Proof.
  unfold is_ready_for_query. destruct (tag msg =? ch "Z"); cbn; [|by intros [= <-]].
  repeat (case_match; try done). by intros [= <-].
Qed.

(** [ms] are the messages kept before the frame. *)
Definition keeps_frame (ms : list Message) (data : bytes) (r : Reading) : Prop :=
  exists msg, parse_message data = Ok msg /\ messages r = ms ++ [msg].

Definition next_ok s (ms : list Message) (data : bytes) (next : Next) s' : Prop :=
  match next with
  | Continue r => still s s' /\ is_ready_frame data = false /\ keeps_frame ms data r
  | Break r =>
      is_ready_frame data = true /\ keeps_frame ms data r /\ connected_ (conn s') = connected_ (conn s) /\
      session_state_ (conn s') <> Disconnected /\ settings_ (conn s') = settings_ (conn s) /\
      accepted (io s') = accepted (io s) /\ delivered (io s') = delivered (io s)
  | Return e => dead s s' /\ oe_operation e = OpUnknown
  end.

Lemma stop_next s ms data c s1 : connected_ (conn s1) = connected_ (conn s) -> wp (stop c) (next_ok s ms data) s1.
Proof.
  intros H. unfold stop. wps. eapply wp_mono; [apply mark_transport_failed_dead|]. cbn. intros _ s' Hd. wps.
  split; [by eapply dead_from|done].
Qed.

Lemma attempt_next {A} s ms data (m : res A) (k : A -> M E Next) s1 :
  connected_ (conn s1) = connected_ (conn s) ->
  (forall a, m = Ok a -> wp (k a) (next_ok s ms data) s1) -> wp (attempt m k) (next_ok s ms data) s1.
Proof. intros Hc Hk. unfold attempt. destruct m; [by apply Hk|by apply stop_next]. Qed.

Lemma ready_state_live payload : ready_state payload <> Disconnected.
Proof. unfold ready_state. repeat case_match; done. Qed.

Lemma keep_frame_next kind r msg data s s1 :
  parse_message data = Ok msg -> still s s1 ->
  wp (keep_frame kind r msg) (next_ok s (messages r) data) s1.
Proof.
  intros Ht Hs. pose proof Hs as (Hc & Hst & Hse & Ha & Hd). unfold keep_frame. apply attempt_next; [done|].
  intros ready Hr%is_ready_tag. rewrite (parse_message_tag _ _ Ht) in Hr. fold (is_ready_frame data) in Hr.
  destruct (negb ready) eqn:Hn.
  { wps. split; [done|]. split; [by destruct ready|]. by exists msg. }
  wps; try (by apply stop_next; cbn; destruct (conn s1)).
  destruct ready; [|done]. split; [done|]. split; [by exists msg|]. cbn. pose proof (ready_state_live (payload msg)).
  destruct (conn s1); cbn in *; auto.
Qed.

Lemma on_error_frame_next r msg go ms data s s1 :
  still s s1 -> (forall e s2, still s s2 -> wp (go e) (next_ok s ms data) s2) ->
  wp (on_error_frame r msg go) (next_ok s ms data) s1.
Proof.
  intros Hs Hgo. pose proof Hs as (Hc & _). unfold on_error_frame. wp_step; [by apply Hgo|].
  apply attempt_next; [done|]. intros terminal _. wp_step; [by apply stop_next|].
  apply attempt_next; [done|]. intros sqlstate _. wps. apply watching_still; [auto|]. intros s2 Hs2.
  assert (still s s2) as Hss by (by etrans).
  wps; [|by apply Hgo]. eapply wp_mono; [apply mark_transport_failed_dead|]. cbn. intros _ s3 Hd. wps.
  destruct Hss as [Hc2 _]. split; [by eapply dead_from|done].
Qed.

Lemma record_status_still payload s : wp (record_status payload) (fun _ s' => still s s') s.
Proof. unfold record_status. wps; [|done]. destruct s as [[] ?]. by unfold still; cbn. Qed.

Lemma on_frame_next kind expected r data s : wp (on_frame kind expected r data) (next_ok s (messages r) data) s.
Proof.
  unfold on_frame. apply (bind_still _ _ _ s); [done| |].
  { wp_step; [|done]. by apply watching_still. }
  intros _ s1 Hs. pose proof Hs as (Hc & _). apply attempt_next; [done|]. intros msg Hmsg.
  wp_step; [by apply stop_next|].
  wp_step. { wps. eapply wp_mono; [apply disconnect_dead|]. cbn. intros _ s2 Hd. wps.
    split; [by eapply dead_from|done]. }
  wp_step; [by apply stop_next|].
  apply attempt_next; [done|]. intros ps _. apply attempt_next; [done|]. intros saw _. wps.
  apply attempt_next; [done|]. intros counted _. destruct counted as [n|]; [|by apply stop_next].
  apply (bind_still _ _ _ s); [done|wp_step; [apply record_status_still|done]|].
  intros recorded s2 Hs2. wp_step; [apply stop_next; by destruct Hs2|].
  apply on_error_frame_next; [done|]. intros e s3 Hs3.
  by eapply wp_mono; [eapply (keep_frame_next _ _ _ data s)|].
Qed.

(** ** A whole response *)

(** [frames] was received; nothing else happened to the link, which has a state. *)
Definition answered (frames : list bytes) s s' : Prop :=
  response frames /\ connected_ (conn s') = connected_ (conn s) /\ session_state_ (conn s') <> Disconnected /\
  settings_ (conn s') = settings_ (conn s) /\ accepted (io s') = accepted (io s) /\
  delivered (io s') = delivered (io s) ++ concat frames.

Lemma response_one f : is_ready_frame f = true -> response [f].
Proof. intros. exists [], f. by repeat split. Qed.
Lemma response_cons f frames : is_ready_frame f = false -> response frames -> response (f :: frames).
Proof. intros Hf (b & z & -> & Hz & Hb). exists (f :: b), z. repeat split; [done|]. by constructor. Qed.

(** The frames are the messages kept since [r]. *)
Definition decodes (frames : list bytes) (r r' : Reading) : Prop :=
  exists msgs, Forall2 (fun f m => parse_message f = Ok m) frames msgs /\ messages r' = messages r ++ msgs.

Lemma read_frames_answered kind expected deadline n r s :
  wp (read_frames kind expected deadline n r) (fun x s' =>
    match x with inl r' => exists frames, answered frames s s' /\ decodes frames r r' | inr e => dead s s' /\ oe_operation e = OpUnknown end) s.
Proof.
  revert r s. induction n as [|n IH]; intros r s; cbn [read_frames].
  { wps. eapply wp_mono; [apply mark_transport_failed_dead|]. cbn. intros. by wps. }
  wps. eapply wp_mono; [apply read_message_exact|]. cbn beta. intros [data|c] s1; [|intros; by wps].
  intros [_ (Hc & Ha & Hd)]. rewrite app_nil_r in Ha. wps.
  eapply wp_mono; [apply on_frame_next|]. cbn beta. intros [r'|r'|e] s2; cbn [next_ok].
  - intros ((H1 & H2 & H3 & H4 & H5) & Hr & msg & Hmsg & Hkept). rewrite Hc in *. eapply wp_mono; [apply IH|]. cbn beta.
    intros [r2|e] s3; [|intros [? ?]; split; [by eapply dead_from|done]]. intros (frames & (Hf & G1 & G2 & G3 & G4 & G5) & msgs & Hms & Hr2).
    exists (data :: frames). unfold answered. cbn [concat]. rewrite app_assoc, <- Hd. split.
    + split; [by apply response_cons|]. repeat split; congruence.
    + exists (msg :: msgs). split; [by constructor|]. rewrite Hr2, Hkept. cbn. by rewrite <- app_assoc.
  - intros (Hr & (msg & Hmsg & Hkept) & H1 & H2 & H3 & H4 & H5). rewrite Hc in *. wps. exists [data].
    unfold answered. cbn [concat]. rewrite app_nil_r, <- Hd. split.
    + split; [by apply response_one|]. repeat split; congruence.
    + exists [msg]. split; [by repeat constructor|done].
  - intros [Hd2 He]. wps. split; [by eapply dead_of|done].
Qed.

Lemma drained_evolves s : wp drained_response (fun _ s' => still s s' \/ dead s s') s.
Proof.
  unfold drained_response, watching. wps; try by left.
  all: match goal with H : drained ?k _ _ = _ |- _ =>
         pose proof (drained_quiet k true (io s)) as [Hd Ha]; rewrite H in Hd, Ha end.
  - eapply wp_mono; [apply mark_transport_failed_dead|]. cbn. intros _ s' Hdd. right.
    eapply dead_from, Hdd. by destruct (conn s).
  - left. match goal with |- still _ {| conn := _; io := cancellation_wait None ?e |} =>
            pose proof (wait_quiet None e) as [Hd2 Ha2] end.
    unfold still. cbn in *. rewrite Ha2, Hd2, Ha, Hd. by destruct (conn s).
Qed.

(** ** The decoded result

    [ok]: what happened is an evolution, and an error of type resolution
    carries the session's snapshot. *)

Definition resolution_reports (e : OpError) (c : Conn) : Prop :=
  oe_operation e = OpResolveTypes -> coherent c -> error_snapshot (oe e) = snapshot_of c.

Definition ok {A} s (x : A + OpError) s' : Prop :=
  evolves s s' /\ match x with inl _ => True | inr e => resolution_reports e (conn s') end.

Lemma ok_from {A} s s1 (x : A + OpError) s' : evolves s s1 -> ok s1 x s' -> ok s x s'.
Proof. intros H1 [H2 H3]. split; [by etrans|done]. Qed.

Lemma ok_value {A} s (a : A) : ok s (inl a) s.
Proof. by split. Qed.

Lemma ok_plain {A} s e : oe_operation e <> OpResolveTypes -> ok (A := A) s (inr e) s.
Proof. intros H. split; [done|]. by intros ?. Qed.

Lemma failed_ok {A} c s : wp (failed (A := A) c) (ok s) s.
Proof.
  unfold failed. wps. eapply wp_mono; [apply mark_transport_failed_dead|]. cbn. intros _ s' Hd. wps.
  split; [by apply dead_evolves|]. by intros ?.
Qed.

Lemma late_still enforce deadline s : wp (late enforce deadline) (fun _ s' => still s s') s.
Proof. eapply wp_mono; [apply late_moves|]. cbn. intros. by apply moved_still. Qed.

Lemma passed_still deadline s : wp (passed deadline) (fun _ s' => still s s') s.
Proof. apply (late_still true). Qed.

Section Decode.
Context (profile : PgCatalogProfile)
        (describe_type : Z -> Z -> Z -> NativeTypeInfo)
        (normalize_result_value : ScalarType -> bytes -> option bytes)
        (normalize_native_result_value : Z -> ScalarType -> bytes -> option bytes)
        (resolve_types : list Z -> Z -> M E (gmap Z NativeTypeInfo + OpError)).
Hypothesis resolve_ok : forall ids deadline s, wp (resolve_types ids deadline) (fun r s' =>
  evolves s s' /\ match r with inl _ => True | inr e => coherent (conn s') -> error_snapshot (oe e) = snapshot_of (conn s') end) s.

Lemma resolve_parameters_ok kind ids deadline s : wp (resolve_parameters resolve_types kind ids deadline) (ok s) s.
Proof.
  unfold resolve_parameters. wps; [by apply ok_value|]. eapply wp_mono; [apply resolve_ok|]. cbn beta.
  intros [types|e] s1 [He Hr]; wps.
  - split; [done|done].
  - split; [done|]. intros _ _. by cbn.
  - split; [done|]. intros _. exact Hr.
Qed.

Lemma normalize_item_ok kind parsed deadline s :
  wp (normalize_item describe_type normalize_result_value normalize_native_result_value resolve_types kind parsed deadline)
     (ok s) s.
Proof.
  unfold normalize_item. wps.
  eapply wp_mono; [apply resolve_parameters_ok|]. cbn beta. intros x s1 Hx.
  assert (ok s x s1) as Hx'.
  { eapply ok_from; [|exact Hx]. apply still_evolves. unfold still. cbn. by destruct (conn s). }
  destruct Hx' as [He Hr]. wps; by split.
Qed.

Lemma normalize_items_ok kind items deadline s :
  wp (normalize_items describe_type normalize_result_value normalize_native_result_value resolve_types kind items deadline)
     (ok s) s.
Proof.
  revert s. induction items as [|p items IH]; intros s; cbn [normalize_items]; [wps; by apply ok_value|].
  wps. eapply wp_mono; [apply normalize_item_ok|]. cbn beta. intros [item|e] s1 Hi; [|by wps; destruct Hi].
  wps. eapply wp_mono; [apply IH|]. cbn beta. intros [rest|e] s2 Hr; wps; (eapply ok_from; [apply Hi|]); by destruct Hr.
Qed.

Lemma publish_result_ok kind r first more deadline s : wp (publish_result kind r first more deadline) (ok s) s.
Proof.
  unfold publish_result. cbv zeta. wp_step; [wps; by apply ok_plain|]. wps.
  eapply wp_mono; [apply late_still|]. cbn beta. intros b s1 Hs%still_evolves.
  wps; [|by split]. eapply wp_mono; [apply failed_ok|]. cbn beta. intros x s2. by apply ok_from.
Qed.

Lemma decline_description_ok first more count deadline s :
  wp (decline_description first more count deadline) (ok s) s.
Proof.
  unfold decline_description. wp_step; [apply failed_ok|]. wps.
  eapply wp_mono; [apply passed_still|]. cbn beta. intros b s1 Hs%still_evolves.
  wps; [|by split]. eapply wp_mono; [apply failed_ok|]. cbn beta. intros x s2. by apply ok_from.
Qed.

Lemma checked_result_ok kind r first more count deadline s :
  wp (checked_result describe_type normalize_result_value normalize_native_result_value resolve_types
        kind r first more count deadline) (ok s) s.
Proof.
  unfold checked_result. wp_step; [apply failed_ok|]. wp_step; [wps; by apply ok_plain|].
  wp_step; [apply decline_description_ok|]. wps.
  eapply wp_mono; [apply normalize_item_ok|]. cbn beta. intros [item|e] s1 Hi; [|by wps; destruct Hi].
  wps. eapply wp_mono; [apply normalize_items_ok|]. cbn beta. intros [rest|e] s2 Hr;
    [|wps; eapply ok_from; [apply Hi|]; by destruct Hr].
  eapply wp_mono; [apply publish_result_ok|]. cbn beta. intros x s3 Hx.
  eapply ok_from; [apply Hi|]. eapply ok_from; [apply Hr|]. exact Hx.
Qed.

Lemma decode_result_ok kind r count deadline s :
  wp (decode_result profile describe_type normalize_result_value normalize_native_result_value resolve_types
        kind r count deadline) (ok s) s.
Proof.
  unfold decode_result. wps; try (by apply ok_plain); try apply checked_result_ok; apply failed_ok.
Qed.

(** Reading a response: the connection is given up, or a whole response was
    read, and whole exchanges for the types may follow it. *)
Lemma read_query_result_answers deadline kind expected count s :
  wp (read_query_result profile describe_type normalize_result_value normalize_native_result_value resolve_types
        deadline kind expected count) (fun x s' =>
    (dead s s' \/ exists frames s1, answered frames s s1 /\ evolves s1 s') /\
    match x with inl _ => True | inr e => resolution_reports e (conn s') end) s.
Proof.
  unfold read_query_result. wps. eapply wp_mono; [apply read_frames_answered|]. cbn beta.
  intros [r|e] s1 Hx.
  - destruct Hx as (frames & Ha & _). wps. eapply wp_mono; [apply drained_evolves|]. cbn beta. intros _ s2 Hd.
    eapply wp_mono; [apply decode_result_ok|]. cbn beta. intros x s3 [He Hr]. split; [|done].
    right. exists frames, s1. split; [done|]. etrans; [|exact He].
    destruct Hd; [by apply still_evolves|by apply dead_evolves].
  - destruct Hx as [Hd He]. wps. split; [by left|]. intros He'. by rewrite He in He'.
Qed.
End Decode.

(** ** Operations *)

Definition reports {A} (r : Reply A) (c : Conn) : Prop :=
  match r with Answered _ p => p = snapshot_of c | Refused e => error_snapshot (oe e) = snapshot_of c end.

(** What every operation does: an evolution, reported by the answer. *)
Definition sound {A} s (r : Reply A) s' : Prop := evolves s s' /\ (coherent (conn s') -> reports r (conn s')).

Lemma sound_from {A} s s1 (r : Reply A) s' : evolves s s1 -> sound s1 r s' -> sound s r s'.
Proof. intros H1 [H2 H3]. split; [by etrans|done]. Qed.

Definition reads s (x : QueryResult + OpError) s' : Prop :=
  (dead s s' \/ exists frames s1, answered frames s s1 /\ evolves s1 s') /\
  match x with inl _ => True | inr e => resolution_reports e (conn s') end.

Lemma sent_hook_still (cancellable : bool) s :
  wp (if cancellable then watching (fun k => effect (sent_request k)) else mret tt) (fun _ s' => still s s') s.
Proof.
  wp_step; [|done]. apply watching_still; [|done]. intros k s'. apply still_effect; [apply sent_quiet|done].
Qed.

Lemma before_hook_still (cancellable : bool) (c : Conn) s :
  wp (match cancellation_operation_ c with
      | Some k => if cancellable && cancellation_phase_active_ c then call (before_wire k) else mret true
      | None => mret true
      end) (fun _ s' => still s s') s.
Proof. do 2 (wp_step; try done). apply still_call; [apply before_wire_quiet|done]. Qed.

Lemma live_answered request frames s0 s1 s2 :
  connected_ (conn s0) = true -> moved request [] s0 s1 -> answered frames s1 s2 -> evolves s0 s2.
Proof.
  intros Hc (H1 & H2 & H3) (G1 & G2 & G3 & _ & G4 & G5). rewrite H1 in *. split.
  - intros _. unfold coherent. rewrite G2, Hc. by rewrite bool_decide_eq_true_2.
  - intros _. split; [done|]. exists [(request, frames)]. unfold exchanged. cbn. rewrite !app_nil_r in *.
    split; [congruence|]. split; [congruence|]. by repeat constructor.
Qed.

Lemma exchange_ok read encoded cancellable deadline s :
  (forall s1, wp read (reads s1) s1) ->
  wp (exchange read encoded cancellable deadline) (fun r s' =>
    evolves s s' /\ match r with Some (inr e) => resolution_reports e (conn s') | _ => True end) s.
Proof.
  intros Hread. unfold exchange. apply wp_bind, wp_get.
  assert (forall e, oe_operation e = OpUnknown -> resolution_reports e (conn s)) as Hp.
  { by intros e He He'; rewrite He in He'. }
  wp_step; [wps; split; [done|by apply Hp]|]. destruct encoded as [request|[]]; try (wps; split; [done|by (apply Hp || done)]).
  apply (bind_still _ _ _ s); [done|apply before_hook_still|]. intros allowed s1 Hs1.
  wp_step. { wps. split; [by apply still_evolves|]. by intros ?. }
  wps. eapply wp_mono; [apply write_all_exact|]. cbn beta. intros [[]|c] s2 Hw.
  2: { wps. split; [etrans; [by apply still_evolves|by apply dead_evolves]|]. by intros ?. }
  apply wp_bind. eapply wp_mono; [apply sent_hook_still|]. cbn beta. intros _ s3 Hs3. apply wp_bind.
  eapply wp_mono; [apply Hread|]. cbn beta. intros x s4 [Hx Hr]. wps. split; [|by destruct x].
  assert (connected_ (conn s1) = true) as Hc1 by (destruct Hs1 as [-> _]; by destruct (connected_ (conn s))).
  etrans; [by apply still_evolves|]. destruct Hx as [Hd|(frames & s5 & Ha & He)].
  - apply dead_evolves. eapply dead_from; [|exact Hd]. destruct Hs3 as [-> _]. by destruct Hw as [-> _].
  - etrans; [|exact He]. destruct Hs3 as (C1 & C2 & C3 & C4 & C5). destruct Ha as (A1 & A2 & A3 & A4 & A5 & A6).
    eapply live_answered; [done|exact Hw|]. unfold answered. split; [done|]. repeat split; congruence.
Qed.

Lemma finish_operation_sound op x s :
  match x with inl _ => True | inr e => resolution_reports e (conn s) end ->
  wp (finish_operation op x) (sound s) s.
Proof.
  intros Hx. unfold finish_operation. destruct x as [r|e].
  { wps. by split. }
  case_bool_decide as Ho; [wps; split; [done|]; intros Hc; by apply Hx|].
  wps; [|split; [done|]; by intros _].
  eapply wp_mono; [apply mark_transport_failed_dead|]. cbn beta. intros _ s1 Hd. wps.
  split; [by apply dead_evolves|]. by intros _.
Qed.

Lemma reject_sound op s : wp (reject_request_limit op) (sound s) s.
Proof. unfold reject_request_limit. wps. by split. Qed.

Lemma perform_sound op over read encoded cancellable deadline s :
  (forall s1, wp read (reads s1) s1) ->
  wp (perform op over (c ← get; exchange read (encoded c) cancellable deadline)) (sound s) s.
Proof.
  intros Hread. unfold perform. apply wp_bind, wp_get. wp_step; [apply reject_sound|].
  apply wp_bind, wp_bind, wp_get. eapply wp_mono; [by apply exchange_ok|]. cbn beta. intros [x|] s1 [He Hr].
  - eapply wp_mono; [apply finish_operation_sound; by destruct x|]. cbn beta. intros. by eapply sound_from.
  - eapply wp_mono; [apply reject_sound|]. cbn beta. intros. by eapply sound_from.
Qed.

Lemma retired_reports {A} s s' e : dead s s' -> reports (A := A) (Refused (with_session retired e)) (conn s').
Proof. intros (H1 & H2 & _). cbn. unfold snapshot_of. by rewrite H1, H2. Qed.

Lemma retire_sound op e s : wp (retire_session op e) (sound s) s.
Proof.
  unfold retire_session. wps. eapply wp_mono; [apply disconnect_dead|]. cbn beta. intros _ s1 Hd. wps.
  split; [by apply dead_evolves|]. intros _. by eapply retired_reports.
Qed.

Section Ops.
Context (max_size : Z) (profile : PgCatalogProfile) (floats : FloatEnv)
        (base_describe_type describe_type : Z -> Z -> Z -> NativeTypeInfo)
        (normalize_result_value : ScalarType -> bytes -> option bytes)
        (normalize_native_result_value : Z -> ScalarType -> bytes -> option bytes).

Abbreviation execute_query := (execute_query profile describe_type normalize_result_value normalize_native_result_value).
Abbreviation execute_cleanup_query :=
  (execute_cleanup_query profile describe_type normalize_result_value normalize_native_result_value).
Abbreviation resolve_types :=
  (resolve_types profile base_describe_type describe_type normalize_result_value normalize_native_result_value).
Abbreviation typed_result :=
  (typed_result profile base_describe_type describe_type normalize_result_value normalize_native_result_value).
Abbreviation execute_prepared :=
  (execute_prepared max_size profile floats base_describe_type describe_type normalize_result_value normalize_native_result_value).
Abbreviation describe_statement :=
  (describe_statement profile base_describe_type describe_type normalize_result_value normalize_native_result_value).
Abbreviation decline_candidate :=
  (decline_prepared_description_candidate max_size profile floats base_describe_type describe_type
     normalize_result_value normalize_native_result_value).
Abbreviation check_health := (check_health profile describe_type normalize_result_value normalize_native_result_value).
Abbreviation transaction := (transaction profile describe_type normalize_result_value normalize_native_result_value).
Abbreviation set_transaction_isolation :=
  (set_transaction_isolation profile describe_type normalize_result_value normalize_native_result_value).
Abbreviation cleanup := (cleanup profile describe_type normalize_result_value normalize_native_result_value).
Abbreviation reset_session := (reset_session profile describe_type normalize_result_value normalize_native_result_value).

Lemma simple_reads deadline expected s :
  wp (simple_result profile describe_type normalize_result_value normalize_native_result_value deadline expected) (reads s) s.
Proof. apply read_query_result_answers. intros ids d s1. unfold unresolved. by wps. Qed.

Lemma execute_query_sound sql deadline s : wp (execute_query sql deadline) (sound s) s.
Proof. apply perform_sound. intros. apply simple_reads. Qed.

Lemma execute_cleanup_sound sql expected deadline s : wp (execute_cleanup_query sql expected deadline) (sound s) s.
Proof. apply perform_sound. intros. apply simple_reads. Qed.

Lemma passive_is_snapshot c : coherent c -> passive_snapshot (session_state_ c) = snapshot_of c.
Proof.
  unfold coherent, passive_snapshot, snapshot_of. intros ->. by destruct (session_state_ c).
Qed.

Definition resolves s (r : gmap Z NativeTypeInfo + OpError) s' : Prop :=
  evolves s s' /\ match r with inl _ => True | inr e => coherent (conn s') -> error_snapshot (oe e) = snapshot_of (conn s') end.

Lemma resolving_ok skip body s :
  (forall s1, wp body (resolves s1) s1) -> wp (resolving (inl skip) body) (resolves s) s.
Proof.
  intros Hb. unfold resolving. apply wp_bind, wp_get. wp_step; [|apply Hb].
  apply (bind_still _ _ _ s); [done|apply still_call; [apply enter_quiet|done]|]. intros entered s1 Hs1%still_evolves.
  wp_step; [by wps; split|]. apply wp_bind. eapply wp_mono; [apply Hb|]. cbn beta. intros r s2 [He Hr].
  apply wp_bind. apply still_effect; [apply leave_quiet|]. intros s3 Hs3. wps. split.
  - etrans; [done|]. etrans; [done|]. by apply still_evolves.
  - destruct r as [|e]; [done|]. destruct Hs3 as (H1 & H2 & _). unfold coherent, snapshot_of in *. by rewrite H1, H2.
Qed.

Lemma resolve_types_ok ids deadline s : wp (resolve_types ids deadline) (resolves s) s.
Proof.
  unfold PgSession.resolve_types. destruct (local_types _ _ _ ids) as [resolved pending].
  wp_step; [by wps; split|]. apply resolving_ok. intros s1. apply wp_bind.
  eapply wp_mono; [apply execute_query_sound|]. cbn beta. intros [types p|e] s2 [He Hr]; wps.
  - by split.
  - split; [done|]. intros Hc. cbn. rewrite <- passive_is_snapshot by done. by destruct (session_state_ (conn s2)).
  - by split.
Qed.

Lemma typed_reads deadline kind count s : wp (typed_result deadline kind count) (reads s) s.
Proof. apply read_query_result_answers. intros ids d s1. apply resolve_types_ok. Qed.

Lemma execute_prepared_sound sql params deadline s : wp (execute_prepared sql params deadline) (sound s) s.
Proof. apply perform_sound. intros. apply typed_reads. Qed.

Lemma describe_statement_sound sql types deadline s : wp (describe_statement sql types deadline) (sound s) s.
Proof. apply (perform_sound _ _ _ (fun c => _)). intros. apply typed_reads. Qed.

Lemma refuse_sound op c s : wp (finish_operation op (inr (op_error c))) (sound s) s.
Proof. apply finish_operation_sound. by intros ?. Qed.

Lemma bind_sound {A B} (m : M E A) (f : A -> M E (Reply B)) s :
  wp m (fun _ s1 => evolves s s1) s -> (forall a s1, wp (f a) (sound s1) s1) -> wp (m ≫= f) (sound s) s.
Proof.
  intros Hm Hf. apply wp_bind. eapply wp_mono; [exact Hm|]. cbn beta. intros a s1 He.
  eapply wp_mono; [apply Hf|]. cbn beta. intros r s2. by apply sound_from.
Qed.

Lemma passed_evolves deadline s : wp (passed deadline) (fun _ s' => evolves s s') s.
Proof. eapply wp_mono; [apply passed_still|]. cbn beta. intros _ s'. apply still_evolves. Qed.

Lemma decline_exchange_sound request count deadline s :
  connected_ (conn s) = true ->
  wp (decline_exchange profile base_describe_type describe_type normalize_result_value normalize_native_result_value
        request count deadline) (sound s) s.
Proof.
  intros Hc. unfold decline_exchange. apply wp_bind. eapply wp_mono; [apply write_all_exact|]. cbn beta.
  intros [[]|c] s1 Hw.
  2: { eapply wp_mono; [apply refuse_sound|]. cbn beta. intros r s2. apply sound_from. by apply dead_evolves. }
  apply wp_bind. eapply wp_mono; [apply typed_reads|]. cbn beta. intros x s2 [Hx Hr].
  assert (evolves s s2) as He.
  { destruct Hx as [Hd|(frames & s3 & Ha & He)].
    - apply dead_evolves. eapply dead_of; [apply Hw|done].
    - etrans; [|exact He]. by eapply live_answered. }
  apply wp_bind. eapply wp_mono; [apply passed_still|]. cbn beta. intros expired s3 Hs3.
  assert (evolves s s3) as He3 by (etrans; [exact He|by apply still_evolves]).
  wp_step.
  - eapply wp_mono; [apply bind_sound|]. 3: { cbn beta. intros r s4. by apply sound_from. }
    + eapply wp_mono; [apply mark_transport_failed_dead|]. cbn beta. intros _ s4. apply dead_evolves.
    + intros. apply refuse_sound.
  - eapply wp_mono; [apply finish_operation_sound|]. 2: { cbn beta. intros r s4. by apply sound_from. }
    destruct x as [|e]; [done|]. destruct Hs3 as (H1 & H2 & _). unfold resolution_reports, coherent, snapshot_of in *.
    by rewrite H1, H2.
Qed.

Lemma decline_sound sql params deadline s : wp (decline_candidate sql params deadline) (sound s) s.
Proof.
  unfold decline_prepared_description_candidate. apply wp_bind, wp_get.
  wp_step; [apply refuse_sound|]. wp_step; [apply refuse_sound|].
  apply wp_bind. eapply wp_mono; [apply passed_still|]. cbn beta. intros expired s1 Hs1.
  assert (evolves s s1) as He by (by apply still_evolves).
  assert (forall (m : M E (Reply QueryResult)) s2, evolves s s2 -> wp m (sound s2) s2 -> wp m (sound s) s2) as Hm.
  { intros m s2 H2 H3. eapply wp_mono; [exact H3|]. cbn beta. intros. by eapply sound_from. }
  wp_step; [apply Hm; [done|apply refuse_sound]|]. cbv zeta.
  wp_step; [apply Hm; [done|apply reject_sound]|].
  wp_step; [apply Hm; [done|apply refuse_sound]|].
  match goal with |- context [match ?x with Ok _ => _ | Throw _ => _ end] => destruct x as [request|[]] end;
    try (apply Hm; [done|(apply refuse_sound || apply reject_sound)]).
  apply wp_bind. eapply wp_mono; [apply passed_still|]. cbn beta. intros expired2 s2 Hs2.
  assert (still s s2) as Hss by (by etrans).
  wp_step; (apply Hm; [by apply still_evolves|]); [apply refuse_sound|].
  apply decline_exchange_sound. destruct Hss as [-> _]. by destruct (connected_ (conn s)).
Qed.

(** An operation on the answer of another one. *)
Lemma then_sound {A B} (m : M E (Reply A)) (f : Reply A -> M E (Reply B)) s :
  wp m (sound s) s -> (forall r s1, (coherent (conn s1) -> reports r (conn s1)) -> wp (f r) (sound s1) s1) ->
  wp (m ≫= f) (sound s) s.
Proof.
  intros Hm Hf. apply wp_bind. eapply wp_mono; [exact Hm|]. cbn beta. intros r s1 [He Hr].
  eapply wp_mono; [by apply Hf|]. cbn beta. intros r2 s2. by apply sound_from.
Qed.

Lemma check_health_sound deadline s : wp (check_health deadline) (sound s) s.
Proof.
  apply then_sound; [apply execute_query_sound|]. intros [r p|e] s1 Hr; [wp_step; [apply retire_sound|]|]; by wps.
Qed.

Lemma transaction_sound action deadline s : wp (transaction action deadline) (sound s) s.
Proof.
  unfold PgSession.transaction. destruct (transaction_command action) as [[command op] expected].
  apply then_sound; [apply execute_query_sound|]. intros [r p|e] s1 Hr; [wp_step; [|apply retire_sound]|]; by wps.
Qed.

Lemma local_sound {A} kind op s : sound s (Refused (A := A) (local_error kind op (session_state_ (conn s)))) s.
Proof. split; [done|]. intros Hc. cbn. rewrite <- passive_is_snapshot by done. by destruct kind. Qed.

Lemma isolation_sound level deadline s : wp (set_transaction_isolation level deadline) (sound s) s.
Proof.
  unfold PgSession.set_transaction_isolation. apply wp_bind, wp_get. wp_step; [wps; apply local_sound|].
  apply then_sound; [apply execute_query_sound|]. intros [r p|e] s1 Hr; by wps.
Qed.

Lemma cleanup_sound sql deadline s : wp (cleanup sql deadline) (sound s) s.
Proof.
  apply then_sound; [apply execute_cleanup_sound|].
  intros [r p|e] s1 Hr; [wp_step; [apply retire_sound|by wps]|apply retire_sound].
Qed.

Lemma reset_session_sound has_profile deadline s : wp (reset_session has_profile deadline) (sound s) s.
Proof.
  unfold PgSession.reset_session. apply wp_bind, wp_get. wp_step; [wps; apply local_sound|].
  wp_step; try apply retire_sound; try apply cleanup_sound.
  all: apply then_sound; [apply cleanup_sound|]; intros [r p|e] s1 Hr; [apply cleanup_sound|by wps].
Qed.

(** ** Sequences of operations *)

Inductive SessionOp :=
| ExecuteQuery (sql : bytes)
| ExecutePrepared (sql : bytes) (params : list QueryParameter)
| DescribeStatement (sql : bytes) (types : list QueryParameterType)
| DeclineCandidate (sql : bytes) (params : list QueryParameter)
| CheckHealth
| RunTransaction (action : TransactionAction)
| SetIsolation (level : TransactionIsolation)
| ResetSession (has_profile : bool)
| Disconnect.

Definition void {A} (r : Reply A) : Reply unit :=
  match r with Answered _ p => Answered tt p | Refused e => Refused e end.

Definition exec_op (op : SessionOp) deadline : M E (Reply unit) :=
  match op with
  | ExecuteQuery sql => r ← execute_query sql deadline; mret (void r)
  | ExecutePrepared sql params => r ← execute_prepared sql params deadline; mret (void r)
  | DescribeStatement sql types => r ← describe_statement sql types deadline; mret (void r)
  | DeclineCandidate sql params => r ← decline_candidate sql params deadline; mret (void r)
  | CheckHealth => check_health deadline
  | RunTransaction action => transaction action deadline
  | SetIsolation level => set_transaction_isolation level deadline
  | ResetSession has_profile => reset_session has_profile deadline
  | Disconnect => _ ← disconnect; mret (Answered tt retired)
  end.

Fixpoint exec_ops (ops : list (SessionOp * Z)) : M E (list (Reply unit)) :=
  match ops with
  | [] => mret []
  | (op, deadline) :: ops => r ← exec_op op deadline; rs ← exec_ops ops; mret (r :: rs)
  end.

Lemma void_sound {A} (m : M E (Reply A)) s : wp m (sound s) s -> wp (r ← m; mret (void r)) (sound s) s.
Proof.
  intros Hm. apply wp_bind. eapply wp_mono; [exact Hm|]. cbn beta. intros [a p|e] s1 [He Hr]; by wps.
Qed.

Lemma exec_op_sound op deadline s : wp (exec_op op deadline) (sound s) s.
Proof.
  destruct op; cbn [exec_op].
  - apply void_sound, execute_query_sound.
  - apply void_sound, execute_prepared_sound.
  - apply void_sound, describe_statement_sound.
  - apply void_sound, decline_sound.
  - apply check_health_sound.
  - apply transaction_sound.
  - apply isolation_sound.
  - apply reset_session_sound.
  - wps. eapply wp_mono; [apply disconnect_dead|]. cbn beta. intros _ s1 Hd. wps.
    split; [by apply dead_evolves|]. intros _. destruct Hd as (H1 & H2 & _). cbn. unfold snapshot_of. by rewrite H1, H2.
Qed.

Lemma exec_ops_evolves ops s : wp (exec_ops ops) (fun _ s' => evolves s s') s.
Proof.
  revert s. induction ops as [|[op deadline] ops IH]; intros s; cbn [exec_ops]; [by wps|].
  apply wp_bind. eapply wp_mono; [apply exec_op_sound|]. cbn beta. intros r s1 [He _].
  apply wp_bind. eapply wp_mono; [apply IH|]. cbn beta. intros rs s2 He2. wps. by etrans.
Qed.
End Ops.


(** The snapshot an operation returns, with its value or with its error, is
    the session's own: its state, [Retire] when it is not connected, [Reusable]
    only when it is connected and idle. *)
Theorem operation_reports_session (max_size : Z) (profile : PgCatalogProfile) (floats : FloatEnv)
    (base_describe_type describe_type : Z -> Z -> Z -> NativeTypeInfo)
    (normalize : ScalarType -> bytes -> option bytes) (normalize_native : Z -> ScalarType -> bytes -> option bytes)
    (op : SessionOp) (deadline : Z) (s s' : Session E) (answer : Reply unit)
    (Hs : coherent (conn s))
    (Hrun : exec_op max_size profile floats base_describe_type describe_type normalize normalize_native op deadline s = (s', answer)) :
  reports answer (conn s').
Proof.
  pose proof (exec_op_sound max_size profile floats base_describe_type describe_type normalize normalize_native op deadline s) as H.
  unfold wp in H. rewrite Hrun in H. destruct H as [[Hc _] Hr]. by apply Hr, Hc.
Qed.
End Sync.

(** ** A session that answers *)

(** One column of text, one row, the command tag and an idle session. *)
Definition sample_response : bytes :=
  frame (ch "T") ([0; 1] ++ cstring (str "c") ++ [0; 0; 0; 0] ++ [0; 0] ++ be32 25 ++ [255; 255] ++
                  [255; 255; 255; 255] ++ [0; 0]) ++
  frame (ch "D") ([0; 1] ++ be32 1 ++ str "x") ++ frame (ch "C") (cstring (str "SELECT 1")) ++
  frame (ch "Z") (str "I").
Definition sample_session (c : Conn) (answers : list bytes) : Session Chunks :=
  {| conn := c; io := {| chunks := answers; taken := []; given := []; clock := 0 |} |}.
Definition text_type : Z -> Z -> Z -> NativeTypeInfo := fun _ _ _ =>
  {| scalar := SVarChar; column_size := 10; decimal_digits := 0; known := true; declared_type := None;
     declared_column_size := None; type_name := None |}.
Definition as_text : ScalarType -> bytes -> option bytes := fun _ v => Some v.
Definition native_as_text : Z -> ScalarType -> bytes -> option bytes := fun _ _ v => Some v.
Definition no_floats : FloatEnv := {| captured := false; locale := false; restored := false |}.
Definition sample_ops : list (SessionOp * Z) := [(ExecuteQuery (str "SELECT c FROM t"), 10); (RunTransaction Begin_, 10)].
Definition sample_start : Session Chunks :=
  sample_session idle_conn [sample_response; frame (ch "C") (cstring (str "BEGIN")) ++ frame (ch "Z") (str "T")].
Definition sample_end : Session Chunks * list (Reply unit) := Eval vm_compute in
  exec_ops 1000 PostgreSQL no_floats text_type text_type as_text native_as_text sample_ops sample_start.


Definition sample_answer : Session Chunks * Reply unit := Eval vm_compute in
  exec_op 1000 PostgreSQL no_floats text_type text_type as_text native_as_text
    (ExecuteQuery (str "SELECT c FROM t")) 10 (sample_session idle_conn [sample_response]).

Lemma operation_reports_session_witness :
  sample_answer.2 = Answered tt idle_reusable /\ reports sample_answer.2 (conn sample_answer.1).
Proof.
  split; [done|].
  refine (operation_reports_session 1000 PostgreSQL no_floats text_type text_type as_text native_as_text
    (ExecuteQuery (str "SELECT c FROM t")) 10 (sample_session idle_conn [sample_response]) sample_answer.1 sample_answer.2
    eq_refl _). vm_compute. reflexivity.
Defined.
