(* ===== verification/SessionResult.v ===== *)
(** * What an answer is made of

    The requests an operation of PgSession.v writes and the result it publishes:
    a query that is answered wrote exactly its request, and its rows, columns
    and completion are the decoded response.  A reset that succeeds rolled back
    a transaction and discarded the session's state, in this order. *)

From stdpp Require Import sorting.
From S2P Require Import Prelude Utf8 Digits PgWire PgMarkers PgIeee PgRequest PgResult Scram PgAuth Backend Connection Response PgSession SessionSync.

(** ** Programs that leave one side of the stream alone *)

Section Unmoved.
Context {E : Type} (side : E -> bytes).

Definition unmoved {A} (m : M E A) : Prop := forall s, side (io (m s).1) = side (io s).

Lemma unmoved_ret {A} (a : A) : unmoved (mret a).
Proof. done. Qed.
Lemma unmoved_bind {A B} (m : M E A) (f : A -> M E B) : unmoved m -> (forall a, unmoved (f a)) -> unmoved (m ≫= f).
Proof.
  intros Hm Hf s. unfold mbind, M_bind. specialize (Hm s). destruct (m s) as [s1 a]. by rewrite Hf, <- Hm.
Qed.
Lemma unmoved_get : unmoved get.
Proof. done. Qed.
Lemma unmoved_modify f : unmoved (modify f).
Proof. done. Qed.
Lemma unmoved_call {A} (f : E -> E * A) : (forall e, side (f e).1 = side e) -> unmoved (call f).
Proof. intros Hf s. unfold call. specialize (Hf (io s)). by destruct (f (io s)). Qed.
Lemma unmoved_effect (f : E -> E) : (forall e, side (f e) = side e) -> unmoved (effect f).
Proof. intros Hf. by apply unmoved_call. Qed.
Lemma unmoved_loop {S A} measure (step : S -> M E (S + Result A)) x :
  (forall x, unmoved (step x)) -> unmoved (loop measure step x).
Proof.
  intros Hs s. unfold loop. generalize (Datatypes.S (measure x)). intros n. revert x s.
  induction n as [|n IH]; intros x s; [done|]. cbn [loop_fuel]. specialize (Hs x s).
  destruct (step x s) as [s1 [x1|r]]; [by rewrite IH|done].
Qed.
Lemma unmoved_wp {A} (m : M E A) s : unmoved m -> wp m (fun _ s' => side (io s') = side (io s)) s.
Proof. intros H. apply H. Qed.
End Unmoved.

Create HintDb unmoved.
#[export] Hint Resolve unmoved_ret unmoved_get unmoved_modify : unmoved.
#[export] Hint Extern 1 (forall e, _ = _) =>
  first [apply seal_quiet | apply close_quiet | apply now_quiet | apply wait_quiet | apply observed_quiet
        | apply drained_quiet | intros; apply recv_accepts] : unmoved.

Ltac unmoved_step :=
  match goal with
  | |- forall _, _ => intros ?
  | |- unmoved _ (_ ≫= _) => apply unmoved_bind
  | |- unmoved _ (call _) => apply unmoved_call
  | |- unmoved _ (effect _) => apply unmoved_effect
  | |- unmoved _ (loop _ _ _) => apply unmoved_loop
  | |- unmoved _ (if ?b then _ else _) => destruct b
  | |- unmoved _ (match ?x with _ => _ end) => destruct x
  end.
Ltac unmoveds := repeat (first [solve [auto with unmoved] | unmoved_step]).

(** The two sides of a stream. *)
Inductive stream_side {E} `{!Peer E, !StreamPeer E} : (E -> bytes) -> Prop :=
| side_accepted : stream_side accepted
| side_delivered : stream_side delivered.

Section Both.
Context {E : Type} `{!Peer E, !StreamPeer E} (side : E -> bytes) (Hside : stream_side side).

Lemma unmoved_mark : unmoved side mark_transport_failed.
Proof using Hside. destruct Hside; unfold mark_transport_failed; unmoveds. Qed.
#[local] Hint Resolve unmoved_mark : unmoved.
Lemma unmoved_late enforce deadline : unmoved side (late enforce deadline).
Proof using Hside. destruct Hside; unfold late, passed; unmoveds. Qed.
#[local] Hint Resolve unmoved_late : unmoved.
Lemma unmoved_passed deadline : unmoved side (passed deadline).
Proof using Hside. apply (unmoved_late true). Qed.
#[local] Hint Resolve unmoved_passed : unmoved.
Lemma unmoved_drained : unmoved side drained_response.
Proof using Hside.
  pose proof unmoved_mark. destruct Hside; unfold drained_response, watching; unmoveds.
Qed.

(** Decoding a simple query's response is local. *)
Lemma unmoved_decode profile describe_type normalize normalize_native r count deadline :
  unmoved side (decode_result profile describe_type normalize normalize_native unresolved SimpleExecution r count deadline).
Proof using Hside.
  assert (forall p, unmoved side (normalize_item describe_type normalize normalize_native unresolved SimpleExecution p deadline)) as Hi.
  { intros p. unfold normalize_item, resolve_parameters, unresolved. unmoveds. }
  assert (forall ps, unmoved side (normalize_items describe_type normalize normalize_native unresolved SimpleExecution ps deadline)) as His.
  { intros ps. induction ps; cbn [normalize_items]; unmoveds. }
  unfold decode_result, checked_result, decline_description, publish_result, failed. unmoveds.
Qed.
End Both.

Section Mute.
Context {E : Type} `{!Peer E, !StreamPeer E}.
Abbreviation mute := (unmoved (E := E) accepted).
#[local] Hint Extern 1 (unmoved accepted _) =>
  first [apply (unmoved_mark _ side_accepted) | apply (unmoved_late _ side_accepted)
        | apply (unmoved_drained _ side_accepted) | apply (unmoved_decode _ side_accepted)] : unmoved.

Lemma mute_finish endpoint : mute (finish_cancellation_operation endpoint).
Proof. unfold finish_cancellation_operation. unmoveds. Qed.
#[local] Hint Resolve mute_finish : unmoved.
Lemma mute_disconnect : mute disconnect.
Proof. unfold disconnect. unmoveds. Qed.
#[local] Hint Resolve mute_disconnect : unmoved.
Lemma mute_abandon {A} c : mute (abandon (A := A) c).
Proof. unfold abandon. unmoveds. Qed.
#[local] Hint Resolve mute_abandon : unmoved.
Lemma mute_receive enforce deadline buffer offset requested : mute (receive enforce deadline buffer offset requested).
Proof. unfold receive. unmoveds. Qed.
#[local] Hint Resolve mute_receive : unmoved.
Lemma mute_read_message enforce deadline remaining : mute (read_message enforce deadline remaining).
Proof. unfold read_message, header_step, body_step. unmoveds. Qed.
#[local] Hint Resolve mute_read_message : unmoved.
Lemma mute_stop c : mute (stop c).
Proof. unfold stop. unmoveds. Qed.
#[local] Hint Resolve mute_stop : unmoved.
Lemma mute_on_frame kind expected r data : mute (on_frame kind expected r data).
Proof. unfold on_frame, attempt, on_error_frame, keep_frame, attempt, record_status, watching. unmoveds. Qed.
#[local] Hint Resolve mute_on_frame : unmoved.
Lemma mute_read_frames kind expected deadline n r : mute (read_frames kind expected deadline n r).
Proof. revert r. induction n as [|n IH]; intros r; cbn [read_frames]; unmoveds. Qed.
#[local] Hint Resolve mute_read_frames : unmoved.
Lemma mute_simple_result profile describe_type normalize normalize_native deadline expected :
  mute (simple_result profile describe_type normalize normalize_native deadline expected).
Proof. unfold simple_result, read_query_result. unmoveds. Qed.
Lemma mute_finish_operation op x : mute (finish_operation op x).
Proof. unfold finish_operation. unmoveds. Qed.
End Mute.
#[export] Hint Resolve mute_disconnect mute_simple_result mute_finish_operation : unmoved.

(** ** Well-formed results *)

Definition before_cell (a b : CellEncodingError) : Prop :=
  (error_row a < error_row b)%nat \/ (error_row a = error_row b /\ (error_column a < error_column b)%nat).

Definition is_text (t : ScalarType) : bool :=
  match t with SChar | SVarChar | SLongVarChar => true | _ => false end.

(** The contract of [query_result.h]: every row has one cell per column, names
    are UTF-8 without NUL, text cells are UTF-8, and the deferred cell errors are
    in order, without duplicates, at cells that hold the empty placeholder. *)
Record well_formed (r : QueryResult) : Prop := {
  wf_width : Forall (fun row => length row = length (q_columns r)) (q_rows r);
  wf_names : Forall (fun c => ~ In 0 (column_name c) /\ utf8_code_point_count (column_name c) <> None) (q_columns r);
  wf_types : Forall (fun c => normalized_type c <> None) (q_columns r);
  wf_text : forall row column cells c t v,
    q_rows r !! row = Some cells -> q_columns r !! column = Some c -> normalized_type c = Some t ->
    is_text (default (scalar t) (declared_type t)) = true ->
    cells !! column = Some (Some v) -> utf8_code_point_count v <> None;
  wf_errors : StronglySorted before_cell (cell_errors r);
  wf_places : Forall (fun e => exists cells, q_rows r !! error_row e = Some cells /\ cells !! error_column e = Some (Some []))
                (cell_errors r);
}.

Section Cells.
Context (normalize_result_value : ScalarType -> bytes -> option bytes)
        (normalize_native_result_value : Z -> ScalarType -> bytes -> option bytes).
Abbreviation normalize_cell := (normalize_cell normalize_result_value normalize_native_result_value).
Abbreviation normalize_row := (normalize_row normalize_result_value normalize_native_result_value).
Abbreviation normalize_rows := (normalize_rows normalize_result_value normalize_native_result_value).

Lemma normalize_cell_bad parsed column t v : (normalize_cell parsed column t v).2 = true -> (normalize_cell parsed column t v).1 = [].
Proof. unfold Response.normalize_cell. cbv zeta. repeat case_match; done. Qed.

Lemma normalize_cell_text parsed column t v :
  is_text (default (scalar t) (declared_type t)) = true -> utf8_code_point_count (normalize_cell parsed column t v).1 <> None.
Proof.
  unfold Response.normalize_cell. cbv zeta. destruct (default _ _); try done; intros _; case_bool_decide as H; cbn [fst]; try done.
  all: intros Hn; rewrite Hn in H; by destruct H.
Qed.

Lemma normalize_row_length parsed row column cells described :
  length (normalize_row parsed row column cells described).1 = length cells.
Proof.
  revert column described. induction cells as [|c cells IH]; intros column [|d described]; cbn; [done..|].
  specialize (IH (S column) described). destruct (normalize_row _ _ _ _ _) as [rest errors]. cbn in *.
  repeat case_match; cbn; lia.
Qed.

(** One row: its errors are at its empty placeholders, from [column] on. *)
Lemma normalize_row_errors parsed row column cells described :
  Forall (fun e => error_row e = row /\ (column <= error_column e)%nat /\
            (normalize_row parsed row column cells described).1 !! (error_column e - column)%nat = Some (Some []))
    (normalize_row parsed row column cells described).2 /\
  StronglySorted before_cell (normalize_row parsed row column cells described).2.
Proof.
  revert column described. induction cells as [|cell cells IH]; intros column [|d described]; cbn;
    try (split; by constructor).
  specialize (IH (S column) described). destruct (normalize_row _ _ _ _ _) as [rest errors]. cbn in *.
  destruct IH as [IH1 IH2].
  assert (forall x, Forall (fun e => error_row e = row /\ (column <= error_column e)%nat /\
            (x :: rest) !! (error_column e - column)%nat = Some (Some [])) errors) as Hrest.
  { intros x. eapply list.Forall_impl; [exact IH1|]. cbn. intros e (He & Hc & Hl). split; [done|]. split; [lia|].
    by replace (error_column e - column)%nat with (S (error_column e - S column)) by lia. }
  destruct cell as [v|]; [|by cbn]. destruct (normalized_type d) as [t|]; [|by cbn].
  pose proof (normalize_cell_bad parsed column t v) as Hbad.
  destruct (normalize_cell parsed column t v) as [v' bad]. cbn in *. split.
  - destruct bad; [|by apply Hrest]. rewrite (Hbad eq_refl). constructor; [|by apply Hrest].
    cbn. split; [done|]. split; [lia|]. by rewrite Nat.sub_diag.
  - destruct bad; [|done]. constructor; [done|]. eapply list.Forall_impl; [exact IH1|]. cbn.
    intros e (He & Hc & _). right. cbn. lia.
Qed.

Lemma normalize_row_text parsed row column cells described i c t v :
  described !! i = Some c -> normalized_type c = Some t -> is_text (default (scalar t) (declared_type t)) = true ->
  (normalize_row parsed row column cells described).1 !! i = Some (Some v) -> utf8_code_point_count v <> None.
Proof.
  revert column described i. induction cells as [|cell cells IH]; intros column [|d described] i; cbn; try done.
  intros Hd Ht Htext. specialize (IH (S column) described). destruct (normalize_row _ _ _ _ _) as [rest errors]. cbn in *.
  destruct i as [|i]; cbn in Hd.
  - injection Hd as ->. rewrite Ht. pose proof (normalize_cell_text parsed column t) as Hn.
    destruct cell as [w|]; [|by cbn]. specialize (Hn w Htext). destruct (normalize_cell parsed column t w); cbn in *.
    by intros [= <-].
  - intros Hr. eapply IH; [exact Hd|done|done|]. revert Hr. repeat case_match; cbn; done.
Qed.

Lemma normalize_rows_length parsed row rs described :
  length (normalize_rows parsed row rs described).1 = length rs.
Proof.
  revert row. induction rs as [|r rs IH]; intros row; cbn; [done|]. specialize (IH (S row)).
  destruct (normalize_row _ _ _ _ _). destruct (normalize_rows _ _ _ _). cbn in *. lia.
Qed.

(** Row [i] of the result is row [i] of the input, normalised. *)
Lemma normalize_rows_lookup parsed row rs described i :
  (normalize_rows parsed row rs described).1 !! i =
  (fun cells => (normalize_row parsed (row + i) 0 cells described).1) <$> rs !! i.
Proof.
  revert row i. induction rs as [|r rs IH]; intros row i; cbn; [done|]. specialize (IH (S row)).
  destruct (normalize_row parsed row 0 r described) as [r' errors] eqn:Hr.
  destruct (normalize_rows parsed (S row) rs described) as [rs' more]. cbn in *.
  destruct i as [|i]; cbn; [by rewrite Nat.add_0_r, Hr|]. rewrite IH. by rewrite Nat.add_succ_r.
Qed.

Lemma sorted_app_rows (l k : list CellEncodingError) (row : nat) :
  StronglySorted before_cell l -> StronglySorted before_cell k ->
  Forall (fun e => error_row e = row) l -> Forall (fun e => (row < error_row e)%nat) k ->
  StronglySorted before_cell (l ++ k).
Proof.
  induction l as [|e l IH]; intros Hl Hk Fl Fk; [done|]. inversion Hl; subst. inversion Fl; subst. cbn.
  constructor; [by apply IH|]. apply Forall_app. split; [done|].
  eapply list.Forall_impl; [exact Fk|]. cbn. intros x Hx. left. lia.
Qed.

Lemma normalize_rows_errors parsed row rs described :
  Forall (fun e => (row <= error_row e)%nat /\ exists cells,
            (normalize_rows parsed row rs described).1 !! (error_row e - row)%nat = Some cells /\
            cells !! error_column e = Some (Some [])) (normalize_rows parsed row rs described).2 /\
  StronglySorted before_cell (normalize_rows parsed row rs described).2.
Proof.
  revert row. induction rs as [|r rs IH]; intros row; cbn; [split; constructor|]. specialize (IH (S row)).
  pose proof (normalize_row_errors parsed row 0 r described) as [He Hs].
  destruct (normalize_row parsed row 0 r described) as [r' errors].
  destruct (normalize_rows parsed (S row) rs described) as [rs' more]. cbn in *. destruct IH as [IH1 IH2]. split.
  - apply Forall_app. split.
    + eapply list.Forall_impl; [exact He|]. cbn. intros e (-> & _ & Hl). split; [lia|]. rewrite Nat.sub_diag. cbn.
      rewrite Nat.sub_0_r in Hl. eauto.
    + eapply list.Forall_impl; [exact IH1|]. cbn. intros e (Hle & cells & Hl & Hc). split; [lia|].
      replace (error_row e - row)%nat with (S (error_row e - S row)) by lia. cbn. eauto.
  - apply (sorted_app_rows _ _ row); [done|done| |].
    + eapply list.Forall_impl; [exact He|]. by cbn; intros e (? & _).
    + eapply list.Forall_impl; [exact IH1|]. cbn. intros e (? & _). lia.
Qed.
End Cells.

(** ** The published result *)

Section Published.
Context {E : Type} `{!Peer E}.
Context (profile : PgCatalogProfile)
        (describe_type : Z -> Z -> Z -> NativeTypeInfo)
        (normalize_result_value : ScalarType -> bytes -> option bytes)
        (normalize_native_result_value : Z -> ScalarType -> bytes -> option bytes)
        (resolve_types : list Z -> Z -> M E (gmap Z NativeTypeInfo + OpError)).

(** [item] presents the decoded result [parsed]. *)
Record presents (parsed : ParsedQueryResult) (item : QueryResult) : Prop := {
  presents_names : map column_name (q_columns item) = map name (columns parsed);
  presents_cells : (q_rows item, cell_errors item) =
    normalize_rows normalize_result_value normalize_native_result_value (columns parsed) 0 (rows parsed) (q_columns item);
  presents_affected : q_affected_rows item = affected_rows parsed;
  presents_kind : q_statement_kind item = statement_kind parsed;
  presents_types : Forall (fun c => normalized_type c <> None) (q_columns item);
}.

Lemma presents_length parsed item : presents parsed item -> length (q_columns item) = length (columns parsed).
Proof. intros [H _ _ _ _]. apply (f_equal length) in H. by rewrite !length_map in H. Qed.

Lemma valid_names parsed item :
  valid_result_structure parsed = true -> presents parsed item ->
  Forall (fun c => ~ In 0 (column_name c) /\ utf8_code_point_count (column_name c) <> None) (q_columns item).
Proof.
  intros Hv Hp. apply andb_prop in Hv as [Hn _]. destruct Hp as [Hnames _ _ _ _]. revert Hnames Hn.
  generalize (columns parsed). induction (q_columns item) as [|c cs IH]; intros [|p ps]; cbn [map]; try done.
  intros [= Hc Hcs] Hn. cbn [forallb] in Hn. apply andb_prop in Hn as [Hp Hps]. constructor; [|by eapply IH].
  rewrite Hc. apply andb_prop in Hp as [H0 H1]. split.
  - intros Hin. apply negb_true_iff, not_true_iff_false in H0. apply H0, existsb_exists. exists 0. by rewrite Z.eqb_refl.
  - apply bool_decide_eq_true in H1. intros Hnone. rewrite Hnone in H1. by destruct H1.
Qed.

Lemma presents_well_formed parsed item :
  valid_result_structure parsed = true -> presents parsed item -> well_formed item.
Proof.
  intros Hv Hp. pose proof (valid_names _ _ Hv Hp) as Hnames. pose proof (presents_length _ _ Hp) as Hlen.
  destruct Hp as [_ Hc _ _ Ht].
  pose proof (normalize_rows_errors normalize_result_value normalize_native_result_value (columns parsed) 0 (rows parsed) (q_columns item)) as [He Hs].
  pose proof (normalize_rows_lookup normalize_result_value normalize_native_result_value (columns parsed) 0 (rows parsed) (q_columns item)) as Hl.
  destruct (normalize_rows _ _ _ _ _ _) as [rs errors]. injection Hc as Hrows Herrors. cbn in He, Hs, Hl.
  subst rs errors. split.
  - apply Forall_lookup. intros i row Hi. rewrite Hl in Hi. apply fmap_Some in Hi as (cells & Hcells & ->).
    rewrite normalize_row_length, Hlen. apply andb_prop in Hv as [_ Hw]. rewrite forallb_forall in Hw.
    apply Nat.eqb_eq, Hw, list_elem_of_In, list_elem_of_lookup. eauto.
  - done.
  - done.
  - intros row column cells c t v Hr Hcol Hty Htext Hv'. rewrite Hl in Hr. apply fmap_Some in Hr as (cells0 & _ & ->).
    by eapply normalize_row_text.
  - done.
  - eapply list.Forall_impl; [exact He|]. cbn. intros e (_ & cells & Hr & Hcell). rewrite Nat.sub_0_r in Hr. eauto.
Qed.

Lemma normalize_cells_presents parsed described e affected kind params shape rid :
  map column_name described = map name (columns parsed) ->
  Forall (fun c => normalized_type c <> None) described ->
  affected = affected_rows parsed -> kind = statement_kind parsed ->
  presents parsed (normalize_cells normalize_result_value normalize_native_result_value
    {| q_rows := rows parsed; q_columns := described; q_error := e; q_affected_rows := affected; additional_results := [];
       q_statement_kind := kind; normalized_parameter_types := params; cell_errors := []; described_result_shape := None;
       q_execution_shape := shape; result_id := rid |} parsed).
Proof.
  intros Hn Ht -> ->. unfold normalize_cells. cbn [q_rows q_columns].
  destruct (normalize_rows _ _ _ _ _ _) as [rs errors] eqn:Hr. split; cbn; try done; by rewrite Hr.
Qed.

Lemma normalize_item_presents kind parsed deadline s :
  wp (normalize_item describe_type normalize_result_value normalize_native_result_value resolve_types kind parsed deadline)
    (fun x _ => match x with inl item => presents parsed item | inr _ => True end) s.
Proof.
  unfold normalize_item. wps. apply wp_mono with (Q := fun _ _ => True); [done|]. intros [ps|e] s1 _; wps; [|done].
  apply normalize_cells_presents; try done.
  - rewrite map_map. done.
  - apply List.Forall_map, List.Forall_forall. by intros.
Qed.

Lemma normalize_items_presents kind items deadline s :
  wp (normalize_items describe_type normalize_result_value normalize_native_result_value resolve_types kind items deadline)
    (fun x _ => match x with inl l => Forall2 presents items l | inr _ => True end) s.
Proof.
  revert s. induction items as [|p items IH]; intros s; cbn [normalize_items]; [by wps|].
  wps. eapply wp_mono; [apply normalize_item_presents|]. cbn beta. intros [item|e] s1 Hi; wps; [|done].
  eapply wp_mono; [apply IH|]. cbn beta. intros [rest|e] s2 Hr; wps; [by constructor|done].
Qed.

(** A result that is published was decoded from the kept messages. *)
Definition decoded (msgs : list Message) (result : QueryResult) : Prop :=
  exists first more, extract_query_result profile msgs = Ok (first, more) /\
    forallb valid_result_structure (first :: more) = true /\
    presents first result /\ Forall2 presents more (additional_results result) /\ q_error result = None.

Lemma publish_result_presents kind r first more parsed parsed_more deadline s :
  presents parsed first -> Forall2 presents parsed_more more ->
  wp (publish_result kind r first more deadline)
    (fun x _ => match x with
     | inl result => presents parsed result /\ Forall2 presents parsed_more (additional_results result) /\ q_error result = None
     | inr _ => True end) s.
Proof.
  intros [P1 P2 P3 P4 P5] Hm. unfold publish_result. cbv zeta.
  set (result := {| q_rows := q_rows first |}).
  destruct (negb (valid_execution_structure result) || _) eqn:Hv; [by wps|].
  wps. apply wp_mono with (Q := fun _ _ => True); [done|]. intros late_ s1 _. unfold failed. wps.
  - apply wp_mono with (Q := fun _ _ => True); [done|]. intros. by wps.
  - split; [by split|]. split; [done|]. apply orb_false_iff in Hv as [Hv _]. apply negb_false_iff in Hv.
    unfold valid_execution_structure in Hv. apply andb_prop in Hv as [Hv _]. cbn in *. by destruct (q_error first).
Qed.

Lemma decode_result_decoded kind r count deadline s :
  wp (decode_result profile describe_type normalize_result_value normalize_native_result_value resolve_types kind r count deadline)
    (fun x _ => match x with inl result => decoded (messages r) result | inr _ => True end) s.
Proof.
  unfold decode_result. destruct (extract_query_result profile (messages r)) as [[first more]|] eqn:Hx; [|by unfold failed; wps].
  assert (forall s1, wp (checked_result describe_type normalize_result_value normalize_native_result_value resolve_types
            kind r first more count deadline)
            (fun x _ => match x with inl result => decoded (messages r) result | inr _ => True end) s1) as H.
  { intros s1. unfold checked_result. wp_step; [by unfold failed; wps|].
    destruct (negb (forallb valid_result_structure (first :: more))) eqn:Hv; [by wps|]. apply negb_false_iff in Hv.
    wp_step. { unfold decline_description, passed, failed. by wps. }
    wps. eapply wp_mono; [apply normalize_item_presents|]. cbn beta. intros [item|e] s2 Hi; wps; [|done].
    eapply wp_mono; [apply normalize_items_presents|]. cbn beta. intros [rest|e] s3 Hr; wps; [|done].
    eapply wp_mono; [by eapply publish_result_presents|]. cbn beta. intros [result|e] s4; [|done].
    intros (H1 & H2 & H3). exists first, more. auto. }
  wps; auto.
Qed.

Lemma decoded_well_formed msgs result : decoded msgs result -> Forall well_formed (result :: additional_results result).
Proof.
  intros (first & more & _ & Hv & Hp & Hm & _). apply andb_prop in Hv as [Hv Hvs].
  constructor; [by eapply presents_well_formed|]. clear - Hm Hvs. revert Hm Hvs.
  generalize (additional_results result). intros items. revert more. induction items as [|i items IH]; intros more Hm Hvs; [constructor|].
  inversion Hm as [|p ? ps ? Hp Hps]; subst. apply andb_prop in Hvs as [Hv Hvs]. constructor.
  - by eapply presents_well_formed.
  - by eapply IH.
Qed.
End Published.

(** ** Answers of the operations *)

Section Answers.
Context {E : Type} `{!Peer E, !StreamPeer E}.
Implicit Types (s : Session E) (deadline : Z).

(** What holds of every answer of a read holds of every answer of the exchange. *)
Lemma exchange_answers (P : QueryResult -> Prop) read encoded cancellable deadline s :
  (forall s1, wp read (fun x _ => match x with inl r => P r | inr _ => True end) s1) ->
  wp (exchange read encoded cancellable deadline)
    (fun x _ => match x with Some (inl r) => P r | _ => True end) s.
Proof.
  intros Hr. unfold exchange. apply wp_bind, wp_get. wp_step; [by wps|]. destruct encoded as [request|[]]; try by wps.
  apply wp_bind, wp_mono with (Q := fun _ _ => True); [done|]. intros allowed s1 _. wp_step; [by wps|].
  apply wp_bind, wp_mono with (Q := fun _ _ => True); [done|]. intros [[]|c] s2 _; [|by wps].
  apply wp_bind, wp_mono with (Q := fun _ _ => True); [done|]. intros _ s3 _.
  apply wp_bind. eapply wp_mono; [apply Hr|]. cbn beta. intros x s4 Hx. wps. by destruct x.
Qed.

(** A request that is answered was encoded, and was written before the read. *)
Lemma exchange_writes (P : bytes -> QueryResult -> Prop) read encoded cancellable deadline s :
  (forall s1, wp read (fun x s' => match x with
     | inl r => accepted (io s') = accepted (io s1) /\ exists in_, delivered (io s') = delivered (io s1) ++ in_ /\ P in_ r
     | inr _ => True end) s1) ->
  wp (exchange read encoded cancellable deadline) (fun x s' => match x with
     | Some (inl r) => exists out in_, encoded = Ok out /\ accepted (io s') = accepted (io s) ++ out /\
                  delivered (io s') = delivered (io s) ++ in_ /\ P in_ r
     | _ => True end) s.
Proof.
  intros Hr. unfold exchange. apply wp_bind, wp_get. wp_step; [by wps|]. destruct encoded as [request|[]]; try by wps.
  apply (bind_still _ _ _ s); [done|apply before_hook_still|]. intros allowed s1 (_ & _ & _ & Ha1 & Hd1).
  wp_step; [by wps|]. apply wp_bind. eapply wp_mono; [apply write_all_exact|]. cbn beta.
  intros [[]|c] s2 Hw; [|by wps]. destruct Hw as (_ & Ha2 & Hd2). rewrite app_nil_r in Hd2.
  apply wp_bind. eapply wp_mono; [apply sent_hook_still|]. cbn beta. intros _ s3 (_ & _ & _ & Ha3 & Hd3).
  apply wp_bind. eapply wp_mono; [apply Hr|]. cbn beta. intros [r|e] s4 Hx; wps; [|done].
  destruct Hx as (Ha4 & in_ & Hd4 & Hp). exists request, in_. repeat split; [congruence..|done].
Qed.

Definition annotated (c : Conn) (r : QueryResult) : QueryResult :=
  with_additional (map (annotate c) (additional_results r)) (annotate c r).

Lemma annotate_well_formed c r : well_formed r -> well_formed (annotate c r).
Proof. unfold annotate. destruct (q_error r); [|done]. by intros []; split. Qed.

Lemma annotated_well_formed c r :
  Forall well_formed (r :: additional_results r) -> Forall well_formed (annotated c r :: additional_results (annotated c r)).
Proof.
  intros [Hr Hs]%list.Forall_cons. constructor.
  - destruct (annotate_well_formed c r Hr). by split.
  - cbn. apply List.Forall_map. eapply list.Forall_impl; [exact Hs|]. intros. by apply annotate_well_formed.
Qed.

Lemma finish_answers op x s :
  wp (finish_operation op x) (fun reply s' => match reply with
    | Answered r _ => exists r0, x = inl r0 /\ r = annotated (conn s) r0 /\ s' = s
    | Refused _ => True end) s.
Proof.
  unfold finish_operation. destruct x as [r|e]; [wps; eauto|]. wp_step; [by wps|]. cbv zeta.
  apply wp_bind, wp_mono with (Q := fun _ _ => True); [done|]. intros. by wps.
Qed.

(** The operation's answer is its read's, annotated. *)
Lemma perform_answers (Q : QueryResult -> Session E -> Prop) op over impl s :
  (forall s1, wp impl (fun x s' => match x with Some (inl r) => s1 = s -> Q r s' | _ => True end) s1) ->
  wp (perform op over impl) (fun reply s' => match reply with
    | Answered r _ => exists r0, Q r0 s' /\ r = annotated (conn s') r0
    | Refused _ => True end) s.
Proof.
  intros Hi. unfold perform. apply wp_bind, wp_get. wp_step; [unfold reject_request_limit; by wps|].
  apply wp_bind. eapply wp_mono; [apply Hi|]. cbn beta. intros [x|] s1 Hx; [|unfold reject_request_limit; by wps].
  eapply wp_mono; [apply finish_answers|]. cbn beta. intros [r p|e] s2; [|done]. intros (r0 & -> & -> & ->). eauto.
Qed.

Lemma read_query_result_decoded profile describe_type normalize normalize_native resolve deadline kind expected count s :
  wp (read_query_result profile describe_type normalize normalize_native resolve deadline kind expected count)
    (fun x _ => match x with inl r => Forall well_formed (r :: additional_results r) | inr _ => True end) s.
Proof.
  unfold read_query_result. wps. apply wp_mono with (Q := fun _ _ => True); [done|]. intros [r|e] s1 _; wps; [|done].
  apply wp_mono with (Q := fun _ _ => True); [done|]. intros _ s2 _.
  eapply wp_mono; [apply decode_result_decoded|]. cbn beta. intros [result|e] s3; [|done]. apply decoded_well_formed.
Qed.

(** A simple query's answer: one response, decoded. *)
Definition one_response profile normalize normalize_native (in_ : bytes) (r : QueryResult) : Prop :=
  exists frames msgs, in_ = concat frames /\ response frames /\
    Forall2 (fun f m => parse_message f = Ok m) frames msgs /\ decoded profile normalize normalize_native msgs r.

Lemma simple_result_delivers profile describe_type normalize normalize_native deadline expected s1 :
  wp (simple_result profile describe_type normalize normalize_native deadline expected) (fun x s' => match x with
     | inl r => exists in_, delivered (io s') = delivered (io s1) ++ in_ /\ one_response profile normalize normalize_native in_ r
     | inr _ => True end) s1.
Proof.
  unfold simple_result, read_query_result. wps. eapply wp_mono; [apply read_frames_answered|]. cbn beta.
  intros [r|e] s2 Hx; wps; [|done]. destruct Hx as (frames & (Hf & _ & _ & _ & _ & Hd) & msgs & Hms & Hr). cbn in Hr.
  eapply wp_mono; [apply (unmoved_wp delivered), unmoved_drained, side_delivered|]. cbn beta. intros _ s3 Hd3.
  eapply wp_mono; [apply wp_and; [apply (unmoved_wp delivered), unmoved_decode, side_delivered|apply decode_result_decoded]|].
  cbn beta. intros [result|e] s4 [Hd4 Hdec]; [|done]. exists (concat frames). split; [congruence|].
  exists frames, msgs. by rewrite Hr in Hdec.
Qed.

Lemma simple_query_exact profile describe_type normalize normalize_native sql deadline expected s :
  wp (execute_query_impl profile describe_type normalize normalize_native sql deadline expected) (fun x s' => match x with
     | Some (inl r) => exists in_, accepted (io s') = accepted (io s) ++ frame (ch "Q") (cstring sql) /\
         delivered (io s') = delivered (io s) ++ in_ /\ one_response profile normalize normalize_native in_ r
     | _ => True end) s.
Proof.
  unfold execute_query_impl. apply wp_bind, wp_get.
  eapply wp_mono; [apply (exchange_writes (one_response profile normalize normalize_native))|].
  - intros s1. eapply wp_mono; [apply wp_and; [apply (unmoved_wp accepted), mute_simple_result|apply simple_result_delivers]|].
    cbn beta. intros [r|e] s' [Ha H]; [|done]. by split.
  - cbn beta. intros [[r|e]|] s'; try done. intros (out & in_ & He & Ha & Hd & Hp). exists in_. split; [|done].
    rewrite create_simple_query_spec in He. destruct (_ || _); [done|]. apply bind_Ok in He as (u & _ & He).
    by injection He as <-.
Qed.

Lemma presents_annotate normalize normalize_native parsed c r :
  presents normalize normalize_native parsed r -> presents normalize normalize_native parsed (annotate c r).
Proof. unfold annotate. destruct (q_error r); [|done]. by intros []; split. Qed.

Lemma presents_annotated normalize normalize_native parsed c r :
  presents normalize normalize_native parsed r -> presents normalize normalize_native parsed (annotated c r).
Proof. intros H%(presents_annotate _ _ _ c). destruct H. by split. Qed.

Section Claims.
Context (max_size : Z) (profile : PgCatalogProfile) (floats : FloatEnv)
        (base_describe_type describe_type : Z -> Z -> Z -> NativeTypeInfo)
        (normalize : ScalarType -> bytes -> option bytes) (normalize_native : Z -> ScalarType -> bytes -> option bytes).

Lemma query_well_formed op over read (encoded : Conn -> res bytes) cancellable deadline s :
  (forall s1, wp read (fun x _ => match x with inl r => Forall well_formed (r :: additional_results r) | inr _ => True end) s1) ->
  wp (perform op over (c ← get; exchange read (encoded c) cancellable deadline)) (fun reply _ => match reply with
    | Answered r _ => Forall well_formed (r :: additional_results r) | Refused _ => True end) s.
Proof.
  intros Hr. eapply wp_mono; [apply (perform_answers (fun r _ => Forall well_formed (r :: additional_results r)))|].
  - intros s1. apply wp_bind, wp_get. eapply wp_mono; [apply (exchange_answers _ _ _ _ _ _ Hr)|]. cbn beta.
    intros [[r|e]|] s'; auto.
  - cbn beta. intros [r p|e] s'; [|done]. intros (r0 & H & ->). by apply annotated_well_formed.
Qed.

Lemma execute_query_wf sql deadline s :
  wp (execute_query profile describe_type normalize normalize_native sql deadline) (fun reply _ => match reply with
    | Answered r _ => Forall well_formed (r :: additional_results r) | Refused _ => True end) s.
Proof. apply query_well_formed. intros. apply read_query_result_decoded. Qed.

Lemma execute_prepared_wf sql params deadline s :
  wp (execute_prepared max_size profile floats base_describe_type describe_type normalize normalize_native sql params deadline)
    (fun reply _ => match reply with
     | Answered r _ => Forall well_formed (r :: additional_results r) | Refused _ => True end) s.
Proof. apply query_well_formed. intros. apply read_query_result_decoded. Qed.

Lemma describe_statement_wf sql types deadline s :
  wp (describe_statement profile base_describe_type describe_type normalize normalize_native sql types deadline)
    (fun reply _ => match reply with
     | Answered r _ => Forall well_formed (r :: additional_results r) | Refused _ => True end) s.
Proof. apply (query_well_formed _ _ _ (fun c => _)). intros. apply read_query_result_decoded. Qed.

(** A cleanup that succeeds wrote its command and left the session idle; one
    that fails gave the session up. *)
Lemma cleanup_exact sql deadline s :
  wp (cleanup profile describe_type normalize normalize_native sql deadline) (fun reply s' => match reply with
    | Answered _ p => p = idle_reusable /\ exists in_ r, accepted (io s') = accepted (io s) ++ frame (ch "Q") (cstring sql) /\
        delivered (io s') = delivered (io s) ++ in_ /\ one_response profile normalize normalize_native in_ r
    | Refused _ => connected_ (conn s') = false /\ session_state_ (conn s') = Disconnected
    end) s.
Proof.
  assert (forall e s1, wp (retire_session OpResetSession e) (fun reply s' => match reply with
    | Answered _ p => p = idle_reusable /\ exists in_ r, accepted (io s') = accepted (io s) ++ frame (ch "Q") (cstring sql) /\
        delivered (io s') = delivered (io s) ++ in_ /\ one_response profile normalize normalize_native in_ r
    | Refused _ => connected_ (conn s') = false /\ session_state_ (conn s') = Disconnected
    end) s1) as Hretire.
  { intros e s1. unfold retire_session. wps. eapply wp_mono; [apply disconnect_dead|]. cbn beta.
    intros _ s2 (H1 & H2 & _). by wps. }
  unfold cleanup. apply wp_bind.
  eapply wp_mono; [apply (perform_answers (fun r s' => exists in_,
    accepted (io s') = accepted (io s) ++ frame (ch "Q") (cstring sql) /\ delivered (io s') = delivered (io s) ++ in_ /\
    one_response profile normalize normalize_native in_ r))|].
  { intros s1. eapply wp_mono; [apply simple_query_exact|]. cbn beta. intros [[r|e]|] s2; try done. by intros H ->. }
  cbn beta. intros [r p|e] s1; [|intros; apply Hretire]. intros (r0 & (in_ & Ha & Hd & Ho) & ->).
  wp_step; [apply Hretire|]. wps. split; [|eauto 10].
  match goal with H : unexpected_cleanup _ _ = false |- _ => unfold unexpected_cleanup in H end.
  repeat match goal with H : _ || _ = false |- _ => apply orb_false_iff in H as [H _] end.
  match goal with H : negb (bool_decide (p = _)) = false |- _ => by apply negb_false_iff, bool_decide_eq_true in H end.
Qed.
End Claims.

(** C5.  A result that an execution or a description publishes is well formed,
    with each of its additional results: every row has one cell per column,
    column names are UTF-8 without NUL, every column has a type, text cells are
    UTF-8, and the deferred cell errors are ordered, unique and at non-NULL
    cells that hold the empty placeholder. *)
Theorem published_results_well_formed (max_size : Z) (profile : PgCatalogProfile) (floats : FloatEnv)
    (base_describe_type describe_type : Z -> Z -> Z -> NativeTypeInfo)
    (normalize : ScalarType -> bytes -> option bytes) (normalize_native : Z -> ScalarType -> bytes -> option bytes)
    (sql : bytes) (params : list QueryParameter) (types : list QueryParameterType) (deadline : Z)
    (s s' : Session E) (r : QueryResult) (p : SessionSnapshot)
    (Hrun : execute_query profile describe_type normalize normalize_native sql deadline s = (s', Answered r p) \/
            execute_prepared max_size profile floats base_describe_type describe_type normalize normalize_native
              sql params deadline s = (s', Answered r p) \/
            describe_statement profile base_describe_type describe_type normalize normalize_native
              sql types deadline s = (s', Answered r p)) :
  Forall well_formed (r :: additional_results r).
Proof.
  destruct Hrun as [H|[H|H]].
  - pose proof (execute_query_wf profile describe_type normalize normalize_native sql deadline s) as W.
    unfold wp in W. by rewrite H in W.
  - pose proof (execute_prepared_wf max_size profile floats base_describe_type describe_type normalize normalize_native
      sql params deadline s) as W. unfold wp in W. by rewrite H in W.
  - pose proof (describe_statement_wf profile base_describe_type describe_type normalize normalize_native sql types deadline s) as W.
    unfold wp in W. by rewrite H in W.
Qed.

(** C4.  A simple query that is answered wrote exactly the Query message of its
    SQL and read exactly one response, and its answer is that response: the
    messages of the frames, decoded, with the names, the normalised cells, the
    affected rows and the statement kind of every result in order. *)
Theorem execute_query_exact (profile : PgCatalogProfile) (describe_type : Z -> Z -> Z -> NativeTypeInfo)
    (normalize : ScalarType -> bytes -> option bytes) (normalize_native : Z -> ScalarType -> bytes -> option bytes)
    (sql : bytes) (deadline : Z) (s s' : Session E) (r : QueryResult) (p : SessionSnapshot)
    (Hrun : execute_query profile describe_type normalize normalize_native sql deadline s = (s', Answered r p)) :
  exists frames msgs first more,
    accepted (io s') = accepted (io s) ++ frame (ch "Q") (cstring sql) /\
    delivered (io s') = delivered (io s) ++ concat frames /\ response frames /\
    Forall2 (fun f m => parse_message f = Ok m) frames msgs /\
    extract_query_result profile msgs = Ok (first, more) /\
    presents normalize normalize_native first r /\
    Forall2 (presents normalize normalize_native) more (additional_results r) /\ q_error r = None.
Proof.
  pose proof (perform_answers (fun r s' => exists in_,
    accepted (io s') = accepted (io s) ++ frame (ch "Q") (cstring sql) /\ delivered (io s') = delivered (io s) ++ in_ /\
    one_response profile normalize normalize_native in_ r) OpExecuteDirect (long_sql sql)
    (execute_query_impl profile describe_type normalize normalize_native sql deadline []) s) as H.
  unfold wp at 2 in H. unfold execute_query in Hrun. rewrite Hrun in H. destruct H as (r0 & (in_ & Ha & Hd & Ho) & ->).
  { intros s1. eapply wp_mono; [apply simple_query_exact|]. cbn beta. intros [[r0|e]|] s2; try done. by intros H ->. }
  destruct Ho as (frames & msgs & -> & Hr & Hms & first & more & Hx & _ & Hp & Hm & He).
  exists frames, msgs, first, more. do 5 (split; [done|]). split; [by apply presents_annotated|]. split.
  - cbn. apply list.Forall2_fmap_r. eapply list.Forall2_impl; [exact Hm|]. intros x y. apply presents_annotate.
  - cbn. unfold annotate. by rewrite He.
Qed.

(** The commands of a reset, by the state of the session. *)
Definition reset_commands (st : SessionState) : list bytes :=
  match st with
  | InTransaction | FailedTransaction => [str "ROLLBACK"; str "DISCARD ALL"]
  | _ => [str "DISCARD ALL"]
  end.

(** [commands] were sent, each answered by one response. *)
Definition ran (commands : list bytes) s s' : Prop :=
  accepted (io s') = accepted (io s) ++ concat (map (fun sql => frame (ch "Q") (cstring sql)) commands) /\
  exists responses, length responses = length commands /\ Forall response responses /\
    delivered (io s') = delivered (io s) ++ concat (map (@concat Z) responses).

Lemma reset_exact profile describe_type normalize normalize_native deadline s :
  wp (reset_session profile describe_type normalize normalize_native true deadline) (fun reply s' => match reply with
    | Answered _ p => p = idle_reusable /\ ran (reset_commands (session_state_ (conn s))) s s'
    | Refused _ => connected_ (conn s') = false /\ session_state_ (conn s') = Disconnected
    end) s.
Proof.
  unfold reset_session. apply wp_bind, wp_get. cbn [negb].
  assert (forall e, wp (retire_session OpResetSession e) (fun reply s' => match reply with
    | Answered _ p => p = idle_reusable /\ ran (reset_commands (session_state_ (conn s))) s s'
    | Refused _ => connected_ (conn s') = false /\ session_state_ (conn s') = Disconnected
    end) s) as Hretire.
  { intros e. unfold retire_session. wps. eapply wp_mono; [apply disconnect_dead|]. cbn beta.
    intros _ s2 (H1 & H2 & _). by wps. }
  destruct (session_state_ (conn s)); cbn [reset_commands]; try apply Hretire.
  1: { eapply wp_mono; [apply cleanup_exact|]. cbn beta. intros [[] p|e] s1; [|done].
       intros (-> & in_ & r & Ha & Hd & frames & msgs & -> & Hf & _). split; [done|]. unfold ran. cbn [map concat]. rewrite app_nil_r.
       split; [done|]. exists [frames]. cbn [map concat]. rewrite app_nil_r. by repeat constructor. }
  all: apply wp_bind; (eapply wp_mono; [apply cleanup_exact|]); cbn beta; intros [[] p|e] s1; [|intros; by wps];
    intros (-> & in_ & r & Ha & Hd & frames & msgs & -> & Hf & _);
    (eapply wp_mono; [apply cleanup_exact|]); cbn beta; intros [[] p|e] s2; [|done];
    intros (-> & in2 & r2 & Ha2 & Hd2 & frames2 & msgs2 & -> & Hf2 & _); split; [done|]; unfold ran; cbn [map concat];
    rewrite app_nil_r, Ha2, Ha, <- app_assoc; (split; [done|]); exists [frames; frames2]; cbn [map concat];
    rewrite app_nil_r, Hd2, Hd, <- app_assoc; by repeat constructor.
Qed.

End Answers.

(** ** Witnesses *)

Definition sample_result : Session Chunks * Reply QueryResult := Eval vm_compute in
  execute_query PostgreSQL text_type as_text native_as_text (str "SELECT c FROM t") 10
    (sample_session idle_conn [sample_response]).
Definition result_of (r : Reply QueryResult) : QueryResult :=
  match r with Answered r _ => r | Refused _ => empty_query_result end.

Lemma published_results_well_formed_witness :
  q_rows (result_of sample_result.2) = [[Some (str "x")]] /\
  Forall well_formed (result_of sample_result.2 :: additional_results (result_of sample_result.2)).
Proof.
  split; [done|].
  refine (published_results_well_formed 1000 PostgreSQL no_floats text_type text_type as_text native_as_text
    (str "SELECT c FROM t") [] [] 10 (sample_session idle_conn [sample_response]) sample_result.1 _ idle_reusable _).
  left. vm_compute. reflexivity.
Defined.

Lemma execute_query_exact_witness :
  exists frames msgs first more,
    given (io sample_result.1) = frame (ch "Q") (cstring (str "SELECT c FROM t")) /\
    taken (io sample_result.1) = concat frames /\ response frames /\
    Forall2 (fun f m => parse_message f = Ok m) frames msgs /\
    extract_query_result PostgreSQL msgs = Ok (first, more) /\
    presents as_text native_as_text first (result_of sample_result.2) /\
    Forall2 (presents as_text native_as_text) more (additional_results (result_of sample_result.2)) /\
    q_error (result_of sample_result.2) = None.
Proof.
  refine (execute_query_exact PostgreSQL text_type as_text native_as_text (str "SELECT c FROM t") 10
    (sample_session idle_conn [sample_response]) sample_result.1 (result_of sample_result.2) idle_reusable _).
  vm_compute. reflexivity.
Defined.

Definition open_transaction : Session Chunks :=
  sample_session (set_session_state InTransaction idle_conn)
    [frame (ch "C") (cstring (str "ROLLBACK")) ++ frame (ch "Z") (str "I");
     frame (ch "C") (cstring (str "DISCARD ALL")) ++ frame (ch "Z") (str "I")].
Definition after_reset : Session Chunks * Reply unit := Eval vm_compute in
  reset_session PostgreSQL text_type as_text native_as_text true 10 open_transaction.

