(* ===== verification/ColumnOrigins.v ===== *)
(** * Column origins

    [resolve_column_origins] of [generic_database_connection.cpp] and its
    PostgreSQL implementation [resolve_column_origins_impl]: the table and
    column each column of an earlier result came from, looked up in the catalog
    from the numbers kept when the result was read ([Response.v]'s
    provenance). *)

From stdpp Require Import sorting.
From S2P Require Import Prelude PgWire PgIeee PgRequest PgResult Scram PgAuth Backend Connection Response PgSession SessionSync.

Record ResultColumnOrigin := {
  catalog_name : bytes; schema_name : bytes; table_name : bytes; base_table_name : bytes; base_column_name : bytes }.
#[export] Instance ResultColumnOrigin_eq_dec : EqDecision ResultColumnOrigin. Proof. solve_decision. Defined.
Definition no_origin : ResultColumnOrigin :=
  {| catalog_name := []; schema_name := []; table_name := []; base_table_name := []; base_column_name := [] |}.

(** The distinct tables, sorted: [std::sort] and [std::unique]. *)
Fixpoint unique_adjacent (ids : list Z) : list Z :=
  match ids with
  | a :: (b :: _) as rest => if a =? b then unique_adjacent rest else a :: unique_adjacent rest
  | _ => ids
  end.
Definition distinct_table_oids (provenance : list ParsedColumnProvenance) : list Z :=
  unique_adjacent (merge_sort Z.le (List.filter (fun oid => negb (oid =? 0)) (pv_table_oid <$> provenance))).

Definition origin_query (ids : list Z) : bytes :=
  str "SELECT c.oid, current_database()::text, n.nspname::text, c.relname::text, a.attnum, a.attname::text FROM pg_catalog.pg_class c JOIN pg_catalog.pg_namespace n ON n.oid = c.relnamespace LEFT JOIN pg_catalog.pg_attribute a ON a.attrelid = c.oid AND a.attnum > 0 AND NOT a.attisdropped WHERE c.oid IN (" ++
  comma_separated ids ++ str ") ORDER BY c.oid, a.attnum".

(** [std::map]s: an insertion keeps what is there. *)
Record OriginMaps := {
  table_map : gmap Z ResultColumnOrigin; table_col_map : gmap (Z * Z) ResultColumnOrigin }.
Definition emplace {K} `{Countable K} {A} (k : K) (a : A) (m : gmap K A) : gmap K A :=
  match m !! k with Some _ => m | None => <[k := a]> m end.

Definition add_row (maps : OriginMaps) (row : list (option bytes)) : OriginMaps :=
  match row with
  | Some oid :: Some catalog :: Some schema :: Some table :: rest =>
      match parse_unsigned oid with
      | None => maps
      | Some oid =>
          let origin column := {| catalog_name := catalog; schema_name := schema; table_name := table;
                                  base_table_name := table; base_column_name := column |} in
          {| table_map := emplace oid (origin []) (table_map maps);
             table_col_map :=
               match rest with
               | Some attnum :: Some column :: _ =>
                   match parse_signed (2 ^ 15 - 1) attnum with
                   | Some attnum => emplace (oid, attnum) (origin column) (table_col_map maps)
                   | None => table_col_map maps
                   end
               | _ => table_col_map maps
               end |}
      end
  | _ => maps
  end.

Definition origin_maps (rs : list (list (option bytes))) : OriginMaps :=
  foldl add_row {| table_map := ∅; table_col_map := ∅ |} rs.

Definition origin_of (maps : OriginMaps) (item : ParsedColumnProvenance) : ResultColumnOrigin :=
  if pv_table_oid item =? 0 then no_origin
  else
    match table_col_map maps !! (pv_table_oid item, pv_attribute_number item) with
    | Some o => o
    | None => default no_origin (table_map maps !! pv_table_oid item)
    end.

Section Origins.
Context {E : Type} `{!Peer E}.
Context (profile : PgCatalogProfile)
        (describe_type : Z -> Z -> Z -> NativeTypeInfo)
        (normalize_result_value : ScalarType -> bytes -> option bytes)
        (normalize_native_result_value : Z -> ScalarType -> bytes -> option bytes).
Implicit Types deadline : Z.
Abbreviation execute_query := (execute_query profile describe_type normalize_result_value normalize_native_result_value).

(** The snapshot is the one of the state before the catalog query. *)
Definition resolve_column_origins_impl (provenance : list ParsedColumnProvenance) deadline
    : M E (Reply (list ResultColumnOrigin)) :=
  c ← get;
  let snapshot := passive_snapshot (session_state_ c) in
  let unknown := Answered (replicate (length provenance) no_origin) snapshot in
  let tables := distinct_table_oids provenance in
  if beq tables [] then mret unknown
  else
    resolving unknown
      (catalog ← execute_query (origin_query tables) deadline;
       match catalog with
       | Refused e => mret (Refused (with_operation OpDescribe e))
       | Answered catalog _ => mret (Answered (map (origin_of (origin_maps (q_rows catalog))) provenance) snapshot)
       end).

Definition resolve_column_origins (result_id : Z) deadline : M E (Reply (list ResultColumnOrigin)) :=
  c ← get;
  match list_find (fun kp => kp.1 = result_id) (result_provenance_ c) with
  | None => mret (Answered [] (passive_snapshot (session_state_ c)))
  | Some (_, (_, provenance)) => resolve_column_origins_impl provenance deadline
  end.
End Origins.

(** ** The origin of a column is the first row that names it *)

(** What a row says of a column and of a table. *)
Definition row_table (oid : Z) (row : list (option bytes)) : option ResultColumnOrigin :=
  match row with
  | Some o :: Some catalog :: Some schema :: Some table :: _ =>
      if bool_decide (parse_unsigned o = Some oid)
      then Some {| catalog_name := catalog; schema_name := schema; table_name := table; base_table_name := table;
                   base_column_name := [] |}
      else None
  | _ => None
  end.
Definition row_column (oid attnum : Z) (row : list (option bytes)) : option ResultColumnOrigin :=
  match row with
  | Some o :: Some catalog :: Some schema :: Some table :: Some a :: Some column :: _ =>
      if bool_decide (parse_unsigned o = Some oid /\ parse_signed (2 ^ 15 - 1) a = Some attnum)
      then Some {| catalog_name := catalog; schema_name := schema; table_name := table; base_table_name := table;
                   base_column_name := column |}
      else None
  | _ => None
  end.

(** The first answer. *)
Definition first_of {A B} (f : A -> option B) (l : list A) : option B := head (omap f l).

Definition first_some {A} (x y : option A) : option A := match x with Some a => Some a | None => y end.

Lemma emplace_lookup {K} `{Countable K} {A} (k j : K) (a : A) (m : gmap K A) :
  emplace k a m !! j = first_some (m !! j) (if bool_decide (k = j) then Some a else None).
Proof.
  unfold emplace, first_some. destruct (m !! k) eqn:Hk; case_bool_decide; subst; [by rewrite Hk|by destruct (m !! j)| |].
  - by rewrite lookup_insert_eq, Hk.
  - rewrite lookup_insert_ne by done. by destruct (m !! j).
Qed.

Lemma add_row_table oid maps row :
  table_map (add_row maps row) !! oid = first_some (table_map maps !! oid) (row_table oid row).
Proof.
  assert (forall x : option ResultColumnOrigin, x = first_some x None) as Hid by by intros [].
  unfold add_row, row_table. repeat case_match; cbn [table_map]; rewrite ?emplace_lookup;
    repeat case_bool_decide; subst; try congruence; try apply Hid; done.
Qed.

Lemma add_row_column oid attnum maps row :
  table_col_map (add_row maps row) !! (oid, attnum) =
  first_some (table_col_map maps !! (oid, attnum)) (row_column oid attnum row).
Proof.
  assert (forall x : option ResultColumnOrigin, x = first_some x None) as Hid by by intros [].
  unfold add_row, row_column. repeat case_match; cbn [table_col_map]; rewrite ?emplace_lookup;
    repeat case_bool_decide; destruct_and?; simplify_eq; try apply Hid; try done; naive_solver.
Qed.

Lemma fold_first {M A B} (step : M -> A -> M) (get : M -> option B) (f : A -> option B) l m :
  (forall m a, get (step m a) = first_some (get m) (f a)) ->
  get (foldl step m l) = first_some (get m) (first_of f l).
Proof.
  intros H. revert m. induction l as [|a l IH]; intros m; cbn; [by destruct (get m)|].
  rewrite IH, H. unfold first_of. cbn. destruct (get m), (f a); done.
Qed.

(** A column of no table has no origin; else its origin is the first row that
    names the column, else the first that names its table. *)
Lemma origin_of_first rs item :
  origin_of (origin_maps rs) item =
  if pv_table_oid item =? 0 then no_origin
  else default no_origin (first_some (first_of (row_column (pv_table_oid item) (pv_attribute_number item)) rs)
                                     (first_of (row_table (pv_table_oid item)) rs)).
Proof.
  unfold origin_of, origin_maps. destruct (_ =? 0); [done|].
  rewrite (fold_first add_row (fun m => table_col_map m !! _) (row_column (pv_table_oid item) (pv_attribute_number item)))
    by (intros; apply add_row_column).
  rewrite (fold_first add_row (fun m => table_map m !! pv_table_oid item) (row_table (pv_table_oid item)))
    by (intros; apply add_row_table).
  cbn. rewrite !lookup_empty. cbn. by destruct (first_of (row_column _ _) rs).
Qed.

(** ** The session during the lookup *)

Section Lookup.
Context {E : Type} `{!Peer E, !StreamPeer E}.
Context (profile : PgCatalogProfile)
        (describe_type : Z -> Z -> Z -> NativeTypeInfo)
        (normalize_result_value : ScalarType -> bytes -> option bytes)
        (normalize_native_result_value : Z -> ScalarType -> bytes -> option bytes).
Implicit Types deadline : Z.

(** The lookup keeps the session synchronised, and a failed one reports it. *)
Definition looked_up (s : Session E) (r : Reply (list ResultColumnOrigin)) (s' : Session E) : Prop :=
  evolves s s' /\ match r with Answered _ _ => True | Refused _ => coherent (conn s') -> reports r (conn s') end.

Lemma resolve_column_origins_sound result_id deadline s :
  wp (resolve_column_origins profile describe_type normalize_result_value normalize_native_result_value result_id deadline)
    (looked_up s) s.
Proof.
  unfold resolve_column_origins, resolve_column_origins_impl. apply wp_bind, wp_get.
  destruct (list_find _ _) as [[i [id provenance]]|]; [|by wps; split]. apply wp_bind, wp_get. cbv zeta.
  wp_step; [by wps; split|].
  set (body := (catalog ← _; _)). set (unknown := Answered _ _).
  assert (forall s1, wp body (looked_up s1) s1) as Hb.
  { intros s1. apply wp_bind. eapply wp_mono; [apply execute_query_sound|]. cbn beta.
    intros [catalog p|e] s2 [He Hr]; wps; by split. }
  unfold resolving. apply wp_bind, wp_get. wp_step; [|apply Hb].
  apply (bind_still _ _ _ s); [done|apply still_call; [apply enter_quiet|done]|]. intros entered s1 Hs1%still_evolves.
  wp_step; [by wps; split|]. apply wp_bind. eapply wp_mono; [apply Hb|]. cbn beta. intros r s2 [He Hr].
  apply wp_bind. apply still_effect; [apply leave_quiet|]. intros s3 Hs3. wps. split.
  - etrans; [done|]. etrans; [done|]. by apply still_evolves.
  - destruct r as [|e]; [done|]. destruct Hs3 as (H1 & H2 & _). unfold reports, coherent, snapshot_of in *. by rewrite H1, H2.
Qed.
End Lookup.

(** The answer of a successful lookup carries the state from before its query:
    here the server ends the catalog query inside a transaction, and the answer
    says that the session is idle and reusable. *)
Definition origin_session : Session Chunks :=
  sample_session (set_provenance [(7, [{| pv_table_oid := 42; pv_attribute_number := 1 |}])] idle_conn)
    [frame (ch "C") (cstring (str "SELECT 0")) ++ frame (ch "Z") (str "T")].

Example origins_report_stale_state :
  let run := resolve_column_origins PostgreSQL text_type as_text native_as_text 7 10 origin_session in
  run.2 = Answered [no_origin] idle_reusable /\ session_state_ (conn run.1) = InTransaction /\
  connected_ (conn run.1) = true.
Proof. vm_compute. done. Qed.
