(* ===== verification/PgConnect.v ===== *)
(** * Connecting

    [GenericDatabaseConnection::connect_until] and [connect_impl]: the checks of
    the settings, the TLS negotiation, the startup message and the login loop of
    PgAuth.v run on the transport, and [PgDatabaseConnection::connect_until]
    with the checks and the read-only setup it adds.

    [Connector] is what the code asks of the transport to open it; the
    transport exists from the start.  [max_size] is [std::string::max_size()]
    and [random] the bytes of the nonce.  An allocation always succeeds. *)

From S2P Require Import Prelude Utf8 PgWire PgMarkers PgIeee PgRequest PgResult Scram PgAuth Backend Connection Response PgSession.

Class Connector (E : Type) := {
  start_tls : E -> bool;
  tls_configurable : E -> bool;
  set_ca_locations : bytes -> bytes -> E -> E;
  connect_plain : bytes -> Z -> Z -> E -> E * Result unit;
  connect_direct : bytes -> Z -> Z -> E -> E * Result unit;
  upgrade_to_tls : bytes -> Z -> E -> E * Result unit;
  identity_verified : E -> E * bool;
}.

Definition connect_error_code (c : DbErrorCode) : DbErrorCode :=
  match c with Timeout => Timeout | InvalidParameter => InvalidParameter | _ => ConnectionFailed end.

(** [settings.application_name.value_or("odbcpp")] and the other startup
    parameters, in the order of a [std::map]. *)
Definition startup_params (s : ConnectionSettings) : list (bytes * bytes) :=
  [(str "DateStyle", str "ISO, YMD"); (str "application_name", default (str "odbcpp") (application_name s));
   (str "client_encoding", str "UTF8")] ++
  match cs_native_idp s with
  | None => []
  | Some idp =>
      (if beq (identity_namespace idp) [] then [] else [(str "identity_namespace", identity_namespace idp)]) ++
      [(str "idp_type", idp_type idp)] ++
      (if beq (plugin_name idp) [] then [] else [(str "plugin_name", plugin_name idp)]) ++
      [(str "provider_name", provider_name idp); (str "token_type", token_type idp);
       (str "web_identity_token", idp_token idp)]
  end.

Definition has_nul_byte (v : bytes) : bool := existsb (Z.eqb 0) v.

(** The checks before any I/O, and the startup message. *)
Definition check_settings (profile : PgCatalogProfile) (s : ConnectionSettings) : Result bytes :=
  let input := input_limits s in
  if cs_port s =? 0 then Error InvalidParameter
  else if negb (valid_character_metadata_policy (character_metadata s)) then Error InvalidParameter
  else if negb (valid_resource_limits s) then Error InvalidParameter
  else if existsb (fun field => max_connection_field_bytes input <? size field)
            [cs_host s; cs_user s; cs_password s; cs_database s; cs_ssl_ca_file s; cs_ssl_ca_dir s]
  then Error ResourceLimit
  else if match application_name s with Some n => max_connection_field_bytes input <? size n | None => false end
  then Error ResourceLimit
  else if match application_name s with Some n => has_nul_byte n | None => false end then Error InvalidParameter
  else if has_nul_byte (cs_password s) then Error InvalidParameter
  else if match cs_native_idp s with
          | Some idp => negb (cs_use_ssl s) || beq (idp_token idp) [] || negb (beq (cs_password s) [])
          | None => false
          end then Error InvalidParameter
  else if negb (bool_decide ((select_tls_trust_source (cs_use_ssl s) None (cs_ssl_ca_file s) (cs_ssl_ca_dir s)).2 = NoConflict))
  then Error InvalidParameter
  else
    match create_startup_message profile (cs_user s) (cs_database s) (startup_params s) (max_startup_wire_bytes input) with
    | Ok startup => Value startup
    | Throw RequestWireLimitExceeded => Error ResourceLimit
    | Throw _ => Error InvalidParameter
    end.

Section Connect.
Context {E : Type} `{!Peer E, !Connector E}.
Context (sha256 : bytes -> bytes) (hmac_sha256 : bytes -> bytes -> bytes)
        (pbkdf2_hmac_sha256 : bytes -> bytes -> Z -> bytes) (md5 : bytes -> bytes) (random : bytes).
Implicit Types deadline : Z.

(** ** The login on the transport *)

(** What the login reads of the connection; [write] is the outcome of writing a response. *)
Definition login_settings (c : Conn) (write : bytes -> option DbErrorCode) : Settings :=
  {| user := cs_user (settings_ c); password := cs_password (settings_ c);
     native_idp := idp_token <$> cs_native_idp (settings_ c);
     peer_identity_verified := peer_identity_verified_ c;
     PgAuth.max_auth_wire_bytes := max_auth_wire_bytes (input_limits (settings_ c));
     PgAuth.max_messages := max_messages (startup_response_limits (settings_ c));
     write_result := write; PgAuth.random := random |}.

Definition login_of (o : Outcome) : Login :=
  match o with Ready st _ => st | Failed st _ => st | Waiting st => st end.

Definition error_of {A} (r : Result A) : option DbErrorCode := match r with Value _ => None | Error c => Some c end.

(** The response that [st'] sent and [st] had not. *)
Definition new_response (st st' : Login) : option bytes :=
  if bool_decide (sent st' = sent st) then None else list.last (sent st').

(** One message of the login; the response, if there is one, is written. *)
Definition login_step deadline (st : Login) (msg : Message) : M E (Login + Outcome) := fun s =>
  let write response := write_all true deadline response s in
  let answer := login_message sha256 hmac_sha256 pbkdf2_hmac_sha256 md5
                  (login_settings (conn s) (fun response => error_of (write response).2)) st msg in
  match new_response st (match answer with inl st' => st' | inr o => login_of o end) with
  | None => (s, answer)
  | Some response => ((write response).1, answer)
  end.

(** [authenticated_backend_key] refuses a second key. *)
Definition second_key (st : Login) (msg : Message) : bool :=
  (tag msg =? ch "K") && authenticated st &&
  (negb (size (payload msg) =? 8) || bool_decide (is_Some (backend_key st))).

Fixpoint authentication_loop deadline (n : nat) (wire : Z) (st : Login) : M E Outcome :=
  match n with
  | O => mret (fail st ResourceLimit)
  | S n =>
      c ← get;
      frame ← read_message true deadline (size_sub (max_wire_bytes (startup_response_limits (settings_ c))) wire);
      match frame with
      | Error c => mret (fail st c)
      | Value data =>
          match parse_message data with
          | Throw e => mret (caught st e)
          | Ok msg =>
              if second_key st msg then mret (fail st ProtocolError)
              else
                r ← login_step deadline st msg;
                match r with
                | inl st => authentication_loop deadline n (wire + size data) st
                | inr o => mret o
                end
          end
      end
  end.

(** The login changes the parser, the parameters and the key of the connection. *)
Definition store_login (st : Login) (c : Conn) : Conn :=
  set_key (backend_key st) (set_params (server_params st) (set_connection_auth (auth st) c)).

Definition login_error (f : Failure) : OpError :=
  let e := with_operation (operation f) (op_error (code f)) in
  match failure_state f with Some native => with_native native e | None => e end.

Definition perform_authentication deadline : M E (option OpError) :=
  c ← get;
  o ← authentication_loop deadline (Z.to_nat (max_messages (startup_response_limits (settings_ c)))) 0
        {| auth := auth_ c; authenticated := false; sent := []; server_params := server_params_ c;
           backend_key := cancellation_key_ c |};
  match o with
  | Ready st state => _ ← modify (fun c => set_session_state state (store_login st c)); mret None
  | Failed st f => _ ← modify (store_login st); mret (Some (login_error f))
  | Waiting st => _ ← modify (store_login st); mret (Some (op_error OtherError))
  end.

(** ** Opening the transport *)

Definition expired deadline : M E (option OpError) :=
  e ← passed deadline; mret (if e : bool then Some (op_error Timeout) else None).

(** Go on unless there is an error. *)
Definition unless (m : M E (option OpError)) (k : M E (option OpError)) : M E (option OpError) :=
  e ← m; match e with Some e => mret (Some e) | None => k end.

Definition opened (r : Result unit) : option OpError :=
  match r with Value _ => None | Error c => Some (op_error (connect_error_code c)) end.
Definition done_or (r : Result unit) : option OpError :=
  match r with Value _ => None | Error c => Some (op_error c) end.

(** The one byte of the server's answer to the SSL request. *)
Definition read_ssl_answer deadline : M E (option OpError) :=
  answer ← call (recv 1 deadline);
  mret (match answer with
        | Error c => Some (op_error c)
        | Value r =>
            if 1 <? Z.of_N (r_n r) then Some (op_error ProtocolError)
            else if r_eof r then Some (op_error NetworkError)
            else if (r_n r =? 0)%N then Some (op_error NetworkError)
            else
              let byte := at_pos (take 1 (r_data r)) 0 in
              if byte =? ch "N" then Some (op_error TLSError)
              else if negb (byte =? ch "S") then Some (op_error ProtocolError)
              else None
        end).

(** The upgrade, and the identity of the peer. *)
Definition verify_peer (s : ConnectionSettings) deadline : M E (option OpError) :=
  unless (r ← call (upgrade_to_tls (cs_host s) deadline); mret (done_or r))
  (verified ← call identity_verified;
   _ ← modify (set_peer_verified verified);
   mret (if bool_decide (is_Some (cs_native_idp s)) && negb verified then Some (op_error TLSError) else None)).

(** From the plain connection to the verified one. *)
Definition negotiate_tls (s : ConnectionSettings) deadline : M E (option OpError) :=
  unless (expired deadline)
  (unless (r ← call (connect_plain (cs_host s) (cs_port s) deadline); mret (opened r))
  (unless (r ← write_all true deadline create_ssl_request; mret (done_or r))
  (unless (expired deadline)
  (unless (read_ssl_answer deadline)
  (unless (expired deadline)
  (verify_peer s deadline)))))).

Definition open_tls (s : ConnectionSettings) deadline : M E (option OpError) :=
  available ← call (fun e => (e, start_tls e));
  if negb available then mret (Some (op_error InvalidParameter))
  else
    configurable ← call (fun e => (e, tls_configurable e));
    if negb configurable && (negb (beq (cs_ssl_ca_file s) []) || negb (beq (cs_ssl_ca_dir s) [])) then
      mret (Some (op_error InvalidParameter))
    else
      _ ← (if configurable : bool then effect (set_ca_locations (cs_ssl_ca_file s) (cs_ssl_ca_dir s)) else mret tt);
      negotiate_tls s deadline.

Definition open_direct (s : ConnectionSettings) deadline : M E (option OpError) :=
  unless (expired deadline)
  (r ← call (connect_direct (cs_host s) (cs_port s) deadline); mret (opened r)).

(** From the opened transport to the connected session. *)
Definition start_session (startup : bytes) deadline : M E (option OpError) :=
  unless (r ← write_all true deadline startup; mret (done_or r))
  (unless (perform_authentication deadline)
  (unless (expired deadline)
  (_ ← modify (set_connected true); mret None))).

Definition connect_impl (profile : PgCatalogProfile) (s : ConnectionSettings) deadline : M E (option OpError) :=
  match check_settings profile s with
  | Error c => mret (Some (op_error c))
  | Value startup =>
      _ ← modify (fun c => set_peer_verified false (set_params ∅ (set_settings s (set_closed false
                   (clear_authentication (set_key None c))))));
      e ← unless (if cs_use_ssl s then open_tls s deadline else open_direct s deadline) (start_session startup deadline);
      match e with
      | Some e => _ ← disconnect; mret (Some e)
      | None => mret None
      end
  end.

Definition generic_connect_until (profile : PgCatalogProfile) (s : ConnectionSettings) deadline : M E (Reply unit) :=
  e ← connect_impl profile s deadline;
  c ← get;
  let reply :=
    match e with
    | Some e =>
        let e := if bool_decide (oe_operation e = OpUnknown) then with_operation OpConnect e else e in
        Refused (with_session (snapshot_of c) e)
    | None => Answered tt (snapshot_of c)
    end in
  _ ← modify clear_authentication;
  mret reply.

(** ** The PostgreSQL and Redshift connection *)

Section Pg.
Context (profile : PgCatalogProfile)
        (describe_type : Z -> Z -> Z -> NativeTypeInfo)
        (normalize_result_value : ScalarType -> bytes -> option bytes)
        (normalize_native_result_value : Z -> ScalarType -> bytes -> option bytes).
Abbreviation execute_query := (execute_query profile describe_type normalize_result_value normalize_native_result_value).

(** The settings this provider refuses. *)
Definition refuse_settings (s : ConnectionSettings) (connected : bool) : option LocalFailure :=
  let redshift := bool_decide (profile = Redshift) in
  if bool_decide (catalog_database_scope s = VisibleDatabases) && negb redshift then Some Unsupported
  else if (2 ^ 31 - 1 <? varchar_threshold (character_metadata s)) ||
          (redshift && (65535 <? long_varchar_size (character_metadata s))) then Some InvalidInput
  else if boolean_as_character (character_metadata s) && negb redshift then Some Unsupported
  else if negb (detailed_table_types s) && negb redshift then Some Unsupported
  else if read_only s && negb redshift then Some Unsupported
  else if redshift && connected then Some InvalidInput
  else if bool_decide (is_Some (redshift_catalog_mode s)) && negb redshift then Some InvalidInput
  else None.

Definition unexpected_read_only (r : QueryResult) (p : SessionSnapshot) : bool :=
  negb (bool_decide (q_execution_shape r = Some NoResultSet)) || negb (size (q_columns r) =? 0) ||
  negb (size (q_rows r) =? 0) || negb (size (cell_errors r) =? 0) || negb (size (additional_results r) =? 0) ||
  negb (bool_decide (p = idle_reusable)).

(** A session that could not be restricted is not published. *)
Definition setup_read_only deadline : M E (Reply unit) :=
  setup ← execute_query (str "SET READONLY=1") deadline;
  match setup with
  | Refused e => retire_session OpConnect e
  | Answered r p =>
      match q_error r with
      | Some e => retire_session OpConnect {| oe := e; oe_class := classify_backend_error (error_code e);
                                               oe_operation := OpUnknown; oe_native := None |}
      | None =>
          if unexpected_read_only r p then retire_session OpConnect (op_error ProtocolError)
          else mret (Answered tt p)
      end
  end.

Definition connect_until (s : ConnectionSettings) deadline : M E (Reply unit) :=
  c ← get;
  match refuse_settings s (connected_ c) with
  | Some kind => mret (Refused (local_error kind OpConnect (session_state_ c)))
  | None =>
      result ← generic_connect_until profile s deadline;
      result ← match result with
               | Answered _ _ => if read_only s then setup_read_only deadline else mret result
               | Refused _ => mret result
               end;
      match result with
      | Answered _ _ =>
          _ ← modify (set_catalog_mode (default Show_ (redshift_catalog_mode s))); mret result
      | Refused _ => mret result
      end
  end.
End Pg.
End Connect.
