(* ===== verification/ConnectSafety.v ===== *)
(** * What connecting exposes and leaves behind

    Two properties of PgConnect.v.  Whatever the outcome of a connection
    attempt, the session has a state exactly when it is connected, it reports
    it, and no credential is kept.  When TLS is asked for, nothing but the SSL
    request is handed to a transport that is not protected yet; with a token
    login, to one whose peer is not verified. *)

From S2P Require Import Prelude Utf8 PgWire PgMarkers PgIeee PgRequest PgResult Scram PgAuth Backend Connection Response PgSession SessionSync PgConnect.

(** ** The state afterwards *)

(** No password, token or exchange is kept. *)
Definition bare (c : Conn) : Prop :=
  cs_password (settings_ c) = [] /\ cs_native_idp (settings_ c) = None /\ auth_ c = clear_authentication_state.

Lemma clear_bare c : bare (clear_authentication c).
Proof. by destruct c. Qed.

Lemma clear_snapshot c : snapshot_of (clear_authentication c) = snapshot_of c.
Proof. by destruct c. Qed.

Lemma clear_coherent c : coherent c -> coherent (clear_authentication c).
Proof. by destruct c. Qed.

Section State.
Context {E : Type} `{!Peer E, !Connector E}.
Context (sha256 : bytes -> bytes) (hmac_sha256 : bytes -> bytes -> bytes)
        (pbkdf2_hmac_sha256 : bytes -> bytes -> Z -> bytes) (md5 : bytes -> bytes) (random : bytes).
Implicit Types (s : Session E) (deadline : Z).

Definition live (c : Conn) : Prop := connected_ c = true /\ session_state_ c <> Disconnected.

Lemma login_ready_live settings st msg st' state :
  login_message sha256 hmac_sha256 pbkdf2_hmac_sha256 md5 settings st msg = inr (Ready st' state) -> state <> Disconnected.
Proof.
  unfold login_message, on_authentication, on_login_error, caught, fail. cbv zeta.
  repeat (case_match; try done). all: intros [= <- <-]; apply ready_state_live.
Qed.

Lemma authentication_ready deadline n wire st s :
  wp (authentication_loop sha256 hmac_sha256 pbkdf2_hmac_sha256 md5 random deadline n wire st)
    (fun o _ => match o with Ready _ state => state <> Disconnected | _ => True end) s.
Proof.
  revert wire st s. induction n as [|n IH]; intros wire st s; cbn [authentication_loop]; [by wps|].
  apply wp_bind, wp_get, wp_bind, wp_mono with (Q := fun _ _ => True); [done|]. intros [data|c] s1 _; [|by wps].
  destruct (parse_message data) as [msg|[]]; try by wps. wp_step; [by wps|]. apply wp_bind.
  apply wp_mono with (Q := fun r _ => match r with inr (Ready _ state) => state <> Disconnected | _ => True end).
  - unfold wp, login_step. cbv zeta.
    destruct (login_message _ _ _ _ _ st msg) as [st'|[st' state|st' f|st']] eqn:Hl;
      destruct (new_response st _); cbn [fst snd]; try done; by eapply login_ready_live.
  - intros [st'|o] s2 Ho; [apply IH|by wps].
Qed.

Lemma start_session_live startup deadline s :
  wp (start_session sha256 hmac_sha256 pbkdf2_hmac_sha256 md5 random startup deadline)
    (fun e s' => e = None -> live (conn s')) s.
Proof.
  unfold start_session, unless, expired, passed. apply wp_bind, wp_bind, wp_mono with (Q := fun _ _ => True); [done|].
  intros r s1 _. wps; [by intros|]. apply wp_mono with (Q := fun e s' => e = None -> session_state_ (conn s') <> Disconnected).
  - unfold perform_authentication. apply wp_bind, wp_get, wp_bind. eapply wp_mono; [apply authentication_ready|].
    cbn beta. intros [st state|st f|st] s2 Ho; wps; try done. intros _. cbn. by destruct (conn s2) as [].
  - intros e s2 He. wps; intros ?; try done. specialize (He eq_refl). unfold live. cbn. by destruct (conn s2).
Qed.

Lemma connect_impl_state profile settings deadline s :
  wp (connect_impl sha256 hmac_sha256 pbkdf2_hmac_sha256 md5 random profile settings deadline) (fun e s' =>
    match e with None => live (conn s') | Some _ => s' = s \/ (connected_ (conn s') = false /\ session_state_ (conn s') = Disconnected) end) s.
Proof.
  unfold connect_impl. destruct (check_settings profile settings) as [startup|c]; [|wps; by left].
  wps. apply wp_mono with (Q := fun e s' => e = None -> live (conn s')).
  - unfold unless. apply wp_bind, wp_mono with (Q := fun _ _ => True); [done|]. intros [e|] s1 _; [by wps|].
    apply start_session_live.
  - intros [e|] s1 H1; [|wps; by apply H1]. wps. eapply wp_mono; [apply disconnect_dead|]. cbn beta.
    intros _ s2 (H2 & H3 & _). wps. by right.
Qed.

Lemma live_coherent c : live c -> coherent c.
Proof. intros [H1 H2]. unfold coherent. rewrite H1. by rewrite bool_decide_eq_true_2. Qed.

Lemma gone_coherent c : connected_ c = false -> session_state_ c = Disconnected -> coherent c.
Proof. intros H1 H2. unfold coherent. rewrite H1, H2. by rewrite bool_decide_eq_false_2 by naive_solver. Qed.

(** C20.  However a connection attempt ends, the password, the token and the
    authentication exchange are gone from the connection, the session is
    connected exactly when it has a state, the answer carries that state, and a
    success is a connected session. *)
Theorem connect_leaves_no_credential (profile : PgCatalogProfile) (settings : ConnectionSettings) (deadline : Z)
    (s s' : Session E) (answer : Reply unit)
    (Hs : coherent (conn s))
    (Hrun : generic_connect_until sha256 hmac_sha256 pbkdf2_hmac_sha256 md5 random profile settings deadline s = (s', answer)) :
  bare (conn s') /\ coherent (conn s') /\ reports answer (conn s') /\
  (forall p, answer = Answered tt p -> connected_ (conn s') = true).
Proof.
  pose proof (connect_impl_state profile settings deadline s) as H. unfold wp in H.
  unfold generic_connect_until, mbind, M_bind in Hrun.
  destruct (connect_impl _ _ _ _ _ _ _ _ s) as [s1 e]. cbn in H, Hrun. injection Hrun as <- <-. cbn [conn].
  split; [apply clear_bare|].
  assert (coherent (conn s1)) as Hc.
  { destruct e as [e|]; [|by apply live_coherent]. destruct H as [->|[H1 H2]]; [done|by apply gone_coherent]. }
  split; [by apply clear_coherent|]. destruct e as [e|].
  - split; [by case_bool_decide; cbn; rewrite clear_snapshot|]. by intros p.
  - split; [cbn; by rewrite clear_snapshot|]. intros p _. destruct H as [H _]. by destruct (conn s1).
Qed.
End State.

(** ** What an unprotected transport sees

    [protected e]: what is sent now reaches only the intended peer.  [exposed]
    is everything the transport took while it was not protected, also by a call
    that then failed.  The transport is protected once it was upgraded to TLS
    or, when [verify] is set, once the upgraded transport reports its peer's
    identity as verified; a new connection may lose the protection. *)

Class Watched (E : Type) `{!Peer E, !Connector E} (verify : bool) := {
  protected : E -> bool;
  exposed : E -> bytes;
  watch_send data d e :
    protected (send data d e).1 = protected e /\
    exists k, exposed (send data d e).1 = exposed e ++ (if protected e then [] else take k data) /\
      forall n, (send data d e).2 = Value n -> Z.of_N n <= size data -> k = N.to_nat n;
  watch_recv n d e : protected (recv n d e).1 = protected e /\ exposed (recv n d e).1 = exposed e;
  watch_close e : protected (close e) = protected e /\ exposed (close e) = exposed e;
  watch_now e : protected (now e).1 = protected e /\ exposed (now e).1 = exposed e;
  watch_seal k e : protected (seal k e).1 = protected e /\ exposed (seal k e).1 = exposed e;
  watch_wait k e : protected (cancellation_wait k e) = protected e /\ exposed (cancellation_wait k e) = exposed e;
  watch_ca file dir e : exposed (set_ca_locations file dir e) = exposed e;
  watch_plain host port d e : exposed (connect_plain host port d e).1 = exposed e;
  watch_upgrade host d e : exposed (upgrade_to_tls host d e).1 = exposed e;
  watch_identity e : exposed (identity_verified e).1 = exposed e;
  watch_gate host d e e1 e2 v :
    upgrade_to_tls host d e = (e1, Value tt) -> identity_verified e1 = (e2, v) -> (verify = true -> v = true) ->
    protected e2 = true;
}.

Section Exposure.
Context {E : Type} `{!Peer E, !Connector E} {verify : bool} `{!Watched E verify}.
Context (sha256 : bytes -> bytes) (hmac_sha256 : bytes -> bytes -> bytes)
        (pbkdf2_hmac_sha256 : bytes -> bytes -> Z -> bytes) (md5 : bytes -> bytes) (random : bytes).
Implicit Types (s : Session E) (deadline : Z).

(** Nothing is exposed and the protection stays as it is. *)
Definition veiled {A} (m : M E A) : Prop :=
  forall s, protected (io (m s).1) = protected (io s) /\ exposed (io (m s).1) = exposed (io s).

Lemma veiled_ret {A} (a : A) : veiled (mret a).
Proof. done. Qed.
Lemma veiled_bind {A B} (m : M E A) (f : A -> M E B) : veiled m -> (forall a, veiled (f a)) -> veiled (m ≫= f).
Proof.
  intros Hm Hf s. unfold mbind, M_bind. specialize (Hm s). destruct (m s) as [s1 a]. destruct Hm as [<- <-]. apply Hf.
Qed.
Lemma veiled_get : veiled get.
Proof. done. Qed.
Lemma veiled_modify f : veiled (modify f).
Proof. done. Qed.
Lemma veiled_call {A} (f : E -> E * A) :
  (forall e, protected (f e).1 = protected e /\ exposed (f e).1 = exposed e) -> veiled (call f).
Proof. intros Hf s. unfold call. specialize (Hf (io s)). by destruct (f (io s)). Qed.
Lemma veiled_effect (f : E -> E) : (forall e, protected (f e) = protected e /\ exposed (f e) = exposed e) -> veiled (effect f).
Proof. intros Hf. by apply veiled_call. Qed.
Lemma veiled_loop {S A} measure (step : S -> M E (S + Result A)) x :
  (forall x, veiled (step x)) -> veiled (loop measure step x).
Proof.
  intros Hs s. unfold loop. generalize (Datatypes.S (measure x)). intros n. revert x s.
  induction n as [|n IH]; intros x s; [done|]. cbn [loop_fuel]. specialize (Hs x s).
  destruct (step x s) as [s1 [x1|r]]; [|done]. destruct Hs as [<- <-]. apply IH.
Qed.
End Exposure.

Create HintDb veiled.
#[export] Hint Resolve veiled_ret veiled_get veiled_modify watch_recv watch_close watch_now watch_seal watch_wait : veiled.

Ltac veil_step :=
  match goal with
  | |- forall _, _ => intros ?
  | |- veiled (_ ≫= _) => apply veiled_bind
  | |- veiled (call _) => apply veiled_call
  | |- veiled (effect _) => apply veiled_effect
  | |- veiled (loop _ _ _) => apply veiled_loop
  | |- veiled (if ?b then _ else _) => destruct b
  | |- veiled (match ?x with _ => _ end) => destruct x
  end.
Ltac veils := repeat (first [solve [auto with veiled] | veil_step]).

Section Connecting.
Context {E : Type} `{!Peer E, !Connector E} {verify : bool} `{!Watched E verify}.
Context (sha256 : bytes -> bytes) (hmac_sha256 : bytes -> bytes -> bytes)
        (pbkdf2_hmac_sha256 : bytes -> bytes -> Z -> bytes) (md5 : bytes -> bytes) (random : bytes).
Implicit Types (s : Session E) (deadline : Z).

Lemma veiled_mark : veiled (E := E) mark_transport_failed.
Proof. unfold mark_transport_failed. veils. Qed.
#[local] Hint Resolve veiled_mark : veiled.
Lemma veiled_abandon {A} c : veiled (E := E) (abandon (A := A) c).
Proof. unfold abandon. veils. Qed.
#[local] Hint Resolve veiled_abandon : veiled.
Lemma veiled_disconnect : veiled (E := E) disconnect.
Proof. unfold disconnect, finish_cancellation_operation. veils. Qed.
#[local] Hint Resolve veiled_disconnect : veiled.
Lemma veiled_late enforce deadline : veiled (E := E) (late enforce deadline).
Proof. unfold late, passed. veils. Qed.
#[local] Hint Resolve veiled_late : veiled.
Lemma veiled_read enforce deadline remaining : veiled (E := E) (read_message enforce deadline remaining).
Proof. unfold read_message, header_step, body_step, receive. veils. Qed.
#[local] Hint Resolve veiled_read : veiled.
Lemma veiled_expired deadline : veiled (E := E) (expired deadline).
Proof. unfold expired, passed. veils. Qed.
#[local] Hint Resolve veiled_expired : veiled.
Lemma veiled_ssl_answer deadline : veiled (E := E) (read_ssl_answer deadline).
Proof. unfold read_ssl_answer. veils. Qed.
#[local] Hint Resolve veiled_ssl_answer : veiled.

(** A write exposes a prefix of its data, and nothing when the transport is protected. *)
Lemma write_exposes enforce deadline data s :
  wp (write_all enforce deadline data) (fun _ s' =>
    protected (io s') = protected (io s) /\
    exists p, p `prefix_of` data /\ exposed (io s') = exposed (io s) ++ (if protected (io s) then [] else p)) s.
Proof.
  apply (wp_loop (fun off s' => protected (io s') = protected (io s) /\
           exposed (io s') = exposed (io s) ++ (if protected (io s) then [] else take off data))).
  2: { split; [done|]. rewrite take_0. by destruct (protected _); rewrite app_nil_r. }
  intros off s1 [Hp He].
  set (P := fun (r : nat + Result unit) (s' : Session E) => _).
  assert (forall c s2 k, protected (io s2) = protected (io s) ->
            exposed (io s2) = exposed (io s) ++ (if protected (io s) then [] else take (off + k) data) ->
            wp (r ← abandon c; mret (inr r)) P s2) as Hend.
  { intros c s2 k H1 H2. apply wp_bind. unfold wp at 1. destruct (veiled_abandon (A := unit) c s2) as [G1 G2].
    apply wp_ret. cbn. rewrite G1, G2. split; [done|]. exists (take (off + k) data). split; [apply prefix_take|done]. }
  unfold write_step. destruct (length data <=? off)%nat eqn:Hl.
  { wps. cbn. split; [done|]. exists (take off data). split; [apply prefix_take|done]. }
  apply Nat.leb_gt in Hl. apply wp_bind. unfold wp at 1. destruct (veiled_late enforce deadline s1) as [L1 L2].
  destruct (late enforce deadline s1) as [s2 expired_]. cbn [fst snd] in *. rewrite <- L1 in Hp. rewrite <- L2 in He.
  wp_step; [apply (Hend _ _ 0%nat); [done|by rewrite Nat.add_0_r]|]. apply wp_bind, wp_call. intros e a Hsend.
  destruct (watch_send (drop off data) deadline (io s2)) as [W1 (k & W2 & W3)]. rewrite Hsend in W1, W2, W3. cbn [fst snd] in *.
  assert (exposed e = exposed (io s) ++ (if protected (io s) then [] else take (off + k) data)) as Hk.
  { rewrite W2, He, Hp. destruct (protected (io s)); rewrite <- ?app_assoc; [done|]. f_equal. by rewrite take_take_drop. }
  destruct a as [n|c]; [|apply (Hend _ _ k); cbn; congruence].
  wp_step; [apply (Hend _ _ k); cbn; congruence|]. wp_step; [apply (Hend _ _ k); cbn; congruence|].
  zb. match goal with H : (_ =? 0)%N = false |- _ => apply N_eqb_0 in H end. unfold size in *.
  wps. cbn. rewrite (W3 n eq_refl) in Hk by (rewrite length_drop; lia). split; [split; [congruence|done]|lia].
Qed.

(** Behind the protection. *)
Lemma write_veiled enforce deadline data s :
  protected (io s) = true ->
  protected (io (write_all enforce deadline data s).1) = true /\
  exposed (io (write_all enforce deadline data s).1) = exposed (io s).
Proof.
  intros Hp. pose proof (write_exposes enforce deadline data s) as [H1 (p & _ & H2)]. rewrite Hp in H1, H2.
  by rewrite app_nil_r in H2.
Qed.

Definition behind {A} (m : M E A) : Prop :=
  forall s, protected (io s) = true -> protected (io (m s).1) = true /\ exposed (io (m s).1) = exposed (io s).

Lemma veiled_behind {A} (m : M E A) : veiled m -> behind m.
Proof. intros Hm s Hp. destruct (Hm s) as [-> ->]. done. Qed.

Lemma behind_bind {A B} (m : M E A) (f : A -> M E B) : behind m -> (forall a, behind (f a)) -> behind (m ≫= f).
Proof.
  intros Hm Hf s Hp. unfold mbind, M_bind. specialize (Hm s Hp). destruct (m s) as [s1 a]. destruct Hm as [H1 <-].
  by apply Hf.
Qed.

Lemma login_step_behind deadline st msg :
  behind (login_step sha256 hmac_sha256 pbkdf2_hmac_sha256 md5 random deadline st msg).
Proof.
  intros s Hp. unfold login_step. cbv zeta. destruct (new_response _ _); cbn [fst]; [by apply write_veiled|done].
Qed.

Lemma authentication_behind deadline n wire st :
  behind (authentication_loop sha256 hmac_sha256 pbkdf2_hmac_sha256 md5 random deadline n wire st).
Proof.
  revert wire st. induction n as [|n IH]; intros wire st; cbn [authentication_loop]; [by apply veiled_behind|].
  apply behind_bind; [by apply veiled_behind|]. intros c. apply behind_bind; [apply veiled_behind, veiled_read|].
  intros [data|e]; [|by apply veiled_behind]. destruct (parse_message data) as [msg|x]; [|by apply veiled_behind].
  destruct (second_key st msg); [by apply veiled_behind|].
  apply behind_bind; [apply login_step_behind|]. intros [st'|o]; [apply IH|by apply veiled_behind].
Qed.

Lemma unless_behind m k : behind m -> behind k -> behind (unless m k).
Proof. intros Hm Hk. unfold unless. apply behind_bind; [done|]. intros [e|]; [by apply veiled_behind|done]. Qed.

Lemma start_session_behind startup deadline :
  behind (start_session sha256 hmac_sha256 pbkdf2_hmac_sha256 md5 random startup deadline).
Proof.
  unfold start_session. apply unless_behind; [|apply unless_behind; [|apply unless_behind]].
  - apply behind_bind; [|intros; by apply veiled_behind]. intros s Hp. by apply write_veiled.
  - unfold perform_authentication. apply behind_bind; [by apply veiled_behind|]. intros c.
    apply behind_bind; [apply authentication_behind|]. intros []; by apply veiled_behind.
  - apply veiled_behind, veiled_expired.
  - by apply veiled_behind.
Qed.

(** From [s] to [s'] an unprotected transport took at most a prefix of [allowed]. *)
Definition exposes_at_most (allowed : bytes) s s' : Prop :=
  exists p, p `prefix_of` allowed /\ exposed (io s') = exposed (io s) ++ p.

(** Until the transport is protected, only a prefix of the SSL request is exposed. *)
Definition discreet s (e : option OpError) s' : Prop :=
  (exists p, p `prefix_of` create_ssl_request /\ exposed (io s') = exposed (io s) ++ p) /\
  (e = None -> protected (io s') = true).

Lemma wp_unless m k (Q : option OpError -> Session E -> Prop) s :
  wp m (fun e s1 => match e with Some e => Q (Some e) s1 | None => wp k Q s1 end) s -> wp (unless m k) Q s.
Proof. intros H. unfold unless. apply wp_bind. eapply wp_mono; [exact H|]. intros [e|] s1 H1; by wps. Qed.

(** A step that exposes nothing more than what was exposed before. *)
Lemma quiet_unless m k s s0 p :
  p `prefix_of` create_ssl_request -> exposed (io s) = exposed (io s0) ++ p ->
  (forall s, exposed (io (m s).1) = exposed (io s)) ->
  (forall s1, exposed (io s1) = exposed (io s0) ++ p -> wp k (discreet s0) s1) ->
  wp (unless m k) (discreet s0) s.
Proof.
  intros Hp He Hm Hk. apply wp_unless. unfold wp at 1. specialize (Hm s). destruct (m s) as [s1 [e|]]; cbn [fst snd] in *.
  - split; [|done]. exists p. split; [done|congruence].
  - apply Hk. congruence.
Qed.

Lemma call_exposes {A B} (f : E -> E * A) (g : A -> B) :
  (forall e, exposed (f e).1 = exposed e) -> forall s, exposed (io ((x ← call f; mret (g x)) s).1) = exposed (io s).
Proof. intros Hf s. unfold mbind, M_bind, call. specialize (Hf (io s)). by destruct (f (io s)). Qed.

Lemma veiled_exposes {A} (m : M E A) : veiled m -> forall s, exposed (io (m s).1) = exposed (io s).
Proof. intros Hm s. apply Hm. Qed.

Lemma verify_discreet settings deadline s0 s p :
  (verify = true -> is_Some (cs_native_idp settings)) -> p `prefix_of` create_ssl_request ->
  exposed (io s) = exposed (io s0) ++ p -> wp (verify_peer settings deadline) (discreet s0) s.
Proof.
  intros Hv Hp He. unfold verify_peer. apply wp_unless, wp_bind, wp_call. intros e1 r Hup. apply wp_ret.
  pose proof (watch_upgrade (cs_host settings) deadline (io s)) as W1. rewrite Hup in W1. cbn in W1.
  destruct r as [[]|c]; cbn [done_or]; [|split; [exists p; split; [done|cbn; congruence]|done]].
  apply wp_bind, wp_call. intros e2 v Hid. apply wp_bind, wp_modify, wp_ret. cbn in Hid.
  pose proof (watch_identity e1) as W2. rewrite Hid in W2. cbn in W2.
  split; [exists p; split; [done|cbn; congruence]|]. intros Hn. cbn.
  apply (watch_gate (cs_host settings) deadline (io s) e1 e2 v Hup Hid). intros H. apply Hv in H.
  rewrite bool_decide_eq_true_2 in Hn by done. destruct v; [done|discriminate Hn].
Qed.

Lemma negotiate_discreet settings deadline s0 s :
  (verify = true -> is_Some (cs_native_idp settings)) -> exposed (io s) = exposed (io s0) ->
  wp (negotiate_tls settings deadline) (discreet s0) s.
Proof.
  intros Hv He. pose proof (prefix_nil create_ssl_request) as Hnil. unfold negotiate_tls.
  apply (quiet_unless _ _ _ _ []); [done|by rewrite app_nil_r|apply veiled_exposes, veiled_expired|]. intros s1 H1.
  apply (quiet_unless _ _ _ _ []); [done..|apply call_exposes, watch_plain|]. intros s2 H2.
  apply wp_unless, wp_bind. eapply wp_mono; [apply write_exposes|]. cbn beta. intros r s3 (_ & p & Hp & H3).
  assert (exists p', p' `prefix_of` create_ssl_request /\ exposed (io s3) = exposed (io s0) ++ p') as (p' & Hp' & H3').
  { rewrite H2, app_nil_r in H3. by destruct (protected (io s2)); eauto. }
  apply wp_ret. destruct r as [[]|c]; cbn [done_or]; [|split; [by exists p'|done]].
  apply (quiet_unless _ _ _ _ p'); [done..|apply veiled_exposes, veiled_expired|]. intros s4 H4.
  apply (quiet_unless _ _ _ _ p'); [done..|apply veiled_exposes, veiled_ssl_answer|]. intros s5 H5.
  apply (quiet_unless _ _ _ _ p'); [done..|apply veiled_exposes, veiled_expired|]. intros s6 H6.
  by apply verify_discreet with p'.
Qed.

Lemma open_tls_discreet settings deadline s0 s :
  (verify = true -> is_Some (cs_native_idp settings)) -> exposed (io s) = exposed (io s0) ->
  wp (open_tls settings deadline) (discreet s0) s.
Proof.
  intros Hv H0. unfold open_tls.
  assert (forall e s1, exposed (io s1) = exposed (io s0) -> discreet s0 (Some e) s1) as Hnone.
  { intros e s1 H. split; [|done]. exists []. split; [apply prefix_nil|by rewrite app_nil_r]. }
  apply wp_bind, wp_call. intros e1 a [= <- <-]. wp_step; [by wps; apply Hnone|].
  apply wp_bind, wp_call. intros e2 b [= <- <-]. wp_step; [by wps; apply Hnone|]. apply wp_bind.
  apply wp_mono with (Q := fun _ s1 => exposed (io s1) = exposed (io s0)).
  - destruct (tls_configurable _); [|by wps]. apply wp_call. intros e3 [] [= <-]. cbn. by rewrite watch_ca.
  - intros _ s1 H1. by apply negotiate_discreet.
Qed.

(** C19.  When TLS is asked for, a connection attempt, however it ends, hands to
    a transport that is not protected at most the SSL request: neither the
    startup message, with its user and token, nor a response to the server's
    challenges.  With a token the transport counts as protected only once its
    peer's identity is verified. *)
Theorem connect_exposes_ssl_request_only (profile : PgCatalogProfile) (settings : ConnectionSettings) (deadline : Z)
    (s s' : Session E) (answer : Reply unit)
    (Hssl : cs_use_ssl settings = true)
    (Hverify : verify = true -> is_Some (cs_native_idp settings))
    (Hrun : generic_connect_until sha256 hmac_sha256 pbkdf2_hmac_sha256 md5 random profile settings deadline s = (s', answer)) :
  exposes_at_most create_ssl_request s s'.
Proof.
  assert (wp (connect_impl sha256 hmac_sha256 pbkdf2_hmac_sha256 md5 random profile settings deadline)
            (fun _ s1 => exists p, p `prefix_of` create_ssl_request /\ exposed (io s1) = exposed (io s) ++ p) s) as H.
  { unfold connect_impl. destruct (check_settings _ _); [|apply wp_ret; exists []; split; [apply prefix_nil|by rewrite app_nil_r]].
    apply wp_bind, wp_modify, wp_bind, wp_unless. rewrite Hssl. eapply wp_mono; [by apply open_tls_discreet|].
    cbn beta. intros e s1 [H1 H2]. destruct e as [e|].
    - apply wp_bind. unfold wp at 1. destruct (veiled_disconnect s1) as [_ D]. apply wp_ret. by rewrite D.
    - unfold wp at 1. match goal with |- context [start_session _ _ _ _ _ ?m deadline s1] => destruct (start_session_behind m deadline s1) as [_ B] end; [by apply H2|].
      destruct (start_session _ _ _ _ _ _ deadline s1) as [s2 e2]. cbn [fst snd] in *. rewrite <- B in H1.
      destruct e2 as [e2|]; [|by apply wp_ret]. apply wp_bind. unfold wp at 1.
      destruct (veiled_disconnect s2) as [_ D]. apply wp_ret. by rewrite D. }
  unfold wp in H. unfold generic_connect_until, mbind, M_bind in Hrun.
  destruct (connect_impl _ _ _ _ _ _ _ _ s) as [s1 e]. cbn in H, Hrun. by injection Hrun as <- <-.
Qed.
End Connecting.

(** ** A server that offers TLS *)

Record Line := { stream : Chunks; secured : bool; shown : bytes }.
Definition on_stream {A} (f : Chunks -> Chunks * A) (e : Line) : Line * A :=
  let '(c, a) := f (stream e) in ({| stream := c; secured := secured e; shown := shown e |}, a).
Definition secure (v : bool) (e : Line) : Line := {| stream := stream e; secured := v; shown := shown e |}.

#[export] Instance line_peer : Peer Line := {|
  send data d e :=
    on_stream (send data d) {| stream := stream e; secured := secured e;
                               shown := shown e ++ (if secured e then [] else data) |};
  recv n d e := on_stream (recv n d) e;
  close e := e;
  now e := (e, clock (stream e));
  seal _ e := (e, no_outcome);
  before_wire _ e := (e, true);
  sent_request _ e := e;
  error_observed _ _ e := e;
  drained _ _ e := (e, no_outcome);
  next_phase _ e := (e, true);
  enter_resolver _ e := (e, true);
  leave_resolver _ e := e;
  cancellation_wait _ e := e;
|}.

#[export] Instance line_connector : Connector Line := {|
  start_tls _ := true; tls_configurable _ := true; set_ca_locations _ _ e := e;
  connect_plain _ _ _ e := (secure false e, Value tt); connect_direct _ _ _ e := (secure false e, Value tt);
  upgrade_to_tls _ _ e := (secure true e, Value tt); identity_verified e := (e, secured e);
|}.

#[export, refine] Instance line_watched : Watched Line true := {| protected := secured; exposed := shown |}.
Proof.
  all: try done.
  - intros data d e. cbn. split; [done|]. exists (length data). rewrite take_ge by done. split; [done|].
    intros n [= <-] _. by rewrite Nat2N.id.
  - intros n d e. cbn. unfold on_stream. by destruct (chunk_recv n (stream e)).
  - intros host d e e1 e2 v [= <-] [= <- <-]. done.
Defined.

Definition token_settings : ConnectionSettings := {|
  cs_host := str "db"; cs_user := str "u"; cs_password := []; cs_database := str "d"; cs_port := 5439;
  cs_timeout := 15000; cs_use_ssl := true; cs_ssl_ca_file := []; cs_ssl_ca_dir := [];
  response_limits := response_limits default_settings; result_limits := result_limits default_settings;
  input_limits := input_limits default_settings; startup_response_limits := startup_response_limits default_settings;
  redshift_catalog_mode := None; application_name := None;
  cs_native_idp := Some {| idp_token := str "secret"; idp_type := str "AzureAD"; provider_name := [];
                           token_type := str "ACCESS_TOKEN"; identity_namespace := []; plugin_name := [] |};
  read_only := false; character_metadata := character_metadata default_settings; detailed_table_types := true;
  catalog_database_scope := CurrentDatabase |}.

(** TLS is accepted, a password asked for, and the login completed. *)
Definition waiting_server : Session Line :=
  {| conn := initial_conn;
     io := {| stream := {| chunks := [str "S"; frame (ch "R") (be32 3); frame (ch "R") (be32 0) ++ frame (ch "Z") (str "I")];
                           taken := []; given := []; clock := 0 |};
              secured := false; shown := [] |} |}.
Definition no_hash : bytes -> bytes := fun _ => [].
Definition logged_in : Session Line * Reply unit := Eval vm_compute in
  generic_connect_until no_hash (fun _ => no_hash) (fun _ _ _ => []) no_hash [] Redshift token_settings 10 waiting_server.

Lemma connect_leaves_no_credential_witness :
  logged_in.2 = Answered tt idle_reusable /\ bare (conn logged_in.1) /\ connected_ (conn logged_in.1) = true.
Proof.
  split; [done|].
  destruct (connect_leaves_no_credential no_hash (fun _ => no_hash) (fun _ _ _ => []) no_hash [] Redshift token_settings 10
    waiting_server logged_in.1 logged_in.2 eq_refl) as (Hb & _ & _ & Hc).
  - vm_compute. reflexivity.
  - split; [exact Hb|]. exact (Hc idle_reusable eq_refl).
Defined.

Lemma connect_exposes_ssl_request_only_witness :
  size (given (stream (io logged_in.1))) = 214 /\
  exposes_at_most create_ssl_request waiting_server logged_in.1.
Proof.
  split; [done|].
  refine (connect_exposes_ssl_request_only no_hash (fun _ => no_hash) (fun _ _ _ => []) no_hash [] Redshift token_settings 10
    waiting_server logged_in.1 logged_in.2 eq_refl (fun _ => _) _).
  - exact (ex_intro _ _ eq_refl).
  - vm_compute. reflexivity.
Defined.
