(* ===== verification/PgProvider.v ===== *)
(** * The PostgreSQL and Redshift provider

    [pg_backend_provider.cpp]: how connection options become the settings of a
    session ([resolve_connection_options]), and the type catalogs it advertises
    ([pg_type_catalog.cpp]).  The settings meet the checks of PgConnect.v. *)

From S2P Require Import Prelude Utf8 Digits PgWire PgMarkers PgIeee PgRequest PgResult Scram PgAuth Backend PgValue Connection Response PgSession PgConnect.

(** ** Connection options *)

Record ConnectionOptions := {
  o_host : option bytes; o_port : option Z; o_database : option bytes; o_user : option bytes; o_password : option bytes;
  o_use_ssl : option bool; o_ssl_ca_file : option bytes; o_ssl_ca_dir : option bytes;
  o_ssl_use_system_trust_store : option bool; o_timeout : Z;
  o_response_limits : ResponseLimits; o_startup_response_limits : ResponseLimits; o_result_limits : ResultLimits;
  o_input_limits : InputLimits; o_redshift_catalog_mode : option bytes; o_application_name : option bytes;
  o_read_only : bool; o_varchar_threshold : option Z; o_long_varchar_size : option Z; o_boolean_as_character : bool;
  o_detailed_table_types : option bool; o_catalog_database_scope : option CatalogDatabaseScope;
  o_plugin_name : option bytes; o_provider_name : option bytes; o_token_type : option bytes;
  o_identity_namespace : option bytes; o_token : option bytes }.

Record BackendConnectionDefaults := { d_host : bytes; d_port : Z; d_database : option bytes; d_use_ssl : bool }.

Definition ascii_upper (s : bytes) : bytes := map (fun c => if (ch "a" <=? c) && (c <=? ch "z") then c - 32 else c) s.

Definition native_idp_type_for_plugin (plugin : bytes) : bytes :=
  let upper := ascii_upper plugin in
  if beq upper (str "IDPTOKENAUTHPLUGIN") || beq upper (str "BROWSERIDCAUTHPLUGIN") then str "AwsIdc" else [].

Definition no_nul (value : option bytes) : bool := match value with Some v => negb (has_nul_byte v) | None => true end.
Definition is_empty (v : option bytes) : bool := match v with Some (_ :: _) => false | _ => true end.

Section Provider.
Context (profile : PgCatalogProfile) (defaults : BackendConnectionDefaults).
Implicit Types o : ConnectionOptions.

Definition is_redshift : bool := bool_decide (profile = Redshift).

(** The options other products do not support. *)
Definition refuse_options o : option DbErrorCode :=
  let foreign (present : bool) := present && negb is_redshift in
  if foreign (bool_decide (is_Some (o_catalog_database_scope o))) then Some UnsupportedFeature
  else if foreign (bool_decide (is_Some (o_varchar_threshold o)) || bool_decide (is_Some (o_long_varchar_size o)))
  then Some UnsupportedFeature
  else if match o_varchar_threshold o with Some n => 2 ^ 31 - 1 <? n | None => false end then Some InvalidParameter
  else if match o_long_varchar_size o with Some n => 65535 <? n | None => false end then Some InvalidParameter
  else if foreign (o_boolean_as_character o) then Some UnsupportedFeature
  else if foreign (bool_decide (is_Some (o_detailed_table_types o))) then Some UnsupportedFeature
  else if foreign (o_read_only o) then Some UnsupportedFeature
  else if foreign (bool_decide (is_Some (o_redshift_catalog_mode o))) then Some InvalidParameter
  else None.

Definition catalog_mode_of o : Result (option RedshiftCatalogMode) :=
  if negb is_redshift then Value None
  else
    match o_redshift_catalog_mode o with
    | None => Value (Some Show_)
    | Some mode =>
        if beq (ascii_upper mode) (str "LEGACY") then Value (Some Legacy)
        else if beq (ascii_upper mode) (str "SHOW") then Value (Some Show_)
        else Error InvalidParameter
    end.

Definition native_idp_of o : Result (option NativeIdpSettings) :=
  if negb (existsb (fun v => bool_decide (is_Some v))
             [o_plugin_name o; o_provider_name o; o_token_type o; o_identity_namespace o; o_token o]) then Value None
  else if negb is_redshift then Error UnsupportedFeature
  else if negb (beq (default [] (o_password o)) []) then Error InvalidParameter
  else
    match o_plugin_name o, o_token o with
    | Some plugin, Some token =>
        if beq plugin [] || beq token [] then Error InvalidParameter
        else if beq (native_idp_type_for_plugin plugin) [] then Error InvalidParameter
        else if is_empty (o_provider_name o) || is_empty (o_token_type o) then Error InvalidParameter
        else Value (Some {| idp_token := token; idp_type := native_idp_type_for_plugin plugin;
                            provider_name := default [] (o_provider_name o); token_type := default [] (o_token_type o);
                            identity_namespace := default [] (o_identity_namespace o); plugin_name := plugin |})
    | _, _ => Error InvalidParameter
    end.

Definition settings_of o (mode : option RedshiftCatalogMode) (idp : option NativeIdpSettings) : ConnectionSettings := {|
  cs_host := default (d_host defaults) (o_host o); cs_user := default [] (o_user o);
  cs_password := default [] (o_password o);
  cs_database := default (default [] (d_database defaults)) (o_database o);
  cs_port := default (d_port defaults) (o_port o); cs_timeout := o_timeout o;
  cs_use_ssl := default (d_use_ssl defaults) (o_use_ssl o);
  cs_ssl_ca_file := default [] (o_ssl_ca_file o); cs_ssl_ca_dir := default [] (o_ssl_ca_dir o);
  response_limits := o_response_limits o; result_limits := o_result_limits o; input_limits := o_input_limits o;
  startup_response_limits := o_startup_response_limits o; redshift_catalog_mode := mode;
  application_name := o_application_name o; cs_native_idp := idp; read_only := o_read_only o;
  character_metadata :=
    {| varchar_threshold := if is_redshift then default 255 (o_varchar_threshold o) else 0;
       long_varchar_size := if is_redshift then default 65535 (o_long_varchar_size o) else 0;
       boolean_as_character := o_boolean_as_character o |};
  detailed_table_types := default true (o_detailed_table_types o);
  catalog_database_scope := default CurrentDatabase (o_catalog_database_scope o) |}.

Definition resolve_connection_options o : Result ConnectionSettings :=
  if negb (forallb no_nul [o_host o; o_database o; o_user o; o_password o; o_ssl_ca_file o; o_ssl_ca_dir o;
                           o_application_name o; o_plugin_name o; o_provider_name o; o_token_type o;
                           o_identity_namespace o; o_token o]) then Error InvalidParameter
  else
    match refuse_options o with
    | Some c => Error c
    | None =>
        match catalog_mode_of o with
        | Error c => Error c
        | Value mode =>
            if default (d_port defaults) (o_port o) =? 0 then Error InvalidParameter
            else
              match native_idp_of o with
              | Error c => Error c
              | Value idp =>
                  let s := settings_of o mode idp in
                  if negb (valid_resource_limits s) then Error InvalidParameter
                  else if match application_name s with
                          | Some n => max_connection_field_bytes (input_limits s) <? size n
                          | None => false
                          end then Error ResourceLimit
                  else
                    match (select_tls_trust_source (cs_use_ssl s) (o_ssl_use_system_trust_store o)
                             (cs_ssl_ca_file s) (cs_ssl_ca_dir s)).2 with
                    | NoConflict => Value s
                    | _ => Error InvalidParameter
                    end
              end
        end
    end.
End Provider.

(** ** Type catalogs *)

Record TypeDefinition := {
  td_type : ScalarType; td_name : bytes; td_column_size : Z; td_quote : option bytes; td_create_params : option bytes;
  td_case_sensitive : bool; td_unsigned : option bool; td_minimum_scale : option Z; td_maximum_scale : option Z;
  td_radix : Z }.

(** A row; the literal prefix and suffix are the same or both absent. *)
Definition row (t : ScalarType) (name : bytes) (size : Z) (quote params : option bytes) (cs : bool) (uns : option bool)
    (min max : option Z) (radix : Z) : TypeDefinition :=
  {| td_type := t; td_name := name; td_column_size := size; td_quote := quote; td_create_params := params;
     td_case_sensitive := cs; td_unsigned := uns; td_minimum_scale := min; td_maximum_scale := max; td_radix := radix |}.
Definition quoted : option bytes := Some (str "'").

Definition definitions : list TypeDefinition := [
  row SBoolean (str "boolean") 1 None None false None None None 0;
  row SBigInt (str "bigint") 19 None None false (Some false) (Some 0) (Some 0) 10;
  row SBinary (str "bytea") 1073741824 quoted None false None None None 0;
  row SLongVarChar (str "text") 1073741824 quoted None true None None None 0;
  row SChar (str "char") 10485760 quoted (Some (str "length")) true None None None 0;
  row SNumeric (str "numeric") 1000 None (Some (str "precision,scale")) false (Some false) (Some 0) (Some 1000) 10;
  row SDecimal (str "decimal") 1000 None (Some (str "precision,scale")) false (Some false) (Some 0) (Some 1000) 10;
  row SInteger (str "integer") 10 None None false (Some false) (Some 0) (Some 0) 10;
  row SSmallInt (str "smallint") 5 None None false (Some false) (Some 0) (Some 0) 10;
  row SReal (str "real") 7 None None false (Some false) None None 2;
  row SDouble (str "double precision") 15 None None false (Some false) None None 2;
  row SDate (str "date") 10 quoted None false None None None 0;
  row STime (str "time") 15 quoted (Some (str "precision")) false None (Some 0) (Some 6) 0;
  row STimestamp (str "timestamp") 26 quoted (Some (str "precision")) false None (Some 0) (Some 6) 0;
  row SVarChar (str "varchar") 10485760 quoted (Some (str "length")) true None None None 0].

Definition is_exact_numeric (t : TypeDefinition) : bool :=
  bool_decide (td_type t = SNumeric) || bool_decide (td_type t = SDecimal).

Definition modern_definitions : list TypeDefinition :=
  map (fun t => if is_exact_numeric t
                then row (td_type t) (td_name t) (td_column_size t) (td_quote t) (td_create_params t) (td_case_sensitive t)
                       (td_unsigned t) (Some (-1000)) (td_maximum_scale t) (td_radix t)
                else t) definitions.

Definition redshift_definitions : list TypeDefinition := [
  row SBoolean (str "boolean") 1 None None false None None None 0;
  row SBigInt (str "bigint") 19 None None false (Some false) (Some 0) (Some 0) 10;
  row SChar (str "char") 4096 quoted (Some (str "length")) true None None None 0;
  row SNumeric (str "numeric") 38 None (Some (str "precision,scale")) false (Some false) (Some 0) (Some 37) 10;
  row SDecimal (str "decimal") 38 None (Some (str "precision,scale")) false (Some false) (Some 0) (Some 37) 10;
  row SInteger (str "integer") 10 None None false (Some false) (Some 0) (Some 0) 10;
  row SSmallInt (str "smallint") 5 None None false (Some false) (Some 0) (Some 0) 10;
  row SReal (str "real") 7 None None false (Some false) None None 2;
  row SDouble (str "double precision") 15 None None false (Some false) None None 2;
  row SDate (str "date") 10 quoted None false None None None 0;
  row STime (str "time") 15 quoted (Some (str "precision")) false None (Some 0) (Some 6) 0;
  row STimestamp (str "timestamp") 26 quoted (Some (str "precision")) false None (Some 0) (Some 6) 0;
  row SVarChar (str "varchar") 65535 quoted (Some (str "length")) true None None None 0;
  row SLongVarBinary (str "varbyte") 16777216 None (Some (str "length")) false None None None 0;
  row SLongVarChar (str "super") 16777216 None None true None None None 0;
  row SLongVarBinary (str "geometry") 1048447 None None false None None None 0;
  row SLongVarBinary (str "geography") 1048447 None None false None None None 0].

Definition redshift_result_definitions : list TypeDefinition :=
  map (fun t => if is_exact_numeric t
                then row (td_type t) (td_name t) 38 (td_quote t) (td_create_params t) (td_case_sensitive t)
                       (td_unsigned t) (Some 0) (Some 37) (td_radix t)
                else t) definitions ++
  [row SLongVarBinary (str "varbyte") 16777216 None (Some (str "length")) false None None None 0].

Definition pg_type_catalog (version : bytes) : list TypeDefinition :=
  if beq version [] then definitions
  else
    match from_chars_signed (- 2 ^ 31) (2 ^ 31 - 1) version with
    | FromChars major _ => if 15 <=? major then modern_definitions else definitions
    | _ => definitions
    end.
Definition type_catalog (profile : PgCatalogProfile) (version : bytes) : list TypeDefinition :=
  match profile with Redshift => redshift_definitions | _ => pg_type_catalog version end.
Definition result_type_catalog (profile : PgCatalogProfile) (version : bytes) : list TypeDefinition :=
  match profile with Redshift => redshift_result_definitions | _ => pg_type_catalog version end.

(** *** Every described type is advertised *)

Definition has_row (l : list TypeDefinition) (st : ScalarType) : bool := existsb (fun t => bool_decide (td_type t = st)) l.
Definition families : list ScalarType :=
  [SBoolean; SBinary; SChar; SVarChar; SBigInt; SSmallInt; SInteger; SReal; SDouble; SDate; STime; STimestamp; SNumeric].

Lemma described_family oid size modifier :
  existsb (fun st => bool_decide (scalar (describe_pg_type oid size modifier) = st)) families = true.
Proof. unfold describe_pg_type, temporal_type, numeric_type. cbv zeta. by repeat case_match. Qed.

Lemma catalog_families profile version : forallb (has_row (result_type_catalog profile version)) families = true.
Proof. destruct profile; cbn [result_type_catalog]; [unfold pg_type_catalog; repeat case_match|]; by vm_compute. Qed.

(** A type a column is described with has a row in the catalog its results are
    presented with. *)
Lemma described_type_advertised profile version id size modifier :
  has_row (result_type_catalog profile version) (scalar (describe_type profile id size modifier)) = true.
Proof.
  assert (has_row (result_type_catalog profile version) (scalar (describe_pg_type id size modifier)) = true) as Hpg.
  { pose proof (catalog_families profile version) as Hf. rewrite forallb_forall in Hf. apply Hf.
    destruct (proj1 (existsb_exists _ _) (described_family id size modifier)) as (st & Hin & Hb).
    apply bool_decide_eq_true in Hb. by rewrite Hb. }
  unfold describe_type. cbv zeta. destruct (bool_decide (profile = Redshift)) eqn:Hp; cbn [andb]; [|done].
  apply bool_decide_eq_true in Hp. subst. repeat (case_match; [by vm_compute|]). done.
Qed.

(** *** What is resolved can be connected *)

Lemma no_trust_conflict use_ssl system file dir :
  (select_tls_trust_source use_ssl system file dir).2 = NoConflict ->
  (select_tls_trust_source use_ssl None file dir).2 = NoConflict.
Proof.
  unfold select_tls_trust_source. cbv zeta. destruct use_ssl, (negb (beq file [])), (negb (beq dir [])), system as [[]|];
    cbn; try done.
Qed.

Lemma native_idp_sound profile o idp :
  native_idp_of profile o = Value (Some idp) -> profile = Redshift /\ idp_token idp <> [] /\ default [] (o_password o) = [].
Proof.
  unfold native_idp_of, is_redshift, beq. intros H. repeat (case_match; try done); simplify_eq.
  repeat match goal with
  | H : negb _ = false |- _ => apply negb_false_iff in H
  | H : _ || _ = false |- _ => apply orb_false_iff in H as [? ?]
  | H : bool_decide _ = true |- _ => apply bool_decide_eq_true in H
  | H : bool_decide _ = false |- _ => apply bool_decide_eq_false in H
  end. done.
Qed.

Lemma refuse_options_sound profile defaults o mode idp :
  refuse_options profile o = None -> catalog_mode_of profile o = Value mode ->
  refuse_settings profile (settings_of profile defaults o mode idp) false = None.
Proof.
  unfold refuse_options, catalog_mode_of, refuse_settings, is_redshift. destruct o, profile; cbn.
  - intros H [= <-]. destruct o_catalog_database_scope0, o_varchar_threshold0, o_long_varchar_size0, o_boolean_as_character0,
      o_detailed_table_types0, o_read_only0, o_redshift_catalog_mode0; cbn in *; simplify_eq; done.
  - intros H _. change (is_redshift Redshift) with true. change (bool_decide (Redshift = Redshift)) with true in *. cbn [negb andb] in *. rewrite !andb_false_r in *.
    destruct o_varchar_threshold0 as [n|], o_long_varchar_size0 as [k|]; cbn [default id] in *;
      repeat match type of H with context [if ?b then _ else _] => destruct b eqn:?; [discriminate H|] end;
      repeat match goal with Hb : (_ <? _) = false |- _ => rewrite Hb end; done.
Qed.

(** The policy and the limits are those [check_settings] asks for. *)
Lemma refuse_options_policy profile defaults o mode idp :
  refuse_options profile o = None ->
  valid_character_metadata_policy (character_metadata (settings_of profile defaults o mode idp)) = true.
Proof.
  unfold refuse_options, valid_character_metadata_policy, is_redshift. destruct o, profile; cbn; [done|].
  intros H. change (is_redshift Redshift) with true. change (bool_decide (Redshift = Redshift)) with true in *. cbn [negb andb] in *. rewrite !andb_false_r in *.
  destruct o_varchar_threshold0 as [n|], o_long_varchar_size0 as [k|]; cbn [default id] in *;
    repeat match type of H with context [if ?b then _ else _] => destruct b eqn:?; [discriminate H|] end;
    apply andb_true_iff; split; apply Z.leb_le; zb; cbn [id]; lia.
Qed.

(** Options that the provider resolves are options it can connect with: the
    settings are not refused as unsupported or invalid for the product, and the
    checks before a connection refuse them as invalid only for a token login
    without TLS or for what cannot be spelled in a startup message. *)
Theorem resolved_options_accepted (profile : PgCatalogProfile) (defaults : BackendConnectionDefaults) (o : ConnectionOptions)
    (s : ConnectionSettings)
    (Hres : resolve_connection_options profile defaults o = Value s) :
  refuse_settings profile s false = None /\
  (check_settings profile s = Error InvalidParameter ->
    (is_Some (cs_native_idp s) /\ cs_use_ssl s = false) \/
    exists e, e <> RequestWireLimitExceeded /\
      create_startup_message profile (cs_user s) (cs_database s) (startup_params s) (max_startup_wire_bytes (input_limits s)) =
        Throw e).
Proof.
  unfold resolve_connection_options in Hres.
  destruct (forallb no_nul _) eqn:Hnul; [|done]. destruct (refuse_options profile o) eqn:Href; [done|].
  destruct (catalog_mode_of profile o) as [mode|] eqn:Hmode; [|done]. destruct (_ =? 0) eqn:Hport; [done|].
  destruct (native_idp_of profile o) as [idp|] eqn:Hidp; [|done]. cbv zeta in Hres.
  destruct (valid_resource_limits _) eqn:Hlim; [|done]. cbn [negb] in Hres.
  match type of Hres with (if ?b then _ else _) = _ => destruct b eqn:Happ; [done|] end.
  destruct ((select_tls_trust_source _ _ _ _).2) eqn:Htls; try done. apply no_trust_conflict in Htls. injection Hres as <-.
  split; [by apply refuse_options_sound|]. unfold check_settings. cbv zeta.
  rewrite (refuse_options_policy _ defaults _ mode idp Href), Hlim, Htls. cbn [negb].
  change (cs_port (settings_of profile defaults o mode idp)) with (default (d_port defaults) (o_port o)). rewrite Hport.
  destruct (existsb _ _) eqn:?; [done|]. rewrite Happ.
  cbn [forallb] in Hnul. rewrite !andb_true_iff in Hnul. destruct Hnul as (_ & _ & _ & Hpw & _ & _ & Hname & _).
  assert (match application_name (settings_of profile defaults o mode idp) with Some n => has_nul_byte n | None => false end = false) as ->.
  { cbn. destruct (o_application_name o); [|done]. by apply negb_true_iff. }
  assert (has_nul_byte (cs_password (settings_of profile defaults o mode idp)) = false) as ->.
  { cbn. destruct (o_password o); [|done]. by apply negb_true_iff. }
  rewrite bool_decide_eq_true_2 by done. cbn [negb].
  destruct (cs_native_idp (settings_of profile defaults o mode idp)) as [i|] eqn:Hi.
  - cbn in Hi. subst. destruct (native_idp_sound _ _ _ Hidp) as (-> & Ht & Hp). cbn [cs_password settings_of]. rewrite Hp.
    unfold beq at 1 2. rewrite bool_decide_eq_false_2, bool_decide_eq_true_2 by done. cbn [negb orb].
    destruct (cs_use_ssl (settings_of Redshift defaults o mode (Some i))) eqn:Hu; cbn [negb orb]; [|intros _; left; split; [by exists i|done]].
    destruct (create_startup_message _ _ _ _ _) as [m|[]] eqn:Hm; try done; intros _; right; eexists; (split; [|reflexivity]); done.
  - destruct (create_startup_message _ _ _ _ _) as [m|[]] eqn:Hm; try done; intros _; right; eexists; (split; [|reflexivity]); done.
Qed.

Definition plain_options : ConnectionOptions := {|
  o_host := Some (str "db"); o_port := None; o_database := None; o_user := Some (str "u"); o_password := Some (str "p");
  o_use_ssl := None; o_ssl_ca_file := None; o_ssl_ca_dir := None; o_ssl_use_system_trust_store := None; o_timeout := 15000;
  o_response_limits := response_limits default_settings; o_startup_response_limits := startup_response_limits default_settings;
  o_result_limits := result_limits default_settings; o_input_limits := input_limits default_settings;
  o_redshift_catalog_mode := Some (str "legacy"); o_application_name := None; o_read_only := true;
  o_varchar_threshold := None; o_long_varchar_size := None; o_boolean_as_character := true; o_detailed_table_types := None;
  o_catalog_database_scope := None; o_plugin_name := None; o_provider_name := None; o_token_type := None;
  o_identity_namespace := None; o_token := None |}.
Definition redshift_defaults : BackendConnectionDefaults :=
  {| d_host := str "localhost"; d_port := 5439; d_database := None; d_use_ssl := true |}.
Definition plain_settings : ConnectionSettings := Eval vm_compute in
  match resolve_connection_options Redshift redshift_defaults plain_options with Value s => s | Error _ => default_settings end.

Lemma resolved_options_accepted_witness :
  cs_port plain_settings = 5439 /\ refuse_settings Redshift plain_settings false = None.
Proof.
  split; [done|]. apply (resolved_options_accepted Redshift redshift_defaults plain_options). vm_compute. reflexivity.
Defined.
