(* ===== verification/PgCancel.v ===== *)
(** * Server cancellation

    [core/database/postgres/pg_cancel.cpp]: the endpoint through which another
    thread cancels the operation of a connection, [PgCancellation], and the
    exchange it makes on a transport of its own.

    The endpoint is shared by the thread that owns the connection and by the
    threads that call [request].  A section of code under the endpoint's mutex
    is one step of the machine below; what a thread does while it waits on the
    condition variable or talks to the server lies between two steps, so every
    interleaving is a list of steps.  [CancellationWait] is modelled with it.

    The transport of the exchange is an environment with the operations of
    [Peer] and [Connector]. *)

From S2P Require Import Prelude Utf8 PgWire PgMarkers PgIeee PgRequest PgResult Scram PgAuth Backend Connection Response PgSession SessionSync PgConnect ConnectSafety.

(** ** The deadline a request tightens *)

(** A clock reading, in ticks of the 64-bit representation. *)
Definition kMaxTicks : Z := 2 ^ 63 - 1.
Definition kMinTicks : Z := - 2 ^ 63.
Definition kBudget : Z := 5 * 1000000000.

(** [CancellationWait::freeze]: the cutoff is set once. *)
Definition freeze (original now cutoff : Z) : option Z :=
  if (now =? kMinTicks) || (now =? kMaxTicks) || (original <=? now) then None
  else if kMaxTicks - kBudget <? now then None
  else if cutoff =? kMaxTicks then Some (Z.min original (now + kBudget)) else None.

(** [CancellationWait::effective]. *)
Definition effective (original cutoff : Z) : Z := Z.min original cutoff.

(** ** The endpoint *)

Inductive Phase := BeforeWire | Writing | Running | Finished | Resolver.
#[export] Instance Phase_eq_dec : EqDecision Phase. Proof. solve_decision. Defined.

Record PgCancellation := MkCancellation {
  cutoff_ : Z;
  original_ : Z;
  generation_ : Z;
  phase_ : Phase;
  sealed_ : bool;
  claimed_ : bool;
  secondary_done_ : bool;
  secondary_ok_ : bool;
  local_after_ready_ : bool;
  error_seen_ : bool;
  error_before_claim_ : bool;
  cancelled_error_ : bool;
  escaped_ : bool;
  uncertain_ : bool;
  confirmed_ : bool;
  retire_ : bool;
}.

Definition set_cutoff (v : Z) (x : PgCancellation) : PgCancellation :=
  let '(MkCancellation _ b c d e f g h i j k l m n o p) := x in MkCancellation v b c d e f g h i j k l m n o p.
Definition set_phase (v : Phase) (x : PgCancellation) : PgCancellation :=
  let '(MkCancellation a b c _ e f g h i j k l m n o p) := x in MkCancellation a b c v e f g h i j k l m n o p.
Definition set_sealed (v : bool) (x : PgCancellation) : PgCancellation :=
  let '(MkCancellation a b c d _ f g h i j k l m n o p) := x in MkCancellation a b c d v f g h i j k l m n o p.
Definition set_claimed (v : bool) (x : PgCancellation) : PgCancellation :=
  let '(MkCancellation a b c d e _ g h i j k l m n o p) := x in MkCancellation a b c d e v g h i j k l m n o p.
Definition set_secondary_done (v : bool) (x : PgCancellation) : PgCancellation :=
  let '(MkCancellation a b c d e f _ h i j k l m n o p) := x in MkCancellation a b c d e f v h i j k l m n o p.
Definition set_secondary_ok (v : bool) (x : PgCancellation) : PgCancellation :=
  let '(MkCancellation a b c d e f g _ i j k l m n o p) := x in MkCancellation a b c d e f g v i j k l m n o p.
Definition set_local_after_ready (v : bool) (x : PgCancellation) : PgCancellation :=
  let '(MkCancellation a b c d e f g h _ j k l m n o p) := x in MkCancellation a b c d e f g h v j k l m n o p.
Definition set_error_seen (v : bool) (x : PgCancellation) : PgCancellation :=
  let '(MkCancellation a b c d e f g h i _ k l m n o p) := x in MkCancellation a b c d e f g h i v k l m n o p.
Definition set_error_before_claim (v : bool) (x : PgCancellation) : PgCancellation :=
  let '(MkCancellation a b c d e f g h i j _ l m n o p) := x in MkCancellation a b c d e f g h i j v l m n o p.
Definition set_cancelled_error (v : bool) (x : PgCancellation) : PgCancellation :=
  let '(MkCancellation a b c d e f g h i j k _ m n o p) := x in MkCancellation a b c d e f g h i j k v m n o p.
Definition set_escaped (v : bool) (x : PgCancellation) : PgCancellation :=
  let '(MkCancellation a b c d e f g h i j k l _ n o p) := x in MkCancellation a b c d e f g h i j k l v n o p.
Definition set_uncertain (v : bool) (x : PgCancellation) : PgCancellation :=
  let '(MkCancellation a b c d e f g h i j k l m _ o p) := x in MkCancellation a b c d e f g h i j k l m v o p.
Definition set_confirmed (v : bool) (x : PgCancellation) : PgCancellation :=
  let '(MkCancellation a b c d e f g h i j k l m n _ p) := x in MkCancellation a b c d e f g h i j k l m n v p.
Definition set_retire (v : bool) (x : PgCancellation) : PgCancellation :=
  let '(MkCancellation a b c d e f g h i j k l m n o _) := x in MkCancellation a b c d e f g h i j k l m n o v.

(** A new endpoint. *)
Definition new_cancellation (original generation : Z) : PgCancellation :=
  MkCancellation kMaxTicks original generation BeforeWire false false false false false false false false false false false false.

Definition cutoff_of (x : PgCancellation) : Z := effective (original_ x) (cutoff_ x).
Definition outcome (x : PgCancellation) : CancellationOutcome :=
  {| claimed := claimed_ x; confirmed := confirmed_ x; retire := retire_ x |}.

(** *** The hooks of the owner *)

Definition is_phase (p : Phase) (x : PgCancellation) : bool := bool_decide (phase_ x = p).

Definition enter_resolver_hook (x : PgCancellation) : PgCancellation * bool :=
  if sealed_ x || claimed_ x || error_before_claim_ x || negb (is_phase Finished x) then (x, false)
  else (set_phase Resolver x, true).
Definition leave_resolver_hook (x : PgCancellation) : PgCancellation :=
  if negb (sealed_ x) && is_phase Resolver x then set_phase Finished x else x.
Definition next_phase_hook (x : PgCancellation) : PgCancellation * bool :=
  let x := if claimed_ x && local_after_ready_ x && negb (error_before_claim_ x) then set_confirmed true x else x in
  if sealed_ x || claimed_ x || error_before_claim_ x then (x, false) else (set_phase BeforeWire x, true).
Definition before_wire_hook (x : PgCancellation) : PgCancellation * bool :=
  if sealed_ x || claimed_ x then (x, false) else (set_phase Writing x, true).
Definition sent_hook (x : PgCancellation) : PgCancellation := set_phase Running x.
Definition error_observed_hook (native_state : bytes) (x : PgCancellation) : PgCancellation :=
  let x := if error_seen_ x then x else set_error_before_claim (negb (claimed_ x)) x in
  let x := set_error_seen true x in
  set_cancelled_error (claimed_ x && negb (error_before_claim_ x) && beq native_state (str "57014")) x.

(** Both wait for a claimed request that is not done. *)
Definition must_wait (x : PgCancellation) : bool := claimed_ x && negb (secondary_done_ x).
Definition drained_enter (x : PgCancellation) : PgCancellation := set_phase Finished x.
Definition drained_leave (legal_ready : bool) (now : Z) (x : PgCancellation) : PgCancellation * CancellationOutcome :=
  let x := if must_wait x then set_uncertain true x else x in
  let x := set_confirmed (claimed_ x && legal_ready && cancelled_error_ x && secondary_ok_ x && (now <? cutoff_of x)) x in
  let x := set_retire (claimed_ x && (uncertain_ x || (escaped_ x && negb (confirmed_ x)))) x in
  (x, outcome x).
Definition seal_enter (x : PgCancellation) : PgCancellation := set_phase Finished (set_sealed true x).
Definition seal_leave (x : PgCancellation) : PgCancellation * CancellationOutcome :=
  let x := if must_wait x then set_retire true (set_uncertain true x) else x in (x, outcome x).

(** *** The request *)

(** Where the thread whose request was claimed is: waiting for the owner's write
    to end, in the exchange before the cancel packet, and from the packet on. *)
Inductive Position := NoRequest | AwaitingWrite | Exchanging | PacketOut.
#[export] Instance Position_eq_dec : EqDecision Position. Proof. solve_decision. Defined.

Definition request_done (ok : bool) (x : PgCancellation) : PgCancellation :=
  set_secondary_ok ok (set_secondary_done true x).

(** The rest of a claimed request once the phase is not [Writing]. *)
Definition claimed_running (x : PgCancellation) : PgCancellation * Position * option bool :=
  if negb (is_phase Running x) then (set_secondary_done true x, NoRequest, Some false) else (x, Exchanging, None).

(** [request], up to its end or to where it gives up the mutex. *)
Definition request_enter (now : Z) (x : PgCancellation) : PgCancellation * Position * option bool :=
  if generation_ x =? 0 then (x, NoRequest, Some false)
  else if sealed_ x then (x, NoRequest, Some true)
  else if is_phase Resolver x then (x, NoRequest, Some false)
  else if error_before_claim_ x then (x, NoRequest, Some false)
  else if claimed_ x then (x, NoRequest, Some (secondary_done_ x && secondary_ok_ x))
  else
    match freeze (original_ x) now (cutoff_ x) with
    | None => (x, NoRequest, Some false)
    | Some cutoff =>
        let x := set_claimed true (set_cutoff cutoff x) in
        if is_phase Finished x then (request_done true (set_local_after_ready true x), NoRequest, Some true)
        else if is_phase BeforeWire x then (set_confirmed true (request_done true x), NoRequest, Some true)
        else if is_phase Writing x then (x, AwaitingWrite, None)
        else claimed_running x
    end.

(** After the wait for the write; [false] when it timed out. *)
Definition request_written (x : PgCancellation) : PgCancellation * Position * option bool :=
  if is_phase Writing x then
    (set_retire true (set_uncertain true (set_secondary_done true x)), NoRequest, Some false)
  else claimed_running x.

Definition request_exchanged (ok : bool) (x : PgCancellation) : PgCancellation :=
  let x := set_uncertain (negb ok) (request_done ok x) in if ok then x else set_retire true x.
Definition request_threw (x : PgCancellation) : PgCancellation :=
  set_retire true (set_uncertain true (set_secondary_done true x)).

(** ** The machine *)

Inductive Owner := Free | InDrained (legal_ready : bool) | InSeal.
Record World := { endpoint : PgCancellation; requester : Position; owner_at : Owner }.

Inductive Act :=
| EnterResolver | LeaveResolver | NextPhase | BeforeWireAct | SentAct | ErrorObserved (native_state : bytes)
| Drain (legal_ready : bool) | Drained (now : Z) | Seal | Sealed (now : Z)
| Request (now : Z) | Written (now : Z) | Escape | Exchanged (ok : bool) | Threw.

#[export] Instance Act_eq_dec : EqDecision Act. Proof. solve_decision. Defined.

Inductive Answer := Unit | Flag (b : bool) | Outcome (o : CancellationOutcome).

Definition owner_does (w : World) (x : PgCancellation) (a : Answer) : option (World * Answer) :=
  match owner_at w with
  | Free => Some ({| endpoint := x; requester := requester w; owner_at := Free |}, a)
  | _ => None
  end.
Definition at_position (w : World) (p : Position) (r : World * Answer) : option (World * Answer) :=
  if bool_decide (requester w = p) then Some r else None.

(** One step, [None] where the thread is not there.  The waits end when what they
    wait for has happened or the cutoff has passed. *)
Definition step (a : Act) (w : World) : option (World * Answer) :=
  let x := endpoint w in
  let goes x p := {| endpoint := x; requester := p; owner_at := owner_at w |} in
  match a with
  | EnterResolver => let '(x, b) := enter_resolver_hook x in owner_does w x (Flag b)
  | LeaveResolver => owner_does w (leave_resolver_hook x) Unit
  | NextPhase => let '(x, b) := next_phase_hook x in owner_does w x (Flag b)
  | BeforeWireAct => let '(x, b) := before_wire_hook x in owner_does w x (Flag b)
  | SentAct => owner_does w (sent_hook x) Unit
  | ErrorObserved st => owner_does w (error_observed_hook st x) Unit
  | Drain legal =>
      match owner_at w with
      | Free => Some ({| endpoint := drained_enter x; requester := requester w; owner_at := InDrained legal |}, Unit)
      | _ => None
      end
  | Drained now =>
      match owner_at w with
      | InDrained legal =>
          if must_wait x && (now <? cutoff_of x) then None
          else
            let '(x, o) := drained_leave legal now x in
            Some ({| endpoint := x; requester := requester w; owner_at := Free |}, Outcome o)
      | _ => None
      end
  | Seal =>
      match owner_at w with
      | Free => Some ({| endpoint := seal_enter x; requester := requester w; owner_at := InSeal |}, Unit)
      | _ => None
      end
  | Sealed now =>
      match owner_at w with
      | InSeal =>
          if must_wait x && (now <? cutoff_of x) then None
          else
            let '(x, o) := seal_leave x in
            Some ({| endpoint := x; requester := requester w; owner_at := Free |}, Outcome o)
      | _ => None
      end
  | Request now =>
      let '(x, p, r) := request_enter now x in
      Some (goes x (if bool_decide (p = NoRequest) then requester w else p),
            match r with Some b => Flag b | None => Unit end)
  | Written now =>
      if is_phase Writing x && (now <? cutoff_of x) then None
      else
        let '(x, p, r) := request_written x in
        at_position w AwaitingWrite (goes x p, match r with Some b => Flag b | None => Unit end)
  | Escape => at_position w Exchanging (goes (set_escaped true x) PacketOut, Unit)
  | Exchanged ok =>
      if ok && negb (bool_decide (requester w = PacketOut)) then None
      else
        match requester w with
        | Exchanging | PacketOut => Some (goes (request_exchanged ok x) NoRequest, Flag ok)
        | _ => None
        end
  | Threw =>
      match requester w with
      | Exchanging | PacketOut => Some (goes (request_threw x) NoRequest, Flag false)
      | _ => None
      end
  end.

Fixpoint run (acts : list Act) (w : World) : option (World * list Answer) :=
  match acts with
  | [] => Some (w, [])
  | a :: acts =>
      match step a w with
      | Some (w, r) => match run acts w with Some (w, rs) => Some (w, r :: rs) | None => None end
      | None => None
      end
  end.

Definition fresh (original generation : Z) : World :=
  {| endpoint := new_cancellation original generation; requester := NoRequest; owner_at := Free |}.

(** ** What holds in every interleaving *)

Record consistent (w : World) : Prop := {
  (** a claimed request is done or its thread is under way *)
  con_waits : must_wait (endpoint w) = true <-> requester w <> NoRequest;
  con_escaped : escaped_ (endpoint w) = true -> claimed_ (endpoint w) = true;
  con_packet : escaped_ (endpoint w) = true -> secondary_done_ (endpoint w) = true \/ requester w = PacketOut;
  con_done : secondary_done_ (endpoint w) = true -> claimed_ (endpoint w) = true;
  con_resolver : phase_ (endpoint w) = Resolver -> claimed_ (endpoint w) = false;
}.

Lemma fresh_consistent original generation : consistent (fresh original generation).
Proof. by split. Qed.

(** Case analysis of [Hs : step a w = Some _] on a world with its fields laid out. *)
Ltac unfold_step Hs :=
  unfold step, enter_resolver_hook, leave_resolver_hook, next_phase_hook, before_wire_hook, sent_hook, error_observed_hook,
    drained_enter, drained_leave, seal_enter, seal_leave, request_enter, request_written, claimed_running,
    request_exchanged, request_threw, request_done, owner_does, at_position, must_wait, is_phase, cutoff_of, outcome in Hs;
  cbn in Hs.
Ltac cases_in Hs :=
  try discriminate Hs;
  repeat (match type of Hs with
          | context [match ?b with _ => _ end] =>
              lazymatch b with context [match _ with _ => _ end] => fail | _ => destruct b eqn:? end
          end; cbn in Hs; try discriminate Hs).
Ltac bool_facts :=
  repeat match goal with
  | H : _ || _ = false |- _ => apply orb_false_iff in H as [? ?]
  | H : _ && _ = true |- _ => apply andb_true_iff in H as [? ?]
  | H : negb _ = true |- _ => apply negb_true_iff in H
  | H : negb _ = false |- _ => apply negb_false_iff in H
  | H : bool_decide _ = true |- _ => apply bool_decide_eq_true in H
  | H : bool_decide _ = false |- _ => apply bool_decide_eq_false in H
  end; subst.

Lemma step_consistent a w w' r : step a w = Some (w', r) -> consistent w -> consistent w'.
Proof.
  intros Hs [H1 H2 H3 H4 H5]. destruct w as [[] p o]. unfold must_wait in H1. cbn in H1, H2, H3, H4, H5.
  destruct a; unfold_step Hs; cases_in Hs; injection Hs as <- <-; bool_facts;
    (split; unfold must_wait; cbn; try done).
  all: try destruct claimed_0; try destruct secondary_done_0; try destruct escaped_0; cbn in *; try discriminate;
    clear - H1 H2 H3 H4 H5; intuition congruence.
Qed.

Lemma run_app acts1 acts2 w :
  run (acts1 ++ acts2) w =
  match run acts1 w with
  | Some (w1, rs1) => match run acts2 w1 with Some (w2, rs2) => Some (w2, rs1 ++ rs2) | None => None end
  | None => None
  end.
Proof.
  revert w. induction acts1 as [|a acts1 IH]; intros w; cbn.
  - by destruct (run acts2 w) as [[]|].
  - destruct (step a w) as [[w1 r]|]; [|done]. rewrite IH. destruct (run acts1 w1) as [[w2 rs]|]; [|done].
    by destruct (run acts2 w2) as [[]|].
Qed.

(** The last step of a run. *)
Lemma run_snoc acts a w w' rs :
  run (acts ++ [a]) w = Some (w', rs) ->
  exists w1 rs1 r, run acts w = Some (w1, rs1) /\ step a w1 = Some (w', r) /\ rs = rs1 ++ [r].
Proof.
  rewrite run_app. destruct (run acts w) as [[w1 rs1]|]; [|done]. cbn. destruct (step a w1) as [[w2 r]|] eqn:Hs; [|done].
  intros [= <- <-]. eauto 10.
Qed.

(** What holds at the start and is kept by every step [ok] allows holds after a run. *)
Lemma run_invariant (P : World -> Prop) (ok : Act -> Prop) :
  (forall a w w' r, ok a -> step a w = Some (w', r) -> P w -> P w') ->
  forall acts w w' rs, Forall ok acts -> run acts w = Some (w', rs) -> P w -> P w'.
Proof.
  intros Hstep acts. induction acts as [|a acts IH]; intros w w' rs Hok; cbn; [by intros [= <- <-]|].
  inv_forall. rename H into Ha.
  destruct (step a w) as [[w1 r]|] eqn:Hs; [|done]. destruct (run acts w1) as [[w2 rs2]|] eqn:Hr; [|done].
  intros [= <- <-] HP. eapply IH; [done|exact Hr|]. by eapply Hstep.
Qed.

Lemma run_consistent acts w w' rs : run acts w = Some (w', rs) -> consistent w -> consistent w'.
Proof.
  apply (run_invariant consistent (fun _ => True)); [|by apply list.Forall_forall].
  intros a w1 w2 r _. apply step_consistent.
Qed.

(** *** When a packet can still leave *)

(** No request is in its exchange, and none can enter it before the owner has
    sent again. *)
Definition quiet (w : World) : Prop :=
  phase_ (endpoint w) <> Running /\ requester w <> Exchanging /\ requester w <> PacketOut.
(** The same for good. *)
Definition shut (w : World) : Prop := sealed_ (endpoint w) = true /\ requester w = NoRequest.

Lemma quiet_step a w w' r : a <> SentAct -> step a w = Some (w', r) -> quiet w -> quiet w'.
Proof.
  intros Ha Hs (H1 & H2 & H3). destruct w as [[] p o]. cbn in H1, H2, H3.
  destruct a; try congruence; unfold_step Hs; cases_in Hs; injection Hs as <- <-; bool_facts; (split; [|split]; cbn; done).
Qed.

Lemma shut_step a w w' r : step a w = Some (w', r) -> shut w -> shut w'.
Proof.
  intros Hs [H1 H2]. destruct w as [[] p o]. cbn in H1, H2. subst.
  destruct a; unfold_step Hs; cases_in Hs; injection Hs as <- <-; by split.
Qed.

Lemma escape_requires w w' r : step Escape w = Some (w', r) -> requester w = Exchanging.
Proof. unfold step, at_position. by case_bool_decide. Qed.

Lemma quiet_until_sent pre post w w' rs :
  quiet w -> run (pre ++ Escape :: post) w = Some (w', rs) -> SentAct ∈ pre.
Proof.
  intros Hq Hr. destruct (decide (SentAct ∈ pre)) as [|Hn]; [done|exfalso]. rewrite run_app in Hr.
  destruct (run pre w) as [[w1 rs1]|] eqn:Hp; [|done].
  assert (quiet w1) as (_ & H & _).
  { eapply (run_invariant quiet (fun a => a <> SentAct)); [apply quiet_step| |exact Hp|done].
    apply list.Forall_forall. by intros a Ha ->. }
  cbn [run] in Hr. destruct (step Escape w1) as [[w2 r]|] eqn:Hs; [|done]. by apply escape_requires in Hs.
Qed.

Lemma shut_forever more w w' rs : shut w -> run more w = Some (w', rs) -> Escape ∉ more.
Proof.
  intros Hq Hr Hin. apply list_elem_of_split in Hin as (pre & post & ->). rewrite run_app in Hr.
  destruct (run pre w) as [[w1 rs1]|] eqn:Hp; [|done].
  assert (shut w1) as [_ H].
  { eapply (run_invariant shut (fun _ => True)); [intros a ? ? ? _; apply shut_step| |exact Hp|done].
    by apply list.Forall_forall. }
  cbn [run] in Hr. destruct (step Escape w1) as [[w2 r]|] eqn:Hs; [|done]. apply escape_requires in Hs. congruence.
Qed.

(** *** The two outcomes *)

Lemma drained_quarantine now w w' o :
  consistent w -> step (Drained now) w = Some (w', Outcome o) -> phase_ (endpoint w) = Finished -> retire o = false ->
  (escaped_ (endpoint w') = true -> confirmed o = true) /\ quiet w'.
Proof.
  intros [H1 H2 H3 H4 H5] Hs Hp Ho. destruct w as [[] p ow]. unfold must_wait in H1. cbn in H1, H2, H3, H4, H5, Hp.
  unfold_step Hs. cases_in Hs; injection Hs as <- <-; cbn in Ho; bool_facts; cbn.
  all: try destruct claimed_0; try destruct secondary_done_0; try destruct escaped_0; cbn in *; try discriminate.
  all: split; [intros Hx; bool_facts; first [discriminate Hx | assumption | by apply H2]|]; unfold quiet; cbn; (split; [done|]).
  all: assert (p = NoRequest) as -> by (destruct (decide (p = NoRequest)) as [|Hn]; [done|]; by apply H1 in Hn).
  all: done.
Qed.

Lemma sealed_shut now w w' o :
  consistent w -> step (Sealed now) w = Some (w', Outcome o) -> sealed_ (endpoint w) = true -> retire o = false -> shut w'.
Proof.
  intros [H1 _ _ _ _] Hs Hp Ho. destruct w as [[] p ow]. unfold must_wait in H1. cbn in H1, Hp.
  unfold_step Hs. cases_in Hs; injection Hs as <- <-; cbn in Ho; try discriminate.
  all: split; [done|]; cbn; destruct (decide (p = NoRequest)) as [|Hn]; [done|]; by apply H1 in Hn.
Qed.

(** While the owner waits. *)
Definition waits_finished (w : World) : Prop :=
  match owner_at w with
  | Free => True
  | InDrained _ => phase_ (endpoint w) = Finished
  | InSeal => sealed_ (endpoint w) = true
  end.

Lemma waits_step a w w' r : step a w = Some (w', r) -> waits_finished w -> waits_finished w'.
Proof.
  unfold waits_finished. intros Hs H. destruct w as [[] p o]. cbn in H.
  destruct a; unfold_step Hs; cases_in Hs; injection Hs as <- <-; bool_facts; cbn in *; try done.
  all: by destruct o.
Qed.

(** *** A confirmation is the server's answer to this request *)

Definition errors (acts : list Act) : list bytes :=
  omap (fun a => match a with ErrorObserved st => Some st | _ => None end) acts.

(** The request among [acts] that was claimed. *)
Definition claimed_by (w0 : World) (before : list Act) (now : Z) : Prop :=
  exists w1 rs1 w2 r, run before w0 = Some (w1, rs1) /\ step (Request now) w1 = Some (w2, r) /\
    claimed_ (endpoint w1) = false /\ claimed_ (endpoint w2) = true.

(** What the flags say of the history. *)
Record history (w0 : World) (acts : list Act) (w : World) : Prop := {
  his_seen : error_seen_ (endpoint w) = false -> errors acts = [];
  his_before : error_seen_ (endpoint w) = true -> claimed_ (endpoint w) = false -> error_before_claim_ (endpoint w) = true;
  his_claim : claimed_ (endpoint w) = true ->
    exists before now after, acts = before ++ Request now :: after /\ claimed_by w0 before now /\
      (error_before_claim_ (endpoint w) = false -> errors before = []);
  his_error : cancelled_error_ (endpoint w) = true ->
    claimed_ (endpoint w) = true /\ error_before_claim_ (endpoint w) = false /\ list.last (errors acts) = Some (str "57014");
}.

(** The four flags only change on a claim and on an error. *)
Lemma step_flags a w w' r :
  step a w = Some (w', r) ->
  match a with
  | ErrorObserved st => endpoint w' = error_observed_hook st (endpoint w)
  | _ =>
      error_seen_ (endpoint w') = error_seen_ (endpoint w) /\
      error_before_claim_ (endpoint w') = error_before_claim_ (endpoint w) /\
      cancelled_error_ (endpoint w') = cancelled_error_ (endpoint w) /\
      (claimed_ (endpoint w') = claimed_ (endpoint w) \/
       (exists now, a = Request now) /\ claimed_ (endpoint w) = false /\ claimed_ (endpoint w') = true /\
       error_before_claim_ (endpoint w) = false)
  end.
Proof.
  intros Hs. destruct w as [[] p o]. destruct a; unfold_step Hs; cases_in Hs; injection Hs as <- <-; bool_facts; cbn;
    try done; repeat (split; [done|]); try (by left); right; eauto.
Qed.

Lemma history_error w0 acts w st w' :
  history w0 acts w -> endpoint w' = error_observed_hook st (endpoint w) -> history w0 (acts ++ [ErrorObserved st]) w'.
Proof.
  intros [H1 H2 H3 H4] Hw.
  assert (errors (acts ++ [ErrorObserved st]) = errors acts ++ [st]) as He by (unfold errors; by rewrite omap_app).
  split; rewrite ?Hw, ?He; clear Hw; unfold error_observed_hook; destruct (endpoint w); cbn in *.
  - by destruct error_seen_0.
  - intros _ Hc. destruct error_seen_0; cbn in *; [by apply H2|by rewrite Hc].
  - intros Hc. assert (claimed_0 = true) as -> by by destruct error_seen_0.
    destruct (H3 eq_refl) as (b & n & af & -> & Hb & Hn). exists b, n, (af ++ [ErrorObserved st]).
    rewrite <- app_assoc. split; [done|]. split; [done|]. intros Hf. destruct error_seen_0; cbn in *; [by apply Hn|].
    specialize (H1 eq_refl). unfold errors in H1. rewrite omap_app in H1. by apply app_eq_nil in H1 as [? _].
  - intros Hc. rewrite list.last_snoc.
    destruct error_seen_0; cbn in *; bool_facts; (split; [done|]; split; [done|]); unfold beq in *; bool_facts; done.
Qed.

Lemma history_same w0 acts w a w' :
  history w0 acts w -> errors [a] = [] ->
  error_seen_ (endpoint w') = error_seen_ (endpoint w) -> error_before_claim_ (endpoint w') = error_before_claim_ (endpoint w) ->
  cancelled_error_ (endpoint w') = cancelled_error_ (endpoint w) -> claimed_ (endpoint w') = claimed_ (endpoint w) ->
  history w0 (acts ++ [a]) w'.
Proof.
  intros [H1 H2 H3 H4] Ha E1 E2 E3 E4.
  assert (errors (acts ++ [a]) = errors acts) as He by (unfold errors in *; by rewrite omap_app, Ha, app_nil_r).
  split; rewrite ?E1, ?E2, ?E3, ?E4, ?He; try done.
  intros Hc. destruct (H3 Hc) as (b & n & af & -> & Hb & Hn). exists b, n, (af ++ [a]). by rewrite <- app_assoc.
Qed.

Lemma history_step w0 acts rs w a w' r :
  run acts w0 = Some (w, rs) -> history w0 acts w -> step a w = Some (w', r) -> history w0 (acts ++ [a]) w'.
Proof.
  intros Hr Hh Hs. pose proof (step_flags _ _ _ _ Hs) as Hf.
  destruct a as [| | | | |st| | | | |now| | | |]; try (by destruct Hf as (? & ? & ? & [?|[[? [=]] _]]); apply history_same with w).
  - by apply history_error with w.
  - destruct Hf as (F1 & F2 & F3 & [F4|(_ & F4 & F5 & F6)]); [by apply history_same with w|].
    destruct Hh as [H1 H2 H3 H4].
    assert (errors (acts ++ [Request now]) = errors acts) as He by (unfold errors; by rewrite omap_app, app_nil_r).
    split; rewrite ?F1, ?F2, ?F3, ?F5, ?He; try done.
    + intros _. exists acts, now, []. split; [done|]. split; [by exists w, rs, w', r|]. intros _. apply H1.
      destruct (error_seen_ (endpoint w)); [|done]. rewrite H2 in F6; done.
    + intros Hc. destruct (H4 Hc) as [Hc' _]. congruence.
Qed.

Lemma run_history w0 acts w rs :
  history w0 [] w0 -> run acts w0 = Some (w, rs) -> history w0 acts w.
Proof.
  intros H0. revert w rs. induction acts as [|a acts IH] using rev_ind; intros w rs; [by intros [= <- <-]|].
  intros (w1 & rs1 & r & Hr & Hs & ->)%run_snoc. eapply history_step; [exact Hr|by eapply IH|exact Hs].
Qed.

Lemma fresh_history original generation : history (fresh original generation) [] (fresh original generation).
Proof. by split. Qed.

Lemma run_reachable original generation acts w rs :
  run acts (fresh original generation) = Some (w, rs) -> consistent w /\ waits_finished w.
Proof.
  intros Hr. split; [eapply run_consistent; [exact Hr|apply fresh_consistent]|].
  eapply (run_invariant waits_finished (fun _ => True)); [intros a ? ? ? _; apply waits_step| |exact Hr|done].
  by apply list.Forall_forall.
Qed.

(** C6.  Whatever the interleaving of the owner with cancelling threads: when
    [drained] returns and does not ask to retire the session, a cancel packet
    that has left is confirmed, and none leaves before the owner sends its next
    request; the confirmation means that the request was claimed before any
    error of the server was seen and that the last error seen is the server's
    query_canceled.  When [seal] returns and does not ask to retire the session,
    no packet ever leaves. *)
Theorem cancellation_quarantine (original generation : Z) (acts : list Act) (a : Act) (w : World) (rs : list Answer)
    (o : CancellationOutcome)
    (Hrun : run (acts ++ [a]) (fresh original generation) = Some (w, rs ++ [Outcome o])) :
  ((exists now, a = Drained now) ->
    (retire o = false ->
      (escaped_ (endpoint w) = true -> confirmed o = true) /\
      (forall pre post w' rs', run (pre ++ Escape :: post) w = Some (w', rs') -> SentAct ∈ pre)) /\
    (confirmed o = true ->
      exists before now after, acts = before ++ Request now :: after /\
        claimed_by (fresh original generation) before now /\ errors before = [] /\
        list.last (errors after) = Some (str "57014"))) /\
  ((exists now, a = Sealed now) -> retire o = false ->
    forall more w' rs', run more w = Some (w', rs') -> Escape ∉ more).
Proof.
  destruct (run_snoc _ _ _ _ _ Hrun) as (w1 & rs1 & r & Hr & Hs & Hrs). apply app_inj_tail in Hrs as [<- <-].
  destruct (run_reachable _ _ _ _ _ Hr) as [Hc Hw].
  split; intros [now ->].
  - split.
    + intros Ho. destruct (drained_quarantine now w1 w o) as [H1 H2]; [done|done| |done|].
      { unfold waits_finished in Hw. cbn in Hs. by destruct (owner_at w1). }
      split; [done|]. intros pre post w' rs'. by apply quiet_until_sent.
    + intros Hcf. destruct (run_history _ _ _ _ (fresh_history original generation) Hr) as [_ _ H3 H4].
      assert (cancelled_error_ (endpoint w1) = true) as He.
      { clear - Hs Hcf. destruct w1 as [[] p ow]. unfold_step Hs. cases_in Hs; injection Hs as <- <-; cbn in Hcf; by bool_facts. }
      destruct (H4 He) as (Hcl & Hb & Hl). destruct (H3 Hcl) as (before & t & after & -> & Hby & Hn).
      exists before, t, after. split; [done|]. split; [done|]. specialize (Hn Hb). split; [done|].
      unfold errors in *. rewrite omap_app, Hn in Hl. done.
  - intros Ho more w' rs'. apply shut_forever. eapply sealed_shut; [exact Hc|exact Hs| |done].
    unfold waits_finished in Hw. cbn in Hs. by destruct (owner_at w1).
Qed.

(** The owner sends, a thread requests the cancellation and sends its packet,
    the server answers query_canceled, and the owner drains. *)
Definition cancelled_run : list Act :=
  [BeforeWireAct; SentAct; Request 10; Escape; ErrorObserved []; ErrorObserved (str "57014"); Drain true; Exchanged true].

Definition cancelled_answers : list Answer := [Flag true; Unit; Unit; Unit; Unit; Unit; Unit; Flag true].
Definition cancelled_outcome : CancellationOutcome := {| claimed := true; confirmed := true; retire := false |}.

Definition cancelled_world : World := Eval vm_compute in
  match run (cancelled_run ++ [Drained 20]) (fresh 1000 1) with Some (w, _) => w | None => fresh 0 0 end.

Lemma cancellation_quarantine_witness :
  escaped_ (endpoint cancelled_world) = true /\
  (forall pre post w' rs', run (pre ++ Escape :: post) cancelled_world = Some (w', rs') -> SentAct ∈ pre) /\
  exists before now after, cancelled_run = before ++ Request now :: after /\
    claimed_by (fresh 1000 1) before now /\ errors before = [] /\ list.last (errors after) = Some (str "57014").
Proof.
  split; [done|].
  destruct (cancellation_quarantine 1000 1 cancelled_run (Drained 20) cancelled_world cancelled_answers cancelled_outcome)
    as [H _]; [vm_compute; reflexivity|].
  destruct H as [H1 H2]; [by exists 20|]. split; [apply (H1 eq_refl)|apply (H2 eq_refl)].
Defined.

(** At most one packet leaves an endpoint, and none while the owner resolves types. *)
Definition packets (acts : list Act) : nat := length (List.filter (fun a => bool_decide (a = Escape)) acts).

Lemma packets_app acts1 acts2 : packets (acts1 ++ acts2) = (packets acts1 + packets acts2)%nat.
Proof. unfold packets. by rewrite List.filter_app, length_app. Qed.

Lemma one_packet original generation acts w rs :
  run acts (fresh original generation) = Some (w, rs) -> packets acts = if escaped_ (endpoint w) then 1%nat else 0%nat.
Proof.
  revert w rs. induction acts as [|a acts IH] using rev_ind; intros w rs; [by intros [= <- <-]|].
  intros (w1 & rs1 & r & Hr & Hs & ->)%run_snoc. rewrite packets_app, (IH _ _ Hr).
  destruct (run_reachable _ _ _ _ _ Hr) as [[H1 H2 H3 H4 H5] _]. clear IH Hr.
  destruct w1 as [[] p o]. unfold must_wait in H1. cbn in *.
  destruct a; unfold_step Hs; cases_in Hs; injection Hs as <- <-; bool_facts; cbn;
    rewrite ?Nat.add_0_r; try done.
  destruct secondary_done_0, escaped_0, claimed_0; cbn in *; clear - H1 H2 H3; intuition congruence.
Qed.

Lemma resolver_undisturbed original generation acts w rs :
  run acts (fresh original generation) = Some (w, rs) -> phase_ (endpoint w) = Resolver -> step Escape w = None.
Proof.
  intros Hr Hp. destruct (run_reachable _ _ _ _ _ Hr) as [[H1 _ _ _ H5] _]. specialize (H5 Hp).
  cbn. unfold at_position. case_bool_decide as Hx; [|done]. unfold must_wait in H1. rewrite H5, Hx in H1. cbn in H1. by destruct H1 as [_ H1]; discriminate H1.
Qed.
