(* ===== verification/ConnString.v ===== *)
(** * Connection strings and DSN configuration

    [src/odbc/connection_string.cpp] on a POSIX system: the connection string
    parser, the INI reader, the search for DSN and driver configuration, and
    [resolve], which layers driver defaults, DSN and connection string.

    A [std::map] is a finite map.  The process environment and the files are the
    record [System]: [getenv] gives the empty string for an unset variable, as
    [environment_value] does, and [open_file] the content of a readable file. *)

From S2P Require Import Prelude.

Abbreviation params := (gmap bytes bytes).

Record System := {
  getenv : bytes -> bytes;
  open_file : bytes -> option bytes;
}.

(** ** Text *)

(** [" \t\r\n"]. *)
Definition blank (c : Z) : bool := (c =? 32) || (c =? 9) || (c =? 13) || (c =? 10).

Definition trim (s : bytes) : bytes := trim_by blank s.
Definition to_upper (s : bytes) : bytes := map toupper s.

(** ** The connection string *)

(** A braced value after its opening brace: the value and what follows it. *)
Fixpoint braced (s : bytes) : option (bytes * bytes) :=
  match s with
  | [] => None
  | c :: t =>
      if negb (c =? ch "}") then '(v, rest) ← braced t; Some (c :: v, rest)
      else
        match t with
        | d :: t' =>
            if d =? ch "}" then '(v, rest) ← braced t'; Some (ch "}" :: v, rest) else Some ([], t)
        | [] => Some ([], t)
        end
  end.

Definition not_semicolon (c : Z) : bool := negb (c =? ch ";").

(** The value that starts the text and what follows it, from a semicolon on. *)
Definition parse_value (t : bytes) : res (bytes * bytes) :=
  match t with
  | c :: t' =>
      if c =? ch "{" then
        match braced t' with
        | None => Throw (invalid_argument "Unterminated braced connection string value")
        | Some (v, rest) =>
            match drop_while isspace rest with
            | d :: rest' =>
                if negb (d =? ch ";")
                then Throw (invalid_argument "Unexpected text after braced connection string value")
                else Ok (v, d :: rest')
            | [] => Ok (v, [])
            end
        end
      else let '(v, rest) := span not_semicolon t in Ok (trim v, rest)
  | [] => Ok ([], [])
  end.

(** [try_emplace]: the first value of a key stays. *)
Definition try_emplace (k v : bytes) (ps : params) : params :=
  match ps !! k with Some _ => ps | None => <[k := v]> ps end.

(** The position of the equals sign of the first pair, unless a semicolon comes
    before it. *)
Definition pair_at (s : bytes) : option nat :=
  match find_char (ch "=") s, find_char (ch ";") s with
  | Some equals, Some separator => if (separator <? equals)%nat then None else Some equals
  | equals, _ => equals
  end.

Definition parse_step (st : bytes * params) : (bytes * params) + res params :=
  let '(s, ps) := st in
  match s with
  | [] => inr (Ok ps)
  | _ =>
      match pair_at s with
      | None =>
          match find_char (ch ";") s with
          | None => inr (Ok ps)
          | Some separator => inl (drop (S separator) s, ps)
          end
      | Some equals =>
          match parse_value (drop_while isspace (drop (S equals) s)) with
          | Throw e => inr (Throw e)
          | Ok (v, rest) =>
              let key := trim (take equals s) in
              inl (tail rest, if beq key [] then ps else try_emplace (to_upper key) v ps)
          end
      end
  end.

Definition parse (conn_str : bytes) : res params :=
  match find_char 0 conn_str with
  | Some _ => Throw (invalid_argument "Connection string contains an embedded NUL byte")
  | None => run unread parse_step (conn_str, ∅)
  end.

(** ** INI files *)

(** The lines [std::getline] delivers. *)
Definition getlines (content : bytes) : list bytes :=
  let pieces := split_on 10 content in
  match rev pieces with
  | [] :: _ => removelast pieces
  | _ => pieces
  end.

Definition ini_line (target_section : bytes) (st : bool * params) (line : bytes) : bool * params :=
  let '(in_section, ps) := st in
  let line := trim line in
  match line with
  | [] => st
  | c :: _ =>
      if (c =? ch "#") || (c =? ch ";") then st
      else if c =? ch "[" then (beq (to_upper line) (to_upper target_section), ps)
      else if in_section then
        match find_char (ch "=") line with
        | Some eq_pos =>
            (in_section, <[to_upper (trim (take eq_pos line)) := trim (drop (S eq_pos) line)]> ps)
        | None => st
        end
      else st
  end.

Definition parse_ini_section (content section_name : bytes) : params :=
  let target_section := str "[" ++ section_name ++ str "]" in
  (foldl (ini_line target_section) (false, ∅) (getlines content)).2.

(** ** Where configuration is looked for *)

Section Files.
Context (sys : System).

Definition environment_value (name : bytes) : bytes := getenv sys name.

Definition unless_empty (s : bytes) (l : list bytes) : list bytes :=
  match s with [] => [] | _ => l end.

Definition get_dsn_file_paths : list bytes :=
  let odbcini := environment_value (str "ODBCINI") in
  let odbcsysini := environment_value (str "ODBCSYSINI") in
  let home := environment_value (str "HOME") in
  unless_empty odbcini [odbcini] ++
  unless_empty odbcsysini [odbcsysini ++ str "/odbc.ini"] ++
  [str "/etc/odbc.ini"; str "/usr/local/etc/odbc.ini"] ++
  unless_empty home [home ++ str "/.odbc.ini"].

(** [std::filesystem::path::operator/] for a relative right-hand side. *)
Definition path_append (a b : bytes) : bytes :=
  match rev a with
  | c :: _ => if c =? ch "/" then a ++ b else a ++ ch "/" :: b
  | [] => b
  end.

Definition is_absolute (p : bytes) : bool := match p with c :: _ => c =? ch "/" | [] => false end.

Definition get_driver_file_paths : list bytes :=
  let odbcsysini := environment_value (str "ODBCSYSINI") in
  let odbcinstini := environment_value (str "ODBCINSTINI") in
  unless_empty odbcinstini
    [if is_absolute odbcinstini || beq odbcsysini [] then odbcinstini
     else path_append odbcsysini odbcinstini] ++
  unless_empty odbcsysini [odbcsysini ++ str "/odbcinst.ini"] ++
  [str "/etc/odbcinst.ini"; str "/usr/local/etc/odbcinst.ini"].

Definition read_dsn_file (file_path dsn_name : bytes) : params :=
  match open_file sys file_path with
  | None => ∅
  | Some content => parse_ini_section content dsn_name
  end.

(** The first of the files that has the section. *)
Fixpoint first_section (paths : list bytes) (section_name : bytes) : params :=
  match paths with
  | [] => ∅
  | path :: paths =>
      let ps := read_dsn_file path section_name in
      if bool_decide (ps = ∅) then first_section paths section_name else ps
  end.

Definition load_dsn (dsn_name : bytes) : params := first_section get_dsn_file_paths dsn_name.
Definition dsn_exists (dsn_name : bytes) : bool := negb (bool_decide (load_dsn dsn_name = ∅)).
Definition read_driver_config (driver_name : bytes) : params :=
  first_section get_driver_file_paths driver_name.
Definition driver_exists (driver_name : bytes) : bool :=
  negb (bool_decide (read_driver_config driver_name = ∅)).

(** ** Layers *)

Definition aliases : list (bytes * bytes) :=
  [(str "SERVER", str "HOST"); (str "DATABASE", str "DB"); (str "UID", str "USER");
   (str "PWD", str "PASSWORD"); (str "LOGINTIMEOUT", str "LT"); (str "QUERYTIMEOUT", str "QT")].

Definition overlay (target source : params) : params :=
  foldl (fun target '(primary, alias) =>
           match source !! primary, source !! alias with
           | Some v, _ => <[primary := v]> target
           | None, Some v => <[primary := v]> target
           | None, None => target
           end) (source ∪ target) aliases.

Record ResolvedConnectionParameters := {
  driver_parameters : params;
  dsn_parameters : params;
  connection_parameters : params;
  effective_parameters : params;
  dsn_name : bytes;
  driver_name : bytes;
}.

Definition resolve (dsn_or_connection_string default_driver_name : bytes)
    : res ResolvedConnectionParameters :=
  '(connection, dsn_name, dsn) ←
    match find_char (ch "=") dsn_or_connection_string with
    | Some _ =>
        connection ← parse dsn_or_connection_string;
        Ok (match connection !! str "DSN" with
            | Some name => (connection, name, load_dsn name)
            | None => (connection, [], ∅)
            end)
    | None => Ok (∅, dsn_or_connection_string, load_dsn dsn_or_connection_string)
    end;
  let effective := overlay (overlay ∅ dsn) connection in
  let driver_name := default default_driver_name (effective !! str "DRIVER") in
  let driver := match driver_name with [] => ∅ | _ => read_driver_config driver_name end in
  let driver := if bool_decide (driver = ∅) && negb (beq driver_name (str "ODBCPP"))
                then read_driver_config (str "ODBCPP") else driver in
  Ok {| driver_parameters := driver; dsn_parameters := dsn; connection_parameters := connection;
        effective_parameters := overlay (overlay (overlay ∅ driver) dsn) connection;
        dsn_name := dsn_name; driver_name := driver_name |}.

End Files.

Example parse_examples :
  parse (str "Driver={A;b}}c};;server = h ; SERVER=x;junk;=v;PWD={ p } ;UID=") =
  Ok (<[str "DRIVER" := str "A;b}c"]> (<[str "SERVER" := str "h"]>
      (<[str "PWD" := str " p "]> (<[str "UID" := []]> ∅)))) /\
  parse (str "A={b") = Throw (invalid_argument "Unterminated braced connection string value").
Proof. split; vm_compute; reflexivity. Qed.

(** ** Lemmas: the parser *)

Lemma braced_length s : forall v rest, braced s = Some (v, rest) -> (length rest < length s)%nat.
Proof.
  induction s as [s IH] using (induction_ltof1 _ (@length Z)). unfold ltof in IH.
  intros v rest. destruct s as [|c t]; cbn; [done|]. destruct (negb (c =? ch "}")).
  - destruct (braced t) as [[v' r']|] eqn:E; [|done]. intros [= _ <-].
    apply IH in E; cbn; lia.
  - destruct t as [|d t]; [intros [= _ <-]; cbn; lia|]. destruct (d =? ch "}").
    + destruct (braced t) as [[v' r']|] eqn:E; [|done]. intros [= _ <-]. apply IH in E; cbn; lia.
    + intros [= _ <-]. cbn. lia.
Qed.

Lemma parse_value_length t v rest : parse_value t = Ok (v, rest) -> (length rest <= length t)%nat.
Proof.
  unfold parse_value. destruct t as [|c t]; [by intros [= _ <-]|]. destruct (c =? ch "{").
  - destruct (braced t) as [[v' r]|] eqn:E; [|done]. apply braced_length in E.
    pose proof (drop_while_length isspace r). destruct (drop_while isspace r) as [|d r'].
    + intros [= _ <-]. cbn. lia.
    + destruct (negb _); [done|]. intros [= _ <-]. cbn in *. lia.
  - destruct (span not_semicolon (c :: t)) as [a r] eqn:E. intros [= _ <-].
    apply span_app in E. rewrite E, length_app. lia.
Qed.

Lemma tail_length {A} (l : list A) : (length (tail l) <= length l)%nat.
Proof. destruct l; cbn; lia. Qed.

#[export] Instance parse_decreases : Decreases unread parse_step.
Proof.
  intros [s ps] [s' ps']. unfold unread. cbn [fst parse_step]. destruct s as [|c s]; [done|].
  destruct (pair_at (c :: s)) as [equals|].
  - destruct (parse_value _) as [[v rest]|] eqn:E; [|done]. intros [= <- _].
    apply parse_value_length in E. pose proof (drop_while_length isspace (drop (S equals) (c :: s))).
    pose proof (tail_length rest). cbn [drop] in *. rewrite length_drop in *. cbn. lia.
  - destruct (find_char (ch ";") (c :: s)) as [k|]; [|done]. intros [= <- _].
    cbn [drop]. rewrite length_drop. cbn. lia.
Qed.

Definition parse_from : bytes * params -> res params := run unread parse_step.

Lemma parse_from_eq st : parse_from st = match parse_step st with inl st' => parse_from st' | inr r => r end.
Proof. apply run_eq. Qed.

Lemma find_char_app_r c s t : ~ In c s -> find_char c (s ++ t) = Nat.add (length s) <$> find_char c t.
Proof.
  induction s as [|d s IH]; intros H; cbn.
  - by destruct (find_char c t).
  - assert ((d =? c) = false) as -> by (apply Z.eqb_neq; intros ->; apply H; by left).
    rewrite IH by (intros ?; apply H; by right). by destruct (find_char c t).
Qed.

(** ** Writing connection strings *)

(** The braces' escape. *)
Definition escape_braces (v : bytes) : bytes :=
  flat_map (fun c => if c =? ch "}" then [ch "}"; ch "}"] else [c]) v.

Definition pair_text (kv : bytes * bytes) : bytes :=
  kv.1 ++ str "={" ++ escape_braces kv.2 ++ str "};".

(** A keyword that survives: not empty, without delimiters or surrounding blanks. *)
Definition keyword_ok (k : bytes) : Prop :=
  k <> [] /\ trim k = k /\ ~ In (ch "=") k /\ ~ In (ch ";") k /\ ~ In 0 k.

Lemma braced_escape v rest : head rest <> Some (ch "}") ->
  braced (escape_braces v ++ ch "}" :: rest) = Some (v, rest).
Proof.
  intros Hr. induction v as [|c v IH].
  - cbn. destruct rest as [|d rest]; [done|]. destruct (d =? ch "}") eqn:E; [|done]. zb. by subst.
  - change (escape_braces (c :: v)) with
      ((if c =? ch "}" then [ch "}"; ch "}"] else [c]) ++ escape_braces v).
    destruct (c =? ch "}") eqn:E; cbn [app braced]; rewrite ?E, IH; zb; by subst.
Qed.

Lemma parse_pair kv rest ps : keyword_ok kv.1 ->
  parse_from (pair_text kv ++ rest, ps) = parse_from (rest, try_emplace (to_upper kv.1) kv.2 ps).
Proof.
  intros (Hne & Ht & He & Hs & _). destruct kv as [k v]. cbn [fst snd] in *. unfold pair_text. cbn [fst snd].
  set (t := str "{" ++ escape_braces v ++ str "};" ++ rest).
  assert ((k ++ str "={" ++ escape_braces v ++ str "};") ++ rest = k ++ ch "=" :: t) as ->
    by (unfold t; by rewrite <- !app_assoc).
  assert (pair_at (k ++ ch "=" :: t) = Some (length k)) as Hpair.
  { unfold pair_at. rewrite !find_char_app_r by done. cbn [find_char Z.eqb Pos.eqb fmap option_fmap option_map].
    rewrite Nat.add_0_r. destruct (find_char (ch ";") t) as [n|]; [|done].
    change (Nat.add (length k) <$> (S <$> Some n)) with (Some (length k + S n)%nat). cbv iota beta.
    match goal with |- context [(?a <? ?b)%nat] => replace (a <? b)%nat with false end; [done|].
    symmetry. apply Nat.ltb_ge. lia. }
  rewrite parse_from_eq. unfold parse_step. rewrite Hpair. clear Hpair.
  destruct (k ++ ch "=" :: t) as [|x y] eqn:E; [by destruct k|]. rewrite <- E. clear x y E.
  replace (drop (S (length k)) (k ++ ch "=" :: t)) with t
    by (rewrite cons_middle, app_assoc; replace (S (length k)) with (length (k ++ [ch "="]))
          by (rewrite length_app; cbn; lia); by rewrite drop_app_length).
  rewrite take_app_length, Ht. unfold beq. rewrite bool_decide_false by done.
  unfold t. cbn [app str String.list_ascii_of_string map].
  change (drop_while isspace _) with (ch "{" :: escape_braces v ++ ch "}" :: ch ";" :: rest).
  unfold parse_value. cbn [Z.eqb Pos.eqb]. by rewrite braced_escape.
Qed.

Lemma parse_pairs kvs : Forall (fun kv => keyword_ok kv.1) kvs -> forall ps,
  parse_from (concat (map pair_text kvs), ps) =
  Ok (ps ∪ list_to_map (map (fun kv => (to_upper kv.1, kv.2)) kvs)).
Proof.
  induction 1 as [|kv kvs Hk _ IH]; intros ps; cbn [map concat].
  - rewrite parse_from_eq. cbn. f_equal. symmetry. apply map_union_empty.
  - rewrite parse_pair, IH by done. f_equal. unfold try_emplace.
    set (m := list_to_map _). change (list_to_map (_ :: _)) with (<[to_upper kv.1 := kv.2]> m).
    destruct (ps !! to_upper kv.1) eqn:E.
    + apply map_eq. intros i. rewrite !lookup_union, lookup_insert. case_decide as Hi; [|done].
      rewrite <- Hi, E. by destruct (m !! _).
    + rewrite <- insert_union_l, insert_union_r by done. done.
Qed.

(** ** Lemmas: layers *)

(** What one layer says about a key: its own value or, for a primary keyword,
    else the value of its alias. *)
Definition layer (source : params) (k : bytes) : option bytes :=
  match source !! k, find (fun p => beq p.1 k) aliases with
  | Some v, _ => Some v
  | None, Some p => source !! p.2
  | None, None => None
  end.

Lemma overlay_fold (source : params) k (l : list (bytes * bytes)) :
  NoDup l.*1 -> forall target : params,
  foldl (fun target '(primary, alias) =>
           match source !! primary, source !! alias with
           | Some v, _ => <[primary := v]> target
           | None, Some v => <[primary := v]> target
           | None, None => target
           end) target l !! k =
  match find (fun p => beq p.1 k) l with
  | Some p => match source !! k, source !! p.2 with
              | Some v, _ => Some v
              | None, Some v => Some v
              | None, None => target !! k
              end
  | None => target !! k
  end.
Proof.
  induction l as [|[primary alias] l IH]; intros Hnd target; [done|].
  rewrite fmap_cons in Hnd. apply list.NoDup_cons in Hnd as [Hnin Hnd]. cbn [foldl find fst snd] in *.
  rewrite IH by done. unfold beq at 2. case_bool_decide as Hk.
  - subst primary. destruct (find (fun p => beq p.1 k) l) as [p|] eqn:Ef.
    { apply find_some in Ef as [Hin Hp]. apply bool_decide_eq_true in Hp. destruct Hnin. rewrite <- Hp.
      apply list_elem_of_fmap. exists p. split; [done|]. by apply list_elem_of_In. }
    destruct (source !! k); [by rewrite lookup_insert_eq|].
    cbn [snd]. destruct (source !! alias); [by rewrite lookup_insert_eq|done].
  - destruct (find (fun p => beq p.1 k) l) as [p|]; [destruct (source !! k); [done|]; destruct (source !! p.2); [done|]|];
      destruct (source !! primary), (source !! alias); by rewrite ?lookup_insert_ne.
Qed.

Lemma overlay_lookup (target source : params) k :
  overlay target source !! k = match layer source k with Some v => Some v | None => target !! k end.
Proof.
  unfold overlay. rewrite overlay_fold by (apply (bool_decide_unpack _); vm_compute; exact I).
  rewrite lookup_union. unfold layer. destruct (find (fun p => beq p.1 k) aliases) as [p|].
  - destruct (source !! k), (source !! p.2); try done; by destruct (target !! k).
  - destruct (source !! k); by destruct (target !! k).
Qed.

Definition first_layer (layers : list params) (k : bytes) : option bytes :=
  foldr (fun l acc => match layer l k with Some v => Some v | None => acc end) None layers.

Lemma layer_empty k : layer ∅ k = None.
Proof. unfold layer. rewrite lookup_empty. destruct (find _ _) as [p|]; [apply lookup_empty|done]. Qed.

(** ** Properties *)

Lemma parse_no_nul s : ~ In 0 s -> parse s = parse_from (s, ∅).
Proof. intros H. unfold parse. by rewrite (proj2 (find_char_None 0 s) H). Qed.

Lemma pairs_no_nul kvs :
  Forall (fun kv => keyword_ok kv.1) kvs -> Forall (fun kv => ~ In 0 kv.2) kvs ->
  ~ In 0 (concat (map pair_text kvs)).
Proof.
  intros Hk Hv. rewrite List.Forall_forall in Hk, Hv. intros (t & Ht & Hin)%in_concat.
  apply in_map_iff in Ht as (kv & <- & Hkv). unfold pair_text in Hin.
  apply in_app_iff in Hin as [Hin|Hin]; [by apply (Hk kv Hkv)|].
  apply in_app_iff in Hin as [Hin|Hin]; [by destruct Hin as [|[|[]]]|].
  apply in_app_iff in Hin as [Hin|Hin]; [|by destruct Hin as [|[|[]]]].
  apply in_flat_map in Hin as (c & Hc & Hin). destruct (c =? ch "}"); [by destruct Hin as [|[|[]]]|].
  destruct Hin as [->|[]]. by apply (Hv kv Hkv).
Qed.

(** Braced values round-trip: writing keyword-value pairs with each value in
    braces and its closing braces doubled, and parsing the text, gives every
    value back exactly, whatever characters it has (semicolons, equals signs,
    braces, surrounding blanks, emptiness), under the keyword in upper case, the
    first occurrence of a keyword winning. *)
Theorem parse_braced_roundtrip (kvs : list (bytes * bytes)) :
  Forall (fun kv => keyword_ok kv.1) kvs -> Forall (fun kv => ~ In 0 kv.2) kvs ->
  parse (concat (map pair_text kvs)) = Ok (list_to_map (map (fun kv => (to_upper kv.1, kv.2)) kvs)).
Proof.
  intros Hk Hv. rewrite parse_no_nul by by apply pairs_no_nul.
  rewrite parse_pairs by done. f_equal. apply map_empty_union.
Qed.

Lemma parse_braced_roundtrip_witness :
  parse (str "Pwd={ a}};b };PWD={x};") = Ok {[str "PWD" := str " a};b "]}.
Proof.
  change (str "Pwd={ a}};b };PWD={x};")
    with (concat (map pair_text [(str "Pwd", str " a};b "); (str "PWD", str "x")])).
  rewrite parse_braced_roundtrip; [reflexivity| |].
  - do 2 (apply Forall_cons; [unfold keyword_ok; split_and!; try reflexivity; vm_compute; intuition discriminate|]).
    apply Forall_nil.
  - do 2 (apply Forall_cons; [vm_compute; intuition discriminate|]). apply Forall_nil.
Defined.

Lemma resolve_effective sys input driver r :
  resolve sys input driver = Ok r ->
  effective_parameters r =
    overlay (overlay (overlay ∅ (driver_parameters r)) (dsn_parameters r)) (connection_parameters r).
Proof. unfold resolve. by intros ([[c n] d] & _ & [= <-])%bind_Ok. Qed.

(** Precedence: for every keyword, the value in effect is the one of the
    connection string if it has one, else the DSN's, else the driver's
    defaults; where a keyword has an alias (HOST for SERVER, DB for DATABASE,
    USER for UID, PASSWORD for PWD, LT and QT for the timeouts), a layer's own
    spelling counts before its alias, and its alias still counts before every
    lower layer. *)
Theorem resolve_precedence (sys : System) (input default_driver_name : bytes)
    (r : ResolvedConnectionParameters) :
  resolve sys input default_driver_name = Ok r ->
  forall k, effective_parameters r !! k =
            first_layer [connection_parameters r; dsn_parameters r; driver_parameters r] k.
Proof.
  intros ->%resolve_effective k. rewrite !overlay_lookup, lookup_empty. unfold first_layer. cbn [foldr].
  done.
Qed.

Definition sample_system : System :=
  {| getenv := fun _ => [];
     open_file := fun path =>
       if beq path (str "/etc/odbc.ini") then Some (str "[d]" ++ [10] ++ str "Server = s" ++ [10] ++ str "Host=h")
       else None |}.

Lemma resolve_precedence_witness :
  exists r, resolve sample_system (str "DSN=D;HOST=x") (str "ODBCPP") = Ok r /\
    effective_parameters r !! str "SERVER" = Some (str "x").
Proof.
  destruct (resolve sample_system (str "DSN=D;HOST=x") (str "ODBCPP")) as [r|] eqn:E;
    [|exfalso; vm_compute in E; discriminate].
  exists r. split; [reflexivity|].
  rewrite (resolve_precedence sample_system (str "DSN=D;HOST=x") (str "ODBCPP") r E).
  vm_compute in E. injection E as <-. vm_compute. reflexivity.
Defined.

(** *** Sections *)

(** A line of an INI file: a section header, or a setting. *)
Inductive ini := Header (name : bytes) | Setting (key v : bytes).

Definition ini_text (l : ini) : bytes :=
  match l with
  | Header name => str "[" ++ name ++ str "]" ++ [10]
  | Setting key v => key ++ str "=" ++ v ++ [10]
  end.

(** Text that trimming leaves alone and that is on one line. *)
Definition plain (s : bytes) : Prop := trim s = s /\ ~ In 10 s.

Definition ini_ok (l : ini) : Prop :=
  match l with
  | Header name => ~ In 10 name
  | Setting key v =>
      key <> [] /\ plain (key ++ str "=" ++ v) /\ plain key /\ plain v /\ ~ In (ch "=") key /\
      (forall c, head key = Some c -> c <> ch "[" /\ c <> ch "#" /\ c <> ch ";")
  end.

(** The settings below the headers with this name, in any case. *)
Fixpoint section_settings (section : bytes) (inside : bool) (ls : list ini) : list (bytes * bytes) :=
  match ls with
  | [] => []
  | Header name :: ls => section_settings section (beq (to_upper name) (to_upper section)) ls
  | Setting key v :: ls =>
      (if inside then [(to_upper key, v)] else []) ++ section_settings section inside ls
  end.

Lemma getlines_cons line content : ~ In 10 line ->
  getlines (line ++ 10 :: content) = line :: getlines content.
Proof.
  intros Hl. assert (Forall (fun c => c <> 10) line) as Hf
    by (apply List.Forall_forall; by intros x Hx ->).
  unfold getlines. rewrite split_on_app by done.
  destruct (split_on 10 content) as [|p ps] eqn:E; [by destruct content; cbn in E; repeat case_match|].
  cbn [rev]. destruct (rev (p :: ps)) as [|q qs] eqn:Er.
  { apply (f_equal (@length bytes)) in Er. rewrite length_rev in Er. done. }
  change (rev (p :: ps)) with (rev ps ++ [p]) in Er. rewrite Er. cbn [app].
  destruct q; [|done]. done.
Qed.

Lemma drop_while_stop (p : Z -> bool) c s : p c = false -> drop_while p (c :: s) = c :: s.
Proof. intros H. cbn. by rewrite H. Qed.

Lemma trim_header name : trim (str "[" ++ name ++ str "]") = str "[" ++ name ++ str "]".
Proof.
  unfold trim, trim_by. change (str "[" ++ name ++ str "]") with (ch "[" :: name ++ [ch "]"]).
  rewrite drop_while_stop by done. cbn [rev]. rewrite rev_app_distr. cbn [rev app].
  rewrite drop_while_stop by done. cbn [rev]. rewrite rev_app_distr, rev_involutive. done.
Qed.

Lemma header_match name section :
  beq (to_upper (str "[" ++ name ++ str "]")) (to_upper (str "[" ++ section ++ str "]")) =
  beq (to_upper name) (to_upper section).
Proof.
  unfold beq, to_upper. rewrite !map_app. apply bool_decide_ext. split; [|by intros ->].
  by intros H%app_inv_head_iff%app_inv_tail_iff.
Qed.

Lemma ini_line_header section inside ps name :
  ini_line (str "[" ++ section ++ str "]") (inside, ps) (str "[" ++ name ++ str "]") =
  (beq (to_upper name) (to_upper section), ps).
Proof. unfold ini_line. rewrite trim_header. rewrite <- (header_match name section). done. Qed.

Lemma ini_line_setting target inside ps key v : ini_ok (Setting key v) ->
  ini_line target (inside, ps) (key ++ str "=" ++ v) =
  (inside, if inside then <[to_upper key := v]> ps else ps).
Proof.
  intros (Hne & [Ht _] & [Htk _] & [Htv _] & He & Hh). unfold ini_line. rewrite Ht.
  destruct key as [|c key]; [done|]. destruct (Hh c eq_refl) as (H1 & H2 & H3).
  set (line := (c :: key) ++ str "=" ++ v). assert (line = c :: key ++ ch "=" :: v) as El by done.
  rewrite El. repeat ztest. destruct inside; [|done]. rewrite <- El.
  assert (find_char (ch "=") line = Some (length (c :: key))) as ->.
  { unfold line. rewrite find_char_app_r by done.
    change (find_char (ch "=") (str "=" ++ v)) with (Some O). cbn [fmap option_fmap option_map].
    f_equal. lia. }
  unfold line. rewrite take_app_length, Htk.
  replace (drop (S (length (c :: key))) ((c :: key) ++ str "=" ++ v)) with v; [by rewrite Htv|].
  rewrite app_assoc. replace (S (length (c :: key))) with (length ((c :: key) ++ str "="))
    by (rewrite length_app; cbn; lia). by rewrite drop_app_length.
Qed.

Lemma ini_lines section ls : Forall ini_ok ls -> forall inside ps,
  (foldl (ini_line (str "[" ++ section ++ str "]")) (inside, ps) (getlines (concat (map ini_text ls)))).2 =
  foldl (fun m kv => <[kv.1 := kv.2]> m) ps (section_settings section inside ls).
Proof.
  induction 1 as [|l ls Hl _ IH]; intros inside ps; [done|]. cbn [map concat].
  destruct l as [name|key v]; cbn [ini_text].
  - replace ((str "[" ++ name ++ str "]" ++ [10]) ++ concat (map ini_text ls))
      with ((str "[" ++ name ++ str "]") ++ 10 :: concat (map ini_text ls)) by (by rewrite <- !app_assoc).
    rewrite getlines_cons.
    + cbn [foldl]. by rewrite ini_line_header, IH.
    + cbn in Hl. intros [Hin|[Hin|Hin]%in_app_iff]%in_app_iff; [by destruct Hin as [|[]]|done|by destruct Hin as [|[]]].
  - replace ((key ++ str "=" ++ v ++ [10]) ++ concat (map ini_text ls))
      with ((key ++ str "=" ++ v) ++ 10 :: concat (map ini_text ls)) by (by rewrite <- !app_assoc).
    rewrite getlines_cons by apply Hl. cbn [foldl]. rewrite ini_line_setting by done.
    rewrite IH. cbn [section_settings]. by destruct inside.
Qed.

(** Reading a section of an INI file gives exactly the settings below the
    headers of that name (compared without regard to case, and wherever they are
    in the file), with keys in upper case and the last setting of a key winning;
    settings of other sections and above the first header are ignored. *)
Theorem parse_ini_section_correct (ls : list ini) (section : bytes) :
  Forall ini_ok ls ->
  parse_ini_section (concat (map ini_text ls)) section =
  foldl (fun m kv => <[kv.1 := kv.2]> m) ∅ (section_settings section false ls).
Proof. intros H. unfold parse_ini_section. by apply ini_lines. Qed.

Lemma parse_ini_section_correct_witness :
  parse_ini_section (str "x=0" ++ [10] ++ str "[dsn]" ++ [10] ++ str "Uid=a" ++ [10] ++ str "uid=b" ++ [10]) (str "DSN") =
  {[str "UID" := str "b"]}.
Proof.
  change (str "x=0" ++ [10] ++ str "[dsn]" ++ [10] ++ str "Uid=a" ++ [10] ++ str "uid=b" ++ [10])
    with (concat (map ini_text [Setting (str "x") (str "0"); Header (str "dsn");
                                Setting (str "Uid") (str "a"); Setting (str "uid") (str "b")])).
  rewrite parse_ini_section_correct; [reflexivity|].
  repeat (apply Forall_cons; [try (vm_compute; intuition congruence)|]); [..|apply Forall_nil];
    unfold ini_ok, plain; split_and!; try reflexivity; try (vm_compute; intuition discriminate);
    intros c [= <-]; lia.
Defined.
