(* ===== verification/ResultTypes.v ===== *)
(** * ODBC type tables

    Models [odbc/result_types.cpp]: which C types an application may bind, which
    SQL types a column or a parameter may have, and which conversions between
    them the driver offers.  The codes are those of the ODBC headers [sql.h] and
    [sqlext.h]; a C interval type has the code of its SQL type. *)

From S2P Require Import Prelude.

(** ** The codes *)

Definition SQL_C_CHAR : Z := 1.
Definition SQL_C_NUMERIC : Z := 2.
Definition SQL_C_LONG : Z := 4.
Definition SQL_C_SHORT : Z := 5.
Definition SQL_C_FLOAT : Z := 7.
Definition SQL_C_DOUBLE : Z := 8.
Definition SQL_C_DATE : Z := 9.
Definition SQL_C_TIME : Z := 10.
Definition SQL_C_TIMESTAMP : Z := 11.
Definition SQL_C_TYPE_DATE : Z := 91.
Definition SQL_C_TYPE_TIME : Z := 92.
Definition SQL_C_TYPE_TIMESTAMP : Z := 93.
Definition SQL_C_DEFAULT : Z := 99.
Definition SQL_C_BINARY : Z := -2.
Definition SQL_C_BIT : Z := -7.
Definition SQL_C_TINYINT : Z := -6.
Definition SQL_C_WCHAR : Z := -8.
Definition SQL_C_GUID : Z := -11.
Definition SQL_C_SSHORT : Z := -15.
Definition SQL_C_SLONG : Z := -16.
Definition SQL_C_USHORT : Z := -17.
Definition SQL_C_ULONG : Z := -18.
Definition SQL_C_SBIGINT : Z := -25.
Definition SQL_C_STINYINT : Z := -26.
Definition SQL_C_UBIGINT : Z := -27.
Definition SQL_C_UTINYINT : Z := -28.

Definition SQL_CHAR : Z := 1.
Definition SQL_NUMERIC : Z := 2.
Definition SQL_DECIMAL : Z := 3.
Definition SQL_INTEGER : Z := 4.
Definition SQL_SMALLINT : Z := 5.
Definition SQL_FLOAT : Z := 6.
Definition SQL_REAL : Z := 7.
Definition SQL_DOUBLE : Z := 8.
Definition SQL_DATE : Z := 9.
Definition SQL_TIME : Z := 10.
Definition SQL_TIMESTAMP : Z := 11.
Definition SQL_VARCHAR : Z := 12.
Definition SQL_TYPE_DATE : Z := 91.
Definition SQL_TYPE_TIME : Z := 92.
Definition SQL_TYPE_TIMESTAMP : Z := 93.
Definition SQL_LONGVARCHAR : Z := -1.
Definition SQL_BINARY : Z := -2.
Definition SQL_VARBINARY : Z := -3.
Definition SQL_LONGVARBINARY : Z := -4.
Definition SQL_BIGINT : Z := -5.
Definition SQL_TINYINT : Z := -6.
Definition SQL_BIT : Z := -7.
Definition SQL_WCHAR : Z := -8.
Definition SQL_WVARCHAR : Z := -9.
Definition SQL_WLONGVARCHAR : Z := -10.
Definition SQL_GUID : Z := -11.

Definition SQL_INTERVAL_YEAR : Z := 101.
Definition SQL_INTERVAL_MONTH : Z := 102.
Definition SQL_INTERVAL_DAY : Z := 103.
Definition SQL_INTERVAL_HOUR : Z := 104.
Definition SQL_INTERVAL_MINUTE : Z := 105.
Definition SQL_INTERVAL_SECOND : Z := 106.
Definition SQL_INTERVAL_YEAR_TO_MONTH : Z := 107.
Definition SQL_INTERVAL_DAY_TO_HOUR : Z := 108.
Definition SQL_INTERVAL_DAY_TO_MINUTE : Z := 109.
Definition SQL_INTERVAL_DAY_TO_SECOND : Z := 110.
Definition SQL_INTERVAL_HOUR_TO_MINUTE : Z := 111.
Definition SQL_INTERVAL_HOUR_TO_SECOND : Z := 112.
Definition SQL_INTERVAL_MINUTE_TO_SECOND : Z := 113.

(** A chain of comparisons, or the labels of one [case]. *)
Definition one_of (c : Z) (codes : list Z) : bool := existsb (Z.eqb c) codes.

(** ** The tables *)

Definition canonical_c_type (c_type : Z) : Z :=
  if c_type =? SQL_C_LONG then SQL_C_SLONG
  else if c_type =? SQL_C_SHORT then SQL_C_SSHORT
  else if c_type =? SQL_C_TINYINT then SQL_C_STINYINT
  else c_type.

Definition default_c_type (sql_type : Z) : Z :=
  if sql_type =? SQL_TINYINT then SQL_C_STINYINT
  else if sql_type =? SQL_SMALLINT then SQL_C_SSHORT
  else if sql_type =? SQL_INTEGER then SQL_C_SLONG
  else if sql_type =? SQL_BIGINT then SQL_C_SBIGINT
  else if sql_type =? SQL_REAL then SQL_C_FLOAT
  else if one_of sql_type [SQL_FLOAT; SQL_DOUBLE] then SQL_C_DOUBLE
  else if sql_type =? SQL_BIT then SQL_C_BIT
  else if sql_type =? SQL_TYPE_DATE then SQL_C_DATE
  else if sql_type =? SQL_TYPE_TIME then SQL_C_TIME
  else if sql_type =? SQL_TYPE_TIMESTAMP then SQL_C_TIMESTAMP
  else if one_of sql_type [SQL_WCHAR; SQL_WVARCHAR; SQL_WLONGVARCHAR] then SQL_C_WCHAR
  else if one_of sql_type [SQL_BINARY; SQL_VARBINARY; SQL_LONGVARBINARY] then SQL_C_BINARY
  else SQL_C_CHAR.

Definition is_supported_c_type (c_type : Z) : bool :=
  one_of (canonical_c_type c_type)
    [SQL_C_DEFAULT; SQL_C_CHAR; SQL_C_WCHAR; SQL_C_STINYINT; SQL_C_UTINYINT; SQL_C_USHORT;
     SQL_C_ULONG; SQL_C_UBIGINT; SQL_C_SSHORT; SQL_C_SLONG; SQL_C_SBIGINT; SQL_C_NUMERIC;
     SQL_C_FLOAT; SQL_C_DOUBLE; SQL_C_BIT; SQL_C_DATE; SQL_C_TIME; SQL_C_TIMESTAMP;
     SQL_C_TYPE_DATE; SQL_C_TYPE_TIME; SQL_C_TYPE_TIMESTAMP; SQL_C_BINARY].

Definition intervals : list Z :=
  [SQL_INTERVAL_YEAR; SQL_INTERVAL_MONTH; SQL_INTERVAL_DAY; SQL_INTERVAL_HOUR;
   SQL_INTERVAL_MINUTE; SQL_INTERVAL_SECOND; SQL_INTERVAL_YEAR_TO_MONTH;
   SQL_INTERVAL_DAY_TO_HOUR; SQL_INTERVAL_DAY_TO_MINUTE; SQL_INTERVAL_DAY_TO_SECOND;
   SQL_INTERVAL_HOUR_TO_MINUTE; SQL_INTERVAL_HOUR_TO_SECOND; SQL_INTERVAL_MINUTE_TO_SECOND].

Definition is_valid_c_type (c_type : Z) : bool :=
  if is_supported_c_type c_type || one_of c_type (SQL_C_NUMERIC :: intervals) then true
  else c_type =? SQL_C_GUID.

Definition is_supported_parameter_c_type (c_type : Z) : bool :=
  one_of (canonical_c_type c_type)
    [SQL_C_DEFAULT; SQL_C_CHAR; SQL_C_WCHAR; SQL_C_STINYINT; SQL_C_SSHORT; SQL_C_SLONG;
     SQL_C_SBIGINT; SQL_C_UTINYINT; SQL_C_USHORT; SQL_C_ULONG; SQL_C_UBIGINT; SQL_C_NUMERIC;
     SQL_C_FLOAT; SQL_C_DOUBLE; SQL_C_BIT; SQL_C_BINARY; SQL_C_DATE; SQL_C_TYPE_DATE;
     SQL_C_TIME; SQL_C_TYPE_TIME; SQL_C_TIMESTAMP; SQL_C_TYPE_TIMESTAMP].

Definition is_supported_parameter_sql_type (sql_type : Z) : bool :=
  one_of sql_type
    [SQL_CHAR; SQL_VARCHAR; SQL_LONGVARCHAR; SQL_WCHAR; SQL_WVARCHAR; SQL_WLONGVARCHAR;
     SQL_TINYINT; SQL_SMALLINT; SQL_INTEGER; SQL_BIGINT; SQL_REAL; SQL_FLOAT; SQL_DOUBLE;
     SQL_DECIMAL; SQL_NUMERIC; SQL_BIT; SQL_BINARY; SQL_VARBINARY; SQL_LONGVARBINARY;
     SQL_TYPE_DATE; SQL_TYPE_TIME; SQL_TYPE_TIMESTAMP].

Definition is_valid_sql_type (sql_type : Z) : bool :=
  if is_supported_parameter_sql_type sql_type
     || one_of sql_type ([SQL_DATE; SQL_TIME; SQL_TIMESTAMP; SQL_TYPE_DATE; SQL_TYPE_TIME;
                          SQL_TYPE_TIMESTAMP] ++ intervals) then true
  else sql_type =? SQL_GUID.

Definition is_conversion_supported (sql_type c_type : Z) : bool :=
  let c_type := canonical_c_type c_type in
  if one_of sql_type [SQL_BINARY; SQL_VARBINARY; SQL_LONGVARBINARY]
  then one_of c_type [SQL_C_CHAR; SQL_C_WCHAR; SQL_C_BINARY]
  else
    let temporal_type := one_of sql_type [SQL_TYPE_DATE; SQL_TYPE_TIME; SQL_TYPE_TIMESTAMP;
                                          SQL_DATE; SQL_TIME; SQL_TIMESTAMP] in
    if temporal_type &&
       one_of c_type [SQL_C_BIT; SQL_C_STINYINT; SQL_C_UTINYINT; SQL_C_USHORT; SQL_C_ULONG;
                      SQL_C_UBIGINT; SQL_C_SSHORT; SQL_C_SLONG; SQL_C_SBIGINT; SQL_C_FLOAT;
                      SQL_C_DOUBLE]
    then false
    else if (one_of sql_type [SQL_TYPE_DATE; SQL_DATE] && one_of c_type [SQL_C_TIME; SQL_C_TYPE_TIME])
         || (one_of sql_type [SQL_TYPE_TIME; SQL_TIME] && one_of c_type [SQL_C_DATE; SQL_C_TYPE_DATE])
    then false
    else if one_of c_type [SQL_C_CHAR; SQL_C_WCHAR; SQL_C_STINYINT; SQL_C_UTINYINT; SQL_C_USHORT;
                           SQL_C_ULONG; SQL_C_UBIGINT; SQL_C_SSHORT; SQL_C_SLONG; SQL_C_SBIGINT;
                           SQL_C_FLOAT; SQL_C_DOUBLE; SQL_C_BIT]
    then true
    else if c_type =? SQL_C_NUMERIC
    then one_of sql_type [SQL_CHAR; SQL_VARCHAR; SQL_LONGVARCHAR; SQL_WCHAR; SQL_WVARCHAR;
                          SQL_WLONGVARCHAR; SQL_BIT; SQL_TINYINT; SQL_SMALLINT; SQL_INTEGER;
                          SQL_BIGINT; SQL_DECIMAL; SQL_NUMERIC; SQL_REAL; SQL_FLOAT; SQL_DOUBLE]
    else if one_of c_type [SQL_C_DATE; SQL_C_TYPE_DATE; SQL_C_TIME; SQL_C_TYPE_TIME;
                           SQL_C_TIMESTAMP; SQL_C_TYPE_TIMESTAMP]
    then negb (one_of sql_type [SQL_BIT; SQL_TINYINT; SQL_SMALLINT; SQL_INTEGER; SQL_BIGINT;
                                SQL_DECIMAL; SQL_NUMERIC; SQL_REAL; SQL_FLOAT; SQL_DOUBLE])
    else if c_type =? SQL_C_BINARY
    then one_of sql_type [SQL_NUMERIC; SQL_DECIMAL; SQL_TYPE_DATE; SQL_DATE; SQL_TYPE_TIME; SQL_TIME;
                          SQL_TYPE_TIMESTAMP; SQL_TIMESTAMP; SQL_TINYINT; SQL_SMALLINT; SQL_INTEGER;
                          SQL_BIGINT; SQL_REAL; SQL_FLOAT; SQL_DOUBLE; SQL_BIT; SQL_CHAR; SQL_VARCHAR;
                          SQL_LONGVARCHAR; SQL_WCHAR; SQL_WVARCHAR; SQL_WLONGVARCHAR]
    else false.

(** ** Lemmas *)

Lemma one_of_In c codes : one_of c codes = true <-> In c codes.
Proof.
  unfold one_of. rewrite existsb_exists. split; [|intros H; exists c; by rewrite Z.eqb_refl].
  by intros (x & Hx & ->%Z.eqb_eq).
Qed.

(** The C types the converter implements, in canonical form. *)
Definition converted_c_types : list Z :=
  [SQL_C_CHAR; SQL_C_WCHAR; SQL_C_STINYINT; SQL_C_UTINYINT; SQL_C_USHORT; SQL_C_ULONG; SQL_C_UBIGINT;
   SQL_C_SSHORT; SQL_C_SLONG; SQL_C_SBIGINT; SQL_C_NUMERIC; SQL_C_FLOAT; SQL_C_DOUBLE; SQL_C_BIT;
   SQL_C_DATE; SQL_C_TYPE_DATE; SQL_C_TIME; SQL_C_TYPE_TIME; SQL_C_TIMESTAMP; SQL_C_TYPE_TIMESTAMP;
   SQL_C_BINARY].

Lemma one_of_subset c codes codes' :
  one_of c codes = true -> forallb (fun x => one_of x codes') codes = true -> one_of c codes' = true.
Proof. rewrite forallb_forall, one_of_In. auto. Qed.

(** Every supported conversion ends in a type the converter implements. *)
Lemma conversion_type (sql_type c_type : Z) :
  is_conversion_supported sql_type c_type = true ->
  one_of (canonical_c_type c_type) converted_c_types = true.
Proof.
  unfold is_conversion_supported. cbv zeta. set (c := canonical_c_type c_type).
  destruct (one_of sql_type [SQL_BINARY; _; _]); [intros H; by apply (one_of_subset _ _ _ H)|].
  do 2 (match goal with |- context [if ?b then false else _] => destruct b; [done|] end).
  destruct (one_of c [SQL_C_CHAR; _; _; _; _; _; _; _; _; _; _; _; _]) eqn:H1;
    [intros _; by apply (one_of_subset _ _ _ H1)|].
  destruct (c =? SQL_C_NUMERIC) eqn:H2; [apply Z.eqb_eq in H2 as ->; done|].
  destruct (one_of c [_; _; _; _; _; _]) eqn:H3; [intros _; by apply (one_of_subset _ _ _ H3)|].
  destruct (c =? SQL_C_BINARY) eqn:H4; [apply Z.eqb_eq in H4 as ->; done|done].
Qed.
