(* ===== verification/ConvertNumber.v ===== *)
(** * Text to C numbers

    Models the numeric half of [odbc/text_data_converter.cpp]: the text of a
    result column converted to the integer, floating, bit and
    [SQL_NUMERIC_STRUCT] types of the application's buffer, and a
    [SQL_NUMERIC_STRUCT] parameter formatted back to text.

    A conversion is the value of type [Converted] it leaves: the return code,
    the object copied to the buffer, the indicator and the issue it assigns.
    The assignments through a null [indicator] or [issue] are the ones a caller
    does not see.  The C library's [strtold], [strtof] and [strtod] are the
    parameter [FloatLibrary]; the decimal path never reaches them. *)

From S2P Require Import Prelude Digits ScaledDecimal Unicode PgIeee.

(** ** Definitions *)

Inductive SQLRETURN := SQL_SUCCESS | SQL_SUCCESS_WITH_INFO | SQL_ERROR.

Module ConversionIssue.
Inductive t :=
| FractionalTruncation | NumericValueOutOfRange | InvalidCharacterValue | InvalidDatetimeFormat.
End ConversionIssue.

Inductive int_type :=
| SQLSCHAR | SQLCHAR | SQLSMALLINT | SQLUSMALLINT | SQLINTEGER | SQLUINTEGER | SQLBIGINT | SQLUBIGINT.

Definition int_width (T : int_type) : Z :=
  match T with
  | SQLSCHAR | SQLCHAR => 1
  | SQLSMALLINT | SQLUSMALLINT => 2
  | SQLINTEGER | SQLUINTEGER => 4
  | SQLBIGINT | SQLUBIGINT => 8
  end.

Definition is_signed (T : int_type) : bool :=
  match T with SQLSCHAR | SQLSMALLINT | SQLINTEGER | SQLBIGINT => true | _ => false end.

(** [std::numeric_limits<T>]. *)
Definition limit_digits (T : int_type) : Z := 8 * int_width T - (if is_signed T then 1 else 0).
Definition limit_max (T : int_type) : Z := 2 ^ limit_digits T - 1.
Definition limit_min (T : int_type) : Z := if is_signed T then - 2 ^ limit_digits T else 0.
Definition digits10 (T : int_type) : Z := limit_digits T * 643 / 2136.

Record SQL_NUMERIC_STRUCT := { num_precision : Z; num_scale : Z; num_sign : Z; num_val : bytes }.

(** The object a conversion copies to the buffer. *)
Inductive stored :=
| Integer (T : int_type) (v : Z)
| Floating (f : format) (bits : Z)
| Bit (v : Z)
| Numeric (n : SQL_NUMERIC_STRUCT)
| Date (year month day : Z)
| Time (hour minute second : Z)
| Timestamp (year month day hour minute second fraction : Z)
| Chars (s : bytes)
| WideChars (s : list Z)
| Raw (s : bytes).

Record Converted := {
  code : SQLRETURN;
  issue : option ConversionIssue.t;
  buffer : option stored;
  indicator : option Z
}.

Definition failed (i : ConversionIssue.t) : Converted :=
  {| code := SQL_ERROR; issue := Some i; buffer := None; indicator := None |}.

(** An object stored with its size, and whether something was cut off. *)
Definition stored_as (o : stored) (bytes_stored : Z) (lost : bool) : Converted :=
  {| code := if lost then SQL_SUCCESS_WITH_INFO else SQL_SUCCESS;
     issue := if lost then Some ConversionIssue.FractionalTruncation else None;
     buffer := Some o; indicator := Some bytes_stored |}.

Definition trim_whitespace (value : bytes) : bytes := trim_by isspace value.

(** *** The C library's floating conversions *)

(** A [long double]: the finite values are [m * 2 ^ e]. *)
Inductive long_double := Dyadic (m e : Z) | Infinite (neg : bool) | NotANumber.

(** What a conversion reads: its value, the characters consumed, [ERANGE]. *)
Record Strto (F : Type) := { parsed : F; consumed : nat; erange : bool }.
Arguments parsed {F}. Arguments consumed {F}. Arguments erange {F}.

Record FloatLibrary := {
  numeric_locale : bool;
  strtold : bytes -> Strto long_double;
  strtofd : format -> bytes -> Strto Z
}.

(** The checks around a conversion, the same for each of the three types. *)
Definition parse_checked {F} (finite zero : F -> bool) (locale : bool)
    (strto : bytes -> Strto F) (value : bytes) : F + ConversionIssue.t :=
  if negb locale || beq value [] then inr ConversionIssue.InvalidCharacterValue
  else
    let r := strto value in
    if Nat.eqb (consumed r) 0 then inr ConversionIssue.InvalidCharacterValue
    else if negb (beq (drop_while isspace (drop (consumed r) value)) [])
    then inr ConversionIssue.InvalidCharacterValue
    else if negb (finite (parsed r)) || (erange r && zero (parsed r))
    then inr ConversionIssue.NumericValueOutOfRange
    else inl (parsed r).

Definition ld_finite (x : long_double) : bool :=
  match x with Dyadic _ _ => true | _ => false end.
Definition ld_zero (x : long_double) : bool :=
  match x with Dyadic m _ => m =? 0 | _ => false end.

Definition parse_number (lib : FloatLibrary) (value : bytes) : long_double + ConversionIssue.t :=
  parse_checked ld_finite ld_zero (numeric_locale lib) (strtold lib) value.

Definition bits_finite (f : format) (b : Z) : bool := b mod sign_bit f <? infinity_bits f.
Definition bits_zero (f : format) (b : Z) : bool := b mod sign_bit f =? 0.

Definition parse_floating_number (lib : FloatLibrary) (f : format) (value : bytes)
    : Z + ConversionIssue.t :=
  parse_checked (bits_finite f) (bits_zero f) (numeric_locale lib) (strtofd lib f) value.

(** The quiet bit is the top fraction bit. *)
Definition quiet_NaN (f : format) : Z := infinity_bits f + 2 ^ (fraction_bits f - 1).

Definition parse_floating_value (lib : FloatLibrary) (f : format) (value : bytes)
    : Z + ConversionIssue.t :=
  let text := trim_whitespace value in
  if beq text (str "NaN") then inl (quiet_NaN f)
  else if beq text (str "Infinity") then inl (infinity_bits f)
  else if beq text (str "-Infinity") then inl (sign_bit f + infinity_bits f)
  else parse_floating_number lib f value.

Definition convert_floating (lib : FloatLibrary) (value : bytes) (f : format) : Converted :=
  match parse_floating_value lib f value with
  | inl bits => stored_as (Floating f bits) (width f) false
  | inr i => failed i
  end.

(** *** Integers *)

Definition finish (T : int_type) (converted : Z) (fractional : bool) : Converted :=
  stored_as (Integer T converted) (int_width T) fractional.

Definition from_chars (T : int_type) (s : bytes) : from_chars_result :=
  if is_signed T then from_chars_signed (limit_min T) (limit_max T) s
  else from_chars_unsigned (limit_max T) s.

(** The whole text read by [std::from_chars], after one plus sign. *)
Definition integer_path (T : int_type) (numeric_text : bytes) : option Converted :=
  let integer_text := match numeric_text with
                      | c :: t => if c =? ch "+" then t else numeric_text
                      | [] => []
                      end in
  match from_chars T integer_text with
  | FromChars exact [] => Some (finish T exact false)
  | FromCharsRange [] => Some (failed ConversionIssue.NumericValueOutOfRange)
  | _ => None
  end.

Definition exponent_step (exponent c : Z) : Z :=
  let digit := c - ch "0" in
  if (SIZE_MAX - digit) / 10 <? exponent then SIZE_MAX else exponent * 10 + digit.

(** The optional exponent: its sign, magnitude and the text after it; [None]
    when no digit follows the letter. *)
Definition scan_exponent (s : bytes) : option (bool * Z * bytes) :=
  match s with
  | c :: s1 =>
      if (c =? ch "e") || (c =? ch "E") then
        let '(negative_exponent, s2) := strip_sign s1 in
        let '(ds, s3) := span isdigit s2 in
        match ds with
        | [] => None
        | _ => Some (negative_exponent, foldl exponent_step 0 ds, s3)
        end
      else Some (false, 0, s)
  | [] => Some (false, 0, s)
  end.

(** One digit added to the magnitude, or [None] beyond the limit. *)
Definition magnitude_step (limit : Z) (magnitude : option Z) (c : Z) : option Z :=
  magnitude ← magnitude;
  let digit := c - ch "0" in
  if (limit - digit) / 10 <? magnitude then None else Some (magnitude * 10 + digit).

(** The digit at position [i], zero after the last. *)
Definition digit_at (ds : bytes) (i : nat) : Z := nth i ds (ch "0").

Definition place_integral (T : int_type) (neg : bool) (ds : bytes) (whole_digits : Z)
    (negative_exponent : bool) (exponent : Z) : Converted :=
  match find_first_not_zero ds with
  | None => finish T 0 false
  | Some first_nonzero =>
      let integral_digits :=
        if negative_exponent
        then if whole_digits <=? exponent then 0 else whole_digits - exponent
        else if SIZE_MAX - whole_digits <? exponent then SIZE_MAX else whole_digits + exponent in
      if integral_digits <=? Z.of_nat first_nonzero then finish T 0 true
      else if digits10 T + 1 <? integral_digits - Z.of_nat first_nonzero
      then failed ConversionIssue.NumericValueOutOfRange
      else
        let limit := limit_max T + (if neg && is_signed T then 1 else 0) in
        let kept := map (digit_at ds)
                      (seq first_nonzero (Z.to_nat (integral_digits - Z.of_nat first_nonzero))) in
        match foldl (magnitude_step limit) (Some 0) kept with
        | None => failed ConversionIssue.NumericValueOutOfRange
        | Some magnitude =>
            if neg && negb (is_signed T) then failed ConversionIssue.NumericValueOutOfRange
            else
              finish T (if neg then if magnitude =? limit then limit_min T else - magnitude
                        else magnitude)
                (existsb (fun digit => negb (digit =? ch "0"))
                   (drop (Z.to_nat (Z.min integral_digits (size ds))) ds))
        end
  end.

(** Decimal and scientific notation; [None] for any other text. *)
Definition decimal_path (T : int_type) (numeric_text : bytes) : option Converted :=
  let '(neg, text) := strip_sign numeric_text in
  let '(whole, fraction, rest) := split_number text in
  match scan_exponent rest with
  | Some (negative_exponent, exponent, []) =>
      if beq (whole ++ fraction) [] then None
      else Some (place_integral T neg (whole ++ fraction) (size whole) negative_exponent exponent)
  | _ => None
  end.

(** The fallback: a [long double] cut toward zero. *)
Definition floating_path (lib : FloatLibrary) (T : int_type) (value : bytes) : Converted :=
  match parse_number lib value with
  | inr i => failed i
  | inl (Dyadic m e) =>
      let truncated := if 0 <=? e then m * 2 ^ e else Z.quot m (2 ^ (- e)) in
      let upper_exclusive := 2 ^ limit_digits T in
      let lower_bound := if is_signed T then - upper_exclusive else 0 in
      if (truncated <? lower_bound) || (upper_exclusive <=? truncated)
      then failed ConversionIssue.NumericValueOutOfRange
      else finish T truncated
             (negb ((0 <=? e) || (truncated * 2 ^ (- e) =? m)))
  | inl _ => failed ConversionIssue.NumericValueOutOfRange
  end.

Definition convert_integral (lib : FloatLibrary) (T : int_type) (value : bytes) : Converted :=
  let numeric_text := trim_whitespace value in
  match integer_path T numeric_text with
  | Some r => r
  | None =>
      match decimal_path T numeric_text with
      | Some r => r
      | None => floating_path lib T value
      end
  end.

(** *** Bits *)

(** The value and the code of a conversion that stored an integer. *)
Definition stored_integer (r : Converted) : Z :=
  match buffer r with Some (Integer _ v) => v | _ => 0 end.

Definition convert_boolean (lib : FloatLibrary) (value : bytes) : Converted :=
  if beq value (str "t") || beq value (str "true") || beq value (str "1")
  then stored_as (Bit 1) 1 false
  else if negb (beq value (str "f")) && negb (beq value (str "false")) && negb (beq value (str "0"))
  then
    let result := convert_integral lib SQLSMALLINT value in
    match code result with
    | SQL_ERROR => {| code := SQL_ERROR; issue := issue result; buffer := None; indicator := None |}
    | _ =>
        let numeric := stored_integer result in
        let with_info := match code result with SQL_SUCCESS_WITH_INFO => true | _ => false end in
        let negative_fraction :=
          starts_with (trim_whitespace value) [ch "-"] && with_info && (numeric =? 0) in
        if (numeric <? 0) || (1 <? numeric) || negative_fraction
        then failed ConversionIssue.NumericValueOutOfRange
        else stored_as (Bit numeric) 1 with_info
    end
  else stored_as (Bit 0) 1 false.

(** *** Numeric structures *)

(** [val * 10 + carry] on the little-endian bytes, with the carry out. *)
Fixpoint multiply_add (val : bytes) (carry : Z) : bytes * Z :=
  match val with
  | [] => ([], carry)
  | byte :: rest =>
      let product := byte * 10 + carry in
      let '(rest', carry') := multiply_add rest (Z.shiftr product 8) in
      (Z.land product 0xff :: rest', carry')
  end.

Definition numeric_digit (val : option bytes) (digit : Z) : option bytes :=
  val ← val;
  let '(val', carry) := multiply_add val (digit - ch "0") in
  if carry =? 0 then Some val' else None.

Definition numeric_bounds (precision sc : Z) : bool :=
  (1 <=? precision) && (precision <=? 38) && (-128 <=? sc) && (sc <=? precision).

Definition convert_numeric (value : bytes) (precision sc : Z) : Converted :=
  if negb (numeric_bounds precision sc) then failed ConversionIssue.NumericValueOutOfRange
  else
    match rescale_decimal value precision sc with
    | (None, InvalidCharacter) => failed ConversionIssue.InvalidCharacterValue
    | (None, _) => failed ConversionIssue.NumericValueOutOfRange
    | (Some scaled, decimal_issue) =>
        match foldl numeric_digit (Some (replicate 16 0)) (coefficient scaled) with
        | None => failed ConversionIssue.NumericValueOutOfRange
        | Some val =>
            stored_as (Numeric {| num_precision := precision; num_scale := sc;
                                  num_sign := if negative scaled then 0 else 1; num_val := val |})
              19 (match decimal_issue with FractionalTruncation => true | _ => false end)
        end
    end.

(** The little-endian bytes divided by ten, from the most significant one. *)
Fixpoint divide10 (magnitude : bytes) : bytes * Z :=
  match magnitude with
  | [] => ([], 0)
  | byte :: rest =>
      let '(quotient, remainder) := divide10 rest in
      let dividend := remainder * 256 + byte in
      (dividend / 10 :: quotient, dividend mod 10)
  end.

(** One round of the loop: the digits written so far, last one first. *)
Definition format_step (precision : Z) (st : bytes * bytes) : (bytes * bytes) + option bytes :=
  let '(magnitude, ds) := st in
  if existsb (fun byte => negb (byte =? 0)) magnitude then
    let '(quotient, remainder) := divide10 magnitude in
    let ds := (ch "0" + remainder) :: ds in
    if precision <? size ds then inr None else inl (quotient, ds)
  else inr (Some ds).

Definition numeric_digits (precision : Z) (val : bytes) : option bytes :=
  run (fun st => Z.to_nat (precision + 1 - size st.2)) (format_step precision) (val, []).

Definition format_numeric (numeric : SQL_NUMERIC_STRUCT) (precision sc : Z)
    : option bytes * option ConversionIssue.t :=
  if negb (numeric_bounds precision sc) || (1 <? num_sign numeric)
  then (None, Some ConversionIssue.NumericValueOutOfRange)
  else
    match numeric_digits precision (num_val numeric) with
    | None => (None, Some ConversionIssue.NumericValueOutOfRange)
    | Some ds =>
        let ds := if beq ds [] then [ch "0"] else ds in
        let expansion := if sc <? 0 then - sc else 0 in
        (format_scaled_decimal
           {| coefficient := ds; scale := sc; negative := num_sign numeric =? 0 |}
           (precision + expansion + 3), None)
    end.

(** ** Lemmas: integers *)

Lemma isspace_whitespace : forall c, whitespace c = isspace c.
Proof. intros c. unfold whitespace, isspace. change (ch " ") with 32. lia. Qed.

Lemma drop_while_ext p q s : (forall c, p c = q c) -> drop_while p s = drop_while q s.
Proof. intros H. induction s as [|c s IH]; [done|]. cbn. rewrite H. by destruct (q c). Qed.

Lemma trim_whitespace_eq value : trim_whitespace value = trim_by whitespace value.
Proof.
  unfold trim_whitespace, trim_by.
  by rewrite !(drop_while_ext whitespace isspace) by apply isspace_whitespace.
Qed.

Lemma exponent_step_eq e c : isdigit c = true -> exponent_step e c = exponent_digit SIZE_MAX e c.
Proof.
  intros Hc%isdigit_spec. unfold exponent_step, exponent_digit, SIZE_MAX. ztest. done.
Qed.

Lemma exponent_step_saturates ds : digits ds ->
  foldl exponent_step 0 ds = Z.min SIZE_MAX (digits_value ds).
Proof.
  intros Hds. rewrite <- exponent_saturates by (unfold SIZE_MAX; lia || done).
  generalize 0. induction Hds as [|c ds Hc Hds IH]; intros e; [done|]. cbn [foldl].
  by rewrite exponent_step_eq, IH.
Qed.

(** The exponent the code computes with: saturated at [SIZE_MAX]. *)
Lemma scan_exponent_complete ex e : exponent_text ex e ->
  exists ne m, scan_exponent ex = Some (ne, Z.min SIZE_MAX m, []) /\ 0 <= m /\
               e = (if ne : bool then - m else m).
Proof.
  destruct 1 as [|c s neg ds Hc Hs Hds Hne].
  { exists false, 0. by vm_compute. }
  assert (exists d u, ds = d :: u) as (d & u & Eds) by (destruct ds; eauto; done).
  assert (48 <= d <= 57) as Hd by (eapply digit_head; [exact Hds|by rewrite Eds]).
  exists neg, (digits_value ds). split; [|split; [apply digits_value_bounds; done|done]].
  unfold scan_exponent. assert ((c =? ch "e") || (c =? ch "E") = true) as ->
    by (destruct Hc as [-> | ->]; done).
  rewrite (sign_text_strip s neg ds d) by (rewrite ?Eds; done || lia).
  assert (span isdigit ds = (ds, [])) as ->.
  { rewrite <- (app_nil_r ds) at 1. by apply span_exact. }
  rewrite exponent_step_saturates by done. by rewrite Eds at 1.
Qed.

(** The magnitude loop computes the number its digits write, or stops beyond the limit. *)
Lemma magnitude_stuck limit ds : foldl (magnitude_step limit) None ds = None.
Proof. by induction ds. Qed.

Lemma magnitude_loop limit ds a : digits ds -> 9 <= limit -> 0 <= a <= limit ->
  foldl (magnitude_step limit) (Some a) ds =
    let m := a * 10 ^ size ds + digits_value ds in
    if m <=? limit then Some m else None.
Proof.
  intros Hds Hl. revert a. induction Hds as [|c ds Hc Hds IH]; intros a Ha.
  { cbn. rewrite Z.mul_1_r, Z.add_0_r. by ztest. }
  cbn [foldl magnitude_step mbind option_bind]. apply isdigit_spec in Hc.
  pose proof (digits_value_bounds ds Hds). pose proof (pow10_pos (size ds) (size_nonneg ds)).
  rewrite digits_value_cons, size_cons, Z.pow_add_r, Z.pow_1_r by auto with lia. cbv zeta.
  destruct (_ <? a) eqn:E; zb.
  - rewrite magnitude_stuck. rewrite (proj2 (Z.leb_gt _ _)); [done|].
    assert (limit < a * 10 + (c - 48)) by dlia. nia.
  - rewrite IH by dlia. cbv zeta.
    replace ((a * 10 + (c - ch "0")) * 10 ^ size ds + digits_value ds)
      with (a * (10 ^ size ds * 10) + ((c - ch "0") * 10 ^ size ds + digits_value ds)) by lia.
    done.
Qed.

(** The digits read by position are the coefficient of the integer part. *)
Lemma digits_from ds (first n : nat) :
  map (digit_at ds) (seq first n) =
    take n (drop first ds) ++ replicate (first + n - Nat.max first (length ds)) (ch "0").
Proof.
  revert first. induction n as [|n IH]; intros first.
  { cbn. rewrite take_0. replace (_ - _)%nat with 0%nat by lia. done. }
  cbn [seq map]. rewrite IH. unfold digit_at.
  destruct (decide (first < length ds)%nat) as [Hlt|Hge].
  - destruct (lookup_lt_is_Some_2 ds first Hlt) as [c Hc].
    rewrite (drop_S ds c first Hc). cbn [take app]. f_equal; [|do 2 f_equal; lia].
    revert Hc. clear. revert first. induction ds as [|d ds IHd]; intros [|first]; try done; cbn; [congruence|auto].
  - rewrite nth_overflow, !drop_ge, !take_nil by lia. cbn [app].
    replace (first + S n - Nat.max first (length ds))%nat with (S n) by lia.
    replace (S first + n - Nat.max (S first) (length ds))%nat with n by lia. done.
Qed.

Lemma int_limits (T : int_type) :
  9 <= limit_max T /\ limit_max T + 1 < 10 ^ (digits10 T + 1) /\ 0 <= digits10 T + 1 <= 20 /\
  limit_min T = (if is_signed T then - (limit_max T + 1) else 0).
Proof. destruct T; vm_compute; repeat split; discriminate. Qed.

(** What converting [(-1)^neg * D * 10 ^ k] to the type [T] must give: the value
    truncated toward zero when it is in range, with the truncation reported. *)
Definition integral_spec (T : int_type) (neg : bool) (D k : Z) : Converted :=
  let N := scale10 D k in
  let v := if neg then - N else N in
  if (limit_min T <=? v) && (v <=? limit_max T) then finish T v (negb (exact10 D k))
  else failed ConversionIssue.NumericValueOutOfRange.

Lemma integral_spec_zero T neg D k b :
  scale10 D k = 0 -> exact10 D k = negb b -> integral_spec T neg D k = finish T 0 b.
Proof.
  intros HN Hx. unfold integral_spec. rewrite HN, Hx, negb_involutive.
  destruct (int_limits T) as (Hmax & _ & _ & ->).
  assert ((if neg then - 0 else 0) = 0) as -> by by destruct neg.
  destruct (is_signed T); by repeat ztest.
Qed.

Lemma integral_spec_large T neg D k :
  10 ^ (digits10 T + 1) <= scale10 D k ->
  integral_spec T neg D k = failed ConversionIssue.NumericValueOutOfRange.
Proof.
  intros HN. unfold integral_spec. destruct (int_limits T) as (Hmax & Hpow & _ & ->).
  destruct neg, (is_signed T); by repeat ztest.
Qed.

(** A magnitude within the sign's limit is in range, one beyond is not. *)
Lemma integral_spec_limit T neg D k :
  0 <= scale10 D k ->
  let limit := limit_max T + (if neg && is_signed T then 1 else 0) in
  integral_spec T neg D k =
    if scale10 D k <=? limit then
      if neg && negb (is_signed T) && negb (scale10 D k =? 0)
      then failed ConversionIssue.NumericValueOutOfRange
      else finish T (if neg then if scale10 D k =? limit then limit_min T else - scale10 D k
                     else scale10 D k) (negb (exact10 D k))
    else failed ConversionIssue.NumericValueOutOfRange.
Proof.
  intros HN limit. unfold integral_spec, limit. destruct (int_limits T) as (Hmax & _ & _ & Hmin).
  set (N := scale10 D k) in *. rewrite Hmin.
  destruct neg, (is_signed T); cbn [andb negb]; rewrite ?Z.add_0_r.
  - destruct (N <=? limit_max T + 1) eqn:E; zb; repeat ztest; [|done].
    destruct (N =? limit_max T + 1) eqn:E1; zb; [|done]. by rewrite E1.
  - destruct (N <=? limit_max T) eqn:E; zb; [|by repeat ztest].
    destruct (N =? 0) eqn:E0; zb; cbn [negb]; repeat ztest; [|done]. done.
  - destruct (N <=? limit_max T) eqn:E; zb; by repeat ztest.
  - destruct (N <=? limit_max T) eqn:E; zb; by repeat ztest.
Qed.

Lemma nonzero_digits ds : digits ds ->
  existsb (fun digit => negb (digit =? ch "0")) ds = negb (digits_value ds =? 0).
Proof.
  intros Hds. destruct (digits_value ds =? 0) eqn:E; zb; cbn [negb].
  - apply (digits_value_zero ds Hds) in E. induction E as [|c t -> Ht IH]; [done|].
    cbn. apply IH. by inv_forall.
  - apply not_false_is_true. intros H. apply E, digits_value_zero; [done|].
    clear E Hds. induction ds as [|c t IH]; [constructor|]. cbn in H. apply orb_false_iff in H as [Hc Ht].
    apply negb_false_iff, Z.eqb_eq in Hc. constructor; auto.
Qed.

(** The digits cut off are zeros exactly when the integer part is exact. *)
Lemma dropped_digits ds (I : Z) : digits ds -> 0 < I ->
  existsb (fun digit => negb (digit =? ch "0")) (drop (Z.to_nat (Z.min I (size ds))) ds) =
    negb (exact10 (digits_value ds) (I - size ds)).
Proof.
  intros Hds HI. rewrite nonzero_digits by (by apply Forall_drop).
  pose proof (size_nonneg ds). pose proof (digits_value_bounds ds Hds).
  destruct (digits_value_take ds (Z.to_nat (Z.min I (size ds))) Hds) as [_ ->]; [unfold size; lia|].
  pose proof (dropped_zero (digits_value ds) (size ds) I 0) as Hz.
  rewrite !Z.add_0_r in Hz. rewrite <- Hz by lia. unfold clamp. ztest.
  do 4 f_equal. rewrite Z2Nat.id by lia. done.
Qed.

(** The coefficient of the integer part, by position and by value. *)
Lemma integral_coefficient (first : nat) (c : Z) (t : bytes) (I : Z) :
  let ds := replicate first (ch "0") ++ c :: t in
  digits ds -> c <> ch "0" -> Z.of_nat first < I ->
  let kept := map (digit_at ds) (seq first (Z.to_nat (I - Z.of_nat first))) in
  digits kept /\ digits_value kept = scale10 (digits_value ds) (I - size ds) /\
  10 ^ (I - Z.of_nat first - 1) <= digits_value kept.
Proof.
  intros ds Hds Hc HI kept.
  destruct (coefficient_value first c t I Hds Hc HI) as ((Hd & Hv & _) & Hsz & u & Hu). fold ds in Hd, Hv, Hsz, Hu.
  assert (kept = take (Z.to_nat (clamp I (size ds)) - first) (drop first ds)
                 ++ replicate (Z.to_nat (I - size ds)) (ch "0")) as ->.
  { unfold kept. rewrite digits_from.
    assert (first < length ds)%nat by (unfold ds; rewrite length_app, length_replicate; cbn; lia).
    f_equal; [|f_equal; unfold size; lia]. unfold clamp. ztest. unfold size in *.
    destruct (Z.le_gt_cases I (Z.of_nat (length ds))).
    - f_equal. lia.
    - rewrite !take_ge; [done|rewrite length_drop; lia..]. }
  split; [done|]. split; [done|]. rewrite Hu in *.
  replace (I - Z.of_nat first - 1) with (size u) by (rewrite size_cons in Hsz; lia).
  by apply digits_value_head.
Qed.

Lemma place_integral_first (T : int_type) neg ds (first : nat) (c : Z) (t : bytes) w ne m :
  ds = replicate first (ch "0") ++ c :: t -> c <> ch "0" ->
  digits ds -> 0 <= w <= size ds -> size ds < 2 ^ 63 -> 0 <= m ->
  find_first_not_zero ds = Some first ->
  place_integral T neg ds w ne (Z.min SIZE_MAX m) =
    integral_spec T neg (digits_value ds) (w + (if ne : bool then - m else m) - size ds).
Proof.
  intros Eds Hc Hds Hw Hsz Hm Hfirst. unfold place_integral. rewrite Hfirst. cbv zeta.
  set (J := if ne then _ else _). set (I := w + _).
  assert (size ds = Z.of_nat first + size t + 1) as Hlen.
  { rewrite Eds, size_app, size_cons. unfold size. rewrite length_replicate. lia. }
  pose proof (size_nonneg t). destruct (int_limits T) as (Hmax & Hpow & H10 & _).
  assert (J <= Z.of_nat first -> I <= Z.of_nat first) as HJ1
    by (unfold I, J, SIZE_MAX; destruct ne; repeat case_match; zb; lia).
  assert (Z.of_nat first < J -> J <= I) as HJ2
    by (unfold I, J, SIZE_MAX; destruct ne; repeat case_match; zb; lia).
  assert (Z.of_nat first < J -> J - Z.of_nat first <= 21 -> J = I) as HJ3
    by (unfold I, J, SIZE_MAX; destruct ne; repeat case_match; zb; lia).
  clearbody I J. destruct (J <=? Z.of_nat first) eqn:E1; zb.
  { symmetry. assert (0 < digits_value ds < 10 ^ (size ds - Z.of_nat first)) as HD.
    { assert (digits (c :: t)) as Ht by (rewrite Eds in Hds; by apply Forall_app in Hds as [_ ?]).
      assert (digits_value ds = digits_value (c :: t)) as ->
        by (rewrite Eds, digits_value_app, digits_value_zeros; lia).
      pose proof (digits_value_head c t Ht Hc). pose proof (pow10_pos (size t)).
      pose proof (digits_value_bounds _ Ht) as Hb. rewrite size_cons in Hb.
      replace (size ds - Z.of_nat first) with (size t + 1) by lia. lia. }
    apply integral_spec_zero;
      [eapply scale10_small; [split; [lia|apply HD]|lia|lia] | eapply exact10_small; [apply HD|lia|lia]]. }
  pose proof (integral_coefficient first c t I) as HI. cbv zeta in HI. rewrite <- Eds in HI.
  destruct HI as (Hk & Hv & Hbig); [done|done|lia|].
  destruct (digits10 T + 1 <? _) eqn:E2; zb.
  { symmetry. apply integral_spec_large. rewrite <- Hv.
    assert (10 ^ (digits10 T + 1) <= 10 ^ (I - Z.of_nat first - 1)) by (apply pow10_mono; lia). lia. }
  rewrite HJ3 by lia. rewrite magnitude_loop; [|done|destruct (neg && _); lia..].
  rewrite Z.mul_0_l, Z.add_0_l, Hv. cbv zeta.
  assert (1 <= scale10 (digits_value ds) (I - size ds)) as HN.
  { rewrite <- Hv. pose proof (pow10_pos (I - Z.of_nat first - 1)). lia. }
  rewrite integral_spec_limit by lia. cbv zeta. destruct (_ <=? _); [|done].
  ztest. rewrite andb_true_r, dropped_digits by lia || done. done.
Qed.

Lemma place_integral_correct (T : int_type) neg ds w ne m :
  digits ds -> 0 <= w <= size ds -> size ds < 2 ^ 63 -> 0 <= m ->
  place_integral T neg ds w ne (Z.min SIZE_MAX m) =
    integral_spec T neg (digits_value ds) (w + (if ne : bool then - m else m) - size ds).
Proof.
  intros Hds Hw Hsz Hm. destruct (find_first_not_zero ds) as [first|] eqn:Hfirst.
  - destruct (find_first_spec ds first Hfirst) as (c & t & Eds & Hc). by eapply place_integral_first.
  - unfold place_integral. rewrite Hfirst. symmetry.
    apply find_first_none, digits_value_zero in Hfirst as ->; [|done].
    apply integral_spec_zero; [apply scale10_zero|by rewrite exact10_zero].
Qed.

Lemma decimal_path_correct (T : int_type) value neg whole fraction e :
  size value < 2 ^ 63 -> decimal_text value neg whole fraction e ->
  decimal_path T (trim_whitespace value) =
    Some (integral_spec T neg (digits_value (whole ++ fraction)) (e - size fraction)).
Proof.
  intros Hsz (s & body & Htrim & Hs & Hbody).
  destruct (number_text_head _ _ _ _ Hbody) as (c & Hc & Hc1 & Hc2).
  pose proof (sign_text_strip s neg body c Hs Hc Hc1 Hc2) as Hstrip. rewrite <- Htrim in Hstrip.
  pose proof (strip_sign_size _ _ _ Hstrip). pose proof (trim_by_size whitespace value).
  unfold decimal_path. rewrite trim_whitespace_eq, Hstrip.
  assert (exists ex, split_number body = (whole, fraction, ex) /\ exponent_text ex e) as (ex & -> & Hex).
  { destruct (split_number_complete body whole fraction e 0) as (ex & Hsplit & _); [lia|done|].
    exists ex. split; [done|]. revert Hsplit. unfold split_number.
    destruct Hbody as [whole ex' e Hw Hne Hex|whole fraction ex' e Hw Hf Hne Hex].
    - rewrite span_exact; [|done|intros d; by apply exponent_head_not_digit with e].
      destruct Hex as [|d]; [by intros [= <-]; constructor|].
      assert ((d =? ch ".") = false) as -> by (destruct H1; lia). intros [= <-]. by constructor.
    - rewrite span_exact; [|done|by intros d [= <-]]. cbn [app].
      change (ch "." =? ch ".") with true. cbn iota.
      rewrite span_exact; [|done|intros d; by apply exponent_head_not_digit with e]. by intros [= <-]. }
  destruct (split_number_complete body whole fraction e 0) as (_ & _ & _ & Hlen & Hne); [lia|done|].
  destruct (scan_exponent_complete ex e Hex) as (ne & m & -> & Hm & ->).
  unfold beq. rewrite bool_decide_false by done. f_equal.
  pose proof (size_nonneg whole). pose proof (size_nonneg fraction).
  rewrite place_integral_correct; [f_equal; rewrite size_app; lia| |rewrite size_app; lia..|done].
  apply Forall_app. destruct Hbody; split; try done; constructor.
Qed.

(** A number that is all digits has no fraction and no exponent. *)
Lemma number_text_digits body whole fraction e :
  number_text body whole fraction e -> digits body -> whole = body /\ fraction = [] /\ e = 0.
Proof.
  destruct 1 as [whole ex e Hw Hne Hex|whole fraction ex e Hw Hf Hne Hex]; intros [_ H]%Forall_app.
  - destruct Hex as [|c s neg ds Hc _ _ _]; [by rewrite app_nil_r|].
    inv_forall. by destruct Hc as [-> | ->].
  - cbn [app] in H. by inv_forall.
Qed.

Lemma integral_spec_integer T neg D :
  integral_spec T neg D 0 =
    let v := if neg : bool then - D else D in
    if (limit_min T <=? v) && (v <=? limit_max T) then finish T v false
    else failed ConversionIssue.NumericValueOutOfRange.
Proof. unfold integral_spec, scale10, exact10. change (0 <=? 0) with true. cbn iota. by rewrite Z.mul_1_r. Qed.

(** The text [from_chars] sees: an optional minus sign and the number. *)
Lemma integer_text_eq s neg body c :
  sign_text s neg -> head body = Some c -> c <> ch "+" -> c <> ch "-" ->
  match s ++ body with c :: t => if c =? ch "+" then t else s ++ body | [] => [] end =
    (if neg : bool then [ch "-"] else []) ++ body.
Proof.
  intros Hs Hc H1 H2. destruct Hs; cbn [app]; [|done..].
  destruct body as [|d body]; [done|]. injection Hc as ->. by repeat ztest.
Qed.

Lemma from_chars_text T neg body whole fraction e r :
  number_text body whole fraction e ->
  match from_chars T ((if neg : bool then [ch "-"] else []) ++ body) with
  | FromChars exact [] => Some (finish T exact false)
  | FromCharsRange [] => Some (failed ConversionIssue.NumericValueOutOfRange)
  | _ => None
  end = Some r ->
  r = integral_spec T neg (digits_value (whole ++ fraction)) (e - size fraction).
Proof.
  intros Hbody. destruct (number_text_head _ _ _ _ Hbody) as (c & Hc & Hc1 & Hc2).
  destruct (span isdigit body) as [ds rest] eqn:Hspan. pose proof (span_app _ _ _ _ Hspan) as Ebody.
  pose proof (span_forall _ _ _ _ Hspan) as Hds.
  assert (rest = [] -> whole = ds /\ fraction = [] /\ e = 0) as Hnum.
  { intros ->. rewrite app_nil_r in Ebody. subst body. by apply number_text_digits. }
  destruct (int_limits T) as (_ & _ & _ & Hmin).
  unfold from_chars, from_chars_signed, from_chars_unsigned. destruct (is_signed T).
  - assert ((match (if neg then [ch "-"] else []) ++ body with
             | c :: t => if c =? ch "-" then (true, t) else (false, (if neg then [ch "-"] else []) ++ body)
             | [] => (false, (if neg then [ch "-"] else []) ++ body) end) = (neg, body)) as ->.
    { destruct neg; [done|]. destruct body as [|d body]; [done|]. injection Hc as ->. cbn. by ztest. }
    rewrite Hspan. destruct ds as [|d ds]; [done|]. cbv zeta.
    destruct rest; [|by destruct (_ && _)]. destruct (Hnum eq_refl) as (-> & -> & ->).
    rewrite app_nil_r. change (0 - size []) with 0. rewrite integral_spec_integer. cbv zeta.
    by destruct (_ && _); intros [= <-].
  - destruct neg.
    { destruct (span isdigit (ch "-" :: body)) as [[|d ds'] rest'] eqn:E; [by cbn [app]; rewrite E|]. done. }
    cbn [app]. rewrite Hspan. destruct ds as [|d ds]; [done|].
    pose proof (digits_value_bounds _ Hds).
    destruct rest; [|by destruct (_ <=? _)]. destruct (Hnum eq_refl) as (-> & -> & ->).
    rewrite app_nil_r. change (0 - size []) with 0. rewrite integral_spec_integer, Hmin. cbv zeta.
    destruct (_ <=? limit_max T); ztest; by intros [= <-].
Qed.

Lemma convert_integral_spec (lib : FloatLibrary) (T : int_type) (value : bytes)
    (neg : bool) (whole fraction : bytes) (e : Z) :
  size value < 2 ^ 63 -> decimal_text value neg whole fraction e ->
  convert_integral lib T value =
    integral_spec T neg (digits_value (whole ++ fraction)) (e - size fraction).
Proof.
  intros Hsz Ht. unfold convert_integral.
  destruct (integer_path T (trim_whitespace value)) as [r|] eqn:E.
  - destruct Ht as (s & body & Htrim & Hs & Hbody).
    destruct (number_text_head _ _ _ _ Hbody) as (c & Hc & Hc1 & Hc2).
    unfold integer_path in E. rewrite trim_whitespace_eq, Htrim, (integer_text_eq s neg body c) in E by done.
    by eapply from_chars_text.
  - by rewrite (decimal_path_correct T value neg whole fraction e).
Qed.

(** Integers are converted exactly.  On the decimal text of
    [(-1)^neg * D * 10 ^ (e - |fraction|)], with blanks, signs, a fraction and an
    exponent of any size, the conversion to each of the eight C integer types
    stores the value truncated toward zero when that is in the type's range,
    reports [FractionalTruncation] exactly when something was cut off, and
    otherwise fails with [NumericValueOutOfRange] and stores nothing.  No
    floating-point value is involved: the result does not depend on the C library. *)
Theorem convert_integral_correct (lib : FloatLibrary) (T : int_type) (value : bytes)
    (neg : bool) (whole fraction : bytes) (e : Z) :
  size value < 2 ^ 63 -> decimal_text value neg whole fraction e ->
  convert_integral lib T value =
    integral_spec T neg (digits_value (whole ++ fraction)) (e - size fraction).
Proof. apply convert_integral_spec. Qed.

(** A library for the witnesses: nothing parses. *)
Definition no_library : FloatLibrary :=
  {| numeric_locale := true;
     strtold := fun _ => {| parsed := NotANumber; consumed := 0; erange := false |};
     strtofd := fun _ _ => {| parsed := 0; consumed := 0; erange := false |} |}.

Lemma convert_integral_correct_witness :
  convert_integral no_library SQLBIGINT (str " -92233720368547758.085e2 ") = finish SQLBIGINT (- 2 ^ 63) true /\
  convert_integral no_library SQLBIGINT (str " -92233720368547758.085e2 ") =
    integral_spec SQLBIGINT true 92233720368547758085 (-1).
Proof.
  split; [reflexivity|].
  apply (convert_integral_correct no_library SQLBIGINT (str " -92233720368547758.085e2 ") true
           (str "92233720368547758") (str "085") 2); [reflexivity|].
  exists [ch "-"], (str "92233720368547758.085e2"). split; [reflexivity|]. split; [constructor|].
  apply (number_point (str "92233720368547758") (str "085") (str "e2") 2);
    [by repeat constructor|by repeat constructor|done|].
  apply (exponent_some (ch "e") [] false (str "2")); [by left|constructor|by repeat constructor|done].
Defined.

(** One plus sign is removed before [std::from_chars], which then accepts a
    minus sign: "+-5" is read as minus five by the signed types. *)
Example plus_minus_accepted :
  convert_integral no_library SQLINTEGER (str "+-5") = finish SQLINTEGER (-5) false.
Proof. reflexivity. Qed.

(** ** Lemmas: numeric structures *)

Definition le_value (val : bytes) : Z := foldr (fun b acc => b + 256 * acc) 0 val.

Lemma le_value_bounds val : Forall is_byte val -> 0 <= le_value val < 256 ^ size val.
Proof.
  induction 1 as [|b val Hb Hval IH]; [by vm_compute|]. unfold is_byte in Hb.
  rewrite size_cons, Z.pow_add_r by auto with lia. cbn [le_value foldr]. fold (le_value val). lia.
Qed.

Lemma le_value_inj v w :
  Forall is_byte v -> Forall is_byte w -> length v = length w -> le_value v = le_value w -> v = w.
Proof.
  intros Hv. revert w. induction Hv as [|b v Hb Hv IH]; intros [|c w] Hw Hlen E; try done.
  inv_forall. unfold is_byte in *. cbn [le_value foldr] in E. fold (le_value v) (le_value w) in E.
  assert (b = c) as -> by lia. f_equal. apply IH; [done|by injection Hlen|lia].
Qed.

Lemma le_value_zero val : Forall is_byte val ->
  existsb (fun byte => negb (byte =? 0)) val = negb (le_value val =? 0).
Proof.
  induction 1 as [|b val Hb Hval IH]; [done|]. cbn [existsb le_value foldr]. fold (le_value val).
  rewrite IH. pose proof (le_value_bounds val Hval). unfold is_byte in Hb.
  destruct (b =? 0) eqn:E1, (le_value val =? 0) eqn:E2; zb; cbn [negb orb]; repeat ztest; done.
Qed.

Lemma multiply_add_spec val carry : Forall is_byte val -> 0 <= carry <= 9 ->
  let '(val', carry') := multiply_add val carry in
  Forall is_byte val' /\ length val' = length val /\ 0 <= carry' <= 9 /\
  le_value val' + 256 ^ size val * carry' = le_value val * 10 + carry.
Proof.
  intros Hval. revert carry. induction Hval as [|b val Hb Hval IH]; intros carry Hc.
  { cbn [multiply_add]. change (256 ^ size []) with 1. change (le_value []) with 0. split_and!; [done|done|lia..]. }
  cbn [multiply_add]. unfold is_byte in Hb. rewrite shr_div, land_ff by lia. change (2 ^ 8) with 256.
  specialize (IH ((b * 10 + carry) / 256)). destruct (multiply_add val _) as [val' carry'].
  destruct IH as (H1 & H2 & H3 & H4); [dlia|].
  split_and!; [apply Forall_cons; [unfold is_byte; dlia|done]|cbn; lia|lia..|].
  rewrite size_cons, Z.pow_add_r by auto with lia. cbn [le_value foldr].
  fold (le_value val) (le_value val'). dlia.
Qed.

Lemma numeric_digit_spec val c : Forall is_byte val -> isdigit c = true ->
  le_value val * 10 + (c - ch "0") < 256 ^ size val ->
  exists val', numeric_digit (Some val) c = Some val' /\ Forall is_byte val' /\
    length val' = length val /\ le_value val' = le_value val * 10 + (c - ch "0").
Proof.
  intros Hval Hc%isdigit_spec Hlt. unfold numeric_digit. cbn [mbind option_bind].
  pose proof (multiply_add_spec val (c - ch "0") Hval) as H.
  destruct (multiply_add val _) as [val' carry]. destruct H as (H1 & H2 & H3 & H4); [lia|].
  pose proof (le_value_bounds val' H1) as Hb.
  assert (size val' = size val) as E by (unfold size; lia). rewrite E in Hb.
  assert (carry = 0) as -> by nia. exists val'. split_and!; [done|done|done|lia].
Qed.

Lemma numeric_digits_fold ds val : digits ds -> Forall is_byte val ->
  le_value val * 10 ^ size ds + digits_value ds < 256 ^ size val ->
  exists val', foldl numeric_digit (Some val) ds = Some val' /\ Forall is_byte val' /\
    length val' = length val /\ le_value val' = le_value val * 10 ^ size ds + digits_value ds.
Proof.
  intros Hds. revert val. induction Hds as [|c ds Hc Hds IH]; intros val Hval Hlt.
  { exists val. cbn. rewrite Z.mul_1_r, Z.add_0_r. done. }
  pose proof (digits_value_bounds ds Hds). pose proof (pow10_pos (size ds) (size_nonneg ds)).
  pose proof (le_value_bounds val Hval). apply isdigit_spec in Hc as Hc'.
  rewrite digits_value_cons, size_cons, Z.pow_add_r, Z.pow_1_r in * by auto with lia.
  destruct (numeric_digit_spec val c Hval Hc) as (v1 & E & Hv1 & Hl1 & Hval1); [nia|].
  cbn [foldl]. rewrite E. assert (size v1 = size val) as Es by (unfold size; lia).
  destruct (IH v1 Hv1) as (v2 & -> & Hv2 & Hl2 & Hval2); [rewrite Es, Hval1; lia|].
  exists v2. split_and!; [done|done|congruence|rewrite Hval2, Hval1; lia].
Qed.

(** What storing [(-1)^neg * D * 10 ^ x] as a numeric must give: failure when
    digits before the point or beyond the precision would be lost, else the
    coefficient truncated toward zero as sixteen little-endian bytes. *)
Definition numeric_spec (neg : bool) (D x precision sc : Z) (r : Converted) : Prop :=
  let N := scale10 D (x + sc) in
  if ((sc <? 0) && negb (scale10 D x mod 10 ^ (- sc) =? 0)) || (10 ^ precision <=? N)
  then r = failed ConversionIssue.NumericValueOutOfRange
  else exists val, Forall is_byte val /\ length val = 16%nat /\ le_value val = N /\
    r = stored_as (Numeric {| num_precision := precision; num_scale := sc;
                              num_sign := if neg && negb (N =? 0) then 0 else 1;
                              num_val := val |}) 19 (negb (exact10 D (x + sc))).

Lemma numeric_bounds_spec precision sc :
  numeric_bounds precision sc = true <-> 1 <= precision <= 38 /\ -128 <= sc <= precision.
Proof. unfold numeric_bounds. lia. Qed.

Lemma convert_numeric_spec value precision sc neg whole fraction e :
  numeric_bounds precision sc = true -> size value <= safe_size ->
  decimal_text value neg whole fraction e ->
  numeric_spec neg (digits_value (whole ++ fraction)) (e - size fraction) precision sc
    (convert_numeric value precision sc).
Proof.
  intros Hb Hsz Ht. unfold convert_numeric. rewrite Hb. cbn [negb].
  apply numeric_bounds_spec in Hb. assert (38 < safe_size /\ 128 < safe_size) by done.
  pose proof (rescale_decimal_spec value precision sc neg whole fraction e) as Hr.
  unfold rescale_spec in Hr. unfold numeric_spec. specialize (Hr ltac:(split_and!; lia) Ht).
  destruct ((sc <? 0) && _); cbn [orb]; [by rewrite Hr|].
  destruct (10 ^ precision <=? _) eqn:EN; [by rewrite Hr|]. zb. destruct Hr as (c & (Hc & Hv & _) & ->).
  destruct (numeric_digits_fold c (replicate 16 0) Hc) as (val & Hf & Hvb & Hvl & Hvv).
  { by apply Forall_replicate. }
  { change (le_value _) with 0. change (256 ^ _) with (256 ^ 16).
    assert (10 ^ precision <= 10 ^ 38) by (apply pow10_mono; lia).
    assert (10 ^ 38 < 256 ^ 16) by done. lia. }
  exists val. cbn [coefficient negative]. rewrite Hf. split_and!; [done|done|rewrite Hvv; change (le_value _) with 0; lia|].
  by destruct (exact10 _ _).
Qed.

Lemma divide10_spec m : Forall is_byte m ->
  let '(q, r) := divide10 m in
  Forall is_byte q /\ length q = length m /\ 0 <= r < 10 /\ le_value m = 10 * le_value q + r.
Proof.
  induction 1 as [|b m Hb Hm IH]; [by vm_compute|]. cbn [divide10].
  destruct (divide10 m) as [q r]. destruct IH as (H1 & H2 & H3 & H4). unfold is_byte in Hb.
  split_and!; [apply Forall_cons; [unfold is_byte; dlia|done]|cbn; lia|dlia..|].
  cbn [le_value foldr]. fold (le_value m) (le_value q). dlia.
Qed.

#[export] Instance format_step_decreases precision :
  Decreases (fun st => Z.to_nat (precision + 1 - size st.2)) (format_step precision).
Proof.
  intros [m ds] [m' ds']. unfold format_step. destruct (existsb _ _); [|done].
  destruct (divide10 m) as [q r]. destruct (_ <? _) eqn:E; [done|]. intros [= <- <-]. zb.
  cbn [snd]. rewrite size_cons in *. lia.
Qed.

(** What the loop leaves from a magnitude and the digits written before. *)
Definition digits_written (precision : Z) (st : bytes * bytes) (r : option bytes) : Prop :=
  Forall is_byte st.1 -> size st.2 <= precision ->
  if le_value st.1 <? 10 ^ (precision - size st.2)
  then exists cs, r = Some (cs ++ st.2) /\ digits cs /\ digits_value cs = le_value st.1 /\
                  head cs <> Some (ch "0")
  else r = None.

Lemma numeric_digits_run precision st :
  digits_written precision st
    (run (fun st => Z.to_nat (precision + 1 - size st.2)) (format_step precision) st).
Proof.
  revert st. apply (run_ind (digits_written precision)); unfold digits_written.
  - intros [m ds] r. unfold format_step. cbn [fst snd]. intros E Hm Hsz.
    rewrite le_value_zero in E by done. pose proof (le_value_bounds m Hm).
    destruct (le_value m =? 0) eqn:E0; zb; cbn [negb] in E.
    + injection E as <-. rewrite E0. pose proof (pow10_pos (precision - size ds)). ztest.
      exists []. split_and!; [done|constructor|done|done].
    + destruct (divide10 m) as [q rem]. destruct (_ <? _) eqn:Ep; [|done]. injection E as <-.
      rewrite size_cons in Ep. zb. assert (precision - size ds = 0) as -> by lia. by ztest.
  - intros [m ds] [q ds']. unfold format_step. cbn [fst snd]. intros E IH Hm Hsz.
    rewrite le_value_zero in E by done. destruct (le_value m =? 0) eqn:E0; zb; [done|]. cbn [negb] in E.
    pose proof (divide10_spec m Hm) as Hd. destruct (divide10 m) as [q' rem].
    destruct Hd as (Hq & _ & Hrem & Hval). destruct (_ <? _) eqn:Ep; [done|]. injection E as -> <-.
    zb. specialize (IH Hq Ep). rewrite size_cons in *. pose proof (le_value_bounds q Hq).
    assert (10 ^ (precision - size ds) = 10 * 10 ^ (precision - (size ds + 1))) as Epow.
    { rewrite <- Z.pow_succ_r by lia. f_equal. lia. }
    destruct (le_value q <? _) eqn:Eq; zb; ztest; [|done].
    destruct IH as (cs & -> & Hcs & Hv & Hh). exists (cs ++ [ch "0" + rem]).
    rewrite <- app_assoc. split_and!; [done| | |].
    + apply Forall_app; split; [done|]. constructor; [apply isdigit_spec; lia|constructor].
    + rewrite digits_value_app, Hv, digits_value_cons. change (digits_value []) with 0.
      change (size [ch "0" + rem]) with 1. change (size []) with 0. rewrite Z.pow_1_r, Z.pow_0_r. lia.
    + destruct cs; [|done]. cbn. intros [= Er]. change (digits_value []) with 0 in Hv. lia.
Qed.

Lemma numeric_digits_spec precision val :
  Forall is_byte val -> 1 <= precision ->
  if le_value val <? 10 ^ precision
  then exists cs, numeric_digits precision val = Some cs /\ digits cs /\
         digits_value cs = le_value val /\ size cs <= precision
  else numeric_digits precision val = None.
Proof.
  intros Hval Hp. pose proof (numeric_digits_run precision (val, []) Hval) as H.
  cbn [fst snd] in H. change (size []) with 0 in H. rewrite Z.sub_0_r in H. specialize (H ltac:(lia)).
  unfold numeric_digits. destruct (_ <? _) eqn:E; zb; [|done].
  destruct H as (cs & -> & Hd & Hv & Hh). exists cs. rewrite app_nil_r. split_and!; [done..|].
  destruct cs as [|c cs]; [change (size []) with 0; lia|].
  pose proof (digits_value_head c cs Hd) as Hb. rewrite size_cons.
  destruct (Z.le_gt_cases (size cs + 1) precision) as [|Hgt]; [done|].
  pose proof (pow10_mono precision (size cs)). assert (c <> ch "0") by (intros ->; done). lia.
Qed.

(** A coefficient within the precision is always formatted: the output bound is enough. *)
Lemma format_fits precision sc neg ds :
  1 <= precision -> sc <= precision -> digits ds -> 0 < size ds <= precision ->
  is_Some (format_scaled_decimal {| coefficient := ds; scale := sc; negative := neg |}
             (precision + (if sc <? 0 then - sc else 0) + 3)).
Proof.
  intros Hp Hsc Hds Hsz. unfold format_scaled_decimal. cbn [coefficient scale negative].
  assert (beq ds [] || negb (forallb isdigit ds) = false) as ->.
  { apply orb_false_iff. split; [apply bool_decide_eq_false; intros ->; change (size []) with 0 in Hsz; lia|].
    apply negb_false_iff. by apply forallb_digits. }
  pose proof (significant_digits_spec ds Hds) as Hs.
  assert (size (significant_digits ds).2 <= size ds) as Hle.
  { unfold significant_digits. destruct (find_first_not_zero ds); cbn [snd]; [|unfold size in *; cbn; lia].
    unfold size. rewrite length_drop. lia. }
  destruct (significant_digits ds) as [nonzero cs]. destruct Hs as (_ & _ & Hcs & _). cbn [snd] in Hle.
  rewrite format_plain by done. rewrite (proj2 (Z.leb_le _ _)); [by eexists|].
  unfold plain_text. rewrite size_app, plain_body_size.
  destruct (neg && nonzero), nonzero; cbn [app]; rewrite ?size_cons; change (size []) with 0;
    repeat case_match; zb; lia.
Qed.

Definition wf_numeric (n : SQL_NUMERIC_STRUCT) : Prop :=
  Forall is_byte (num_val n) /\ length (num_val n) = 16%nat /\ 0 <= num_sign n <= 1.

(** The value formatted: [(-1)^sign * N * 10 ^ -scale] in decimal. *)
Lemma format_numeric_spec n precision sc :
  wf_numeric n -> numeric_bounds precision sc = true ->
  let N := le_value (num_val n) in
  if N <? 10 ^ precision
  then exists text whole fraction,
    format_numeric n precision sc = (Some text, None) /\ size text <= safe_size /\
    decimal_text text ((num_sign n =? 0) && negb (N =? 0)) whole fraction 0 /\
    (if 0 <? sc then size fraction = sc /\ digits_value (whole ++ fraction) = N
     else fraction = [] /\ digits_value whole = N * 10 ^ (- sc))
  else format_numeric n precision sc = (None, Some ConversionIssue.NumericValueOutOfRange).
Proof.
  intros (Hb & Hl & Hs) Hbounds N. unfold format_numeric. rewrite Hbounds. ztest.
  apply numeric_bounds_spec in Hbounds as [Hp Hsc].
  pose proof (numeric_digits_spec precision (num_val n) Hb) as Hd. fold N in Hd.
  specialize (Hd ltac:(lia)). destruct (N <? 10 ^ precision); [|by rewrite Hd].
  destruct Hd as (cs & -> & Hcs & Hv & Hsz).
  set (ds := if beq cs [] then [ch "0"] else cs).
  assert (digits ds /\ digits_value ds = N /\ 0 < size ds <= precision) as (Hds & Hdv & Hdsz).
  { destruct cs as [|c cs]; [change ds with [ch "0"]|change ds with (c :: cs)].
    - change (digits_value []) with 0 in Hv. change (size [ch "0"]) with 1.
      split_and!; [by repeat constructor|done|lia..].
    - split_and!; [done|done| |done]. rewrite size_cons. pose proof (size_nonneg cs). lia. }
  destruct (format_fits precision sc (num_sign n =? 0) ds) as [text Htext]; [lia..|done|done|].
  rewrite Htext. apply format_some in Htext as (_ & Hsize & whole & fraction & Ht & Hval).
  rewrite Hdv in *. exists text, whole, fraction. split_and!; [done| |done|done].
  assert (400 < safe_size) by done. destruct (sc <? 0) eqn:E; zb; lia.
Qed.

(** Decimal text is stored exactly in a [SQL_NUMERIC_STRUCT].  On the text
    of [(-1)^neg * D * 10 ^ (e - |fraction|)], with a precision from 1 to 38 and a
    scale from -128 to the precision, the sixteen little-endian bytes hold the
    coefficient at the requested scale, truncated toward zero; the sign byte is 0
    exactly for a negative nonzero coefficient; truncation is reported exactly
    when a fractional digit was lost; losing a digit before the point or a
    coefficient beyond the precision fails with [NumericValueOutOfRange] and
    stores nothing.  The carry out of the sixteenth byte never occurs. *)
Theorem convert_numeric_correct (value : bytes) (precision sc : Z)
    (neg : bool) (whole fraction : bytes) (e : Z) :
  numeric_bounds precision sc = true -> size value <= safe_size ->
  decimal_text value neg whole fraction e ->
  numeric_spec neg (digits_value (whole ++ fraction)) (e - size fraction) precision sc
    (convert_numeric value precision sc).
Proof. apply convert_numeric_spec. Qed.

Lemma convert_numeric_correct_witness :
  numeric_spec true 12345 (-2) 5 1 (convert_numeric (str "-123.45") 5 1) /\
  convert_numeric (str "-123.45") 5 1 =
    stored_as (Numeric {| num_precision := 5; num_scale := 1; num_sign := 0;
                          num_val := [0xd2; 0x04] ++ replicate 14 0 |}) 19 true.
Proof.
  split; [|reflexivity].
  apply (convert_numeric_correct (str "-123.45") 5 1 true (str "123") (str "45") 0);
    [reflexivity|by vm_compute|].
  exists [ch "-"], (str "123.45"). split; [reflexivity|]. split; [constructor|].
  apply (number_point (str "123") (str "45") [] 0);
    [by repeat constructor|by repeat constructor|done|constructor].
Defined.

(** Numeric structures survive formatting.  A structure whose coefficient
    has at most [precision] digits is formatted, and converting the text at the
    same precision and scale gives the structure back, with no truncation and
    with a zero made positive; a larger coefficient is refused with
    [NumericValueOutOfRange]. *)
Theorem numeric_roundtrip (n : SQL_NUMERIC_STRUCT) (precision sc : Z) :
  wf_numeric n -> numeric_bounds precision sc = true ->
  let N := le_value (num_val n) in
  if N <? 10 ^ precision
  then exists text, format_numeric n precision sc = (Some text, None) /\
    convert_numeric text precision sc =
      stored_as (Numeric {| num_precision := precision; num_scale := sc;
                            num_sign := if N =? 0 then 1 else num_sign n;
                            num_val := num_val n |}) 19 false
  else format_numeric n precision sc = (None, Some ConversionIssue.NumericValueOutOfRange).
Proof.
  intros Hwf Hb N. pose proof (format_numeric_spec n precision sc Hwf Hb) as Hf. cbv zeta in Hf. fold N in Hf.
  destruct (N <? 10 ^ precision) eqn:EN; [|done]. zb.
  destruct Hf as (text & whole & fraction & Hf & Hsz & Ht & Hval).
  exists text. split; [done|]. pose proof (convert_numeric_spec _ _ _ _ _ _ _ Hb Hsz Ht) as Hc.
  destruct (placed_value whole fraction sc N Hval) as (E1 & E2 & E3).
  unfold numeric_spec in Hc. rewrite E1, E2 in Hc.
  assert ((sc <? 0) && negb (scale10 (digits_value (whole ++ fraction)) (0 - size fraction) mod 10 ^ (- sc) =? 0)
          = false) as E4 by (destruct (sc <? 0) eqn:Es; zb; [rewrite E3 by done|]; done).
  rewrite E4 in Hc. cbn [orb] in Hc. rewrite (proj2 (Z.leb_gt _ _)) in Hc by lia.
  destruct Hc as (val & Hvb & Hvl & Hvv & ->). destruct Hwf as (Hnb & Hnl & Hns).
  rewrite (le_value_inj val (num_val n)) by (done || congruence).
  assert ((if (num_sign n =? 0) && negb (N =? 0) && negb (N =? 0) then 0 else 1) = if N =? 0 then 1 else num_sign n) as ->;
    [|done].
  destruct (N =? 0), (num_sign n =? 0) eqn:Es; zb; cbn [negb andb]; lia.
Qed.

Lemma numeric_roundtrip_witness :
  exists text,
    format_numeric {| num_precision := 0; num_scale := 0; num_sign := 0;
                      num_val := replicate 15 255 ++ [0] |} 38 38 = (Some text, None) /\
    convert_numeric text 38 38 =
      stored_as (Numeric {| num_precision := 38; num_scale := 38; num_sign := 0;
                            num_val := replicate 15 255 ++ [0] |}) 19 false.
Proof.
  apply (numeric_roundtrip {| num_precision := 0; num_scale := 0; num_sign := 0;
                              num_val := replicate 15 255 ++ [0] |} 38 38); [|reflexivity].
  split; [|split; [reflexivity|by vm_compute]]. cbn. by repeat constructor.
Defined.

(** ** Bits *)

Lemma exact10_zero_value D k : 0 <= D -> scale10 D k = 0 -> exact10 D k = (D =? 0).
Proof.
  intros HD. unfold scale10, exact10. destruct (0 <=? k) eqn:E; zb; cbn [orb].
  - pose proof (pow10_pos k E). intros H0. assert (D = 0) by nia. by ztest.
  - pose proof (pow10_pos (- k)). intros H0. rewrite (Z.div_mod D (10 ^ (- k))) at 2 by lia.
    rewrite H0. f_equal. lia.
Qed.

Lemma decimal_minus value neg whole fraction e :
  decimal_text value neg whole fraction e -> starts_with (trim_whitespace value) [ch "-"] = neg.
Proof.
  intros (s & body & Htrim & Hs & Hbody). rewrite trim_whitespace_eq, Htrim.
  destruct (number_text_head _ _ _ _ Hbody) as (c & Hc & _ & Hc2).
  destruct Hs; cbn [app]; [|done..]. destruct body as [|d body]; [done|]. injection Hc as ->.
  unfold starts_with, beq. cbn [length take]. apply bool_decide_eq_false. intros [= E]. done.
Qed.

(** Bits.  [t], [true], [1], [f], [false] and [0] store their bit; decimal
    text stores the digit 0 or 1 of its integer part when the value is at least
    zero and less than two, reporting a truncated fraction, and every other
    value, a negative fraction included, fails with [NumericValueOutOfRange]. *)
Theorem convert_boolean_correct (lib : FloatLibrary) :
  Forall (fun t => convert_boolean lib t = stored_as (Bit 1) 1 false) (map str ["t"; "true"; "1"]%string) /\
  Forall (fun t => convert_boolean lib t = stored_as (Bit 0) 1 false) (map str ["f"; "false"; "0"]%string) /\
  forall value neg whole fraction e,
    size value < 2 ^ 63 -> decimal_text value neg whole fraction e ->
    let D := digits_value (whole ++ fraction) in
    let N := scale10 D (e - size fraction) in
    convert_boolean lib value =
      if (1 <? N) || (neg && negb (D =? 0)) then failed ConversionIssue.NumericValueOutOfRange
      else stored_as (Bit N) 1 (negb (exact10 D (e - size fraction))).
Proof.
  split; [by repeat constructor|]. split; [by repeat constructor|].
  intros value neg whole fraction e Hsz Ht D N.
  pose proof (convert_integral_spec lib SQLSMALLINT _ _ _ _ _ Hsz Ht) as Hi.
  pose proof (convert_integral_spec no_library SQLSMALLINT _ _ _ _ _ Hsz Ht) as Hno.
  pose proof (decimal_minus _ _ _ _ _ Ht) as Hminus. fold D in Hi, Hno.
  assert (0 <= D) as HD.
  { apply digits_value_bounds, Forall_app. destruct Ht as (? & ? & _ & _ & []); split; try done; constructor. }
  pose proof (scale10_nonneg D (e - size fraction) HD) as HN. fold N in HN.
  pose proof (exact10_zero_value D (e - size fraction) HD) as H0. fold N in H0.
  unfold convert_boolean. rewrite Hminus, Hi. unfold integral_spec in *. fold N in Hno |- *.
  destruct (beq value (str "t") || beq value (str "true") || beq value (str "1")) eqn:E1.
  { rewrite !orb_true_iff in E1. unfold beq in E1. rewrite !bool_decide_eq_true in E1.
    destruct E1 as [[-> | ->] | ->]; [by destruct (_ && _) in Hno|by destruct (_ && _) in Hno|].
    destruct (_ && _) in Hno; [|done]. injection Hno as E2 _ E3.
    change (1 = if neg then - N else N) in E3.
    destruct neg; [lia|]. rewrite <- E3. by destruct (exact10 _ _). }
  destruct (negb (beq value (str "f")) && negb (beq value (str "false")) && negb (beq value (str "0"))) eqn:E2.
  - clear Hno E1 E2. change (limit_min SQLSMALLINT) with (-32768). change (limit_max SQLSMALLINT) with 32767.
    destruct neg; cbn iota; [destruct (D =? 0) eqn:ED; zb|].
    + unfold N. rewrite ED, scale10_zero, exact10_zero. done.
    + cbn [negb andb]. rewrite orb_true_r. destruct (_ && _); [|done]. cbn [code finish stored_as stored_integer buffer].
      destruct (N =? 0) eqn:EN; zb.
      * rewrite H0, EN by done. done.
      * destruct (negb (exact10 _ _)); by repeat ztest.
    + cbn [andb]. rewrite orb_false_r. destruct (1 <? N) eqn:EN; zb.
      * destruct (_ && _); [|done]. cbn [code finish stored_as stored_integer buffer].
        destruct (negb (exact10 _ _)); by repeat ztest.
      * repeat ztest. cbn [code finish stored_as stored_integer buffer andb].
        destruct (negb (exact10 _ _)); by repeat ztest.
  - rewrite !andb_false_iff, !negb_false_iff in E2. unfold beq in E2. rewrite !bool_decide_eq_true in E2.
    destruct E2 as [[-> | ->] | ->]; [by destruct (_ && _) in Hno|by destruct (_ && _) in Hno|].
    destruct (_ && _) in Hno; [|done]. injection Hno as E2 _ E3.
    change (0 = if neg then - N else N) in E3. assert (N = 0) as EN by (destruct neg; lia). rewrite EN, H0 in *  by done.
    destruct (D =? 0); [|done]. by destruct neg.
Qed.

Lemma convert_boolean_correct_witness :
  convert_boolean no_library (str " 1.5 ") = stored_as (Bit 1) 1 true.
Proof.
  apply (proj2 (proj2 (convert_boolean_correct no_library)) (str " 1.5 ") false (str "1") (str "5") 0);
    [reflexivity|].
  exists [], (str "1.5"). split; [reflexivity|]. split; [constructor|].
  apply (number_point (str "1") (str "5") [] 0);
    [by repeat constructor|by repeat constructor|done|constructor].
Defined.
