(* ===== verification/ConvertTime.v ===== *)
(** * Text to C dates and times

    Models the temporal half of [odbc/text_data_converter.cpp].  The clock that
    completes a bare time to a timestamp ([std::time] and [localtime_r]) is an
    argument: the fields [tm_year], [tm_mon] and [tm_mday], or [None] where the
    local date is not available. *)

From S2P Require Import Prelude Digits ScaledDecimal ConvertNumber.

(** ** Definitions *)

Definition parse_digit (result : option Z) (c : Z) : option Z :=
  r ← result; if (c <? ch "0") || (ch "9" <? c) then None else Some (r * 10 + (c - ch "0")).

(** [count] digits at [offset]; at most four, so the [unsigned] sum is exact. *)
Definition parse_digits (value : bytes) (offset count : nat) : option Z :=
  if (length value <? offset + count)%nat then None
  else foldl parse_digit (Some 0) (take count (drop offset value)).

Definition leap_year (year : Z) : bool :=
  (year mod 4 =? 0) && (negb (year mod 100 =? 0) || (year mod 400 =? 0)).

Definition days_per_month : list Z := [31; 28; 31; 30; 31; 30; 31; 31; 30; 31; 30; 31].

Definition valid_date (year month day : Z) : bool :=
  if (32767 <? year) || (month <? 1) || (12 <? month) || (day <? 1) then false
  else
    let max_day := nth (Z.to_nat (month - 1)) days_per_month 0
                   + (if (month =? 2) && leap_year year then 1 else 0) in
    day <=? max_day.

Definition parse_date (value : bytes) : option (Z * Z * Z) :=
  if (length value =? 10)%nat && (at_pos value 4 =? ch "-") && (at_pos value 7 =? ch "-") then
    year ← parse_digits value 0 4;
    month ← parse_digits value 5 2;
    day ← parse_digits value 8 2;
    if valid_date year month day then Some (year, month, day) else None
  else None.

(** The hours and minutes after the sign of a zone. *)
Definition valid_zone (suffix : bytes) : bool :=
  match length suffix with
  | 2%nat => match parse_digits suffix 0 2 with Some hours => hours <=? 15 | None => false end
  | 5%nat =>
      (at_pos suffix 2 =? ch ":") &&
      match parse_digits suffix 0 2, parse_digits suffix 3 2 with
      | Some hours, Some minutes => (hours <=? 15) && (minutes <=? 59)
      | _, _ => false
      end
  | _ => false
  end.

Definition valid_time_suffix (suffix : bytes) : bool :=
  let after_fraction :=
    match suffix with
    | c :: t => if c =? ch "." then match span isdigit t with ([], _) => None | (_, r) => Some r end
                else Some suffix
    | [] => Some []
    end in
  match after_fraction with
  | None => false
  | Some [] => true
  | Some (c :: zone) => ((c =? ch "+") || (c =? ch "-")) && valid_zone zone
  end.

(** One digit of the fraction: its value, the digits counted, what is discarded. *)
Definition fraction_step (st : Z * Z * bool) (c : Z) : Z * Z * bool :=
  let '(fraction, counted, discarded) := st in
  if counted <? 9 then (fraction * 10 + (c - ch "0"), counted + 1, discarded)
  else (fraction, counted, discarded || negb (c =? ch "0")).

(** The fraction in nanoseconds: nine digits, padded with zeros. *)
Definition parse_fraction (suffix : bytes) : Z * bool :=
  match suffix with
  | c :: t =>
      if c =? ch "." then
        let '(fraction, counted, discarded) := foldl fraction_step (0, 0, false) (span isdigit t).1 in
        (fraction * 10 ^ (9 - counted), discarded)
      else (0, false)
  | [] => (0, false)
  end.

Definition parse_time (value : bytes) : option (Z * Z * Z * Z * bool) :=
  if (length value <? 8)%nat || negb (at_pos value 2 =? ch ":") || negb (at_pos value 5 =? ch ":")
  then None
  else
    hour ← parse_digits value 0 2;
    minute ← parse_digits value 3 2;
    second ← parse_digits value 6 2;
    if (23 <? hour) || (59 <? minute) || (60 <? second) || negb (valid_time_suffix (drop 8 value))
    then None
    else let '(fraction, discarded) := parse_fraction (drop 8 value) in
         Some (hour, minute, second, fraction, discarded).

(** A date, a separator and a time, by length and position. *)
Definition is_timestamp (text : bytes) : bool :=
  (19 <=? length text)%nat && ((at_pos text 10 =? ch " ") || (at_pos text 10 =? ch "T")).

Definition invalid_datetime : Converted := failed ConversionIssue.InvalidDatetimeFormat.

Definition convert_date (value : bytes) : Converted :=
  let text := trim_whitespace value in
  let timestamp := is_timestamp text in
  match parse_date (if timestamp then take 10 text else text) with
  | None => invalid_datetime
  | Some (year, month, day) =>
      if timestamp then
        match parse_time (drop 11 text) with
        | None => invalid_datetime
        | Some (hour, minute, second, fraction, discarded) =>
            stored_as (Date year month day) 6
              (negb (hour =? 0) || negb (minute =? 0) || negb (second =? 0) || negb (fraction =? 0)
               || discarded)
        end
      else stored_as (Date year month day) 6 false
  end.

Definition convert_time (value : bytes) : Converted :=
  let text := trim_whitespace value in
  let of_time t :=
    match parse_time t with
    | None => invalid_datetime
    | Some (hour, minute, second, fraction, discarded) =>
        stored_as (Time hour minute second) 6 (negb (fraction =? 0) || discarded)
    end in
  if is_timestamp text then
    match parse_date (take 10 text) with
    | None => invalid_datetime
    | Some _ => of_time (drop 11 text)
    end
  else of_time text.

Definition to_smallint (x : Z) : Z := (x + 2 ^ 15) mod 2 ^ 16 - 2 ^ 15.
Definition to_usmallint (x : Z) : Z := x mod 2 ^ 16.

Definition convert_timestamp (local : option (Z * Z * Z)) (value : bytes) : Converted :=
  let text := trim_whitespace value in
  let date_only := (length text =? 10)%nat in
  let time_only := (8 <=? length text)%nat && (at_pos text 2 =? ch ":") && (at_pos text 5 =? ch ":") in
  if negb date_only && negb time_only && negb (is_timestamp text) then invalid_datetime
  else if time_only then
    match parse_time text, local with
    | Some (hour, minute, second, fraction, discarded), Some (tm_year, tm_mon, tm_mday) =>
        if 32767 <? tm_year + 1900 then invalid_datetime
        else stored_as (Timestamp (to_smallint (tm_year + 1900)) (to_usmallint (tm_mon + 1))
                          (to_usmallint tm_mday) hour minute second fraction) 16 discarded
    | _, _ => invalid_datetime
    end
  else
    match parse_date (take 10 text) with
    | None => invalid_datetime
    | Some (year, month, day) =>
        if date_only then stored_as (Timestamp year month day 0 0 0 0) 16 false
        else match parse_time (drop 11 text) with
             | None => invalid_datetime
             | Some (hour, minute, second, fraction, discarded) =>
                 stored_as (Timestamp year month day hour minute second fraction) 16 discarded
             end
    end.

(** ** The grammar of dates and times *)

(** [n] digits that write the number [v]. *)
Definition field (n : nat) (s : bytes) (v : Z) : Prop := digits s /\ length s = n /\ digits_value s = v.

Inductive date_text : bytes -> Z -> Z -> Z -> Prop :=
| date_intro ys ms ds year month day :
    field 4 ys year -> field 2 ms month -> field 2 ds day ->
    1 <= month <= 12 -> 1 <= day ->
    day <= nth (Z.to_nat (month - 1)) days_per_month 0
           + (if (month =? 2) && leap_year year then 1 else 0) ->
    date_text (ys ++ [ch "-"] ++ ms ++ [ch "-"] ++ ds) year month day.

Inductive zone_text : bytes -> Prop :=
| zone_none : zone_text []
| zone_hours c hs hours :
    c = ch "+" \/ c = ch "-" -> field 2 hs hours -> hours <= 15 -> zone_text (c :: hs)
| zone_minutes c hs ms hours minutes :
    c = ch "+" \/ c = ch "-" -> field 2 hs hours -> field 2 ms minutes ->
    hours <= 15 -> minutes <= 59 -> zone_text (c :: hs ++ [ch ":"] ++ ms).

(** The fraction is its digits, none when there is no point. *)
Definition point_fraction (fs : bytes) : bytes := match fs with [] => [] | _ => ch "." :: fs end.

Inductive time_text : bytes -> Z -> Z -> Z -> bytes -> Prop :=
| time_intro hs ms ss fs hour minute second zone :
    field 2 hs hour -> field 2 ms minute -> field 2 ss second ->
    hour <= 23 -> minute <= 59 -> second <= 60 -> digits fs -> zone_text zone ->
    time_text (hs ++ [ch ":"] ++ ms ++ [ch ":"] ++ ss
               ++ point_fraction fs ++ zone) hour minute second fs.

(** Nanoseconds, and whether a nonzero digit is beyond them. *)
Definition nanoseconds (fs : bytes) : Z := scale10 (digits_value fs) (9 - size fs).
Definition below_nanoseconds (fs : bytes) : bool := negb (exact10 (digits_value fs) (9 - size fs)).

(** ** Lemmas: fields *)

Lemma parse_digits_fold s r :
  foldl parse_digit (Some r) s = if forallb isdigit s then Some (foldl digit_step r s) else None.
Proof.
  assert (forall t, foldl parse_digit None t = None) as Hstuck by (by induction t).
  revert r. induction s as [|c s IH]; intros r; [done|]. cbn [foldl forallb].
  unfold parse_digit at 2, isdigit at 1. cbn [mbind option_bind].
  destruct (c <? ch "0") eqn:E1, (ch "9" <? c) eqn:E2; zb; [lia|..]; cbn [orb]; repeat ztest;
    try apply Hstuck. apply IH.
Qed.

Lemma parse_digits_eq value o n :
  parse_digits value o n =
    if (length value <? o + n)%nat then None
    else let s := take n (drop o value) in if forallb isdigit s then Some (digits_value s) else None.
Proof. unfold parse_digits. case_match; [done|]. apply parse_digits_fold. Qed.

Lemma parse_digits_field value a s b n v :
  value = a ++ s ++ b -> field n s v -> parse_digits value (length a) n = Some v.
Proof.
  intros -> (Hd & Hl & Hv). rewrite parse_digits_eq, !length_app.
  rewrite (proj2 (Nat.ltb_ge _ _)) by lia. cbv zeta.
  rewrite drop_app_length, <- Hl, take_app_length. apply forallb_digits in Hd as ->. by rewrite Hv.
Qed.

Lemma parse_digits_head s b n v : field n s v -> parse_digits (s ++ b) 0 n = Some v.
Proof. intros H. by apply (parse_digits_field _ [] s b n v). Qed.

Lemma parse_digits_sound value o n v :
  parse_digits value o n = Some v -> field n (take n (drop o value)) v /\ (o + n <= length value)%nat.
Proof.
  rewrite parse_digits_eq. destruct (_ <? _)%nat eqn:E; [done|]. apply Nat.ltb_ge in E. cbv zeta.
  destruct (forallb _ _) eqn:Ef; [|done]. intros [= <-]. split; [|done].
  split; [by apply forallb_digits|]. split; [|done]. rewrite length_take, length_drop. lia.
Qed.

(** Two fields and the separator between them. *)
Lemma split_two value n m : (n + 1 + m <= length value)%nat ->
  value = take n value ++ [at_pos value n] ++ take m (drop (S n) value) ++ drop (S n + m) value.
Proof. intros H. rewrite (split_at value n) at 1 by lia. by rewrite <- drop_drop, take_drop. Qed.

Lemma field_bounds n s v : field n s v -> 0 <= v < 10 ^ Z.of_nat n.
Proof. intros (Hd & <- & <-). by apply digits_value_bounds. Qed.

(** ** Lemmas: dates *)

Lemma valid_date_spec year month day : year <= 9999 ->
  valid_date year month day = true <->
  1 <= month <= 12 /\ 1 <= day /\
  day <= nth (Z.to_nat (month - 1)) days_per_month 0 + (if (month =? 2) && leap_year year then 1 else 0).
Proof. intros Hy. unfold valid_date. cbv zeta. destruct (_ || _) eqn:E; zb; [lia|]. rewrite Z.leb_le. lia. Qed.

Lemma parse_date_exact value year month day :
  parse_date value = Some (year, month, day) <-> date_text value year month day.
Proof.
  unfold parse_date. split.
  - destruct (_ && _) eqn:E; [|done]. apply andb_true_iff in E as [E E2%Z.eqb_eq].
    apply andb_true_iff in E as [E0%Nat.eqb_eq E1%Z.eqb_eq].
    destruct (parse_digits value 0 4) as [y|] eqn:Ey; [|done].
    destruct (parse_digits value 5 2) as [m|] eqn:Em; [|done].
    destruct (parse_digits value 8 2) as [d|] eqn:Ed; [|done]. mcbn.
    destruct (valid_date y m d) eqn:Ev; [|done]. intros [= <- <- <-].
    apply parse_digits_sound in Ey as [Hy _], Em as [Hm _], Ed as [Hd _].
    pose proof (field_bounds _ _ _ Hy). apply valid_date_spec in Ev as (Hm1 & Hd1 & Hd2); [|lia].
    rewrite (split_two value 4 2), E1 by lia. cbn [Nat.add].
    rewrite (split_at (drop 7 value) 0) by (rewrite length_drop; lia). rewrite at_pos_drop. cbn [Nat.add]. rewrite E2, drop_drop.
    rewrite take_0. cbn [app Nat.add].
    rewrite (take_ge (drop 8 value)) in Hd by (rewrite length_drop; lia). rewrite drop_0 in Hy. by constructor.
  - destruct 1 as [ys ms ds year month day Hy Hm Hd Hm1 Hd1 Hd2].
    pose proof Hy as (_ & Ly & _). pose proof Hm as (_ & Lm & _). pose proof Hd as (_ & Ld & _).
    set (value := ys ++ _).
    assert (length value = 10%nat) as -> by (unfold value; rewrite !length_app; cbn; lia).
    assert (at_pos value 4 = ch "-") as -> by (rewrite <- Ly; apply at_pos_app).
    assert (at_pos value 7 = ch "-") as ->.
    { replace 7%nat with (length (ys ++ [ch "-"] ++ ms)) by (rewrite !length_app; cbn; lia).
      unfold value. rewrite (app_assoc [ch "-"] ms), (app_assoc ys). apply at_pos_app. }
    assert (parse_digits value 0 4 = Some year) as -> by (by apply parse_digits_head).
    assert (parse_digits value 5 2 = Some month) as ->.
    { replace 5%nat with (length (ys ++ [ch "-"])) by (rewrite length_app, Ly; done).
      eapply parse_digits_field; [|exact Hm]. unfold value. by rewrite <- app_assoc. }
    assert (parse_digits value 8 2 = Some day) as ->.
    { replace 8%nat with (length (ys ++ [ch "-"] ++ ms ++ [ch "-"])) by (rewrite !length_app; cbn; lia).
      eapply (parse_digits_field _ _ _ []); [|exact Hd]. unfold value. rewrite app_nil_r.
      by rewrite <- !app_assoc. }
    mcbn. pose proof (field_bounds _ _ _ Hy).
    assert (valid_date year month day = true) as -> by (apply valid_date_spec; [lia|done]). done.
Qed.

(** ** Lemmas: times *)

Lemma fraction_loop fs f n d : digits fs -> 0 <= n <= 9 ->
  foldl fraction_step (f, n, d) fs =
    (f * 10 ^ Z.min (9 - n) (size fs) + digits_value (take (Z.to_nat (9 - n)) fs),
     Z.min 9 (n + size fs),
     d || existsb (fun c => negb (c =? ch "0")) (drop (Z.to_nat (9 - n)) fs)).
Proof.
  intros Hfs. revert f n d. induction Hfs as [|c fs Hc Hfs IH]; intros f n d Hn.
  { rewrite take_nil, drop_nil. change (size []) with 0. change (digits_value []) with 0.
    rewrite !Z.min_r by lia. cbn [foldl existsb]. rewrite orb_false_r, Z.pow_0_r. f_equal. f_equal; lia. }
  cbn [foldl fraction_step]. pose proof (size_nonneg fs). rewrite size_cons.
  destruct (n <? 9) eqn:E; zb.
  - rewrite IH by lia. replace (Z.to_nat (9 - n)) with (S (Z.to_nat (9 - (n + 1)))) by lia.
    cbn [take drop]. rewrite digits_value_cons. f_equal. f_equal; [|lia].
    assert (size (take (Z.to_nat (9 - (n + 1))) fs) = Z.min (9 - (n + 1)) (size fs)) as ->
      by (unfold size; rewrite length_take; lia).
    replace (Z.min (9 - n) (size fs + 1)) with (Z.min (9 - (n + 1)) (size fs) + 1) by lia.
    rewrite (Z.pow_add_r _ _ 1), Z.pow_1_r by lia. lia.
  - assert (n = 9) as -> by lia. rewrite IH by lia. change (Z.to_nat (9 - 9)) with 0%nat.
    rewrite !take_0, !drop_0. cbn [existsb]. rewrite orb_assoc. f_equal. f_equal; [|lia].
    do 3 f_equal. lia.
Qed.

Lemma fraction_exact fs : digits fs ->
  (let '(fraction, counted, discarded) := foldl fraction_step (0, 0, false) fs in
   (fraction * 10 ^ (9 - counted), discarded)) = (nanoseconds fs, below_nanoseconds fs).
Proof.
  intros Hfs. rewrite fraction_loop by (done || lia). rewrite Z.mul_0_l, Z.add_0_l, orb_false_l, Z.sub_0_r.
  pose proof (size_nonneg fs). unfold nanoseconds, below_nanoseconds. f_equal.
  - unfold scale10. destruct (0 <=? 9 - size fs) eqn:E; zb.
    + rewrite Z.min_r, take_ge by (unfold size in *; lia). done.
    + rewrite Z.min_l, Z.mul_1_r by lia.
      destruct (digits_value_take fs (Z.to_nat 9) Hfs) as [-> _]; [unfold size in *; lia|]. f_equal. f_equal. lia.
  - rewrite <- dropped_digits by done || lia. f_equal. unfold size in *.
    destruct (Z.le_gt_cases 9 (Z.of_nat (length fs))); [f_equal; lia|].
    rewrite !drop_ge by lia. done.
Qed.

Lemma valid_zone_spec s c : c = ch "+" \/ c = ch "-" ->
  valid_zone s = true <-> zone_text (c :: s).
Proof.
  intros Hc. unfold valid_zone. split.
  - destruct (length s) as [|[|[|[|[|[|n]]]]]] eqn:El; try done.
    + destruct (parse_digits s 0 2) as [h|] eqn:E; [|done]. intros ?%Z.leb_le.
      apply parse_digits_sound in E as [E _]. rewrite drop_0, take_ge in E by lia. by eapply zone_hours.
    + destruct (at_pos s 2 =? ch ":") eqn:Ec; [|done]. zb.
      destruct (parse_digits s 0 2) as [h|] eqn:Eh; [|done].
      destruct (parse_digits s 3 2) as [m|] eqn:Em; [|done]. intros Hb. cbn [andb] in Hb. zb.
      apply parse_digits_sound in Eh as [Eh _], Em as [Em _].
      rewrite (take_ge (drop 3 s)) in Em by (rewrite length_drop; lia). rewrite drop_0 in Eh.
      rewrite (split_at s 2), Ec by lia. by eapply zone_minutes.
  - intros Hz. remember (c :: s) as cs eqn:Ecs.
    destruct Hz as [|c' hs hours _ Hh Hb|c' hs ms hours minutes _ Hh Hm Hb1 Hb2]; [done|..];
      injection Ecs as -> <-.
    + pose proof Hh as (_ & -> & _). rewrite <- (app_nil_r hs), (parse_digits_head hs [] 2 hours) by done. by apply Z.leb_le.
    + pose proof Hh as (_ & Lh & _). pose proof Hm as (_ & Lm & _).
      rewrite length_app. cbn [app length]. rewrite Lh, Lm. cbn [Nat.add].
      assert (at_pos (hs ++ ch ":" :: ms) 2 = ch ":") as -> by (rewrite <- Lh; apply at_pos_app).
      rewrite (parse_digits_head hs _ 2 hours) by done.
      assert (parse_digits (hs ++ ch ":" :: ms) 3 2 = Some minutes) as ->.
      { replace 3%nat with (length (hs ++ [ch ":"])) by (rewrite length_app, Lh; done).
        eapply (parse_digits_field _ _ _ []); [|exact Hm]. by rewrite app_nil_r, <- app_assoc. }
      cbn [andb Z.eqb]. rewrite !(proj2 (Z.leb_le _ _)) by done. done.
Qed.

Lemma zone_head zone c : zone_text zone -> head zone = Some c -> c = ch "+" \/ c = ch "-".
Proof. by destruct 1; [|intros [= <-]..]. Qed.

Lemma time_suffix_complete fs zone : digits fs -> zone_text zone ->
  valid_time_suffix (point_fraction fs ++ zone) = true /\
  parse_fraction (point_fraction fs ++ zone) = (nanoseconds fs, below_nanoseconds fs).
Proof.
  intros Hfs Hz. pose proof (fun c => zone_head zone c Hz) as Hh.
  assert ((match zone with [] => true
          | c :: z => ((c =? ch "+") || (c =? ch "-")) && valid_zone z end) = true) as Hzone.
  { destruct zone as [|c z]; [done|]. specialize (Hh c eq_refl).
    rewrite (proj2 (valid_zone_spec z c Hh)) by done. destruct Hh as [-> | ->]; done. }
  destruct fs as [|f fs].
  - cbn [point_fraction app]. unfold valid_time_suffix, parse_fraction.
    change (nanoseconds []) with 0. change (below_nanoseconds []) with false.
    destruct zone as [|c z]; [done|]. specialize (Hh c eq_refl).
    assert ((c =? ch ".") = false) as -> by (destruct Hh as [-> | ->]; done). done.
  - unfold point_fraction, valid_time_suffix, parse_fraction. cbn [app].
    change (ch "." =? ch ".") with true. cbn iota. rewrite app_comm_cons.
    rewrite span_exact; [|done|].
    + cbn [fst]. rewrite fraction_exact by done. by destruct zone.
    + intros c Hc. specialize (Hh c Hc). by destruct Hh as [-> | ->].
Qed.

Lemma time_suffix_sound s : valid_time_suffix s = true ->
  exists fs zone, s = point_fraction fs ++ zone /\ digits fs /\ zone_text zone.
Proof.
  unfold valid_time_suffix. intros H.
  assert (forall z, match z with [] => true
    | c :: z => ((c =? ch "+") || (c =? ch "-")) && valid_zone z end = true -> zone_text z) as Hz.
  { intros [|c z]; [constructor|]. intros [Hc Hv]%andb_true_iff. rewrite orb_true_iff, !Z.eqb_eq in Hc.
    by apply valid_zone_spec. }
  destruct s as [|c t]; [exists [], []; split_and!; [done|constructor|constructor]|].
  destruct (c =? ch ".") eqn:Ec.
  - destruct (span isdigit t) as [[|f fs] r] eqn:Es; [done|]. apply Z.eqb_eq in Ec as ->.
    exists (f :: fs), r. apply span_app in Es as Et. subst t. split_and!; [done|by eapply span_forall|].
    apply Hz. by destruct r.
  - exists [], (c :: t). split_and!; [done|constructor|by apply Hz].
Qed.

Lemma parse_time_exact value hour minute second fraction discarded :
  parse_time value = Some (hour, minute, second, fraction, discarded) <->
  exists fs, time_text value hour minute second fs /\
    fraction = nanoseconds fs /\ discarded = below_nanoseconds fs.
Proof.
  unfold parse_time. split.
  - destruct (_ || _) eqn:E; [done|]. apply orb_false_iff in E as [E E2%negb_false_iff%Z.eqb_eq].
    apply orb_false_iff in E as [E0%Nat.ltb_ge E1%negb_false_iff%Z.eqb_eq].
    destruct (parse_digits value 0 2) as [h|] eqn:Eh; [|done].
    destruct (parse_digits value 3 2) as [m|] eqn:Em; [|done].
    destruct (parse_digits value 6 2) as [s|] eqn:Es; [|done]. mcbn.
    destruct (_ || _) eqn:Eb; [done|]. apply orb_false_iff in Eb as [Eb Ev%negb_false_iff]. zb.
    apply time_suffix_sound in Ev as (fs & zone & Esuf & Hfs & Hz). rewrite Esuf.
    rewrite (proj2 (time_suffix_complete fs zone Hfs Hz)). intros [= <- <- <- <- <-].
    exists fs. split; [|done].
    apply parse_digits_sound in Eh as [Hh _], Em as [Hm _], Es as [Hs _]. rewrite drop_0 in Hh.
    rewrite (split_two value 2 2), E1 by lia. cbn [Nat.add].
    rewrite (split_two (drop 5 value) 0 2) by (rewrite length_drop; lia).
    rewrite at_pos_drop, take_0, !drop_drop. cbn [app Nat.add]. rewrite E2, Esuf. by constructor.
  - intros (fs & Ht & -> & ->). destruct Ht as [hs ms ss fs hour minute second zone Hh Hm Hs Hb1 Hb2 Hb3 Hfs Hz].
    pose proof Hh as (_ & Lh & _). pose proof Hm as (_ & Lm & _). pose proof Hs as (_ & Ls & _).
    set (value := hs ++ _).
    assert ((length value <? 8)%nat = false) as -> by (apply Nat.ltb_ge; unfold value; rewrite !length_app; cbn; lia).
    assert (at_pos value 2 = ch ":") as -> by (rewrite <- Lh; apply at_pos_app).
    assert (at_pos value 5 = ch ":") as ->.
    { replace 5%nat with (length (hs ++ [ch ":"] ++ ms)) by (rewrite !length_app; cbn; lia).
      unfold value. rewrite (app_assoc [ch ":"] ms), (app_assoc hs). apply at_pos_app. }
    assert (parse_digits value 0 2 = Some hour) as -> by (by apply parse_digits_head).
    assert (parse_digits value 3 2 = Some minute) as ->.
    { replace 3%nat with (length (hs ++ [ch ":"])) by (rewrite length_app, Lh; done).
      eapply parse_digits_field; [|exact Hm]. unfold value. by rewrite <- app_assoc. }
    assert (value = (hs ++ [ch ":"] ++ ms ++ [ch ":"]) ++ ss ++ point_fraction fs ++ zone) as Ev
      by (unfold value; by rewrite <- !app_assoc).
    assert (length (hs ++ [ch ":"] ++ ms ++ [ch ":"]) = 6%nat) as L6 by (rewrite !length_app; cbn; lia).
    assert (parse_digits value 6 2 = Some second) as ->
      by (rewrite <- L6; eapply parse_digits_field; [exact Ev|exact Hs]).
    assert (drop 8 value = point_fraction fs ++ zone) as ->.
    { rewrite Ev, app_assoc. replace 8%nat with (length ((hs ++ [ch ":"] ++ ms ++ [ch ":"]) ++ ss))
        by (rewrite length_app; lia). apply drop_app_length. }
    destruct (time_suffix_complete fs zone Hfs Hz) as [-> ->]. mcbn. by repeat ztest.
Qed.

(** ** Dates, times and both *)

Inductive datetime_text : bytes -> option (Z * Z * Z) -> option (Z * Z * Z * bytes) -> Prop :=
| datetime_date t year month day :
    date_text t year month day -> datetime_text t (Some (year, month, day)) None
| datetime_time t hour minute second fs :
    time_text t hour minute second fs -> datetime_text t None (Some (hour, minute, second, fs))
| datetime_both td sep tt year month day hour minute second fs :
    date_text td year month day -> sep = ch " " \/ sep = ch "T" ->
    time_text tt hour minute second fs ->
    datetime_text (td ++ [sep] ++ tt) (Some (year, month, day)) (Some (hour, minute, second, fs)).

(** What each target type makes of a date and a time. *)
Definition as_date (date : option (Z * Z * Z)) (time : option (Z * Z * Z * bytes)) : Converted :=
  match date with
  | None => invalid_datetime
  | Some (year, month, day) =>
      stored_as (Date year month day) 6
        (match time with
         | None => false
         | Some (hour, minute, second, fs) =>
             negb ((hour =? 0) && (minute =? 0) && (second =? 0) && (digits_value fs =? 0))
         end)
  end.

Definition as_time (time : option (Z * Z * Z * bytes)) : Converted :=
  match time with
  | None => invalid_datetime
  | Some (hour, minute, second, fs) =>
      stored_as (Time hour minute second) 6 (negb (digits_value fs =? 0))
  end.

Definition as_timestamp (local : option (Z * Z * Z)) (date : option (Z * Z * Z))
    (time : option (Z * Z * Z * bytes)) : Converted :=
  match date, time with
  | Some (year, month, day), None => stored_as (Timestamp year month day 0 0 0 0) 16 false
  | Some (year, month, day), Some (hour, minute, second, fs) =>
      stored_as (Timestamp year month day hour minute second (nanoseconds fs)) 16 (below_nanoseconds fs)
  | None, Some (hour, minute, second, fs) =>
      match local with
      | Some (tm_year, tm_mon, tm_mday) =>
          if 32767 <? tm_year + 1900 then invalid_datetime
          else stored_as (Timestamp (to_smallint (tm_year + 1900)) (to_usmallint (tm_mon + 1))
                            (to_usmallint tm_mday) hour minute second (nanoseconds fs)) 16
                 (below_nanoseconds fs)
      | None => invalid_datetime
      end
  | None, None => invalid_datetime
  end.

Lemma date_text_shape t year month day : date_text t year month day ->
  length t = 10%nat /\ isdigit (at_pos t 2) = true.
Proof.
  destruct 1 as [ys ms ds year month day (Hy & Ly & _) (_ & Lm & _) (_ & Ld & _) _ _ _].
  split; [rewrite !length_app; cbn; lia|]. rewrite at_pos_app_l by lia. unfold at_pos.
  do 3 (destruct ys as [|? ys]; [done|]). inv_forall. done.
Qed.

Definition time_char (c : Z) : Prop := isdigit c = true \/ c = ch ":" \/ c = ch "." \/ c = ch "+" \/ c = ch "-".

Lemma digits_time_chars s : digits s -> Forall time_char s.
Proof. intros H. eapply list.Forall_impl; [exact H|]. by left. Qed.

Lemma time_text_chars t hour minute second fs : time_text t hour minute second fs ->
  Forall time_char t /\ (8 <= length t)%nat /\ at_pos t 2 = ch ":" /\ at_pos t 5 = ch ":".
Proof.
  intros Ht. assert (exists f d, parse_time t = Some (hour, minute, second, f, d)) as (f & d & Hp)
    by (do 2 eexists; apply parse_time_exact; eauto).
  unfold parse_time in Hp. destruct (_ || _) eqn:E; [done|]. clear Hp.
  apply orb_false_iff in E as [E E2%negb_false_iff%Z.eqb_eq].
  apply orb_false_iff in E as [E0%Nat.ltb_ge E1%negb_false_iff%Z.eqb_eq]. split; [|done].
  destruct Ht as [hs ms ss fs hour minute second zone (Hh & _) (Hm & _) (Hs & _) _ _ _ Hfs Hz].
  assert (Forall time_char [ch ":"]) as Hcolon by (apply Forall_cons; [by right; left|constructor]).
  assert (Forall time_char (point_fraction fs)) as Hp.
  { destruct fs; [constructor|]. apply Forall_cons; [by right; right; left|by apply digits_time_chars]. }
  assert (forall c, c = ch "+" \/ c = ch "-" -> time_char c) as Hsign by (intros c Hc; by right; right; right).
  assert (Forall time_char zone) as Hzone.
  { destruct Hz as [|c hs' ? Hc (? & _)|c hs' ms' ? ? Hc (? & _) (? & _)];
      [constructor|apply Forall_cons; [by apply Hsign|]..].
    - by apply digits_time_chars.
    - apply Forall_app; split; [by apply digits_time_chars|].
      apply Forall_app; split; [done|by apply digits_time_chars]. }
  repeat (apply Forall_app; split); try done; by apply digits_time_chars.
Qed.

Lemma time_not_timestamp t hour minute second fs :
  time_text t hour minute second fs -> is_timestamp t = false.
Proof.
  intros (Hc & _)%time_text_chars. unfold is_timestamp.
  destruct (19 <=? length t)%nat eqn:E; [|done]. apply Nat.leb_le in E. cbn [andb].
  assert (time_char (at_pos t 10)) as H.
  { unfold at_pos. rewrite List.Forall_forall in Hc. apply Hc, nth_In. lia. }
  destruct H as [H%isdigit_spec|H]; by repeat ztest.
Qed.

Lemma date_time_split td sep tt year month day hour minute second fs :
  date_text td year month day -> sep = ch " " \/ sep = ch "T" ->
  time_text tt hour minute second fs ->
  let t := td ++ [sep] ++ tt in
  is_timestamp t = true /\ take 10 t = td /\ drop 11 t = tt /\
  (length t =? 10)%nat = false /\ (at_pos t 2 =? ch ":") = false.
Proof.
  intros (Ld & Hd)%date_text_shape Hsep (_ & Lt & _)%time_text_chars t.
  assert (length t = 11 + length tt)%nat as Lt' by (unfold t; rewrite !length_app; cbn; lia).
  assert (at_pos t 10 = sep) as E by (rewrite <- Ld; apply at_pos_app). split_and!.
  - unfold is_timestamp. rewrite E, (proj2 (Nat.leb_le _ _)) by lia. by destruct Hsep as [-> | ->].
  - unfold t. rewrite <- Ld. apply take_app_length.
  - unfold t. rewrite app_assoc. replace 11%nat with (length (td ++ [sep])) by (rewrite length_app; cbn; lia).
    apply drop_app_length.
  - apply Nat.eqb_neq. lia.
  - unfold t. rewrite at_pos_app_l by lia. apply isdigit_spec in Hd. lia.
Qed.

(** A cut at the separator reads as a date and a time. *)
Lemma timestamp_text t date hour minute second fraction discarded :
  is_timestamp t = true -> parse_date (take 10 t) = Some date ->
  parse_time (drop 11 t) = Some (hour, minute, second, fraction, discarded) ->
  exists fs, datetime_text t (Some date) (Some (hour, minute, second, fs)).
Proof.
  destruct date as [[year month] day]. unfold is_timestamp.
  intros [Hl%Nat.leb_le Hs]%andb_true_iff Hd%parse_date_exact (fs & Ht & _)%parse_time_exact.
  exists fs. rewrite (split_at t 10) by lia. rewrite orb_true_iff, !Z.eqb_eq in Hs. by constructor.
Qed.

Lemma fraction_zero fs : digits fs ->
  negb (nanoseconds fs =? 0) || below_nanoseconds fs = negb (digits_value fs =? 0).
Proof.
  intros Hfs. pose proof (digits_value_bounds fs Hfs). unfold below_nanoseconds.
  destruct (nanoseconds fs =? 0) eqn:E; zb; cbn [negb orb].
  - rewrite exact10_zero_value by (done || lia). done.
  - destruct (digits_value fs =? 0) eqn:E0; [|done]. zb. destruct E. unfold nanoseconds. rewrite E0.
    apply scale10_zero.
Qed.

Lemma time_text_digits t hour minute second fs : time_text t hour minute second fs -> digits fs.
Proof. by destruct 1. Qed.

Section Reading.
Context (value : bytes) (date : option (Z * Z * Z)) (time : option (Z * Z * Z * bytes)).
Context (Htext : datetime_text (trim_whitespace value) date time).

(** The parsers on text of the grammar. *)
Lemma parse_time_of t hour minute second fs : time_text t hour minute second fs ->
  parse_time t = Some (hour, minute, second, nanoseconds fs, below_nanoseconds fs).
Proof using. intros H. apply parse_time_exact. eauto. Qed.

Lemma parse_date_of t year month day : date_text t year month day ->
  parse_date t = Some (year, month, day).
Proof using. apply parse_date_exact. Qed.

Lemma date_not_timestamp t year month day : date_text t year month day -> is_timestamp t = false.
Proof using. intros (Hl & _)%date_text_shape. unfold is_timestamp. by rewrite Hl. Qed.

Lemma time_not_date t hour minute second fs : time_text t hour minute second fs -> parse_date t = None.
Proof using.
  intros Ht. destruct (parse_date t) as [[[y m] d]|] eqn:E; [|done].
  apply parse_date_exact, date_text_shape in E as [_ E%isdigit_spec].
  apply time_text_chars in Ht as (_ & _ & E2 & _). lia.
Qed.

Lemma date_not_time t year month day : date_text t year month day ->
  (at_pos t 2 =? ch ":") = false /\ parse_time t = None.
Proof using.
  intros (_ & E%isdigit_spec)%date_text_shape. assert ((at_pos t 2 =? ch ":") = false) as E1 by lia.
  split; [done|]. unfold parse_time. rewrite E1. by rewrite orb_true_r.
Qed.

Lemma convert_date_reads : convert_date value = as_date date time.
Proof using Htext.
  unfold convert_date. destruct Htext as [t y m d Hd|t h mi s fs Ht|td sep tt y m d h mi s fs Hd Hsep Ht].
  - by rewrite (date_not_timestamp _ _ _ _ Hd), (parse_date_of _ _ _ _ Hd).
  - by rewrite (time_not_timestamp _ _ _ _ _ Ht), (time_not_date _ _ _ _ _ Ht).
  - destruct (date_time_split td sep tt y m d h mi s fs Hd Hsep Ht) as (-> & -> & -> & _).
    rewrite (parse_date_of _ _ _ _ Hd), (parse_time_of _ _ _ _ _ Ht). cbn [as_date].
    rewrite <- !orb_assoc, fraction_zero, !negb_andb, !orb_assoc by (by eapply time_text_digits). done.
Qed.

Lemma convert_time_reads : convert_time value = as_time time.
Proof using Htext.
  unfold convert_time. destruct Htext as [t y m d Hd|t h mi s fs Ht|td sep tt y m d h mi s fs Hd Hsep Ht].
  - rewrite (date_not_timestamp _ _ _ _ Hd). by rewrite (proj2 (date_not_time _ _ _ _ Hd)).
  - rewrite (time_not_timestamp _ _ _ _ _ Ht), (parse_time_of _ _ _ _ _ Ht). cbn [as_time].
    by rewrite fraction_zero by (by eapply time_text_digits).
  - destruct (date_time_split td sep tt y m d h mi s fs Hd Hsep Ht) as (-> & -> & -> & _).
    rewrite (parse_date_of _ _ _ _ Hd), (parse_time_of _ _ _ _ _ Ht). cbn [as_time].
    by rewrite fraction_zero by (by eapply time_text_digits).
Qed.

Lemma convert_timestamp_reads local : convert_timestamp local value = as_timestamp local date time.
Proof using Htext.
  unfold convert_timestamp. destruct Htext as [t y m d Hd|t h mi s fs Ht|td sep tt y m d h mi s fs Hd Hsep Ht].
  - rewrite (date_not_timestamp _ _ _ _ Hd), (proj1 (date_not_time _ _ _ _ Hd)).
    pose proof (date_text_shape _ _ _ _ Hd) as [Hl _]. rewrite Hl. cbn [Nat.eqb Nat.leb andb negb].
    rewrite take_ge, (parse_date_of _ _ _ _ Hd) by lia. done.
  - pose proof (time_text_chars _ _ _ _ _ Ht) as (_ & Hl & -> & ->).
    rewrite (proj2 (Nat.leb_le _ _)), (parse_time_of _ _ _ _ _ Ht) by done.
    change (ch ":" =? ch ":") with true. cbn [andb negb]. rewrite andb_false_r.
    by destruct local as [[[]]|].
  - destruct (date_time_split td sep tt y m d h mi s fs Hd Hsep Ht) as (-> & -> & -> & -> & ->).
    rewrite !andb_false_r. cbn [andb negb]. cbn iota.
    by rewrite (parse_date_of _ _ _ _ Hd), (parse_time_of _ _ _ _ _ Ht).
Qed.
End Reading.

Lemma time_text_of t hour minute second fraction discarded :
  parse_time t = Some (hour, minute, second, fraction, discarded) ->
  exists date time, datetime_text t date time.
Proof. intros (fs & Ht & _)%parse_time_exact. do 2 eexists. by constructor. Qed.

Lemma date_text_of t date : parse_date t = Some date -> exists date time, datetime_text t date time.
Proof. destruct date as [[y m] d]. intros H%parse_date_exact. do 2 eexists. by constructor. Qed.

(** Any conversion but [invalid_datetime] comes from text of the grammar. *)
Lemma temporal_rejects local value :
  (~ exists date time, datetime_text (trim_whitespace value) date time) ->
  convert_date value = invalid_datetime /\ convert_time value = invalid_datetime /\
  convert_timestamp local value = invalid_datetime.
Proof.
  set (t := trim_whitespace value). intros Hno.
  assert (parse_date t = None) as Ed.
  { destruct (parse_date t) eqn:E; [|done]. by apply date_text_of in E. }
  assert (parse_time t = None) as Et.
  { destruct (parse_time t) as [[[[[? ?] ?] ?] ?]|] eqn:E; [|done]. by apply time_text_of in E. }
  assert (is_timestamp t = true -> parse_date (take 10 t) = None \/ parse_time (drop 11 t) = None) as Es.
  { intros Hs. destruct (parse_date (take 10 t)) eqn:E1; [|by left].
    destruct (parse_time (drop 11 t)) as [[[[[? ?] ?] ?] ?]|] eqn:E2; [|by right].
    destruct (timestamp_text _ _ _ _ _ _ _ Hs E1 E2) as [fs H]. destruct Hno. eauto. }
  unfold convert_date, convert_time, convert_timestamp. fold t. rewrite Et. split_and!.
  - destruct (is_timestamp t); [|by rewrite Ed].
    destruct Es as [-> | ->]; [done|done|]. by destruct (parse_date (take 10 t)) as [[[]]|].
  - destruct (is_timestamp t); [|done]. destruct Es as [-> | ->]; [done|done|]. by destruct (parse_date (take 10 t)) as [[[]]|].
  - destruct ((8 <=? length t)%nat && (at_pos t 2 =? ch ":") && (at_pos t 5 =? ch ":"));
      [by destruct (_ && negb (is_timestamp t))|]. rewrite andb_true_r.
    destruct (_ && negb (is_timestamp t)) eqn:E; [done|].
    destruct (length t =? 10)%nat eqn:El.
    + apply Nat.eqb_eq in El. rewrite take_ge, Ed by lia. done.
    + cbn [negb andb] in E. apply negb_false_iff in E.
      destruct Es as [-> | ->]; [done|done|]. by destruct (parse_date (take 10 t)) as [[[]]|].
Qed.


