(* ===== verification/ConvertData.v ===== *)
(** * Text to the application's buffer

    The character, wide and binary conversions of [odbc/text_data_converter.cpp]
    and [TextDataConverter::convert_data], which chooses the conversion by the C
    type of the buffer.  A buffer is null or holds [buffer_length] bytes. *)

From S2P Require Import Prelude Digits Utf8 Unicode PgIeee ScaledDecimal ResultTypes ConvertNumber ConvertTime.

(** ** Definitions *)

Definition convert_string (value : bytes) (buffer_length : Z) : Converted :=
  if buffer_length <? 0
  then {| code := SQL_ERROR; issue := None; buffer := None; indicator := None |}
  else if buffer_length =? 0
  then {| code := SQL_SUCCESS_WITH_INFO; issue := None; buffer := None; indicator := Some (size value) |}
  else
    let capacity := buffer_length - 1 in
    let copy_length := Z.min capacity (size value) in
    {| code := if copy_length <? size value then SQL_SUCCESS_WITH_INFO else SQL_SUCCESS;
       issue := None; buffer := Some (Chars (take (Z.to_nat copy_length) value ++ [0]));
       indicator := Some (size value) |}.

Definition wchar_size (w : wide) : Z := match w with W16 => 2 | W32 => 4 end.

(** The units copied: a high surrogate is not left alone at the end. *)
Definition wide_copy_length (w : wide) (units : list Z) (capacity : Z) : Z :=
  let copy_length := Z.min capacity (size units) in
  match w with
  | W16 =>
      if (copy_length <? size units) && (0 <? copy_length) &&
         (0xd800 <=? at_pos units (Z.to_nat (copy_length - 1))) &&
         (at_pos units (Z.to_nat (copy_length - 1)) <=? 0xdbff)
      then copy_length - 1 else copy_length
  | W32 => copy_length
  end.

Definition convert_wide_string (w : wide) (value : bytes) (buffer_length : Z) : Converted :=
  if buffer_length <? 0
  then {| code := SQL_ERROR; issue := None; buffer := None; indicator := None |}
  else
    match utf8_to_wide w value with
    | None => failed ConversionIssue.InvalidCharacterValue
    | Some units =>
        let required_bytes := size units * wchar_size w in
        let buffer_units := buffer_length / wchar_size w in
        if buffer_units =? 0
        then {| code := SQL_SUCCESS_WITH_INFO; issue := None; buffer := None;
                indicator := Some required_bytes |}
        else
          let copy_length := wide_copy_length w units (buffer_units - 1) in
          {| code := if copy_length <? size units then SQL_SUCCESS_WITH_INFO else SQL_SUCCESS;
             issue := None; buffer := Some (WideChars (take (Z.to_nat copy_length) units ++ [0]));
             indicator := Some required_bytes |}
    end.

Definition convert_binary (value : bytes) (buffer_length : Z) : Converted :=
  if buffer_length <? 0 then failed ConversionIssue.InvalidCharacterValue
  else
    let copy_length := Z.min buffer_length (size value) in
    {| code := if copy_length <? size value then SQL_SUCCESS_WITH_INFO else SQL_SUCCESS;
       issue := None;
       buffer := if 0 <? copy_length then Some (Raw (take (Z.to_nat copy_length) value)) else None;
       indicator := Some (size value) |}.

Section Convert.
Context (w : wide) (lib : FloatLibrary) (local : option (Z * Z * Z)).

Definition convert_data (value : bytes) (target_c_type : Z) (null_buffer : bool) (buffer_length : Z)
    (numeric_precision numeric_scale : Z) : Converted :=
  let unsupported := {| code := SQL_ERROR; issue := None; buffer := None; indicator := None |} in
  if null_buffer then unsupported
  else
    let c := canonical_c_type target_c_type in
    if c =? SQL_C_CHAR then convert_string value buffer_length
    else if c =? SQL_C_WCHAR then convert_wide_string w value buffer_length
    else if c =? SQL_C_STINYINT then convert_integral lib SQLSCHAR value
    else if c =? SQL_C_UTINYINT then convert_integral lib SQLCHAR value
    else if c =? SQL_C_USHORT then convert_integral lib SQLUSMALLINT value
    else if c =? SQL_C_ULONG then convert_integral lib SQLUINTEGER value
    else if c =? SQL_C_UBIGINT then convert_integral lib SQLUBIGINT value
    else if c =? SQL_C_SSHORT then convert_integral lib SQLSMALLINT value
    else if c =? SQL_C_SLONG then convert_integral lib SQLINTEGER value
    else if c =? SQL_C_SBIGINT then convert_integral lib SQLBIGINT value
    else if c =? SQL_C_NUMERIC then convert_numeric value numeric_precision numeric_scale
    else if one_of c [SQL_C_FLOAT; SQL_C_DOUBLE]
    then convert_floating lib value (if target_c_type =? SQL_C_FLOAT then binary32 else binary64)
    else if c =? SQL_C_BIT then convert_boolean lib value
    else if one_of c [SQL_C_DATE; SQL_C_TYPE_DATE] then convert_date value
    else if one_of c [SQL_C_TIME; SQL_C_TYPE_TIME] then convert_time value
    else if one_of c [SQL_C_TIMESTAMP; SQL_C_TYPE_TIMESTAMP] then convert_timestamp local value
    else if c =? SQL_C_BINARY then convert_binary value buffer_length
    else unsupported.

(** ** Lemmas *)

(** A conversion that fails says why. *)
Definition explained (r : Converted) : Prop := code r = SQL_ERROR -> issue r <> None /\ buffer r = None.

Lemma explained_failed i : explained (failed i).
Proof using. done. Qed.

Lemma explained_stored o n b : explained (stored_as o n b).
Proof using. by destruct b. Qed.

Lemma explained_integral T value : explained (convert_integral lib T value).
Proof using.
  unfold convert_integral, integer_path, decimal_path, floating_path, place_integral, finish.
  repeat (case_match; simplify_eq; try (by apply explained_failed); try (by apply explained_stored)).
Qed.

Lemma explained_boolean value : explained (convert_boolean lib value).
Proof using.
  unfold convert_boolean. pose proof (explained_integral SQLSMALLINT value) as H.
  repeat (case_match; try (by apply explained_failed); try (by apply explained_stored)).
  intros _. by destruct H.
Qed.

Lemma explained_floating value f : explained (convert_floating lib value f).
Proof using. unfold convert_floating. case_match; [apply explained_stored|apply explained_failed]. Qed.

Lemma explained_numeric value precision sc : explained (convert_numeric value precision sc).
Proof using.
  unfold convert_numeric. repeat (case_match; try apply explained_failed); apply explained_stored.
Qed.

Lemma explained_temporal value :
  explained (convert_date value) /\ explained (convert_time value) /\
  explained (convert_timestamp local value).
Proof using.
  unfold convert_date, convert_time, convert_timestamp, invalid_datetime.
  split_and!; repeat (case_match; try apply explained_failed); apply explained_stored.
Qed.

Lemma explained_text value buffer_length : 0 <= buffer_length ->
  explained (convert_string value buffer_length) /\ explained (convert_wide_string w value buffer_length) /\
  explained (convert_binary value buffer_length).
Proof using.
  intros H. unfold convert_string, convert_wide_string, convert_binary, explained.
  ztest. split_and!; repeat (case_match; cbn [code]; try done).
Qed.

End Convert.


(** ** Truncated text *)

Definition high_surrogate (u : Z) : Prop := 0xd800 <= u <= 0xdbff.

Lemma wide_encode_shape w c : is_scalar c = true ->
  (exists u, wide_encode w c = [u] /\ ~ high_surrogate u) \/
  (w = W16 /\ exists u v, wide_encode w c = [u; v] /\ high_surrogate u /\ ~ high_surrogate v).
Proof.
  intros Hc%is_scalar_spec. unfold high_surrogate. destruct w; cbn [wide_encode]; [|left; eexists; split; [done|lia]].
  case_match; zb; [left; eexists; split; [done|lia]|]. right. split; [done|]. do 2 eexists. split; [done|]. dlia.
Qed.

Lemma wide_text_cons w c cs : wide_text w (c :: cs) = wide_encode w c ++ wide_text w cs.
Proof. done. Qed.

(** A cut of the units falls between two code points, or inside a pair. *)
Lemma wide_cut w cs (k : nat) : scalars cs -> (k <= length (wide_text w cs))%nat ->
  exists cs1 cs2, cs = cs1 ++ cs2 /\
    ((length (wide_text w cs1) = k /\
      ((0 < k)%nat -> ~ high_surrogate (at_pos (wide_text w cs) (k - 1)))) \/
     (w = W16 /\ S (length (wide_text w cs1)) = k /\ (k < length (wide_text w cs))%nat /\
      high_surrogate (at_pos (wide_text w cs) (k - 1)) /\
      exists c t, cs2 = c :: t /\ length (wide_encode w c) = 2%nat)).
Proof.
  intros Hcs. revert k. induction Hcs as [|c cs Hc Hcs IH]; intros k Hk.
  { exists [], []. split; [done|]. left. cbn in *. split; [lia|lia]. }
  destruct (decide (k = 0)%nat) as [->|Hk0].
  { exists [], (c :: cs). split; [done|]. left. split; [done|lia]. }
  destruct (wide_encode_shape w c Hc) as [(u & Eu & Hu)|(-> & u & v & Eu & Hu & Hv)];
    rewrite wide_text_cons, Eu in *; cbn [app length] in *.
  - destruct (IH (k - 1)%nat) as (cs1 & cs2 & -> & Hcase); [lia|].
    exists (c :: cs1), cs2. split; [done|]. rewrite wide_text_cons, Eu. cbn [app length].
    destruct k as [|[|k]]; [done|..].
    + left. destruct Hcase as [[Hl _]|(_ & ? & _)]; [|lia]. split; [lia|]. done.
    + cbn [Nat.sub] in *. rewrite Nat.sub_0_r in *.
      destruct Hcase as [[Hl Hn]|(-> & Hl & Hlt & Hh & Hc2)];
        [left; split; [lia|intros _; apply Hn; lia]|right; split_and!; [done|lia|lia|done|done]].
  - destruct k as [|[|k]]; [done|..].
    + exists [], (c :: cs). split; [done|]. right. split_and!; [done|done|lia|done|].
      exists c, cs. by rewrite Eu.
    + destruct (IH k) as (cs1 & cs2 & -> & Hcase); [lia|].
      exists (c :: cs1), cs2. split; [done|]. rewrite wide_text_cons, Eu. cbn [app length].
      destruct k as [|k].
      * left. destruct Hcase as [[Hl _]|(_ & ? & _)]; [|lia]. split; [lia|]. done.
      * cbn [Nat.sub] in *. rewrite Nat.sub_0_r in *.
        destruct Hcase as [[Hl Hn]|(_ & Hl & Hlt & Hh & Hc2)];
          [left; split; [lia|intros _; apply Hn; lia]|right; split_and!; [done|lia|lia|done|done]].
Qed.

Lemma wide_text_app w cs1 cs2 : wide_text w (cs1 ++ cs2) = wide_text w cs1 ++ wide_text w cs2.
Proof. unfold wide_text. by rewrite map_app, concat_app. Qed.

Lemma wide_encode_size w c : 1 <= size (wide_encode w c).
Proof. unfold size, wide_encode. destruct w; [case_match|]; cbn; lia. Qed.

(** The units copied are those of the longest prefix of code points that fits. *)
Lemma wide_copy_prefix w cs capacity : scalars cs -> 0 <= capacity ->
  let n := wide_copy_length w (wide_text w cs) capacity in
  exists cs1 cs2, cs = cs1 ++ cs2 /\ take (Z.to_nat n) (wide_text w cs) = wide_text w cs1 /\
    n = size (wide_text w cs1) /\ n <= capacity /\
    (forall c t, cs2 = c :: t -> capacity < size (wide_text w (cs1 ++ [c]))).
Proof.
  intros Hcs Hcap n. set (us := wide_text w cs) in *. set (k := Z.min capacity (size us)).
  assert (0 <= k <= size us) as Hk by (unfold k; pose proof (size_nonneg us); lia).
  destruct (wide_cut w cs (Z.to_nat k) Hcs) as (cs1 & cs2 & E & Hcase); [fold us; unfold size in *; lia|].
  fold us in Hcase. exists cs1, cs2. split; [done|].
  assert (us = wide_text w cs1 ++ wide_text w cs2) as Eus by (unfold us; by rewrite E, wide_text_app).
  assert (n = size (wide_text w cs1)) as Hn.
  { unfold n, wide_copy_length. fold k. unfold high_surrogate in Hcase.
    replace (Z.to_nat (k - 1)) with (Z.to_nat k - 1)%nat by lia.
    destruct Hcase as [[Hl Hnot]|(-> & Hl & Hlt & Hh & _)].
    - unfold size. destruct w; [|lia].
      match goal with |- (if ?b then _ else _) = _ => assert (b = false) as -> end; [|lia].
      destruct (0 <? k) eqn:E0; [|by rewrite andb_false_r]. zb. specialize (Hnot ltac:(lia)). lia.
    - unfold size in *. assert (0 < k) by lia. repeat ztest. lia. }
  split_and!.
  - rewrite Hn, Eus. unfold size. rewrite Nat2Z.id. apply take_app_length.
  - done.
  - rewrite Hn. unfold k, size in *. destruct Hcase as [[Hl _]|(_ & Hl & _)]; lia.
  - intros c t ->. rewrite wide_text_app, size_app. unfold wide_text at 2. cbn [map concat]. rewrite app_nil_r.
    pose proof (wide_encode_size w c).
    assert (size us = size (wide_text w cs1) + size (wide_encode w c) + size (wide_text w t)) as Hus
      by (rewrite Eus, wide_text_cons, !size_app; lia).
    pose proof (size_nonneg (wide_text w t)). unfold size in *. unfold k in *.
    destruct Hcase as [[Hl _]|(_ & Hl & Hlt & _ & c' & t' & [= -> ->] & Hc')]; lia.
Qed.


