(* ===== verification/SqlLex.v ===== *)
(** * Lexical scanning of application SQL

    The scanners of [core/database/postgres/pg_sql_dialect.cpp] that find the end
    of a quoted string, a comment, a dollar-quoted body and an ODBC escape
    clause.  Positions are those of the code: offsets into the whole text, which
    a scanner inspects before its start as well (an [E] before a quote, an
    identifier before a dollar sign). *)

From S2P Require Import Prelude Digits.

(** ** Definitions *)

Definition trim_space (value : bytes) : bytes := trim_by isspace value.

Definition starts_with_word (value word : bytes) : bool :=
  if (length value <? length word)%nat then false
  else if negb (beq (map tolower (take (length word) value)) (map tolower word)) then false
  else match drop (length word) value with
       | [] => true
       | c :: _ => isspace c || (c =? ch "(")
       end.

Definition identifier_continue (c : Z) : bool :=
  isalnum c || (c =? ch "_") || (c =? ch "$") || (0x80 <=? c).

(** [sql.substr(i, 2) == p] for a text [p] of two characters. *)
Definition sees (sql : bytes) (i : nat) (p : bytes) : bool := starts_with (drop i sql) p.

(** The tag [$name$] that starts at [position]. *)
Definition dollar_tag_at (sql : bytes) (position : nat) : option bytes :=
  if negb (at_pos sql position =? ch "$") ||
     ((0 <? position)%nat && identifier_continue (at_pos sql (position - 1)))
  then None
  else
    match find_char (ch "$") (drop (S position) sql) with
    | None => None
    | Some n =>
        let name := take n (drop (S position) sql) in
        match name with
        | c :: _ => if negb (isalpha c) && negb (c =? ch "_") then None
                    else if forallb (fun c => isalnum c || (c =? ch "_")) name
                    then Some (take (S (S n)) (drop position sql)) else None
        | [] => Some (take (S (S n)) (drop position sql))
        end
    end.

(** The scan after an opening quote; [i] is the position of the first character. *)
Fixpoint quoted_scan (quote : Z) (escape_string : bool) (s : bytes) (i : nat) : option nat :=
  match s with
  | [] => None
  | c :: t =>
      if escape_string && (c =? ch "\") then
        match t with
        | _ :: t' => quoted_scan quote escape_string t' (S (S i))
        | [] => None
        end
      else if negb (c =? quote) then quoted_scan quote escape_string t (S i)
      else
        match t with
        | d :: t' => if d =? quote then quoted_scan quote escape_string t' (S (S i)) else Some (S i)
        | [] => Some (S i)
        end
  end.

Definition quoted_end (sql : bytes) (position : nat) : option nat :=
  let quote := at_pos sql position in
  let escape_string :=
    (quote =? ch "'") && (0 <? position)%nat &&
    ((at_pos sql (position - 1) =? ch "E") || (at_pos sql (position - 1) =? ch "e")) &&
    ((position =? 1)%nat || negb (identifier_continue (at_pos sql (position - 2)))) in
  quoted_scan quote escape_string (drop (S position) sql) (S position).

(** The end of a block comment, nested [depth] deep. *)
Fixpoint block_scan (depth : nat) (s : bytes) (i : nat) : option nat :=
  match s with
  | a :: ((b :: t) as r) =>
      if (a =? ch "/") && (b =? ch "*") then block_scan (S depth) t (S (S i))
      else if (a =? ch "*") && (b =? ch "/") then
        if (depth =? 1)%nat then Some (S (S i)) else block_scan (depth - 1) t (S (S i))
      else block_scan depth r (S i)
  | _ => None
  end.

Definition line_end (c : Z) : bool := (c =? 13) || (c =? 10).

Definition comment_end (sql : bytes) (position : nat) : option nat :=
  if sees sql position (str "--") then
    let '(body, rest) := span (fun c => negb (line_end c)) (drop (position + 2)%nat sql) in
    Some (match rest with
          | [] => length sql
          | _ => position + 2 + length body + 1
          end)%nat
  else if sees sql position (str "/*")
  then block_scan 1 (drop (position + 2)%nat sql) (position + 2)%nat
  else None.

(** [s.find(p)]. *)
Fixpoint find_text (p s : bytes) : option nat :=
  if starts_with s p then Some O
  else match s with [] => None | _ :: t => S <$> find_text p t end.

Definition dollar_end (sql : bytes) (position : nat) : option nat :=
  match dollar_tag_at sql position with
  | None => None
  | Some tag =>
      match find_text tag (drop (position + length tag)%nat sql) with
      | None => None
      | Some n => Some (position + length tag + n + length tag)%nat
      end
  end.

(** What starts at a position: a quoted string, a comment, a dollar-quoted
    body, each with its end if it is closed, or another character. *)
Inductive lexical :=
| Quoted (stop : option nat)
| Comment (stop : option nat)
| Dollar (stop : option nat)
| Plain (c : Z).

Definition lexical_at (sql : bytes) (i : nat) : lexical :=
  let c := at_pos sql i in
  if (c =? ch "'") || (c =? DQ) then Quoted (quoted_end sql i)
  else if sees sql i (str "--") || sees sql i (str "/*") then Comment (comment_end sql i)
  else if (c =? ch "$") && match dollar_tag_at sql i with Some _ => true | None => false end
  then Dollar (dollar_end sql i)
  else Plain c.

(** One iteration of [escape_end]: the position and the brace depth. *)
Definition escape_step (sql : bytes) (st : nat * Z) : (nat * Z) + option nat :=
  let '(i, depth) := st in
  if (i <? length sql)%nat then
    match lexical_at sql i with
    | Quoted stop | Comment stop | Dollar stop =>
        match stop with None => inr None | Some e => inl (e, depth) end
    | Plain c =>
        let depth := if c =? ch "{" then depth + 1 else depth in
        if c =? ch "}" then
          if depth - 1 =? 0 then inr (Some i) else inl (S i, depth - 1)
        else inl (S i, depth)
    end
  else inr None.

Definition remaining {A} (sql : bytes) (st : nat * A) : nat := length sql - st.1.

Definition escape_end (sql : bytes) (position : nat) : option nat :=
  run (remaining sql) (escape_step sql) (S position, 1).

Definition trivia_step (value : bytes) (position : nat) : nat + option nat :=
  if (position <? length value)%nat then
    if isspace (at_pos value position) then inl (S position)
    else if sees value position (str "/*") || sees value position (str "--") then
      match comment_end value position with
      | None => inr None
      | Some e => inl e
      end
    else inr (Some position)
  else inr (Some position).

Definition skip_trivia (value : bytes) (position : nat) : option nat :=
  run (fun i => length value - i)%nat (trivia_step value) position.

(** [function.substr(from, to - from)]. *)
Definition slice (s : bytes) (from to : nat) : bytes := take (to - from) (drop from s).

Definition ascii_word_equal (value word : bytes) : bool := beq (map toupper value) word.

(** ** Progress: every scanner ends after its start and inside the text *)

Lemma quoted_scan_progress q e s i j :
  quoted_scan q e s i = Some j -> (i < j <= i + length s)%nat.
Proof.
  remember (length s) as n eqn:Hn. revert s i Hn. induction n as [n IH] using lt_wf_ind.
  intros [|c t] i ->; [done|]. cbn [quoted_scan length].
  destruct (e && _).
  { destruct t as [|d t']; [done|]. cbn [length]. intros H. apply (IH (length t')) in H; cbn; [lia..|done]. }
  destruct (negb _). { intros H. apply (IH (length t)) in H; cbn; [lia..|done]. }
  destruct t as [|d t']; [intros [= <-]; cbn; lia|]. cbn [length].
  destruct (d =? q); [|intros [= <-]; lia]. intros H. apply (IH (length t')) in H; cbn; [lia..|done].
Qed.

Lemma block_scan_progress depth s i j :
  block_scan depth s i = Some j -> (i < j <= i + length s)%nat.
Proof.
  remember (length s) as n eqn:Hn. revert depth s i Hn. induction n as [n IH] using lt_wf_ind.
  intros depth [|a [|b t]] i ->; [done|done|]. cbn [block_scan length].
  assert (forall d, block_scan d t (S (S i)) = Some j -> (i < j <= i + S (S (length t)))%nat) as Ht.
  { intros d H. apply (IH (length t)) in H; cbn; [lia..|done]. }
  destruct (_ && _); [apply Ht|]. destruct (_ && _).
  - destruct (_ =? _)%nat; [intros [= <-]; lia|apply Ht].
  - intros H. change (block_scan depth (b :: t) (S i) = Some j) in H.
    apply (IH (length (b :: t))) in H; cbn [length] in *; [lia..|done].
Qed.

Lemma starts_with_length s p : starts_with s p = true -> (length p <= length s)%nat.
Proof.
  unfold starts_with, beq. intros H%bool_decide_eq_true. rewrite <- H, length_take. lia.
Qed.

Lemma find_text_bound p s n : find_text p s = Some n -> (n + length p <= length s)%nat.
Proof.
  revert n. induction s as [|c t IH]; intros n; cbn [find_text].
  - destruct (starts_with [] p) eqn:E; [|done]. intros [= <-]. apply starts_with_length in E. lia.
  - destruct (starts_with (c :: t) p) eqn:E; [intros [= <-]; apply starts_with_length in E; lia|].
    destruct (find_text p t) as [m|]; [|done]. intros [= <-]. specialize (IH m eq_refl). cbn. lia.
Qed.

Lemma find_char_bound c s n : find_char c s = Some n -> (n < length s)%nat.
Proof.
  revert n. induction s as [|d t IH]; intros n; [done|]. cbn [find_char].
  destruct (d =? c); [intros [= <-]; cbn; lia|].
  destruct (find_char c t) as [m|]; [|done]. intros [= <-]. specialize (IH m eq_refl). cbn. lia.
Qed.

Lemma dollar_tag_length sql i tag : dollar_tag_at sql i = Some tag ->
  (2 <= length tag /\ i + length tag <= length sql)%nat.
Proof.
  unfold dollar_tag_at. destruct (_ || _); [done|].
  destruct (find_char _ (drop (S i) sql)) as [n|] eqn:E; [|done]. apply find_char_bound in E.
  rewrite length_drop in E.
  assert (length (take (S (S n)) (drop i sql)) = S (S n)) as L by (rewrite length_take, length_drop; lia).
  intros H. assert (tag = take (S (S n)) (drop i sql)) as -> by (revert H; cbv zeta; repeat case_match; congruence).
  lia.
Qed.

Lemma sees_length sql i p : sees sql i p = true -> (length p <= length sql - i)%nat.
Proof. unfold sees. intros H%starts_with_length. by rewrite length_drop in H. Qed.

Lemma comment_end_progress sql i j : comment_end sql i = Some j -> (i < j <= length sql)%nat.
Proof.
  unfold comment_end. destruct (sees sql i (str "--")) eqn:E1.
  - apply sees_length in E1. cbn in E1. destruct (span _ _) as [body rest] eqn:Es.
    apply span_app in Es. assert (length (drop (i + 2) sql) = length body + length rest)%nat as L
      by (by rewrite Es, length_app). rewrite length_drop in L.
    destruct rest; intros [= <-]; cbn in L; lia.
  - destruct (sees sql i (str "/*")) eqn:E2; [|done]. apply sees_length in E2. cbn in E2.
    intros H%block_scan_progress. rewrite length_drop in H. lia.
Qed.

Lemma quoted_end_progress sql i j : quoted_end sql i = Some j -> (i < j)%nat /\ (i < length sql -> j <= length sql)%nat.
Proof. unfold quoted_end. intros H%quoted_scan_progress. rewrite length_drop in H. lia. Qed.

Lemma dollar_end_progress sql i j : dollar_end sql i = Some j -> (i < j <= length sql)%nat.
Proof.
  unfold dollar_end. destruct (dollar_tag_at sql i) as [tag|] eqn:E; [|done].
  apply dollar_tag_length in E. destruct (find_text tag _) as [n|] eqn:F; [|done].
  apply find_text_bound in F. rewrite length_drop in F. intros [= <-]. lia.
Qed.

Definition lexical_stop (l : lexical) : option nat :=
  match l with Quoted e | Comment e | Dollar e => e | Plain _ => None end.

Lemma lexical_progress sql i j : (i < length sql)%nat ->
  lexical_stop (lexical_at sql i) = Some j -> (i < j <= length sql)%nat.
Proof.
  intros Hi. unfold lexical_at. destruct ((at_pos sql i =? _) || _).
  { cbn. intros [? Hj]%quoted_end_progress. specialize (Hj Hi). lia. }
  destruct (sees _ _ _ || _); [apply comment_end_progress|].
  destruct ((at_pos sql i =? _) && _); [apply dollar_end_progress|done].
Qed.

#[export] Instance escape_step_decreases sql : Decreases (remaining sql) (escape_step sql).
Proof.
  intros [i depth] [i' depth']. unfold escape_step, remaining.
  destruct (i <? length sql)%nat eqn:Hi; [|done]. apply Nat.ltb_lt in Hi.
  pose proof (fun j => lexical_progress sql i j Hi) as Hp.
  destruct (lexical_at sql i) as [[e|]|[e|]|[e|]|c]; try done.
  1-3: intros [= <- <-]; specialize (Hp e eq_refl); cbn; lia.
  cbv zeta. repeat case_match; try done; intros [= <- <-]; cbn; lia.
Qed.

#[export] Instance trivia_step_decreases value :
  Decreases (fun i => length value - i)%nat (trivia_step value).
Proof.
  intros i i'. unfold trivia_step. destruct (i <? length value)%nat eqn:Hi; [|done]. apply Nat.ltb_lt in Hi.
  destruct (isspace _); [intros [= <-]; lia|]. destruct (_ || _); [|done].
  destruct (comment_end value i) eqn:E; [|done]. intros [= <-]. apply comment_end_progress in E. lia.
Qed.

Lemma lexical_plain sql i c : lexical_at sql i = Plain c -> c = at_pos sql i.
Proof.
  unfold lexical_at. destruct ((at_pos sql i =? _) || _); [done|].
  destruct (sees _ _ _ || _); [done|]. destruct ((at_pos sql i =? _) && _); congruence.
Qed.

(** An escape clause ends at a closing brace after its opening one. *)
Lemma escape_end_spec sql i j : escape_end sql i = Some j ->
  (i < j < length sql)%nat /\ at_pos sql j = ch "}".
Proof.
  unfold escape_end. enough (forall st, match run (remaining sql) (escape_step sql) st with
    | Some j => (st.1 <= j < length sql)%nat /\ at_pos sql j = ch "}" | None => True end) as H.
  { intros E. specialize (H (S i, 1)). rewrite E in H. cbn in H. destruct H as [? ?]. split; [lia|done]. }
  apply (run_ind (fun st r => match r with
    | Some j => (st.1 <= j < length sql)%nat /\ at_pos sql j = ch "}" | None => True end)).
  - intros [k depth] r. unfold escape_step. destruct (k <? length sql)%nat eqn:Hk; [|by intros [= <-]].
    apply Nat.ltb_lt in Hk.
    destruct (lexical_at sql k) as [[e|]|[e|]|[e|]|c] eqn:El; try done; try by intros [= <-].
    cbv zeta. destruct (c =? ch "}") eqn:Ec; [|done]. destruct (_ - 1 =? 0); [|done]. intros [= <-].
    cbn. split; [lia|]. apply Z.eqb_eq in Ec as <-. symmetry. by apply lexical_plain.
  - intros [k depth] [k' depth'] E IH. assert (k <= k')%nat as Hk.
    { apply (decreases (measure := remaining sql)) in E. unfold remaining in E. cbn in E. lia. }
    destruct (run _ _ _); [|done]. cbn in *. destruct IH. split; [lia|done].
Qed.
