(* ===== verification/CancelExchange.v ===== *)
(** * The cancel request on its transport

    The rest of [core/database/postgres/pg_cancel.cpp]: which texts may be
    cancelled, how an operation is armed, and the exchange of a claimed request
    with the server on a transport of its own, an environment with the
    operations of [CancelPeer].  The exchange is the part between the steps
    [Request] and [Exchanged] of PgCancel.v; [Escape] is the point before the
    packet is sent. *)

From S2P Require Import Prelude Utf8 PgWire PgMarkers PgIeee PgRequest PgResult Scram PgAuth Backend Connection SqlLex PgCancel.

(** ** Eligible texts *)

(** The length of a block comment after its opening, at a nesting depth; of a
    quoted text after its opening quote; [None] where the text is refused. *)
Fixpoint comment_length (depth : nat) (s : bytes) : option nat :=
  match depth with
  | O => Some 0%nat
  | S inner =>
      match s with
      | [] => None
      | a :: ((b :: u) as t) =>
          if (a =? ch "/") && (b =? ch "*") then Nat.add 2 <$> comment_length (S depth) u
          else if (a =? ch "*") && (b =? ch "/") then Nat.add 2 <$> comment_length inner u
          else S <$> comment_length depth t
      | _ :: t => S <$> comment_length depth t
      end
  end.

Fixpoint quoted_length (quote : Z) (escape : bool) (s : bytes) : option nat :=
  match s with
  | [] => None
  | c :: t =>
      if c =? quote then
        match t with
        | d :: u => if d =? quote then Nat.add 2 <$> quoted_length quote escape u else Some 1%nat
        | [] => Some 1%nat
        end
      else if (c =? 92) && (quote =? 39) then
        if negb escape then None
        else match t with [] => None | _ :: u => Nat.add 2 <$> quoted_length quote escape u end
      else S <$> quoted_length quote escape t
  end.

(** A character of an identifier; a literal that starts with [e] or [E]. *)
Definition cancel_identifier (c : Z) : bool := isalnum c || (c =? ch "_") || (c =? ch "$") || (128 <=? c).
Definition escape_literal (quote : Z) (before : bytes) : bool :=
  (quote =? 39) &&
  match before with
  | e :: before => ((e =? ch "e") || (e =? ch "E")) && match before with [] => true | d :: _ => negb (cancel_identifier d) end
  | [] => false
  end.

(** The length of the dollar-quoted text [s] starts with, [Some None] when it
    starts with none. *)
Fixpoint tag_length (s : bytes) : nat :=
  match s with
  | c :: t => if cancel_identifier c && negb (c =? ch "$") then S (tag_length t) else 0%nat
  | [] => 0%nat
  end.
Definition dollar_length (s : bytes) : option (option nat) :=
  let t := drop 1 s in
  let n := match t with c :: _ => if isalpha c || (c =? ch "_") then tag_length t else 0%nat | [] => 0%nat end in
  if (length s <=? S n)%nat || negb (at_pos s (S n) =? ch "$") then Some None
  else
    let delimiter := take (S (S n)) s in
    match find_text delimiter (drop (S (S n)) s) with
    | None => None
    | Some i => Some (Some (S (S n) + i + length delimiter)%nat)
    end.

Definition is_cancel_space (c : Z) : bool := (c =? 32) || ((9 <=? c) && (c <=? 13)).
Fixpoint line_length (s : bytes) : nat :=
  match s with c :: t => if (c =? 13) || (c =? 10) then 0%nat else S (line_length t) | [] => 0%nat end.

(** One turn of the loop at [rest], with what precedes it reversed: the number
    of characters consumed and the two flags, or the answer. *)
Definition statement_step (before rest : bytes) (content terminated : bool) : (nat * bool * bool) + bool :=
  let c := at_pos rest 0 in
  let next := at_pos rest 1 in
  if is_cancel_space c then inl (1%nat, content, terminated)
  else if (c =? ch "-") && (next =? ch "-") then inl ((2 + line_length (drop 2 rest))%nat, content, terminated)
  else if (c =? ch "/") && (next =? ch "*") then
    match comment_length 1 (drop 2 rest) with
    | Some n => inl ((2 + n)%nat, content, terminated)
    | None => inr false
    end
  else if terminated then inr false
  else if c =? ch ";" then if negb content then inr false else inl (1%nat, content, true)
  else if (c =? 39) || (c =? 34) then
    match quoted_length c (escape_literal c before) (drop 1 rest) with
    | Some n => inl (S n, true, terminated)
    | None => inr false
    end
  else if (c =? ch "$") && match before with [] => true | d :: _ => negb (cancel_identifier d) end then
    match dollar_length rest with
    | None => inr false
    | Some (Some n) => inl (n, true, terminated)
    | Some None => inl (1%nat, true, terminated)
    end
  else inl (1%nat, true, terminated).

Fixpoint scan_statement (fuel : nat) (before rest : bytes) (content terminated : bool) : option bool :=
  match rest, fuel with
  | [], _ => Some content
  | _, O => None
  | _, S fuel =>
      match statement_step before rest content terminated with
      | inr b => Some b
      | inl (n, content, terminated) =>
          scan_statement fuel (reverse (take n rest) ++ before) (drop n rest) content terminated
      end
  end.
Definition cancellation_single_statement (sql : bytes) : bool :=
  default false (scan_statement (length sql) [] sql false false).

(** The bound is enough: every turn consumes a character. *)
Lemma statement_step_advances before rest content terminated n c t :
  statement_step before rest content terminated = inl (n, c, t) -> (0 < n)%nat.
Proof.
  unfold statement_step, dollar_length. cbv zeta. repeat case_match; intros; simplify_eq; lia.
Qed.

Lemma scan_statement_total fuel before rest content terminated :
  (length rest <= fuel)%nat -> is_Some (scan_statement fuel before rest content terminated).
Proof.
  revert before rest content terminated. induction fuel as [|fuel IH]; intros before [|r rest] content terminated Hl; cbn in *;
    try lia; try done.
  destruct (statement_step _ _ _ _) as [[[n c] t]|b] eqn:Hs; [|done]. apply statement_step_advances in Hs.
  apply IH. rewrite length_drop. cbn. lia.
Qed.

(** ** Arming an operation *)

Definition authenticated_backend_key (payload : bytes) (c : Conn) : option Conn :=
  if negb (size payload =? 8) || bool_decide (is_Some (cancellation_key_ c)) then None else Some (set_key (Some payload) c).

(** [carrier]: the transport is an [IServerCancelTransport] that supports it. *)
Definition supports_server_cancellation (carrier : bool) (c : Conn) : bool :=
  bool_decide (is_Some (cancellation_key_ c)) && connected_ c && carrier.
Definition cancellation_request_eligible (carrier : bool) (sql : bytes) (c : Conn) : bool :=
  supports_server_cancellation carrier c && cancellation_single_statement sql.

Section Arm.
Context {E : Type} `{!Peer E}.

(** [peer]: the transport could be cloned; [k] names the new endpoint, which
    starts as [new_cancellation original generation]. *)
Definition arm_cancellation (carrier peer : bool) (k : nat) (generation original : Z) : M E (option nat) :=
  c ← get;
  if (generation =? 0) || bool_decide (is_Some (cancellation_operation_ c)) then mret None
  else
    expired ← passed original;
    if (expired : bool) || negb (supports_server_cancellation carrier c) || negb peer then mret None
    else
      _ ← effect (cancellation_wait (Some k));
      _ ← install_cancellation k;
      mret (Some k).
End Arm.

(** ** The exchange *)

(** The transport of the request.  A call answers [None] for an error; [c_send]
    and [c_recv] otherwise the count and the end-of-file mark, [c_recv] with the
    byte it stored. *)
Class CancelPeer (E : Type) := {
  c_carrier : E -> bool;
  c_connect : Z -> E -> E * option unit;
  c_send : bytes -> Z -> E -> E * option (N * bool);
  c_recv : Z -> E -> E * option (N * bool * Z);
  c_start_tls : E -> bool;
  c_upgrade : bytes -> Z -> E -> E * option unit;
  c_verified : E -> E * bool;
  c_now : E -> E * Z;
}.

Definition cancel_ssl_request : bytes := [0; 0; 0; 8; 4; 210; 22; 47].
Definition cancel_packet (key : bytes) : bytes := [0; 0; 0; 16; 4; 210; 22; 46] ++ key.

Section Exchange.
Context {E : Type} `{!CancelPeer E}.
Implicit Types (e : E) (cutoff : Z).

(** Each call sends at least one byte, so the length is enough fuel. *)
Fixpoint send_all (fuel : nat) (data : bytes) cutoff e : E * bool :=
  let '(e, t) := c_now e in
  match data, fuel with
  | [], _ => (e, t <? cutoff)
  | _, O => (e, false)
  | _, S fuel =>
      if cutoff <=? t then (e, false)
      else
        match c_send data cutoff e with
        | (e, None) => (e, false)
        | (e, Some (n, eof)) =>
            if eof || (n =? 0)%N || (size data <? Z.of_N n) then (e, false)
            else send_all fuel (drop (N.to_nat n) data) cutoff e
        end
  end.
Definition send_all_of (data : bytes) cutoff e : E * bool := send_all (length data) data cutoff e.

(** The server agrees to TLS, and its identity is verified. *)
Definition cancel_tls (hostname : bytes) cutoff e : E * bool :=
  match send_all_of cancel_ssl_request cutoff e with
  | (e, false) => (e, false)
  | (e, true) =>
      match c_recv cutoff e with
      | (e, None) => (e, false)
      | (e, Some (n, eof, byte)) =>
          if negb (n =? 1)%N || eof || negb (byte =? ch "S") || negb (c_start_tls e) then (e, false)
          else
            match c_upgrade hostname cutoff e with
            | (e, None) => (e, false)
            | (e, Some _) => c_verified e
            end
      end
  end.

(** Up to the packet, and from it on. *)
Definition exchange_prepare (tls : bool) (hostname : bytes) cutoff e : E * bool :=
  if negb (c_carrier e) then (e, false)
  else
    match c_connect cutoff e with
    | (e, None) => (e, false)
    | (e, Some _) => if tls then cancel_tls hostname cutoff e else (e, true)
    end.
Definition exchange_packet (key : bytes) cutoff e : E * bool :=
  match send_all_of (cancel_packet key) cutoff e with
  | (e, false) => (e, false)
  | (e, true) =>
      match c_recv cutoff e with
      | (e, None) => (e, false)
      | (e, Some (n, eof, _)) =>
          if eof && (n =? 0)%N then let '(e, t) := c_now e in (e, t <? cutoff) else (e, false)
      end
  end.
Definition exchange (tls : bool) (hostname key : bytes) cutoff e : E * bool :=
  match exchange_prepare tls hostname cutoff e with
  | (e, true) => exchange_packet key cutoff e
  | (e, false) => (e, false)
  end.
End Exchange.

(** ** The key is only sent under protection *)

(** [c_sent]: everything the transport took; [c_exposed]: the part it took while
    its peer was not verified. *)
Class CancelWatched (E : Type) `{!CancelPeer E} := {
  c_sent : E -> bytes;
  c_exposed : E -> bytes;
  c_protected : E -> bool;
  cw_send data d e :
    c_protected (c_send data d e).1 = c_protected e /\
    exists k, c_sent (c_send data d e).1 = c_sent e ++ take k data /\
      c_exposed (c_send data d e).1 = c_exposed e ++ (if c_protected e then [] else take k data) /\
      forall n eof, (c_send data d e).2 = Some (n, eof) -> Z.of_N n <= size data -> k = N.to_nat n;
  cw_recv d e :
    c_protected (c_recv d e).1 = c_protected e /\ c_sent (c_recv d e).1 = c_sent e /\ c_exposed (c_recv d e).1 = c_exposed e;
  cw_now e :
    c_protected (c_now e).1 = c_protected e /\ c_sent (c_now e).1 = c_sent e /\ c_exposed (c_now e).1 = c_exposed e;
  cw_connect d e : c_sent (c_connect d e).1 = c_sent e /\ c_exposed (c_connect d e).1 = c_exposed e;
  cw_upgrade host d e : c_sent (c_upgrade host d e).1 = c_sent e /\ c_exposed (c_upgrade host d e).1 = c_exposed e;
  cw_verified e : c_sent (c_verified e).1 = c_sent e /\ c_exposed (c_verified e).1 = c_exposed e;
  cw_gate host d e e1 e2 : c_upgrade host d e = (e1, Some tt) -> c_verified e1 = (e2, true) -> c_protected e2 = true;
}.

Section Protection.
Context {E : Type} `{!CancelPeer E, !CancelWatched E}.
Implicit Types (e : E) (cutoff : Z).

(** What a write does: it sends a prefix, all of it when it succeeds. *)
Definition wrote (data : bytes) e e' (ok : bool) : Prop :=
  c_protected e' = c_protected e /\
  exists p, p `prefix_of` data /\ (ok = true -> p = data) /\ c_sent e' = c_sent e ++ p /\
    c_exposed e' = c_exposed e ++ (if c_protected e then [] else p).

Lemma wrote_nothing data e e' ok :
  c_protected e' = c_protected e -> c_sent e' = c_sent e -> c_exposed e' = c_exposed e -> (ok = true -> data = []) ->
  wrote data e e' ok.
Proof.
  intros H1 H2 H3 H4. split; [done|]. exists []. split; [apply prefix_nil|]. split; [intros H; by rewrite H4|].
  rewrite H2, H3. by destruct (c_protected e); rewrite !app_nil_r.
Qed.

Lemma send_all_wrote fuel data cutoff e e' ok : send_all fuel data cutoff e = (e', ok) -> wrote data e e' ok.
Proof.
  revert data e. induction fuel as [|fuel IH]; intros data e; cbn [send_all]; pose proof (cw_now e) as (N1 & N2 & N3);
    destruct (c_now e) as [e1 t]; cbn [fst] in *.
  { destruct data; intros [= <- <-]; by apply wrote_nothing. }
  destruct data as [|c data]; [intros [= <- <-]; by apply wrote_nothing|]. set (whole := c :: data).
  destruct (cutoff <=? t); [intros [= <- <-]; by apply wrote_nothing|].
  pose proof (cw_send whole cutoff e1) as (S1 & k & S2 & S3 & S4). destruct (c_send whole cutoff e1) as [e2 r]. cbn [fst snd] in *.
  assert (forall ok, ok = false -> wrote whole e e2 ok) as Hpart.
  { intros ? ->. split; [congruence|]. exists (take k whole). split; [apply prefix_take|]. split; [done|].
    rewrite S2, S3, N1, N2, N3. done. }
  destruct r as [[n eof]|]; [|intros [= <- <-]; by apply Hpart].
  destruct (eof || _ || _) eqn:Hb; [intros [= <- <-]; by apply Hpart|]. apply orb_false_iff in Hb as [_ Hn]. zb.
  rewrite (S4 n eof eq_refl) in * by lia. intros Hrec. apply IH in Hrec as (R1 & p & R2 & R3 & R4 & R5).
  split; [congruence|]. exists (take (N.to_nat n) whole ++ p). split; [|split].
  - destruct R2 as [q Hq]. exists q. rewrite <- app_assoc, <- Hq. by rewrite take_drop.
  - intros Hok. rewrite (R3 Hok). apply take_drop.
  - rewrite R4, R5, S1, S2, S3, N1, N2, N3, <- !app_assoc. split; [done|]. by destruct (c_protected e).
Qed.

(** The negotiation sends at most the SSL request, all of it before it succeeds;
    the transport is protected then. *)
Lemma cancel_tls_wrote hostname cutoff e e' ok :
  cancel_tls hostname cutoff e = (e', ok) ->
  (ok = true -> c_protected e' = true /\ c_sent e' = c_sent e ++ cancel_ssl_request) /\
  exists p, p `prefix_of` cancel_ssl_request /\ c_exposed e' = c_exposed e ++ p.
Proof.
  unfold cancel_tls. destruct (send_all_of cancel_ssl_request cutoff e) as [e1 b] eqn:Hs.
  apply send_all_wrote in Hs as (S1 & p & S2 & S3 & S4 & S5).
  assert (exists p', p' `prefix_of` cancel_ssl_request /\ c_exposed e1 = c_exposed e ++ p') as Hx.
  { destruct (c_protected e); [exists []; split; [apply prefix_nil|done]|by exists p]. }
  destruct b; [|intros [= <- <-]; by split]. rewrite (S3 eq_refl) in S4.
  pose proof (cw_recv cutoff e1) as (R1 & R2 & R3). destruct (c_recv cutoff e1) as [e2 r]. cbn [fst] in *. rewrite <- R3 in Hx.
  destruct r as [[[n eof] byte]|]; [|intros [= <- <-]; by split].
  destruct (_ || _); [intros [= <- <-]; by split|].
  pose proof (cw_upgrade hostname cutoff e2) as (U1 & U2). destruct (c_upgrade hostname cutoff e2) as [e3 [[]|]] eqn:Hu;
    cbn [fst] in *; rewrite <- U2 in Hx; [|intros [= <- <-]; by split].
  intros Hv. pose proof (cw_verified e3) as (V1 & V2). rewrite Hv in V1, V2. cbn [fst] in *. rewrite <- V2 in Hx.
  split; [|done]. intros ->. split; [by eapply cw_gate|congruence].
Qed.

(** C23.  With TLS, whatever the server and the network do, a cancel request sends
    nothing but the SSL request to a peer that is not verified: the session's
    cancellation key is never exposed.  When the request succeeds, exactly the
    SSL request and the 16 bytes of the cancel packet were sent. *)
Theorem cancel_key_protected (hostname key : bytes) (cutoff : Z) (e e' : E) (ok : bool)
    (Hrun : exchange true hostname key cutoff e = (e', ok)) :
  (exists p, p `prefix_of` cancel_ssl_request /\ c_exposed e' = c_exposed e ++ p) /\
  (ok = true -> c_sent e' = c_sent e ++ cancel_ssl_request ++ [0; 0; 0; 16; 4; 210; 22; 46] ++ key).
Proof.
  assert (forall x : bytes, exists p, p `prefix_of` cancel_ssl_request /\ x = x ++ p) as Hnil.
  { intros x. exists []. split; [apply prefix_nil|by rewrite app_nil_r]. }
  unfold exchange, exchange_prepare in Hrun. destruct (c_carrier e); cbn in Hrun.
  2: { injection Hrun as <- <-. by split. }
  pose proof (cw_connect cutoff e) as (C1 & C2). destruct (c_connect cutoff e) as [e1 [[]|]]; cbn [fst] in *.
  2: { injection Hrun as <- <-. rewrite C2. by split. }
  destruct (cancel_tls hostname cutoff e1) as [e2 b] eqn:Ht. apply cancel_tls_wrote in Ht as (T1 & T2).
  rewrite C2 in T2. destruct b; [|injection Hrun as <- <-; by split]. destruct (T1 eq_refl) as [T3 T4].
  unfold exchange_packet in Hrun. destruct (send_all_of (cancel_packet key) cutoff e2) as [e3 b] eqn:Hs.
  apply send_all_wrote in Hs as (S1 & p & S2 & S3 & S4 & S5). rewrite T3, app_nil_r in S5. rewrite <- S5 in T2.
  destruct b; [|injection Hrun as <- <-; by split]. rewrite (S3 eq_refl), T4, C1, <- app_assoc in S4.
  pose proof (cw_recv cutoff e3) as (R1 & R2 & R3). destruct (c_recv cutoff e3) as [e4 [[[n eof] byte]|]]; cbn [fst] in *.
  2: { injection Hrun as <- <-. rewrite R3. by split. }
  destruct (eof && _); [|injection Hrun as <- <-; rewrite R3; by split].
  pose proof (cw_now e4) as (N1 & N2 & N3). destruct (c_now e4) as [e5 t]. cbn [fst] in *. injection Hrun as <- <-.
  rewrite N2, N3, R2, R3. by split.
Qed.
End Protection.

(** *** A server that accepts *)

Record Plug := { answers_ : list (option Z); plug_sent : bytes; plug_exposed : bytes; plug_secured : bool }.

#[export] Instance plug_peer : CancelPeer Plug := {|
  c_carrier _ := true;
  c_connect _ e := (e, Some tt);
  c_send data _ e :=
    ({| answers_ := answers_ e; plug_sent := plug_sent e ++ data;
        plug_exposed := plug_exposed e ++ (if plug_secured e then [] else data); plug_secured := plug_secured e |},
     Some (N.of_nat (length data), false));
  c_recv _ e :=
    match answers_ e with
    | Some b :: answers =>
        ({| answers_ := answers; plug_sent := plug_sent e; plug_exposed := plug_exposed e; plug_secured := plug_secured e |},
         Some (1%N, false, b))
    | _ => (e, Some (0%N, true, 0))
    end;
  c_start_tls _ := true;
  c_upgrade _ _ e :=
    ({| answers_ := answers_ e; plug_sent := plug_sent e; plug_exposed := plug_exposed e; plug_secured := true |}, Some tt);
  c_verified e := (e, plug_secured e);
  c_now e := (e, 0);
|}.

#[export, refine] Instance plug_watched : CancelWatched Plug :=
  {| c_sent := plug_sent; c_exposed := plug_exposed; c_protected := plug_secured |}.
Proof.
  all: try done.
  - intros data d e. cbn. split; [done|]. exists (length data). rewrite take_ge by done. split; [done|]. split; [done|].
    intros n eof [= <- _] _. by rewrite Nat2N.id.
  - intros d e. cbn. by destruct (answers_ e) as [|[] ?].
  - intros host d e e1 e2 [= <-] [= <-]. done.
Defined.

Definition plugged : Plug := {| answers_ := [Some (ch "S")]; plug_sent := []; plug_exposed := []; plug_secured := false |}.
Definition cancelled_plug : Plug := Eval vm_compute in (exchange true (str "db") [1; 2; 3; 4; 5; 6; 7; 8] 10 plugged).1.

Lemma cancel_key_protected_witness :
  (exists p, p `prefix_of` cancel_ssl_request /\ plug_exposed cancelled_plug = [] ++ p) /\
  plug_sent cancelled_plug = [] ++ cancel_ssl_request ++ [0; 0; 0; 16; 4; 210; 22; 46] ++ [1; 2; 3; 4; 5; 6; 7; 8].
Proof.
  destruct (cancel_key_protected (str "db") [1; 2; 3; 4; 5; 6; 7; 8] 10 plugged cancelled_plug true) as [H1 H2];
    [vm_compute; reflexivity|].
  split; [exact H1|exact (H2 eq_refl)].
Defined.
