(* ===== verification/SqlDialect.v ===== *)
(** * ODBC escape clauses

    The translations of [core/database/postgres/pg_sql_dialect.cpp]: application
    SQL with ODBC escape clauses ([{d '...'}], [{fn ...}], [{call ...}], ...) to
    the SQL of PostgreSQL or Redshift.  [translate_fragment] and
    [translate_escape] call each other on ever shorter text; the bound of the
    recursion is the length of the text, and [translate_terminates] shows that a
    larger one changes nothing. *)

From S2P Require Import Prelude Digits Utf8 SqlLex ConvertTime.

(** ** Definitions *)

Inductive SqlDialectProfile := PostgreSql | Redshift.
#[export] Instance profile_eq_dec : EqDecision SqlDialectProfile.
Proof. solve_decision. Defined.

Inductive SqlTranslationError := InvalidSyntax | InvalidDatetime | Unsupported.

Inductive SqlTranslationResult :=
| Translated (sql : bytes)
| Failed (error : SqlTranslationError) (message : bytes).

(** [if (!translated) return translated;]. *)
Definition and_then (r : SqlTranslationResult) (f : bytes -> SqlTranslationResult)
    : SqlTranslationResult :=
  match r with Translated sql => f sql | Failed e m => Failed e m end.

(** *** Datetime literals *)

Definition decimal (value : bytes) : option Z :=
  match from_chars_signed (- 2 ^ 31) (2 ^ 31 - 1) value with
  | FromChars v [] => Some v
  | _ => None
  end.

Definition leap_year (year : Z) : bool :=
  (year mod 4 =? 0) && (negb (year mod 100 =? 0) || (year mod 400 =? 0)).

Definition month_days : list Z := [31; 28; 31; 30; 31; 30; 31; 31; 30; 31; 30; 31].

Definition valid_date (value : bytes) : bool :=
  if negb (length value =? 10)%nat || negb (at_pos value 4 =? ch "-") || negb (at_pos value 7 =? ch "-")
  then false
  else
    match decimal (slice value 0 4), decimal (slice value 5 7), decimal (slice value 8 10) with
    | Some year, Some month, Some day =>
        if (year <? 1) || (month <? 1) || (12 <? month) then false
        else
          let maximum := nth (Z.to_nat (month - 1)) month_days 0
                         + (if (month =? 2) && leap_year year then 1 else 0) in
          (1 <=? day) && (day <=? maximum)
    | _, _, _ => false
    end.

Definition valid_time (value : bytes) : bool :=
  if (length value <? 8)%nat || negb (at_pos value 2 =? ch ":") || negb (at_pos value 5 =? ch ":")
  then false
  else if negb (forallb isdigit (slice value 0 2)) || negb (forallb isdigit (slice value 3 5)) ||
          negb (forallb isdigit (slice value 6 8))
  then false
  else
    match decimal (slice value 0 2), decimal (slice value 3 5), decimal (slice value 6 8) with
    | Some hour, Some minute, Some second =>
        if (23 <? hour) || (59 <? minute) || (59 <? second) then false
        else match drop 8 value with
             | [] => true
             | c :: t => if negb (c =? ch ".") || beq t [] then false else forallb isdigit t
             end
    | _, _, _ => false
    end.

Definition quoted_value (value : bytes) : option bytes :=
  let value := trim_space value in
  if (length value <? 2)%nat || negb (at_pos value 0 =? ch "'") ||
     negb (at_pos value (length value - 1) =? ch "'")
  then None else Some (slice value 1 (length value - 1)).

Definition translate_datetime (body keyword native_keyword : bytes) : SqlTranslationResult :=
  match quoted_value (drop (length keyword) body) with
  | None => Failed InvalidDatetime (str "ODBC datetime escape requires a quoted literal")
  | Some literal =>
      let valid :=
        if beq keyword (str "d") then valid_date literal
        else if beq keyword (str "t") then valid_time literal
        else if beq keyword (str "ts") then
          (11 <? length literal)%nat && (at_pos literal 10 =? ch " ") &&
          valid_date (take 10 literal) && valid_time (drop 11 literal)
        else false in
      if negb valid
      then Failed InvalidDatetime (str "ODBC datetime escape contains an invalid value")
      else Translated (native_keyword ++ str " '" ++ literal ++ str "'")
  end.

(** *** Calls with several arguments *)

(** The loop state of [call_arguments]: position, start of the argument, the
    closers expected (innermost first), the arguments found. *)
Record Call := { pos : nat; begin : nat; closers : list Z; arguments : list bytes }.

Definition at_close (c : Z) (open : list Z) : bool := (c =? ch ")") && (length open =? 1)%nat.

Definition call_step (count : nat) (function : bytes) (st : Call) : Call + option (list bytes) :=
  let i := pos st in
  if (i <? length function)%nat then
    match lexical_at function i with
    | Quoted stop | Comment stop | Dollar stop =>
        match stop with
        | None => inr None
        | Some e => inl {| pos := e; begin := begin st; closers := closers st; arguments := arguments st |}
        end
    | Plain c =>
        if (c =? ch "(") || (c =? ch "[") then
          inl {| pos := S i; begin := begin st;
                 closers := (if c =? ch "(" then ch ")" else ch "]") :: closers st;
                 arguments := arguments st |}
        else
          let close := at_close c (closers st) in
          if ((c =? ch ",") && (length (closers st) =? 1)%nat) || close then
            let argument := slice function (begin st) i in
            match skip_trivia argument 0 with
            | None => inr None
            | Some first =>
                if (first =? length argument)%nat || (length (arguments st) =? count)%nat then inr None
                else
                  let found := arguments st ++ [argument] in
                  if close then
                    match skip_trivia function (S i) with
                    | None => inr None
                    | Some trailing =>
                        if negb (trailing =? length function)%nat || negb (length found =? count)%nat
                        then inr None else inr (Some found)
                    end
                  else inl {| pos := S i; begin := S i; closers := closers st; arguments := found |}
            end
          else if (c =? ch ")") || (c =? ch "]") then
            match closers st with
            | top :: rest =>
                if negb (top =? c) then inr None
                else inl {| pos := S i; begin := begin st; closers := rest; arguments := arguments st |}
            | [] => inr None
            end
          else inl {| pos := S i; begin := begin st; closers := closers st; arguments := arguments st |}
    end
  else inr None.

Definition call_measure (function : bytes) (st : Call) : nat := length function - pos st.

Definition call_arguments (count : nat) (function : bytes) (name_end : nat) : option (list bytes) :=
  match skip_trivia function name_end with
  | None => None
  | Some open =>
      if (open =? length function)%nat || negb (at_pos function open =? ch "(") then None
      else run (call_measure function) (call_step count function)
             {| pos := S open; begin := S open; closers := [ch ")"]; arguments := [] |}
  end.

Definition keyword_argument (value : bytes) : option bytes :=
  match skip_trivia value 0 with
  | None => None
  | Some start =>
      if (start =? length value)%nat then None
      else
        let keyword := (span (fun c => isalpha c || (c =? ch "_")) (drop start value)).1 in
        if beq keyword [] then None
        else match skip_trivia value (start + length keyword) with
             | Some trailing => if (trailing =? length value)%nat then Some keyword else None
             | None => None
             end
  end.

(** Keyword, PostgreSQL type and Redshift type. *)
Definition targets : list (bytes * bytes * bytes) :=
  [(str "SQL_SMALLINT", str "SMALLINT", str "SMALLINT");
   (str "SQL_INTEGER", str "INTEGER", str "INTEGER");
   (str "SQL_BIGINT", str "BIGINT", str "BIGINT");
   (str "SQL_REAL", str "REAL", str "REAL");
   (str "SQL_FLOAT", str "DOUBLE PRECISION", str "DOUBLE PRECISION");
   (str "SQL_DOUBLE", str "DOUBLE PRECISION", str "DOUBLE PRECISION");
   (str "SQL_NUMERIC", str "NUMERIC", str "DECIMAL(38,18)");
   (str "SQL_DECIMAL", str "NUMERIC", str "DECIMAL(38,18)");
   (str "SQL_BIT", str "BOOLEAN", str "BOOLEAN");
   (str "SQL_DATE", str "DATE", str "DATE");
   (str "SQL_TIME", str "TIME", str "TIME");
   (str "SQL_TIMESTAMP", str "TIMESTAMP", str "TIMESTAMP");
   (str "SQL_CHAR", str "TEXT", str "VARCHAR(65535)");
   (str "SQL_VARCHAR", str "TEXT", str "VARCHAR(65535)");
   (str "SQL_LONGVARCHAR", str "TEXT", str "VARCHAR(65535)");
   (str "SQL_WCHAR", str "TEXT", str "VARCHAR(65535)");
   (str "SQL_WVARCHAR", str "TEXT", str "VARCHAR(65535)");
   (str "SQL_WLONGVARCHAR", str "TEXT", str "VARCHAR(65535)");
   (str "SQL_BINARY", str "BYTEA", str "VARBYTE");
   (str "SQL_VARBINARY", str "BYTEA", str "VARBYTE");
   (str "SQL_LONGVARBINARY", str "BYTEA", str "VARBYTE");
   (str "SQL_GUID", str "UUID", [])].

Definition translate_convert (function : bytes) (name_end : nat) (profile : SqlDialectProfile)
    : SqlTranslationResult :=
  let unsupported := Failed Unsupported (str "CONVERT target is not supported by this profile") in
  match call_arguments 2 function name_end with
  | Some [value; type] =>
      match keyword_argument type with
      | None => Failed InvalidSyntax (str "CONVERT requires one type keyword")
      | Some target =>
          match find (fun '(keyword, _, _) => ascii_word_equal target keyword) targets with
          | Some (_, postgres, redshift) =>
              let native := if bool_decide (profile = PostgreSql) then postgres else redshift in
              if beq native [] then unsupported
              else Translated (str "CAST(" ++ value ++ str " AS " ++ native ++ str ")")
          | None => unsupported
          end
      end
  | _ => Failed InvalidSyntax (str "CONVERT requires two arguments")
  end.

Definition timestamp_operand (argument : bytes) (profile : SqlDialectProfile) : bytes :=
  str "CAST(REGEXP_REPLACE(BTRIM(CAST((" ++ argument ++
  match profile with
  | PostgreSql =>
      str ") AS TEXT)) COLLATE " ++ [DQ] ++ str "C" ++ [DQ] ++
      str ", '^(?=[0-9]{2}:)', CAST(CURRENT_DATE AS TEXT) || ' ') AS TIMESTAMP)"
  | Redshift =>
      str ") AS VARCHAR(MAX))), '^(?=[0-9]{2}:)', CAST(CURRENT_DATE AS VARCHAR(10)) || ' ', 1, 'p') AS TIMESTAMP)"
  end.

Record TimestampUnit := { keyword : bytes; native : bytes; pg_interval : bytes; seconds : Z }.

Definition units : list TimestampUnit :=
  map (fun '(k, n, i, s) => {| keyword := str k; native := str n; pg_interval := str i; seconds := s |})
  [("SQL_TSI_SECOND", "second", "1 second", 1); ("SQL_TSI_MINUTE", "minute", "1 minute", 60);
   ("SQL_TSI_HOUR", "hour", "1 hour", 3600); ("SQL_TSI_DAY", "day", "1 day", 86400);
   ("SQL_TSI_WEEK", "week", "7 days", 604800); ("SQL_TSI_MONTH", "month", "1 month", 0);
   ("SQL_TSI_QUARTER", "quarter", "3 months", 0); ("SQL_TSI_YEAR", "year", "1 year", 0)]%string.

Definition pg_boundary_ordinal (argument : bytes) (unit : TimestampUnit) : bytes :=
  let timestamp := timestamp_operand argument PostgreSql in
  if negb (seconds unit =? 0) then
    str "(EXTRACT(EPOCH FROM DATE_TRUNC('" ++ native unit ++ str "', " ++ timestamp ++ str ")) / " ++
    to_string (seconds unit) ++ str ")"
  else
    let scale := if beq (native unit) (str "month") then str "12"
                 else if beq (native unit) (str "quarter") then str "4" else str "1" in
    str "EXTRACT(YEAR FROM (AGE(DATE_TRUNC('" ++ native unit ++ str "', " ++ timestamp ++
    str "), TIMESTAMP '2000-01-01') * " ++ scale ++ str "))".

(** The SQL of one unit, from the second and the third argument. *)
Definition timestamp_sql (profile : SqlDialectProfile) (addition : bool) (unit : TimestampUnit)
    (first second : bytes) : bytes :=
  match profile, addition with
  | Redshift, _ =>
      let calendar_year := addition && beq (native unit) (str "year") in
      (if addition then str "DATEADD(" else str "DATEDIFF(") ++
      (if calendar_year then str "month" else native unit) ++ str ", " ++
      (if addition
       then str "CAST((" ++ first ++ str ") AS INTEGER)" ++ (if calendar_year then str " * 12" else [])
       else timestamp_operand first profile) ++
      str ", " ++ timestamp_operand second profile ++ str ")"
  | PostgreSql, true =>
      str "(CAST((" ++ first ++ str ") AS BIGINT) * INTERVAL '" ++ pg_interval unit ++ str "' + " ++
      timestamp_operand second profile ++ str ")"
  | PostgreSql, false =>
      str "CAST(-(" ++ pg_boundary_ordinal first unit ++ str " - " ++
      pg_boundary_ordinal second unit ++ str ") AS BIGINT)"
  end.

Definition translate_timestamp (function : bytes) (name_end : nat) (profile : SqlDialectProfile)
    (addition : bool) : SqlTranslationResult :=
  let unsupported := Failed Unsupported (str "Timestamp interval is not supported by this profile") in
  match call_arguments 3 function name_end with
  | Some [interval; first; second] =>
      match keyword_argument interval with
      | None => Failed InvalidSyntax (str "Timestamp escape requires one interval keyword")
      | Some word =>
          match find (fun unit => ascii_word_equal word (keyword unit)) units with
          | None => unsupported
          | Some unit =>
              if negb addition && beq (native unit) (str "week") then unsupported
              else Translated (timestamp_sql profile addition unit first second)
          end
      end
  | _ => Failed InvalidSyntax (str "Timestamp escape requires three arguments")
  end.

(** *** Calls by parenthesis depth

    [translate_locate], [translate_length], [translate_calendar_component],
    [translate_clock_component], [translate_day_ordinal_component] and
    [translate_logarithm] share one loop; they differ in the name their messages
    use, in how many arguments they take and in the SQL they build. *)

Record Slices := { at_i : nat; from : nat; depth : nat; found : list bytes }.

Definition slices_failed (parts : list bytes) : SqlTranslationResult :=
  Failed InvalidSyntax (concat parts).

Definition slices_step (what : bytes) (capacity : nat)
    (finish : list bytes -> SqlTranslationResult) (function : bytes) (st : Slices)
    : Slices + SqlTranslationResult :=
  let i := at_i st in
  if (i <? length function)%nat then
    let skip stop kind :=
      match stop with
      | None => inr (slices_failed [str "Unclosed "; what; kind])
      | Some e => inl {| at_i := e; from := from st; depth := depth st; found := found st |}
      end in
    match lexical_at function i with
    | Quoted stop => skip stop (str " quoted argument")
    | Comment stop => skip stop (str " comment")
    | Dollar stop => skip stop (str " dollar argument")
    | Plain c =>
        if c =? ch "("
        then inl {| at_i := S i; from := from st; depth := S (depth st); found := found st |}
        else
          let close := (c =? ch ")") && (depth st =? 1)%nat in
          if ((c =? ch ",") && (depth st =? 1)%nat) || close then
            let argument := slice function (from st) i in
            let bad := slices_failed [str "Invalid "; what; str " argument count or empty argument"] in
            match skip_trivia argument 0 with
            | None => inr bad
            | Some first =>
                if (first =? length argument)%nat || (length (found st) =? capacity)%nat then inr bad
                else
                  let all := found st ++ [argument] in
                  if close then
                    match skip_trivia function (S i) with
                    | Some trailing =>
                        if (trailing =? length function)%nat then inr (finish all)
                        else inr (slices_failed [str "Invalid "; what; str " call structure"])
                    | None => inr (slices_failed [str "Invalid "; what; str " call structure"])
                    end
                  else inl {| at_i := S i; from := S i; depth := depth st; found := all |}
            end
          else inl {| at_i := S i; from := from st;
                      depth := if c =? ch ")" then depth st - 1 else depth st; found := found st |}
    end
  else inr (slices_failed [str "Unclosed "; what; str " call"]).

#[export] Instance result_inhabited : Inhabited SqlTranslationResult := populate (Translated []).

Definition slices_measure (function : bytes) (st : Slices) : nat := length function - at_i st.

Definition call_slices (what : bytes) (capacity : nat) (finish : list bytes -> SqlTranslationResult)
    (function : bytes) (name_end : nat) : SqlTranslationResult :=
  let no_list := slices_failed [str "ODBC "; what; str " requires an argument list"] in
  match skip_trivia function name_end with
  | None => no_list
  | Some open =>
      if (open =? length function)%nat || negb (at_pos function open =? ch "(") then no_list
      else run (slices_measure function) (slices_step what capacity finish function)
             {| at_i := S open; from := S open; depth := 1; found := [] |}
  end.

Definition translate_locate (function : bytes) (name_end : nat) : SqlTranslationResult :=
  call_slices (str "LOCATE") 3
    (fun arguments =>
       match arguments with
       | [a; b] => Translated (str "POSITION(" ++ a ++ str " IN " ++ b ++ str ")")
       | [_; _; _] => Failed Unsupported (str "LOCATE start-position argument is not supported")
       | _ => slices_failed [str "Invalid LOCATE call structure"]
       end) function name_end.

(** A call of one argument. *)
Definition one_argument (what : bytes) (build : bytes -> bytes) (function : bytes) (name_end : nat)
    : SqlTranslationResult :=
  call_slices what 1
    (fun arguments =>
       match arguments with
       | [a] => Translated (build a)
       | _ => slices_failed [str "Invalid "; what; str " call structure"]
       end) function name_end.

Definition translate_length : bytes -> nat -> SqlTranslationResult :=
  one_argument (str "LENGTH") (fun a => str "LENGTH(RTRIM(" ++ a ++ str ", ' '))").

Definition translate_calendar_component (function : bytes) (name_end : nat) (part : bytes)
    : SqlTranslationResult :=
  one_argument (str "calendar component")
    (fun a => str "CAST(DATE_PART(" ++ part ++ str ", " ++ a ++ str ") AS INTEGER)") function name_end.

Definition translate_clock_component (function : bytes) (name_end : nat) (part : bytes)
    : SqlTranslationResult :=
  one_argument (str "clock component")
    (fun a => str "CAST(FLOOR(EXTRACT(" ++ part ++ str " FROM " ++ a ++ str ")) AS INTEGER)") function name_end.

Definition translate_day_ordinal_component (function : bytes) (name_end : nat) (part : bytes)
    : SqlTranslationResult :=
  one_argument (str "day ordinal component")
    (fun a => str "EXTRACT(" ++ part ++ str " FROM " ++ a ++ str ")") function name_end.

Definition translate_logarithm (function : bytes) (name_end : nat) (native_function : bytes)
    : SqlTranslationResult :=
  one_argument (str "logarithm") (fun a => native_function ++ str "(" ++ a ++ str ")") function name_end.

(** *** Functions *)

(** [{fn NOW()}] and [{fn CURTIME()}] on Redshift: exactly no argument. *)
Definition translate_now (name function : bytes) (name_end : nat) : SqlTranslationResult :=
  let next c at_p :=
    match at_p with
    | Some p => if (p <? length function)%nat && (at_pos function p =? c)
                then skip_trivia function (S p) else None
    | None => None
    end in
  match next (ch ")") (next (ch "(") (skip_trivia function name_end)) with
  | Some e =>
      if (e =? length function)%nat
      then Translated (if ascii_word_equal name (str "NOW") then str "GETDATE()"
                       else str "CAST(GETDATE() AS TIME)")
      else Failed InvalidSyntax (str "ODBC current-time escape requires exactly zero arguments")
  | None => Failed InvalidSyntax (str "ODBC current-time escape requires exactly zero arguments")
  end.

(** The functions Redshift spells differently; [None] for any other name. *)
Definition redshift_function (name function : bytes) (name_end : nat) : option SqlTranslationResult :=
  let named word := ascii_word_equal name (str word) in
  if named "LOCATE"%string then Some (translate_locate function name_end)
  else if named "LENGTH"%string then Some (translate_length function name_end)
  else if named "YEAR"%string then Some (translate_calendar_component function name_end (str "year"))
  else if named "MONTH"%string then Some (translate_calendar_component function name_end (str "month"))
  else if named "DAYOFMONTH"%string then Some (translate_calendar_component function name_end (str "day"))
  else if named "LOG"%string then Some (translate_logarithm function name_end (str "LN"))
  else if named "LOG10"%string then Some (translate_logarithm function name_end (str "LOG"))
  else if named "DAYOFWEEK"%string then
    Some (and_then (translate_day_ordinal_component function name_end (str "dow"))
            (fun sql => Translated (str "(" ++ sql ++ str "+1)")))
  else if named "DAYOFYEAR"%string then Some (translate_day_ordinal_component function name_end (str "doy"))
  else if named "HOUR"%string then Some (translate_clock_component function name_end (str "hour"))
  else if named "MINUTE"%string then Some (translate_clock_component function name_end (str "minute"))
  else if named "SECOND"%string then Some (translate_clock_component function name_end (str "second"))
  else if named "NOW"%string || named "CURTIME"%string then Some (translate_now name function name_end)
  else None.

(** The replacement of a function name common to both products; the last match wins. *)
Definition renamed (name : bytes) : bytes :=
  foldl (fun replacement '(word, native) => if starts_with_word name (str word) then str native else replacement)
    []
    [("UCASE", "UPPER"); ("LCASE", "LOWER"); ("IFNULL", "COALESCE"); ("CURDATE", "CURRENT_DATE");
     ("CURTIME", "CURRENT_TIME"); ("NOW", "CURRENT_TIMESTAMP")]%string.

Definition sql_blank (c : Z) : bool := (c =? ch " ") || (c =? 9) || (c =? 13) || (c =? 10).

(** [function.find_last_not_of(" \t\r\n")]. *)
Definition last_nonblank (s : bytes) : option nat :=
  match drop_while sql_blank (rev s) with [] => None | t => Some (length t - 1)%nat end.

(** The name before the parenthesis replaced, in the text [function] was trimmed from. *)
Definition rename_function (translated function : bytes) : bytes :=
  match find_char (ch "(") function with
  | None => translated
  | Some open =>
      let replacement := renamed (trim_space (take open function)) in
      if beq replacement [] then translated
      else
        let keyword_function := starts_with replacement (str "CURRENT_") in
        let empty_arguments :=
          match last_nonblank function with
          | Some close =>
              (at_pos function close =? ch ")") && beq (trim_space (slice function (S open) close)) []
          | None => false
          end in
        if keyword_function && empty_arguments then replacement
        else replacement ++ drop open translated
  end.

(** [{fn ...}] after the inner escapes are translated. *)
Definition translate_function (profile : SqlDialectProfile) (translated : bytes) : SqlTranslationResult :=
  let function := trim_space translated in
  let renaming := Translated (rename_function translated function) in
  match skip_trivia function 0 with
  | None => renaming
  | Some first =>
      let name := (span identifier_continue (drop first function)).1 in
      let name_end := (first + length name)%nat in
      if ascii_word_equal name (str "CONVERT") then translate_convert function name_end profile
      else if ascii_word_equal name (str "TIMESTAMPADD")
      then translate_timestamp function name_end profile true
      else if ascii_word_equal name (str "TIMESTAMPDIFF")
      then translate_timestamp function name_end profile false
      else
        match profile with
        | Redshift => default renaming (redshift_function name function name_end)
        | PostgreSql => renaming
        end
  end.

(** *** Escape clauses and text *)

Section Translate.
Context (profile : SqlDialectProfile) (translate_inner : bytes -> SqlTranslationResult).

Definition translate_escape (body : bytes) : SqlTranslationResult :=
  let body := trim_space body in
  if starts_with_word body (str "ts") then translate_datetime body (str "ts") (str "TIMESTAMP")
  else if starts_with_word body (str "d") then translate_datetime body (str "d") (str "DATE")
  else if starts_with_word body (str "t") then translate_datetime body (str "t") (str "TIME")
  else if starts_with_word body (str "fn")
  then and_then (translate_inner (trim_space (drop 2 body))) (translate_function profile)
  else if starts_with_word body (str "oj") then translate_inner (trim_space (drop 2 body))
  else if starts_with_word body (str "escape") then
    match quoted_value (drop 6 body) with
    | Some literal =>
        if beq literal (str "''") || bool_decide (utf8_code_point_count literal = Some 1%nat)
        then Translated (str "ESCAPE '" ++ literal ++ str "'")
        else Failed InvalidSyntax (str "ODBC LIKE escape must contain one character")
    | None => Failed InvalidSyntax (str "ODBC LIKE escape must contain one character")
    end
  else if starts_with_word body (str "call")
  then and_then (translate_inner (trim_space (drop 4 body))) (fun sql => Translated (str "CALL " ++ sql))
  else if starts_with body (str "?")
  then Failed Unsupported (str "ODBC function-return procedure calls are not supported")
  else Translated (str "{" ++ body ++ str "}").

(** One iteration of [translate_fragment]: the position and the output. *)
Definition fragment_step (sql : bytes) (st : nat * bytes) : (nat * bytes) + SqlTranslationResult :=
  let '(i, output) := st in
  if (i <? length sql)%nat then
    match lexical_stop (lexical_at sql i) with
    | Some skipped => inl (skipped, output ++ slice sql i skipped)
    | None =>
        if negb (at_pos sql i =? ch "{") then inl (S i, output ++ [at_pos sql i])
        else
          match escape_end sql i with
          | None => inr (Failed InvalidSyntax (str "ODBC escape clause has no closing brace"))
          | Some stop =>
              match translate_escape (slice sql (S i) stop) with
              | Failed e m => inr (Failed e m)
              | Translated text => inl (S stop, output ++ text)
              end
          end
    end
  else inr (Translated output).

Definition fragment_loop (sql : bytes) : SqlTranslationResult :=
  run (remaining sql) (fragment_step sql) (O, []).
End Translate.

Fixpoint translate_fragment (fuel : nat) (profile : SqlDialectProfile) (sql : bytes)
    : SqlTranslationResult :=
  match fuel with
  | O => Failed InvalidSyntax []
  | S fuel => fragment_loop profile (translate_fragment fuel profile) sql
  end.

Definition translate_odbc_sql (sql : bytes) (profile : SqlDialectProfile) : SqlTranslationResult :=
  translate_fragment (S (length sql)) profile sql.

Example translate_examples :
  translate_odbc_sql (str "SELECT {fn UCASE(name)}, '{d x}' FROM t WHERE d = {d '2024-02-29'}") PostgreSql =
    Translated (str "SELECT UPPER(name), '{d x}' FROM t WHERE d = DATE '2024-02-29'") /\
  translate_odbc_sql (str "{fn CONVERT({fn NOW()}, SQL_VARCHAR)}") Redshift =
    Translated (str "CAST(GETDATE() AS VARCHAR(65535))") /\
  translate_odbc_sql (str "{fn TIMESTAMPADD(SQL_TSI_YEAR, ?, ts)}") PostgreSql =
    Translated (str "(CAST(( ?) AS BIGINT) * INTERVAL '1 year' + " ++ timestamp_operand (str " ts") PostgreSql ++ str ")") /\
  translate_odbc_sql (str "{fn LOCATE('a,)', f(x, y) -- c
)}") Redshift = Translated (str "POSITION('a,)' IN  f(x, y) -- c
)") /\
  translate_odbc_sql (str "{d '2023-02-29'}") PostgreSql =
    Failed InvalidDatetime (str "ODBC datetime escape contains an invalid value") /\
  translate_odbc_sql (str "{call p(?)}") Redshift = Translated (str "CALL p(?)") /\
  translate_odbc_sql (str "{x} {unclosed") Redshift =
    Failed InvalidSyntax (str "ODBC escape clause has no closing brace").
Proof. vm_compute. repeat split. Qed.

(** ** Termination *)

Lemma trim_by_length p s : (length (trim_by p s) <= length s)%nat.
Proof.
  unfold trim_by. rewrite length_rev. etrans; [apply drop_while_length|]. rewrite length_rev.
  apply drop_while_length.
Qed.

Lemma slice_length s a b : (length (slice s a b) <= b - a)%nat.
Proof. unfold slice. rewrite length_take. lia. Qed.

#[export] Instance call_step_decreases count function :
  Decreases (call_measure function) (call_step count function).
Proof.
  intros st st'. unfold call_step, call_measure.
  destruct (pos st <? length function)%nat eqn:Hi; [|done]. apply Nat.ltb_lt in Hi.
  pose proof (fun j => lexical_progress function (pos st) j Hi) as Hp.
  destruct (lexical_at function (pos st)) as [[e|]|[e|]|[e|]|c]; try done.
  1-3: intros [= <-]; specialize (Hp e eq_refl); cbn; lia.
  cbv zeta. repeat (case_match; try done); intros [= <-]; cbn; lia.
Qed.

#[export] Instance slices_step_decreases what capacity finish function :
  Decreases (slices_measure function) (slices_step what capacity finish function).
Proof.
  intros st st'. unfold slices_step, slices_measure.
  destruct (at_i st <? length function)%nat eqn:Hi; [|done]. apply Nat.ltb_lt in Hi.
  pose proof (fun j => lexical_progress function (at_i st) j Hi) as Hp.
  destruct (lexical_at function (at_i st)) as [[e|]|[e|]|[e|]|c]; try done.
  1-3: intros [= <-]; specialize (Hp e eq_refl); cbn; lia.
  cbv zeta. repeat (case_match; try done); intros [= <-]; cbn; lia.
Qed.

#[export] Instance fragment_step_decreases profile inner sql :
  Decreases (remaining sql) (fragment_step profile inner sql).
Proof.
  intros [i o] [i' o']. unfold fragment_step, remaining.
  destruct (i <? length sql)%nat eqn:Hi; [|done]. apply Nat.ltb_lt in Hi.
  destruct (lexical_stop _) as [j|] eqn:E.
  { apply lexical_progress in E; [|done]. intros [= <- <-]. cbn. lia. }
  destruct (negb _); [intros [= <- <-]; cbn; lia|].
  destruct (escape_end sql i) as [j|] eqn:Ee; [|done]. apply escape_end_spec in Ee as [? _].
  destruct (translate_escape _ _ _); [|done]. intros [= <- <-]. cbn. lia.
Qed.

(** An escape clause looks only at texts shorter than its body. *)
Lemma translate_escape_ext profile r1 r2 body :
  (forall s, (length s <= length body)%nat -> r1 s = r2 s) ->
  translate_escape profile r1 body = translate_escape profile r2 body.
Proof.
  intros H. unfold translate_escape. cbv zeta.
  assert (forall n, r1 (trim_space (drop n (trim_space body))) = r2 (trim_space (drop n (trim_space body)))) as Hr.
  { intros n. apply H. etrans; [apply trim_by_length|]. rewrite length_drop.
    pose proof (trim_by_length isspace body). unfold trim_space. lia. }
  by rewrite !Hr.
Qed.

Lemma fragment_loop_ext profile r1 r2 sql :
  (forall s, (length s < length sql)%nat -> r1 s = r2 s) ->
  fragment_loop profile r1 sql = fragment_loop profile r2 sql.
Proof.
  intros H. unfold fragment_loop. apply run_ext. intros [i o]. unfold fragment_step.
  destruct (i <? length sql)%nat eqn:Hi; [|done]. apply Nat.ltb_lt in Hi.
  destruct (lexical_stop _); [done|]. destruct (negb _); [done|].
  destruct (escape_end sql i) as [j|] eqn:E; [|done]. apply escape_end_spec in E as [Hj _].
  rewrite (translate_escape_ext profile r1 r2); [done|]. intros s Hs. apply H.
  pose proof (slice_length sql (S i) j). lia.
Qed.

Lemma translate_fuel profile n m sql : (length sql < n)%nat -> (length sql < m)%nat ->
  translate_fragment n profile sql = translate_fragment m profile sql.
Proof.
  revert m sql. induction n as [|n IH]; intros m sql Hn Hm; [lia|].
  destruct m as [|m]; [lia|]. cbn [translate_fragment]. apply fragment_loop_ext.
  intros s Hs. apply IH; lia.
Qed.

(** Translation terminates.  The mutual recursion of the code, a text whose
    escape clauses are translated by translating their shorter bodies, has a
    value for every text, nested escapes of any depth included: the model
    satisfies the recursion with no bound in it, and every bound above the length
    of the text gives the same result. *)
Theorem translate_terminates (profile : SqlDialectProfile) (sql : bytes) :
  translate_odbc_sql sql profile =
    fragment_loop profile (fun inner => translate_odbc_sql inner profile) sql /\
  forall fuel, (length sql < fuel)%nat ->
    translate_fragment fuel profile sql = translate_odbc_sql sql profile.
Proof.
  split; [|intros fuel Hf; apply translate_fuel; lia].
  unfold translate_odbc_sql at 1. cbn [translate_fragment]. apply fragment_loop_ext.
  intros s Hs. apply translate_fuel; lia.
Qed.

Lemma translate_terminates_witness :
  translate_fragment 100 Redshift (str "{fn UCASE({fn LCASE('a')})}") = Translated (str "UPPER(LOWER('a'))").
Proof.
  rewrite (proj2 (translate_terminates Redshift (str "{fn UCASE({fn LCASE('a')})}")) 100%nat);
    [reflexivity|cbn; lia].
Defined.

(** ** Text without escape clauses *)

(** From position [i] on the scanner meets no opening brace: braces occur only
    in quoted strings, comments and dollar-quoted bodies. *)
Inductive native_sql (sql : bytes) : nat -> Prop :=
| native_end i : (length sql <= i)%nat -> native_sql sql i
| native_lexical i j :
    (i < length sql)%nat -> lexical_stop (lexical_at sql i) = Some j ->
    native_sql sql j -> native_sql sql i
| native_char i :
    (i < length sql)%nat -> lexical_stop (lexical_at sql i) = None -> at_pos sql i <> ch "{" ->
    native_sql sql (S i) -> native_sql sql i.

Lemma slice_cons s i : (i < length s)%nat -> drop i s = at_pos s i :: drop (S i) s.
Proof.
  intros H. rewrite (split_at s i H) at 1. rewrite drop_app_ge; rewrite length_take; [|lia].
  by replace (i - _)%nat with 0%nat by lia.
Qed.

Lemma slice_app s i j : (i <= j)%nat -> slice s i j ++ drop j s = drop i s.
Proof.
  intros H. unfold slice. rewrite <- (take_drop (j - i) (drop i s)) at 2. rewrite drop_drop.
  by replace (i + (j - i))%nat with j by lia.
Qed.

Lemma native_run profile inner sql i output : native_sql sql i ->
  run (remaining sql) (fragment_step profile inner sql) (i, output) = Translated (output ++ drop i sql).
Proof.
  intros H. revert output. induction H as [i Hi|i j Hi Hj _ IH|i Hi Hn Hc _ IH]; intros output;
    rewrite run_eq; unfold fragment_step at 1.
  - rewrite (proj2 (Nat.ltb_ge _ _)), drop_ge, app_nil_r by done. done.
  - rewrite (proj2 (Nat.ltb_lt _ _)), Hj, IH by done. apply lexical_progress in Hj; [|done].
    rewrite <- app_assoc, slice_app by lia. done.
  - rewrite (proj2 (Nat.ltb_lt _ _)), Hn, (proj2 (Z.eqb_neq _ _)) by done. cbn [negb].
    rewrite IH, (slice_cons sql i), <- app_assoc by done. done.
Qed.

Lemma no_brace_native sql i : Forall (fun c => c <> ch "{") sql -> native_sql sql i.
Proof.
  intros H. remember (length sql - i)%nat as n eqn:Hn. revert i Hn.
  induction n as [n IH] using lt_wf_ind. intros i ->.
  destruct (decide (i < length sql)%nat) as [Hi|Hi]; [|apply native_end; lia].
  destruct (lexical_stop (lexical_at sql i)) as [j|] eqn:E.
  - pose proof (lexical_progress sql i j Hi E). eapply native_lexical; [done|done|]. eapply IH; [|done]. lia.
  - apply native_char; [done|done| |eapply IH; [|done]; lia].
    unfold at_pos. rewrite List.Forall_forall in H. by apply H, nth_In.
Qed.

(** SQL that has no escape clause reaches the server unchanged, byte for
    byte, on both products: text without an opening brace, and text whose
    opening braces all lie inside quoted strings, quoted identifiers, comments or
    dollar-quoted bodies. *)
Theorem translate_native_unchanged (profile : SqlDialectProfile) (sql : bytes) :
  native_sql sql 0 \/ Forall (fun c => c <> ch "{") sql ->
  translate_odbc_sql sql profile = Translated sql.
Proof.
  intros H. assert (native_sql sql 0) as Hn by (destruct H; [done|by apply no_brace_native]).
  unfold translate_odbc_sql. cbn [translate_fragment]. unfold fragment_loop. by rewrite native_run.
Qed.

Lemma translate_native_unchanged_witness :
  translate_odbc_sql (str "'{d' -- {x") Redshift = Translated (str "'{d' -- {x").
Proof.
  apply translate_native_unchanged. left.
  apply (native_lexical _ 0 4); [cbn; lia|reflexivity|].
  apply native_char; [cbn; lia|reflexivity|done|].
  apply (native_lexical _ 5 10); [cbn; lia|reflexivity|]. apply native_end. cbn. lia.
Defined.

(** ** Datetime literals *)

Lemma decimal_positive s v : decimal s = Some v -> 1 <= v -> digits s /\ digits_value s = v /\ s <> [].
Proof.
  unfold decimal, from_chars_signed. intros H Hv.
  assert (exists neg t, (match s with c :: t => if c =? ch "-" then (true, t) else (false, s)
                         | [] => (false, s) end) = (neg : bool, t) /\ (neg = false -> t = s)) as (neg & t & E & Ht).
  { destruct s as [|c t]; [by exists false, []|]. destruct (c =? ch "-"); [by exists true, t|by exists false, (c :: t)]. }
  rewrite E in H. clear E. destruct (span isdigit t) as [[|d ds] rest] eqn:Es; [done|].
  apply span_forall in Es as Hd. apply span_app in Es as Et.
  destruct (_ && _); [|done]. destruct rest; [|done]. injection H as Hval.
  pose proof (digits_value_bounds _ Hd). destruct neg; [lia|].
  rewrite app_nil_r in Et. subst t. rewrite Ht in Hd, Hval by done. split_and!; [done|done|]. by rewrite <- (Ht eq_refl).
Qed.

Lemma decimal_of_digits s : digits s -> s <> [] -> (length s <= 9)%nat -> decimal s = Some (digits_value s).
Proof.
  intros Hs Hne Hl. unfold decimal, from_chars_signed. destruct s as [|c t]; [done|].
  assert (48 <= c <= 57) as Hc by (inv_forall; by apply isdigit_spec).
  rewrite (proj2 (Z.eqb_neq c (ch "-"))) by lia.
  assert (span isdigit (c :: t) = (c :: t, [])) as ->.
  { rewrite <- (app_nil_r (c :: t)) at 1. by apply span_exact. }
  pose proof (digits_value_bounds _ Hs) as Hb.
  assert (10 ^ size (c :: t) <= 10 ^ 9) by (apply Z.pow_le_mono_r; unfold size; lia). cbv zeta. by repeat ztest.
Qed.

Lemma decimal_field n s v : (1 <= n <= 9)%nat -> field n s v -> decimal s = Some v.
Proof.
  intros Hn (Hd & Hl & <-). apply decimal_of_digits; [done| |lia]. intros ->. cbn in Hl. lia.
Qed.

Lemma slice_field value n a : (a + n <= length value)%nat -> length (slice value a (a + n)) = n.
Proof. intros H. unfold slice. rewrite length_take, length_drop. lia. Qed.

(** The validator accepts the dates the result converter reads, from year 1 on. *)
Lemma valid_date_exact value :
  valid_date value = true <-> exists year month day, date_text value year month day /\ 1 <= year.
Proof.
  unfold valid_date. split.
  - destruct (_ || _) eqn:E; [done|]. apply orb_false_iff in E as [E E2%negb_false_iff%Z.eqb_eq].
    apply orb_false_iff in E as [E0%negb_false_iff%Nat.eqb_eq E1%negb_false_iff%Z.eqb_eq].
    destruct (decimal (slice value 0 4)) as [y|] eqn:Ey; [|done].
    destruct (decimal (slice value 5 7)) as [m|] eqn:Em; [|done].
    destruct (decimal (slice value 8 10)) as [d|] eqn:Ed; [|done]. cbv zeta.
    destruct (_ || _) eqn:Eb; [done|]. zb. intros [Hd1 Hd2]%andb_true_iff. zb.
    apply decimal_positive in Ey as (Dy & Vy & _), Em as (Dm & Vm & _), Ed as (Dd & Vd & _); [|lia..].
    exists y, m, d. split; [|done].
    rewrite (split_two value 4 2), E1 by lia. cbn [Nat.add].
    rewrite (split_at (drop 7 value) 0) by (rewrite length_drop; lia). rewrite at_pos_drop. cbn [Nat.add].
    rewrite E2, drop_drop, take_0. cbn [app Nat.add].
    unfold slice in *. cbn [Nat.sub] in *. rewrite drop_0 in *.
    rewrite (take_ge (drop 8 value)) in Dd, Vd by (rewrite length_drop; lia).
    constructor; try done; (split; [done|split; [|done]]); rewrite ?length_take, ?length_drop; lia.
  - intros (y & m & d & Ht & Hy).
    pose proof (proj2 (parse_date_exact value y m d) Ht) as Hp. unfold parse_date in Hp.
    destruct (_ && _) eqn:E; [|done]. apply andb_true_iff in E as [E E2]. apply andb_true_iff in E as [E0 E1].
    rewrite E0, E1, E2. cbn [negb orb]. apply Nat.eqb_eq in E0.
    destruct (parse_digits value 0 4) as [y'|] eqn:Ey; [|done].
    destruct (parse_digits value 5 2) as [m'|] eqn:Em; [|done].
    destruct (parse_digits value 8 2) as [d'|] eqn:Ed; [|done]. mcbn.
    destruct (ConvertTime.valid_date y' m' d') eqn:Ev; [|done]. injection Hp as -> -> ->.
    apply parse_digits_sound in Ey as [Fy _], Em as [Fm _], Ed as [Fd _].
    pose proof (field_bounds _ _ _ Fy). apply ConvertTime.valid_date_spec in Ev as (Hm & Hd1 & Hd2); [|lia].
    unfold slice. cbn [Nat.sub].
    rewrite (decimal_field 4 _ y), (decimal_field 2 _ m), (decimal_field 2 _ d) by (done || lia).
    cbv zeta. repeat ztest. change (leap_year y) with (ConvertTime.leap_year y).
    change month_days with days_per_month. by repeat ztest.
Qed.

Lemma zone_unsigned zone : zone_text zone -> Forall (fun c => c <> ch "+" /\ c <> ch "-") zone -> zone = [].
Proof. destruct 1 as [|c ? ? Hc|c ? ? ? ? Hc]; [done|..]; intros Hu; inv_forall; destruct Hc; lia. Qed.

Lemma digits_unsigned s : digits s -> Forall (fun c => c <> ch "+" /\ c <> ch "-") s.
Proof. intros H. eapply list.Forall_impl; [exact H|]. intros c Hc%isdigit_spec. cbn. lia. Qed.

(** The validator accepts the times the result converter reads, with no zone and
    no leap second. *)
Lemma valid_time_exact value :
  valid_time value = true <-> exists hour minute second fs,
    time_text value hour minute second fs /\ second <= 59 /\
    Forall (fun c => c <> ch "+" /\ c <> ch "-") value.
Proof.
  unfold valid_time. split.
  - destruct (_ || _) eqn:E; [done|]. apply orb_false_iff in E as [E E2%negb_false_iff%Z.eqb_eq].
    apply orb_false_iff in E as [E0%Nat.ltb_ge E1%negb_false_iff%Z.eqb_eq].
    destruct (_ || _) eqn:E; [done|]. apply orb_false_iff in E as [E D3%negb_false_iff%forallb_digits].
    apply orb_false_iff in E as [D1%negb_false_iff%forallb_digits D2%negb_false_iff%forallb_digits].
    assert (length (slice value 0 2) = 2%nat) as L1 by (apply (slice_field value 2 0); lia).
    assert (length (slice value 3 5) = 2%nat) as L2 by (apply (slice_field value 2 3); lia).
    assert (length (slice value 6 8) = 2%nat) as L3 by (apply (slice_field value 2 6); lia).
    rewrite !decimal_of_digits by (done || lia || (intros E; rewrite E in *; done)).
    destruct (_ || _) eqn:Eb; [done|]. zb. intros Hs.
    assert (exists fs, drop 8 value = point_fraction fs /\ digits fs) as (fs & Efs & Hfs).
    { destruct (drop 8 value) as [|c t]; [by exists []|]. destruct (_ || _) eqn:Ec; [done|]. zb.
      apply forallb_digits in Hs. exists t. destruct t; [done|]. split; [|done]. cbn. congruence. }
    assert (value = slice value 0 2 ++ [ch ":"] ++ slice value 3 5 ++ [ch ":"] ++ slice value 6 8
                    ++ point_fraction fs ++ []) as Ev.
    { rewrite app_nil_r, <- Efs. rewrite (split_two value 2 2), E1 at 1 by lia. cbn [Nat.add].
      rewrite (split_two (drop 5 value) 0 2) by (rewrite length_drop; lia).
      rewrite at_pos_drop, take_0, !drop_drop. cbn [app Nat.add]. by rewrite E2. }
    do 4 eexists. split; [rewrite Ev at 1; eapply (time_intro _ _ _ fs); try (split; [done|done]); lia || done || constructor|].
    split; [lia|].
    assert (Forall (fun c => c <> ch "+" /\ c <> ch "-") [ch ":"]) as Hcolon by (by repeat constructor).
    assert (Forall (fun c => c <> ch "+" /\ c <> ch "-") (point_fraction fs)) as Hpoint.
    { destruct fs; [constructor|]. constructor; [done|by apply digits_unsigned]. }
    rewrite Ev, !Forall_app. eauto 12 using digits_unsigned, Forall_nil_2.
  - intros (h & m & s & fs & Ht & Hs & Hu). pose proof (parse_time_of _ _ _ _ _ Ht) as Hp.
    pose proof (time_text_chars _ _ _ _ _ Ht) as (_ & L & -> & ->). unfold parse_time in Hp.
    destruct (_ || _) in Hp; [done|].
    destruct (parse_digits value 0 2) as [h'|] eqn:Eh; [|done].
    destruct (parse_digits value 3 2) as [m'|] eqn:Em; [|done].
    destruct (parse_digits value 6 2) as [s'|] eqn:Es; [|done]. mcbn.
    destruct (_ || _) eqn:Eb in Hp; [done|]. destruct (parse_fraction _). injection Hp as -> -> -> _ _.
    apply orb_false_iff in Eb as [Eb Ev%negb_false_iff]. zb.
    apply parse_digits_sound in Eh as [Fh _], Em as [Fm _], Es as [Fs _].
    rewrite (proj2 (Nat.ltb_ge _ _)) by done. change (ch ":" =? ch ":") with true. cbn [negb orb].
    unfold slice. cbn [Nat.sub]. pose proof Fh as (Dh & _). pose proof Fm as (Dm & _). pose proof Fs as (Ds & _).
    apply forallb_digits in Dh as ->, Dm as ->, Ds as ->. cbn [negb orb].
    rewrite (decimal_field 2 _ h), (decimal_field 2 _ m), (decimal_field 2 _ s) by (done || lia).
    repeat ztest. apply time_suffix_sound in Ev as (gs & zone & E & Hgs & Hz). rewrite E.
    rewrite (zone_unsigned zone Hz), app_nil_r.
    + destruct gs as [|g gs]; [done|]. apply forallb_digits in Hgs. unfold point_fraction.
      change (beq (g :: gs) []) with false. exact Hgs.
    + eapply Forall_app with (l1 := point_fraction gs). rewrite <- E. by apply Forall_drop.
Qed.

(** The literal of each escape keyword, in the grammar of the result converter. *)
Inductive literal_text : bytes -> bytes -> Prop :=
| literal_date v year month day :
    date_text v year month day -> 1 <= year -> literal_text (str "d") v
| literal_time v hour minute second fs :
    time_text v hour minute second fs -> second <= 59 ->
    Forall (fun c => c <> ch "+" /\ c <> ch "-") v -> literal_text (str "t") v
| literal_timestamp d t :
    literal_text (str "d") d -> literal_text (str "t") t -> literal_text (str "ts") (d ++ str " " ++ t).

Definition valid_literal (keyword literal : bytes) : bool :=
  if beq keyword (str "d") then valid_date literal
  else if beq keyword (str "t") then valid_time literal
  else if beq keyword (str "ts") then
    (11 <? length literal)%nat && (at_pos literal 10 =? ch " ") &&
    valid_date (take 10 literal) && valid_time (drop 11 literal)
  else false.

Lemma literal_date_inv v : literal_text (str "d") v <-> valid_date v = true.
Proof.
  rewrite valid_date_exact. split; [|intros (y & m & d & H & Hy); by eapply literal_date].
  remember (str "d") as k eqn:Ek. destruct 1; [eauto|discriminate Ek..].
Qed.

Lemma literal_time_inv v : literal_text (str "t") v <-> valid_time v = true.
Proof.
  rewrite valid_time_exact. split; [|intros (h & m & s & fs & H & Hs & Hu); by eapply literal_time].
  remember (str "t") as k eqn:Ek. destruct 1; [discriminate Ek|eauto 8|discriminate Ek].
Qed.

Lemma valid_literal_exact keyword v : keyword ∈ map str ["d"; "t"; "ts"]%string ->
  valid_literal keyword v = true <-> literal_text keyword v.
Proof.
  intros Hk. cbn [map] in Hk. rewrite !elem_of_cons in Hk.
  destruct Hk as [-> | [-> | [-> | []%elem_of_nil]]]; [by rewrite literal_date_inv|by rewrite literal_time_inv|].
  change (valid_literal (str "ts") v) with
    ((11 <? length v)%nat && (at_pos v 10 =? ch " ") && valid_date (take 10 v) && valid_time (drop 11 v)).
  split.
  - intros [[[Hl%Nat.ltb_lt Hc%Z.eqb_eq]%andb_true_iff Hd]%andb_true_iff Ht]%andb_true_iff.
    rewrite (split_at v 10), Hc by lia. apply (literal_timestamp (take 10 v));
      [by apply literal_date_inv|by apply literal_time_inv].
  - remember (str "ts") as k eqn:Ek. destruct 1 as [|? ? ? ? ? ? ? Hu|d t Hd Ht]; [discriminate Ek..|].
    apply literal_date_inv in Hd. pose proof Hd as Hd'. apply valid_date_exact in Hd' as (y & m & dd & Hd' & _).
    apply date_text_shape in Hd' as [Ld _]. apply literal_time_inv in Ht. pose proof Ht as Ht'.
    apply valid_time_exact in Ht' as (h & mi & s & fs & Ht' & _). apply time_text_chars in Ht' as (_ & Lt & _).
    assert (length (d ++ str " " ++ t) = 11 + length t)%nat as L by (rewrite !length_app; cbn; lia).
    rewrite (proj2 (Nat.ltb_lt _ _)) by lia.
    assert (at_pos (d ++ str " " ++ t) 10 = ch " ") as -> by (rewrite <- Ld; apply at_pos_app).
    assert (take 10 (d ++ str " " ++ t) = d) as -> by (rewrite <- Ld; apply take_app_length).
    assert (drop 11 (d ++ str " " ++ t) = t) as ->.
    { rewrite app_assoc. replace 11%nat with (length (d ++ str " ")) by (rewrite length_app, Ld; done).
      apply drop_app_length. }
    by rewrite Hd, Ht.
Qed.

Lemma literal_no_quote keyword v : literal_text keyword v -> Forall (fun c => c <> ch "'") v.
Proof.
  assert (forall s, digits s -> Forall (fun c => c <> ch "'") s) as Hdig.
  { intros s H. eapply list.Forall_impl; [exact H|]. intros c Hc%isdigit_spec. lia. }
  induction 1 as [v y m d Hd _|v h m s fs Ht _ _|d t _ IHd _ IHt].
  - destruct Hd as [ys ms ds ? ? ? (Hy & _) (Hm & _) (Hd & _) _ _ _].
    assert (Forall (fun c => c <> ch "'") [ch "-"]) by (by repeat constructor).
    rewrite !Forall_app. auto 10.
  - apply time_text_chars in Ht as (Hc & _). eapply list.Forall_impl; [exact Hc|].
    intros c [H%isdigit_spec|H]; [lia|]. intros ->. intuition lia.
  - rewrite !Forall_app. split_and!; [done|by repeat constructor|done].
Qed.

Definition native_keyword (keyword : bytes) : bytes :=
  if beq keyword (str "d") then str "DATE" else if beq keyword (str "t") then str "TIME" else str "TIMESTAMP".

Lemma drop_while_blank p b s : Forall (fun c => p c = true) b -> drop_while p (b ++ s) = drop_while p s.
Proof. induction 1 as [|c b Hc _ IH]; [done|]. cbn. by rewrite Hc. Qed.

(** Trimming removes the blanks around a text that starts and ends with others. *)
Lemma trim_by_exact p b1 b2 c s d :
  Forall (fun c => p c = true) b1 -> Forall (fun c => p c = true) b2 -> p c = false -> p d = false ->
  trim_by p (b1 ++ (c :: s ++ [d]) ++ b2) = c :: s ++ [d].
Proof.
  intros H1 H2 Hc Hd. unfold trim_by. rewrite drop_while_blank by done. cbn [app drop_while]. rewrite Hc.
  change (c :: (s ++ [d]) ++ b2) with ((c :: s ++ [d]) ++ b2).
  rewrite rev_app_distr, drop_while_blank by (by apply Forall_rev).
  change (c :: s ++ [d]) with ((c :: s) ++ [d]). rewrite rev_app_distr. cbn [rev app drop_while]. rewrite Hd.
  cbn [rev]. by rewrite rev_app_distr, rev_involutive.
Qed.

Lemma quoted_value_exact b1 v : Forall (fun c => isspace c = true) b1 ->
  quoted_value (b1 ++ str "'" ++ v ++ str "'") = Some v.
Proof.
  intros H1. unfold quoted_value, trim_space.
  pose proof (trim_by_exact isspace b1 [] (ch "'") v (ch "'") H1 (Forall_nil_2 _) eq_refl eq_refl) as Ht.
  rewrite app_nil_r in Ht. change (str "'" ++ v ++ str "'") with (ch "'" :: v ++ [ch "'"]). rewrite Ht.
  cbn [length]. rewrite length_app. cbn [length].
  rewrite (proj2 (Nat.ltb_ge _ _)) by lia. change (at_pos (ch "'" :: v ++ [ch "'"]) 0) with (ch "'").
  replace (S (length v + 1) - 1)%nat with (length (ch "'" :: v)) by (cbn; lia).
  rewrite (at_pos_app (ch "'" :: v) (ch "'") [] : at_pos (ch "'" :: v ++ [ch "'"]) _ = _).
  change (ch "'" =? ch "'") with true. cbn [negb orb]. f_equal.
  unfold slice. cbn [length drop]. rewrite Nat.sub_succ, Nat.sub_0_r. apply take_app_length.
Qed.

Lemma word_blank word c t : isspace c = true -> starts_with_word (word ++ c :: t) word = true.
Proof.
  intros Hc. unfold starts_with_word. rewrite length_app, (proj2 (Nat.ltb_ge _ _)) by lia.
  rewrite take_app_length, drop_app_length. unfold beq. rewrite bool_decide_true by done. cbn [negb]. by rewrite Hc.
Qed.

(** The keyword of a datetime escape is the first one the code tries that matches. *)
Lemma datetime_dispatch profile inner keyword body c t :
  keyword ∈ map str ["d"; "t"; "ts"]%string -> isspace c = true ->
  trim_space body = keyword ++ c :: t ->
  translate_escape profile inner body =
    translate_datetime (keyword ++ c :: t) keyword (native_keyword keyword).
Proof.
  intros Hk Hc Htrim. unfold translate_escape. rewrite Htrim. cbv zeta.
  cbn [map] in Hk. rewrite !elem_of_cons in Hk.
  destruct Hk as [-> | [-> | [-> | []%elem_of_nil]]].
  - rewrite (word_blank (str "d")) by done. done.
  - rewrite (word_blank (str "t")) by done.
    assert (starts_with_word (str "t" ++ c :: t) (str "ts") = false) as ->; [|done].
    unfold starts_with_word. cbn [app length str map String.list_ascii_of_string take].
    assert ((S (S (length t)) <? 2)%nat = false) as -> by (apply Nat.ltb_ge; lia).
    unfold beq. rewrite bool_decide_false; [done|]. intros [= E].
    change (tolower c = 115) in E. assert (c <= 32) by (unfold isspace in Hc; lia).
    unfold tolower, isupper in E. case_match; zb; lia.
  - rewrite (word_blank (str "ts")) by done. done.
Qed.

(** Datetime escapes.  [{d 'v'}], [{t 'v'}] and [{ts 'v'}], with any blanks
    around the literal, become the native literal exactly when [v] is a date, a
    time or a timestamp in the grammar the driver reads results with (from year 1
    on, no zone, no leap second); otherwise they fail with [InvalidDatetime].  What
    is copied into the native literal has no quote, so it cannot end it early. *)
Theorem datetime_escape_exact (profile : SqlDialectProfile) (inner : bytes -> SqlTranslationResult)
    (keyword v b1 b2 : bytes) :
  keyword ∈ map str ["d"; "t"; "ts"]%string ->
  Forall (fun c => isspace c = true) b1 -> Forall (fun c => isspace c = true) b2 -> b1 <> [] ->
  (literal_text keyword v ->
     translate_escape profile inner (keyword ++ b1 ++ str "'" ++ v ++ str "'" ++ b2) =
       Translated (native_keyword keyword ++ str " '" ++ v ++ str "'") /\
     Forall (fun c => c <> ch "'") v) /\
  (~ literal_text keyword v ->
     exists m, translate_escape profile inner (keyword ++ b1 ++ str "'" ++ v ++ str "'" ++ b2) =
       Failed InvalidDatetime m).
Proof.
  intros Hk H1 H2 Hb1. destruct b1 as [|c b1]; [done|]. assert (isspace c = true) as Hc by by inv_forall.
  set (body := keyword ++ _).
  assert (trim_space body = keyword ++ c :: b1 ++ str "'" ++ v ++ str "'") as Htrim.
  { assert (exists k ks, keyword = k :: ks /\ isspace k = false) as (k & ks & -> & Hk1).
    { cbn [map] in Hk. rewrite !elem_of_cons in Hk.
      destruct Hk as [-> | [-> | [-> | []%elem_of_nil]]]; by eexists _, _. }
    pose proof (trim_by_exact isspace [] b2 k (ks ++ (c :: b1) ++ str "'" ++ v) (ch "'")
                  (Forall_nil_2 _) H2 Hk1 eq_refl) as Ht.
    unfold body, trim_space. cbn [app] in Ht |- *.
    repeat (rewrite <- app_assoc in Ht; cbn [app] in Ht). exact Ht. }
  rewrite (datetime_dispatch profile inner keyword body c _ Hk Hc Htrim). unfold translate_datetime.
  rewrite drop_app_length, (quoted_value_exact (c :: b1) v H1 : quoted_value (c :: b1 ++ _) = _).
  fold (valid_literal keyword v). pose proof (valid_literal_exact keyword v Hk) as Hv. split.
  - intros Hl. rewrite (proj2 Hv Hl). split; [done|]. by eapply literal_no_quote.
  - intros Hl. destruct (valid_literal keyword v); [by destruct Hl; apply Hv|]. by eexists.
Qed.

Lemma datetime_escape_exact_witness :
  translate_escape Redshift (fun _ => Translated []) (str "ts  '2024-02-29 23:59:59.5' ") =
    Translated (str "TIMESTAMP '2024-02-29 23:59:59.5'") /\
  Forall (fun c => c <> ch "'") (str "2024-02-29 23:59:59.5").
Proof.
  apply (datetime_escape_exact Redshift (fun _ => Translated []) (str "ts") (str "2024-02-29 23:59:59.5")
           (str "  ") (str " ")); [set_solver|by repeat constructor|by repeat constructor|done|].
  apply (literal_timestamp (str "2024-02-29") (str "23:59:59.5"));
    [by apply literal_date_inv|by apply literal_time_inv].
Defined.
