(* ===== verification/AuthCore.v ===== *)
(** * Authentication material: bindings, requests, authorities and receipts

    [sdk/src/auth/auth_core.cpp] and its header.  A [Binding] says which
    server, source and method a credential is for, a [Request] adds a deadline,
    an [Authority] asks an injected issuer for [Material] and hands it over
    through a [Receipt] that can be taken once.

    The clock, the issuer and the cancellation flag are code of the embedding
    program: they are arguments of the operations, functions on an environment
    [E] they may change.  Times are the signed 64-bit counts of the monotonic
    clock.  An enumerator outside its enumeration cannot be written in the
    model, so the code's tests for one have no counterpart, and an allocation
    always succeeds. *)

From stdpp Require Import relations.
From Stdlib Require Import Sorted.
From S2P Require Import Prelude Utf8.

(** ** Errors *)

Inductive Category := Unsupported | Denied | Malformed | Expired | Cancelled_ | Unavailable.

Inductive Reason :=
| UnsupportedMethod | InvalidBinding | InvalidRequest | InvalidMaterial | SecretLimit
| TargetMismatch | SourceMismatch | MethodMismatch | PrincipalMismatch
| UntrustedReceipt | ConsumedReceipt | CredentialExpired | DeadlineElapsed
| Cancelled | ClockRollback | IssuerFailed | AllocationFailed.

Definition category (reason : Reason) : Category :=
  match reason with
  | UnsupportedMethod => Unsupported
  | InvalidBinding | InvalidRequest | InvalidMaterial | SecretLimit => Malformed
  | TargetMismatch | SourceMismatch | MethodMismatch
  | PrincipalMismatch | UntrustedReceipt | ConsumedReceipt => Denied
  | CredentialExpired | DeadlineElapsed => Expired
  | Cancelled => Cancelled_
  | ClockRollback | IssuerFailed | AllocationFailed => Unavailable
  end.

Inductive Outcome (A : Type) := Value (a : A) | Error (reason : Reason).
Arguments Value {A} a.
Arguments Error {A} reason.

(** ** Times *)

Definition Deadline_min : Z := - 2 ^ 63.
Definition Deadline_max : Z := 2 ^ 63 - 1.
Definition hours_24 : Z := 86400 * 10 ^ 9.

Definition finite (t : Z) : bool := negb (t =? Deadline_min) && negb (t =? Deadline_max).

(** ** Text *)

Definition text_lead (c : Z) : option (nat * Z * Z) :=
  if (0xc2 <=? c) && (c <=? 0xdf) then Some (1%nat, Z.land c 0x1f, 0x80)
  else if (0xe0 <=? c) && (c <=? 0xef) then Some (2%nat, Z.land c 0x0f, 0x800)
  else if (0xf0 <=? c) && (c <=? 0xf4) then Some (3%nat, Z.land c 7, 0x10000)
  else None.

(** The loop [while (n--)]: the value and what follows, or the refused byte. *)
Fixpoint text_rest (n : nat) (value : Z) (s : bytes) : option (Z * bytes) :=
  match n, s with
  | O, _ => Some (value, s)
  | S _, [] => None
  | S n, d :: s =>
      if negb (Z.land d 0xc0 =? 0x80) then None
      else text_rest n (Z.lor (Z.shiftl value 6) (Z.land d 0x3f)) s
  end.

Definition text_step (st : bytes * unit) : (bytes * unit) + bool :=
  match st.1 with
  | [] => inr true
  | c :: s =>
      if (c <? 0x20) || (c =? 0x7f) then inr false
      else if c <? 0x80 then inl (s, tt)
      else
        match text_lead c with
        | None => inr false
        | Some (n, value, minimum) =>
            if (length s <? n)%nat then inr false
            else
              match text_rest n value s with
              | None => inr false
              | Some (value, s) =>
                  if (value <? minimum) || (0x10ffff <? value) ||
                     ((0xd800 <=? value) && (value <=? 0xdfff))
                  then inr false else inl (s, tt)
              end
        end
  end.

Definition text (s : bytes) : bool :=
  if beq s [] || (1024 <? size s) then false else run unread text_step (s, tt).

(** ** Bindings and requests *)

Inductive Service := PostgreSql | Redshift | Rds.
Inductive Method := OrdinaryPassword | TemporaryDatabasePassword | NativeIdpToken.
Inductive SourceKind := ExternalPassword | TrustedTemporaryDbIssuer | ExternalNativeIdpToken.

#[export] Instance Service_eq_dec : EqDecision Service. Proof. solve_decision. Defined.
#[export] Instance Method_eq_dec : EqDecision Method. Proof. solve_decision. Defined.
#[export] Instance SourceKind_eq_dec : EqDecision SourceKind. Proof. solve_decision. Defined.

Record TargetInput := {
  service : Service; endpoint : bytes; port : Z;
  database : bytes; principal : bytes; resource_id : bytes; tls_identity : bytes; trust_policy : bytes }.
Record SourceInput := { source_kind : SourceKind; identity : bytes; generation : bytes }.

#[export] Instance TargetInput_eq_dec : EqDecision TargetInput. Proof. solve_decision. Defined.
#[export] Instance SourceInput_eq_dec : EqDecision SourceInput. Proof. solve_decision. Defined.

(** [owns_valid_storage] is false in the object a [Binding] was moved from. *)
Record Binding := {
  target : TargetInput; source : SourceInput; method : Method; owns_valid_storage : bool }.

Definition binding_policy_error (t : TargetInput) (s : SourceInput) (m : Method) : option Reason :=
  if (bool_decide (m = TemporaryDatabasePassword) || bool_decide (m = NativeIdpToken)) &&
     negb (bool_decide (service t = Redshift)) then Some UnsupportedMethod
  else if (bool_decide (m = OrdinaryPassword) && negb (bool_decide (source_kind s = ExternalPassword))) ||
          (bool_decide (m = TemporaryDatabasePassword) &&
             negb (bool_decide (source_kind s = TrustedTemporaryDbIssuer))) ||
          (bool_decide (m = NativeIdpToken) && negb (bool_decide (source_kind s = ExternalNativeIdpToken)))
  then Some UnsupportedMethod
  else if (port t =? 0) || (65535 <? port t) || negb (text (endpoint t)) || negb (text (database t)) ||
          negb (text (principal t)) || negb (text (resource_id t)) || negb (text (tls_identity t)) ||
          negb (text (trust_policy t)) || negb (text (identity s)) || negb (text (generation s))
  then Some InvalidBinding
  else None.

Definition binding_error (b : Binding) : option Reason :=
  if negb (owns_valid_storage b) then Some InvalidBinding
  else binding_policy_error (target b) (source b) (method b).

Definition create_binding (t : TargetInput) (s : SourceInput) (m : Method) : Outcome Binding :=
  match binding_policy_error t s m with
  | Some error => Error error
  | None => Value {| target := t; source := s; method := m; owns_valid_storage := true |}
  end.

(** The moved-from object keeps its method and has no valid storage. *)
Definition moved_binding (b : Binding) (t : TargetInput) (s : SourceInput) : Binding :=
  {| target := t; source := s; method := method b; owns_valid_storage := false |}.

Record Request := { binding : Binding; deadline : Z; headroom : Z }.

Definition required_until (r : Request) : option Z :=
  if (headroom r <? 0) || (Deadline_max - headroom r <? deadline r) then None
  else
    let result := deadline r + headroom r in
    if finite result then Some result else None.

Definition create_request (b : Binding) (d h : Z) : Outcome Request :=
  match binding_error b with
  | Some error => Error error
  | None =>
      if negb (finite d) || (h <? 0) || (hours_24 <? h) then Error InvalidRequest
      else
        let r := {| binding := b; deadline := d; headroom := h |} in
        match required_until r with
        | None => Error InvalidRequest
        | Some _ => Value r
        end
  end.

Definition match_binding (expected actual : Binding) : option Reason :=
  if negb (bool_decide (target expected = target actual)) then Some TargetMismatch
  else if negb (bool_decide (source expected = source actual)) then Some SourceMismatch
  else if negb (bool_decide (method expected = method actual)) then Some MethodMismatch
  else None.

(** ** Secrets

    [consuming] is set while a consumer looks at the bytes; moving the object
    then throws, and clearing it is refused. *)

Record SecretBytes := { secret_bytes : bytes; consuming : bool }.

Definition max_bytes : Z := 65536.

Definition create_secret (bs : bytes) : Outcome SecretBytes :=
  if max_bytes <? size bs then Error SecretLimit
  else Value {| secret_bytes := bs; consuming := false |}.

(** The new object and the one moved from, or the exception. *)
Definition move_secret (other : SecretBytes) : option (SecretBytes * SecretBytes) :=
  if consuming other then None
  else Some ({| secret_bytes := secret_bytes other; consuming := false |},
             {| secret_bytes := []; consuming := false |}).

Definition clear_secret (s : SecretBytes) : SecretBytes * bool :=
  if consuming s then (s, false) else ({| secret_bytes := []; consuming := false |}, true).

(** ** Material *)

Inductive MaterialKind := MOrdinaryPassword | MTemporaryDatabasePassword | MNativeIdpToken.
#[export] Instance MaterialKind_eq_dec : EqDecision MaterialKind. Proof. solve_decision. Defined.

Record NativeIdpAttributes := {
  idp_type : bytes; provider_name : bytes; token_type : bytes;
  identity_namespace : bytes; plugin_name : bytes }.

Definition no_attributes : NativeIdpAttributes :=
  {| idp_type := []; provider_name := []; token_type := []; identity_namespace := []; plugin_name := [] |}.

Definition attributes_empty (a : NativeIdpAttributes) : bool :=
  beq (idp_type a) [] && beq (provider_name a) [] && beq (token_type a) [] &&
  beq (identity_namespace a) [] && beq (plugin_name a) [].

Definition native_idp_attributes_valid (a : NativeIdpAttributes) : bool :=
  text (idp_type a) && text (provider_name a) && text (token_type a) &&
  (beq (identity_namespace a) [] || text (identity_namespace a)) &&
  (beq (plugin_name a) [] || text (plugin_name a)).

Inductive ValidityKind := NoKnownAcquisitionExpiry | TrustedMonotonicExpiry.
#[export] Instance ValidityKind_eq_dec : EqDecision ValidityKind. Proof. solve_decision. Defined.
Record Validity := { validity_kind : ValidityKind; issued_at : Z; expires_at : Z }.

Definition ordinary : Validity :=
  {| validity_kind := NoKnownAcquisitionExpiry; issued_at := 0; expires_at := 0 |}.
Definition monotonic (issued expires : Z) : Validity :=
  {| validity_kind := TrustedMonotonicExpiry; issued_at := issued; expires_at := expires |}.

Record Material := {
  material_binding : Binding; kind : MaterialKind; material_principal : bytes;
  secret : SecretBytes; validity : Validity; attributes : NativeIdpAttributes }.

(** Moving the material throws when its secret is being consumed. *)
Definition move_material (m : Material) : option Material :=
  match move_secret (secret m) with
  | None => None
  | Some (moved, _) =>
      Some {| material_binding := material_binding m; kind := kind m;
              material_principal := material_principal m; secret := moved;
              validity := validity m; attributes := attributes m |}
  end.

Definition material_method (k : MaterialKind) : Method :=
  match k with
  | MOrdinaryPassword => OrdinaryPassword
  | MTemporaryDatabasePassword => TemporaryDatabasePassword
  | MNativeIdpToken => NativeIdpToken
  end.

Definition material_error (m : Material) : option Reason :=
  let v := validity m in
  let of_kind k := bool_decide (kind m = k) in
  if beq (secret_bytes (secret m)) [] || (max_bytes <? size (secret_bytes (secret m))) ||
     negb (text (material_principal m)) || bool_decide (is_Some (binding_error (material_binding m)))
  then Some InvalidMaterial
  else if negb (bool_decide (method (material_binding m) = material_method (kind m))) then Some MethodMismatch
  else if of_kind MOrdinaryPassword &&
          (negb (bool_decide (validity_kind v = NoKnownAcquisitionExpiry)) ||
           negb (issued_at v =? 0) || negb (expires_at v =? 0))
  then Some InvalidMaterial
  else if of_kind MTemporaryDatabasePassword &&
          (negb (bool_decide (validity_kind v = TrustedMonotonicExpiry)) ||
           negb (finite (issued_at v)) || negb (finite (expires_at v)) || (expires_at v <=? issued_at v))
  then Some InvalidMaterial
  else if negb (of_kind MNativeIdpToken) && negb (attributes_empty (attributes m)) then Some InvalidMaterial
  else if of_kind MNativeIdpToken && negb (native_idp_attributes_valid (attributes m)) then Some InvalidMaterial
  else None.

Definition create_material (b : Binding) (k : MaterialKind) (p : bytes) (s : SecretBytes) (v : Validity)
    (a : NativeIdpAttributes) : Outcome Material :=
  match binding_error b with
  | Some error => Error error
  | None =>
      if existsb (Z.eqb 0) (secret_bytes s) then Error InvalidMaterial
      else
        let candidate := {| material_binding := b; kind := k; material_principal := p; secret := s;
                            validity := v; attributes := a |} in
        match material_error candidate with
        | Some error => Error error
        | None => Value candidate
        end
  end.

(** ** Authorities

    An authority's identity object is a number no other authority has.  A
    receipt's weak reference to it is [None] once it is reset; comparing the
    number with the identity of an authority that is still there is what
    [lock] and the comparison of the pointers do. *)

Record Authority := { binding_ : Binding; identity_ : nat; high_water : option Z }.
Record Receipt := { issuer_ : option nat; request_ : Request; material_ : option Material }.

(** What the issuer's call comes back with. *)
Inductive Issued := Issues (o : Outcome Material) | ThrowsBadAlloc | ThrowsOther.

Section Authority.
Context {E : Type}.
Context (now : E -> Z * E).
Context (issue : Request -> E -> Issued * E).
(** [None] is the null cancellation pointer. *)
Context (cancel : option (E -> bool * E)).

Definition stop_requested (e : E) : bool * E :=
  match cancel with None => (false, e) | Some f => f e end.

(** The sample and the authority with its high-water mark, or the error with
    the authority as it was. *)
Definition sample (a : Authority) (e : E) : (Authority * Outcome Z) * E :=
  let '(t, e) := now e in
  if negb (finite t) || match high_water a with Some h => t <? h | None => false end
  then ((a, Error ClockRollback), e)
  else (({| binding_ := binding_ a; identity_ := identity_ a; high_water := Some t |}, Value t), e).

Definition check_request (a : Authority) (r : Request) (t : Z) (e : E) : option Reason * E :=
  let '(stop, e) := stop_requested e in
  (if stop : bool then Some Cancelled
   else
     match binding_error (binding r) with
     | Some error => Some error
     | None =>
         match match_binding (binding_ a) (binding r) with
         | Some error => Some error
         | None => if deadline r <=? t then Some DeadlineElapsed else None
         end
     end, e).

Definition check_material (r : Request) (m : Material) (t : Z) : option Reason :=
  match material_error m with
  | Some error => Some error
  | None =>
      match match_binding (binding r) (material_binding m) with
      | Some error => Some error
      | None =>
          if negb (beq (material_principal m) (principal (target (binding r)))) then Some PrincipalMismatch
          else if negb (Bool.eqb (bool_decide (kind m = MOrdinaryPassword))
                                 (bool_decide (method (binding r) = OrdinaryPassword)))
          then Some MethodMismatch
          else if bool_decide (validity_kind (validity m) = TrustedMonotonicExpiry) then
            if t <? issued_at (validity m) then Some InvalidMaterial
            else
              match required_until r with
              | None => Some InvalidRequest
              | Some fin =>
                  if (expires_at (validity m) <=? t) || (expires_at (validity m) <=? fin)
                  then Some CredentialExpired else None
              end
          else None
      end
  end.

(** One sample of the clock and the check of the request at it. *)
Definition sample_and_check (a : Authority) (r : Request) (e : E) : (Authority * Outcome Z) * E :=
  let '((a, sampled), e) := sample a e in
  match sampled with
  | Error error => ((a, Error error), e)
  | Value t =>
      let '(refused, e) := check_request a r t e in
      ((a, match refused with Some error => Error error | None => Value t end), e)
  end.

Definition acquire (a : Authority) (r : Request) (e : E) : (Authority * Outcome Receipt) * E :=
  let '((a, first), e) := sample_and_check a r e in
  match first with
  | Error error => ((a, Error error), e)
  | Value _ =>
      let '(issued, e) := issue r e in
      match issued with
      | ThrowsBadAlloc => ((a, Error AllocationFailed), e)
      | ThrowsOther => ((a, Error IssuerFailed), e)
      | Issues result =>
          let '((a, second), e) := sample_and_check a r e in
          match second with
          | Error error => ((a, Error error), e)
          | Value t =>
              match result with
              | Error error => ((a, Error error), e)
              | Value m =>
                  match check_material r m t with
                  | Some error => ((a, Error error), e)
                  | None =>
                      match move_material m with
                      | None => ((a, Error IssuerFailed), e)
                      | Some m =>
                          let receipt := {| issuer_ := Some (identity_ a); request_ := r;
                                            material_ := Some m |} in
                          let '((a, third), e) := sample_and_check a r e in
                          match third with
                          | Error error => ((a, Error error), e)
                          | Value t =>
                              match check_material r m t with
                              | Some error => ((a, Error error), e)
                              | None =>
                                  let '(stop, e) := stop_requested e in
                                  ((a, if stop : bool then Error Cancelled else Value receipt), e)
                              end
                          end
                      end
                  end
              end
          end
      end
  end.

(** [take] consumes the receipt it is given: the receipt is part of the result. *)
Definition take_receipt (a : Authority) (receipt : Receipt) (e : E)
    : (Authority * Receipt * Outcome Material) * E :=
  match material_ receipt with
  | None => ((a, receipt, Error ConsumedReceipt), e)
  | Some m =>
      let spent := {| issuer_ := None; request_ := request_ receipt; material_ := None |} in
      if negb (bool_decide (issuer_ receipt = Some (identity_ a))) then ((a, spent, Error UntrustedReceipt), e)
      else
        let '((a, admitted), e) := sample_and_check a (request_ receipt) e in
        match admitted with
        | Error error => ((a, spent, Error error), e)
        | Value t =>
            match check_material (request_ receipt) m t with
            | Some error => ((a, spent, Error error), e)
            | None =>
                match move_material m with
                | None => ((a, spent, Error IssuerFailed), e)
                | Some m =>
                    let '(stop, e) := stop_requested e in
                    ((a, spent, if stop : bool then Error Cancelled else Value m), e)
                end
            end
        end
  end.
End Authority.

(** ** Admission *)

(** The scalars a text may hold. *)
Definition printable (c : Z) : Prop := is_scalar c = true /\ 0x20 <= c /\ c <> 0x7f.

Lemma text_rest_eq n value s : text_rest n value s = continuation_bytes n value s.
Proof.
  revert value s. induction n as [|n IH]; intros value [|d s]; cbn; try done.
  destruct (_ =? _); cbn; [by rewrite IH|done].
Qed.

#[export] Instance text_step_decreases : Decreases unread text_step.
Proof.
  intros [[|c s] []] [s' []]; unfold text_step, unread; cbn [fst]; [done|].
  destruct (_ || _); [done|]. destruct (c <? _); [intros [= <-]; cbn; lia|].
  destruct (text_lead c) as [[[n v] m]|]; [|done]. destruct (_ <? _)%nat; [done|].
  rewrite text_rest_eq. destruct (continuation_bytes n v s) as [[v' r]|] eqn:E; [|done].
  apply continuation_length in E. destruct (_ || _); [done|]. intros [= <-]. cbn. lia.
Qed.

Lemma text_lead_spec c : is_byte c -> 0x80 <= c ->
  text_lead c = if (0xc2 <=? c) && (c <? 0xf5) then lead_byte c else None.
Proof.
  intros Hc H. rewrite lead_byte_spec by done. unfold text_lead. bits.
  unfold is_byte in *. repeat case_match; zb; try lia; try done; do 3 f_equal; dlia.
Qed.

(** One iteration decodes one scalar and refuses the control characters. *)
Lemma text_step_next c s : bytes_ok (c :: s) ->
  text_step (c :: s, tt) =
    match next_utf8_code_point (c :: s) with
    | Some (cp, rest) => if (cp <? 0x20) || (cp =? 0x7f) then inr false else inl (rest, tt)
    | None => inr false
    end.
Proof.
  intros Hs. inv_forall. unfold text_step. cbn [fst].
  destruct (c <=? 0x7f) eqn:E; zb.
  - cbn [next_utf8_code_point]. by repeat ztest.
  - cbn [next_utf8_code_point]. repeat ztest. rewrite text_lead_spec by (unfold is_byte in *; lia).
    unfold is_byte in *. destruct (_ && _) eqn:Ec.
    + destruct (lead_byte c) as [[[n v] m]|] eqn:El; mcbn; [|done].
      destruct (_ <? _)%nat; [done|]. rewrite text_rest_eq.
      destruct (continuation_bytes n v s) as [[v' r]|]; mcbn; [|done].
      assert (0x80 <= m) as Hm.
      { rewrite lead_byte_spec in El by done. repeat case_match; simplify_eq; lia. }
      destruct (_ || _ || _) eqn:Ev; [done|]. zb. by repeat ztest.
    + rewrite lead_byte_spec by done. apply andb_false_iff in Ec.
      repeat case_match; zb; try done; mcbn; simplify_eq; try lia.
      all: match goal with H : _ = Some _ |- _ => revert H end.
      all: destruct (_ <? _)%nat; [done|].
      all: repeat match goal with
           | |- context [continuation_bytes (S ?n) ?cp ?t] =>
               destruct t as [|? t]; [done|]; inv_forall;
               rewrite continuation_cons by done; case_match; zb; [|done]
           end.
      all: cbn [continuation_bytes]; mcbn; case_match; [done|]; zb; lia.
Qed.

Lemma text_run s : bytes_ok s ->
  run unread text_step (s, tt) = true <-> exists cs, Forall printable cs /\ s = utf8_text cs.
Proof.
  intros Hs. pattern s. apply scan_ind; [| | |done]; clear s Hs.
  - rewrite run_eq. cbn. split; [|done]. intros _. by exists [].
  - intros c rest Hc Hrest IH. pose proof (utf8_encode_bytes c Hc) as Hb.
    destruct (encode_nonempty c rest) as (b & s & Heq). rewrite run_eq, Heq.
    rewrite text_step_next, <- Heq by (rewrite <- Heq; by apply Forall_app).
    rewrite decode_complete by done. destruct (_ || _) eqn:E; zb.
    + split; [done|]. intros ([|d cs] & Hcs & Ht).
      { rewrite Heq in Ht. done. }
      inv_forall. rewrite utf8_text_cons in Ht.
      assert (next_utf8_code_point (utf8_encode c ++ rest) = Some (d, utf8_text cs)) as Hd.
      { rewrite Ht. apply decode_complete. by destruct H. }
      rewrite decode_complete in Hd by done. simplify_eq. unfold printable in *. lia.
    + rewrite IH. split.
      * intros (cs & Hcs & ->). exists (c :: cs). split; [|done]. constructor; [|done].
        split; [done|lia].
      * intros ([|d cs] & Hcs & Ht); [by rewrite Heq in Ht|]. inv_forall. rewrite utf8_text_cons in Ht.
        assert (next_utf8_code_point (utf8_encode c ++ rest) = Some (d, utf8_text cs)) as Hd.
        { rewrite Ht. apply decode_complete. by destruct H1. }
        rewrite decode_complete in Hd by done. simplify_eq. eauto.
  - intros b rest Hb Hrest Hn _. rewrite run_eq, text_step_next by (by constructor). rewrite Hn.
    split; [done|]. intros ([|d cs] & Hcs & Ht); [done|]. inv_forall.
    destruct (decode_none _ Hn d (utf8_text cs)); [by destruct H|]. by rewrite <- utf8_text_cons.
Qed.

(** Text is one to 1024 bytes of UTF-8 without control characters. *)
Lemma text_exact s : bytes_ok s ->
  text s = true <-> s <> [] /\ size s <= 1024 /\ exists cs, Forall printable cs /\ s = utf8_text cs.
Proof.
  intros Hs. unfold text. destruct (beq s []) eqn:E; cbn [orb].
  { apply bool_decide_eq_true in E. split; [done|]. by intros (? & _). }
  apply bool_decide_eq_false in E. destruct (1024 <? size s) eqn:E2; zb.
  { split; [done|]. intros (_ & ? & _). lia. }
  rewrite text_run by done. tauto.
Qed.

(** What the material handed over for a request satisfies at the time [t] of
    the last check: it is for the server, source, method and principal the
    authority stands for, the deadline has not passed, and material with an
    expiry outlives the deadline and its headroom. *)
Record admitted (b : Binding) (r : Request) (m : Material) (t : Z) : Prop := {
  admitted_binding : binding_error (binding r) = None;
  admitted_target : target (binding r) = target b /\ target (material_binding m) = target b;
  admitted_source : source (binding r) = source b /\ source (material_binding m) = source b;
  admitted_method : method (binding r) = method b /\ material_method (kind m) = method b;
  admitted_principal : material_principal m = principal (target b);
  admitted_secret : 0 < size (secret_bytes (secret m)) <= max_bytes;
  admitted_time : t < deadline r;
  admitted_expiry : validity_kind (validity m) = TrustedMonotonicExpiry ->
    issued_at (validity m) <= t /\ deadline r + headroom r < expires_at (validity m) }.

Lemma match_binding_None b c :
  match_binding b c = None <-> target b = target c /\ source b = source c /\ method b = method c.
Proof. unfold match_binding. repeat case_bool_decide; cbn; intuition congruence. Qed.

Lemma material_error_None m : material_error m = None ->
  0 < size (secret_bytes (secret m)) <= max_bytes /\
  binding_error (material_binding m) = None /\
  method (material_binding m) = material_method (kind m).
Proof.
  unfold material_error, beq. case_bool_decide as Hs; [done|]. cbn [orb].
  destruct (max_bytes <? _) eqn:El; [done|]. destruct (text _); [|done]. cbn [orb negb].
  case_bool_decide as Hb; [done|]. case_bool_decide as Hm; [|done]. intros _. zb.
  split; [|split; [by apply eq_None_not_Some|done]].
  split; [|done]. destruct (secret_bytes (secret m)); [done|]. rewrite size_cons.
  pose proof (size_nonneg l). lia.
Qed.

Lemma check_material_None r m t : check_material r m t = None ->
  material_error m = None /\ match_binding (binding r) (material_binding m) = None /\
  material_principal m = principal (target (binding r)) /\
  (validity_kind (validity m) = TrustedMonotonicExpiry ->
    issued_at (validity m) <= t /\ deadline r + headroom r < expires_at (validity m)).
Proof.
  unfold check_material, required_until, beq. destruct (material_error m); [done|].
  destruct (match_binding _ _); [done|]. case_bool_decide; [|done]. cbn [negb].
  destruct (negb _); [done|].
  case_bool_decide; [|naive_solver]. destruct (t <? _) eqn:?; [done|].
  destruct ((_ <? _) || _) eqn:?; [done|]. destruct (finite _); [|done].
  destruct ((_ <=? _) || _) eqn:?; [done|]. zb. intros _. split_and!; [done..|]. intros _. lia.
Qed.

Lemma move_material_eq m m' : move_material m = Some m' ->
  material_binding m' = material_binding m /\ kind m' = kind m /\
  material_principal m' = material_principal m /\ validity m' = validity m /\
  attributes m' = attributes m /\ secret_bytes (secret m') = secret_bytes (secret m).
Proof. unfold move_material, move_secret. by destruct (consuming _); intros [= <-]. Qed.

(** The check looks at everything but the consumption flag. *)
Lemma check_material_moved r m m' t :
  move_material m = Some m' -> check_material r m' t = check_material r m t.
Proof.
  intros (Hb & Hk & Hp & Hv & Ha & Hs)%move_material_eq. unfold check_material, material_error.
  by rewrite Hb, Hk, Hp, Hv, Ha, Hs.
Qed.

Section Admission.
Context {E : Type} (now : E -> Z * E) (issue : Request -> E -> Issued * E).
Context (cancel : option (E -> bool * E)).

Lemma sample_spec a e a' o e' : sample now a e = ((a', o), e') ->
  binding_ a' = binding_ a /\ identity_ a' = identity_ a /\
  match o with
  | Value t => high_water a' = Some t /\ finite t = true /\ (forall h, high_water a = Some h -> h <= t)
  | Error _ => high_water a' = high_water a
  end.
Proof.
  unfold sample. destruct (now e) as [t e1]. destruct (finite t) eqn:Hf; cbn [negb orb]; [|by intros [= <- <- <-]].
  destruct (high_water a) as [h|] eqn:Hh; [destruct (t <? h) eqn:?|]; intros [= <- <- <-]; cbn; try done.
  split_and!; try done. intros ? [= <-]. zb. lia.
Qed.

(** The clock's high-water mark never falls. *)
Definition hw_le (o o' : option Z) : Prop := forall h, o = Some h -> exists h', o' = Some h' /\ h <= h'.

#[local] Instance hw_le_preorder : PreOrder hw_le.
Proof.
  split; [intros o h ->; exists h; split; [done|lia]|].
  intros o o' o'' H1 H2 h (h' & (h'' & -> & ?)%H2 & ?)%H1. exists h''. split; [done|lia].
Qed.

Lemma sample_and_check_spec a r e a' o e' : sample_and_check now cancel a r e = ((a', o), e') ->
  binding_ a' = binding_ a /\ identity_ a' = identity_ a /\ hw_le (high_water a) (high_water a') /\
  forall t, o = Value t ->
    high_water a' = Some t /\ binding_error (binding r) = None /\
    match_binding (binding_ a) (binding r) = None /\ t < deadline r.
Proof.
  unfold sample_and_check. destruct (sample now a e) as [[a1 o1] e1] eqn:Es. apply sample_spec in Es as (Hb & Hi & Ho).
  destruct o1 as [t|reason].
  - destruct Ho as (Hw & _ & Hm). destruct (check_request cancel a1 r t e1) as [c e2] eqn:Ec.
    intros [= <- <- <-]. split_and!; [done..| |].
    { intros h Hh. exists t. split; [done|]. by apply Hm. }
    intros t' Ht. destruct c; [done|]. injection Ht as <-. unfold check_request in Ec. rewrite Hb in Ec.
    destruct (stop_requested cancel e1) as [[] ?]; [done|].
    destruct (binding_error _); [done|]. destruct (match_binding _ _); [done|].
    destruct (_ <=? _) eqn:?; [done|]. zb. done.
  - intros [= <- <- <-]. split_and!; [done..| |done]. rewrite Ho. reflexivity.
Qed.

Lemma admitted_intro a r m t :
  binding_error (binding r) = None -> match_binding (binding_ a) (binding r) = None -> t < deadline r ->
  check_material r m t = None -> admitted (binding_ a) r m t.
Proof.
  intros Hb (Ht & Hs & Hm)%match_binding_None Hd (He & (Ht' & Hs' & Hm')%match_binding_None & Hp & Hx)%check_material_None.
  apply material_error_None in He as (Hz & _ & Hk).
  constructor; [done| | | | |done|done|done]; [..|]; split_and?; congruence.
Qed.

Lemma acquire_spec a r e a' o e' : acquire now issue cancel a r e = ((a', o), e') ->
  binding_ a' = binding_ a /\ identity_ a' = identity_ a /\ hw_le (high_water a) (high_water a') /\
  forall rc, o = Value rc ->
    issuer_ rc = Some (identity_ a) /\ request_ rc = r /\
    exists m t, material_ rc = Some m /\ high_water a' = Some t /\ admitted (binding_ a) r m t.
Proof.
  unfold acquire. destruct (sample_and_check now cancel a r e) as [[a1 o1] e1] eqn:E1.
  apply sample_and_check_spec in E1 as (Hb1 & Hi1 & Hw1 & _).
  destruct o1; [|by intros [= <- <- <-]].
  destruct (issue r e1) as [[result| |] e2]; [|by intros [= <- <- <-]..].
  destruct (sample_and_check now cancel a1 r e2) as [[a2 o2] e3] eqn:E2.
  apply sample_and_check_spec in E2 as (Hb2 & Hi2 & Hw2 & _).
  assert (hw_le (high_water a) (high_water a2)) as Hw by (by etrans).
  destruct o2 as [t2|]; [|intros [= <- <- <-]; split_and!; [congruence..|done|done]].
  destruct result as [m|]; [|intros [= <- <- <-]; split_and!; [congruence..|done|done]].
  destruct (check_material r m t2); [intros [= <- <- <-]; split_and!; [congruence..|done|done]|].
  destruct (move_material m) as [m'|]; [|intros [= <- <- <-]; split_and!; [congruence..|done|done]].
  destruct (sample_and_check now cancel a2 r e3) as [[a3 o3] e4] eqn:E3.
  apply sample_and_check_spec in E3 as (Hb3 & Hi3 & Hw3 & H3).
  assert (hw_le (high_water a) (high_water a3)) as Hw' by (by etrans).
  destruct o3 as [t|]; [|intros [= <- <- <-]; split_and!; [congruence..|done|done]].
  destruct (H3 t) as (Hw4 & Hbe & Hmb & Hdl); [done|].
  destruct (check_material r m' t) eqn:Em; [intros [= <- <- <-]; split_and!; [congruence..|done|done]|].
  destruct (stop_requested cancel e4) as [[] e5]; intros [= <- <- <-]; split_and!; try congruence; try done.
  intros rc [= <-]. cbn. split_and!; [congruence|done|]. exists m', t. split_and!; [done..|].
  rewrite <- Hb1, <- Hb2. by apply admitted_intro.
Qed.

Lemma take_spec a rc e a' rc' o e' : take_receipt now cancel a rc e = ((a', rc', o), e') ->
  binding_ a' = binding_ a /\ identity_ a' = identity_ a /\ hw_le (high_water a) (high_water a') /\
  material_ rc' = None /\
  forall m, o = Value m ->
    issuer_ rc = Some (identity_ a) /\ is_Some (material_ rc) /\
    exists t, high_water a' = Some t /\ admitted (binding_ a) (request_ rc) m t.
Proof.
  unfold take_receipt. destruct (material_ rc) as [m|] eqn:Em; [|by intros [= <- <- <- <-]].
  case_bool_decide as Hi; cbn [negb]; [|by intros [= <- <- <- <-]].
  destruct (sample_and_check now cancel a (request_ rc) e) as [[a1 o1] e1] eqn:E1.
  apply sample_and_check_spec in E1 as (Hb1 & Hi1 & Hw1 & H1).
  destruct o1 as [t|]; [|by intros [= <- <- <- <-]].
  destruct (H1 t) as (Hw & Hbe & Hmb & Hdl); [done|].
  destruct (check_material _ m t) eqn:Ec; [by intros [= <- <- <- <-]|].
  destruct (move_material m) as [m'|] eqn:Ev; [|by intros [= <- <- <- <-]].
  destruct (stop_requested cancel e1) as [[] e2]; intros [= <- <- <- <-]; split_and!; try done.
  intros ? [= <-]. split_and!; [done..|]. exists t. split; [done|].
  apply admitted_intro; try done. by rewrite (check_material_moved _ m).
Qed.
End Admission.

(** ** An authority in use

    The receipts in circulation, how many acquisitions succeeded, and the
    material that was handed over, each with its request and the time of its
    last check.  Between two operations the environment may change in any way,
    and receipts of other authorities may arrive. *)

Record System (E : Type) := {
  authority : Authority; env : E; receipts : list Receipt;
  acquired : nat; released : list (Request * Material * Z) }.
Arguments authority {E} _.
Arguments env {E} _.
Arguments receipts {E} _.
Arguments acquired {E} _.
Arguments released {E} _.

Section System.
Context {E : Type} (now : E -> Z * E) (issue : Request -> E -> Issued * E).
Context (cancel : option (E -> bool * E)).

Inductive system_step : System E -> System E -> Prop :=
| step_acquire s r a o e :
    acquire now issue cancel (authority s) r (env s) = ((a, o), e) ->
    system_step s
      {| authority := a; env := e; released := released s;
         receipts := receipts s ++ match o with Value rc => [rc] | Error _ => [] end;
         acquired := acquired s + match o with Value _ => 1 | Error _ => 0 end |}
| step_take s i rc a rc' o e :
    receipts s !! i = Some rc ->
    take_receipt now cancel (authority s) rc (env s) = ((a, rc', o), e) ->
    system_step s
      {| authority := a; env := e; receipts := <[i := rc']> (receipts s); acquired := acquired s;
         released := released s ++ match o with
                                   | Value m => [(request_ rc, m, default 0 (high_water a))]
                                   | Error _ => []
                                   end |}
| step_receive s rc :
    issuer_ rc <> Some (identity_ (authority s)) ->
    system_step s
      {| authority := authority s; env := env s; receipts := receipts s ++ [rc];
         acquired := acquired s; released := released s |}
| step_environment s e :
    system_step s
      {| authority := authority s; env := e; receipts := receipts s;
         acquired := acquired s; released := released s |}.

Definition started (a : Authority) (s : System E) : Prop :=
  authority s = a /\ receipts s = [] /\ acquired s = 0%nat /\ released s = [].

(** A receipt this authority issued and that was not taken yet. *)
Definition live (id : nat) (rc : Receipt) : bool :=
  bool_decide (issuer_ rc = Some id) && bool_decide (is_Some (material_ rc)).
Definition count_live (id : nat) (rcs : list Receipt) : nat := length (List.filter (live id) rcs).

Record system_ok (a : Authority) (s : System E) : Prop := {
  ok_binding : binding_ (authority s) = binding_ a;
  ok_identity : identity_ (authority s) = identity_ a;
  ok_count : (count_live (identity_ a) (receipts s) + length (released s) <= acquired s)%nat;
  ok_released : Forall (fun '(r, m, t) => admitted (binding_ a) r m t) (released s);
  ok_before : Forall (fun x => exists h, high_water (authority s) = Some h /\ x.2 <= h) (released s);
  ok_order : StronglySorted Z.le (map snd (released s)) }.

Lemma count_live_app id l l' : count_live id (l ++ l') = (count_live id l + count_live id l')%nat.
Proof. unfold count_live. by rewrite filter_app, length_app. Qed.

Lemma count_live_insert id l i rc rc' : l !! i = Some rc -> live id rc' = false ->
  (count_live id (<[i := rc']> l) + (if live id rc then 1 else 0) = count_live id l)%nat.
Proof.
  intros Hi Hd. rewrite <- (take_drop_middle l i rc Hi) at 2.
  rewrite insert_take_drop by (by eapply lookup_lt_Some).
  rewrite !count_live_app. unfold count_live. cbn [List.filter]. rewrite Hd.
  destruct (live id rc); cbn [length]; lia.
Qed.

Lemma sorted_snoc l x : StronglySorted Z.le l -> Forall (fun y => y <= x) l -> StronglySorted Z.le (l ++ [x]).
Proof.
  induction 1 as [|y l Hl IH Hy]; intros Hx; cbn; [repeat constructor|]. inv_forall.
  constructor; [by apply IH|]. apply Forall_app. split; [done|]. by constructor.
Qed.

Lemma system_step_ok a s s' : system_ok a s -> system_step s s' -> system_ok a s'.
Proof.
  intros [Hb Hi Hc Hr Hw Ho] Hs.
  assert (forall hw, hw_le (high_water (authority s)) hw ->
    Forall (fun x => exists h, hw = Some h /\ x.2 <= h) (released s)) as Hlater.
  { intros hw Hle. eapply list.Forall_impl; [done|]. intros [p t] (h & (h' & -> & ?)%Hle & ?).
    exists h'. cbn in *. split; [done|lia]. }
  destruct Hs as [s r a1 o e Ha|s i rc a1 rc' o e Hl Ht|s rc Hrc|s e].
  - apply acquire_spec in Ha as (Hb' & Hi' & Hle & Hv). split; cbn [authority env receipts acquired released]; [congruence..| |done|by apply Hlater|done].
    rewrite count_live_app. destruct o as [rc|]; [|cbn; lia].
    assert (count_live (identity_ a) [rc] <= 1)%nat; [|lia].
    unfold count_live. cbn. case_match; cbn; lia.
  - apply take_spec in Ht as (Hb' & Hi' & Hle & Hd & Hv).
    assert (live (identity_ a) rc' = false) as Hd'.
    { unfold live. rewrite Hd. apply andb_false_r. }
    pose proof (count_live_insert _ _ _ _ _ Hl Hd') as Hcount. rewrite Hi in Hv. rewrite Hb in Hv.
    destruct o as [m|].
    + destruct (Hv m eq_refl) as (Hiss & Hsome & t & Hwt & Hadm).
      assert (live (identity_ a) rc = true) as Hlive.
      { unfold live. by rewrite !bool_decide_true. }
      rewrite Hlive in Hcount. specialize (Hlater _ Hle). rewrite Hwt in Hlater |- *. cbn [default].
      split; cbn [authority env receipts acquired released]; rewrite ?length_app, ?map_app; cbn [length map snd]; [congruence..|lia| | |].
      * apply Forall_app. split; [done|]. by constructor.
      * rewrite Hwt. apply Forall_app. split; [done|]. constructor; [|done]. exists t. cbn. split; [done|lia].
      * apply sorted_snoc; [done|]. apply Forall_map. eapply list.Forall_impl; [done|].
        intros [p u] (h & [= <-] & ?). done.
    + rewrite app_nil_r. split; cbn [authority env receipts acquired released]; rewrite ?app_nil_r; [congruence..|lia|done|by apply Hlater|done].
  - split; cbn [authority env receipts acquired released]; try done. rewrite count_live_app.
    assert (count_live (identity_ a) [rc] = 0%nat) as ->; [|lia].
    unfold count_live. cbn. unfold live. rewrite bool_decide_false by congruence. done.
  - by split.
Qed.

Lemma system_run_ok a s s' : system_ok a s -> rtc system_step s s' -> system_ok a s'.
Proof. intros H. induction 1; [done|]. eauto using system_step_ok. Qed.


(** An attempt to take a receipt spends it whatever it returned: another
    attempt by any authority is refused as consumed without looking at the
    clock.  A receipt of another authority is refused before the clock is
    sampled, and is spent as well. *)
Theorem take_spends_receipt (a b : Authority) (rc : Receipt) (e e'' : E) :
  let '((a', rc', o), e') := take_receipt now cancel a rc e in
  take_receipt now cancel b rc' e'' = ((b, rc', Error ConsumedReceipt), e'') /\
  (issuer_ rc <> Some (identity_ a) -> is_Some (material_ rc) ->
    a' = a /\ o = Error UntrustedReceipt /\ e' = e).
Proof.
  destruct (take_receipt now cancel a rc e) as [[[a' rc'] o] e'] eqn:Ht. split.
  - apply take_spec in Ht as (_ & _ & _ & Hn & _). unfold take_receipt. by rewrite Hn.
  - intros Hi (m & Hm). unfold take_receipt in Ht. rewrite Hm, bool_decide_false in Ht by done. naive_solver.
Qed.
End System.

(** *** An undisturbed exchange *)

Section Quiet.
Context {E : Type} (now : E -> Z * E) (issue : Request -> E -> Issued * E).
Context (cancel : option (E -> bool * E)).
(** Nobody cancels, and the clock has gone on to [clock e], before the deadline. *)
Context (clock : E -> Z) (good : E -> Prop) (r : Request).
Hypothesis now_good : forall e, good e -> exists e', now e = (clock e, e') /\ good e' /\ clock e <= clock e'.
Hypothesis stop_good : forall e, good e ->
  exists e', stop_requested cancel e = (false, e') /\ good e' /\ clock e <= clock e'.
Hypothesis clock_good : forall e, good e -> finite (clock e) = true /\ clock e < deadline r.

Lemma admit_good a e : good e -> binding_error (binding r) = None ->
  match_binding (binding_ a) (binding r) = None ->
  (forall h, high_water a = Some h -> h <= clock e) ->
  exists e', sample_and_check now cancel a r e =
    (({| binding_ := binding_ a; identity_ := identity_ a; high_water := Some (clock e) |}, Value (clock e)), e')
    /\ good e' /\ clock e <= clock e'.
Proof.
  intros Hg Hb Hm Hh. destruct (clock_good e Hg) as [Hf Hd].
  destruct (now_good e Hg) as (e1 & Hn & Hg1 & Hc1). destruct (stop_good e1 Hg1) as (e2 & Hs & Hg2 & Hc2).
  exists e2. split; [|split; [done|lia]]. unfold sample_and_check, sample. rewrite Hn, Hf. cbn [negb orb].
  assert (match high_water a with Some h => clock e <? h | None => false end = false) as ->.
  { destruct (high_water a) as [h|]; [|done]. specialize (Hh h eq_refl). lia. }
  unfold check_request. rewrite Hs, Hb. cbn [binding_]. rewrite Hm.
  rewrite (proj2 (Z.leb_gt _ _)) by lia. done.
Qed.

Context (m : Material).
Hypothesis issue_good : forall e, good e ->
  exists e', issue r e = (Issues (Value m), e') /\ good e' /\ clock e <= clock e'.
Hypothesis material_good : forall e, good e -> check_material r m (clock e) = None.

(** In an environment where the clock advances without reaching the
    deadline, nobody cancels and the issuer answers with material that passes
    the checks, an acquisition returns a receipt and taking it returns exactly
    the issuer's material. *)
Theorem exchange_completes (a : Authority) (e : E) :
  good e -> binding_error (binding r) = None -> match_binding (binding_ a) (binding r) = None ->
  (forall h, high_water a = Some h -> h <= clock e) -> consuming (secret m) = false ->
  exists a' rc e', acquire now issue cancel a r e = ((a', Value rc), e') /\
  exists a'' rc' e'', take_receipt now cancel a' rc e' = ((a'', rc', Value m), e'').
Proof.
  intros Hg Hb Hm Hh Hc.
  assert (move_material m = Some m) as Hmv.
  { unfold move_material, move_secret. rewrite Hc. destruct m as [? ? ? [] ? ?]. cbn in *. by subst. }
  destruct (admit_good a e Hg Hb Hm Hh) as (e1 & H1 & G1 & C1).
  destruct (issue_good e1 G1) as (e2 & H2 & G2 & C2).
  destruct (admit_good {| binding_ := binding_ a; identity_ := identity_ a; high_water := Some (clock e) |} e2)
    as (e3 & H3 & G3 & C3); [done..|cbn; intros ? [= <-]; lia|].
  destruct (admit_good {| binding_ := binding_ a; identity_ := identity_ a; high_water := Some (clock e2) |} e3)
    as (e4 & H4 & G4 & C4); [done..|cbn; intros ? [= <-]; lia|].
  destruct (stop_good e4 G4) as (e5 & H5 & G5 & C5).
  destruct (admit_good {| binding_ := binding_ a; identity_ := identity_ a; high_water := Some (clock e3) |} e5)
    as (e6 & H6 & G6 & C6); [done..|cbn; intros ? [= <-]; lia|].
  destruct (stop_good e6 G6) as (e7 & H7 & G7 & C7).
  eexists _, _, e5. unfold acquire. rewrite H1, H2. cbn [binding_ identity_] in *.
  rewrite H3, material_good, Hmv, H4, material_good, H5 by done. split; [done|].
  eexists _, _, e7. unfold take_receipt. cbn [material_ issuer_ request_ identity_].
  rewrite bool_decide_true by done. cbn [negb]. rewrite H6, material_good, Hmv, H7 by done. done.
Qed.
End Quiet.

(** *** A concrete authority *)

Definition example_target : TargetInput :=
  {| service := Redshift; endpoint := str "db.example"; port := 5439; database := str "dev";
     principal := str "alice"; resource_id := str "cluster-1"; tls_identity := str "db.example";
     trust_policy := str "verify-full" |}.
Definition example_source : SourceInput :=
  {| source_kind := TrustedTemporaryDbIssuer; identity := str "issuer"; generation := str "1" |}.
Definition example_binding : Binding :=
  {| target := example_target; source := example_source; method := TemporaryDatabasePassword;
     owns_valid_storage := true |}.
Definition example_request : Request := {| binding := example_binding; deadline := 1000; headroom := 50 |}.
Definition example_material : Material :=
  {| material_binding := example_binding; kind := MTemporaryDatabasePassword;
     material_principal := str "alice"; secret := {| secret_bytes := str "s3cret"; consuming := false |};
     validity := monotonic 90 5000; attributes := no_attributes |}.
Definition example_authority : Authority :=
  {| binding_ := example_binding; identity_ := 7; high_water := None |}.

(** The clock stands at 100 and goes on by one with every sample, up to 200. *)
Definition example_now (e : Z) : Z * Z := (e, Z.min 200 (e + 1)).
Definition example_issue (r : Request) (e : Z) : Issued * Z := (Issues (Value example_material), e).

Lemma exchange_completes_witness :
  exists a' rc e', acquire example_now example_issue None example_authority example_request 100 = ((a', Value rc), e') /\
  exists a'' rc' e'', take_receipt example_now None a' rc e' = ((a'', rc', Value example_material), e'').
Proof.
  apply (exchange_completes example_now example_issue None (fun e => e) (fun e => 100 <= e <= 200)).
  - intros e He. exists (Z.min 200 (e + 1)). split; [done|]. lia.
  - intros e He. exists e. split; [done|]. lia.
  - intros e He. unfold finite, Deadline_min, Deadline_max. split; [lia|]. cbn. lia.
  - intros e He. exists e. split; [done|]. lia.
  - intros e He. unfold check_material.
    replace (material_error example_material) with (@None Reason) by (vm_compute; reflexivity).
    replace (match_binding _ _) with (@None Reason) by (vm_compute; reflexivity).
    cbn -[Z.leb Z.ltb]. replace (required_until example_request) with (Some 1050) by reflexivity.
    unfold beq. rewrite bool_decide_true by reflexivity. cbn -[Z.leb Z.ltb]. by repeat ztest.
  - lia.
  - vm_compute; reflexivity.
  - vm_compute; reflexivity.
  - discriminate.
  - reflexivity.
Defined.

Definition example_system (w : option Z) (e : Z) (rcs : list Receipt) (n : nat)
    (out : list (Request * Material * Z)) : System Z :=
  {| authority := {| binding_ := example_binding; identity_ := 7; high_water := w |};
     env := e; receipts := rcs; acquired := n; released := out |}.
Definition example_receipt (id : option nat) (m : option Material) : Receipt :=
  {| issuer_ := id; request_ := example_request; material_ := m |}.


Lemma take_spends_receipt_witness :
  exists rc', take_receipt example_now None example_authority
    {| issuer_ := Some 3%nat; request_ := example_request; material_ := Some example_material |} 100 =
    ((example_authority, rc', Error UntrustedReceipt), 100).
Proof.
  pose proof (take_spends_receipt example_now None example_authority example_authority
    {| issuer_ := Some 3%nat; request_ := example_request; material_ := Some example_material |} 100 100) as H.
  destruct (take_receipt _ _ _ _ _) as [[[a' rc'] o] e']. destruct H as [_ H].
  destruct H as (-> & -> & ->); [vm_compute; congruence|eexists; reflexivity|]. by exists rc'.
Defined.
