(* ===== verification/ResponseOp.v ===== *)
(** * One authentication response: its phases, permits and first fault

    [sdk/src/auth/response_operation.cpp] and the lease functions of
    [sdk/src/auth/checked_response_boundary.cpp].  An operation goes through
    the stages Prepared, Transport, Processing and Finalized; every
    transition reads an injected observer (a cancellation flag and a monotonic
    clock) and the source generation, and latches the first fault.

    The observer is code of the embedding program: it is an argument, two
    functions on a state [O].  What it may do besides answering is part of its
    answer, a list of events: retire the source, or call back into the
    operation.  [None] is [std::terminate], and also the undefined dereference
    of an empty optional, so that a theorem that an operation returns excludes
    both.  An allocation fails only where the code's own test hook makes it. *)

From stdpp Require Import relations.
From S2P Require Import Prelude Utf8 AuthCore.

Inductive BoundaryFailure :=
| FInvalidBoundary | FInvalidInput | FInvalidState | FWrongOperation | FWrongThread
| FReadFailed | FClockRollback | FDeadlineElapsed | FCancelled | FOverflow
| FStaleObservation | FUnknownQuality | FBorrowed | FSourceClosed | FSourceChanged
| FUnsafeDiagnostic | FInvalidDiagnostic | FStaleDiagnostic | FForeignDispatch
| FBodyRejected | FAllocationFailed.
#[export] Instance BoundaryFailure_eq_dec : EqDecision BoundaryFailure. Proof. solve_decision. Defined.

Inductive BoundaryResult (A : Type) := Got (a : A) | Refused (f : BoundaryFailure).
Arguments Got {A} a.
Arguments Refused {A} f.
Abbreviation BoundaryStatus := (BoundaryResult unit).

Definition terminal (f : BoundaryFailure) : bool :=
  match f with
  | FReadFailed | FClockRollback | FDeadlineElapsed | FCancelled | FOverflow | FStaleObservation
  | FSourceClosed | FSourceChanged | FUnsafeDiagnostic | FInvalidDiagnostic
  | FStaleDiagnostic | FForeignDispatch | FBodyRejected => true
  | FInvalidBoundary | FInvalidInput | FInvalidState | FWrongOperation
  | FWrongThread | FUnknownQuality | FBorrowed | FAllocationFailed => false
  end.

(** ** The source generation *)

Inductive SourceRetirement := Closed | Changed.

(** A thread is a number. *)
Record Generation := { gen_identity : SourceInput; gen_thread : nat; retired : option BoundaryFailure }.

Definition create_generation (me : nat) (b : Binding) : BoundaryResult Generation :=
  if bool_decide (is_Some (binding_error b)) then Refused FInvalidInput
  else Got {| gen_identity := source b; gen_thread := me; retired := None |}.

Definition checkpoint (me : nat) (g : Generation) : BoundaryStatus :=
  if negb (Nat.eqb (gen_thread g) me) then Refused FWrongThread
  else match retired g with Some f => Refused f | None => Got tt end.

Definition retire (me : nat) (reason : SourceRetirement) (g : Generation) : Generation * BoundaryFailure :=
  if negb (Nat.eqb (gen_thread g) me) then (g, FWrongThread)
  else
    match retired g with
    | Some f => (g, f)
    | None =>
        let f := match reason with Closed => FSourceClosed | Changed => FSourceChanged end in
        ({| gen_identity := gen_identity g; gen_thread := gen_thread g; retired := Some f |}, f)
    end.

(** ** The operation's state *)

Inductive ResponseStage := Prepared | Transport | Processing | Finalized.
Create HintDb returns.

#[export] Instance ResponseStage_eq_dec : EqDecision ResponseStage. Proof. solve_decision. Defined.

Record State := {
  request : Request; thread : nat; stage : ResponseStage; first : option BoundaryFailure;
  highwater : option Z; initial : option Z; completed : option Z;
  reading : bool; transport : Z; processing : Z }.

Definition set_stage (p : ResponseStage) (s : State) : State :=
  {| request := request s; thread := thread s; stage := p; first := first s; highwater := highwater s;
     initial := initial s; completed := completed s; reading := reading s;
     transport := transport s; processing := processing s |}.
Definition set_first (f : BoundaryFailure) (s : State) : State :=
  {| request := request s; thread := thread s; stage := stage s; first := Some f; highwater := highwater s;
     initial := initial s; completed := completed s; reading := reading s;
     transport := transport s; processing := processing s |}.
Definition set_highwater (t : Z) (s : State) : State :=
  {| request := request s; thread := thread s; stage := stage s; first := first s; highwater := Some t;
     initial := initial s; completed := completed s; reading := reading s;
     transport := transport s; processing := processing s |}.
Definition set_initial (t : option Z) (s : State) : State :=
  {| request := request s; thread := thread s; stage := stage s; first := first s; highwater := highwater s;
     initial := t; completed := completed s; reading := reading s;
     transport := transport s; processing := processing s |}.
Definition set_completed (t : option Z) (s : State) : State :=
  {| request := request s; thread := thread s; stage := stage s; first := first s; highwater := highwater s;
     initial := initial s; completed := t; reading := reading s;
     transport := transport s; processing := processing s |}.
Definition set_reading (b : bool) (s : State) : State :=
  {| request := request s; thread := thread s; stage := stage s; first := first s; highwater := highwater s;
     initial := initial s; completed := completed s; reading := b;
     transport := transport s; processing := processing s |}.

(** The permits of a phase, [Phase==ResponseStage::Transport ? transport : processing]. *)
Definition permits (p : ResponseStage) (s : State) : Z :=
  if bool_decide (p = Transport) then transport s else processing s.
Definition set_permits (p : ResponseStage) (n : Z) (s : State) : State :=
  {| request := request s; thread := thread s; stage := stage s; first := first s; highwater := highwater s;
     initial := initial s; completed := completed s; reading := reading s;
     transport := if bool_decide (p = Transport) then n else transport s;
     processing := if bool_decide (p = Transport) then processing s else n |}.

(** [guard()]: what an operation called by [me] starts with. *)
Inductive Guarded := Terminated | Fault (f : BoundaryFailure) | Clear.

Definition guard (me : nat) (s : State) : Guarded :=
  if negb (Nat.eqb (thread s) me) then Fault FWrongThread
  else if reading s then Terminated
  else match first s with Some f => Fault f | None => Clear end.

Definition latch (f : BoundaryFailure) (s : State) : State * BoundaryFailure :=
  match first s with Some f' => (s, f') | None => (set_first f s, f) end.

Definition matches (a b : Request) : bool :=
  bool_decide (target (binding a) = target (binding b)) &&
  bool_decide (source (binding a) = source (binding b)) &&
  bool_decide (method (binding a) = method (binding b)) &&
  (deadline a =? deadline b) && (headroom a =? headroom b).

(** ** The observer *)

Inductive Event := Retires (reason : SourceRetirement) | Reenters.
Inductive Observed (A : Type) := Answers (a : A) | Throws.
Arguments Answers {A} a.
Arguments Throws {A}.

Section Operation.
Context {O : Type}.
Context (cancellation_requested : O -> Observed bool * list Event * O).
(** [None] is the failure value of [ResponseClockRead]. *)
Context (read_monotonic : O -> Observed (option Z) * list Event * O).

Record World := { state : State; src : Generation; obs : O }.
Definition with_state (f : State -> State) (w : World) : World :=
  {| state := f (state w); src := src w; obs := obs w |}.

(** A computation of the operation: it may stop with a failure it returns. *)
Definition M (A : Type) : Type := World -> option (World * BoundaryResult A).

#[local] Instance M_ret : MRet M := fun A a w => Some (w, Got a).
#[local] Instance M_bind : MBind M := fun A B f m w =>
  match m w with
  | None => None
  | Some (w, Refused e) => Some (w, Refused e)
  | Some (w, Got a) => f a w
  end.

Definition refuse {A} (f : BoundaryFailure) : M A := fun w => Some (w, Refused f).
Definition update (f : State -> State) : M unit := fun w => Some (with_state f w, Got tt).
Definition gets : M State := fun w => Some (w, Got (state w)).

(** [return latch(fault)]. *)
Definition latched {A} (f : BoundaryFailure) : M A := fun w =>
  let '(s, f') := latch f (state w) in
  Some ({| state := s; src := src w; obs := obs w |}, Refused f').

Definition guarded (me : nat) : M unit := fun w =>
  match guard me (state w) with
  | Terminated => None
  | Fault f => Some (w, Refused f)
  | Clear => Some (w, Got tt)
  end.

Definition source_checked (me : nat) : M unit := fun w =>
  match checkpoint me (src w) with
  | Refused f => latched f w
  | Got _ => Some (w, Got tt)
  end.

(** What the observer does before it answers. *)
Fixpoint react (me : nat) (es : list Event) (w : World) : option World :=
  match es with
  | [] => Some w
  | Retires reason :: es =>
      react me es {| state := state w; src := (retire me reason (src w)).1; obs := obs w |}
  | Reenters :: es =>
      match guard me (state w) with
      | Terminated => None
      | _ => react me es w
      end
  end.

(** A call of the observer; a thrown exception ends the read. *)
Definition ask {A} (me : nat) (call : O -> Observed A * list Event * O) : M A := fun w =>
  let '(answer, es, o) := call (obs w) in
  match react me es {| state := state w; src := src w; obs := o |} with
  | None => None
  | Some w =>
      match answer with
      | Throws => latched FReadFailed w
      | Answers a => Some (w, Got a)
      end
  end.

Definition not_cancelled (me : nat) : M unit :=
  cancelled ← ask me cancellation_requested;
  if cancelled : bool then latched FCancelled else mret tt.

(** The reads between setting and resetting [reading]. *)
Definition read_body (me : nat) : M unit :=
  not_cancelled me ≫= fun _ =>
  source_checked me ≫= fun _ =>
  sample ← ask me read_monotonic;
  match sample with
  | None => latched FReadFailed
  | Some actual =>
      if negb (finite actual) then latched FReadFailed
      else
        source_checked me ≫= fun _ =>
        not_cancelled me ≫= fun _ =>
        source_checked me ≫= fun _ =>
        s ← gets;
        if match highwater s with Some h => actual <? h | None => false end then latched FClockRollback
        else
          update (set_highwater actual) ≫= fun _ =>
          if deadline (request s) <=? actual then latched FDeadlineElapsed else mret tt
  end.

Definition while_reading (m : M unit) : M unit := fun w =>
  match m (with_state (set_reading true) w) with
  | None => None
  | Some (w, r) => Some (with_state (set_reading false) w, r)
  end.

Definition read (me : nat) : M unit :=
  guarded me ≫= fun _ => source_checked me ≫= fun _ => while_reading (read_body me).

Definition reject (me : nat) (phase : ResponseStage) : M unit :=
  guarded me ≫= fun _ =>
  s ← gets;
  if negb (bool_decide (stage s = phase)) then refuse FInvalidState else latched FBodyRejected.

(** ** Permits *)

Inductive PreparationFailure := BeforeGate | BeforePermit.

Definition attach (phase : ResponseStage) : M unit := fun w =>
  if 64 <=? permits phase (state w) then None
  else Some (with_state (fun s => set_permits phase (permits phase s + 1) s) w, Got tt).

(** The destructor of an attached gate. *)
Definition detach (me : nat) (phase : ResponseStage) (w : World) : option World :=
  let s := state w in
  if negb (Nat.eqb (thread s) me) || reading s then None
  else if (permits phase s =? 0) || negb (bool_decide (stage s = phase)) then None
  else Some (with_state (set_permits phase (permits phase s - 1)) w).

Definition acquire_gate (me : nat) (phase : ResponseStage) (expected : Request)
    (failure : option PreparationFailure) : M unit :=
  guarded me ≫= fun _ =>
  if bool_decide (is_Some (binding_error (binding expected))) then refuse FInvalidInput
  else
    s ← gets;
    if negb (matches (request s) expected) then refuse FWrongOperation
    else if negb (bool_decide (stage s = phase)) then refuse FInvalidState
    else if 64 <=? permits phase s then refuse FBorrowed
    else
      match failure with
      | Some _ => refuse FAllocationFailed
      | None => read me ≫= fun _ => attach phase
      end.

Definition observe_checkpoint (me : nat) (phase : ResponseStage) : M unit :=
  guarded me ≫= fun _ =>
  s ← gets;
  if negb (bool_decide (stage s = phase)) then refuse FInvalidState else read me.

(** The gate's own request, as the lease factory looks at it. *)
Definition valid_request (r : Request) : bool :=
  bool_decide (binding_error (binding r) = None) && finite (deadline r) &&
  (0 <=? headroom r) && (headroom r <=? hours_24).

Definition unexpected (me : nat) (phase : ResponseStage) : M unit := fun w =>
  match reject me phase w with
  | Some (w, Refused f) =>
      if negb (terminal f) then None
      else
        match observe_checkpoint me phase w with
        | Some (w, Refused f') => if bool_decide (f' = f) then Some (w, Refused f) else None
        | _ => None
        end
  | _ => None
  end.

Definition prepare (me : nat) (phase : ResponseStage) (r : Request) : M unit :=
  if negb (valid_request r) then unexpected me phase else observe_checkpoint me phase.

(** [transport_lease] and [processing_lease]: a gate that cannot be bound is
    destroyed again. *)
Definition lease (me : nat) (phase : ResponseStage) (expected : Request)
    (failure : option PreparationFailure) : M unit := fun w =>
  match acquire_gate me phase expected failure w with
  | Some (w, Got _) =>
      match prepare me phase expected w with
      | Some (w, Refused f) =>
          match detach me phase w with
          | None => None
          | Some w => Some (w, Refused f)
          end
      | other => other
      end
  | other => other
  end.

(** ** The operation *)

(** [begin]: the operation's state comes to be only when the first read succeeds. *)
Definition begin (me : nat) (r : Request) (g : Generation) (o : O) : option (World * BoundaryResult unit) :=
  let refused f := Some ({| state := {| request := r; thread := me; stage := Prepared; first := None;
                                        highwater := None; initial := None; completed := None;
                                        reading := false; transport := 0; processing := 0 |};
                            src := g; obs := o |}, Refused f) in
  if bool_decide (is_Some (binding_error (binding r))) then refused FInvalidInput
  else if negb (bool_decide (source (binding r) = gen_identity g)) then refused FWrongOperation
  else
    match checkpoint me g with
    | Refused f => refused f
    | Got _ =>
        match create_request (binding r) (deadline r) (headroom r) with
        | Error _ => refused FInvalidInput
        | Value r =>
            (read me ≫= fun _ => update (fun s => set_initial (highwater s) s))
              {| state := {| request := r; thread := me; stage := Prepared; first := None;
                             highwater := None; initial := None; completed := None;
                             reading := false; transport := 0; processing := 0 |};
                 src := g; obs := o |}
        end
    end.

Definition begin_transport (me : nat) : M unit :=
  guarded me ≫= fun _ =>
  s ← gets;
  if negb (bool_decide (stage s = Prepared)) then refuse FInvalidState
  else read me ≫= fun _ => update (set_stage Transport).

Definition complete_transport (me : nat) : M unit :=
  guarded me ≫= fun _ =>
  s ← gets;
  if negb (bool_decide (stage s = Transport)) then refuse FInvalidState
  else if negb (transport s =? 0) then refuse FBorrowed
  else
    read me ≫= fun _ =>
    update (fun s => set_stage Processing (set_completed (highwater s) s)).

Record Completion := { c_request : Request; c_initial : Z; c_completed : Z; c_final : Z }.

(** [ResponseCompletion{request, *initial, *completed, *highwater}]. *)
Definition publish (r : Request) : M Completion := fun w =>
  let s := state w in
  match initial s, completed s, highwater s with
  | Some i, Some c, Some f =>
      Some (with_state (set_stage Finalized) w,
            Got {| c_request := r; c_initial := i; c_completed := c; c_final := f |})
  | _, _, _ => None
  end.

Definition finish_processing (me : nat) : M Completion :=
  guarded me ≫= fun _ =>
  s ← gets;
  if negb (bool_decide (stage s = Processing)) then refuse FInvalidState
  else if negb (processing s =? 0) then refuse FBorrowed
  else read me ≫= fun _ => publish (request s).

(** ** Runs

    The operations the owner's code can perform, by any thread: a permit can
    be checked, rejected or released while one is held. *)
Inductive Op :=
| BeginTransport | CompleteTransport | FinishProcessing
| LeaseOf (phase : ResponseStage) (expected : Request) (failure : option PreparationFailure)
| Check (phase : ResponseStage) | RejectBody (phase : ResponseStage) | Release (phase : ResponseStage)
| RetireSource (reason : SourceRetirement).

Definition permitted (op : Op) (s : State) : Prop :=
  match op with
  | Check p | RejectBody p | Release p => (p = Transport \/ p = Processing) /\ 0 < permits p s
  | LeaseOf p _ _ => p = Transport \/ p = Processing
  | _ => True
  end.

(** What the caller gets back. *)
Inductive Response := Status (r : BoundaryResult unit) | Finished (r : BoundaryResult Completion) | Done.

Definition status {O'} (r : option (O' * BoundaryResult unit)) : option (O' * Response) :=
  match r with Some (w, r) => Some (w, Status r) | None => None end.

Definition exec (me : nat) (op : Op) (w : World) : option (World * Response) :=
  match op with
  | BeginTransport => status (begin_transport me w)
  | CompleteTransport => status (complete_transport me w)
  | FinishProcessing =>
      match finish_processing me w with Some (w, r) => Some (w, Finished r) | None => None end
  | LeaseOf p expected failure => status (lease me p expected failure w)
  | Check p => status (observe_checkpoint me p w)
  | RejectBody p => status (reject me p w)
  | Release p => match detach me p w with Some w => Some (w, Done) | None => None end
  | RetireSource reason =>
      let '(g, f) := retire me reason (src w) in
      Some ({| state := state w; src := g; obs := obs w |}, Status (Refused f))
  end.

(** A run of operations by any threads, with the completions it produced. *)
Inductive runs : World -> list Completion -> World -> Prop :=
| runs_nil w : runs w [] w
| runs_step w cs w' me op w'' r :
    runs w cs w' -> permitted op (state w') -> exec me op w' = Some (w'', r) ->
    runs w (cs ++ match r with Finished (Got c) => [c] | _ => [] end) w''.

(** ** What a read keeps *)

(** A read keeps everything but the high-water mark, which rises, and the
    first fault, which stays once it is there. *)
Record evolves (s s' : State) : Prop := {
  ev_request : request s' = request s;
  ev_thread : thread s' = thread s;
  ev_stage : stage s' = stage s;
  ev_initial : initial s' = initial s;
  ev_completed : completed s' = completed s;
  ev_reading : reading s' = reading s;
  ev_transport : transport s' = transport s;
  ev_processing : processing s' = processing s;
  ev_highwater : hw_le (highwater s) (highwater s');
  ev_first : forall f, first s = Some f -> first s' = Some f }.

Lemma hw_le_refl o : hw_le o o.
Proof. intros h ->. exists h. split; [done|lia]. Qed.
Lemma hw_le_trans o o' o'' : hw_le o o' -> hw_le o' o'' -> hw_le o o''.
Proof. intros H1 H2 h (h' & (h'' & -> & ?)%H2 & ?)%H1. exists h''. split; [done|lia]. Qed.

#[local] Instance evolves_preorder : PreOrder evolves.
Proof.
  split.
  - intros s. by constructor; [..|apply hw_le_refl|].
  - intros s s' s'' [] []. constructor; [congruence..|by eapply hw_le_trans|auto].
Qed.

(** A computation that evolves the state, latches what it refuses with, and
    latches nothing when it succeeds. *)
Definition sound {A} (m : M A) : Prop := forall w w' r, m w = Some (w', r) ->
  evolves (state w) (state w') /\
  match r with
  | Refused f => first (state w') = Some f
  | Got _ => first (state w') = first (state w)
  end.

Lemma bind_M {A B} (m : M A) (f : A -> M B) w w' r :
  (m ≫= f) w = Some (w', r) ->
  (exists e, m w = Some (w', Refused e) /\ r = Refused e) \/
  (exists a w1, m w = Some (w1, Got a) /\ f a w1 = Some (w', r)).
Proof.
  unfold mbind, M_bind. destruct (m w) as [[w1 [a|e]]|]; [eauto|intros [= <- <-]; eauto|done].
Qed.

Lemma sound_bind {A B} (m : M A) (f : A -> M B) : sound m -> (forall a, sound (f a)) -> sound (m ≫= f).
Proof.
  intros Hm Hf w w' r [(e & Hr & ->)|(a & w1 & H1 & H2)]%bind_M; [by apply Hm in Hr|].
  apply Hm in H1 as [He1 Hf1]. apply Hf in H2 as [He2 Hf2]. split; [by etrans|].
  destruct r; congruence.
Qed.

Lemma sound_ret {A} (a : A) : sound (mret a).
Proof. by intros w w' r [= <- <-]. Qed.

Lemma sound_latched {A} f : sound (latched (A := A) f).
Proof.
  intros w w' r. unfold latched, latch. destruct (first (state w)) as [f'|] eqn:E; intros [= <- <-]; cbn; [done|].
  split; [|done]. constructor; cbn; try done; [apply hw_le_refl|]. congruence.
Qed.

Lemma sound_source me : sound (source_checked me).
Proof.
  intros w w' r. unfold source_checked. destruct (checkpoint _ _); [by intros [= <- <-]|apply sound_latched].
Qed.

Lemma react_state me es w w' : react me es w = Some w' -> state w' = state w.
Proof.
  revert w. induction es as [|[] es IH]; intros w; cbn; [by intros [= <-]|by intros ->%IH|].
  destruct (guard _ _); [done|by intros ->%IH..].
Qed.

Lemma sound_ask {A} me (call : O -> Observed A * list Event * O) : sound (ask me call).
Proof.
  intros w w' r. unfold ask. destruct (call (obs w)) as [[answer es] o].
  destruct (react _ _ _) as [w1|] eqn:E; [|done]. apply react_state in E. cbn in E.
  destruct answer; [intros [= <- <-]; by rewrite E|]. intros H%sound_latched. by rewrite E in H.
Qed.

Lemma sound_not_cancelled me : sound (not_cancelled me).
Proof.
  apply sound_bind; [apply sound_ask|]. intros []; [apply sound_latched|apply sound_ret].
Qed.

(** The end of a read: the clock must not fall and must be before the deadline. *)
Definition accept (actual : Z) : M unit :=
  s ← gets;
  if match highwater s with Some h => actual <? h | None => false end then latched FClockRollback
  else
    update (set_highwater actual) ≫= fun _ =>
    if deadline (request s) <=? actual then latched FDeadlineElapsed else mret tt.

Lemma sound_accept actual : sound (accept actual).
Proof.
  intros w w' r. unfold accept, gets, update. unfold mbind at 1, M_bind at 1.
  destruct (match highwater (state w) with Some h => _ | None => _ end) eqn:Eh; [apply sound_latched|].
  assert (evolves (state w) (set_highwater actual (state w))) as He.
  { constructor; cbn; try done. intros h Hh. rewrite Hh in Eh. exists actual. split; [done|]. zb. lia. }
  unfold mbind, M_bind. destruct (_ <=? _).
  - intros [Hl Hf]%sound_latched. split; [by etrans|done].
  - intros [= <- <-]. done.
Qed.

Lemma sound_body me : sound (read_body me).
Proof.
  unfold read_body. apply sound_bind; [apply sound_not_cancelled|intros _].
  apply sound_bind; [apply sound_source|intros _].
  apply sound_bind; [apply sound_ask|intros [actual|]]; [|apply sound_latched].
  destruct (finite actual); cbn [negb]; [|apply sound_latched].
  apply sound_bind; [apply sound_source|intros _]. apply sound_bind; [apply sound_not_cancelled|intros _].
  apply sound_bind; [apply sound_source|intros _]. apply (sound_accept actual).
Qed.

(** A read that succeeds saw a clock value before the deadline. *)
Lemma body_got me w w' : read_body me w = Some (w', Got tt) ->
  exists t, highwater (state w') = Some t /\ finite t = true /\ t < deadline (request (state w')) /\
            retired (src w') = None.
Proof.
  unfold read_body.
  intros [(? & _ & ?)|(? & w1 & _ & H)]%bind_M; [done|].
  apply bind_M in H as [(? & _ & ?)|(? & w2 & _ & H)]; [done|].
  apply bind_M in H as [(? & _ & ?)|([actual|] & w3 & _ & H)]; [done| |].
  2: { unfold latched in H. by destruct (latch _ _). }
  destruct (finite actual) eqn:Hf; cbn [negb] in H.
  2: { unfold latched in H. by destruct (latch _ _). }
  apply bind_M in H as [(? & _ & ?)|(? & w4 & _ & H)]; [done|].
  apply bind_M in H as [(? & _ & ?)|(? & w5 & _ & H)]; [done|].
  apply bind_M in H as [(? & _ & ?)|(? & w6 & Hs & H)]; [done|].
  assert (retired (src w6) = None) as Hr.
  { unfold source_checked, checkpoint in Hs. destruct (negb _).
    - unfold latched in Hs. by destruct (latch _ _).
    - destruct (retired (src w5)) eqn:?; [unfold latched in Hs; by destruct (latch _ _)|]. by simplify_eq. }
  unfold gets, update, mbind, M_bind in H.
  destruct (match highwater (state w6) with Some h => _ | None => _ end).
  { unfold latched in H. by destruct (latch _ _). }
  destruct (_ <=? _) eqn:Hd.
  { unfold latched in H. by destruct (latch _ _). }
  injection H as <-. exists actual. cbn. zb. done.
Qed.

Lemma evolves_reading b s s' : evolves (set_reading true s) s' -> reading s = b -> evolves s (set_reading b s').
Proof. intros [] <-. by constructor. Qed.

Lemma read_spec me w w' r : reading (state w) = false -> read me w = Some (w', r) ->
  evolves (state w) (state w') /\
  ((thread (state w) <> me /\ w' = w /\ r = Refused FWrongThread) \/
   (thread (state w) = me /\
    match r with
    | Refused f => first (state w') = Some f
    | Got _ => first (state w) = None /\ first (state w') = None /\ retired (src w') = None /\
               exists t, highwater (state w') = Some t /\ t < deadline (request (state w'))
    end)).
Proof.
  intros Hr. unfold read. intros [(e & H & ->)|([] & w1 & H & H2)]%bind_M; unfold guarded, guard in H; rewrite Hr in H.
  - destruct (Nat.eqb_spec (thread (state w)) me); cbn [negb] in H.
    + destruct (first (state w)) eqn:Ef; [|done]. injection H as <- <-. split; [done|]. right. done.
    + injection H as <- <-. split; [done|]. left. done.
  - destruct (Nat.eqb_spec (thread (state w)) me) as [Ht|]; cbn [negb] in H; [|done].
    destruct (first (state w)) eqn:Ef; [done|]. injection H as <-.
    apply bind_M in H2 as [(e & H & ->)|([] & w1 & H & H2)].
    + apply sound_source in H as [He Hf]. split; [done|]. right. done.
    + apply sound_source in H as [He Hf]. unfold while_reading in H2.
      destruct (read_body me _) as [[w2 r2]|] eqn:Eb; [|done]. injection H2 as <- <-.
      pose proof (sound_body _ _ _ _ Eb) as [He2 Hf2]. cbn in He2, Hf2.
      apply (evolves_reading false) in He2; [|destruct He; congruence].
      split; [by etrans|]. right. split; [done|]. destruct r2 as [[]|f]; [|done].
      apply body_got in Eb as (t & Hh & _ & Hd & Hret). cbn. split_and!; [done|congruence|done|]. eauto.
Qed.

(** The guard alone: the caller is on the operation's thread and nothing is
    latched, or the state is as it was. *)
Lemma guarded_spec me w w' r : reading (state w) = false -> guarded me w = Some (w', r) ->
  w' = w /\
  match r with
  | Got _ => thread (state w) = me /\ first (state w) = None
  | Refused f => (thread (state w) <> me /\ f = FWrongThread) \/ first (state w) = Some f
  end.
Proof.
  intros Hr. unfold guarded, guard. rewrite Hr. destruct (Nat.eqb_spec (thread (state w)) me); cbn [negb].
  - destruct (first (state w)); intros [= <- <-]; auto.
  - intros [= <- <-]. auto.
Qed.

(** ** The invariant of an operation *)

Definition times_ok (s : State) : Prop := exists i h,
  initial s = Some i /\ highwater s = Some h /\ i <= h /\
  match stage s with
  | Processing | Finalized => exists c, completed s = Some c /\ i <= c <= h
  | _ => True
  end /\
  (first s = None -> h < deadline (request s)).

Record op_ok (s : State) : Prop := {
  ok_reading : reading s = false;
  ok_request : valid_request (request s) = true;
  ok_transport : 0 <= transport s <= 64 /\ (stage s <> Transport -> transport s = 0);
  ok_processing : 0 <= processing s <= 64 /\ (stage s <> Processing -> processing s = 0);
  ok_times : times_ok s }.

Lemma evolves_ok s s' : evolves s s' -> op_ok s ->
  (first s' = None -> forall h, highwater s' = Some h -> h < deadline (request s')) -> op_ok s'.
Proof.
  intros [Hq Ht Hst Hi Hc Hr Htr Hpr Hh Hf] [Or Oq Ot Op (i & h & Ei & Eh & Hle & Hstage & _)] Hlive.
  destruct (Hh h Eh) as (h' & Eh' & Hle'). split; rewrite ?Hr, ?Hq, ?Htr, ?Hpr, ?Hst; try done.
  exists i, h'. rewrite Hi, Hst, Hc. split_and!; [done..|lia| |intros ?; rewrite <- ?Hq; auto].
  destruct (stage s); try done; destruct Hstage as (c & ? & ?); exists c; (split; [done|lia]).
Qed.

Lemma read_ok me w w' r : op_ok (state w) -> read me w = Some (w', r) -> op_ok (state w').
Proof.
  intros Hok Hr. apply read_spec in Hr as [He [(_ & -> & _)|(_ & H)]]; [done| |apply Hok].
  apply (evolves_ok (state w)); [done..|]. destruct r as [[]|f]; [|congruence].
  destruct H as (_ & _ & _ & t & Ht & Hd). intros _ h. rewrite Ht. by intros [= <-].
Qed.

(** A transition between two states of one operation. *)
Definition rank (p : ResponseStage) : nat :=
  match p with Prepared => 0 | Transport => 1 | Processing => 2 | Finalized => 3 end.

Record moves (F : Prop) (s s' : State) : Prop := {
  mv_ok : op_ok s';
  mv_request : request s' = request s;
  mv_thread : thread s' = thread s;
  mv_rank : (rank (stage s) <= rank (stage s'))%nat;
  mv_last : stage s = Finalized -> first s = None -> first s' = None;
  mv_highwater : hw_le (highwater s) (highwater s');
  mv_final : stage s' = Finalized -> stage s = Finalized \/ F;
  mv_first : forall f, first s = Some f -> first s' = Some f }.

Lemma moves_refl F s : op_ok s -> moves F s s.
Proof. intros H. split; auto using hw_le_refl. Qed.
#[local] Hint Resolve moves_refl : core.

Lemma moves_trans F s s' s'' : moves F s s' -> moves F s' s'' -> moves F s s''.
Proof.
  intros [? ? ? ? ? ? N1 ?] [? ? ? ? ? ? N2 ?].
  constructor; try congruence; try lia; [|by eapply hw_le_trans| |auto].
  2: { intros H. by destruct (N2 H) as [?%N1|]; [|right]. }
  intros Hs Hf. assert (stage s' = Finalized) by (destruct (stage s'); rewrite Hs in *; cbn in *; done || lia). auto.
Qed.

Lemma guarded_bind {A} me (k : unit -> M A) w w' r :
  op_ok (state w) -> (guarded me ≫= k) w = Some (w', r) ->
  (w' = w /\ exists f, r = Refused f) \/
  (thread (state w) = me /\ first (state w) = None /\ k tt w = Some (w', r)).
Proof.
  intros Hok [(e & H & ->)|([] & w1 & H & H2)]%bind_M; apply guarded_spec in H as [-> H]; try apply Hok.
  - left. eauto.
  - right. destruct H. done.
Qed.

Lemma refuse_inv {A} f w w' (r : BoundaryResult A) :
  refuse f w = Some (w', r) -> w' = w /\ r = Refused f.
Proof. by intros [= <- <-]. Qed.

Lemma gets_bind {A} (k : State -> M A) w : (gets ≫= k) w = k (state w) w.
Proof. done. Qed.

Lemma read_moves F me w w' r : op_ok (state w) -> stage (state w) <> Finalized ->
  read me w = Some (w', r) -> moves F (state w) (state w').
Proof.
  intros Hok Hn Hr. pose proof (read_ok _ _ _ _ Hok Hr) as Hok'.
  apply read_spec in Hr as [[] _]; [|apply Hok].
  constructor; try done; [rewrite ev_stage0; lia|left; congruence].
Qed.

(** A successful read followed by a change of the state that keeps the
    invariant. *)
Lemma read_then {A} F me (k : unit -> M A) w w' r (Q : BoundaryResult A -> Prop) :
  op_ok (state w) -> stage (state w) <> Finalized ->
  (read me ≫= k) w = Some (w', r) -> (forall f, Q (Refused f)) ->
  (forall w1, evolves (state w) (state w1) -> op_ok (state w1) -> first (state w) = None ->
     first (state w1) = None -> moves F (state w) (state w1) -> k tt w1 = Some (w', r) ->
     moves F (state w) (state w') /\ Q r) ->
  moves F (state w) (state w') /\ Q r.
Proof.
  intros Hok Hn [(e & H & ->)|([] & w1 & H & H2)]%bind_M Hq Hk.
  - split; [by eapply read_moves|done].
  - pose proof (read_moves F _ _ _ _ Hok Hn H) as Hm. pose proof (read_ok _ _ _ _ Hok H) as Hok1.
    apply read_spec in H as [He [(_ & _ & ?)|(_ & Hf0 & Hf1 & _)]]; [done| |apply Hok]. by eapply Hk.
Qed.

Lemma begin_transport_moves F me w w' r : op_ok (state w) ->
  begin_transport me w = Some (w', r) -> moves F (state w) (state w').
Proof.
  intros Hok [(-> & _)|(_ & _ & H)]%guarded_bind; [auto| |done].
  rewrite gets_bind in H. case_bool_decide as Hs; cbn [negb] in H; [|by apply refuse_inv in H as [-> ->]; auto].
  eapply (read_then F _ _ _ _ _ (fun _ => True)) in H as [? _]; [done..|congruence|done|].
  intros w1 He Hok1 Hf Hf1 Hm [= <- <-]. split; [|done]. destruct Hok1 as [Or Oq Ot Op (i & h & Ei & Eh & Hle & Hst & Hl)].
  destruct He. constructor; cbn; try done; try congruence; [|by rewrite Hs; cbn; lia].
  split; cbn; try done.
  - split; [apply Ot|]. done.
  - split; [apply Op|]. intros _. apply Op. congruence.
  - exists i, h. cbn. done.
Qed.

Lemma complete_transport_moves F me w w' r : op_ok (state w) ->
  complete_transport me w = Some (w', r) -> moves F (state w) (state w').
Proof.
  intros Hok [(-> & _)|(_ & _ & H)]%guarded_bind; [auto| |done].
  rewrite gets_bind in H. case_bool_decide as Hs; cbn [negb] in H; [|by apply refuse_inv in H as [-> ->]; auto].
  destruct (_ =? _) eqn:Ht; cbn [negb] in H; [|by apply refuse_inv in H as [-> ->]; auto]. zb.
  eapply (read_then F _ _ _ _ _ (fun _ => True)) in H as [? _]; [done..|congruence|done|].
  intros w1 He Hok1 Hf Hf1 Hm [= <- <-]. split; [|done]. destruct Hok1 as [Or Oq Ot Op (i & h & Ei & Eh & Hle & Hst & Hl)].
  destruct He. constructor; cbn; try done; try congruence; [|by rewrite Hs; cbn; lia].
  split; cbn; try done.
  - split; [apply Ot|]. intros _. congruence.
  - split; [apply Op|]. done.
  - exists i, h. cbn. split_and!; [done..| |done]. exists h. split; [done|lia].
Qed.

(** What a completion certifies. *)
Definition certified (r : Request) (c : Completion) : Prop :=
  c_request c = r /\ c_initial c <= c_completed c <= c_final c /\ c_final c < deadline r.

Lemma finish_processing_moves me w w' r : op_ok (state w) ->
  finish_processing me w = Some (w', r) ->
  moves (exists c, r = Got c) (state w) (state w') /\
  match r with
  | Got c => certified (request (state w)) c /\ first (state w') = None /\
             stage (state w) = Processing /\ stage (state w') = Finalized
  | Refused _ => True
  end.
Proof.
  intros Hok [(-> & f & ->)|(_ & _ & H)]%guarded_bind; [auto| |done].
  rewrite gets_bind in H. case_bool_decide as Hs; cbn [negb] in H; [|by apply refuse_inv in H as [-> ->]; auto].
  destruct (_ =? _) eqn:Ht; cbn [negb] in H; [|by apply refuse_inv in H as [-> ->]; auto]. zb.
  eapply (read_then (exists c, r = Got c) me (fun _ => publish _) w w' r (fun r => match r with Got _ => _ | _ => True end)) in H;
    [exact H|done|congruence|done|].
  intros w1 He Hok1 Hf Hf1 Hm Hp. unfold publish in Hp.
  destruct Hok1 as [Or Oq Ot Op (i & h & Ei & Eh & Hle & Hst & Hl)]. destruct He.
  rewrite ev_stage0, Hs in Hst. destruct Hst as (c & Ec & Hc). rewrite Ei, Ec, Eh in Hp. injection Hp as <- <-.
  specialize (Hl Hf1). cbn. split.
  - constructor; cbn; try done; try congruence; [|by rewrite Hs; cbn; lia|right; eauto].
    split; cbn; try done.
    + split; [apply Ot|]. intros _. apply Ot. congruence.
    + split; [apply Op|]. intros _. congruence.
    + exists i, h. cbn. split_and!; [done..| |done]. eauto.
  - split_and!; try done. split; [done|]. cbn. rewrite <- ev_request0. done.
Qed.

Definition has_permits (p : ResponseStage) : Prop := p = Transport \/ p = Processing.

Lemma set_permits_moves F p n s : op_ok s -> has_permits p -> stage s = p -> 0 <= n <= 64 ->
  moves F s (set_permits p n s).
Proof.
  intros [Or Oq Ot Op Om] Hp Hs Hn. constructor; cbn; try done; [|apply hw_le_refl|by left].
  split; cbn; try done; destruct Hp as [-> | ->]; rewrite ?bool_decide_true, ?bool_decide_false by done; done.
Qed.

Lemma check_moves F me p w w' r : op_ok (state w) -> has_permits p ->
  observe_checkpoint me p w = Some (w', r) -> moves F (state w) (state w') /\ stage (state w') = stage (state w).
Proof.
  intros Hok Hp [(-> & _)|(_ & _ & H)]%guarded_bind; [auto| |done].
  rewrite gets_bind in H. case_bool_decide as Hs; cbn [negb] in H; [|by apply refuse_inv in H as [-> ->]; auto].
  split; [eapply read_moves; [done| |done]; destruct Hp; congruence|].
  apply read_spec in H as [[] _]; [done|apply Hok].
Qed.

Lemma reject_moves F me p w w' r : op_ok (state w) -> has_permits p ->
  reject me p w = Some (w', r) -> moves F (state w) (state w').
Proof.
  intros Hok Hp [(-> & _)|(_ & Hf & H)]%guarded_bind; [auto| |done].
  rewrite gets_bind in H. case_bool_decide as Hs; cbn [negb] in H; [|by apply refuse_inv in H as [-> ->]; auto].
  pose proof (sound_latched _ _ _ _ H) as [He Hr]. destruct r as [[]|f].
  { unfold latched, latch in H. rewrite Hf in H. done. }
  assert (op_ok (state w')) by (eapply evolves_ok; [done..|congruence]).
  destruct He. constructor; try done; [rewrite ev_stage0; lia|destruct Hp; congruence|left; congruence].
Qed.

Lemma detach_moves F me p w w' : op_ok (state w) -> has_permits p ->
  detach me p w = Some w' -> moves F (state w) (state w').
Proof.
  intros Hok Hp. unfold detach. destruct (_ || _); [done|]. destruct (_ =? 0) eqn:Hz; [done|].
  case_bool_decide as Hs; [|done]. cbn [negb orb]. intros [= <-]. zb. cbn.
  apply set_permits_moves; [done..|]. destruct Hok as [_ _ Ot Op _]. unfold permits in *.
  case_bool_decide; lia.
Qed.

Lemma attach_moves F p w w' r : op_ok (state w) -> has_permits p -> stage (state w) = p ->
  attach p w = Some (w', r) -> moves F (state w) (state w').
Proof.
  intros Hok Hp Hs. unfold attach. destruct (64 <=? _) eqn:E; [done|]. intros [= <- <-]. zb.
  apply set_permits_moves; [done..|]. destruct Hok as [_ _ Ot Op _]. unfold permits in *.
  case_bool_decide; lia.
Qed.

Lemma acquire_gate_moves F me p expected failure w w' r : op_ok (state w) -> has_permits p ->
  acquire_gate me p expected failure w = Some (w', r) ->
  moves F (state w) (state w') /\
  match r with
  | Got _ => valid_request expected = true
  | Refused _ => True
  end.
Proof.
  intros Hok Hp [(-> & f & ->)|(_ & _ & H)]%guarded_bind; [auto| |done].
  case_bool_decide as Hb; [by apply refuse_inv in H as [-> ->]; auto|]. rewrite gets_bind in H.
  destruct (matches _ _) eqn:Hm; cbn [negb] in H; [|by apply refuse_inv in H as [-> ->]; auto].
  case_bool_decide as Hs; cbn [negb] in H; [|by apply refuse_inv in H as [-> ->]; auto].
  destruct (64 <=? _) eqn:Hc; [by apply refuse_inv in H as [-> ->]; auto|].
  destruct failure; [by apply refuse_inv in H as [-> ->]; auto|].
  eapply (read_then F me (fun _ => attach p) w w' r (fun r => match r with Got _ => _ | _ => True end)) in H;
    [exact H|done|destruct Hp; congruence|done|].
  intros w1 He Hok1 _ _ Hmv Ha. split.
  - eapply moves_trans; [done|]. eapply attach_moves; [done..| |done]. destruct He. congruence.
  - destruct r; [|done]. unfold matches in Hm. zb. destruct Hok as [_ Hv _ _ _]. unfold valid_request in *.
    zb. rewrite bool_decide_true by (by apply eq_None_not_Some).
    repeat match goal with H : deadline _ = _ |- _ => rewrite <- H | H : headroom _ = _ |- _ => rewrite <- H end.
    match goal with H : finite _ = true |- _ => rewrite H end. cbn [andb]. by repeat ztest.
Qed.

Lemma lease_moves F me p expected failure w w' r : op_ok (state w) -> has_permits p ->
  lease me p expected failure w = Some (w', r) -> moves F (state w) (state w').
Proof.
  intros Hok Hp. unfold lease.
  destruct (acquire_gate me p expected failure w) as [[w1 r1]|] eqn:Ea; [|done].
  apply (acquire_gate_moves F) in Ea as [Hm Hv]; [|done..]. destruct r1 as [[]|f]; [|by intros [= <- <-]].
  unfold prepare. rewrite Hv. cbn [negb].
  destruct (observe_checkpoint me p w1) as [[w2 r2]|] eqn:Ec; [|done].
  apply (check_moves F) in Ec as [Hm2 _]; [|apply Hm|done].
  pose proof (moves_trans _ _ _ _ Hm Hm2) as Hm3. destruct r2 as [[]|f]; [by intros [= <- <-]|].
  destruct (detach me p w2) as [w3|] eqn:Ed; [|done]. intros [= <- <-].
  eapply moves_trans; [done|]. eapply detach_moves; [apply Hm3|done..].
Qed.

Definition produces (r : Response) : Prop := exists c, r = Finished (Got c).

Lemma exec_moves me op w w' r : op_ok (state w) -> permitted op (state w) ->
  exec me op w = Some (w', r) ->
  moves (produces r) (state w) (state w') /\
  forall c, r = Finished (Got c) ->
    certified (request (state w)) c /\ first (state w') = None /\
    stage (state w) = Processing /\ stage (state w') = Finalized.
Proof.
  intros Hok Hp. destruct op; cbn [exec permitted] in *; unfold status.
  - destruct (begin_transport me w) as [[w1 r1]|] eqn:E; [|done]. intros [= <- <-].
    split; [by eapply begin_transport_moves|done].
  - destruct (complete_transport me w) as [[w1 r1]|] eqn:E; [|done]. intros [= <- <-].
    split; [by eapply complete_transport_moves|done].
  - destruct (finish_processing me w) as [[w1 r1]|] eqn:E; [|done]. intros [= <- <-].
    apply finish_processing_moves in E as [Hm Hc]; [|done]. split.
    + destruct Hm. split; try done. intros H. destruct (mv_final0 H) as [?|[c ->]]; [auto|]. right. by exists c.
    + intros c [= ->]. done.
  - destruct (lease me phase expected failure w) as [[w1 r1]|] eqn:E; [|done]. intros [= <- <-].
    split; [by eapply lease_moves|done].
  - destruct (observe_checkpoint me phase w) as [[w1 r1]|] eqn:E; [|done]. intros [= <- <-].
    split; [|done]. by eapply check_moves in E as [? _]; [done..|apply Hp].
  - destruct (reject me phase w) as [[w1 r1]|] eqn:E; [|done]. intros [= <- <-].
    split; [|done]. by eapply reject_moves; [..|apply Hp|done].
  - destruct (detach me phase w) as [w1|] eqn:E; [|done]. intros [= <- <-].
    split; [|done]. by eapply detach_moves; [..|apply Hp|done].
  - destruct (retire me reason (src w)) as [g f]. intros [= <- <-]. split; [by apply moves_refl|done].
Qed.

Lemma begin_ok me r g o w : begin me r g o = Some (w, Got tt) ->
  op_ok (state w) /\ request (state w) = r /\ thread (state w) = me /\
  stage (state w) = Prepared /\ first (state w) = None.
Proof.
  unfold begin. case_bool_decide as Hb; [done|]. case_bool_decide as Hsrc; [|done]. cbn [negb].
  destruct (checkpoint me g); [|done].
  destruct (create_request _ _ _) as [r'|] eqn:Ec; [|done].
  assert (r' = r /\ valid_request r = true) as [-> Hv].
  { unfold create_request in Ec. apply eq_None_not_Some in Hb. rewrite Hb in Ec.
    destruct (negb _ || _ || _) eqn:Ef; [done|]. destruct (required_until _); [|done]. injection Ec as <-.
    split; [by destruct r|]. unfold valid_request. rewrite bool_decide_true by done. zb.
    match goal with H : finite _ = true |- _ => rewrite H end. cbn [andb]. by repeat ztest. }
  intros [(? & _ & ?)|([] & w1 & H & H2)]%bind_M; [done|]. injection H2 as <-.
  apply read_spec in H as [[] [(_ & _ & ?)|(Ht & _ & Hf & _ & t & Eh & Hd)]]; [done| |done]. cbn in *.
  split_and!; try done; try congruence. split; cbn; try congruence.
  - split; [lia|congruence].
  - split; [lia|congruence].
  - exists t, t. cbn. rewrite ev_stage0. split_and!; [done..|lia|done|done].
Qed.

Lemma runs_ok w0 cs w : op_ok (state w0) -> stage (state w0) = Prepared -> first (state w0) = None ->
  runs w0 cs w ->
  op_ok (state w) /\ request (state w) = request (state w0) /\ thread (state w) = thread (state w0) /\
  Forall (certified (request (state w0))) cs /\
  (stage (state w) <> Finalized -> cs = []) /\
  (stage (state w) = Finalized -> length cs = 1%nat /\ first (state w) = None).
Proof.
  intros Hok Hs Hf. induction 1 as [w|w0 cs w me op w' r _ IH Hp He]; [split_and!; try done; congruence|].
  destruct IH as (Hok' & Hq & Ht & Hc & Hn & Hl); [done..|].
  apply exec_moves in He as [[] Hx]; [|done..].
  destruct r as [r|[c|f]|].
  2: { destruct (Hx c eq_refl) as (Hcert & Hf' & Hs1 & Hs2). rewrite Hn by congruence. cbn [app].
       split_and!; try congruence; try done. constructor; [|done]. congruence. }
  all: rewrite app_nil_r; split_and!; try congruence; try done.
  all: assert (stage (state w') = Finalized -> stage (state w) = Finalized) as Hback
    by (intros H; destruct (mv_final0 H) as [?|[]]; congruence).
  1,3,5: intros Hs'; apply Hn; intros Hw; apply Hs'; rewrite Hw in mv_rank0;
    destruct (stage (state w')); cbn in mv_rank0; done || lia.
  all: intros Hs'; destruct (Hl (Hback Hs')); auto.
Qed.


(** An operation that goes through the guard. *)
Definition guarded_op (op : Op) : bool :=
  match op with Release _ | RetireSource _ => false | _ => true end.

Definition refusal (op : Op) (f : BoundaryFailure) : Response :=
  match op with FinishProcessing => Finished (Refused f) | _ => Status (Refused f) end.

Lemma guard_refuses me op w f : guarded_op op = true -> guard me (state w) = Fault f ->
  exec me op w = Some (w, refusal op f).
Proof.
  intros Hop Hg. assert (forall A (k : unit -> M A), (guarded me ≫= k) w = Some (w, Refused f)) as Hb.
  { intros A k. unfold mbind, M_bind, guarded. by rewrite Hg. }
  destruct op; try done; cbn [exec]; unfold begin_transport, complete_transport, finish_processing,
    lease, acquire_gate, observe_checkpoint, reject; by rewrite Hb.
Qed.

(** The first fault is final: whatever is done after it was latched, by
    whichever threads, nothing completes, the fault stays, and every operation
    on the operation's thread returns that fault and changes nothing.  An
    operation called on another thread is refused and changes nothing. *)
Theorem first_fault_is_final (w w' : World) (cs : list Completion) (f : BoundaryFailure) :
  op_ok (state w) -> first (state w) = Some f -> stage (state w) <> Finalized -> runs w cs w' ->
  cs = [] /\ first (state w') = Some f /\
  forall me op, guarded_op op = true ->
    exec me op w' = Some (w', refusal op (if Nat.eqb (thread (state w')) me then f else FWrongThread)).
Proof.
  intros Hok Hf Hs Hr.
  assert (op_ok (state w') /\ first (state w') = Some f /\ cs = []) as (Hok' & Hf' & Hc).
  { induction Hr as [w|w cs w1 me op w2 r _ IH Hp He]; [done|].
    destruct IH as (Hok1 & Hf1 & ->); [done..|]. apply exec_moves in He as [[] Hx]; [|done..].
    split_and!; [done|by auto|]. destruct r as [|[c|]|]; try done.
    destruct (Hx c eq_refl) as (_ & Hn & _). by rewrite (mv_first0 f Hf1) in Hn. }
  split_and!; [done..|]. intros me op Hop. apply guard_refuses; [done|].
  unfold guard. rewrite (ok_reading _ Hok'). destruct (Nat.eqb_spec (thread (state w')) me); cbn [negb]; [|done].
  by rewrite Hf'.
Qed.

(** ** Operations return *)

Definition quiet {A} (call : O -> Observed A * list Event * O) : Prop :=
  forall o, ~ In Reenters (call o).1.2.
Definition returns {A} (m : M A) (w : World) : Prop := is_Some (m w).

Lemma returns_bind {A B} (m : M A) (f : A -> M B) w :
  returns m w -> (forall a w', m w = Some (w', Got a) -> returns (f a) w') -> returns (m ≫= f) w.
Proof.
  intros [[w' [a|e]] H] Hf; unfold returns, mbind, M_bind in *; rewrite H; [by apply Hf|eauto].
Qed.

Lemma returns_latched {A} f w : returns (latched (A := A) f) w.
Proof. unfold returns, latched. destruct (latch _ _). eauto. Qed.
Lemma returns_source me w : returns (source_checked me) w.
Proof. unfold returns, source_checked. destruct (checkpoint _ _); [eauto|apply returns_latched]. Qed.

Lemma returns_ask {A} me (call : O -> Observed A * list Event * O) w : quiet call -> returns (ask me call) w.
Proof.
  intros Hq. unfold returns, ask. specialize (Hq (obs w)). destruct (call (obs w)) as [[answer es] o].
  cbn in Hq. assert (forall w, is_Some (react me es w)) as Hreact.
  { induction es as [|[] es IH]; intros w'; cbn in *; [eauto| |tauto]. apply IH. tauto. }
  destruct (Hreact {| state := state w; src := src w; obs := o |}) as [w' ->].
  destruct answer; [eauto|apply returns_latched].
Qed.

Context (quiet_cancel : quiet cancellation_requested) (quiet_clock : quiet read_monotonic).

Lemma returns_not_cancelled me w : returns (not_cancelled me) w.
Proof using All.
  apply returns_bind; [by apply returns_ask|]. intros [] w' _; [apply returns_latched|]. unfold returns. eauto.
Qed.

Lemma returns_body me w : returns (read_body me) w.
Proof using quiet_cancel quiet_clock.
  unfold read_body. apply returns_bind; [apply returns_not_cancelled|intros _ w1 _].
  apply returns_bind; [apply returns_source|intros _ w2 _].
  apply returns_bind; [by apply returns_ask|intros [actual|] w3 _]; [|apply returns_latched].
  destruct (finite actual); cbn [negb]; [|apply returns_latched].
  apply returns_bind; [apply returns_source|intros _ w4 _].
  apply returns_bind; [apply returns_not_cancelled|intros _ w5 _].
  apply returns_bind; [apply returns_source|intros _ w6 _].
  apply returns_bind; [unfold returns, gets; eauto|intros s w7 _].
  destruct (match highwater s with Some h => _ | None => _ end); [apply returns_latched|].
  apply returns_bind; [unfold returns, update; eauto|intros _ w8 _].
  destruct (_ <=? _); [apply returns_latched|unfold returns; eauto].
Qed.

Lemma returns_guarded me w : reading (state w) = false -> returns (guarded me) w.
Proof.
  intros Hr. unfold returns, guarded, guard. rewrite Hr. destruct (negb _); [eauto|].
  destruct (first _); eauto.
Qed.

Lemma returns_read me w : reading (state w) = false -> returns (read me) w.
Proof using quiet_cancel quiet_clock.
  intros Hr. apply returns_bind; [by apply returns_guarded|intros _ w1 _].
  apply returns_bind; [apply returns_source|intros _ w2 _].
  unfold returns, while_reading. destruct (returns_body me (with_state (set_reading true) w2)) as [[] ->]. eauto.
Qed.

Lemma returns_check me p w : op_ok (state w) -> returns (observe_checkpoint me p) w.
Proof using quiet_cancel quiet_clock.
  intros Hok. apply returns_bind; [by apply returns_guarded, Hok|intros [] w1 Hg].
  apply guarded_spec in Hg as [-> _]; [|apply Hok].
  unfold returns. rewrite gets_bind. destruct (negb _); [unfold refuse; eauto|]. by apply returns_read, Hok.
Qed.

Lemma returns_detach me p w : op_ok (state w) -> thread (state w) = me -> stage (state w) = p ->
  0 < permits p (state w) -> is_Some (detach me p w).
Proof.
  intros Hok Ht Hs Hp. unfold detach. rewrite Ht, Nat.eqb_refl, (ok_reading _ Hok). cbn [negb orb].
  rewrite (proj2 (Z.eqb_neq _ _)) by lia. rewrite bool_decide_true by done. eauto.
Qed.

(** Permits are held only in their phase. *)
Lemma permits_stage p s : op_ok s -> has_permits p -> 0 < permits p s -> stage s = p.
Proof.
  intros [_ _ [_ Ht] [_ Hp] _] Hph. unfold permits. destruct Hph as [-> | ->].
  - rewrite bool_decide_true by done. intros H. destruct (decide (stage s = Transport)) as [|n]; [done|].
    specialize (Ht n). lia.
  - rewrite bool_decide_false by done. intros H. destruct (decide (stage s = Processing)) as [|n]; [done|].
    specialize (Hp n). lia.
Qed.

Lemma returns_acquire me p expected failure w : op_ok (state w) -> has_permits p ->
  returns (acquire_gate me p expected failure) w.
Proof using quiet_cancel quiet_clock.
  intros Hok Hp. apply returns_bind; [by apply returns_guarded, Hok|intros [] w1 Hg].
  apply guarded_spec in Hg as [-> _]; [|apply Hok].
  case_bool_decide; [unfold returns, refuse; eauto|]. unfold returns. rewrite gets_bind.
  destruct (negb (matches _ _)); [unfold refuse; eauto|].
  destruct (negb (bool_decide _)); [unfold refuse; eauto|].
  destruct (64 <=? _) eqn:Hc; [unfold refuse; eauto|]. destruct failure; [unfold refuse; eauto|].
  apply returns_bind; [by apply returns_read, Hok|intros [] w1 H1].
  apply read_spec in H1 as [[] _]; [|apply Hok]. unfold returns, attach.
  assert (permits p (state w1) = permits p (state w)) as ->.
  { unfold permits. by rewrite ev_transport0, ev_processing0. }
  rewrite Hc. eauto.
Qed.

(** A gate that was admitted holds a permit of the current phase. *)
Lemma acquire_gate_got me p expected failure w w1 : op_ok (state w) -> has_permits p ->
  acquire_gate me p expected failure w = Some (w1, Got tt) ->
  0 < permits p (state w1) /\ thread (state w1) = me.
Proof.
  intros Hok Hp [(_ & ? & ?)|(Ht & _ & H)]%guarded_bind; [done| |done].
  case_bool_decide; [done|]. rewrite gets_bind in H.
  destruct (negb (matches _ _)); [done|]. destruct (negb (bool_decide _)); [done|].
  destruct (64 <=? _); [done|]. destruct failure; [done|].
  apply bind_M in H as [(? & _ & ?)|([] & w2 & Hr & Ha)]; [done|].
  pose proof (read_ok _ _ _ _ Hok Hr) as [_ _ Ot Op _].
  apply read_spec in Hr as [[] _]; [|apply Hok].
  unfold attach in Ha. destruct (64 <=? _); [done|]. injection Ha as <-. cbn.
  split; [|congruence]. unfold permits. cbn [transport processing set_permits].
  destruct Hp as [-> | ->]; rewrite ?bool_decide_true, ?bool_decide_false by done; lia.
Qed.

Lemma returns_lease me p expected failure w : op_ok (state w) -> has_permits p ->
  returns (lease me p expected failure) w.
Proof using quiet_cancel quiet_clock.
  intros Hok Hp. unfold returns, lease.
  destruct (returns_acquire me p expected failure w Hok Hp) as [[w1 [[]|f]] E]; rewrite E; [|eauto].
  pose proof (acquire_gate_got _ _ _ _ _ _ Hok Hp E) as [Hpos Ht].
  apply (acquire_gate_moves True) in E as [Hm Hv]; [|done..]. unfold prepare. rewrite Hv. cbn [negb].
  destruct (returns_check me p w1 (mv_ok _ _ _ Hm)) as [[w2 [[]|f]] Ec]; rewrite Ec; [eauto|].
  pose proof (check_moves True _ _ _ _ _ (mv_ok _ _ _ Hm) Hp Ec) as [Hm2 Hst].
  assert (permits p (state w2) = permits p (state w1)) as Hsame.
  { apply guarded_bind in Ec as [(-> & _)|(_ & _ & H)]; [done| |apply Hm].
    rewrite gets_bind in H. destruct (negb _); [by apply refuse_inv in H as [-> _]|].
    apply read_spec in H as [[] _]; [|apply Hm]. unfold permits. by rewrite ev_transport0, ev_processing0. }
  destruct (returns_detach me p w2) as [w3 ->]; [apply Hm2| | |lia|eauto].
  - rewrite (mv_thread _ _ _ Hm2). done.
  - rewrite Hst. eapply permits_stage; [apply Hm|done..].
Qed.

Lemma returns_guarded_bind {A} me (k : unit -> M A) w : op_ok (state w) ->
  (first (state w) = None -> returns (k tt) w) -> returns (guarded me ≫= k) w.
Proof.
  intros Hok Hk. apply returns_bind; [by apply returns_guarded, Hok|intros [] w1 Hg].
  apply guarded_spec in Hg as [-> [_ ?]]; [|apply Hok]. auto.
Qed.

Lemma returns_begin_transport me w : op_ok (state w) -> returns (begin_transport me) w.
Proof using quiet_cancel quiet_clock.
  intros Hok. apply returns_guarded_bind; [done|]. intros _. unfold returns. rewrite gets_bind.
  destruct (negb _); [unfold refuse; eauto|].
  apply returns_bind; [by apply returns_read, Hok|]. unfold returns, update. eauto.
Qed.

Lemma returns_complete_transport me w : op_ok (state w) -> returns (complete_transport me) w.
Proof using quiet_cancel quiet_clock.
  intros Hok. apply returns_guarded_bind; [done|]. intros _. unfold returns. rewrite gets_bind.
  destruct (negb _); [unfold refuse; eauto|]. destruct (negb _); [unfold refuse; eauto|].
  apply returns_bind; [by apply returns_read, Hok|]. unfold returns, update. eauto.
Qed.

Lemma returns_reject me p w : op_ok (state w) -> returns (reject me p) w.
Proof.
  intros Hok. apply returns_guarded_bind; [done|]. intros _. unfold returns. rewrite gets_bind.
  destruct (negb _); [unfold refuse; eauto|apply returns_latched].
Qed.

Lemma returns_finish me w : op_ok (state w) -> returns (finish_processing me) w.
Proof using quiet_cancel quiet_clock.
  intros Hok. apply returns_guarded_bind; [done|]. intros _. unfold returns. rewrite gets_bind.
  case_bool_decide as Hs; cbn [negb]; [|unfold refuse; eauto].
  destruct (negb _); [unfold refuse; eauto|].
  apply returns_bind; [by apply returns_read, Hok|]. intros [] w1 H1.
  pose proof (read_ok _ _ _ _ Hok H1) as [_ _ _ _ (i & h & Ei & Eh & _ & Hc & _)].
  apply read_spec in H1 as [[] _]; [|apply Hok]. rewrite ev_stage0, Hs in Hc. destruct Hc as (c & Ec & _).
  unfold returns, publish. rewrite Ei, Ec, Eh. eauto.
Qed.

Lemma returns_status (m : M unit) w : returns m w -> is_Some (status (m w)).
Proof. intros [[w' r] H]. unfold status. rewrite H. eauto. Qed.
#[local] Hint Resolve returns_status returns_begin_transport returns_complete_transport returns_lease
  returns_check returns_reject : returns.

(** C35. With an observer that does not call back into the operation, every
    operation its own thread performs on an operation that began returns: it
    neither terminates the process nor reads a checkpoint that was not set. *)
Theorem operation_returns (me : nat) (r : Request) (g : Generation) (o : O) (w0 w : World)
    (cs : list Completion) (op : Op) :
  begin me r g o = Some (w0, Got tt) -> runs w0 cs w -> permitted op (state w) ->
  is_Some (exec me op w).
Proof using quiet_cancel quiet_clock.
  intros (Hok0 & _ & Ht0 & Hs & Hf)%begin_ok Hr Hp.
  destruct (runs_ok w0 cs w) as (Hok & _ & Ht & _); [done..|]. rewrite Ht0 in Ht.
  destruct op; cbn [exec permitted] in *; try solve [auto with returns].
  - destruct (returns_finish me w Hok) as [[w' r'] ->]. eauto.
  - destruct Hp as [Hp Hpos]. destruct (returns_detach me phase w Hok Ht) as [w' ->]; [|done|eauto].
    by apply permits_stage.
  - destruct (retire me reason (src w)). eauto.
Qed.

(** A run of operations on one thread, as a computation. *)
#[export] Instance permitted_dec op s : Decision (permitted op s).
Proof. destruct op; cbn; apply _. Defined.

Fixpoint play (me : nat) (ops : list Op) (w : World) (cs : list Completion) : option (World * list Completion) :=
  match ops with
  | [] => Some (w, cs)
  | op :: ops =>
      if decide (permitted op (state w)) then
        match exec me op w with
        | Some (w, r) => play me ops w (cs ++ match r with Finished (Got c) => [c] | _ => [] end)
        | None => None
        end
      else None
  end.

Lemma play_runs me ops w0 w cs w' cs' :
  runs w0 cs w -> play me ops w cs = Some (w', cs') -> runs w0 cs' w'.
Proof.
  revert w cs. induction ops as [|op ops IH]; intros w cs Hr; cbn; [by intros [= <- <-]|].
  case_decide as Hp; [|done]. destruct (exec me op w) as [[w1 r]|] eqn:E; [|done].
  apply IH. by eapply runs_step.
Qed.
End Operation.
Arguments World O : clear implicits.

(** ** A concrete operation *)

Definition example_cancellation (o : Z) : Observed bool * list Event * Z := (Answers false, [], o).
Definition example_clock (o : Z) : Observed (option Z) * list Event * Z := (Answers (Some o), [], o + 1).
Definition example_generation : Generation :=
  {| gen_identity := example_source; gen_thread := 1; retired := None |}.
Definition example_ops : list Op :=
  [BeginTransport; LeaseOf Transport example_request None; Check Transport; Release Transport;
   CompleteTransport; FinishProcessing].
Definition example_begun : World Z :=
  match begin example_cancellation example_clock 1 example_request example_generation 100 with
  | Some (w, _) => w
  | None => {| state := {| request := example_request; thread := 1; stage := Finalized; first := None;
                           highwater := None; initial := None; completed := None; reading := true;
                           transport := 0; processing := 0 |};
               src := example_generation; obs := 0 |}
  end.
Definition example_completion : Completion :=
  {| c_request := example_request; c_initial := 100; c_completed := 105; c_final := 106 |}.

Lemma example_begins :
  begin example_cancellation example_clock 1 example_request example_generation 100 = Some (example_begun, Got tt).
Proof. vm_compute; reflexivity. Qed.


Definition example_faulted : World Z :=
  with_state (set_first FCancelled) example_begun.

Lemma first_fault_is_final_witness :
  exec example_cancellation example_clock 1 FinishProcessing example_faulted =
    Some (example_faulted, Finished (Refused FCancelled)).
Proof.
  destruct (first_fault_is_final example_cancellation example_clock example_faulted example_faulted [] FCancelled)
    as (_ & _ & H).
  - constructor.
    + reflexivity.
    + vm_compute; reflexivity.
    + split; [vm_compute; split; congruence|]. reflexivity.
    + split; [vm_compute; split; congruence|]. reflexivity.
    + exists 100, 100. split_and!; try reflexivity; vm_compute; congruence || exact I.
  - reflexivity.
  - vm_compute. congruence.
  - apply runs_nil.
  - exact (H 1%nat FinishProcessing eq_refl).
Defined.

Lemma operation_returns_witness :
  is_Some (exec example_cancellation example_clock 1 BeginTransport example_begun).
Proof.
  apply (operation_returns example_cancellation example_clock) with
    (r := example_request) (g := example_generation) (o := 100) (w0 := example_begun) (cs := []).
  - intros o H. exact H.
  - intros o H. exact H.
  - exact example_begins.
  - apply runs_nil.
  - exact I.
Defined.
