(* ===== verification/Credential.v ===== *)
(** * Credential generations

    [sdk/src/session/credential_context.cpp].  A [CredentialContext] owns an
    authority object with the generation that is current, if any; a
    [CredentialToken] has a weak reference to the authority and the generation
    it was issued for.  The shared objects are entries of a store: an authority
    is a key, present while the context owns it, and a generation has a number
    no other object has.  Every operation runs under the authority's mutex, so
    the store changes one operation at a time. *)

From stdpp Require Import relations.
From S2P Require Import Prelude.

Record CredentialGeneration := { generation_id : nat; expiry : option Z }.
#[export] Instance CredentialGeneration_eq_dec : EqDecision CredentialGeneration.
Proof. solve_decision. Defined.

(** [authorities !! a = Some None] is an authority without a current generation. *)
Record Store := { authorities : gmap nat (option CredentialGeneration); fresh : nat }.

Record CredentialToken := { authority_ : nat; generation_ : CredentialGeneration }.

Definition same_generation (t other : CredentialToken) : bool :=
  bool_decide (generation_id (generation_ t) = generation_id (generation_ other)) &&
  bool_decide (authority_ t = authority_ other).

Definition unexpired (g : CredentialGeneration) (now : Z) : bool :=
  match expiry g with None => true | Some e => now <? e end.

(** [is_current], with the time it reads once it has the lock. *)
Definition is_current_at (st : Store) (t : CredentialToken) (now : Z) : bool :=
  match authorities st !! authority_ t with
  | None => false
  | Some None => false
  | Some (Some g) => bool_decide (generation_id g = generation_id (generation_ t)) &&
                     unexpired (generation_ t) now
  end.

Definition set_current (a : nat) (g : option CredentialGeneration) (st : Store) : Store :=
  {| authorities := <[a := g]> (authorities st); fresh := fresh st |}.

Definition create_context (st : Store) : nat * Store :=
  (fresh st, {| authorities := <[fresh st := None]> (authorities st); fresh := S (fresh st) |}).

(** [None] is an exception: the context is moved from, or the generation
    cannot be allocated, after the old one was dropped. *)
Definition publish_authenticated (a : nat) (e : option Z) (allocates : bool) (st : Store)
    : Store * option CredentialToken :=
  match authorities st !! a with
  | None => (st, None)
  | Some _ =>
      let st := set_current a None st in
      if negb allocates then (st, None)
      else
        let g := {| generation_id := fresh st; expiry := e |} in
        ({| authorities := <[a := Some g]> (authorities st); fresh := S (fresh st) |},
         Some {| authority_ := a; generation_ := g |})
  end.

Definition current_token (a : nat) (now : Z) (st : Store) : option CredentialToken :=
  match authorities st !! a with
  | Some (Some g) =>
      if match expiry g with Some e => e <=? now | None => false end then None
      else Some {| authority_ := a; generation_ := g |}
  | _ => None
  end.

Definition revoke (a : nat) (st : Store) : Store :=
  match authorities st !! a with
  | None => st
  | Some _ => set_current a None st
  end.

(** The destructor: the authority goes with its context. *)
Definition destroy (a : nat) (st : Store) : Store :=
  {| authorities := delete a (authorities (revoke a st)); fresh := fresh st |}.

(** ** Tokens over time *)

Inductive credential_step : Store -> Store -> Prop :=
| step_create st : credential_step st (create_context st).2
| step_publish st a e allocates : credential_step st (publish_authenticated a e allocates st).1
| step_revoke st a : credential_step st (revoke a st)
| step_destroy st a : credential_step st (destroy a st).

(** Every number in use is below the next one. *)
Definition store_ok (st : Store) : Prop :=
  forall a o, authorities st !! a = Some o ->
    (a < fresh st)%nat /\ forall g, o = Some g -> (generation_id g < fresh st)%nat.

(** A token that was issued and whose generation is not its authority's
    current one. *)
Definition issued (t : CredentialToken) (st : Store) : Prop :=
  (authority_ t < fresh st)%nat /\ (generation_id (generation_ t) < fresh st)%nat.
Definition stale (t : CredentialToken) (st : Store) : Prop :=
  issued t st /\ forall g, authorities st !! authority_ t = Some (Some g) ->
                           generation_id g <> generation_id (generation_ t).

Lemma stale_not_current t st now : stale t st -> is_current_at st t now = false.
Proof.
  intros [_ H]. unfold is_current_at. destruct (authorities st !! _) as [[g|]|] eqn:E; try done.
  by rewrite bool_decide_false by (by apply H).
Qed.

Lemma store_ok_set a o st : store_ok st -> (a < fresh st)%nat ->
  (forall g, o = Some g -> (generation_id g < fresh st)%nat) -> store_ok (set_current a o st).
Proof.
  intros H Ha Hg b o'. cbn. destruct (decide (a = b)) as [->|].
  - rewrite lookup_insert_eq. intros [= <-]. done.
  - rewrite lookup_insert_ne by done. apply H.
Qed.

Lemma credential_step_ok st st' : store_ok st -> credential_step st st' ->
  store_ok st' /\ (fresh st <= fresh st')%nat /\ forall t, stale t st -> stale t st'.
Proof.
  intros Hok Hs. assert (forall a, authorities st !! a = None \/ (a < fresh st)%nat) as Hdom.
  { intros a. destruct (authorities st !! a) eqn:E; [|by left]. right. by apply (Hok a o). }
  destruct Hs as [st|st a e allocates|st a|st a].
  - cbn. split_and!; [|lia|].
    + intros a o. cbn. destruct (decide (fresh st = a)) as [<-|].
      * rewrite lookup_insert_eq. intros [= <-]. split; [lia|done].
      * rewrite lookup_insert_ne by done. intros [? Hg]%Hok. split; [lia|]. intros g ->. specialize (Hg g eq_refl). lia.
    + intros t [[Ha Hg] Hs]. split; [split; cbn; lia|]. cbn. intros g.
      rewrite lookup_insert_ne by lia. apply Hs.
  - unfold publish_authenticated. destruct (authorities st !! a) as [o|] eqn:Ea; [|done].
    apply Hok in Ea as [Hlt _]. destruct allocates; cbn [negb fst].
    + split_and!; [|cbn; lia|].
      * intros b o'. cbn. destruct (decide (a = b)) as [<-|].
        -- rewrite lookup_insert_eq. intros [= <-]. split; [lia|]. intros g [= <-]. cbn. lia.
        -- rewrite !lookup_insert_ne by done. intros [? Hg]%Hok. split; [lia|].
           intros g ->. specialize (Hg g eq_refl). lia.
      * intros t [[Ha Hg] Hs]. split; [split; cbn; lia|]. cbn. intros g.
        destruct (decide (a = authority_ t)) as [<-|].
        -- rewrite lookup_insert_eq. intros [= <-]. cbn. lia.
        -- rewrite !lookup_insert_ne by done. apply Hs.
    + split_and!; [by apply store_ok_set|done|]. intros t [Hi Hs]. split; [done|]. cbn. intros g.
      destruct (decide (a = authority_ t)) as [<-|]; [by rewrite lookup_insert_eq|].
      rewrite lookup_insert_ne by done. apply Hs.
  - unfold revoke. destruct (authorities st !! a) as [o|] eqn:Ea; [|done]. apply Hok in Ea as [Hlt _].
    split_and!; [by apply store_ok_set|done|]. intros t [Hi Hs]. split; [done|]. cbn. intros g.
    destruct (decide (a = authority_ t)) as [<-|]; [by rewrite lookup_insert_eq|].
    rewrite lookup_insert_ne by done. apply Hs.
  - assert (forall b, authorities (destroy a st) !! b = if decide (a = b) then None else authorities st !! b) as Hd.
    { intros b. unfold destroy, revoke. cbn. destruct (decide (a = b)) as [<-|].
      - by rewrite lookup_delete_eq.
      - rewrite lookup_delete_ne by done. destruct (authorities st !! a); [|done]. cbn. by rewrite lookup_insert_ne. }
    split_and!; [|done|].
    + intros b o. rewrite Hd. case_decide; [done|]. apply Hok.
    + intros t [Hi Hs]. split; [done|]. intros g. rewrite Hd. case_decide; [done|]. apply Hs.
Qed.

Lemma credential_run_ok st st' : store_ok st -> rtc credential_step st st' ->
  store_ok st' /\ (fresh st <= fresh st')%nat /\ forall t, stale t st -> stale t st'.
Proof.
  intros Hok Hr. induction Hr as [|st st1 st2 H1 _ IH]; [done|].
  destruct (credential_step_ok _ _ Hok H1) as (H & ? & ?). destruct (IH H) as (? & ? & ?).
  split_and!; [done|lia|auto].
Qed.

(** An attempt to publish, failed or not, makes every token issued so far for
    that authority stale. *)
Lemma publish_stales a e allocates st t : store_ok st -> issued t st -> authority_ t = a ->
  is_Some (authorities st !! a) -> stale t (publish_authenticated a e allocates st).1.
Proof.
  intros Hok [Ha Hg] <- [o Ho]. unfold publish_authenticated. rewrite Ho. destruct allocates; cbn.
  - split; [split; cbn; lia|]. cbn. intros g. rewrite lookup_insert_eq. intros [= <-]. cbn. lia.
  - split; [done|]. cbn. intros g. by rewrite lookup_insert_eq.
Qed.

Lemma revoke_stales a st t : issued t st -> authority_ t = a ->
  stale t (revoke a st) /\ stale t (destroy a st).
Proof.
  intros Hi <-. unfold destroy, revoke. destruct (authorities st !! authority_ t) as [o|] eqn:Ho; cbn.
  - split; (split; [done|]); cbn; intros g; [by rewrite lookup_insert_eq|by rewrite lookup_delete_eq].
  - split; (split; [done|]); cbn; intros g; [by rewrite Ho|by rewrite lookup_delete_eq].
Qed.

(** A rotation is final: once a new generation was published, or its
    publication failed, or the context was revoked or destroyed, no token
    issued before for that authority is current at any later time, whatever
    else happens.  The token a publication returns is current until its
    expiry. *)
Theorem rotation_is_final (st st1 st' : Store) (a : nat) (e : option Z) (allocates : bool) :
  store_ok st -> is_Some (authorities st !! a) ->
  st1 = (publish_authenticated a e allocates st).1 \/ st1 = revoke a st \/ st1 = destroy a st ->
  rtc credential_step st1 st' ->
  (forall t now, issued t st -> authority_ t = a -> is_current_at st' t now = false) /\
  (forall t now, (publish_authenticated a e allocates st).2 = Some t ->
     is_current_at (publish_authenticated a e allocates st).1 t now = unexpired (generation_ t) now).
Proof.
  intros Hok Ha Hst Hr. split.
  - intros t now Hi Ht. apply stale_not_current.
    assert (store_ok st1 /\ stale t st1) as [Hok1 Hs].
    { destruct Hst as [-> | [-> | ->]].
      - split; [eapply credential_step_ok; [done|constructor]|by apply publish_stales].
      - split; [eapply credential_step_ok; [done|constructor]|by apply revoke_stales].
      - split; [eapply credential_step_ok; [done|constructor]|by apply revoke_stales]. }
    destruct (credential_run_ok _ _ Hok1 Hr) as (_ & _ & H). by apply H.
  - intros t now. unfold publish_authenticated. destruct Ha as [o ->]. destruct allocates; [|done]. cbn.
    intros [= <-]. unfold is_current_at. cbn. by rewrite lookup_insert_eq, bool_decide_true by done.
Qed.

Definition example_store : Store :=
  {| authorities := {[ 0%nat := Some {| generation_id := 1; expiry := None |} ]}; fresh := 2 |}.
Definition example_token : CredentialToken :=
  {| authority_ := 0; generation_ := {| generation_id := 1; expiry := None |} |}.

Lemma rotation_is_final_witness :
  is_current_at example_store example_token 5 = true /\
  is_current_at (publish_authenticated 0 None false example_store).1 example_token 5 = false.
Proof.
  split; [reflexivity|].
  destruct (rotation_is_final example_store (publish_authenticated 0 None false example_store).1
    (publish_authenticated 0 None false example_store).1 0 None false) as [H _].
  - intros a o. cbn. rewrite lookup_singleton_Some. intros [<- <-]. split; [lia|]. intros g [= <-]. cbn. lia.
  - eexists. reflexivity.
  - by left.
  - apply rtc_refl.
  - apply H; [split; cbn; lia|reflexivity].
Defined.
