(* ===== verification/SessionOwner.v ===== *)
(** * One physical session, its owner and its borrower

    [sdk/src/session/session_owner.cpp].  A [SessionOwner] adopts a physical
    session and lends it to one [SessionLease] at a time; the two share an
    ownership state behind a mutex.  The lease runs operations on the session,
    may return it for reuse after a reset, and otherwise retires it.

    The physical session and the clock are code of other components: they are
    arguments, functions on an environment [E].  A call of the session runs
    without the mutex, so its answer comes with the operations other threads
    perform on the owner and on its credentials meanwhile.  Everything under
    one lock is one step of the model.  An allocation always succeeds. *)

From stdpp Require Import relations.
From S2P Require Import Prelude Backend Credential.

Record SessionReusePolicy := { retire_at : Z; max_idle : Z }.

(** ** The shared state *)

Record Ownership := {
  session : option nat; credential : option CredentialToken; authentication : option nat;
  cache_generation : option nat; reuse_policy : option SessionReusePolicy; idle_since : Z;
  accepting : bool; leased : bool }.

Definition lifetime_expired (o : Ownership) (sample : Z) : bool :=
  match reuse_policy o with Some p => retire_at p <=? sample | None => false end.

Definition idle_expired (o : Ownership) (sample : Z) : bool :=
  match reuse_policy o with
  | Some p => negb (leased o) && (idle_since o <=? sample) && (max_idle p <=? sample - idle_since o)
  | None => false
  end.

(** The owner's pointer to the shared state, the leases that point to it by
    their borrow identities, the numbers given out so far and the physical
    sessions that were disconnected. *)
Record World (E : Type) := {
  store : Store; own : Ownership; owner : bool; leases : list nat;
  next : nat; disconnected : list nat; env : E }.
Arguments store {E} _.
Arguments own {E} _.
Arguments owner {E} _.
Arguments leases {E} _.
Arguments next {E} _.
Arguments disconnected {E} _.
Arguments env {E} _.

Inductive Answer (A : Type) := Returned (a : A) | ThrewBadAlloc | ThrewOther.
Arguments Returned {A} a.
Arguments ThrewBadAlloc {A}.
Arguments ThrewOther {A}.

(** What other threads do during a call of the session. *)
Inductive Event :=
| OwnerCloses | OwnerRevokes
| CredentialPublished (a : nat) (e : option Z) (allocates : bool) | CredentialRevoked (a : nat)
| OwnerAcquires (token : option CredentialToken).

Record BackendAnswer := { code : option DbErrorCode; outcome : SessionSnapshot }.

(** [Rethrown] is an exception that leaves the operation. *)
Inductive Result (A : Type) := Success (a : A) | Failure (c : DbErrorCode) | Rethrown (bad_alloc : bool).
Arguments Success {A} a.
Arguments Failure {A} c.
Arguments Rethrown {A} bad_alloc.

Create HintDb keeps.
Create HintDb grows.

Section Session.
Context {E : Type}.
Context (now : E -> Z * E) (disconnect : E -> E).

Definition W (A : Type) : Type := World E -> World E * A.
#[local] Instance W_ret : MRet W := fun A a w => (w, a).
#[local] Instance W_bind : MBind W := fun A B f m w => let '(w, a) := m w in f a w.

Definition update (f : Ownership -> Ownership) : W unit := fun w =>
  ({| store := store w; own := f (own w); owner := owner w; leases := leases w; next := next w;
      disconnected := disconnected w; env := env w |}, tt).
Definition ask : W (World E) := fun w => (w, w).

(** [Clock::now()] and the state's own clock. *)
Definition read_clock : W Z := fun w =>
  let '(t, e) := now (env w) in
  ({| store := store w; own := own w; owner := owner w; leases := leases w; next := next w;
      disconnected := disconnected w; env := e |}, t).

Definition is_current (t : CredentialToken) : W bool :=
  sample ← read_clock; w ← ask; mret (is_current_at (store w) t sample).

Definition retire_session (s : option nat) : W unit := fun w =>
  match s with
  | None => (w, tt)
  | Some p =>
      ({| store := store w; own := own w; owner := owner w; leases := leases w; next := next w;
          disconnected := disconnected w ++ [p]; env := disconnect (env w) |}, tt)
  end.

(** The state with admission closed and no cache scope; the session stays with
    a borrower and leaves otherwise. *)
Definition closed (o : Ownership) : Ownership :=
  {| session := if leased o then session o else None; credential := credential o;
     authentication := authentication o; cache_generation := None; reuse_policy := reuse_policy o;
     idle_since := idle_since o; accepting := false; leased := leased o |}.
Definition leaving (o : Ownership) : option nat := if leased o then None else session o.

Definition set_store (f : Store -> Store) : W unit := fun w =>
  ({| store := f (store w); own := own w; owner := owner w; leases := leases w; next := next w;
      disconnected := disconnected w; env := env w |}, tt).
Definition revoke_managed (o : Ownership) : W unit :=
  match authentication o with Some a => set_store (revoke a) | None => mret tt end.

(** ** The owner *)

Definition close : W unit :=
  w ← ask;
  if negb (owner w) then mret tt
  else
    (fun w => ({| store := store w; own := own w; owner := false; leases := leases w; next := next w;
                  disconnected := disconnected w; env := env w |}, tt)) ≫= fun _ =>
    revoke_managed (own w) ≫= fun _ =>
    update closed ≫= fun _ =>
    retire_session (leaving (own w)).

Definition revoke_credentials : W unit :=
  w ← ask;
  if negb (owner w) then mret tt
  else
    match authentication (own w) with
    | None => mret tt
    | Some a =>
        set_store (revoke a) ≫= fun _ =>
        update closed ≫= fun _ => retire_session (leaving (own w))
    end.

Definition set_leased (o : Ownership) : Ownership :=
  {| session := session o; credential := credential o; authentication := authentication o;
     cache_generation := cache_generation o; reuse_policy := reuse_policy o; idle_since := idle_since o;
     accepting := accepting o; leased := true |}.

(** The new lease with its identity. *)
Definition grant : W (option nat) := fun w =>
  ({| store := store w; own := set_leased (own w); owner := owner w; leases := leases w ++ [next w];
      next := S (next w); disconnected := disconnected w; env := env w |}, Some (next w)).

Definition expire : W (option nat) :=
  w ← ask; update closed ≫= fun _ => retire_session (leaving (own w)) ≫= fun _ => mret None.

Definition try_acquire (token : option CredentialToken) : W (option nat) :=
  w ← ask;
  if negb (owner w) then mret None
  else if negb (accepting (own w)) || negb (bool_decide (is_Some (session (own w)))) then mret None
  else
    match credential (own w), token with
    | Some c, None => mret None
    | Some c, Some t =>
        if negb (same_generation c t) then mret None
        else
          current ← is_current c;
          if negb current then expire
          else
            sample ← read_clock;
            if lifetime_expired (own w) sample then expire
            else
              sample ← read_clock;
              if idle_expired (own w) sample then expire
              else if negb (leased (own w)) then grant else mret None
    | None, None => if negb (leased (own w)) then grant else mret None
    | None, Some _ => mret None
    end.

(** ** Calls of the physical session *)

Definition perform (e : Event) : W unit :=
  match e with
  | OwnerCloses => close
  | OwnerRevokes => revoke_credentials
  | CredentialPublished a x allocates => set_store (fun st => (publish_authenticated a x allocates st).1)
  | CredentialRevoked a => set_store (revoke a)
  | OwnerAcquires token => try_acquire token ≫= fun _ => mret tt
  end.

Fixpoint performs (es : list Event) : W unit :=
  match es with [] => mret tt | e :: es => perform e ≫= fun _ => performs es end.

Abbreviation Call A := (E -> Answer A * list Event * E).

Definition call {A} (f : Call A) : W (Answer A) := fun w =>
  let '(a, es, e) := f (env w) in
  let '(w, _) := performs es {| store := store w; own := own w; owner := owner w; leases := leases w;
                                next := next w; disconnected := disconnected w; env := e |} in
  (w, a).

Context (session_reset reset_profile session_health is_connected : Call bool).
Context (session_state : Call SessionState).
Context (reset check_health : Z -> Call BackendAnswer).

(** ** The borrower *)

Section Borrower.
(** The lease that performs the operation. *)
Context (b : nat).

Definition attached (w : World E) : bool := bool_decide (b ∈ leases w).

Definition physical_session : W (option nat) :=
  w ← ask; mret (if attached w then session (own w) else None).

(** [SessionLease::retire]. *)
Definition retire_lease : W unit :=
  w ← ask;
  if negb (attached w) then mret tt
  else
      (fun w => ({| store := store w;
                    own := {| session := None; credential := credential (own w);
                              authentication := authentication (own w); cache_generation := None;
                              reuse_policy := reuse_policy (own w); idle_since := idle_since (own w);
                              accepting := false; leased := false |};
                    owner := owner w; leases := List.filter (fun c => negb (Nat.eqb b c)) (leases w);
                    next := next w; disconnected := disconnected w; env := env w |}, tt)) ≫= fun _ =>
      retire_session (session (own w)).

Definition drop_cache (stop : bool) (o : Ownership) : Ownership :=
  {| session := session o; credential := credential o; authentication := authentication o;
     cache_generation := None; reuse_policy := reuse_policy o; idle_since := idle_since o;
     accepting := accepting o && negb stop; leased := leased o |}.

Definition invalidate_cache : W unit :=
  w ← ask;
  if negb (attached w) then mret tt
  else sample ← read_clock; update (drop_cache (lifetime_expired (own w) sample)).

Definition fail {A} (c : DbErrorCode) : W (Result A) := retire_lease ≫= fun _ => mret (Failure c).

(** The rest of a [try] block after a call, and its handlers. *)
Definition caught {A B} (a : Answer A) (k : A -> W (Result B)) : W (Result B) :=
  match a with
  | Returned x => k x
  | ThrewBadAlloc => fail AllocationFailure
  | ThrewOther => fail ProtocolError
  end.

(** [snapshot != Idle/Reusable || !is_connected() || session_state() != Idle]. *)
Definition consistent {B} (s : SessionSnapshot) (k : W (Result B)) : W (Result B) :=
  if negb (bool_decide (s = idle_reusable)) then fail ProtocolError
  else
    connected ← call is_connected;
    caught connected (fun connected : bool =>
      if negb connected then fail ProtocolError
      else
        st ← call session_state;
        caught st (fun st => if negb (bool_decide (st = Idle)) then fail ProtocolError else k)).

Definition reset_session (deadline : Z) : W (Result SessionSnapshot) :=
  invalidate_cache ≫= fun _ =>
  physical ← physical_session;
  match physical with
  | None => fail NotConnected
  | Some _ =>
      sample ← read_clock;
      if deadline <=? sample then fail Timeout
      else
        facet ← call session_reset;
        caught facet (fun facet : bool =>
          if negb facet then fail UnsupportedFeature
          else
            profile ← call reset_profile;
            caught profile (fun profile : bool =>
              if negb profile then fail UnsupportedFeature
              else
                result ← call (reset deadline);
                caught result (fun result =>
                  match code result with
                  | Some c => fail c
                  | None =>
                      consistent (outcome result)
                        (sample ← read_clock;
                         if deadline <=? sample then fail Timeout
                         else mret (Success (outcome result)))
                  end)))
  end.

(** [state->credential && state->credential->is_current()]. *)
Definition credential_current : W bool :=
  w ← ask;
  match credential (own w) with None => mret false | Some c => is_current c end.

Definition set_idle (t : Z) (o : Ownership) : Ownership :=
  {| session := session o; credential := credential o; authentication := authentication o;
     cache_generation := None; reuse_policy := reuse_policy o; idle_since := t;
     accepting := accepting o; leased := false |}.

(** The publication of the returned session: the lease is consumed. *)
Definition give_back (t : Z) : W unit := fun w =>
  ({| store := store w; own := set_idle t (own w); owner := owner w;
      leases := List.filter (fun c => negb (Nat.eqb b c)) (leases w); next := next w;
      disconnected := disconnected w; env := env w |}, tt).

Definition held (o : Ownership) (physical : option nat) : bool :=
  accepting o && leased o && bool_decide (session o = physical).

Definition return_reusable (deadline : Z) : W (Result SessionSnapshot) :=
  invalidate_cache ≫= fun _ =>
  w ← ask;
  if negb (attached w) then fail NotConnected
  else
    sample ← read_clock;
    let expired := lifetime_expired (own w) sample in
    eligible ← (if accepting (own w) && leased (own w) && bool_decide (is_Some (session (own w)))
                then credential_current else mret false);
    if negb (eligible && negb expired) then fail (if expired then Timeout else AuthenticationFailed)
    else
      result ← reset_session deadline;
      match result with
      | Success snapshot =>
          sample ← read_clock;
          clock ← read_clock;
          w' ← ask;
          let expired := (deadline <=? clock) || lifetime_expired (own w') sample in
          eligible ← (if negb expired && attached w' && held (own w') (session (own w))
                      then credential_current else mret false);
          if eligible : bool then give_back sample ≫= fun _ => mret (Success snapshot)
          else fail (if expired then Timeout else AuthenticationFailed)
      | failed => mret failed
      end.

(** [admitted()] and the last check of [acquire_healthy]. *)
Definition admitted (physical : option nat) (deadline : Z) : W (bool * bool) :=
  current ← credential_current;
  clock ← read_clock;
  w ← ask;
  expired ← (if deadline <=? clock then mret true
             else sample ← read_clock; mret (lifetime_expired (own w) sample));
  mret (negb expired && held (own w) physical && current, expired).

(** What [acquire_healthy] does with the lease it was granted. *)
Definition probe (deadline : Z) : W (Result SessionSnapshot) :=
  physical ← physical_session;
  invalidate_cache ≫= fun _ =>
  '(eligible, expired) ← admitted physical deadline;
  if negb eligible then fail (if expired : bool then Timeout else AuthenticationFailed)
  else
    health ← call session_health;
    caught health (fun health : bool =>
      if negb health then fail UnsupportedFeature
      else
        result ← call (check_health deadline);
        caught result (fun result =>
          match code result with
          | Some c => fail c
          | None =>
              consistent (outcome result)
                ('(eligible, expired) ← admitted physical deadline;
                 update (drop_cache false) ≫= fun _ =>
                 if negb eligible then fail (if expired : bool then Timeout else AuthenticationFailed)
                 else mret (Success (outcome result)))
          end)).

(** ** Cache scopes *)

Definition stop_admission : W unit := update (drop_cache true).

(** [!is_current() || lifetime_expired(now())]. *)
Definition credential_lapsed (c : CredentialToken) : W bool :=
  current ← is_current c;
  if negb current then mret true
  else sample ← read_clock; w ← ask; mret (lifetime_expired (own w) sample).

(** The weak pointer of a token locks while its generation is the state's. *)
Definition cache_current (generation : nat) : W bool :=
  w ← ask;
  if negb (accepting (own w)) || negb (leased (own w)) || negb (bool_decide (is_Some (session (own w)))) ||
     negb (bool_decide (cache_generation (own w) = Some generation))
  then mret false
  else
    match credential (own w) with
    | None => mret false
    | Some c =>
        lapsed ← credential_lapsed c;
        if lapsed : bool then stop_admission ≫= fun _ => mret false else mret true
    end.

Definition accepts_cache (generation : nat) : W bool :=
  w ← ask;
  if negb (attached w) then mret false else cache_current generation.

Definition set_cache : W (option nat) := fun w =>
  match cache_generation (own w) with
  | Some g => (w, Some g)
  | None =>
      ({| store := store w;
          own := {| session := session (own w); credential := credential (own w);
                    authentication := authentication (own w); cache_generation := Some (next w);
                    reuse_policy := reuse_policy (own w); idle_since := idle_since (own w);
                    accepting := accepting (own w); leased := leased (own w) |};
          owner := owner w; leases := leases w; next := S (next w);
          disconnected := disconnected w; env := env w |}, Some (next w))
  end.

Definition cache_token : W (option nat) :=
  w ← ask;
  match attached w, credential (own w) with
  | true, Some c =>
      if negb (accepting (own w)) || negb (leased (own w)) || negb (bool_decide (is_Some (session (own w))))
      then mret None
      else
        lapsed ← credential_lapsed c;
        if lapsed : bool then stop_admission ≫= fun _ => mret None
        else
          connected ← call is_connected;
          idle ← match connected with
                 | Returned true =>
                     st ← call session_state;
                     mret match st with Returned st => Some (bool_decide (st = Idle)) | _ => None end
                 | Returned false => mret (Some false)
                 | _ => mret None
                 end;
          match idle with
          | None => invalidate_cache ≫= fun _ => mret None
          | Some idle =>
              w' ← ask;
              if negb idle || negb (held (own w') (session (own w))) then
                update (drop_cache false) ≫= fun _ => mret None
              else
                lapsed ← credential_lapsed c;
                if lapsed : bool then stop_admission ≫= fun _ => mret None else set_cache
          end
  | _, _ => mret None
  end.

(** ** Operations of the borrower *)

(** The request runs on the borrowed session; [snapshot_of] is the result's
    [session_snapshot()]. *)
Definition invoke_borrowed {A} (snapshot_of : A -> SessionSnapshot) (request : W (Answer A)) : W (Result A) :=
  physical ← physical_session;
  match physical with
  | None => mret (Failure NotConnected)
  | Some _ =>
      result ← request;
      match result with
      | Returned result =>
          (if bool_decide (disposition (snapshot_of result) = Retire) then retire_lease else mret tt) ≫= fun _ =>
          mret (Success result)
      | ThrewBadAlloc => retire_lease ≫= fun _ => mret (Rethrown true)
      | ThrewOther => retire_lease ≫= fun _ => mret (Rethrown false)
      end
  end.

(** [execute_query] and [execute_prepared]: the cache scope ends first. *)
Definition execute (request : Call BackendAnswer) : W (Result BackendAnswer) :=
  invalidate_cache ≫= fun _ => invoke_borrowed outcome (call request).

End Borrower.

(** ** Checked admission *)

(** The lease that is handed out, or the error. *)
Definition acquire_healthy (token : CredentialToken) (deadline : Z) : W (Result nat) :=
  granted ← try_acquire (Some token);
  match granted with
  | None => mret (Failure AuthenticationFailed)
  | Some b =>
      result ← probe b deadline;
      mret match result with
           | Success _ => Success b
           | Failure c => Failure c
           | Rethrown x => Rethrown x
           end
  end.

(** [acquire_healthy] of an owner that manages its own credentials. *)
Definition acquire_managed (deadline : Z) : W (Result nat) :=
  w ← ask;
  match owner w, authentication (own w), credential (own w) with
  | true, Some _, Some token => acquire_healthy token deadline
  | _, _, _ => mret (Failure AuthenticationFailed)
  end.

(** ** Adoption *)

(** What is there before an owner: the credentials and the environment. *)
Record Outside := { o_store : Store; o_env : E }.

Definition deadline_max : Z := 2 ^ 63 - 1.

(** A call before the owner exists: nobody else can reach the session. *)
Definition fresh_call {A} (f : Call A) (o : Outside) : Outside * Answer A :=
  let '(a, _, e) := f (o_env o) in ({| o_store := o_store o; o_env := e |}, a).

Context (connect : Call BackendAnswer).

(** [connect_authenticated_impl]: the owner, or the error with the physical
    session disconnected. *)
Section Connect.
Context (p : nat) (policy : SessionReusePolicy) (credential_expiry : option Z) (deadline : Z).

Definition expired (o : Outside) : Outside * bool :=
  let '(t, e) := now (o_env o) in
  ({| o_store := o_store o; o_env := e |},
   (deadline <=? t) || (retire_at policy <=? t) ||
   match credential_expiry with Some x => x <=? t | None => false end).

(** The guard's destructor. *)
Definition refuse (o : Outside) (c : DbErrorCode) : Outside * list nat * (World E + DbErrorCode) :=
  ({| o_store := o_store o; o_env := disconnect (o_env o) |}, [p], inr c).

Definition attempt {A} (r : Outside * Answer A)
    (k : Outside -> A -> Outside * list nat * (World E + DbErrorCode)) :=
  match r with
  | (o, Returned a) => k o a
  | (o, ThrewBadAlloc) => refuse o AllocationFailure
  | (o, ThrewOther) => refuse o ProtocolError
  end.

(** Publication of the credential and construction of the owner. *)
Definition adopt (o : Outside) : Outside * list nat * (World E + DbErrorCode) :=
  let '(a, st) := create_context (o_store o) in
  match publish_authenticated a credential_expiry true st with
  | (st, None) => refuse {| o_store := destroy a st; o_env := o_env o |} AllocationFailure
  | (st, Some token) =>
      let '(o, late) := expired {| o_store := st; o_env := o_env o |} in
      let '(t, e) := now (o_env o) in
      if late then refuse {| o_store := destroy a (o_store o); o_env := o_env o |} Timeout
      else if negb (is_current_at (o_store o) token t)
      then refuse {| o_store := destroy a (o_store o); o_env := e |} Timeout
      else
        let '(t, e) := now e in
        let w := {| store := o_store o;
                    own := {| session := Some p; credential := Some token; authentication := Some a;
                              cache_generation := None; reuse_policy := Some policy; idle_since := t;
                              accepting := true; leased := false |};
                    owner := true; leases := []; next := 0; disconnected := []; env := e |} in
        let '(o, late) := expired {| o_store := o_store o; o_env := e |} in
        if late then refuse {| o_store := destroy a (o_store o); o_env := o_env o |} Timeout
        else (o, [], inl {| store := o_store o; own := own w; owner := owner w; leases := leases w;
                            next := next w; disconnected := disconnected w; env := o_env o |})
  end.

Definition connect_authenticated (o : Outside) : Outside * list nat * (World E + DbErrorCode) :=
  if (retire_at policy =? deadline_max) || (max_idle policy <=? 0) then refuse o InvalidParameter
  else
    let '(o, late) := expired o in
    if late then refuse o Timeout
    else
      attempt (fresh_call is_connected o) (fun o (connected : bool) =>
        if connected then refuse o InvalidParameter
        else
          attempt (fresh_call session_state o) (fun o st =>
            if negb (bool_decide (st = Disconnected)) then refuse o InvalidParameter
            else
              attempt (fresh_call connect o) (fun o r =>
                match code r with
                | Some c => refuse o c
                | None =>
                    if negb (bool_decide (outcome r = idle_reusable)) then refuse o ProtocolError
                    else
                      attempt (fresh_call is_connected o) (fun o (connected : bool) =>
                        if negb connected then refuse o ProtocolError
                        else
                          attempt (fresh_call session_state o) (fun o st =>
                            if negb (bool_decide (st = Idle)) then refuse o ProtocolError
                            else
                              let '(o, late) := expired o in
                              if late then refuse o Timeout else adopt o))
                end))).
End Connect.

(** ** What owner and borrowers can do *)

Inductive Op :=
| OClose | ORevoke | OAcquire (token : option CredentialToken)
| OAcquireHealthy (token : CredentialToken) (deadline : Z) | OAcquireManaged (deadline : Z)
| OEvent (e : Event)
| LRetire (b : nat) | LReset (b : nat) (deadline : Z) | LReturn (b : nat) (deadline : Z)
| LExecute (b : nat) (request : Call BackendAnswer) | LInvoke (b : nat) (request : Call BackendAnswer)
| LCacheToken (b : nat) | LAcceptsCache (b g : nat) | TIsCurrent (g : nat).

Definition void {A} (m : W A) : W unit := m ≫= fun _ => mret tt.

Definition exec (op : Op) : W unit :=
  match op with
  | OClose => close
  | ORevoke => revoke_credentials
  | OAcquire token => void (try_acquire token)
  | OAcquireHealthy token deadline => void (acquire_healthy token deadline)
  | OAcquireManaged deadline => void (acquire_managed deadline)
  | OEvent e => perform e
  | LRetire b => retire_lease b
  | LReset b deadline => void (reset_session b deadline)
  | LReturn b deadline => void (return_reusable b deadline)
  | LExecute b request => void (execute b request)
  | LInvoke b request => void (invoke_borrowed b outcome (call request))
  | LCacheToken b => void (cache_token b)
  | LAcceptsCache b g => void (accepts_cache b g)
  | TIsCurrent g => void (cache_current g)
  end.

Inductive reaches : World E -> World E -> Prop :=
| reaches_refl w : reaches w w
| reaches_step w w' op : reaches w w' -> reaches w (exec op w').1
| reaches_env w w' e : reaches w w' ->
    reaches w {| store := store w'; own := own w'; owner := owner w'; leases := leases w'; next := next w';
                 disconnected := disconnected w'; env := e |}.

(** ** The invariant of the shared state

    [p] is the adopted physical session. *)

Record own_ok (p : nat) (w : World E) : Prop := {
  ok_leases : match leases w with
              | [] => leased (own w) = false
              | [b] => leased (own w) = true /\ (b < next w)%nat
              | _ => False
              end;
  ok_session : match session (own w) with
               | Some q => q = p /\ disconnected w = []
               | None => disconnected w = [p] /\ accepting (own w) = false /\ leased (own w) = false
               end;
  ok_owner : owner w = false -> accepting (own w) = false /\ (leased (own w) = false -> session (own w) = None);
  ok_cache : forall g, cache_generation (own w) = Some g ->
               leased (own w) = true /\ accepting (own w) = true /\ (g < next w)%nat }.

(** What only ever goes one way. *)
Record later (w w' : World E) : Prop := {
  lt_accepting : accepting (own w') = true -> accepting (own w) = true;
  lt_owner : owner w' = true -> owner w = true;
  lt_next : (next w <= next w')%nat;
  lt_cache : forall g, cache_generation (own w') = Some g -> cache_generation (own w) = Some g \/ (next w <= g)%nat;
  lt_leases : forall b, b ∈ leases w' -> b ∈ leases w \/ (next w <= b)%nat }.

#[local] Instance later_preorder : PreOrder later.
Proof.
  split; [intros w; constructor; auto|].
  intros w w' w'' [? ? ? C1 L1] [? ? ? C2 L2]. constructor; [auto|auto|lia| |].
  - intros g Hg. destruct (C2 g Hg) as [H|]; [|right; lia]. destruct (C1 g H); auto.
  - intros b Hb. destruct (L2 b Hb) as [H|]; [|right; lia]. destruct (L1 b H); auto.
Qed.

Definition keeps {A} (m : W A) : Prop := forall p w, own_ok p w -> own_ok p (m w).1 /\ later w (m w).1.

Lemma keeps_ret {A} (a : A) : keeps (mret a).
Proof. by intros p w H. Qed.

Lemma keeps_bind {A B} (m : W A) (f : A -> W B) : keeps m -> (forall a, keeps (f a)) -> keeps (m ≫= f).
Proof.
  intros Hm Hf p w H. unfold mbind, W_bind. specialize (Hm p w H). destruct (m w) as [w1 a]. cbn in Hm.
  destruct Hm as [H1 L1]. destruct (Hf a p w1 H1) as [H2 L2]. split; [done|by etrans].
Qed.

Lemma keeps_ask : keeps ask.
Proof. by intros p w H. Qed.

(** A step that changes neither the shared state nor the pointers to it. *)
Definition same (w w' : World E) : Prop :=
  own w' = own w /\ owner w' = owner w /\ leases w' = leases w /\ next w' = next w /\
  disconnected w' = disconnected w.
Definition aside {A} (m : W A) : Prop := forall w, same w (m w).1.

Lemma same_keeps p w w' : same w w' -> own_ok p w -> own_ok p w' /\ later w w'.
Proof.
  intros (E1 & E2 & E3 & E4 & E5) [Hl Hs Ho Hc].
  split; constructor; rewrite ?E1, ?E2, ?E3, ?E4, ?E5; auto.
Qed.

Lemma keeps_aside {A} (m : W A) : aside m -> keeps m.
Proof. intros Hm p w. by apply same_keeps. Qed.

Lemma aside_bind {A B} (m : W A) (f : A -> W B) : aside m -> (forall a, aside (f a)) -> aside (m ≫= f).
Proof.
  intros Hm Hf w. unfold mbind, W_bind. specialize (Hm w). destruct (m w) as [w1 a]. specialize (Hf a w1).
  destruct (f a w1). unfold same in *. cbn in *. destruct_and!. split_and!; congruence.
Qed.
Lemma aside_ret {A} (a : A) : aside (mret a).
Proof. by intros w. Qed.
Lemma aside_ask : aside ask.
Proof. by intros w. Qed.
Lemma aside_clock : aside read_clock.
Proof. intros w. unfold read_clock. by destruct (now (env w)). Qed.
Lemma aside_is_current t : aside (is_current t).
Proof. repeat (apply aside_bind; [auto using aside_clock, aside_ask|intros ?]). apply aside_ret. Qed.
Lemma aside_credential_current : aside credential_current.
Proof.
  apply aside_bind; [apply aside_ask|intros w]. case_match; [apply aside_is_current|apply aside_ret].
Qed.
Lemma aside_lapsed c : aside (credential_lapsed c).
Proof.
  apply aside_bind; [apply aside_is_current|intros []]; cbn [negb]; [|apply aside_ret].
  repeat (apply aside_bind; [auto using aside_clock, aside_ask|intros ?]). apply aside_ret.
Qed.

(** Such a step before another. *)
Lemma keeps_after {A B} (m : W A) (k : A -> W B) p w :
  own_ok p w -> aside m ->
  (forall a w', own_ok p w' -> same w w' -> own_ok p (k a w').1 /\ later w' (k a w').1) ->
  own_ok p ((m ≫= k) w).1 /\ later w ((m ≫= k) w).1.
Proof.
  intros H Hm Hk. unfold mbind, W_bind. specialize (Hm w). destruct (m w) as [w1 a]. cbn in *.
  destruct (same_keeps p w w1 Hm H) as [H1 L1]. destruct (Hk a w1 H1 Hm) as [H2 L2]. split; [done|by etrans].
Qed.

Lemma keeps_clock : keeps read_clock.
Proof. apply keeps_aside, aside_clock. Qed.
Lemma keeps_store f : keeps (set_store f).
Proof. by apply keeps_aside. Qed.
#[local] Hint Resolve keeps_ret keeps_bind keeps_ask keeps_clock keeps_store : keeps.

Lemma keeps_is_current t : keeps (is_current t).
Proof. apply keeps_aside, aside_is_current. Qed.
Lemma keeps_credential_current : keeps credential_current.
Proof. apply keeps_aside, aside_credential_current. Qed.
#[local] Hint Resolve keeps_is_current keeps_credential_current : keeps.

(** Closing admission, with the session disconnected unless it is on loan. *)
Lemma keeps_shut o' st p w : own_ok p w -> (o' = true -> owner w = true) ->
  let w' := {| store := st; own := own w; owner := o'; leases := leases w; next := next w;
               disconnected := disconnected w; env := env w |} in
  let r := ((update closed ≫= fun _ => retire_session (leaving (own w))) w').1 in
  own_ok p r /\ later w r.
Proof.
  intros [Hl Hs Ho Hc] Howner. unfold update, retire_session, leaving, mbind, W_bind, closed. cbn.
  destruct (leased (own w)) eqn:El; destruct (session (own w)) as [q|] eqn:Es; cbn.
  all: (split; [constructor|constructor]); cbn; rewrite ?El, ?Es; auto; try done.
  all: try (destruct Hs as [-> ->]); try done; intuition.
Qed.

Lemma ask_bind {A} (k : World E -> W A) w : (ask ≫= k) w = k w w.
Proof. done. Qed.

Lemma keeps_close : keeps close.
Proof.
  intros p w H. unfold close. rewrite ask_bind.
  destruct (owner w) eqn:Eo; cbn [negb]; [|by apply keeps_ret].
  unfold revoke_managed, set_store. destruct (authentication (own w)).
  - by apply (keeps_shut false _ p w).
  - by apply (keeps_shut false (store w) p w).
Qed.

Lemma keeps_revoke : keeps revoke_credentials.
Proof.
  intros p w H. unfold revoke_credentials. rewrite ask_bind.
  destruct (owner w) eqn:Eo; cbn [negb]; [|by apply keeps_ret].
  destruct (authentication (own w)) as [a|]; [|by apply keeps_ret].
  by apply (keeps_shut (owner w) (revoke a (store w)) p w).
Qed.

Lemma keeps_expire : keeps expire.
Proof.
  intros p w H. pose proof (keeps_shut (owner w) (store w) p w H (fun x => x)) as Hs.
  destruct w. cbn in *. unfold expire, ask, retire_session, mbind, W_bind in *. cbn in *.
  by destruct (leaving _).
Qed.

Lemma grant_keeps p w : own_ok p w -> leased (own w) = false -> accepting (own w) = true ->
  own_ok p (grant w).1 /\ later w (grant w).1.
Proof.
  intros [Hl Hs Ho Hc] El Ea. assert (leases w = []) as Hn.
  { destruct (leases w) as [|b [|]]; [done|destruct Hl; congruence|done]. }
  split; constructor; cbn; rewrite ?Hn; cbn.
  - split; [done|lia].
  - destruct (session (own w)); [done|]. destruct Hs as (_ & ? & _). congruence.
  - intros [? _]%Ho. congruence.
  - intros g (? & ? & ?)%Hc. congruence.
  - done.
  - done.
  - lia.
  - intros g ?. by left.
  - intros b ->%list_elem_of_singleton. right. lia.
Qed.

Lemma keeps_try_acquire token : keeps (try_acquire token).
Proof.
  intros p w H. unfold try_acquire. rewrite ask_bind.
  destruct (owner w); cbn [negb]; [|by apply keeps_ret].
  destruct (accepting (own w)) eqn:Ea; cbn [negb orb]; [|by apply keeps_ret].
  destruct (negb _); [by apply keeps_ret|].
  assert (forall w', own_ok p w' -> own w' = own w ->
    own_ok p ((if negb (leased (own w)) then grant else mret None) w').1 /\
    later w' ((if negb (leased (own w)) then grant else mret None) w').1) as Hg.
  { intros w' H' Ew. destruct (leased (own w)) eqn:El; cbn [negb]; [by apply keeps_ret|]. apply grant_keeps; congruence. }
  destruct (credential (own w)) as [c|]; destruct token as [tok|]; try (by apply keeps_ret); [|by apply Hg].
  destruct (same_generation c tok); cbn [negb]; [|by apply keeps_ret].
  apply keeps_after; [done|apply aside_is_current|]. intros [] w1 H1 [E1 _]; [|by apply keeps_expire].
  cbn [negb]. apply keeps_after; [done|apply aside_clock|]. intros s1 w2 H2 [E2 _].
  destruct (lifetime_expired _ _); [by apply keeps_expire|].
  apply keeps_after; [done|apply aside_clock|]. intros s2 w3 H3 [E3 _].
  destruct (idle_expired _ _); [by apply keeps_expire|]. apply Hg; [done|congruence].
Qed.
#[local] Hint Resolve keeps_close keeps_revoke keeps_try_acquire : keeps.

Lemma keeps_performs es : keeps (performs es).
Proof.
  induction es as [|e es IH]; cbn; [auto with keeps|]. apply keeps_bind; [|done].
  destruct e; cbn; auto with keeps.
Qed.

Lemma keeps_call {A} (f : Call A) : keeps (call f).
Proof.
  intros p w H. unfold call. destruct (f (env w)) as [[a es] e].
  set (w1 := {| store := store w; own := own w; owner := owner w; leases := leases w;
                next := next w; disconnected := disconnected w; env := e |}).
  assert (own_ok p w1 /\ later w w1) as [H1 L1].
  { apply (keeps_aside (fun w => ({| store := store w; own := own w; owner := owner w; leases := leases w;
      next := next w; disconnected := disconnected w; env := e |}, tt))); done. }
  pose proof (keeps_performs es p w1 H1) as [H2 L2]. destruct (performs es w1) as [w2 u]. cbn in *.
  split; [done|by etrans].
Qed.
#[local] Hint Resolve keeps_call : keeps.

(** *** The borrower *)

Lemma leases_sole p w b : own_ok p w -> attached b w = true ->
  leases w = [b] /\ leased (own w) = true /\ session (own w) = Some p.
Proof.
  intros [Hl Hs _ _] Hb%bool_decide_eq_true. destruct (leases w) as [|c [|]]; [by apply not_elem_of_nil in Hb| |done].
  apply list_elem_of_singleton in Hb as ->. destruct Hl as [Hl _]. split_and!; [done..|].
  destruct (session (own w)) as [q|]; [by destruct Hs as [-> _]|]. destruct Hs as (_ & _ & ?). congruence.
Qed.

Lemma retire_lease_spec p w b : own_ok p w -> attached b w = true ->
  let w' := (retire_lease b w).1 in
  leases w' = [] /\ session (own w') = None /\ accepting (own w') = false /\ leased (own w') = false /\
  cache_generation (own w') = None /\ disconnected w' = [p] /\ owner w' = owner w /\ next w' = next w.
Proof.
  intros H Hb. destruct (leases_sole _ _ _ H Hb) as (Hl & _ & Hs). destruct H as [_ Hs' _ _].
  unfold retire_lease. rewrite ask_bind, Hb. cbn [negb]. unfold mbind, W_bind, retire_session. rewrite Hs in *.
  cbn. rewrite Hl. cbn. rewrite Nat.eqb_refl. cbn. destruct Hs' as [_ ->]. done.
Qed.

Lemma keeps_retire_lease b : keeps (retire_lease b).
Proof.
  intros p w H. destruct (attached b w) eqn:Hb.
  - destruct (retire_lease_spec p w b H Hb) as (E1 & E2 & E3 & E4 & E5 & E6 & E7 & E8).
    destruct (retire_lease b w) as [w' u]. cbn in *. split; constructor; rewrite ?E1, ?E2, ?E3, ?E4, ?E5, ?E6, ?E7, ?E8; auto; try done.
    intros c Hc. by apply not_elem_of_nil in Hc.
  - unfold retire_lease. rewrite ask_bind, Hb. by apply keeps_ret.
Qed.

Lemma keeps_drop stop : keeps (update (drop_cache stop)).
Proof.
  intros p w [Hl Hs Ho Hc]. split; constructor; cbn; auto; try done.
  - destruct (session (own w)); [done|]. destruct Hs as (? & -> & ?). done.
  - intros Hw. destruct (Ho Hw) as [-> ?]. done.
  - by intros [? _]%andb_true_iff.
Qed.
#[local] Hint Resolve keeps_retire_lease keeps_drop : keeps.

Lemma keeps_invalidate b : keeps (invalidate_cache b).
Proof.
  apply keeps_bind; [auto with keeps|]. intros w. case_match; [auto with keeps|].
  apply keeps_bind; [auto with keeps|]. intros s. auto with keeps.
Qed.
Lemma keeps_fail {A} b c : keeps (fail (A := A) b c).
Proof. unfold fail. auto with keeps. Qed.
#[local] Hint Resolve keeps_invalidate keeps_fail : keeps.

Lemma keeps_caught {A B} b (a : Answer A) (k : A -> W (Result B)) : (forall x, keeps (k x)) -> keeps (caught b a k).
Proof. intros Hk. destruct a; cbn; auto with keeps. Qed.
Lemma keeps_consistent {B} b s (k : W (Result B)) : keeps k -> keeps (consistent b s k).
Proof.
  intros Hk. unfold consistent. case_match; [auto with keeps|]. apply keeps_bind; [auto with keeps|].
  intros a. apply keeps_caught. intros []; cbn [negb]; [|auto with keeps].
  apply keeps_bind; [auto with keeps|]. intros st. apply keeps_caught. intros x. by case_match; auto with keeps.
Qed.

Lemma keeps_physical b : keeps (physical_session b).
Proof. unfold physical_session. auto with keeps. Qed.
#[local] Hint Resolve keeps_physical keeps_caught keeps_consistent : keeps.

(** Proves that a computation built from these keeps the invariant. *)
Ltac keep :=
  repeat first
    [ progress auto with keeps nocore
    | apply keeps_bind; [|intros ?]
    | apply keeps_caught; intros ?
    | apply keeps_consistent
    | match goal with
      | |- keeps (if ?c then _ else _) => destruct c
      | |- keeps (match ?c with _ => _ end) => destruct c
      | |- keeps (let '(_, _) := ?c in _) => destruct c
      end ].

Lemma keeps_reset b d : keeps (reset_session b d).
Proof. unfold reset_session. keep. Qed.

Lemma attached_same b w w' : same w w' -> attached b w' = attached b w.
Proof. intros (_ & _ & E3 & _). unfold attached. by rewrite E3. Qed.

Lemma give_back_spec p w b t : own_ok p w -> attached b w = true -> accepting (own w) = true ->
  let w' := (give_back b t w).1 in
  own_ok p w' /\ later w w' /\ leases w' = [] /\ owner w' = true /\
  session (own w') = Some p /\ accepting (own w') = true /\ leased (own w') = false /\
  cache_generation (own w') = None /\ disconnected w' = [].
Proof.
  intros H Hb Ha. destruct (leases_sole _ _ _ H Hb) as (Hl & _ & Hs). destruct H as [_ Hs' Ho _].
  assert (owner w = true) as Hw by (destruct (owner w); [done|]; destruct Ho; congruence).
  rewrite Hs in Hs'. destruct Hs' as [_ Hd].
  assert (List.filter (fun c => negb (Nat.eqb b c)) (leases w) = []) as Hf.
  { rewrite Hl. cbn. by rewrite Nat.eqb_refl. }
  cbn. rewrite Hf. split_and!; try done; constructor; cbn; rewrite ?Hf, ?Hs, ?Hw; auto; try done.
  intros c Hc. by apply not_elem_of_nil in Hc.
Qed.

(** *** Triples

    [triple P m Q]: from a world with [P], [m] leads to a world and a value
    with [Q]. *)

Definition triple {A} (P : World E -> Prop) (m : W A) (Q : A -> World E -> Prop) : Prop :=
  forall w, P w -> Q (m w).2 (m w).1.

Lemma triple_bind {A B} P (m : W A) R (k : A -> W B) Q :
  triple P m R -> (forall a, triple (R a) (k a) Q) -> triple P (m ≫= k) Q.
Proof. intros Hm Hk w Hw. unfold mbind, W_bind. specialize (Hm w Hw). destruct (m w). by apply Hk. Qed.

Lemma triple_ret {A} (P : World E -> Prop) (a : A) (Q : A -> World E -> Prop) :
  (forall w, P w -> Q a w) -> triple P (mret a) Q.
Proof. done. Qed.

Lemma triple_pure {A} P (F : Prop) (m : W A) Q : (F -> triple P m Q) -> triple (fun w => P w /\ F) m Q.
Proof. intros H w [Hw Hf]. by apply H. Qed.

Lemma triple_pure_l {A} (P : World E -> Prop) (F : World E -> Prop) (m : W A) Q :
  triple P m Q -> triple (fun w => P w /\ F w) m Q.
Proof. intros H w [Hw _]. by apply H. Qed.
Lemma triple_weaken {A} (P P' : World E -> Prop) (m : W A) Q :
  triple P m Q -> (forall w, P' w -> P w) -> triple P' m Q.
Proof. intros H HP w Hw. by apply H, HP. Qed.

(** Reading the state, and a branch on what was read. *)
Lemma triple_ask {A} P (k : World E -> W A) Q :
  (forall w0, triple (fun w => P w /\ w = w0) (k w0) Q) -> triple P (ask ≫= k) Q.
Proof. intros Hk w Hw. rewrite ask_bind. by apply Hk. Qed.

(** The triple of the first part of a sequence. *)
Tactic Notation "after" uconstr(L) := eapply triple_bind; [apply L|cbn beta].

Section Lent.
Context (p b : nat) (w0 : World E).

(** The lease [b] is on, the session is gone, the session is back. *)
Definition Lent (w : World E) : Prop := own_ok p w /\ later w0 w /\ attached b w = true.
Definition Gone (w : World E) : Prop :=
  own_ok p w /\ later w0 w /\ leases w = [] /\ disconnected w = [p] /\ accepting (own w) = false.
Definition Back (w : World E) : Prop :=
  own_ok p w /\ later w0 w /\ leases w = [] /\ owner w = true /\ session (own w) = Some p /\
  accepting (own w) = true /\ cache_generation (own w) = None.

Lemma lent_keeps {A} (m : W A) : keeps m -> (forall w, attached b w = true -> attached b (m w).1 = true) ->
  triple Lent m (fun _ => Lent).
Proof.
  intros Hk Ha w (H & L & Hb). destruct (Hk p w H) as [H1 L1]. split_and!; [done|by etrans|auto].
Qed.

Lemma lent_aside {A} (m : W A) : aside m -> triple Lent m (fun _ => Lent).
Proof.
  intros Hm. apply lent_keeps; [by apply keeps_aside|]. intros w. by rewrite (attached_same b _ _ (Hm w)).
Qed.

Lemma attached_leases w w' : leases w ⊆ leases w' -> attached b w = true -> attached b w' = true.
Proof. unfold attached. rewrite !bool_decide_eq_true. auto. Qed.

(** No lease ends. *)
Definition grows {A} (m : W A) : Prop := forall w, leases w ⊆ leases (m w).1.

Lemma grows_bind {A B} (m : W A) (k : A -> W B) : grows m -> (forall a, grows (k a)) -> grows (m ≫= k).
Proof.
  intros Hm Hk w. unfold mbind, W_bind. specialize (Hm w). destruct (m w) as [w1 a].
  etrans; [apply Hm|apply Hk].
Qed.
Lemma grows_aside {A} (m : W A) : aside m -> grows m.
Proof. intros Hm w. by destruct (Hm w) as (_ & _ & -> & _). Qed.
Lemma grows_refl {A} (m : W A) : (forall w, leases (m w).1 = leases w) -> grows m.
Proof. intros Hm w. by rewrite Hm. Qed.
Lemma grows_retire s : grows (retire_session s).
Proof. apply grows_refl. intros w. by destruct s. Qed.
Lemma grows_update f : grows (update f).
Proof. by apply grows_refl. Qed.
Lemma grows_store f : grows (set_store f).
Proof. by apply grows_refl. Qed.
Lemma grows_grant : grows grant.
Proof. intros w. cbn. set_solver. Qed.
#[local] Hint Resolve grows_retire grows_update grows_store grows_grant : grows.
#[local] Hint Extern 0 (grows ask) => apply grows_aside, aside_ask : grows.
#[local] Hint Extern 0 (grows read_clock) => apply grows_aside, aside_clock : grows.
#[local] Hint Extern 0 (grows (is_current _)) => apply grows_aside, aside_is_current : grows.
#[local] Hint Extern 0 (grows (mret _)) => apply grows_aside, aside_ret : grows.

Ltac grow :=
  repeat first
    [ progress auto with grows nocore
    | apply grows_bind; [|intros ?]
    | match goal with
      | |- grows (if ?c then _ else _) => destruct c
      | |- grows (match ?c with _ => _ end) => destruct c
      end ].

Lemma grows_performs es : grows (performs es).
Proof.
  induction es as [|e es IH]; cbn; [grow|]. apply grows_bind; [|done].
  destruct e; cbn; unfold close, revoke_credentials, try_acquire, expire, revoke_managed; grow.
  by apply grows_refl.
Qed.

Lemma lent_call {A} (f : Call A) : triple Lent (call f) (fun _ => Lent).
Proof.
  apply lent_keeps; [auto with keeps|]. intros w. apply attached_leases. unfold call.
  destruct (f (env w)) as [[a es] e].
  match goal with |- context [performs es ?x] => pose proof (grows_performs es x) as Hg; destruct (performs es x) end.
  exact Hg.
Qed.

Lemma lent_clock : triple Lent read_clock (fun _ => Lent).
Proof. apply lent_aside, aside_clock. Qed.
Lemma lent_update f : keeps (update f) -> triple Lent (update f) (fun _ => Lent).
Proof. intros Hf. by apply lent_keeps. Qed.

Lemma lent_invalidate : triple Lent (invalidate_cache b) (fun _ => Lent).
Proof.
  apply lent_keeps; [auto with keeps|]. intros w Hb. unfold invalidate_cache. rewrite ask_bind, Hb. cbn [negb].
  unfold mbind, W_bind, read_clock. by destruct (now (env w)).
Qed.

Lemma lent_fail {A} c : triple Lent (fail (A := A) b c) (fun r w => Gone w /\ r = Failure c).
Proof.
  intros w (H & L & Hb). pose proof (keeps_retire_lease b p w H) as [H1 L1].
  destruct (retire_lease_spec p w b H Hb) as (E1 & _ & E3 & _ & _ & E6 & _).
  unfold fail, mbind, W_bind. destruct (retire_lease b w) as [w1 u]. cbn in *.
  split; [|done]. split_and!; try done. by etrans.
Qed.

(** What the borrower gets: the session is still on loan with [Q], or gone. *)
Definition ends {A} (Q : A -> World E -> Prop) (r : Result A) (w : World E) : Prop :=
  match r with Success a => Q a w | Failure _ => Gone w | Rethrown _ => False end.

Lemma fail_ends {A} (Q : A -> World E -> Prop) c : triple Lent (fail b c) (ends Q).
Proof. intros w Hw. destruct (lent_fail (A := A) c w Hw) as [Hg Hr]. unfold ends. by rewrite Hr. Qed.

Lemma caught_ends {A B} (Q : B -> World E -> Prop) (a : Answer A) (k : A -> W (Result B)) :
  (forall x, triple Lent (k x) (ends Q)) -> triple Lent (caught b a k) (ends Q).
Proof. intros Hk. destruct a; cbn; [apply Hk|apply fail_ends..]. Qed.

Lemma consistent_ends {B} (Q : B -> World E -> Prop) s (k : W (Result B)) :
  (s = idle_reusable -> triple Lent k (ends Q)) -> triple Lent (consistent b s k) (ends Q).
Proof.
  intros Hk. unfold consistent. case_bool_decide as Hs; cbn [negb]; [|apply fail_ends].
  after lent_call. intros a. apply caught_ends. intros []; cbn [negb]; [|apply fail_ends].
  after lent_call. intros st. apply caught_ends. intros x.
  destruct (negb _); [apply fail_ends|auto].
Qed.

Lemma lent_physical : triple Lent (physical_session b) (fun r w => Lent w /\ r = Some p).
Proof.
  intros w Hw. split; [exact Hw|]. destruct Hw as (H & _ & Hb). unfold physical_session. rewrite ask_bind.
  cbn. rewrite Hb. by apply (leases_sole p w b).
Qed.

Lemma reset_ends d : triple Lent (reset_session b d) (ends (fun s w => Lent w /\ s = idle_reusable)).
Proof.
  unfold reset_session. after lent_invalidate. intros _.
  after lent_physical. intros ph. apply triple_pure. intros ->.
  after lent_clock. intros t1. destruct (d <=? t1); [apply fail_ends|].
  after lent_call. intros a1. apply caught_ends. intros []; cbn [negb]; [|apply fail_ends].
  after lent_call. intros a2. apply caught_ends. intros []; cbn [negb]; [|apply fail_ends].
  after lent_call. intros a3. apply caught_ends. intros r.
  destruct (code r); [apply fail_ends|]. apply consistent_ends. intros Hr.
  after lent_clock. intros t2. destruct (d <=? t2); [apply fail_ends|].
  apply triple_ret. intros w Hw. cbn. done.
Qed.

Lemma lent_attached : triple Lent (ask ≫= fun w => mret (attached b w)) (fun r w => Lent w /\ r = true).
Proof. intros w Hw. rewrite ask_bind. cbn. split; [done|apply Hw]. Qed.

(** The session is on loan and its owner still accepts it. *)
Definition Open (w : World E) : Prop := Lent w /\ accepting (own w) = true.

Lemma open_aside {A} (m : W A) : aside m -> triple Open m (fun _ => Open).
Proof.
  intros Hm w [Hw Ha]. split; [by apply lent_aside|]. destruct (Hm w) as (-> & _). done.
Qed.

Lemma open_give_back t : triple Open (give_back b t) (fun _ => Back).
Proof.
  intros w [(H & L & Hb) Ha]. destruct (give_back_spec p w b t H Hb Ha) as (H' & L' & ? & ? & ? & ? & _ & ? & _).
  split_and!; try done. by etrans.
Qed.

(** A returned session is back with its owner, unless it is gone. *)
Lemma return_ends d : triple Lent (return_reusable b d) (ends (fun _ => Back)).
Proof.
  unfold return_reusable. after lent_invalidate. intros _.
  apply triple_ask. intros w1. apply triple_pure_l.
  destruct (attached b w1) eqn:Hb; cbn [negb]; [|apply fail_ends].
  after lent_clock. intros t1. cbn zeta.
  eapply triple_bind; [apply lent_aside|cbn beta; intros e1].
  { destruct (_ && _); [apply aside_credential_current|apply aside_ret]. }
  destruct (negb _); [apply fail_ends|].
  after reset_ends. intros [s|c|]; cbn [ends]; [|by apply triple_ret|by intros w].
  eapply triple_weaken; [|intros w [Hw _]; exact Hw].
  after lent_clock. intros t2. after lent_clock. intros t3. apply triple_ask. intros w2. cbn zeta.
  destruct (negb _ && attached b w2 && held (own w2) (session (own w1))) eqn:Hh.
  - eapply (triple_weaken Open); [|intros w [Hw ->]; split; [done|unfold held in Hh; by zb]].
    after (open_aside credential_current aside_credential_current). intros [].
    + after (open_give_back t2). intros _. by apply triple_ret.
    + eapply triple_weaken; [apply fail_ends|by intros w [? _]].
  - apply triple_pure_l. eapply (triple_bind _ _ (fun r w => Lent w /\ r = false)); [by apply triple_ret|].
    intros e2. apply triple_pure. intros ->. apply fail_ends.
Qed.

Lemma admitted_spec ph d :
  triple Lent (admitted ph d) (fun r w => Lent w /\ (r.1 = true -> accepting (own w) = true)).
Proof.
  unfold admitted. eapply triple_bind; [apply lent_aside, aside_credential_current|cbn beta]. intros cur.
  after lent_clock. intros t1. apply triple_ask. intros w1.
  eapply (triple_bind _ _ (fun _ w => Lent w /\ own w = own w1)).
  - intros w [Hw ->]. destruct (d <=? t1); [done|]. unfold mbind, W_bind.
    pose proof (lent_clock w1 Hw) as Hl. pose proof (aside_clock w1) as (Ho & _). by destruct (read_clock w1).
  - intros expired. apply triple_ret. intros w [Hw Ho]. split; [done|]. cbn. rewrite Ho. unfold held.
    intros H. by zb.
Qed.

(** A lease that is handed out after the probe is on loan. *)
Lemma probe_ends d : triple Lent (probe b d) (ends (fun s w => Open w /\ cache_generation (own w) = None)).
Proof.
  unfold probe. after lent_physical. intros ph. apply triple_pure. intros ->.
  after lent_invalidate. intros _. after admitted_spec. intros [el ex]. cbn [fst].
  eapply triple_weaken; [|intros w [Hw _]; exact Hw]. destruct el; cbn [negb]; [|apply fail_ends].
  after lent_call. intros a1. apply caught_ends. intros []; cbn [negb]; [|apply fail_ends].
  after lent_call. intros a2. apply caught_ends. intros r.
  destruct (code r); [apply fail_ends|]. apply consistent_ends. intros _.
  after admitted_spec. intros [el2 ex2]. cbn [fst]. destruct el2; cbn [negb].
  - intros w [Hw Ha]. unfold mbind, W_bind. pose proof (lent_update _ (keeps_drop false) w Hw) as Hl.
    split; [split; [exact Hl|]|done]. cbn. by rewrite Ha.
  - eapply triple_weaken; [|intros w [Hw _]; exact Hw]. after (lent_update _ (keeps_drop false)). intros _.
    apply fail_ends.
Qed.
End Lent.

Lemma later_refl w : later w w.
Proof. reflexivity. Qed.

Lemma keeps_return b d : keeps (return_reusable b d).
Proof.
  intros p w H. destruct (attached b w) eqn:Hb.
  - pose proof (return_ends p b w d w (conj H (conj (later_refl w) Hb))) as He.
    destruct (return_reusable b d w) as [w' [s|c|]]; cbn in He; [| |done]; by destruct He as (? & ? & _).
  - unfold return_reusable, invalidate_cache. unfold mbind, W_bind, ask. cbn. rewrite Hb. cbn. rewrite Hb. cbn.
    unfold fail, retire_lease, mbind, W_bind, ask. cbn. rewrite Hb. by cbn.
Qed.

Lemma keeps_admitted ph d : keeps (admitted ph d).
Proof.
  apply keeps_bind; [auto with keeps|intros ?]. apply keeps_bind; [auto with keeps|intros ?]. keep.
Qed.
#[local] Hint Resolve keeps_admitted keeps_reset keeps_return : keeps.

Lemma keeps_probe b d : keeps (probe b d).
Proof. unfold probe. keep. Qed.
#[local] Hint Resolve keeps_probe : keeps.

Lemma keeps_acquire_healthy token d : keeps (acquire_healthy token d).
Proof. unfold acquire_healthy. keep. Qed.
#[local] Hint Resolve keeps_acquire_healthy : keeps.

Lemma keeps_lapsed c : keeps (credential_lapsed c).
Proof. apply keeps_aside, aside_lapsed. Qed.
Lemma keeps_stop : keeps stop_admission.
Proof. apply keeps_drop. Qed.
#[local] Hint Resolve keeps_lapsed keeps_stop : keeps.

Lemma set_cache_keeps p w : own_ok p w -> accepting (own w) = true -> leased (own w) = true ->
  own_ok p (set_cache w).1 /\ later w (set_cache w).1.
Proof.
  intros H Ha Hd. unfold set_cache. destruct (cache_generation (own w)) as [g|]; [split; [exact H|reflexivity]|].
  destruct H as [Hl Hs Ho Hc].
  split; constructor; cbn; auto; try done.
  - destruct (leases w) as [|c [|]]; [done| |done]. destruct Hl. split; [done|lia].
  - intros g [= <-]. split_and!; [done..|lia].
  - intros g [= <-]. right. lia.
Qed.

Lemma keeps_cache_token b : keeps (cache_token b).
Proof.
  unfold cache_token. apply keeps_bind; [auto with keeps|intros w1].
  destruct (attached b w1); [|auto with keeps]. destruct (credential (own w1)) as [c|]; [|auto with keeps].
  destruct (_ || _); [auto with keeps|]. apply keeps_bind; [auto with keeps|intros []]; [keep|].
  apply keeps_bind; [auto with keeps|intros a1].
  apply keeps_bind; [destruct a1 as [[]| |]; keep|intros [idle|]]; [|keep].
  assert (keeps (A := option nat) (update (drop_cache false) ≫= fun _ => mret None)) as Hdrop by keep.
  assert (keeps (A := option nat) (stop_admission ≫= fun _ => mret None)) as Hstop by keep.
  intros p w H. rewrite ask_bind. destruct (negb idle || _) eqn:Eh; [by apply Hdrop|].
  apply keeps_after; [done|apply aside_lapsed|]. intros [] w' H' [Eo _]; [by apply Hstop|].
  unfold held in Eh. zb. apply set_cache_keeps; rewrite ?Eo; done.
Qed.

Lemma keeps_cache_current g : keeps (cache_current g).
Proof. unfold cache_current. keep. Qed.
#[local] Hint Resolve keeps_cache_token keeps_cache_current : keeps.
Lemma keeps_invoke {A} b (f : A -> SessionSnapshot) r : keeps r -> keeps (invoke_borrowed b f r).
Proof. intros Hr. unfold invoke_borrowed. keep. Qed.
#[local] Hint Resolve keeps_invoke : keeps.

Lemma keeps_exec op : keeps (exec op).
Proof.
  destruct op as [| | | | |e| | | | | | | |]; cbn [exec]; unfold void, execute, accepts_cache, acquire_managed; keep.
  pose proof (keeps_performs [e]) as He. cbn in He. intros p w H. specialize (He p w H).
  unfold mbind, W_bind in He. by destruct (perform e w).
Qed.

Lemma reaches_ok p w w' : own_ok p w -> reaches w w' -> own_ok p w' /\ later w w'.
Proof.
  intros H. induction 1 as [w|w w' op _ IH|w w' e _ IH]; [done| |].
  - destruct (IH H) as [H1 L1]. destruct (keeps_exec op p w' H1) as [H2 L2]. split; [done|by etrans].
  - destruct (IH H) as [H1 L1].
    destruct (same_keeps p w' {| store := store w'; own := own w'; owner := owner w'; leases := leases w';
      next := next w'; disconnected := disconnected w'; env := e |}) as [H2 L2]; [done..|]. split; [done|by etrans].
Qed.

(** ** What the owner promises *)

(** A world in which the owner has just adopted [p]. *)
Definition adopted (p : nat) (w : World E) : Prop :=
  session (own w) = Some p /\ accepting (own w) = true /\ leased (own w) = false /\
  cache_generation (own w) = None /\ owner w = true /\ leases w = [] /\ disconnected w = [].

Lemma adopted_ok p w : adopted p w -> own_ok p w.
Proof.
  intros (Es & Ea & El & Ec & Eo & Els & Ed).
  constructor; rewrite ?Es, ?Ea, ?El, ?Ec, ?Eo, ?Els, ?Ed; try done; intros; congruence.
Qed.

Lemma not_accepting_refuses token w : accepting (own w) = false -> (try_acquire token w).2 = None.
Proof.
  intros Ha. unfold try_acquire. rewrite ask_bind. destruct (owner w); cbn [negb]; [|done]. by rewrite Ha.
Qed.

(** C29. Whatever the owner, its borrowers and the holders of the credentials do,
    also while a call of the session runs: at most one lease is on, and its
    session is there; the physical session is disconnected at most once, and
    nobody acquires it afterwards; and once the owner is closed and no lease
    is on, it was disconnected. *)
Theorem session_lent_once (p : nat) (w0 w : World E) :
  adopted p w0 -> reaches w0 w ->
  (length (leases w) <= 1)%nat /\
  (leases w <> [] -> session (own w) = Some p /\ disconnected w = []) /\
  (disconnected w = [] \/ disconnected w = [p]) /\
  (disconnected w = [p] -> forall w' token, reaches w w' -> (try_acquire token w').2 = None) /\
  (owner w = false -> leases w = [] -> disconnected w = [p]).
Proof.
  intros Ha%adopted_ok Hr. destruct (reaches_ok p w0 w Ha Hr) as [Hok _]. pose proof Hok as [Hl Hs Ho Hc].
  split_and!.
  - destruct (leases w) as [|b [|]]; cbn; [lia..|done].
  - intros Hn. destruct (leases w) as [|b [|]]; [done| |done]. destruct Hl as [Hl _].
    destruct (session (own w)); [by destruct Hs as [-> ?]|]. destruct Hs as (_ & _ & ?). congruence.
  - destruct (session (own w)); destruct Hs; auto.
  - intros Hd w' token Hr'. apply not_accepting_refuses. destruct (reaches_ok p w w' Hok Hr') as [_ [Hacc _ _ _ _]].
    destruct (accepting (own w')); [|done]. specialize (Hacc eq_refl).
    destruct (session (own w)); destruct Hs as [? Hs]; [congruence|]. destruct Hs. congruence.
  - intros Hf Hn. rewrite Hn in Hl. destruct (Ho Hf) as [_ Hses]. rewrite (Hses Hl) in Hs. apply Hs.
Qed.

Lemma expire_None w : (expire w).2 = None.
Proof. unfold expire. rewrite ask_bind. unfold mbind, W_bind. destruct (update _ _) as [w1 []]. by destruct (retire_session _ _). Qed.

(** A lease is granted only by an open owner whose session is there and on
    loan to nobody.  An owner bound to a credential grants it only for a token
    of the same generation, at a time when that generation is current, the
    session's lifetime has not ended and it has not been idle too long. *)
Theorem lease_admission (p : nat) (w : World E) (token : option CredentialToken) (b : nat) :
  own_ok p w -> (try_acquire token w).2 = Some b ->
  owner w = true /\ accepting (own w) = true /\ session (own w) = Some p /\ leases w = [] /\
  leases (try_acquire token w).1 = [b] /\
  match credential (own w) with
  | None => token = None
  | Some c => exists t, token = Some t /\ same_generation c t = true /\
      let '(t1, e1) := now (env w) in
      let '(t2, e2) := now e1 in
      let '(t3, _) := now e2 in
      is_current_at (store w) c t1 = true /\ lifetime_expired (own w) t2 = false /\
      idle_expired (own w) t3 = false
  end.
Proof.
  intros [Hl Hs Ho Hc] Hg. assert (leased (own w) = false -> leases w = []) as Hfree.
  { intros El. destruct (leases w) as [|x [|]]; [done|destruct Hl; congruence|done]. }
  revert Hg. unfold try_acquire. rewrite ask_bind. destruct (owner w); cbn [negb]; [|done].
  destruct (accepting (own w)); cbn [negb orb]; [|done].
  destruct (session (own w)) as [q|]; [|done]. destruct Hs as [-> _].
  rewrite bool_decide_true by eauto. cbn [negb].
  destruct (credential (own w)) as [c|]; destruct token as [t|]; try done.
  - destruct (same_generation c t) eqn:Et; cbn [negb]; [|done].
    unfold is_current, read_clock, mbind, W_bind, ask. cbn -[expire]. destruct (now (env w)) as [t1 e1]. cbn -[expire].
    destruct (is_current_at (store w) c t1) eqn:E1; cbn -[expire]; [|by rewrite expire_None].
    destruct (now e1) as [t2 e2]. cbn -[expire].
    destruct (lifetime_expired (own w) t2) eqn:E2; [by rewrite expire_None|].
    cbn -[expire]. destruct (now e2) as [t3 e3]. cbn -[expire].
    destruct (idle_expired (own w) t3) eqn:E3; [by rewrite expire_None|].
    destruct (leased (own w)); cbn; [done|]. intros [= <-]. rewrite (Hfree eq_refl).
    split_and!; try done. exists t. split_and!; done.
  - destruct (leased (own w)); cbn; [done|]. intros [= <-]. rewrite (Hfree eq_refl). done.
Qed.


(** An operation that starts by ending the cache scope. *)
Lemma cache_ends {A} p b g w (k : W A) : own_ok p w -> attached b w = true -> (g < next w)%nat -> keeps k ->
  own_ok p ((invalidate_cache b ≫= fun _ => k) w).1 /\
  cache_generation (own ((invalidate_cache b ≫= fun _ => k) w).1) <> Some g /\
  (g < next ((invalidate_cache b ≫= fun _ => k) w).1)%nat.
Proof.
  intros H Hb Hg Hk.
  destruct (keeps_invalidate b p w H) as [H1 L1].
  assert (cache_generation (own (invalidate_cache b w).1) = None) as Hn.
  { unfold invalidate_cache. rewrite ask_bind, Hb. cbn [negb]. unfold mbind, W_bind, read_clock.
    by destruct (now (env w)). }
  unfold mbind, W_bind. destruct (invalidate_cache b w) as [w1 u]. cbn in *.
  destruct (Hk p w1 H1) as [H2 L2]. destruct L1, L2. split_and!; [done| |lia].
  intros [Hc|Hc]%lt_cache1; [congruence|lia].
Qed.

Lemma return_done p b g d w : own_ok p w -> attached b w = true -> (g < next w)%nat ->
  own_ok p (return_reusable b d w).1 /\ cache_generation (own (return_reusable b d w).1) <> Some g /\
  (g < next (return_reusable b d w).1)%nat.
Proof.
  intros H Hb Hg. destruct (keeps_return b d p w H) as [H1 [_ _ Hn _ _]].
  pose proof (return_ends p b w d w (conj H (conj (later_refl w) Hb))) as He.
  destruct (return_reusable b d w) as [w' [s|c|]]; cbn in *; [| |done]; (split_and!; [done| |lia]).
  - destruct He as (_ & _ & _ & _ & _ & _ & ?). congruence.
  - destruct He as ([_ _ _ Hc] & _ & _ & _ & ?). intros (_ & ? & _)%Hc. congruence.
Qed.

(** A cache scope ends for good when its session executes something, is
    reset or is returned: a token issued before is never accepted afterwards,
    however many scopes follow. *)
Theorem cache_scope_is_final (p b g : nat) (op : Op) (w w' : World E) :
  own_ok p w -> attached b w = true -> (g < next w)%nat ->
  (exists request, op = LExecute b request) \/ (exists d, op = LReset b d) \/ (exists d, op = LReturn b d) ->
  reaches (exec op w).1 w' ->
  (cache_current g w').2 = false /\ forall c, (accepts_cache c g w').2 = false.
Proof.
  intros H Hb Hg Hop Hr.
  assert (own_ok p (exec op w).1 /\ cache_generation (own (exec op w).1) <> Some g /\ (g < next (exec op w).1)%nat)
    as (H1 & Hn & Hlt).
  { assert (forall A (m : W A), (exists B (k : W B), keeps k /\ void m w = void (invalidate_cache b ≫= fun _ => k) w) ->
      own_ok p (void m w).1 /\ cache_generation (own (void m w).1) <> Some g /\ (g < next (void m w).1)%nat) as Hv.
    { intros A m (B & k & Hk & ->). pose proof (cache_ends p b g w k H Hb Hg Hk) as Hc.
      unfold void, mbind, W_bind in *. destruct (invalidate_cache b w) as [w1 u]. by destruct (k w1). }
    destruct Hop as [[r ->]|[[d ->]|[d ->]]]; cbn [exec]; [apply Hv..|].
    - exists _, (invoke_borrowed b outcome (call r)). split; [auto with keeps|done].
    - unfold reset_session. eexists _, _. split; [|reflexivity]. keep.
    - destruct (return_done p b g d w H Hb Hg) as (? & ? & ?). unfold void, mbind, W_bind.
      by destruct (return_reusable b d w). }
  assert (cache_generation (own w') <> Some g) as Hw'.
  { destruct (reaches_ok p _ w' H1 Hr) as [_ [_ _ _ Hc _]]. intros [?|?]%Hc; [congruence|lia]. }
  assert ((cache_current g w').2 = false) as Hcur.
  { unfold cache_current. rewrite ask_bind. rewrite (bool_decide_false (_ = Some g)) by done.
    cbn [negb]. by rewrite orb_true_r. }
  split; [done|]. intros c. unfold accepts_cache. rewrite ask_bind. by destruct (attached c w').
Qed.

(** An authenticated connection is adopted, or the session is disconnected. *)
Lemma connect_adopts p policy x d o :
  let '(_, gone, r) := connect_authenticated p policy x d o in
  match r with
  | inl w => adopted p w /\ gone = []
  | inr _ => gone = [p]
  end.
Proof.
  assert (forall o c, let '(_, gone, r) := refuse p o c in
    match r with inl w => adopted p w /\ gone = [] | inr _ => gone = [p] end) as Hr by done.
  assert (forall A (f : Call A) o k, (forall o a, let '(_, gone, r) := k o a in
      match r with inl w => adopted p w /\ gone = [] | inr _ => gone = [p] end) ->
    let '(_, gone, r) := attempt p (fresh_call f o) k in
    match r with inl w => adopted p w /\ gone = [] | inr _ => gone = [p] end) as Ha.
  { intros A f o' k Hk. unfold attempt. destruct (fresh_call f o') as [o1 [a| |]]; [apply Hk|done..]. }
  unfold connect_authenticated. destruct (_ || _); [done|].
  destruct (expired _ _ _ o) as [o1 []]; [done|].
  apply Ha. intros o2 []; [done|]. apply Ha. intros o3 st. destruct (negb _); [done|].
  apply Ha. intros o4 r. destruct (code r); [done|]. destruct (negb _); [done|].
  apply Ha. intros o5 []; cbn [negb]; [|done]. apply Ha. intros o6 st'. destruct (negb _); [done|].
  destruct (expired _ _ _ o6) as [o7 []]; [done|].
  unfold adopt. destruct (create_context _) as [a st1].
  destruct (publish_authenticated a x true st1) as [st2 [token|]]; [|done].
  destruct (expired _ _ _ _) as [o8 []]; destruct (now (o_env o8)) as [t e]; [done|].
  destruct (negb _); [done|]. destruct (now e) as [t' e']. by destruct (expired _ _ _ _) as [o9 []].
Qed.
End Session.

(** ** A concrete session

    The clock goes on by one with every reading; the session is connected by
    [connect], and its owner is closed during a reset that is asked to end
    after time 900. *)

Definition x_now (e : Z * bool) : Z * (Z * bool) := (e.1, (e.1 + 1, e.2)).
Definition x_disconnect (e : Z * bool) : Z * bool := (e.1, false).
Definition x_yes (e : Z * bool) : Answer bool * list Event * (Z * bool) := (Returned true, [], e).
Definition x_connected (e : Z * bool) : Answer bool * list Event * (Z * bool) := (Returned e.2, [], e).
Definition x_state (e : Z * bool) : Answer SessionState * list Event * (Z * bool) :=
  (Returned (if e.2 then Idle else Disconnected), [], e).
Definition x_good : BackendAnswer := {| code := None; outcome := idle_reusable |}.
Definition x_reset (deadline : Z) (e : Z * bool) : Answer BackendAnswer * list Event * (Z * bool) :=
  (Returned x_good, if 900 <? deadline then [OwnerCloses] else [], e).
Definition x_health (deadline : Z) (e : Z * bool) : Answer BackendAnswer * list Event * (Z * bool) :=
  (Returned x_good, [], e).
Definition x_connect (e : Z * bool) : Answer BackendAnswer * list Event * (Z * bool) :=
  (Returned x_good, [], (e.1, true)).

Definition x_policy : SessionReusePolicy := {| retire_at := 10000; max_idle := 500 |}.
Definition x_empty : World (Z * bool) :=
  {| store := {| authorities := ∅; fresh := 0 |};
     own := {| session := None; credential := None; authentication := None; cache_generation := None;
               reuse_policy := None; idle_since := 0; accepting := false; leased := false |};
     owner := false; leases := []; next := 0; disconnected := []; env := (0, false) |}.
Definition x_world : World (Z * bool) :=
  match (connect_authenticated x_now x_disconnect x_connected x_state x_connect 4 x_policy (Some 5000) 800
           {| o_store := {| authorities := ∅; fresh := 0 |}; o_env := (100, false) |}).2 with
  | inl w => w
  | inr _ => x_empty
  end.
Definition x_token : CredentialToken :=
  {| authority_ := 0; generation_ := {| generation_id := 1; expiry := Some 5000 |} |}.
Definition x_lent : World (Z * bool) := (try_acquire x_now x_disconnect (Some x_token) x_world).1.

Lemma x_world_adopted : adopted 4 x_world.
Proof. vm_compute. done. Qed.

Lemma x_lent_ok : own_ok 4 x_lent.
Proof. apply keeps_try_acquire, adopted_ok, x_world_adopted. Qed.

Lemma session_lent_once_witness :
  leases x_lent = [0%nat] /\ session (own x_lent) = Some 4%nat /\ disconnected x_lent = [].
Proof.
  split; [vm_compute; reflexivity|].
  apply (session_lent_once x_now x_disconnect x_yes x_yes x_yes x_connected x_state x_reset x_health 4 x_world x_lent).
  - apply x_world_adopted.
  - refine (reaches_step _ _ _ _ _ _ _ _ _ _ _ (OAcquire (Some x_token)) (reaches_refl _ _ _ _ _ _ _ _ _ _)).
  - vm_compute. congruence.
Defined.

Lemma lease_admission_witness :
  owner x_world = true /\ leases x_world = [] /\ same_generation x_token x_token = true.
Proof.
  destruct (lease_admission x_now x_disconnect 4 x_world (Some x_token) 0) as (H1 & _ & _ & H2 & _ & H3).
  - apply adopted_ok, x_world_adopted.
  - vm_compute. reflexivity.
  - split; [exact H1|]. split; [exact H2|]. vm_compute in H3. destruct H3 as (t & [= <-] & _). reflexivity.
Defined.


Lemma cache_scope_is_final_witness :
  let w := (cache_token x_now x_disconnect x_connected x_state 0 x_lent).1 in
  (cache_token x_now x_disconnect x_connected x_state 0 x_lent).2 = Some 1%nat /\
  (cache_current x_now 1 w).2 = true /\
  (cache_current x_now 1 (exec x_now x_disconnect x_yes x_yes x_yes x_connected x_state x_reset x_health
      (LExecute 0 x_connect) w).1).2 = false.
Proof.
  split; [vm_compute; reflexivity|]. split; [vm_compute; reflexivity|].
  apply (cache_scope_is_final x_now x_disconnect x_yes x_yes x_yes x_connected x_state x_reset x_health 4 0 1
    (LExecute 0 x_connect) (cache_token x_now x_disconnect x_connected x_state 0 x_lent).1).
  - apply keeps_cache_token, x_lent_ok.
  - vm_compute. reflexivity.
  - vm_compute. lia.
  - left. by exists x_connect.
  - apply reaches_refl.
Defined.
