(* ===== verification/IssuerTime.v ===== *)
(** * Timestamps of credential issuers

    [sdk/src/auth/issuer_timestamp.cpp] reads the time an issuer sends, as a
    JSON number of seconds or as an ISO 8601 text, into microseconds of UTC.

    Integers are signed 64-bit and every overflow test of the code is there. *)

From S2P Require Import Prelude Utf8 Digits.

Definition INT64_MAX : Z := 9223372036854775807.
Definition INT64_MIN : Z := -9223372036854775808.

(** ** Timestamps *)

Inductive TimestampFailure :=
| UnsupportedFormat | InvalidSyntax | ResourceLimit | Nonpositive | PrecisionLoss | TimestampOverflow.

Inductive TimestampResult := Instant (micros : Z) | Fails (f : TimestampFailure).

(** *** JSON seconds *)

(** The mantissa so far: how many digits and their value. *)
Record Mantissa := { m_digits : Z; coefficient : Z }.

Definition append (m : Mantissa) (c : Z) : Mantissa + TimestampFailure :=
  let n := m_digits m + 1 in
  if 19 <? n then inr ResourceLimit
  else
    let value := c - ch "0" in
    if (INT64_MAX - value) / 10 <? coefficient m then inr TimestampOverflow
    else inl {| m_digits := n; coefficient := coefficient m * 10 + value |}.

Fixpoint whole_digits (m : Mantissa) (s : bytes) : Mantissa * bytes + TimestampFailure :=
  match s with
  | c :: t =>
      if isdigit c then
        match append m c with inr f => inr f | inl m => whole_digits m t end
      else inl (m, s)
  | [] => inl (m, [])
  end.

Fixpoint fraction_digits (m : Mantissa) (fractional : Z) (s : bytes) : Mantissa * Z * bytes + TimestampFailure :=
  match s with
  | c :: t =>
      if isdigit c then
        if 18 <? fractional + 1 then inr ResourceLimit
        else match append m c with inr f => inr f | inl m => fraction_digits m (fractional + 1) t end
      else inl (m, fractional, s)
  | [] => inl (m, fractional, [])
  end.

Fixpoint exponent_digits (count exponent : Z) (s : bytes) : Z * bytes + TimestampFailure :=
  match s with
  | c :: t =>
      if isdigit c then
        if 2 <? count + 1 then inr ResourceLimit
        else exponent_digits (count + 1) (exponent * 10 + c - ch "0") t
      else inl (exponent, s)
  | [] => inl (exponent, [])
  end.

(** [pos == text.size() || !digit(text[pos])]. *)
Definition no_digit (s : bytes) : bool := match s with c :: _ => negb (isdigit c) | [] => true end.

Definition json_whole (s : bytes) : Mantissa * bytes + TimestampFailure :=
  let start := {| m_digits := 0; coefficient := 0 |} in
  match s with
  | c :: t =>
      if negb (isdigit c) then inr InvalidSyntax
      else if c =? ch "0" then
        match append start c with
        | inr f => inr f
        | inl m => if no_digit t then inl (m, t) else inr InvalidSyntax
        end
      else whole_digits start s
  | [] => inr InvalidSyntax
  end.

Definition json_fraction (m : Mantissa) (s : bytes) : Mantissa * Z * bytes + TimestampFailure :=
  match s with
  | c :: t =>
      if c =? ch "." then
        if no_digit t then inr InvalidSyntax else fraction_digits m 0 t
      else inl (m, 0, s)
  | [] => inl (m, 0, [])
  end.

(** [exponent_negative] and what follows the sign. *)
Definition exponent_sign (s : bytes) : bool * bytes :=
  match s with
  | c :: t => if (c =? ch "+") || (c =? ch "-") then (c =? ch "-", t) else (false, s)
  | [] => (false, [])
  end.

Definition json_exponent (s : bytes) : Z * bytes + TimestampFailure :=
  match s with
  | c :: t =>
      if (c =? ch "e") || (c =? ch "E") then
        let '(exponent_negative, t) := exponent_sign t in
        if no_digit t then inr InvalidSyntax
        else
          match exponent_digits 0 0 t with
          | inr f => inr f
          | inl (exponent, rest) =>
              if 18 <? exponent then inr ResourceLimit
              else inl (if exponent_negative : bool then - exponent else exponent, rest)
          end
      else inl (0, s)
  | [] => inl (0, [])
  end.

(** [while (scale > 0)] and [while (scale < 0)]. *)
Fixpoint scale_up (scale : nat) (coefficient : Z) : Z + TimestampFailure :=
  match scale with
  | O => inl coefficient
  | S scale => if INT64_MAX / 10 <? coefficient then inr TimestampOverflow else scale_up scale (coefficient * 10)
  end.
Fixpoint scale_down (scale : nat) (coefficient : Z) : Z + TimestampFailure :=
  match scale with
  | O => inl coefficient
  | S scale => if negb (coefficient mod 10 =? 0) then inr PrecisionLoss else scale_down scale (coefficient / 10)
  end.

Definition json_seconds (text : bytes) : TimestampResult :=
  let '(negative, s) :=
    match text with c :: t => if c =? ch "-" then (true, t) else (false, text) | [] => (false, text) end in
  match json_whole s with
  | inr f => Fails f
  | inl (m, s) =>
      match json_fraction m s with
      | inr f => Fails f
      | inl (m, fractional, s) =>
          match json_exponent s with
          | inr f => Fails f
          | inl (exponent, s) =>
              match s with
              | _ :: _ => Fails InvalidSyntax
              | [] =>
                  if negative || (coefficient m =? 0) then Fails Nonpositive
                  else
                    let scale := 6 + exponent - fractional in
                    match scale_up (Z.to_nat scale) (coefficient m) with
                    | inr f => Fails f
                    | inl c =>
                        match scale_down (Z.to_nat (- scale)) c with
                        | inr f => Fails f
                        | inl c => Instant c
                        end
                    end
              end
          end
      end
  end.

(** *** ISO 8601 *)

Definition number (text : bytes) (start len : nat) : Z :=
  foldl (fun result c => if result <? 0 then result
                         else if isdigit c then result * 10 + (c - ch "0") else -1)
    0 (take len (drop start text)).

Definition leap (year : Z) : bool :=
  (year mod 4 =? 0) && (negb (year mod 100 =? 0) || (year mod 400 =? 0)).

Definition days_before_year (year : Z) : Z :=
  let previous := year - 1 in previous * 365 + previous / 4 - previous / 100 + previous / 400.

Definition month_days : list Z := [31; 28; 31; 30; 31; 30; 31; 31; 30; 31; 30; 31].
Definition month_length (year month : Z) : Z :=
  nth (Z.to_nat (month - 1)) month_days 0 + (if (month =? 2) && leap year then 1 else 0).

(** The fraction in microseconds, of the text after the seconds. *)
Definition iso_fraction (text : bytes) : Z + TimestampFailure :=
  if (length text =? 20)%nat then inl 0
  else if negb (at_pos text 19 =? ch ".") || (length text <? 22)%nat then inr InvalidSyntax
  else
    let count := (length text - 21)%nat in
    if (6 <? count)%nat then inr PrecisionLoss
    else
      let ds := take count (drop 20 text) in
      if forallb isdigit ds then inl (digits_value ds * 10 ^ (6 - Z.of_nat count)) else inr InvalidSyntax.

Definition days_to_month (year month : Z) : Z :=
  foldl (fun days i => days + month_length year (Z.of_nat i)) 0 (seq 1 (Z.to_nat (month - 1))).

Definition utc_iso (text : bytes) : TimestampResult :=
  if (length text <? 20)%nat || negb (at_pos text 4 =? ch "-") || negb (at_pos text 7 =? ch "-") ||
     negb (at_pos text 10 =? ch "T") || negb (at_pos text 13 =? ch ":") || negb (at_pos text 16 =? ch ":") ||
     negb (at_pos text (length text - 1) =? ch "Z")
  then Fails InvalidSyntax
  else
    let year := number text 0 4 in let month := number text 5 2 in let day := number text 8 2 in
    let hour := number text 11 2 in let minute := number text 14 2 in let second := number text 17 2 in
    if (year <? 1970) || (month <? 1) || (12 <? month) || (day <? 1) || (hour <? 0) || (23 <? hour) ||
       (minute <? 0) || (59 <? minute) || (second <? 0) || (59 <? second)
    then Fails InvalidSyntax
    else if month_length year month <? day then Fails InvalidSyntax
    else
      match iso_fraction text with
      | inr f => Fails f
      | inl fraction =>
          let days := days_before_year year - days_before_year 1970 + day - 1 + days_to_month year month in
          let seconds := days * 86400 + hour * 3600 + minute * 60 + second in
          if (INT64_MAX - fraction) / 1000000 <? seconds then Fails TimestampOverflow
          else
            let micros := seconds * 1000000 + fraction in
            if micros <=? 0 then Fails Nonpositive else Instant micros
      end.

Inductive IssuerTimestampFormat := JsonSeconds | UtcIso8601.

Definition parse_issuer_timestamp (format : IssuerTimestampFormat) (text : bytes) : TimestampResult :=
  match text with
  | [] => Fails InvalidSyntax
  | _ =>
      if 64 <? size text then Fails ResourceLimit
      else match format with JsonSeconds => json_seconds text | UtcIso8601 => utc_iso text end
  end.

Example iso_example : parse_issuer_timestamp UtcIso8601 (str "2024-02-29T12:34:56.5Z") = Instant 1709210096500000.
Proof. vm_compute. reflexivity. Qed.
Example json_example : parse_issuer_timestamp JsonSeconds (str "1.7092100965E9") = Instant 1709210096500000.
Proof. vm_compute. reflexivity. Qed.

(** ** JSON seconds, exactly *)

Definition within (m : Mantissa) : Prop := 0 <= m_digits m <= 19 /\ 0 <= coefficient m <= INT64_MAX.
Definition extend (m : Mantissa) (ds : bytes) : Mantissa :=
  {| m_digits := m_digits m + size ds; coefficient := foldl digit_step (coefficient m) ds |}.

Lemma append_ok m c : within m -> isdigit c = true ->
  append m c = inl (extend m [c]) /\ within (extend m [c]) \/
  (exists f, append m c = inr f) /\ ~ within (extend m [c]).
Proof.
  intros [Hd Hc] Hdig%isdigit_spec. unfold append, extend, within, digit_step. cbn [m_digits coefficient foldl].
  rewrite size_cons, size_nil. cbv zeta. destruct (19 <? _) eqn:E1; zb; [right; split; [eauto|lia]|].
  unfold INT64_MAX in *. destruct (_ <? _) eqn:E2; zb.
  - right. split; [eauto|]. intros [_ H]. dlia.
  - left. split; [done|]. dlia.
Qed.

Lemma extend_app m ds es : extend (extend m ds) es = extend m (ds ++ es).
Proof. unfold extend. cbn. by rewrite size_app, foldl_app, Z.add_assoc. Qed.
Lemma extend_nil m : extend m [] = m.
Proof. unfold extend. rewrite size_nil, Z.add_0_r. by destruct m. Qed.

(** Adding digits never makes a mantissa smaller. *)
Lemma extend_within m ds : 0 <= m_digits m -> 0 <= coefficient m -> digits ds ->
  within (extend m ds) -> within m.
Proof.
  intros Hd Hc Hds [H1 H2]. unfold extend, within in *. cbn in *. rewrite foldl_digits in H2.
  pose proof (digits_value_bounds ds Hds). pose proof (pow10_pos (size ds) (size_nonneg ds)).
  pose proof (size_nonneg ds). nia.
Qed.

Lemma extend_nonneg m c : within m -> isdigit c = true ->
  0 <= m_digits (extend m [c]) /\ 0 <= coefficient (extend m [c]).
Proof.
  intros [Hd Hc] Ec%isdigit_spec. unfold extend, digit_step. cbn [m_digits coefficient foldl].
  change (size [c]) with 1. split; lia.
Qed.

Lemma whole_digits_spec m s m' rest : within m ->
  whole_digits m s = inl (m', rest) <->
  exists ds, s = ds ++ rest /\ digits ds /\ no_digit rest = true /\ m' = extend m ds /\ within m'.
Proof.
  revert m. induction s as [|c s IH]; intros m Hm; cbn [whole_digits].
  - split.
    + intros [= <- <-]. exists []. rewrite extend_nil. done.
    + intros ([|] & [= <-] & _ & _ & -> & _). by rewrite extend_nil.
  - destruct (isdigit c) eqn:Ec.
    + destruct (append_ok m c Hm Ec) as [(-> & Hw)|((f & ->) & Hw)].
      * rewrite IH by done. split.
        -- intros (ds & -> & Hds & Hn & -> & Hw'). exists (c :: ds).
           split_and!; [done|by constructor|done|by rewrite extend_app|by rewrite extend_app in *].
        -- intros ([|d ds] & Heq & Hds & Hn & -> & Hw').
           { cbn in Heq. subst rest. cbn in Hn. by rewrite Ec in Hn. }
           injection Heq as <- ->. inv_forall. exists ds. rewrite extend_app. done.
      * split; [done|]. intros ([|d ds] & Heq & Hds & Hn & -> & Hw').
        { cbn in Heq. subst rest. cbn in Hn. by rewrite Ec in Hn. }
        injection Heq as <- ->. inv_forall. destruct Hw.
        apply (extend_within _ ds); [by apply extend_nonneg..|done|by rewrite extend_app].
    + split.
      * intros [= <- <-]. exists []. rewrite extend_nil. cbn. rewrite Ec. done.
      * intros ([|d ds] & Heq & Hds & Hn & -> & Hw').
        { cbn in Heq. subst rest. by rewrite extend_nil. }
        injection Heq as <- ->. inv_forall. congruence.
Qed.

Lemma fraction_digits_spec m n s m' n' rest : within m -> 0 <= n <= 18 ->
  fraction_digits m n s = inl (m', n', rest) <->
  exists ds, s = ds ++ rest /\ digits ds /\ no_digit rest = true /\ m' = extend m ds /\ within m' /\
             n' = n + size ds /\ n' <= 18.
Proof.
  revert m n. induction s as [|c s IH]; intros m n Hm Hn; cbn [fraction_digits].
  - split.
    + intros [= <- <- <-]. exists []. rewrite extend_nil, size_nil. split_and!; try done; lia.
    + intros ([|] & [= <-] & _ & _ & -> & _ & -> & _). rewrite extend_nil, size_nil. do 3 f_equal. lia.
  - destruct (isdigit c) eqn:Ec.
    + destruct (18 <? n + 1) eqn:E18; zb.
      { split; [done|]. intros ([|d ds] & Heq & Hds & Hno & -> & Hw' & -> & Hle).
        - cbn in Heq. subst rest. cbn in Hno. by rewrite Ec in Hno.
        - rewrite size_cons in Hle. pose proof (size_nonneg ds). lia. }
      destruct (append_ok m c Hm Ec) as [(-> & Hw)|((f & ->) & Hw)].
      * rewrite IH by (done || lia). split.
        -- intros (ds & -> & Hds & Hno & -> & Hw' & -> & Hle). exists (c :: ds). rewrite size_cons.
           split_and!; [done|by constructor|done|by rewrite extend_app|by rewrite extend_app in *|lia|lia].
        -- intros ([|d ds] & Heq & Hds & Hno & -> & Hw' & -> & Hle).
           { cbn in Heq. subst rest. cbn in Hno. by rewrite Ec in Hno. }
           injection Heq as <- ->. inv_forall. exists ds. rewrite extend_app, size_cons in *. split_and!; done || lia.
      * split; [done|]. intros ([|d ds] & Heq & Hds & Hno & -> & Hw' & -> & Hle).
        { cbn in Heq. subst rest. cbn in Hno. by rewrite Ec in Hno. }
        injection Heq as <- ->. inv_forall. destruct Hw.
        apply (extend_within _ ds); [by apply extend_nonneg..|done|by rewrite extend_app].
    + split.
      * intros [= <- <- <-]. exists []. rewrite extend_nil, size_nil. cbn. rewrite Ec. split_and!; try done; lia.
      * intros ([|d ds] & Heq & Hds & Hno & -> & Hw' & -> & Hle).
        { cbn in Heq. subst rest. rewrite extend_nil, size_nil. do 3 f_equal. lia. }
        injection Heq as <- ->. inv_forall. congruence.
Qed.

Lemma exponent_digits_spec n e s e' rest : 0 <= n <= 2 ->
  exponent_digits n e s = inl (e', rest) <->
  exists ds, s = ds ++ rest /\ digits ds /\ no_digit rest = true /\ e' = foldl digit_step e ds /\ n + size ds <= 2.
Proof.
  revert n e. induction s as [|c s IH]; intros n e Hn; cbn [exponent_digits].
  - split.
    + intros [= <- <-]. exists []. rewrite size_nil. split_and!; done || lia.
    + by intros ([|] & [= <-] & _ & _ & -> & _).
  - destruct (isdigit c) eqn:Ec.
    + destruct (2 <? n + 1) eqn:E2; zb.
      { split; [done|]. intros ([|d ds] & Heq & Hds & Hno & -> & Hle).
        - cbn in Heq. subst rest. cbn in Hno. by rewrite Ec in Hno.
        - rewrite size_cons in Hle. pose proof (size_nonneg ds). lia. }
      rewrite IH by lia. replace (e * 10 + c - ch "0") with (digit_step e c) by (unfold digit_step; lia). split.
      * intros (ds & -> & Hds & Hno & -> & Hle). exists (c :: ds). rewrite size_cons.
        split_and!; [done|by constructor|done|done|lia].
      * intros ([|d ds] & Heq & Hds & Hno & -> & Hle).
        { cbn in Heq. subst rest. cbn in Hno. by rewrite Ec in Hno. }
        injection Heq as <- ->. inv_forall. exists ds. rewrite size_cons in *. split_and!; done || lia.
    + split.
      * intros [= <- <-]. exists []. rewrite size_nil. cbn. rewrite Ec. split_and!; done || lia.
      * intros ([|d ds] & Heq & Hds & Hno & -> & Hle); [by cbn in Heq; subst rest|].
        injection Heq as <- ->. inv_forall. congruence.
Qed.

(** The fraction part of a number: nothing, or a point and its digits. *)
Definition point (fp : bytes) : bytes := match fp with [] => [] | _ => ch "." :: fp end.

Inductive exponent_text : bytes -> Z -> Prop :=
| exponent_none : exponent_text [] 0
| exponent_some c sign es :
    c = ch "e" \/ c = ch "E" -> sign = [] \/ sign = [ch "+"] \/ sign = [ch "-"] ->
    digits es -> es <> [] -> size es <= 2 -> digits_value es <= 18 ->
    exponent_text (c :: sign ++ es) (if bool_decide (sign = [ch "-"]) then - digits_value es else digits_value es).

Lemma start_within : within {| m_digits := 0; coefficient := 0 |}.
Proof. unfold within, INT64_MAX. cbn. lia. Qed.

Lemma extend_start ds : extend {| m_digits := 0; coefficient := 0 |} ds =
  {| m_digits := size ds; coefficient := digits_value ds |}.
Proof. done. Qed.

Lemma json_whole_spec s m rest :
  json_whole s = inl (m, rest) <->
  exists ip, s = ip ++ rest /\ digits ip /\ ip <> [] /\ (head ip = Some (ch "0") -> ip = [ch "0"]) /\
    no_digit rest = true /\ m = extend {| m_digits := 0; coefficient := 0 |} ip /\ within m.
Proof.
  destruct s as [|c s]; cbn [json_whole].
  { split; [done|]. by intros ([|] & ? & _ & ? & _). }
  destruct (isdigit c) eqn:Ec; cbn [negb].
  2: { split; [done|]. intros ([|d ip] & Heq & Hd & Hn & _); [done|]. injection Heq as <- _. inv_forall. congruence. }
  destruct (c =? ch "0") eqn:E0; zb.
  - subst c. change (append _ 48) with (inl (B := TimestampFailure) {| m_digits := 1; coefficient := 0 |}).
    destruct (no_digit s) eqn:En.
    + split.
      * intros [= <- <-]. exists [ch "0"]. split_and!; try done; repeat constructor; unfold INT64_MAX; cbn; lia.
      * intros ([|d ip] & Heq & Hd & Hne & Hz & Hno & -> & Hw); [done|]. injection Heq as <- ->.
        assert (ip = []) as -> by (specialize (Hz eq_refl); by injection Hz). done.
    + split; [done|]. intros ([|d ip] & Heq & Hd & Hne & Hz & Hno & _); [done|]. injection Heq as <- ->.
      assert (ip = []) as -> by (specialize (Hz eq_refl); by injection Hz). cbn in En. congruence.
  - rewrite whole_digits_spec by apply start_within. split.
    + intros (ds & Heq & Hd & Hno & -> & Hw). exists ds. split_and!; try done.
      * intros ->. cbn in Heq. subst rest. cbn in Hno. by rewrite Ec in Hno.
      * destruct ds as [|d ds]; [done|]. injection Heq as <- _. by intros [= ->].
    + intros (ip & Heq & Hd & _ & _ & Hno & -> & Hw). by exists ip.
Qed.

Lemma json_fraction_spec m s m' n rest : within m -> no_digit s = true ->
  json_fraction m s = inl (m', n, rest) <->
  exists fp, s = point fp ++ rest /\ digits fp /\ (fp = [] -> head rest <> Some (ch ".")) /\
    (fp <> [] -> no_digit rest = true) /\ m' = extend m fp /\ within m' /\ n = size fp /\ n <= 18.
Proof.
  intros Hm Hs. destruct s as [|c s]; cbn [json_fraction].
  { split.
    - intros [= <- <- <-]. exists []. rewrite extend_nil. split_and!; try done.
    - intros ([|f fp] & Heq & _ & _ & _ & -> & _ & -> & _); [|done]. cbn in Heq. subst rest. by rewrite extend_nil. }
  destruct (c =? ch ".") eqn:Ec; zb.
  - subst c. destruct (no_digit s) eqn:En.
    + split; [done|]. intros ([|f fp] & Heq & Hd & Hh & _).
      { cbn in Heq. subst rest. by destruct (Hh eq_refl). }
      injection Heq as ->. inv_forall. cbn in En. by rewrite H in En.
    + rewrite fraction_digits_spec by (done || lia). split.
      * intros (ds & -> & Hd & Hno & -> & Hw & -> & Hle). exists ds.
        destruct ds as [|d ds]; [cbn in En; congruence|]. split_and!; try done; lia.
      * intros ([|f fp] & Heq & Hd & Hh & Hno & -> & Hw & -> & Hle).
        { cbn in Heq. subst rest. by destruct (Hh eq_refl). }
        injection Heq as ->. exists (f :: fp). split_and!; try done; try lia. by apply Hno.
  - split.
    + intros [= <- <- <-]. exists []. rewrite extend_nil. split_and!; try done. cbn. congruence.
    + intros ([|f fp] & Heq & _ & _ & _ & -> & _ & -> & _).
      * cbn in Heq. subst rest. by rewrite extend_nil.
      * injection Heq as -> _. done.
Qed.

Definition is_sign (sign : bytes) : Prop := sign = [] \/ sign = [ch "+"] \/ sign = [ch "-"].

Lemma exponent_sign_spec s : exists sign t,
  is_sign sign /\ s = sign ++ t /\ exponent_sign s = (bool_decide (sign = [ch "-"]), t) /\
  forall sign' es, is_sign sign' -> digits es -> es <> [] -> s = sign' ++ es -> sign' = sign /\ t = es.
Proof.
  assert (forall x es, digits (x :: es) -> x <> ch "+" /\ x <> ch "-") as Hx.
  { intros x es Hd. inv_forall. apply isdigit_spec in H. lia. }
  destruct s as [|c s].
  { exists [], []. split_and!; try done; [by left|]. intros sign' es _ _ Hne Heq. destruct sign', es; done. }
  cbn [exponent_sign]. destruct (Z.eq_dec c (ch "+")) as [->|N1]; [|destruct (Z.eq_dec c (ch "-")) as [->|N2]].
  - exists [ch "+"], s. split_and!; try done; [by right; left|]. intros sign' es [-> | [-> | ->]] Hd Hne Heq.
    + cbn in Heq. subst es. by destruct (Hx _ _ Hd).
    + by injection Heq as ->.
    + done.
  - exists [ch "-"], s. split_and!; try done; [by right; right|]. intros sign' es [-> | [-> | ->]] Hd Hne Heq.
    + cbn in Heq. subst es. by destruct (Hx _ _ Hd).
    + done.
    + by injection Heq as ->.
  - exists [], (c :: s). do 2 ztest. split_and!; try done; [by left|].
    intros sign' es [-> | [-> | ->]] Hd Hne Heq; cbn in Heq; [by subst es|by injection Heq as -> _..].
Qed.

Lemma json_exponent_spec s e :
  json_exponent s = inl (e, []) <-> exponent_text s e.
Proof.
  destruct s as [|c s]; cbn [json_exponent].
  { split; [intros [= <-]; constructor|by inversion 1]. }
  destruct ((c =? ch "e") || (c =? ch "E")) eqn:Ec.
  2: { split; [done|]. inversion 1 as [|c' sign es Hc]; subst. zb. lia. }
  assert (c = ch "e" \/ c = ch "E") as Hc by (zb; lia).
  destruct (exponent_sign_spec s) as (sign & t & Hsign & -> & -> & Huniq).
  destruct (no_digit t) eqn:En.
  { split; [done|]. inversion 1 as [|c' sign' es Hc' Hs' Hd Hne Hsz Hv Heq]; subst.
    destruct (Huniq sign' es Hs' Hd Hne) as [-> ->]; [done|]. destruct es as [|x es]; [done|]. inv_forall.
    cbn in En. match goal with H : isdigit x = true |- _ => by rewrite H in En end. }
  destruct (exponent_digits 0 0 t) as [[ev rest]|] eqn:Ee.
  - apply exponent_digits_spec in Ee as (ds & -> & Hd & Hno & -> & Hle); [|lia].
    change (foldl digit_step 0 ds) with (digits_value ds).
    assert (ds <> []) as Hne by (intros ->; cbn in En; congruence).
    destruct (18 <? digits_value ds) eqn:E18; zb.
    + split; [done|]. inversion 1 as [|c' sign' es Hc' Hs' Hd' Hne' Hsz Hv Heq]; subst.
      destruct (Huniq sign' es Hs' Hd' Hne') as [-> Heq']; [done|].
      assert (rest = []) as ->.
      { rewrite <- Heq' in Hd'. apply Forall_app in Hd' as [_ Hd']. destruct rest as [|x rest]; [done|]. inv_forall.
        cbn in Hno. match goal with H : isdigit x = true |- _ => by rewrite H in Hno end. }
      rewrite app_nil_r in Heq'. subst es. lia.
    + split.
      * intros [= <- ->]. rewrite app_nil_r. constructor; try done; lia.
      * inversion 1 as [|c' sign' es Hc' Hs' Hd' Hne' Hsz Hv Heq]; subst.
        destruct (Huniq sign' es Hs' Hd' Hne') as [-> Heq']; [done|].
        assert (rest = []) as ->.
        { rewrite <- Heq' in Hd'. apply Forall_app in Hd' as [_ Hd']. destruct rest as [|x rest]; [done|]. inv_forall.
          cbn in Hno. match goal with H : isdigit x = true |- _ => by rewrite H in Hno end. }
        rewrite app_nil_r in Heq'. by subst es.
  - split; [done|]. inversion 1 as [|c' sign' es Hc' Hs' Hd' Hne' Hsz Hv Heq]; subst.
    destruct (Huniq sign' es Hs' Hd' Hne') as [-> ->]; [done|].
    assert (exponent_digits 0 0 es = inl (foldl digit_step 0 es, [])) as Hok.
    { apply exponent_digits_spec; [lia|]. exists es. rewrite app_nil_r. split_and!; done || lia. }
    congruence.
Qed.

Lemma max_tenth c : INT64_MAX / 10 < c <-> INT64_MAX < c * 10.
Proof. unfold INT64_MAX. dlia. Qed.

Lemma scale_up_spec n c u : 0 < c ->
  scale_up n c = inl u <-> u = c * 10 ^ Z.of_nat n /\ (n <> 0%nat -> u <= INT64_MAX).
Proof.
  revert c. induction n as [|n IH]; intros c Hc; cbn [scale_up].
  { rewrite Z.mul_1_r. split; [by intros [= <-]|by intros [-> _]]. }
  pose proof (pow10_pos (Z.of_nat n)). rewrite Nat2Z.inj_succ, Z.pow_succ_r by lia.
  pose proof (max_tenth c) as Hm. destruct (_ <? _) eqn:E; zb.
  - split; [done|]. intros [-> Hle]. specialize (Hle ltac:(done)). apply Hm in E. nia.
  - rewrite IH by lia. rewrite <- Z.mul_assoc. split; intros [-> Hle]; (split; [done|]); intros _.
    + destruct n as [|n]; [|by apply Hle]. rewrite Z.mul_1_r. lia.
    + by apply Hle.
Qed.

Lemma scale_down_spec n c u : scale_down n c = inl u <-> c = u * 10 ^ Z.of_nat n.
Proof.
  revert c. induction n as [|n IH]; intros c; cbn [scale_down].
  { rewrite Z.mul_1_r. naive_solver. }
  rewrite Nat2Z.inj_succ, Z.pow_succ_r by lia. destruct (_ =? _) eqn:E; cbn [negb]; zb.
  - rewrite IH. split; intros H.
    + rewrite (Z.mul_comm 10), Z.mul_assoc, <- H. dlia.
    + rewrite H. replace (u * (10 * 10 ^ Z.of_nat n)) with (u * 10 ^ Z.of_nat n * 10) by ring. by rewrite Z.div_mul.
  - split; [done|]. intros ->. destruct E.
    replace (u * (10 * 10 ^ Z.of_nat n)) with (u * 10 ^ Z.of_nat n * 10) by ring. by rewrite Z.mod_mul.
Qed.

(** Scaling in both directions is exact scaling by a power of ten. *)
Lemma scaling_exact (D u f e : Z) : 0 < D -> D <= INT64_MAX -> 0 <= f <= 18 -> -18 <= e <= 18 ->
  (exists c, scale_up (Z.to_nat (6 + e - f)) D = inl c /\ scale_down (Z.to_nat (- (6 + e - f))) c = inl u) <->
  0 < u <= INT64_MAX /\ u * 10 ^ (f + 18) = D * 10 ^ (24 + e).
Proof.
  intros HD HM Hf He. set (k := 6 + e - f).
  destruct (Z.le_gt_cases 0 k) as [Hk|Hk].
  - replace (Z.to_nat (- k)) with 0%nat by lia. cbn [scale_down].
    assert (10 ^ (24 + e) = 10 ^ k * 10 ^ (f + 18)) as Hp by (rewrite <- Z.pow_add_r by lia; f_equal; lia).
    pose proof (pow10_pos k Hk). pose proof (pow10_pos (f + 18) ltac:(lia)). split.
    + intros (c & Hc & [= ->]). apply scale_up_spec in Hc as [-> Hle]; [|done]. rewrite Z2Nat.id in * by lia.
      split; [|rewrite Hp; ring]. split; [nia|]. destruct (decide (Z.to_nat k = 0%nat)) as [Hz|Hz]; [|by apply Hle].
      assert (k = 0) as -> by lia. rewrite Z.mul_1_r. done.
    + intros [Hu Heq]. exists u. split; [|done]. apply scale_up_spec; [done|]. rewrite Z2Nat.id by lia.
      split; [|by intros; lia]. rewrite Hp, Z.mul_assoc in Heq. by apply Z.mul_cancel_r in Heq; [|lia].
  - replace (Z.to_nat k) with 0%nat by lia. cbn [scale_up].
    assert (10 ^ (f + 18) = 10 ^ (- k) * 10 ^ (24 + e)) as Hp by (rewrite <- Z.pow_add_r by lia; f_equal; lia).
    pose proof (pow10_pos (- k) ltac:(lia)). pose proof (pow10_pos (24 + e) ltac:(lia)). split.
    + intros (c & [= <-] & Hd). apply scale_down_spec in Hd. rewrite Z2Nat.id in Hd by lia.
      split; [nia|]. rewrite Hp, Hd. ring.
    + intros [Hu Heq]. exists D. split; [done|]. apply scale_down_spec. rewrite Z2Nat.id by lia.
      rewrite Hp, Z.mul_assoc in Heq. by apply Z.mul_cancel_r in Heq; [|lia].
Qed.

Lemma exponent_text_bounds ex e : exponent_text ex e -> -18 <= e <= 18 /\ no_digit ex = true /\ head ex <> Some (ch ".").
Proof.
  destruct 1 as [|c sign es Hc Hs Hd Hne Hsz Hv]; [split_and!; try done; lia|].
  pose proof (digits_value_bounds es Hd). split_and!.
  - case_bool_decide; lia.
  - case_bool_decide; lia.
  - cbn. destruct Hc as [-> | ->]; done.
  - cbn. destruct Hc as [-> | ->]; done.
Qed.

(** A JSON number of seconds with its parts: whole digits without leading
    zeros, the digits of a fraction, and an exponent. *)
Record json_number (text ip fp : bytes) (e : Z) : Prop := {
  jn_text : exists ex, exponent_text ex e /\ text = ip ++ point fp ++ ex;
  jn_whole : digits ip /\ ip <> [] /\ (head ip = Some (ch "0") -> ip = [ch "0"]);
  jn_fraction : digits fp /\ size fp <= 18;
  jn_mantissa : size (ip ++ fp) <= 19 /\ digits_value (ip ++ fp) <= INT64_MAX }.

Lemma json_seconds_spec text u :
  json_seconds text = Instant u <->
  exists ip fp e, json_number text ip fp e /\ 0 < u <= INT64_MAX /\
    u * 10 ^ (size fp + 18) = digits_value (ip ++ fp) * 10 ^ (24 + e).
Proof.
  split.
  - unfold json_seconds.
    destruct (match text with c :: t => if c =? ch "-" then (true, t) else (false, text) | [] => (false, text) end)
      as [neg s] eqn:Es.
    destruct (json_whole s) as [[m s1]|] eqn:E1; [|done]. apply json_whole_spec in E1 as (ip & -> & Hip & Hne & Hz & Hno & -> & Hw).
    destruct (json_fraction _ s1) as [[[m2 n] s2]|] eqn:E2; [|done].
    apply json_fraction_spec in E2 as (fp & -> & Hfp & _ & _ & -> & Hw2 & -> & Hle); [|done..].
    destruct (json_exponent s2) as [[e s3]|] eqn:E3; [|done]. destruct s3; [|done].
    apply json_exponent_spec in E3. rewrite extend_app, extend_start in *. cbn [coefficient].
    destruct neg; [done|]. cbn [orb]. destruct (_ =? 0) eqn:Ez; [done|]. zb.
    assert (text = ip ++ point fp ++ s2) as Ht.
    { destruct text as [|c text]; [by injection Es as <-|]. destruct (c =? ch "-"); [done|]. by injection Es as <-. }
    destruct (scale_up _ _) as [c|] eqn:E4; [|done]. destruct (scale_down _ _) as [c'|] eqn:E5; [|done]. intros [= <-].
    destruct Hw2 as [Hs Hv]. cbn in Hs, Hv. pose proof (exponent_text_bounds _ _ E3) as [He _].
    assert (Forall (fun c => isdigit c = true) (ip ++ fp)) as Hall by (by apply Forall_app).
    pose proof (digits_value_bounds _ Hall). pose proof (size_nonneg fp).
    exists ip, fp, e. split; [constructor; eauto; lia|]. apply scaling_exact; try lia. eauto.
  - intros (ip & fp & e & [(ex & Hex & ->) (Hip & Hne & Hz) (Hfp & Hle) (Hs & Hv)] & Hu & Heq).
    pose proof (exponent_text_bounds _ _ Hex) as (He & Hnd & Hpt). pose proof (size_nonneg fp).
    assert (Forall (fun c => isdigit c = true) (ip ++ fp)) as Hall by (by apply Forall_app).
    pose proof (digits_value_bounds _ Hall) as Hpos. pose proof (pow10_pos (size fp + 18) ltac:(lia)).
    pose proof (pow10_pos (24 + e) ltac:(lia)).
    assert (0 < digits_value (ip ++ fp)) as HD by nia.
    assert (no_digit (point fp ++ ex) = true) as Hno by (destruct fp; done).
    assert (within (extend {| m_digits := 0; coefficient := 0 |} (ip ++ fp))) as Hw.
    { rewrite extend_start. split; cbn; [pose proof (size_nonneg (ip ++ fp))|]; lia. }
    assert (within (extend {| m_digits := 0; coefficient := 0 |} ip)) as Hw1.
    { rewrite <- extend_app in Hw. apply (extend_within _ fp); try done; rewrite extend_start; cbn; [apply size_nonneg|].
      by apply digits_value_bounds. }
    unfold json_seconds.
    assert (match ip ++ point fp ++ ex with
            | c :: t => if c =? ch "-" then (true, t) else (false, ip ++ point fp ++ ex)
            | [] => (false, ip ++ point fp ++ ex) end = (false, ip ++ point fp ++ ex)) as ->.
    { destruct ip as [|c ip]; [done|]. inv_forall. apply isdigit_spec in H2. cbn [app]. by ztest. }
    rewrite (proj2 (json_whole_spec _ (extend {| m_digits := 0; coefficient := 0 |} ip) (point fp ++ ex)))
      by (exists ip; split_and!; done).
    rewrite (proj2 (json_fraction_spec _ _ (extend {| m_digits := 0; coefficient := 0 |} (ip ++ fp)) (size fp) ex Hw1 Hno))
      by (exists fp; rewrite extend_app; split_and!; done).
    rewrite (proj2 (json_exponent_spec ex e) Hex), extend_start. cbn [coefficient orb].
    rewrite (proj2 (Z.eqb_neq _ _)) by lia.
    destruct (proj2 (scaling_exact (digits_value (ip ++ fp)) u (size fp) e HD Hv ltac:(lia) He) (conj Hu Heq))
      as (c & -> & ->). done.
Qed.

(** ** ISO 8601, exactly *)

(** The days of a year, and the days from the start of 1970 to the start of a
    year, counted year by year. *)
Definition year_length (year : Z) : Z := if leap year then 366 else 365.
Fixpoint days_in_years (first : Z) (n : nat) : Z :=
  match n with O => 0 | S n => days_in_years first n + year_length (first + Z.of_nat n) end.

(** The days of the months before a month. *)
Fixpoint days_in_months (year : Z) (n : nat) : Z :=
  match n with O => 0 | S n => days_in_months year n + month_length year (Z.of_nat n + 1) end.

Lemma div_step y k : 0 < k -> y / k - (y - 1) / k = if y mod k =? 0 then 1 else 0.
Proof.
  intros Hk. destruct (y mod k =? 0) eqn:E; zb.
  - assert ((y - 1) / k = y / k - 1) as ->; [|lia].
    symmetry. apply (Z.div_unique _ _ _ (k - 1)); [lia|].
    pose proof (Z.div_mod y k ltac:(lia)). lia.
  - assert ((y - 1) / k = y / k) as ->; [|lia].
    symmetry. apply (Z.div_unique _ _ _ (y mod k - 1)); [pose proof (Z.mod_pos_bound y k Hk); lia|].
    pose proof (Z.div_mod y k ltac:(lia)). lia.
Qed.

Lemma days_before_next y : days_before_year (y + 1) = days_before_year y + year_length y.
Proof.
  unfold days_before_year, year_length, leap. cbv zeta. replace (y + 1 - 1) with y by lia.
  pose proof (div_step y 4 ltac:(lia)) as H4. pose proof (div_step y 100 ltac:(lia)) as H100.
  pose proof (div_step y 400 ltac:(lia)) as H400.
  assert (y mod 400 = 0 -> y mod 100 = 0) by dlia. assert (y mod 100 = 0 -> y mod 4 = 0) by dlia.
  destruct (y mod 4 =? 0) eqn:E4, (y mod 100 =? 0) eqn:E100, (y mod 400 =? 0) eqn:E400; zb; cbn; lia.
Qed.

Lemma days_before_year_sum first n :
  days_before_year (first + Z.of_nat n) - days_before_year first = days_in_years first n.
Proof.
  induction n as [|n IH]; cbn [days_in_years]; [rewrite Z.add_0_r; lia|].
  rewrite Nat2Z.inj_succ. replace (first + Z.succ (Z.of_nat n)) with (first + Z.of_nat n + 1) by lia.
  rewrite days_before_next. lia.
Qed.

Lemma days_to_month_sum year month : days_to_month year month = days_in_months year (Z.to_nat (month - 1)).
Proof.
  unfold days_to_month. induction (Z.to_nat (month - 1)) as [|n IH]; [done|].
  rewrite seq_S, foldl_app, IH. cbn [foldl days_in_months]. do 2 f_equal. lia.
Qed.

(** The date and time a text spells. *)
Record Civil := { c_year : Z; c_month : Z; c_day : Z; c_hour : Z; c_minute : Z; c_second : Z }.

Definition civil_ok (c : Civil) : Prop :=
  1970 <= c_year c <= 9999 /\ 1 <= c_month c <= 12 /\ 1 <= c_day c <= month_length (c_year c) (c_month c) /\
  0 <= c_hour c <= 23 /\ 0 <= c_minute c <= 59 /\ 0 <= c_second c <= 59.

Definition civil_seconds (c : Civil) : Z :=
  (days_in_years 1970 (Z.to_nat (c_year c - 1970)) + days_in_months (c_year c) (Z.to_nat (c_month c - 1)) +
   (c_day c - 1)) * 86400 + c_hour c * 3600 + c_minute c * 60 + c_second c.

Definition spelled (n : nat) (s : bytes) (v : Z) : Prop := digits s /\ length s = n /\ digits_value s = v.

Inductive iso_text : bytes -> Civil -> bytes -> Prop :=
| iso_intro ys ms ds hs mis ss fs c :
    spelled 4 ys (c_year c) -> spelled 2 ms (c_month c) -> spelled 2 ds (c_day c) ->
    spelled 2 hs (c_hour c) -> spelled 2 mis (c_minute c) -> spelled 2 ss (c_second c) ->
    digits fs -> (length fs <= 6)%nat ->
    iso_text (ys ++ ch "-" :: ms ++ ch "-" :: ds ++ ch "T" :: hs ++ ch ":" :: mis ++ ch ":" :: ss ++
              point fs ++ [ch "Z"]) c fs.

Lemma number_spec text o n :
  number text o n = let s := take n (drop o text) in if forallb isdigit s then digits_value s else -1.
Proof.
  unfold number. cbv zeta. generalize (take n (drop o text)). intros s.
  assert (forall t r, r < 0 -> foldl (fun result c => if result <? 0 then result
      else if isdigit c then result * 10 + (c - ch "0") else -1) r t = r) as Hneg.
  { induction t as [|c t IH]; intros r Hr; cbn [foldl]; [done|]. ztest. by apply IH. }
  enough (forall r, 0 <= r -> foldl (fun result c => if result <? 0 then result
      else if isdigit c then result * 10 + (c - ch "0") else -1) r s =
      if forallb isdigit s then foldl digit_step r s else -1) as H by exact (H 0 ltac:(lia)).
  induction s as [|c s IH]; intros r Hr; cbn [foldl forallb]; [done|].
  rewrite (proj2 (Z.ltb_ge _ _)) by lia. destruct (isdigit c) eqn:Ec; cbn [andb].
  - apply isdigit_spec in Ec. rewrite IH by lia. done.
  - rewrite Hneg by lia. done.
Qed.

Lemma number_field text o n v : (o + n <= length text)%nat -> number text o n = v -> 0 <= v ->
  spelled n (take n (drop o text)) v.
Proof.
  intros Hl Hn Hv. rewrite number_spec in Hn. cbv zeta in Hn. destruct (forallb _ _) eqn:E; [|lia].
  split; [by apply forallb_digits|]. split; [|done]. rewrite length_take, length_drop. lia.
Qed.

Lemma number_of a s b o n : length a = o -> length s = n ->
  number (a ++ s ++ b) o n = if forallb isdigit s then digits_value s else -1.
Proof.
  intros <- <-. rewrite number_spec. cbv zeta.
  by rewrite drop_app_length, take_app_length.
Qed.

(** The parts of a text with the separators where [utc_iso] wants them. *)
Inductive iso_shape : bytes -> bytes -> bytes -> bytes -> bytes -> bytes -> bytes -> bytes -> Prop :=
| iso_shape_intro y1 y2 y3 y4 m1 m2 d1 d2 h1 h2 i1 i2 s1 s2 tail :
    iso_shape (y1 :: y2 :: y3 :: y4 :: ch "-" :: m1 :: m2 :: ch "-" :: d1 :: d2 :: ch "T" :: h1 :: h2 :: ch ":" ::
               i1 :: i2 :: ch ":" :: s1 :: s2 :: tail ++ [ch "Z"])
      [y1; y2; y3; y4] [m1; m2] [d1; d2] [h1; h2] [i1; i2] [s1; s2] tail.

Definition separated (text : bytes) : bool :=
  negb ((length text <? 20)%nat || negb (at_pos text 4 =? ch "-") || negb (at_pos text 7 =? ch "-") ||
        negb (at_pos text 10 =? ch "T") || negb (at_pos text 13 =? ch ":") || negb (at_pos text 16 =? ch ":") ||
        negb (at_pos text (length text - 1) =? ch "Z")).

Lemma at_pos_last s : s <> [] -> s = take (length s - 1) s ++ [at_pos s (length s - 1)].
Proof.
  intros Hs. destruct (exists_last Hs) as (t & c & ->). rewrite length_app. cbn [length].
  replace (length t + 1 - 1)%nat with (length t) by lia. by rewrite take_app_length, at_pos_app.
Qed.

Lemma separated_shape text : separated text = true <-> exists ys ms ds hs mis ss tail, iso_shape text ys ms ds hs mis ss tail.
Proof.
  unfold separated. rewrite negb_true_iff. split.
  - intros H. rewrite !orb_false_iff, !negb_false_iff, !Z.eqb_eq, Nat.ltb_ge in H.
    destruct H as ((((((Hl & E4) & E7) & E10) & E13) & E16) & EZ).
    do 19 (destruct text as [|? text]; [cbn in Hl; lia|]). unfold at_pos in E4, E7, E10, E13, E16. cbn in E4, E7, E10, E13, E16.
    subst. assert (text <> []) as Hne by (intros ->; cbn in Hl; lia).
    rewrite (at_pos_last text Hne). do 7 eexists.
    replace (at_pos text (length text - 1)) with (ch "Z"); [constructor|].
    rewrite <- EZ. destruct text; [done|]. unfold at_pos. cbn [length Nat.sub nth]. by rewrite !Nat.sub_0_r.
  - intros (ys & ms & ds & hs & mis & ss & tail & [y1 y2 y3 y4 m1 m2 d1 d2 h1 h2 i1 i2 s1 s2 tail']).
    rewrite !orb_false_iff, !negb_false_iff, !Z.eqb_eq, Nat.ltb_ge. split_and!; try done.
    + cbn [length]. rewrite length_app. cbn. lia.
    + unfold at_pos. cbn [length Nat.sub nth]. rewrite length_app. cbn [length].
      replace (length tail' + 1)%nat with (S (length tail')) by lia. cbn. by rewrite app_nth2, Nat.sub_diag by lia.
Qed.

Definition field_of (s : bytes) : Z := if forallb isdigit s then digits_value s else -1.
Definition civil_of (ys ms ds hs mis ss : bytes) : Civil :=
  {| c_year := field_of ys; c_month := field_of ms; c_day := field_of ds;
     c_hour := field_of hs; c_minute := field_of mis; c_second := field_of ss |}.

Lemma field_of_spec s v : 0 <= v -> field_of s = v <-> spelled (length s) s v.
Proof.
  intros Hv. unfold field_of, spelled. destruct (forallb isdigit s) eqn:E.
  - rewrite <- forallb_digits, E. intuition.
  - rewrite <- forallb_digits, E. intuition (lia || congruence).
Qed.

Lemma iso_numbers text ys ms ds hs mis ss tail : iso_shape text ys ms ds hs mis ss tail ->
  civil_of ys ms ds hs mis ss =
  {| c_year := number text 0 4; c_month := number text 5 2; c_day := number text 8 2;
     c_hour := number text 11 2; c_minute := number text 14 2; c_second := number text 17 2 |}.
Proof. intros []. unfold civil_of, field_of. by rewrite !number_spec. Qed.

(** What follows the seconds, as the code reads it. *)
Definition tail_fraction (tail : bytes) : Z + TimestampFailure :=
  match tail with
  | [] => inl 0
  | c :: fs =>
      if negb (c =? ch ".") || (length fs =? 0)%nat then inr InvalidSyntax
      else if (6 <? length fs)%nat then inr PrecisionLoss
      else if forallb isdigit fs then inl (digits_value fs * 10 ^ (6 - Z.of_nat (length fs))) else inr InvalidSyntax
  end.

Lemma iso_fraction_tail text ys ms ds hs mis ss tail : iso_shape text ys ms ds hs mis ss tail ->
  iso_fraction text = tail_fraction tail.
Proof.
  intros []. unfold iso_fraction, tail_fraction. destruct tail0 as [|c fs]; [done|].
  unfold at_pos. cbn [nth length drop app]. rewrite length_app. cbn [length Nat.add].
  replace ((_ <? 22)%nat) with ((length fs =? 0)%nat).
  2: { destruct (length fs =? 0)%nat eqn:E; symmetry; [apply Nat.ltb_lt|apply Nat.ltb_ge]; zb;
       [apply Nat.eqb_eq in E|apply Nat.eqb_neq in E]; lia. }
  rewrite (proj2 (Nat.eqb_neq _ _)) by lia.
  replace (_ - 21)%nat with (length fs) by lia. by rewrite drop_0, take_app_length.
Qed.

Lemma tail_fraction_spec tail v :
  tail_fraction tail = inl v <->
  exists fs, tail = point fs /\ digits fs /\ (length fs <= 6)%nat /\ v = digits_value fs * 10 ^ (6 - Z.of_nat (length fs)).
Proof.
  split.
  - destruct tail as [|c fs]; cbn [tail_fraction]; [intros [= <-]; exists []; by split_and!; [..|vm_compute|]; try (cbn; lia)|].
    destruct (c =? ch ".") eqn:Ec; [|done]. cbn [negb orb]. destruct (_ =? 0)%nat eqn:E0; [done|].
    destruct (6 <? _)%nat eqn:E6; [done|]. destruct (forallb _ _) eqn:Ef; [|done]. intros [= <-].
    apply Z.eqb_eq in Ec as ->. apply Nat.ltb_ge in E6. apply forallb_digits in Ef.
    exists fs. split_and!; try done. by destruct fs.
  - intros (fs & -> & Hd & Hl & ->). destruct fs as [|c fs]; [done|]. cbn [point tail_fraction].
    apply forallb_digits in Hd. rewrite Hd. by rewrite (proj2 (Nat.ltb_ge _ _)) by done.
Qed.

Lemma month_length_bounds year month : 1 <= month <= 12 -> 28 <= month_length year month <= 31.
Proof.
  intros H. unfold month_length.
  assert (exists i, (i < 12)%nat /\ month = Z.of_nat i + 1) as (i & Hi & ->) by (exists (Z.to_nat (month - 1)); lia).
  do 12 (destruct i as [|i]; [destruct (leap year); split; vm_compute; discriminate|]). lia.
Qed.

Lemma days_in_years_bounds first n : 0 <= days_in_years first n <= 366 * Z.of_nat n.
Proof.
  induction n as [|n IH]; cbn [days_in_years]; [lia|].
  unfold year_length. destruct (leap _); rewrite Nat2Z.inj_succ; lia.
Qed.

Lemma days_in_months_bounds year n : (n <= 12)%nat -> 0 <= days_in_months year n <= 31 * Z.of_nat n.
Proof.
  induction n as [|n IH]; intros Hn; cbn [days_in_months]; [lia|].
  pose proof (month_length_bounds year (Z.of_nat n + 1) ltac:(lia)). specialize (IH ltac:(lia)). lia.
Qed.

(** No date of a four-digit year comes near the overflow test. *)
Lemma civil_seconds_bounds c : civil_ok c -> 0 <= civil_seconds c < 300000000000.
Proof.
  intros (Hy & Hm & Hd & Hh & Hi & Hs). unfold civil_seconds.
  pose proof (days_in_years_bounds 1970 (Z.to_nat (c_year c - 1970))).
  pose proof (days_in_months_bounds (c_year c) (Z.to_nat (c_month c - 1)) ltac:(lia)).
  pose proof (month_length_bounds (c_year c) (c_month c) Hm). lia.
Qed.

Definition civil_okb (c : Civil) : bool :=
  negb ((c_year c <? 1970) || (c_month c <? 1) || (12 <? c_month c) || (c_day c <? 1) || (c_hour c <? 0) ||
        (23 <? c_hour c) || (c_minute c <? 0) || (59 <? c_minute c) || (c_second c <? 0) || (59 <? c_second c)) &&
  negb (month_length (c_year c) (c_month c) <? c_day c).

Lemma civil_okb_spec c : c_year c <= 9999 -> civil_okb c = true <-> civil_ok c.
Proof.
  intros Hy. unfold civil_okb, civil_ok. rewrite andb_true_iff, !negb_true_iff, !orb_false_iff, !Z.ltb_ge. intuition lia.
Qed.

Lemma fraction_bounds fs : digits fs -> (length fs <= 6)%nat ->
  0 <= digits_value fs * 10 ^ (6 - Z.of_nat (length fs)) < 1000000.
Proof.
  intros Hd Hl. pose proof (digits_value_bounds fs Hd) as Hb. unfold size in Hb.
  pose proof (pow10_pos (6 - Z.of_nat (length fs)) ltac:(lia)).
  assert (10 ^ Z.of_nat (length fs) * 10 ^ (6 - Z.of_nat (length fs)) = 1000000) as E.
  { rewrite <- Z.pow_add_r by lia. by replace (_ + _) with 6 by lia. }
  nia.
Qed.

Definition iso_micros (c : Civil) (fs : bytes) : Z :=
  civil_seconds c * 1000000 + digits_value fs * 10 ^ (6 - Z.of_nat (length fs)).

Lemma civil_of_year ys ms ds hs mis ss : length ys = 4%nat -> c_year (civil_of ys ms ds hs mis ss) <= 9999.
Proof.
  intros H. cbn. unfold field_of. destruct (forallb isdigit ys) eqn:E; [|lia].
  apply forallb_digits, digits_value_bounds in E. unfold size in E. rewrite H in E. cbn in E. lia.
Qed.

Lemma days_civil c : civil_ok c ->
  days_before_year (c_year c) - days_before_year 1970 + c_day c - 1 + days_to_month (c_year c) (c_month c) =
  days_in_years 1970 (Z.to_nat (c_year c - 1970)) + days_in_months (c_year c) (Z.to_nat (c_month c - 1)) + (c_day c - 1).
Proof.
  intros (Hy & _). rewrite <- days_before_year_sum, days_to_month_sum, Z2Nat.id by lia.
  replace (1970 + (c_year c - 1970)) with (c_year c) by lia. lia.
Qed.

Lemma utc_iso_unseparated text : separated text = false -> utc_iso text = Fails InvalidSyntax.
Proof. unfold separated, utc_iso. intros ->%negb_false_iff. done. Qed.

(** [utc_iso] from the parts of the text. *)
Lemma utc_iso_parts text ys ms ds hs mis ss tail : iso_shape text ys ms ds hs mis ss tail ->
  utc_iso text =
  let c := civil_of ys ms ds hs mis ss in
  if civil_okb c then
    match tail_fraction tail with
    | inr f => Fails f
    | inl fraction =>
        if civil_seconds c * 1000000 + fraction <=? 0 then Fails Nonpositive
        else Instant (civil_seconds c * 1000000 + fraction)
    end
  else Fails InvalidSyntax.
Proof.
  intros Hs. assert (separated text = true) as Hsep by (apply separated_shape; eauto 10).
  pose proof (iso_numbers _ _ _ _ _ _ _ _ Hs) as En. pose proof (civil_of_year ys ms ds hs mis ss) as Hyear.
  unfold utc_iso. unfold separated in Hsep. apply negb_true_iff in Hsep. rewrite Hsep, (iso_fraction_tail _ _ _ _ _ _ _ _ Hs).
  cbv zeta. set (c := civil_of ys ms ds hs mis ss) in *.
  replace (number text 0 4) with (c_year c) by (by rewrite En). replace (number text 5 2) with (c_month c) by (by rewrite En).
  replace (number text 8 2) with (c_day c) by (by rewrite En). replace (number text 11 2) with (c_hour c) by (by rewrite En).
  replace (number text 14 2) with (c_minute c) by (by rewrite En). replace (number text 17 2) with (c_second c) by (by rewrite En).
  destruct (civil_okb c) eqn:Eok; unfold civil_okb in Eok.
  - pose proof Eok as Hok. fold (civil_okb c) in Hok. apply civil_okb_spec in Hok; [|apply Hyear; by destruct Hs].
    apply andb_true_iff in Eok as [->%negb_true_iff ->%negb_true_iff].
    destruct (tail_fraction tail) as [fr|] eqn:Ef; [|done]. rewrite days_civil by done. fold (civil_seconds c).
    apply tail_fraction_spec in Ef as (fs & _ & Hfs & Hl & ->). pose proof (fraction_bounds fs Hfs Hl).
    pose proof (civil_seconds_bounds c Hok). unfold INT64_MAX.
    rewrite (proj2 (Z.ltb_ge _ _)) by dlia. done.
  - apply andb_false_iff in Eok as [Eok | Eok]; apply negb_false_iff in Eok; rewrite Eok; [done|]. match goal with |- (if ?b then _ else _) = _ => by destruct b end.
Qed.

Lemma utc_iso_spec text u :
  utc_iso text = Instant u <->
  exists c fs, iso_text text c fs /\ civil_ok c /\ u = iso_micros c fs /\ 0 < u.
Proof.
  split.
  - destruct (separated text) eqn:Esep; [|by rewrite utc_iso_unseparated].
    apply separated_shape in Esep as (ys & ms & ds & hs & mis & ss & tail & Hs).
    rewrite (utc_iso_parts _ _ _ _ _ _ _ _ Hs). cbv zeta. destruct (civil_okb _) eqn:Eok; [|done].
    apply civil_okb_spec in Eok; [|apply civil_of_year; by destruct Hs].
    destruct (tail_fraction tail) as [fr|] eqn:Ef; [|done]. destruct (_ <=? 0) eqn:E0; [done|]. intros [= <-]. zb.
    apply tail_fraction_spec in Ef as (fs & -> & Hfs & Hl & ->).
    exists (civil_of ys ms ds hs mis ss), fs. split_and!; [|done..]. destruct Eok as (? & ? & ? & ? & ? & ?).
    assert (text = ys ++ ch "-" :: ms ++ ch "-" :: ds ++ ch "T" :: hs ++ ch ":" :: mis ++ ch ":" :: ss ++
              point fs ++ [ch "Z"]) as -> by (remember (point fs) as t; by destruct Hs).
    assert (length ys = 4 /\ length ms = 2 /\ length ds = 2 /\ length hs = 2 /\ length mis = 2 /\ length ss = 2)%nat
      as (L1 & L2 & L3 & L4 & L5 & L6) by (remember (point fs) as t; by destruct Hs).
    constructor; [rewrite <- L1|rewrite <- L2|rewrite <- L3|rewrite <- L4|rewrite <- L5|rewrite <- L6|done..];
      apply field_of_spec; done || (cbn in *; lia).
  - intros (c & fs & Ht & Hok & -> & Hu). destruct Ht as [ys ms ds hs mis ss fs c Hy Hm Hd Hh Hi Hss Hfs Hl].
    assert (civil_of ys ms ds hs mis ss = c) as Ec.
    { destruct Hok as (? & ? & ? & ? & ? & ?). destruct c as [cy cm cd chh ci cs]. cbn in *. unfold civil_of.
      f_equal; apply field_of_spec; try lia;
        match goal with H : spelled _ ?s _ |- spelled _ ?s _ => destruct H as (? & ? & ?); done end. }
    destruct Hy as (_ & Ly & _), Hm as (_ & Lm & _), Hd as (_ & Ld & _), Hh as (_ & Lh & _), Hi as (_ & Li & _), Hss as (_ & Ls & _).
    rewrite (utc_iso_parts _ ys ms ds hs mis ss (point fs)).
    2: { repeat match goal with H : length ?l = _ |- _ => is_var l; destruct l as [|? l]; cbn in H; [|injection H as H]; try done end.
         repeat match goal with H : length ?l = _ |- _ => apply length_zero_iff_nil in H as -> end.
         cbn [app]. constructor. }
    cbv zeta. rewrite Ec, (proj2 (civil_okb_spec c ltac:(destruct Hok; lia)) Hok).
    rewrite (proj2 (tail_fraction_spec (point fs) (digits_value fs * 10 ^ (6 - Z.of_nat (length fs))))) by eauto 10.
    unfold iso_micros in *. by rewrite (proj2 (Z.leb_gt _ _)).
Qed.

(** A timestamp an issuer sends is read exactly: a text is accepted with
    instant [u] if and only if it is one of at most 64 bytes that spells, as a
    JSON number of seconds or as an ISO 8601 date and time with at most six
    fractional digits, the positive instant of [u] microseconds of UTC; no
    rounding, no overflow, no other spelling. *)
Theorem issuer_timestamp_exact (format : IssuerTimestampFormat) (text : bytes) (u : Z) :
  parse_issuer_timestamp format text = Instant u <->
  size text <= 64 /\ 0 < u <= INT64_MAX /\
  match format with
  | JsonSeconds => exists ip fp e, json_number text ip fp e /\
      u * 10 ^ (size fp + 18) = digits_value (ip ++ fp) * 10 ^ (24 + e)
  | UtcIso8601 => exists c fs, iso_text text c fs /\ civil_ok c /\
      u = civil_seconds c * 1000000 + digits_value fs * 10 ^ (6 - Z.of_nat (length fs))
  end.
Proof.
  unfold parse_issuer_timestamp. destruct text as [|c0 text0] eqn:Et.
  { split; [done|]. intros (_ & _ & H). destruct format.
    - destruct H as (ip & fp & e & [(ex & _ & H) (_ & Hne & _) _ _] & _). by destruct ip.
    - destruct H as (c & fs & H & _). remember [] as t eqn:E. destruct H. by destruct ys. }
  rewrite <- Et. clear c0 text0 Et. destruct (64 <? size text) eqn:E64; zb.
  { split; [done|]. lia. }
  destruct format.
  - rewrite json_seconds_spec. split.
    + intros (ip & fp & e & H1 & H2 & H3). split_and!; try done; try lia. by exists ip, fp, e.
    + intros (_ & H2 & ip & fp & e & H1 & H3). by exists ip, fp, e.
  - rewrite utc_iso_spec. split.
    + intros (c & fs & Ht & Hok & Hu & Hp). split; [done|]. split; [|by exists c, fs].
      pose proof (civil_seconds_bounds c Hok). unfold iso_micros in Hu.
      assert (digits fs /\ (length fs <= 6)%nat) as [Hd Hl] by (by destruct Ht).
      pose proof (fraction_bounds fs Hd Hl). unfold INT64_MAX. lia.
    + intros (_ & Hu & c & fs & Ht & Hok & ->). exists c, fs. split_and!; done || lia.
Qed.
