(* ===== verification/TemporaryTime.v ===== *)
(** * Expiry times of temporary credentials

    [sdk/src/auth/temporary_db_validity.cpp] turns the UTC expiry an issuer
    names into a bound of the monotonic clock;
    [sdk/src/auth/trusted_clock_sample.cpp] takes the clock sample that
    conversion needs and keeps a guard against a host that was suspended.

    The monotonic clock counts nanoseconds in a signed 64-bit integer, UTC and
    the policy's durations are microseconds in one; every overflow test of the
    code is there.  The clocks and the cancellation flag are code of the host:
    functions on an environment [E] they may change. *)

From S2P Require Import Prelude Utf8 AuthCore IssuerTime.

Definition micros_24h : Z := 86400 * 1000000.

Inductive TimeFailure :=
| TimeUnsupportedMethod | InvalidInput | UnknownClockQuality | TimeOverflow
| StaleSample | TimeRollback | TimeExpired | TimeCancelled.
#[export] Instance TimeFailure_eq_dec : EqDecision TimeFailure. Proof. solve_decision. Defined.

Inductive TimeConversion := Converted (v : Validity) | TimeFails (f : TimeFailure).

Record TemporaryClockSample := {
  utc : Z; before : Z; after : Z; acquisition_completed : Z; sample_now : Z;
  utc_uncertainty : option Z; drift_error : option Z; suspend_error : option Z;
  previous_monotonic_sample : option Z }.

Record TemporaryTimePolicy := { max_age : Z; max_bracket : Z; max_total_error : Z; max_horizon : Z }.

(** ** Checked arithmetic *)

Definition add (a b : Z) : option Z :=
  if ((0 <? b) && (INT64_MAX - b <? a)) || ((b <? 0) && (a <? INT64_MIN - b)) then None else Some (a + b).
Definition subtract (a b : Z) : option Z :=
  if ((0 <? b) && (a <? INT64_MIN + b)) || ((b <? 0) && (INT64_MAX + b <? a)) then None else Some (a - b).

(** A microsecond is 1000 ticks of the monotonic clock. *)
Definition to_ticks (micros : Z) : option Z :=
  if (micros <? 0) || (INT64_MAX / 1000 <? micros) then None
  else
    let ticks := micros * 1000 / 1 in
    if INT64_MAX <? ticks then None else Some ticks.

Definition policy_limit (value : Z) : bool := (0 <=? value) && (value <=? micros_24h).

(** ** Conversion *)

(** The loop over the three error bounds. *)
Fixpoint total_error (limit : Z) (bounds : list Z) (error : Z) : Z + TimeFailure :=
  match bounds with
  | [] => inl error
  | bound :: bounds =>
      if bound <? 0 then inr InvalidInput
      else if limit <? bound then inr UnknownClockQuality
      else match add error bound with None => inr TimeOverflow | Some error => total_error limit bounds error end
  end.

Definition finite_previous (s : TemporaryClockSample) : bool :=
  match previous_monotonic_sample s with Some p => finite p | None => true end.

(** Up to the age test: the total of the error bounds. *)
Definition sample_error (s : TemporaryClockSample) (policy : TemporaryTimePolicy) : Z + TimeFailure :=
  if negb (finite (before s)) || negb (finite (after s)) || negb (finite (acquisition_completed s)) ||
     negb (finite (sample_now s)) || negb (finite_previous s)
  then inr InvalidInput
  else if (after s <? before s) || (acquisition_completed s <? after s) || (sample_now s <? acquisition_completed s) ||
          match previous_monotonic_sample s with Some p => before s <? p | None => false end
  then inr TimeRollback
  else
    match utc_uncertainty s, drift_error s, suspend_error s with
    | Some uncertainty, Some drift, Some suspend =>
        match total_error (max_total_error policy) [uncertainty; drift; suspend] 0 with
        | inr f => inr f
        | inl error => if max_total_error policy <? error then inr UnknownClockQuality else inl error
        end
    | _, _, _ => inr UnknownClockQuality
    end.

Definition sample_fresh (s : TemporaryClockSample) (policy : TemporaryTimePolicy) : option TimeFailure :=
  match subtract (sample_now s) (before s), subtract (after s) (before s),
        to_ticks (max_age policy), to_ticks (max_bracket policy) with
  | Some age, Some bracket, Some max_age, Some max_bracket =>
      if (max_age <? age) || (max_bracket <? bracket) then Some StaleSample else None
  | _, _, _, _ => Some TimeOverflow
  end.

Definition remaining_time (expiry utc error horizon : Z) : Z + TimeFailure :=
  match subtract expiry utc with
  | None => inr TimeOverflow
  | Some remaining =>
      match subtract remaining error with
      | None => inr TimeOverflow
      | Some remaining =>
          if remaining <=? 0 then inr TimeExpired
          else if horizon <? remaining then inr InvalidInput else inl remaining
      end
  end.

(** The bound [until] for the remaining microseconds. *)
Definition monotonic_bound (deadline headroom : Z) (s : TemporaryClockSample) (remaining : Z) : Z + TimeFailure :=
  match to_ticks remaining with
  | None => inr TimeOverflow
  | Some duration =>
      match add (before s) duration, add deadline headroom with
      | Some until, Some required_until =>
          if negb (finite until) || negb (finite required_until) then inr TimeOverflow
          else if (duration =? 0) || (until <=? sample_now s) || (until <=? acquisition_completed s) ||
                  (deadline <=? sample_now s) || (until <=? required_until)
          then inr TimeExpired else inl until
      | _, _ => inr TimeOverflow
      end
  end.

Section Conversion.
Context {E : Type} (cancel : option (E -> bool * E)).

Definition convert_temporary_validity (deadline headroom expiry : Z) (s : TemporaryClockSample)
    (policy : TemporaryTimePolicy) (e : E) : TimeConversion * E :=
  if negb (policy_limit (max_age policy)) || negb (policy_limit (max_bracket policy)) ||
     negb (policy_limit (max_total_error policy)) || negb (policy_limit (max_horizon policy)) ||
     (max_horizon policy =? 0) || negb (finite deadline) || (headroom <? 0) || (hours_24 <? headroom)
  then (TimeFails InvalidInput, e)
  else
    match sample_error s policy with
    | inr f => (TimeFails f, e)
    | inl error =>
        match sample_fresh s policy with
        | Some f => (TimeFails f, e)
        | None =>
            match remaining_time expiry (utc s) error (max_horizon policy) with
            | inr f => (TimeFails f, e)
            | inl remaining =>
                match monotonic_bound deadline headroom s remaining with
                | inr f => (TimeFails f, e)
                | inl until =>
                    let '(stop, e) := stop_requested cancel e in
                    (if stop : bool then TimeFails TimeCancelled
                     else Converted (monotonic (acquisition_completed s) until), e)
                end
            end
        end
    end.

Definition convert_temporary_db_validity (request : Request) (expiry : Z) (s : TemporaryClockSample)
    (policy : TemporaryTimePolicy) (e : E) : TimeConversion * E :=
  let '(stop, e) := stop_requested cancel e in
  if stop : bool then (TimeFails TimeCancelled, e)
  else if bool_decide (is_Some (binding_error (binding request))) then (TimeFails InvalidInput, e)
  else if negb (bool_decide (method (binding request) = TemporaryDatabasePassword)) ||
          negb (bool_decide (service (target (binding request)) = Redshift))
  then (TimeFails TimeUnsupportedMethod, e)
  else convert_temporary_validity (deadline request) (headroom request) expiry s policy e.

End Conversion.

(** ** Trusted samples and guards *)

Record TrustedUtcReading := {
  reading_utc : Z; reading_uncertainty : option Z; reading_drift : option Z; quality_horizon : Z }.

(** [elapsed] is the clock object the source handed out. *)
Record TrustedClockSample (C : Type) := {
  time : TemporaryClockSample; elapsed : option C; elapsed_before : Z; horizon : Z }.
Arguments time {C}. Arguments elapsed {C}. Arguments elapsed_before {C}. Arguments horizon {C}.

Record TrustedClockGuard (C : Type) := { clock_ : C; last_ : Z; until_ : Z; failed_ : bool }.
Arguments clock_ {C}. Arguments last_ {C}. Arguments until_ {C}. Arguments failed_ {C}.

Section Trusted.
Context {E C : Type}.
(** The host's clocks: [None] at the outside of a result is an exception. *)
Context (elapsed_clock : E -> option (option C) * E).
Context (read_elapsed : C -> E -> option Z * E).
Context (read_utc : Z -> E -> option (option TrustedUtcReading) * E).
Context (monotonic_reader : option (E -> option Z * E)).

(** The tests on the four readings and the reported quality. *)
Definition judge_sample (policy : TemporaryTimePolicy) (clock : C) (elapsed0 elapsed1 : option Z) (t0 t1 : Z)
    (reading : option TrustedUtcReading) : TrustedClockSample C + TimeFailure :=
  match reading, elapsed0, elapsed1 with
  | Some reading, Some elapsed0, Some elapsed1 =>
      match reading_uncertainty reading, reading_drift reading with
      | Some uncertainty, Some drift =>
          if negb (finite t0) || negb (finite t1) || (elapsed0 <? 0) then inr InvalidInput
          else if (t1 <? t0) || (elapsed1 <? elapsed0) then inr TimeRollback
          else
            let cap := max_bracket policy * 1000 in
            if (INT64_MAX - cap <? t0) || (INT64_MAX - max_bracket policy <? elapsed0) then inr TimeOverflow
            else if (t0 + cap <? t1) || (elapsed0 + max_bracket policy <? elapsed1) then inr StaleSample
            else if negb (policy_limit (quality_horizon reading)) || (quality_horizon reading <? max_horizon policy)
            then inr UnknownClockQuality
            else if uncertainty <? 0 then inr InvalidInput
            else if max_total_error policy <? uncertainty then inr UnknownClockQuality
            else if drift <? 0 then inr InvalidInput
            else if max_total_error policy - uncertainty <? drift then inr UnknownClockQuality
            else
              inl {| time := {| utc := reading_utc reading; before := t0; after := t1;
                                acquisition_completed := t1; sample_now := t1;
                                utc_uncertainty := reading_uncertainty reading;
                                drift_error := reading_drift reading; suspend_error := Some 0;
                                previous_monotonic_sample := None |};
                     elapsed := Some clock; elapsed_before := elapsed0; horizon := max_horizon policy |}
      | _, _ => inr UnknownClockQuality
      end
  | _, _, _ => inr UnknownClockQuality
  end.

Definition sample_trusted_clock (policy : TemporaryTimePolicy) (e : E) : (TrustedClockSample C + TimeFailure) * E :=
  match monotonic_reader with
  | None => (inr InvalidInput, e)
  | Some monotonic =>
      if negb (policy_limit (max_age policy)) || negb (policy_limit (max_bracket policy)) ||
         negb (policy_limit (max_total_error policy)) || negb (policy_limit (max_horizon policy)) ||
         (max_horizon policy =? 0)
      then (inr InvalidInput, e)
      else
        match elapsed_clock e with
        | (Some (Some clock), e) =>
            let '(elapsed0, e) := read_elapsed clock e in
            match monotonic e with
            | (Some t0, e) =>
                match read_utc (max_horizon policy) e with
                | (Some reading, e) =>
                    match monotonic e with
                    | (Some t1, e) =>
                        let '(elapsed1, e) := read_elapsed clock e in
                        (judge_sample policy clock elapsed0 elapsed1 t0 t1 reading, e)
                    | (None, e) => (inr UnknownClockQuality, e)
                    end
                | (None, e) => (inr UnknownClockQuality, e)
                end
            | (None, e) => (inr UnknownClockQuality, e)
            end
        | (_, e) => (inr UnknownClockQuality, e)
        end
  end.

Definition valid (g : TrustedClockGuard C) (e : E) : (bool * TrustedClockGuard C) * E :=
  if failed_ g then ((false, g), e)
  else
    match read_elapsed (clock_ g) e with
    | (Some now, e) =>
        if (now <? last_ g) || (until_ g <=? now)
        then ((false, {| clock_ := clock_ g; last_ := last_ g; until_ := until_ g; failed_ := true |}), e)
        else ((true, {| clock_ := clock_ g; last_ := now; until_ := until_ g; failed_ := failed_ g |}), e)
    | (None, e) => ((false, {| clock_ := clock_ g; last_ := last_ g; until_ := until_ g; failed_ := true |}), e)
    end.

Definition retain_trusted_clock (s : TrustedClockSample C) (expiry : Z) (e : E) : option (TrustedClockGuard C) * E :=
  match elapsed s with
  | None => (None, e)
  | Some clock =>
      if negb (finite (before (time s))) || negb (finite expiry) || (elapsed_before s <? 0) ||
         negb (policy_limit (horizon s)) || (expiry <=? before (time s))
      then (None, e)
      else
        let cap := horizon s * 1000 in
        if (INT64_MAX - cap <? before (time s)) || (before (time s) + cap <? expiry) then (None, e)
        else
          let remaining := (expiry - before (time s)) / 1000 in
          if (remaining <=? 0) || (INT64_MAX - remaining <? elapsed_before s) then (None, e)
          else
            let guard := {| clock_ := clock; last_ := elapsed_before s; until_ := elapsed_before s + remaining;
                            failed_ := false |} in
            match valid guard e with
            | ((true, guard), e) => (Some guard, e)
            | ((false, _), e) => (None, e)
            end
  end.

End Trusted.

(** ** The converted bound *)

(** Split on the test the goal's premise starts with. *)
Ltac case_if E := match goal with |- (if ?b then _ else _) = _ -> _ => destruct b eqn:E end.

Lemma add_spec a b c : add a b = Some c -> c = a + b.
Proof. unfold add. destruct (_ || _); congruence. Qed.
Lemma subtract_spec a b c : subtract a b = Some c -> c = a - b.
Proof. unfold subtract. destruct (_ || _); congruence. Qed.
Lemma to_ticks_spec micros ticks : to_ticks micros = Some ticks -> 0 <= micros /\ ticks = micros * 1000.
Proof.
  unfold to_ticks. destruct ((micros <? 0) || _) eqn:E; [done|]. cbv zeta. rewrite Z.div_1_r.
  apply orb_false_iff in E as [E _]. zb. destruct (INT64_MAX <? micros * 1000); [done|]. intros [= <-]. done.
Qed.

Lemma total_error_spec limit bounds error total : total_error limit bounds error = inl total ->
  Forall (fun b => 0 <= b) bounds /\ total = error + foldr Z.add 0 bounds.
Proof.
  revert error. induction bounds as [|b bounds IH]; intros error; cbn [total_error foldr].
  - intros [= <-]. split; [done|lia].
  - destruct (b <? 0) eqn:Eb; [done|]. destruct (limit <? b); [done|]. destruct (add error b) as [x|] eqn:Ea; [|done].
    apply add_spec in Ea as ->. intros (Hf & ->)%IH. zb. split; [by constructor|lia].
Qed.

(** What the sample says is true of the world: the reading was taken between
    the two monotonic readings, and its error, the drift of the clocks and the
    time lost to suspension stay within the bounds.  [true_time] is UTC in
    nanoseconds at an instant of the monotonic clock. *)
Record honest (true_time : Z -> Z) (s : TemporaryClockSample) (read_at : Z) : Prop := {
  honest_bracket : before s <= read_at <= after s;
  honest_reading u : utc_uncertainty s = Some u -> true_time read_at <= (utc s + u) * 1000;
  honest_drift d p t : drift_error s = Some d -> suspend_error s = Some p -> read_at <= t ->
    true_time t <= true_time read_at + (t - read_at) + (d + p) * 1000 }.

Lemma sample_error_spec s policy error : sample_error s policy = inl error ->
  exists u d p, utc_uncertainty s = Some u /\ drift_error s = Some d /\ suspend_error s = Some p /\
    error = u + d + p /\ 0 <= error /\ before s <= after s <= acquisition_completed s /\
    acquisition_completed s <= sample_now s.
Proof.
  unfold sample_error. destruct (_ || negb (finite_previous s)); [done|].
  destruct (_ || match previous_monotonic_sample s with Some p => before s <? p | None => false end) eqn:Eo; [done|].
  apply orb_false_iff in Eo as [Eo _]. rewrite !orb_false_iff, !Z.ltb_ge in Eo.
  destruct (utc_uncertainty s) as [u|], (drift_error s) as [d|], (suspend_error s) as [p|]; try done.
  destruct (total_error _ _ _) as [t|] eqn:Et; [|done]. destruct (_ <? t); [done|]. intros [= <-].
  apply total_error_spec in Et as [Hf ->]. inv_forall. cbn [foldr] in *. exists u, d, p. split_and!; done || lia.
Qed.

Lemma remaining_time_spec expiry utc error horizon r :
  remaining_time expiry utc error horizon = inl r -> r = expiry - utc - error /\ 0 < r <= horizon.
Proof.
  unfold remaining_time. destruct (subtract expiry utc) as [a|] eqn:E1; [|done]. apply subtract_spec in E1 as ->.
  destruct (subtract _ error) as [b|] eqn:E2; [|done]. apply subtract_spec in E2 as ->.
  case_if E3; [done|]. case_if E4; [done|]. intros [= <-]. zb. lia.
Qed.

Lemma monotonic_bound_spec deadline headroom s remaining until :
  monotonic_bound deadline headroom s remaining = inl until ->
  until = before s + remaining * 1000 /\ finite until = true /\ sample_now s < until /\
  sample_now s < deadline /\ deadline + headroom < until.
Proof.
  unfold monotonic_bound. destruct (to_ticks remaining) as [n|] eqn:E1; [|done]. apply to_ticks_spec in E1 as [_ ->].
  destruct (add (before s) _) as [a|] eqn:E2; [|done]. apply add_spec in E2 as ->.
  destruct (add deadline headroom) as [b|] eqn:E3; [|done]. apply add_spec in E3 as ->.
  case_if E4; [done|]. case_if E5; [done|]. intros [= <-].
  apply orb_false_iff in E4 as [E4%negb_false_iff _]. rewrite !orb_false_iff, !Z.leb_gt in E5.
  destruct E5 as ((((_ & ?) & _) & ?) & ?). done.
Qed.

Lemma convert_spec {E} cancel deadline headroom expiry s policy (e : E) v e' :
  convert_temporary_validity cancel deadline headroom expiry s policy e = (Converted v, e') ->
  exists error remaining until, sample_error s policy = inl error /\
    remaining_time expiry (utc s) error (max_horizon policy) = inl remaining /\
    monotonic_bound deadline headroom s remaining = inl until /\
    v = monotonic (acquisition_completed s) until.
Proof.
  unfold convert_temporary_validity. destruct (_ || (hours_24 <? headroom)); [done|].
  destruct (sample_error s policy) as [error|] eqn:E1; [|done]. destruct (sample_fresh s policy); [done|].
  destruct (remaining_time _ _ _ _) as [r|] eqn:E2; [|done]. destruct (monotonic_bound _ _ _ _) as [u|] eqn:E3; [|done].
  destruct (stop_requested cancel e) as [[] ?]; intros [= <- <-]. eauto 10.
Qed.


Definition example_sample : TemporaryClockSample :=
  {| utc := 1000000; before := 5000; after := 6000; acquisition_completed := 7000; sample_now := 8000;
     utc_uncertainty := Some 10; drift_error := Some 5; suspend_error := Some 0; previous_monotonic_sample := None |}.
Definition example_policy : TemporaryTimePolicy :=
  {| max_age := 1000; max_bracket := 1000; max_total_error := 100; max_horizon := 1000000 |}.

Definition example_true_time (t : Z) : Z := 1000000 * 1000 - 5500 + t.


(** ** Guards *)

Section GuardProofs.
Context {E C : Type} (read_elapsed : C -> E -> option Z * E).

(** Any number of uses of a guard. *)
Fixpoint uses (n : nat) (g : TrustedClockGuard C) (e : E) : list bool * TrustedClockGuard C * E :=
  match n with
  | O => ([], g, e)
  | S n =>
      let '((b, g), e) := valid read_elapsed g e in
      let '(bs, g, e) := uses n g e in (b :: bs, g, e)
  end.

Lemma valid_spec g e b g' e' : valid read_elapsed g e = ((b, g'), e') ->
  until_ g' = until_ g /\ last_ g <= last_ g' /\ failed_ g' = negb b /\ (b = false -> last_ g' = last_ g) /\
  (b = true -> failed_ g = false /\ last_ g' < until_ g /\ read_elapsed (clock_ g) e = (Some (last_ g'), e')) /\
  (failed_ g = true -> b = false /\ g' = g /\ e' = e).
Proof.
  unfold valid. destruct (failed_ g) eqn:Ef.
  - intros [= <- <- <-]. rewrite Ef. split_and!; try done; lia.
  - destruct (read_elapsed (clock_ g) e) as [[now|] e1].
    + destruct (_ || _) eqn:Eo; intros [= <- <- <-]; cbn.
      * split_and!; try done; lia.
      * apply orb_false_iff in Eo as [? ?]. zb. split_and!; try done; lia.
    + intros [= <- <- <-]. cbn. split_and!; try done; lia.
Qed.

Lemma uses_spec n g e bs g' e' : last_ g < until_ g -> uses n g e = (bs, g', e') ->
  exists k, bs = replicate k true ++ replicate (n - k) false /\ (k <= n)%nat /\
    last_ g <= last_ g' < until_ g /\ until_ g' = until_ g /\ (failed_ g = true -> k = 0%nat).
Proof.
  revert g e bs. induction n as [|n IH]; intros g e bs Hg; cbn [uses].
  - intros [= <- <- <-]. exists 0%nat. split_and!; try done; lia.
  - destruct (valid read_elapsed g e) as [[b g1] e1] eqn:Ev. destruct (uses n g1 e1) as [[bs1 g2] e2] eqn:Eu.
    intros [= <- <- <-]. apply valid_spec in Ev as (Hu & Hl & Hf & Hsame & Ht & Hno).
    assert (last_ g1 < until_ g1) as Hg1.
    { destruct b; [destruct (Ht eq_refl) as (_ & ? & _); lia|]. rewrite (Hsame eq_refl). lia. }
    apply IH in Eu as (k & -> & Hk & Hl2 & Hu2 & Hfail); [|done].
    destruct b.
    + exists (S k). cbn [replicate app Nat.sub]. split_and!; try done; try lia. intros Hg0. by destruct (Hno Hg0).
    + rewrite Hfail in * by done. exists 0%nat. rewrite Nat.sub_0_r. split_and!; try done; lia.
Qed.

Lemma retain_spec s expiry e g e1 :
  retain_trusted_clock read_elapsed s expiry e = (Some g, e1) ->
  elapsed_before s <= last_ g < until_ g /\ until_ g = elapsed_before s + (expiry - before (time s)) / 1000 /\
  (expiry - before (time s)) / 1000 <= horizon s.
Proof.
  unfold retain_trusted_clock. destruct (elapsed s) as [clock|]; [|done]. case_if E1; [done|].
  case_if E2; [done|]. case_if E3; [done|].
  destruct (valid _ _ _) as [[[] g0] e0] eqn:Ev; [|done]. intros [= <- <-].
  apply valid_spec in Ev as (-> & Hl & _ & _ & Ht & _). destruct (Ht eq_refl) as (_ & ? & _).
  cbn [until_ last_] in *. apply orb_false_iff in E2 as [_ E2]. zb. split_and!; try done. dlia.
Qed.

(** A guard fails once and for all: however often a retained guard is asked,
    its answers are yes and then, from the first missing reading, rollback or
    expiry on, only no; and as long as it says yes the elapsed clock, which runs
    through suspension, has not reached the time the converted expiry leaves
    from the sample's first reading, within the horizon the source's error
    bounds cover. *)
Theorem guard_is_final s expiry e g e1 n bs g' e2 :
  retain_trusted_clock read_elapsed s expiry e = (Some g, e1) -> uses n g e1 = (bs, g', e2) ->
  (exists k, bs = replicate k true ++ replicate (n - k) false /\ (k <= n)%nat) /\
  elapsed_before s <= last_ g <= last_ g' /\
  last_ g' < elapsed_before s + (expiry - before (time s)) / 1000 <= elapsed_before s + horizon s.
Proof.
  intros (Hl & Hu & Hc)%retain_spec Hn.
  apply uses_spec in Hn as (k & -> & Hk & ? & _); [|lia]. split; [by exists k|lia].
Qed.

End GuardProofs.

(** A host whose elapsed clock reads 100, 150, 600 and 120 in turn. *)
Definition example_clock (_ : unit) (e : list Z) : option Z * list Z :=
  match e with [] => (None, []) | t :: e => (Some t, e) end.
Definition example_trusted : TrustedClockSample unit :=
  {| time := example_sample; elapsed := Some tt; elapsed_before := 90; horizon := 1000000 |}.

Lemma guard_is_final_witness :
  (uses example_clock 3 {| clock_ := tt; last_ := 100; until_ := 585; failed_ := false |} [150; 600; 120]).1.1 =
    [true; false; false] /\ 150 < 585.
Proof.
  destruct (guard_is_final example_clock example_trusted 500000 [100; 150; 600; 120]
    {| clock_ := tt; last_ := 100; until_ := 585; failed_ := false |} [150; 600; 120] 3
    [true; false; false] {| clock_ := tt; last_ := 150; until_ := 585; failed_ := true |} [120]) as (_ & _ & H);
    [vm_compute; reflexivity..|].
  split; [vm_compute; reflexivity|]. exact (proj1 H).
Defined.
