(* ===== verification/PreparedBatch.v ===== *)
(** * Prepared command batches of a borrowed session

    [sdk/src/session/session_owner.cpp], the operations of [SessionLease] that
    describe a statement once and execute it for many parameter sets: the plan
    of a batch ([prepare_parameter_batch], or [describe_parameter_input] and
    [finalize_parameter_input] when the values come later) and its execution
    ([execute_command_batch]).

    The physical session is injected code, as in [SessionOwner].  Borrow
    identities are unique over all owners, so equal identities also mean equal
    owners.  Sizes are of [std::size_t]; a difference wraps around.  The text,
    operation and native details of an error are not modelled, and the two
    arguments of [passive_outcome] are evaluated from left to right. *)

From S2P Require Import Prelude Utf8 PgIeee PgResult Backend Credential SessionOwner.

#[local] Existing Instance W_ret.
#[local] Existing Instance W_bind.

(** ** Data *)

Definition passive_outcome (connected : bool) (st : SessionState) : SessionSnapshot :=
  {| snapshot_state := st;
     disposition := if negb connected then Retire
                    else match st with Idle => Reusable | _ => ResetRequired end |}.

(** The session is lost or its state is not known. *)
Definition unusable (s : SessionSnapshot) : bool :=
  bool_decide (snapshot_state s = UnknownState) || bool_decide (snapshot_state s = Disconnected) ||
  bool_decide (disposition s = Retire).

Record PreparedCommandSet := { values : list QueryParameter; ignored : bool }.

Inductive OutcomeState := NotAttempted | Skipped | Succeeded | Failed.
Record PreparedCommandOutcome := {
  o_state : OutcomeState; o_result : option QueryResult; o_error : option BackendError; o_snapshot : SessionSnapshot }.
Definition not_attempted : PreparedCommandOutcome :=
  {| o_state := NotAttempted; o_result := None; o_error := None;
     o_snapshot := {| snapshot_state := UnknownState; disposition := Retire |} |}.

Record PreparedCommandBatchResult := { outcomes : list PreparedCommandOutcome; examined : nat }.

Record PreparedCommandPlan := {
  sql_ : bytes; sets_ : list PreparedCommandSet; description_ : QueryResult; borrow_ : nat;
  deadline_ : Z; limits_ : ResultLimits; outcomes_ : list PreparedCommandOutcome; consumed_ : bool }.

(** The constructor of [PreparedCommandPlan]. *)
Definition new_plan (sql : bytes) (sets : list PreparedCommandSet) (d : QueryResult) (borrow : nat) (deadline : Z)
    (limits : ResultLimits) : PreparedCommandPlan :=
  {| sql_ := sql; sets_ := sets; description_ := d; borrow_ := borrow; deadline_ := deadline; limits_ := limits;
     outcomes_ := replicate (length sets) not_attempted; consumed_ := false |}.

Record PreparedParameterDescription := {
  d_sql : bytes; d_types : list QueryParameterType; d_description : QueryResult; d_borrow : nat; d_deadline : Z;
  d_input : InputLimits; d_limits : ResultLimits; d_set_count : Z; d_snapshot : SessionSnapshot; d_consumed : bool }.

(** ** Checks of the parameter sets *)

(** The values of one set against the types of the first: the byte total. *)
Fixpoint check_values (input : InputLimits) (types : list QueryParameterType) (vs : list QueryParameter) (total : Z)
    : option Z :=
  match vs, types with
  | v :: vs, t :: types =>
      if negb (bool_decide (PgIeee.type v = t)) then None
      else
        match PgIeee.value v with
        | None => check_values input types vs total
        | Some s =>
            if (max_parameter_bytes input <? size s) ||
               (size_sub (max_parameter_total_bytes input) total <? size s) then None
            else check_values input types vs (total + size s)
        end
  | _, _ => Some total
  end.

(** The sets of [prepare_parameter_batch]: the first proceeding one. *)
Fixpoint check_sets (input : InputLimits) (sets : list PreparedCommandSet) (first : option (list QueryParameter))
    (entries total : Z) : option (option (list QueryParameter)) :=
  match sets with
  | [] => Some first
  | set :: sets =>
      if ignored set then
        if negb (size (values set) =? 0) then None else check_sets input sets first entries total
      else
        let f := default (values set) first in
        if (size (values set) =? 0) || negb (size (values set) =? size f) ||
           (size_sub (max_parameters input) entries <? size (values set)) then None
        else
          match check_values input (map PgIeee.type f) (values set) total with
          | None => None
          | Some total => check_sets input sets (Some f) (entries + size (values set)) total
          end
  end.

(** The sets of [finalize_parameter_input]: whether any proceeds. *)
Fixpoint check_deferred (input : InputLimits) (types : list QueryParameterType) (sets : list PreparedCommandSet)
    (entries total : Z) (proceeding : bool) : option bool :=
  match sets with
  | [] => Some proceeding
  | set :: sets =>
      if ignored set then
        if negb (size (values set) =? 0) then None else check_deferred input types sets entries total proceeding
      else if negb (size (values set) =? size types) || (size_sub (max_parameters input) entries <? size (values set))
      then None
      else
        match check_values input types (values set) total with
        | None => None
        | Some total => check_deferred input types sets (entries + size (values set)) total true
        end
  end.

(** ** Checks of a description *)

Definition no_error {T} (o : option T) : bool := match o with None => true | Some _ => false end.

(** What makes a description of a statement inconsistent. *)
Definition bad_description (d : QueryResult) (snapshot : SessionSnapshot) (types : list QueryParameterType)
    (limits : ResultLimits) : bool :=
  no_error (described_result_shape d) || negb (no_error (q_execution_shape d)) || negb (no_error (q_error d)) ||
  negb (no_error (q_statement_kind d)) || negb (q_affected_rows d =? 0) || negb (size (q_rows d) =? 0) ||
  negb (size (additional_results d) =? 0) || negb (size (cell_errors d) =? 0) ||
  negb (size (normalized_parameter_types d) =? size types) ||
  (max_metadata_entries limits <? size (normalized_parameter_types d)) || unusable snapshot.

(** A column's metadata: the names' total so far, or the error. *)
Definition bad_column (c : ResultColumnMetadata) : bool :=
  no_error (normalized_type c) || existsb (Z.eqb 0) (column_name c) || no_error (utf8_code_point_count (column_name c)).

Fixpoint check_columns (limits : ResultLimits) (columns : list ResultColumnMetadata) (names : Z) : Z + DbErrorCode :=
  match columns with
  | [] => inl names
  | c :: columns =>
      if bad_column c then inr ProtocolError
      else if (max_column_name_bytes limits <? size (column_name c)) ||
              (size_sub (max_metadata_name_bytes limits) names <? size (column_name c)) then inr ResourceLimit
      else check_columns limits columns (names + size (column_name c))
  end.

Definition metadata_exceeds (limits : ResultLimits) (d : QueryResult) : bool :=
  (max_columns_per_description limits <? size (q_columns d)) ||
  (max_metadata_entries limits <? size (q_columns d)) ||
  (size_sub (max_metadata_entries limits) (size (q_columns d)) <? size (normalized_parameter_types d)).

(** ** Operations of the borrower *)

Section Batch.
Context {E : Type} (now : E -> Z * E) (disconnect : E -> E).

#[local] Abbreviation Call A := (E -> Answer A * list Event * E).
Context (is_connected : Call bool) (session_state : Call SessionState).
(** The statement-description facet and what it answers. *)
Context (statement_description supports_shape supports_sequence : Call bool).
Context (describe : bytes -> list QueryParameterType -> Z -> Call (BackendResult QueryResult)).
Context (run_prepared : bytes -> list QueryParameter -> Z -> Call (BackendResult QueryResult)).

#[local] Abbreviation W := (SessionOwner.W (E := E)).
#[local] Abbreviation clock := (read_clock now).
#[local] Abbreviation calls := (call now disconnect).

(** A request: a computation that may throw. *)
Definition try_bind {A B} (m : W (Answer A)) (k : A -> W (Answer B)) : W (Answer B) :=
  a ← m;
  match a with
  | Returned x => k x
  | ThrewBadAlloc => mret ThrewBadAlloc
  | ThrewOther => mret ThrewOther
  end.
#[local] Notation "x ⇐ m ; k" := (try_bind m (fun x => k))
  (at level 20, m at level 100, k at level 200, right associativity).

Section Borrower.
Context (b : nat).

Definition reject {T} (kind : LocalFailure) : W (Answer (BackendResult T)) :=
  st ⇐ calls session_state; mret (Returned (Bad (local_backend_error kind st))).

Definition refused {T} (c : DbErrorCode) : W (Answer (BackendResult T)) := mret (Returned (Bad (plain_error c))).

(** [!facet || !facet->supports_...()]. *)
Definition facet_supports (supports : Call bool) : W (Answer bool) :=
  facet ⇐ calls statement_description;
  if facet : bool then calls supports else mret (Returned false).

(** The checks both descriptions share; [k] goes on with a consistent one. *)
Definition checked_description {T} (d : QueryResult) (snapshot : SessionSnapshot) (types : list QueryParameterType)
    (limits : ResultLimits) (allow_results : bool) (k : W (Answer (BackendResult T))) : W (Answer (BackendResult T)) :=
  if bad_description d snapshot types limits then refused ProtocolError
  else
    match described_result_shape d with
    | Some DescribesResultSet =>
        if negb allow_results then reject Unsupported
        else supported ⇐ calls supports_sequence; if negb supported then reject Unsupported else k
    | _ => if negb (size (q_columns d) =? 0) then refused ProtocolError else k
    end.

Definition prepare_request (sql : bytes) (sets : list PreparedCommandSet) (input : InputLimits) (limits : ResultLimits)
    (deadline : Z) (allow_results : bool) : W (Answer (BackendResult PreparedCommandPlan)) :=
  if (size sets =? 0) || (max_results limits <? size sets) || (max_sql_bytes input <? size sql) then reject InvalidInput
  else
    match check_sets input sets None 0 0 with
    | None => reject InvalidInput
    | Some first =>
        t ← clock;
        if deadline <=? t then refused Timeout
        else
          match first with
          | None =>
              connected ⇐ calls is_connected;
              st ⇐ calls session_state;
              mret (Returned (Good (new_plan sql sets empty_query_result b deadline limits)
                                   (passive_outcome connected st)))
          | Some f =>
              supported ⇐ facet_supports supports_shape;
              if negb supported then reject Unsupported
              else
                t ← clock;
                if deadline <=? t then refused Timeout
                else
                  let types := map PgIeee.type f in
                  description ⇐ calls (describe sql types deadline);
                  match description with
                  | Bad e => mret (Returned (Bad e))
                  | Good d snapshot =>
                      checked_description d snapshot types limits allow_results
                        (t ← clock;
                         if deadline <=? t then refused Timeout
                         else mret (Returned (Good (new_plan sql sets d b deadline limits) snapshot)))
                  end
          end
    end.

Definition prepare_parameter_batch (sql : bytes) (sets : list PreparedCommandSet) (input : InputLimits)
    (limits : ResultLimits) (deadline : Z) (allow_results : bool) : W (Result (BackendResult PreparedCommandPlan)) :=
  invalidate_cache now b ≫= fun _ =>
  invoke_borrowed disconnect b session_snapshot (prepare_request sql sets input limits deadline allow_results).

Definition describe_request (sql : bytes) (types : list QueryParameterType) (count : Z) (input : InputLimits)
    (limits : ResultLimits) (deadline : Z) (allow_results : bool)
    : W (Answer (BackendResult PreparedParameterDescription)) :=
  if (count <=? 1) || (max_results limits <? count) || (size types =? 0) || (max_parameters input <? size types) ||
     (max_sql_bytes input <? size sql) then reject InvalidInput
  else
    t ← clock;
    if deadline <=? t then refused Timeout
    else
      supported ⇐ facet_supports supports_shape;
      if negb supported then reject Unsupported
      else
        description ⇐ calls (describe sql types deadline);
        match description with
        | Bad e => mret (Returned (Bad e))
        | Good d snapshot =>
            checked_description d snapshot types limits allow_results
              (if metadata_exceeds limits d then refused ResourceLimit
               else
                 match check_columns limits (q_columns d) 0 with
                 | inr c => refused c
                 | inl _ =>
                     t ← clock;
                     if deadline <=? t then refused Timeout
                     else mret (Returned (Good
                       {| d_sql := sql; d_types := types; d_description := d; d_borrow := b; d_deadline := deadline;
                          d_input := input; d_limits := limits; d_set_count := count; d_snapshot := snapshot;
                          d_consumed := false |} snapshot))
                 end)
        end.

Definition describe_parameter_input (sql : bytes) (types : list QueryParameterType) (count : Z) (input : InputLimits)
    (limits : ResultLimits) (deadline : Z) (allow_results : bool)
    : W (Result (BackendResult PreparedParameterDescription)) :=
  invalidate_cache now b ≫= fun _ =>
  invoke_borrowed disconnect b session_snapshot (describe_request sql types count input limits deadline allow_results).

(** [borrow_ && authority.borrow_.lock() == borrow_ && physical_session()]. *)
Definition borrows (borrow : nat) (w : World E) : bool :=
  attached b w && Nat.eqb borrow b && bool_decide (is_Some (session (own w))).

Definition accepts_parameter_description (a : PreparedParameterDescription) (w : World E) : bool :=
  negb (d_consumed a) && borrows (d_borrow a) w && (1 <? d_set_count a) && negb (size (d_types a) =? 0) &&
  negb (no_error (described_result_shape (d_description a))).

Definition consume_description (a : PreparedParameterDescription) : PreparedParameterDescription :=
  {| d_sql := d_sql a; d_types := d_types a; d_description := d_description a; d_borrow := d_borrow a;
     d_deadline := d_deadline a; d_input := d_input a; d_limits := d_limits a; d_set_count := d_set_count a;
     d_snapshot := d_snapshot a; d_consumed := true |}.

Definition passive_refusal {T} : BackendResult T := Bad (local_backend_error InvalidInput UnknownState).

(** The authority is an argument and part of the result: it is consumed. *)
Definition finalize_parameter_input (a : PreparedParameterDescription) (sets : list PreparedCommandSet)
    : W (PreparedParameterDescription * BackendResult PreparedCommandPlan) :=
  w ← ask;
  if negb (accepts_parameter_description a w) then mret (a, passive_refusal)
  else
    let a := consume_description a in
    if negb (size sets =? d_set_count a) then mret (a, passive_refusal)
    else
      match check_deferred (d_input a) (d_types a) sets 0 0 false with
      | Some true =>
          t ← clock;
          if d_deadline a <=? t then retire_lease disconnect b ≫= fun _ => mret (a, Bad (plain_error Timeout))
          else mret (a, Good (new_plan (d_sql a) sets (d_description a) b (d_deadline a) (d_limits a)) (d_snapshot a))
      | _ => mret (a, passive_refusal)
      end.

Definition accepts_command_description (a : PreparedParameterDescription) (w : World E) : bool :=
  accepts_parameter_description a w &&
  bool_decide (described_result_shape (d_description a) = Some DescribesNoResultSet).

Definition finalize_command_batch (a : PreparedParameterDescription) (sets : list PreparedCommandSet)
    : W (PreparedParameterDescription * BackendResult PreparedCommandPlan) :=
  w ← ask;
  if negb (accepts_command_description a w) then mret (a, passive_refusal) else finalize_parameter_input a sets.

(** ** Execution of a batch *)

Definition execute_prepared (sql : bytes) (vs : list QueryParameter) (deadline : Z)
    : W (Result (BackendResult QueryResult)) :=
  invalidate_cache now b ≫= fun _ =>
  invoke_borrowed disconnect b session_snapshot (calls (run_prepared sql vs deadline)).

(** The error [invoke_borrowed] makes when there is no session. *)
Definition no_session : BackendError :=
  {| error_code := NotConnected; error_state := Disconnected; error_disposition := Retire |}.

Definition set_outcome (i : nat) (o : PreparedCommandOutcome) (batch : PreparedCommandBatchResult)
    : PreparedCommandBatchResult :=
  {| outcomes := <[i := o]> (outcomes batch); examined := S i |}.

Definition lost : SessionSnapshot := {| snapshot_state := Disconnected; disposition := Retire |}.

(** The lambda [fail] of [execute_command_batch]. *)
Definition fail_batch (c : DbErrorCode) (i : nat) (batch : PreparedCommandBatchResult)
    : W (PreparedCommandBatchResult * SessionSnapshot) :=
  retire_lease disconnect b ≫= fun _ =>
  mret (set_outcome i {| o_state := Failed; o_result := None; o_error := Some (plain_error c); o_snapshot := lost |} batch,
        lost).

(** What an executed command must not have produced. *)
Definition unexpected_result (r : QueryResult) (snapshot : SessionSnapshot) : bool :=
  negb (size (q_columns r) =? 0) || negb (size (q_rows r) =? 0) || negb (no_error (q_error r)) ||
  negb (size (additional_results r) =? 0) || negb (size (cell_errors r) =? 0) ||
  negb (no_error (described_result_shape r)) ||
  bool_decide (q_execution_shape r = Some ResultSet) ||
  no_error (q_statement_kind r) || bool_decide (q_statement_kind r = Some SelectCursor) || unusable snapshot.

Fixpoint run_sets (plan : PreparedCommandPlan) (sets : list PreparedCommandSet) (i : nat) (metadata : Z)
    (batch : PreparedCommandBatchResult) (snapshot : SessionSnapshot)
    : W (PreparedCommandBatchResult * SessionSnapshot) :=
  match sets with
  | [] => mret (batch, snapshot)
  | set :: sets =>
      if ignored set then
        run_sets plan sets (S i) metadata
          (set_outcome i {| o_state := Skipped; o_result := None; o_error := None; o_snapshot := snapshot |} batch) snapshot
      else
        t ← clock;
        if deadline_ plan <=? t then fail_batch Timeout i batch
        else
          result ← execute_prepared (sql_ plan) (values set) (deadline_ plan);
          match result with
          | Rethrown bad_alloc => fail_batch (if bad_alloc : bool then AllocationFailure else ProtocolError) i batch
          | Failure _ =>
              mret (set_outcome i {| o_state := Failed; o_result := None; o_error := Some no_session;
                                     o_snapshot := error_snapshot no_session |} batch, error_snapshot no_session)
          | Success (Bad e) =>
              mret (set_outcome i {| o_state := Failed; o_result := None; o_error := Some e;
                                     o_snapshot := error_snapshot e |} batch, error_snapshot e)
          | Success (Good r snapshot) =>
              t ← clock;
              if deadline_ plan <=? t then fail_batch Timeout i batch
              else if unexpected_result r snapshot then fail_batch ProtocolError i batch
              else if size_sub (max_metadata_entries (limits_ plan)) metadata <? size (normalized_parameter_types r)
              then fail_batch ResourceLimit i batch
              else
                run_sets plan sets (S i) (metadata + size (normalized_parameter_types r))
                  (set_outcome i {| o_state := Succeeded; o_result := Some r; o_error := None; o_snapshot := snapshot |} batch)
                  snapshot
          end
  end.

Definition plan_valid (plan : PreparedCommandPlan) (w : World E) : bool :=
  negb (consumed_ plan) && borrows (borrow_ plan) w && negb (size (sets_ plan) =? 0) &&
  (length (outcomes_ plan) =? length (sets_ plan))%nat.

Definition consume_plan (plan : PreparedCommandPlan) : PreparedCommandPlan :=
  {| sql_ := sql_ plan; sets_ := sets_ plan; description_ := description_ plan; borrow_ := borrow_ plan;
     deadline_ := deadline_ plan; limits_ := limits_ plan; outcomes_ := []; consumed_ := true |}.

Definition execute_command_batch (plan : PreparedCommandPlan)
    : W (PreparedCommandPlan * BackendResult PreparedCommandBatchResult) :=
  w ← ask;
  if negb (plan_valid plan w) then mret (plan, passive_refusal)
  else
    let batch := {| outcomes := outcomes_ plan; examined := 0 |} in
    let finish (r : PreparedCommandBatchResult * SessionSnapshot) :=
      (consume_plan plan, Good r.1 r.2) in
    connected ← calls is_connected;
    match connected with
    | ThrewBadAlloc => r ← fail_batch AllocationFailure 0 batch; mret (finish r)
    | ThrewOther => r ← fail_batch ProtocolError 0 batch; mret (finish r)
    | Returned connected =>
        st ← calls session_state;
        match st with
        | ThrewBadAlloc => r ← fail_batch AllocationFailure 0 batch; mret (finish r)
        | ThrewOther => r ← fail_batch ProtocolError 0 batch; mret (finish r)
        | Returned st =>
            let snapshot := passive_outcome connected st in
            if unusable snapshot then r ← fail_batch NotConnected 0 batch; mret (finish r)
            else
              r ← run_sets plan (sets_ plan) 0 (size (normalized_parameter_types (description_ plan))) batch snapshot;
              mret (finish r)
        end
    end.

End Borrower.
End Batch.

(** ** What a batch has done *)

(** A set that is done: skipped, or executed with the result of a command. *)
Definition settled (set : PreparedCommandSet) (o : PreparedCommandOutcome) : Prop :=
  if ignored set then o_state o = Skipped
  else
    o_state o = Succeeded /\
    exists r k, o_result o = Some r /\ q_statement_kind r = Some k /\ k <> SelectCursor /\
      q_columns r = [] /\ q_rows r = [] /\ q_error r = None /\ additional_results r = [].

(** The values of the sets that are not ignored. *)
Definition proceeding (sets : list PreparedCommandSet) : list (list QueryParameter) :=
  map values (List.filter (fun s => negb (ignored s)) sets).

Section Proofs.
Context {E : Type} (now : E -> Z * E) (disconnect : E -> E).
Context (is_connected : E -> Answer bool * list Event * E) (session_state : E -> Answer SessionState * list Event * E).
Context (run_prepared : bytes -> list QueryParameter -> Z -> E -> Answer (BackendResult QueryResult) * list Event * E).
(** The parameter values the physical session was asked to execute, in order. *)
Context (log : E -> list (list QueryParameter)).

Record logs : Prop := {
  log_now e : log (now e).2 = log e;
  log_disconnect e : log (disconnect e) = log e;
  log_connected e : log (is_connected e).2 = log e;
  log_state e : log (session_state e).2 = log e;
  log_run sql vs d e : log (run_prepared sql vs d e).2 = log e ++ [vs] }.

Context (Hlog : logs) (b : nat).

#[local] Abbreviation W := (SessionOwner.W (E := E)).

(** Computations that execute nothing. *)
Definition quiet {A} (m : W A) : Prop := forall w, log (env (m w).1) = log (env w).

Lemma quiet_ret {A} (a : A) : quiet (mret a).
Proof. by intros w. Qed.
Lemma quiet_bind {A B} (m : W A) (k : A -> W B) : quiet m -> (forall a, quiet (k a)) -> quiet (m ≫= k).
Proof.
  intros Hm Hk w. unfold mbind, W_bind. specialize (Hm w). destruct (m w) as [w1 a]. by rewrite (Hk a w1).
Qed.
Lemma quiet_ask : quiet ask.
Proof. by intros w. Qed.
Lemma quiet_clock : quiet (read_clock now).
Proof. intros w. unfold read_clock. pose proof (log_now Hlog (env w)). by destruct (now (env w)). Qed.
Lemma quiet_retire s : quiet (retire_session disconnect s).
Proof. intros w. destruct s; cbn; [apply (log_disconnect Hlog)|done]. Qed.
Lemma quiet_pure {A} (m : W A) : (forall w, env (m w).1 = env w) -> quiet m.
Proof. intros Hm w. by rewrite Hm. Qed.

Ltac hush :=
  repeat first
    [ apply quiet_ret | apply quiet_ask | apply quiet_clock | apply quiet_retire
    | (apply quiet_pure; intros ?; reflexivity)
    | apply quiet_bind; [|intros ?]
    | match goal with
      | |- quiet (if ?c then _ else _) => destruct c
      | |- quiet (match ?c with _ => _ end) => destruct c
      end ].

Lemma quiet_retire_lease : quiet (retire_lease disconnect b).
Proof. unfold retire_lease. hush. Qed.
Lemma quiet_invalidate : quiet (invalidate_cache now b).
Proof. unfold invalidate_cache. hush. Qed.
Lemma quiet_performs es : quiet (performs now disconnect es).
Proof.
  induction es as [|e es IH]; cbn [performs]; [hush|]. apply quiet_bind; [|intros _; exact IH].
  destruct e; cbn [perform]; unfold close, revoke_credentials, try_acquire, expire, revoke_managed, grant, update, is_current, set_store; hush.
Qed.

Lemma log_call {A} (f : E -> Answer A * list Event * E) w :
  log (env (call now disconnect f w).1) = log (f (env w)).2.
Proof.
  unfold call. destruct (f (env w)) as [[a es] e].
  match goal with |- context [performs now disconnect es ?x] =>
    pose proof (quiet_performs es x) as Hq; destruct (performs now disconnect es x) end. exact Hq.
Qed.

(** The lease still has its session. *)
Definition usable (w : World E) : bool := attached b w && bool_decide (is_Some (session (own w))).

Lemma retire_unusable w : usable (retire_lease disconnect b w).1 = false.
Proof.
  unfold retire_lease, mbind, W_bind, ask, usable. destruct (attached b w) eqn:Ha; cbn [negb].
  - match goal with |- context [retire_session disconnect ?s ?x] =>
      assert (attached b (retire_session disconnect s x).1 = false) as -> end; [|done].
    unfold attached. rewrite bool_decide_eq_false. destruct (session (own w)); cbn;
      rewrite list_elem_of_In, filter_In, Nat.eqb_refl; cbn; intros [_ H]; done.
  - cbn. by rewrite Ha.
Qed.

(** What [execute_prepared] leaves behind. *)
Lemma execute_prepared_spec sql vs d w :
  let r := execute_prepared now disconnect run_prepared b sql vs d w in
  log (env r.1) = log (env w) ++ match r.2 with Failure _ => [] | _ => [vs] end /\
  match r.2 with
  | Success x => disposition (session_snapshot x) = Retire -> usable r.1 = false
  | _ => usable r.1 = false
  end.
Proof.
  unfold execute_prepared, invoke_borrowed, physical_session, mbind, W_bind, ask, mret, W_ret.
  pose proof (quiet_invalidate w) as Hi. destruct (invalidate_cache now b w) as [w1 u]. cbn in Hi.
  destruct (if attached b w1 then session (own w1) else None) as [q|] eqn:Es.
  - pose proof (log_call (run_prepared sql vs d) w1) as Hc. destruct (call now disconnect (run_prepared sql vs d) w1) as [w2 a].
    rewrite (log_run Hlog), Hi in Hc. cbn in Hc.
    pose proof (quiet_retire_lease w2) as Hr. pose proof (retire_unusable w2) as Hu.
    destruct (retire_lease disconnect b w2) as [w3 u3] eqn:Er. cbn in Hr, Hu.
    destruct a as [x| |]; cbn; rewrite ?Er; cbn; [|split; [congruence|done]..].
    case_bool_decide as Hd; rewrite ?Er; cbn; (split; [congruence|done]).
  - cbn. rewrite app_nil_r. split; [done|]. unfold usable. destruct (attached b w1); [|done]. by rewrite Es.
Qed.

Lemma unexpected_false r s : unexpected_result r s = false ->
  exists k, q_statement_kind r = Some k /\ k <> SelectCursor /\ q_columns r = [] /\ q_rows r = [] /\
    q_error r = None /\ additional_results r = [].
Proof.
  unfold unexpected_result. rewrite !orb_false_iff, !negb_false_iff, !Z.eqb_eq.
  intros (((((((((H1 & H2) & H3) & H4) & H5) & H6) & H7) & H8) & H9) & H10).
  assert (forall A (l : list A), size l = 0 -> l = []) as Hnil by (intros A [|? l]; [done|unfold size; cbn; lia]).
  destruct (q_statement_kind r) as [k|]; [|done]. exists k. apply bool_decide_eq_false in H9.
  destruct (q_error r); [done|]. split_and!; auto. congruence.
Qed.

(** Where the execution of some sets stands: the first [length os] are settled
    and the rest is untouched, or the next one failed. *)
Inductive ran (sets : list PreparedCommandSet) (w w' : World E) : list PreparedCommandOutcome -> nat -> Prop :=
| ran_all os :
    Forall2 settled sets os -> log (env w') = log (env w) ++ proceeding sets -> ran sets w w' os (length sets)
| ran_stopped before set after os o tail :
    sets = before ++ set :: after -> Forall2 settled before os -> o_state o = Failed ->
    log (env w') = log (env w) ++ proceeding before ++ tail -> (tail = [] \/ tail = [values set]) ->
    (exists e, o_error o = Some e /\ (error_disposition e = Retire -> usable w' = false)) ->
    ran sets w w' (os ++ o :: replicate (length after) not_attempted) (S (length before)).

Lemma ran_cons set sets w w1 w' o os n :
  settled set o -> log (env w1) = log (env w) ++ proceeding [set] -> ran sets w1 w' os n ->
  ran (set :: sets) w w' (o :: os) (S n).
Proof.
  assert (forall l, proceeding (set :: l) = proceeding [set] ++ proceeding l) as Hp.
  { intros l. unfold proceeding. cbn. by destruct (ignored set). }
  intros Ho H1 [os' Hf Hl|before s after os' o' tail -> Hf Hs Hl Ht He].
  - apply (ran_all (set :: sets)); [by constructor|]. by rewrite Hl, H1, (Hp sets), app_assoc.
  - apply (ran_stopped _ _ _ (set :: before) s after (o :: os') o' tail); try done; [by constructor|].
    rewrite Hl, H1, (Hp before), <- !app_assoc. done.
Qed.

Lemma insert_settled done o rest i :
  length done = i -> <[i := o]> (done ++ not_attempted :: rest) = (done ++ [o]) ++ rest.
Proof. intros <-. rewrite insert_app_r_alt, Nat.sub_diag by done. cbn. by rewrite <- app_assoc. Qed.

(** The batch after some more sets, [done] being settled before. *)
Definition reached (done : list PreparedCommandOutcome) (sets : list PreparedCommandSet) (i : nat) (w : World E)
    (r : World E * (PreparedCommandBatchResult * SessionSnapshot)) : Prop :=
  exists os n, outcomes r.2.1 = done ++ os /\ examined r.2.1 = (i + n)%nat /\ ran sets w r.1 os n.

Section OneSet.
Context (done : list PreparedCommandOutcome) (set : PreparedCommandSet) (sets : list PreparedCommandSet).
Context (i : nat) (batch : PreparedCommandBatchResult) (w : World E).
Context (Ho : outcomes batch = done ++ not_attempted :: replicate (length sets) not_attempted) (Hd : length done = i).

Lemma reached_failed o w' s tail :
  o_state o = Failed -> log (env w') = log (env w) ++ tail -> (tail = [] \/ tail = [values set]) ->
  (exists e, o_error o = Some e /\ (error_disposition e = Retire -> usable w' = false)) ->
  reached done (set :: sets) i w (w', (set_outcome i o batch, s)).
Proof.
  intros Hs Hl Ht Hx. exists (o :: replicate (length sets) not_attempted), 1%nat. cbn [set_outcome outcomes examined fst snd].
  rewrite Ho, insert_settled, <- app_assoc by done. split_and!; [done|lia|].
  by apply (ran_stopped (set :: sets) w w' [] set sets [] o tail).
Qed.

Lemma reached_fail c w1 tail :
  log (env w1) = log (env w) ++ tail -> (tail = [] \/ tail = [values set]) ->
  reached done (set :: sets) i w (fail_batch disconnect b c i batch w1).
Proof.
  intros Hl Ht. unfold fail_batch, mbind, W_bind. pose proof (quiet_retire_lease w1) as Hr.
  pose proof (retire_unusable w1) as Hu. destruct (retire_lease disconnect b w1) as [w2 u]. cbn in Hr, Hu.
  apply (reached_failed _ _ _ tail); [done|congruence|done|]. eexists. split; [done|]. done.
Qed.

Lemma reached_cons o w1 r :
  settled set o -> log (env w1) = log (env w) ++ proceeding [set] ->
  reached (done ++ [o]) sets (S i) w1 r -> reached done (set :: sets) i w r.
Proof.
  intros Hs Hl (os & n & H1 & H2 & H3). exists (o :: os), (S n). rewrite H1, H2, <- app_assoc.
  split_and!; [done|lia|]. by eapply ran_cons.
Qed.

Lemma next_outcomes o : outcomes (set_outcome i o batch) = (done ++ [o]) ++ replicate (length sets) not_attempted.
Proof. cbn. by rewrite Ho, insert_settled. Qed.
Lemma next_done (o : PreparedCommandOutcome) : length (done ++ [o]) = S i.
Proof. rewrite length_app. cbn. lia. Qed.
End OneSet.

Lemma run_sets_spec plan sets : forall done i metadata batch snapshot w,
  outcomes batch = done ++ replicate (length sets) not_attempted -> length done = i -> examined batch = i ->
  reached done sets i w (run_sets now disconnect run_prepared b plan sets i metadata batch snapshot w).
Proof.
  induction sets as [|set sets IH]; intros done i metadata batch snapshot w Ho Hd He.
  { exists [], 0%nat. cbn in *. rewrite app_nil_r in *. split_and!; [done|lia|].
    apply (ran_all [] w w []); [done|]. by rewrite app_nil_r. }
  cbn [replicate length] in Ho. cbn [run_sets].
  assert (forall o md s w1, settled set o -> log (env w1) = log (env w) ++ proceeding [set] ->
    reached done (set :: sets) i w
      (run_sets now disconnect run_prepared b plan sets (S i) md (set_outcome i o batch) s w1)) as Hnext.
  { intros o md s w1 Hs Hl. eapply reached_cons; [done|exact Hs|exact Hl|].
    apply IH; [by apply next_outcomes|by apply next_done|done]. }
  destruct (ignored set) eqn:Ei.
  { apply Hnext; [by unfold settled; rewrite Ei|]. unfold proceeding. cbn. rewrite Ei. by rewrite app_nil_r. }
  assert (proceeding [set] = [values set]) as Hp by (unfold proceeding; cbn; by rewrite Ei).
  unfold mbind, W_bind. pose proof (quiet_clock w) as Hc. destruct (read_clock now w) as [w1 t]. cbn in Hc.
  destruct (deadline_ plan <=? t); [apply (reached_fail _ _ _ _ _ _ Ho Hd _ _ []); [by rewrite app_nil_r|by left]|].
  destruct (execute_prepared_spec (sql_ plan) (values set) (deadline_ plan) w1) as [Hl Hu].
  destruct (execute_prepared now disconnect run_prepared b (sql_ plan) (values set) (deadline_ plan) w1) as [w2 res].
  cbn in Hl, Hu. rewrite Hc in Hl. destruct res as [[r s|e]|c|ba].
  - pose proof (quiet_clock w2) as Hc2. destruct (read_clock now w2) as [w3 t3]. cbn in Hc2. rewrite <- Hc2 in Hl.
    destruct (deadline_ plan <=? t3); [apply (reached_fail _ _ _ _ _ _ Ho Hd _ _ _ Hl); by right|].
    destruct (unexpected_result r s) eqn:Eu; [apply (reached_fail _ _ _ _ _ _ Ho Hd _ _ _ Hl); by right|].
    destruct (_ <? size _); [apply (reached_fail _ _ _ _ _ _ Ho Hd _ _ _ Hl); by right|].
    apply Hnext; [|by rewrite Hp]. unfold settled. rewrite Ei. split; [done|].
    apply unexpected_false in Eu as (k & ? & ? & ? & ? & ? & ?). exists r, k. done.
  - apply (reached_failed _ _ _ _ _ _ Ho Hd _ _ _ [values set]); [done|done|by right|]. by exists e.
  - apply (reached_failed _ _ _ _ _ _ Ho Hd _ _ _ []); [done|done|by left|]. eexists. split; [done|]. by intros _.
  - apply (reached_fail _ _ _ _ _ _ Ho Hd _ _ _ Hl). by right.
Qed.

Lemma reached_log done sets i w w1 r : log (env w1) = log (env w) -> reached done sets i w1 r -> reached done sets i w r.
Proof.
  intros Hl (os & n & H1 & H2 & H3). exists os, n. split_and!; try done.
  destruct H3; [apply ran_all|eapply ran_stopped]; eauto; congruence.
Qed.

Lemma batch_reached plan w :
  plan_valid b plan w = true -> outcomes_ plan = replicate (length (sets_ plan)) not_attempted ->
  exists r, execute_command_batch now disconnect is_connected session_state run_prepared b plan w =
              (r.1, (consume_plan plan, Good r.2.1 r.2.2)) /\ reached [] (sets_ plan) 0 w r.
Proof.
  intros Hv Ho. unfold execute_command_batch, mbind, W_bind, ask. rewrite Hv. cbn [negb].
  assert (exists set sets, sets_ plan = set :: sets) as (set0 & sets & Es).
  { destruct (sets_ plan) eqn:E0; [|by eauto]. unfold plan_valid in Hv. by rewrite E0, !andb_false_r in Hv. }
  set (batch := {| outcomes := outcomes_ plan; examined := 0 |}).
  assert (outcomes batch = [] ++ not_attempted :: replicate (length sets) not_attempted) as H0 by (cbn; by rewrite Ho, Es).
  assert (forall c w1, log (env w1) = log (env w) -> reached [] (sets_ plan) 0 w (fail_batch disconnect b c 0 batch w1)) as Hf.
  { intros c w1 Hl. rewrite Es. apply (reached_fail _ _ _ _ _ _ H0 eq_refl _ _ []); [by rewrite app_nil_r|by left]. }
  assert (forall m : World E * (PreparedCommandBatchResult * SessionSnapshot), reached [] (sets_ plan) 0 w m ->
    exists r, (let '(w4, a) := m in (w4, (consume_plan plan, Good a.1 a.2))) = (r.1, (consume_plan plan, Good r.2.1 r.2.2)) /\
              reached [] (sets_ plan) 0 w r) as Hend by (intros [w4 a]; by exists (w4, a)).
  pose proof (log_call is_connected w) as Hc. rewrite (log_connected Hlog) in Hc.
  destruct (call now disconnect is_connected w) as [w1 [connected| |]]; cbn in Hc; [|by apply Hend, Hf..].
  pose proof (log_call session_state w1) as Hs. rewrite (log_state Hlog), Hc in Hs.
  destruct (call now disconnect session_state w1) as [w2 [st| |]]; cbn in Hs; [|by apply Hend, Hf..].
  destruct (unusable _); [by apply Hend, Hf|]. apply Hend, (reached_log _ _ _ _ w2); [done|].
  apply run_sets_spec; [|done..]. cbn. by rewrite Ho.
Qed.


End Proofs.

(** ** A session that executes two commands and refuses the third *)

Abbreviation y_env := (Z * list (list QueryParameter))%type.
Definition y_now (e : y_env) : Z * y_env := (e.1, (e.1 + 1, e.2)).
Definition y_disconnect (e : y_env) : y_env := e.
Definition y_connected (e : y_env) : Answer bool * list Event * y_env := (Returned true, [], e).
Definition y_state (e : y_env) : Answer SessionState * list Event * y_env := (Returned Idle, [], e).
Definition y_inserted : QueryResult :=
  {| q_rows := []; q_columns := []; q_error := None; q_affected_rows := 1; additional_results := [];
     q_statement_kind := Some Insert; normalized_parameter_types := []; cell_errors := [];
     described_result_shape := None; q_execution_shape := Some NoResultSet; result_id := 0 |}.
Definition y_run (sql : bytes) (vs : list QueryParameter) (deadline : Z) (e : y_env)
    : Answer (BackendResult QueryResult) * list Event * y_env :=
  (Returned (if (length e.2 <? 2)%nat then Good y_inserted idle_reusable
             else Bad {| error_code := OtherError; error_state := Idle; error_disposition := Reusable |}),
   [], (e.1, e.2 ++ [vs])).
Definition y_world : World y_env :=
  {| store := {| authorities := ∅; fresh := 0 |};
     own := {| session := Some 4%nat; credential := None; authentication := None; cache_generation := None;
               reuse_policy := None; idle_since := 0; accepting := true; leased := true |};
     owner := true; leases := [0%nat]; next := 1; disconnected := []; env := (10, []) |}.
Definition y_value (s : bytes) : list QueryParameter := [{| value := Some s; type := Int32; binary_input := false |}].
Definition y_sets : list PreparedCommandSet :=
  [{| values := y_value (str "1"); ignored := false |}; {| values := []; ignored := true |};
   {| values := y_value (str "2"); ignored := false |}; {| values := y_value (str "3"); ignored := false |};
   {| values := y_value (str "4"); ignored := false |}].
Definition y_limits : ResultLimits :=
  {| max_rows := 100; max_cells := 100; max_columns_per_description := 10; max_results := 10;
     max_metadata_entries := 10; max_column_name_bytes := 10; max_metadata_name_bytes := 100;
     max_diagnostic_bytes := 100 |}.

Lemma y_logs : logs y_now y_disconnect y_connected y_state y_run snd.
Proof. by constructor. Qed.

Definition y_batch : World y_env * (PreparedCommandPlan * BackendResult PreparedCommandBatchResult) :=
  execute_command_batch y_now y_disconnect y_connected y_state y_run 0
    (new_plan (str "INSERT") y_sets empty_query_result 0 1000 y_limits) y_world.

