(* ===== verification/PreparedSequence.v ===== *)
(** * Result sequences of a borrowed session

    [sdk/src/session/session_owner.cpp], [start_result_sequence] and
    [advance_result_sequence]: a prepared query is executed for one parameter
    set at a time, every result is checked against the schema that was frozen
    when the statement was described, and the totals over all results stay
    within the limits.  The plan and the physical session are those of
    [PreparedBatch]. *)

From S2P Require Import Prelude Utf8 PgIeee PgResult Backend Credential SessionOwner PreparedBatch.

#[local] Existing Instance W_ret.
#[local] Existing Instance W_bind.

(** ** The sequence *)

(** What the results have used so far. *)
Record Totals := { t_rows : Z; t_cells : Z; t_metadata : Z; t_names : Z; t_decoded : Z }.

Record PreparedResultSequence := {
  s_sql : bytes; s_sets : list PreparedCommandSet; s_description : QueryResult; s_borrow : nat; s_deadline : Z;
  s_limits : ResultLimits; s_decoded_limit : Z; s_next : nat; s_totals : Totals; s_closed : bool }.

Definition with_next (n : nat) (s : PreparedResultSequence) : PreparedResultSequence :=
  {| s_sql := s_sql s; s_sets := s_sets s; s_description := s_description s; s_borrow := s_borrow s;
     s_deadline := s_deadline s; s_limits := s_limits s; s_decoded_limit := s_decoded_limit s; s_next := n;
     s_totals := s_totals s; s_closed := s_closed s |}.
Definition with_totals (t : Totals) (s : PreparedResultSequence) : PreparedResultSequence :=
  {| s_sql := s_sql s; s_sets := s_sets s; s_description := s_description s; s_borrow := s_borrow s;
     s_deadline := s_deadline s; s_limits := s_limits s; s_decoded_limit := s_decoded_limit s; s_next := s_next s;
     s_totals := t; s_closed := s_closed s |}.
Definition close_sequence (s : PreparedResultSequence) : PreparedResultSequence :=
  {| s_sql := s_sql s; s_sets := s_sets s; s_description := s_description s; s_borrow := s_borrow s;
     s_deadline := s_deadline s; s_limits := s_limits s; s_decoded_limit := s_decoded_limit s; s_next := s_next s;
     s_totals := s_totals s; s_closed := true |}.

Record PreparedResultStep := {
  p_result : option QueryResult; p_error : option BackendError; p_snapshot : SessionSnapshot;
  p_examined : nat; p_ordinal : nat }.

(** ** Accounting of one result *)

(** [consume]: whether the amount fits, and what is used then. *)
Definition consume (amount limit used : Z) : bool * Z :=
  if (limit <? used) || (limit - used <? amount) then (false, used) else (true, used + amount).

Definition use_rows (limit n : Z) (t : Totals) : bool * Totals :=
  let '(ok, v) := consume n limit (t_rows t) in
  (ok, {| t_rows := v; t_cells := t_cells t; t_metadata := t_metadata t; t_names := t_names t; t_decoded := t_decoded t |}).
Definition use_cells (limit n : Z) (t : Totals) : bool * Totals :=
  let '(ok, v) := consume n limit (t_cells t) in
  (ok, {| t_rows := t_rows t; t_cells := v; t_metadata := t_metadata t; t_names := t_names t; t_decoded := t_decoded t |}).
Definition use_metadata (limit n : Z) (t : Totals) : bool * Totals :=
  let '(ok, v) := consume n limit (t_metadata t) in
  (ok, {| t_rows := t_rows t; t_cells := t_cells t; t_metadata := v; t_names := t_names t; t_decoded := t_decoded t |}).
Definition use_names (limit n : Z) (t : Totals) : bool * Totals :=
  let '(ok, v) := consume n limit (t_names t) in
  (ok, {| t_rows := t_rows t; t_cells := t_cells t; t_metadata := t_metadata t; t_names := v; t_decoded := t_decoded t |}).
Definition use_decoded (limit n : Z) (t : Totals) : bool * Totals :=
  let '(ok, v) := consume n limit (t_decoded t) in
  (ok, {| t_rows := t_rows t; t_cells := t_cells t; t_metadata := t_metadata t; t_names := t_names t; t_decoded := v |}).

(** The flags [valid] and [bounded] with the totals. *)
Record Account := { valid : bool; bounded : bool; totals : Totals }.
Definition charge (use : Totals -> bool * Totals) (a : Account) : Account :=
  let '(ok, t) := use (totals a) in {| valid := valid a; bounded := ok && bounded a; totals := t |}.
Definition require (ok : bool) (a : Account) : Account :=
  {| valid := valid a && ok; bounded := bounded a; totals := totals a |}.
Definition within_bound (ok : bool) (a : Account) : Account :=
  {| valid := valid a; bounded := bounded a && ok; totals := totals a |}.

Definition same_type (actual described : NativeTypeInfo) : bool :=
  bool_decide (scalar actual = scalar described) && (column_size actual =? column_size described) &&
  (decimal_digits actual =? decimal_digits described) && Bool.eqb (known actual) (known described) &&
  bool_decide (declared_type actual = declared_type described) &&
  bool_decide (declared_column_size actual = declared_column_size described).

Definition account_column (limits : ResultLimits) (c expected : ResultColumnMetadata) (a : Account) : Account :=
  match normalized_type c, normalized_type expected with
  | Some actual, Some described =>
      if bad_column c then require false a
      else
        let a := require (beq (column_name c) (column_name expected) && same_type actual described) a in
        let a := within_bound (size (column_name c) <=? max_column_name_bytes limits) a in
        charge (use_names (max_metadata_name_bytes limits) (size (column_name c))) a
  | _, _ => require false a
  end.
Fixpoint account_columns (limits : ResultLimits) (cs expected : list ResultColumnMetadata) (a : Account) : Account :=
  match cs, expected with
  | c :: cs, e :: expected => account_columns limits cs expected (account_column limits c e a)
  | _, _ => a
  end.

Fixpoint account_cells (decoded_limit : Z) (row : list (option bytes)) (a : Account) : Account :=
  match row with
  | [] => a
  | None :: row => account_cells decoded_limit row a
  | Some s :: row => account_cells decoded_limit row (charge (use_decoded decoded_limit (size s)) a)
  end.
Fixpoint account_rows (limits : ResultLimits) (decoded_limit : Z) (width : Z) (rs : list (list (option bytes)))
    (a : Account) : Account :=
  match rs with
  | [] => a
  | row :: rs =>
      let a := require (size row =? width) a in
      let a := charge (use_cells (max_cells limits) (size row)) a in
      account_rows limits decoded_limit width rs (account_cells decoded_limit row a)
  end.

Definition same_parameter (actual expected : NativeTypeInfo) : bool :=
  bool_decide (scalar actual = scalar expected) && (column_size actual =? column_size expected) &&
  (decimal_digits actual =? decimal_digits expected) && Bool.eqb (known actual) (known expected).
Fixpoint same_parameters (xs ys : list NativeTypeInfo) : bool :=
  match xs, ys with x :: xs, y :: ys => same_parameter x y && same_parameters xs ys | _, _ => true end.
Definition parameters_match (actual expected : list NativeTypeInfo) : bool :=
  (size actual =? 0) || ((size actual =? size expected) && same_parameters actual expected).

(** [previous >= error], in the order of rows and then columns. *)
Definition error_geb (a b : CellEncodingError) : bool :=
  (error_row b <? error_row a)%nat || ((error_row a =? error_row b)%nat && (error_column b <=? error_column a)%nat).

Definition cell_present (rs : list (list (option bytes))) (width : nat) (e : CellEncodingError) : bool :=
  (error_column e <? width)%nat &&
  match rs !! error_row e with
  | Some row => match row !! error_column e with Some (Some _) => true | _ => false end
  | None => false
  end.
Fixpoint cell_errors_ok (rs : list (list (option bytes))) (width : nat) (previous : option CellEncodingError)
    (es : list CellEncodingError) : bool :=
  match es with
  | [] => true
  | e :: es =>
      cell_present rs width e && match previous with Some p => negb (error_geb p e) | None => true end &&
      cell_errors_ok rs width (Some e) es
  end.

Definition account_result (s : PreparedResultSequence) (r : QueryResult) : Account :=
  let limits := s_limits s in
  let a := {| valid := true; bounded := true; totals := s_totals s |} in
  let a := charge (use_rows (max_rows limits) (size (q_rows r))) a in
  let a := charge (use_metadata (max_metadata_entries limits) (size (q_columns r))) a in
  let a := charge (use_metadata (max_metadata_entries limits) (size (normalized_parameter_types r))) a in
  let a := account_columns limits (q_columns r) (q_columns (s_description s)) a in
  let a := account_rows limits (s_decoded_limit s) (size (q_columns r)) (q_rows r) a in
  let a := require (parameters_match (normalized_parameter_types r) (normalized_parameter_types (s_description s))) a in
  require (cell_errors_ok (q_rows r) (length (q_columns r)) None (cell_errors r)) a.

(** The shape every result of the sequence has. *)
Definition bad_shape (s : PreparedResultSequence) (r : QueryResult) (snapshot : SessionSnapshot) : bool :=
  unusable snapshot || negb (no_error (q_error r)) || negb (no_error (described_result_shape r)) ||
  negb (bool_decide (q_execution_shape r = Some ResultSet)) || negb (size (additional_results r) =? 0) ||
  negb (size (q_columns r) =? size (q_columns (s_description s))).

(** ** Operations *)

Section Sequence.
Context {E : Type} (now : E -> Z * E) (disconnect : E -> E).
#[local] Abbreviation Call A := (E -> Answer A * list Event * E).
Context (is_connected : Call bool) (session_state : Call SessionState).
Context (run_prepared : bytes -> list QueryParameter -> Z -> Call (BackendResult QueryResult)).
#[local] Abbreviation W := (SessionOwner.W (E := E)).
#[local] Abbreviation clock := (read_clock now).
#[local] Abbreviation calls := (call now disconnect).
Context (b : nat).

(** [None] at the outside is the exception of a passive call. *)
Definition start_result_sequence (plan : PreparedCommandPlan) (decoded_limit : Z)
    : W (PreparedCommandPlan * option (BackendResult PreparedResultSequence)) :=
  w ← ask;
  if negb (plan_valid b plan w) ||
     negb (bool_decide (described_result_shape (description_ plan) = Some DescribesResultSet))
  then mret (plan, Some passive_refusal)
  else
    let d := description_ plan in
    let refuse (c : DbErrorCode) :=
      retire_lease disconnect b ≫= fun _ => mret (consume_plan plan, Some (Bad (plain_error c))) in
    if metadata_exceeds (limits_ plan) d then refuse ResourceLimit
    else
      match check_columns (limits_ plan) (q_columns d) 0 with
      | inr c => refuse c
      | inl names =>
          let s := {| s_sql := sql_ plan; s_sets := sets_ plan; s_description := d; s_borrow := b;
                      s_deadline := deadline_ plan; s_limits := limits_ plan; s_decoded_limit := decoded_limit;
                      s_next := 0;
                      s_totals := {| t_rows := 0; t_cells := 0;
                                     t_metadata := size (q_columns d) + size (normalized_parameter_types d);
                                     t_names := names; t_decoded := 0 |};
                      s_closed := false |} in
          let rethrow := retire_lease disconnect b ≫= fun _ => mret (consume_plan plan, None) in
          connected ← calls is_connected;
          match connected with
          | Returned connected =>
              st ← calls session_state;
              match st with
              | Returned st => mret (consume_plan plan, Some (Good s (passive_outcome connected st)))
              | _ => rethrow
              end
          | _ => rethrow
          end
      end.

Definition accepts_result_sequence (s : PreparedResultSequence) (w : World E) : bool :=
  negb (s_closed s) && borrows b (s_borrow s) w && negb (size (s_sets s) =? 0) && (s_next s <=? length (s_sets s))%nat.

(** The lambda [fail] of [advance_result_sequence]. *)
Definition fail_step (c : DbErrorCode) (s : PreparedResultSequence) (examined ordinal : nat)
    : W (PreparedResultSequence * BackendResult PreparedResultStep) :=
  retire_lease disconnect b ≫= fun _ =>
  mret (close_sequence s,
        Good {| p_result := None; p_error := Some (plain_error c); p_snapshot := lost;
                p_examined := examined; p_ordinal := ordinal |} lost).

(** [while (next < size && sets[next].ignored) ++next]. *)
Fixpoint leading_ignored (sets : list PreparedCommandSet) : nat :=
  match sets with set :: sets => if ignored set then S (leading_ignored sets) else O | [] => O end.
Definition next_proceeding (s : PreparedResultSequence) : nat :=
  (s_next s + leading_ignored (drop (s_next s) (s_sets s)))%nat.

(** The set at [next] is executed and its result checked. *)
Definition execute_step (s : PreparedResultSequence) (set : PreparedCommandSet)
    : W (PreparedResultSequence * BackendResult PreparedResultStep) :=
  let ordinal := S (s_next s) in
  t ← clock;
  if s_deadline s <=? t then fail_step Timeout s ordinal ordinal
  else
    let s := with_next ordinal s in
    result ← execute_prepared now disconnect run_prepared b (s_sql s) (values set) (s_deadline s);
    let failed (e : BackendError) :=
      mret (close_sequence s,
            Good {| p_result := None; p_error := Some e; p_snapshot := error_snapshot e;
                    p_examined := ordinal; p_ordinal := ordinal |} (error_snapshot e)) in
    match result with
    | Rethrown bad_alloc =>
        fail_step (if bad_alloc : bool then AllocationFailure else ProtocolError) s ordinal ordinal
    | Failure _ => failed no_session
    | Success (Bad e) => failed e
    | Success (Good r snapshot) =>
        t ← clock;
        if s_deadline s <=? t then fail_step Timeout s ordinal ordinal
        else if bad_shape s r snapshot then fail_step ProtocolError s ordinal ordinal
        else
          let a := account_result s r in
          let s := with_totals (totals a) s in
          if negb (valid a) then fail_step ProtocolError s ordinal ordinal
          else if negb (bounded a) then fail_step ResourceLimit s ordinal ordinal
          else
            t ← clock;
            if s_deadline s <=? t then fail_step Timeout s ordinal ordinal
            else
              mret (s, Good {| p_result := Some r; p_error := None; p_snapshot := snapshot;
                               p_examined := ordinal; p_ordinal := ordinal |} snapshot)
    end.

Definition advance_result_sequence (s : PreparedResultSequence)
    : W (PreparedResultSequence * BackendResult PreparedResultStep) :=
  w ← ask;
  if negb (accepts_result_sequence s w) then mret (close_sequence s, passive_refusal)
  else
    let threw (bad_alloc : bool) := fail_step (if bad_alloc then AllocationFailure else ProtocolError) s 0 0 in
    connected ← calls is_connected;
    match connected with
    | ThrewBadAlloc => threw true
    | ThrewOther => threw false
    | Returned connected =>
        st ← calls session_state;
        match st with
        | ThrewBadAlloc => threw true
        | ThrewOther => threw false
        | Returned st =>
            let snapshot := passive_outcome connected st in
            if unusable snapshot then fail_step NotConnected s 0 0
            else
              let n := next_proceeding s in
              let s := with_next n s in
              match s_sets s !! n with
              | None =>
                  mret (close_sequence s,
                        Good {| p_result := None; p_error := None; p_snapshot := snapshot;
                                p_examined := n; p_ordinal := 0 |} snapshot)
              | Some set => execute_step s set
              end
        end
    end.

(** Any number of advances, with the steps they answer. *)
Fixpoint advances (n : nat) (s : PreparedResultSequence)
    : W (PreparedResultSequence * list (BackendResult PreparedResultStep)) :=
  match n with
  | O => mret (s, [])
  | S n =>
      r ← advance_result_sequence s;
      let '(s, step) := r in
      r ← advances n s;
      let '(s, steps) := r in mret (s, step :: steps)
  end.

End Sequence.

(** ** What accounting guarantees *)

Definition t_add (t u : Totals) : Totals :=
  {| t_rows := t_rows t + t_rows u; t_cells := t_cells t + t_cells u; t_metadata := t_metadata t + t_metadata u;
     t_names := t_names t + t_names u; t_decoded := t_decoded t + t_decoded u |}.
Definition t_zero : Totals := {| t_rows := 0; t_cells := 0; t_metadata := 0; t_names := 0; t_decoded := 0 |}.

Lemma t_add_zero t : t_add t t_zero = t.
Proof. destruct t. unfold t_add. cbn. f_equal; lia. Qed.
Lemma t_add_assoc t u v : t_add t (t_add u v) = t_add (t_add t u) v.
Proof. unfold t_add. cbn. f_equal; lia. Qed.

Record fits (limits : ResultLimits) (decoded_limit : Z) (t : Totals) : Prop := {
  fit_rows : t_rows t <= max_rows limits; fit_cells : t_cells t <= max_cells limits;
  fit_metadata : t_metadata t <= max_metadata_entries limits; fit_names : t_names t <= max_metadata_name_bytes limits;
  fit_decoded : t_decoded t <= decoded_limit }.

Section Accounting.
Context (limits : ResultLimits) (decoded_limit : Z).

(** From one account to a later one: the totals still fit, and if nothing was
    refused they grew by [u] and [P] holds. *)
Record spent (a a' : Account) (u : Totals) (P : Prop) : Prop := {
  sp_fits : fits limits decoded_limit (totals a) -> fits limits decoded_limit (totals a');
  sp_bounded : valid a' = true -> bounded a' = true -> bounded a = true /\ totals a' = t_add (totals a) u;
  sp_valid : valid a' = true -> valid a = true /\ P }.

Lemma spent_refl a : spent a a t_zero True.
Proof. constructor; [done|by rewrite t_add_zero|done]. Qed.

Lemma spent_trans a a' a'' u u' (P P' : Prop) :
  spent a a' u P -> spent a' a'' u' P' -> spent a a'' (t_add u u') (P /\ P').
Proof.
  intros [F B V] [F' B' V']. constructor; [auto| |].
  - intros Hv Hb. destruct (B' Hv Hb) as [H ->], (V' Hv) as [Hv' _], (B Hv' H) as [? ->]. by rewrite t_add_assoc.
  - intros [H ?]%V'. apply V in H as [? ?]. done.
Qed.

Lemma spent_weaken a a' u u' (P P' : Prop) : spent a a' u P -> u = u' -> (P -> P') -> spent a a' u' P'.
Proof. intros [F B V] <- H. constructor; [done|done|]. intros [? ?]%V. auto. Qed.

Lemma spent_require ok a : spent a (require ok a) t_zero (ok = true).
Proof.
  constructor; cbn; [done| |].
  - intros _ ?. by rewrite t_add_zero.
  - by intros [? ?]%andb_true_iff.
Qed.
Lemma spent_within ok a : spent a (within_bound ok a) t_zero True.
Proof.
  constructor; cbn; [done| |done].
  intros _ [? ?]%andb_true_iff. by rewrite t_add_zero.
Qed.

Lemma consume_spec amount limit used : used <= limit ->
  (consume amount limit used).2 <= limit /\
  ((consume amount limit used).1 = true -> (consume amount limit used).2 = used + amount).
Proof. intros H. unfold consume. destruct (_ || _) eqn:E; cbn; [done|]. apply orb_false_iff in E as [? ?]. zb. lia. Qed.
Lemma consume_grows amount limit used : (consume amount limit used).1 = true ->
  (consume amount limit used).2 = used + amount.
Proof. unfold consume. by destruct (_ || _). Qed.

Lemma spent_charge use u a :
  (forall t, fits limits decoded_limit t -> fits limits decoded_limit (use t).2) ->
  (forall t, (use t).1 = true -> (use t).2 = t_add t u) -> spent a (charge use a) u True.
Proof.
  intros Hf Hu. unfold charge. specialize (Hf (totals a)). specialize (Hu (totals a)).
  destruct (use (totals a)) as [ok t]. cbn in *. constructor; cbn; [done| |done].
  intros _ [H ?]%andb_true_iff. auto.
Qed.

Ltac charged :=
  apply spent_charge; intros t; unfold use_rows, use_cells, use_metadata, use_names, use_decoded;
  [ intros []; match goal with |- context [consume ?n ?l ?u] =>
      pose proof (proj1 (consume_spec n l u ltac:(done))); destruct (consume n l u) end; by constructor
  | match goal with |- context [consume ?n ?l ?u] =>
      let Hc := fresh in let H := fresh in
      pose proof (consume_grows n l u) as Hc; destruct (consume n l u); cbn in *; intros H; rewrite (Hc H)
    end; unfold t_add; cbn; f_equal; lia ].

Lemma spent_rows n a : spent a (charge (use_rows (max_rows limits) n) a)
  {| t_rows := n; t_cells := 0; t_metadata := 0; t_names := 0; t_decoded := 0 |} True.
Proof. charged. Qed.
Lemma spent_cells n a : spent a (charge (use_cells (max_cells limits) n) a)
  {| t_rows := 0; t_cells := n; t_metadata := 0; t_names := 0; t_decoded := 0 |} True.
Proof. charged. Qed.
Lemma spent_metadata n a : spent a (charge (use_metadata (max_metadata_entries limits) n) a)
  {| t_rows := 0; t_cells := 0; t_metadata := n; t_names := 0; t_decoded := 0 |} True.
Proof. charged. Qed.
Lemma spent_names n a : spent a (charge (use_names (max_metadata_name_bytes limits) n) a)
  {| t_rows := 0; t_cells := 0; t_metadata := 0; t_names := n; t_decoded := 0 |} True.
Proof. charged. Qed.
Lemma spent_decoded n a : spent a (charge (use_decoded decoded_limit n) a)
  {| t_rows := 0; t_cells := 0; t_metadata := 0; t_names := 0; t_decoded := n |} True.
Proof. charged. Qed.

(** A column of a result against the described one. *)
Definition column_matches (c e : ResultColumnMetadata) : Prop :=
  column_name c = column_name e /\ utf8_code_point_count (column_name c) <> None /\
  exists t u, normalized_type c = Some t /\ normalized_type e = Some u /\ same_type t u = true.

Definition names_of (cs : list ResultColumnMetadata) : Z := foldr (fun c n => size (column_name c) + n) 0 cs.
Definition decoded_bytes (row : list (option bytes)) : Z :=
  foldr (fun c n => match c with Some s => size s + n | None => n end) 0 row.
Definition cells_of (rs : list (list (option bytes))) : Z := foldr (fun row n => size row + n) 0 rs.
Definition decoded_of (rs : list (list (option bytes))) : Z := foldr (fun row n => decoded_bytes row + n) 0 rs.

Lemma decoded_some s row : decoded_bytes (Some s :: row) = size s + decoded_bytes row.
Proof. done. Qed.
Ltac sum := unfold t_add, t_zero, names_of, decoded_of, cells_of; cbn [t_rows t_cells t_metadata t_names t_decoded take length foldr];
  rewrite ?decoded_some; f_equal; lia.

Lemma spent_false a u P : spent a (require false a) u P.
Proof. constructor; cbn; rewrite ?andb_false_r; done. Qed.

Lemma spent_column c e a :
  spent a (account_column limits c e a)
    {| t_rows := 0; t_cells := 0; t_metadata := 0; t_names := size (column_name c); t_decoded := 0 |} (column_matches c e).
Proof.
  unfold account_column. destruct (normalized_type c) as [t|] eqn:Ec; [|apply spent_false].
  destruct (normalized_type e) as [u|] eqn:Ee; [|apply spent_false].
  destruct (bad_column c) eqn:Eb; [apply spent_false|]. cbv zeta.
  eapply spent_weaken; [eapply spent_trans; [eapply spent_trans; [apply spent_require|apply spent_within]|apply spent_names]|sum|].
  intros [[[H1 H2]%andb_true_iff _] _]. unfold bad_column in Eb. apply orb_false_iff in Eb as [_ Eb].
  split; [by apply bool_decide_eq_true in H1|]. split; [by destruct (utf8_code_point_count _)|]. eauto 10.
Qed.

Lemma spent_columns cs : forall es a,
  spent a (account_columns limits cs es a)
    {| t_rows := 0; t_cells := 0; t_metadata := 0; t_names := names_of (take (length es) cs); t_decoded := 0 |}
    (length cs = length es -> Forall2 column_matches cs es).
Proof.
  induction cs as [|c cs IH]; intros [|e es] a; cbn [account_columns].
  1,2,3: eapply spent_weaken; [apply spent_refl|sum|done].
  eapply spent_weaken; [eapply spent_trans; [apply spent_column|apply IH]|sum|].
  intros [Hc H] [= Hl]. constructor; auto.
Qed.

Lemma spent_cells_of row : forall a,
  spent a (account_cells decoded_limit row a)
    {| t_rows := 0; t_cells := 0; t_metadata := 0; t_names := 0; t_decoded := decoded_bytes row |} True.
Proof.
  induction row as [|[s|] row IH]; intros a; cbn [account_cells]; [by eapply spent_weaken; [apply spent_refl|..]| |apply IH].
  eapply spent_weaken; [eapply spent_trans; [apply spent_decoded|apply IH]|sum|done].
Qed.

Lemma spent_result_rows width rs : forall a,
  spent a (account_rows limits decoded_limit width rs a)
    {| t_rows := 0; t_cells := cells_of rs; t_metadata := 0; t_names := 0; t_decoded := decoded_of rs |}
    (Forall (fun row => size row = width) rs).
Proof.
  induction rs as [|row rs IH]; intros a; cbn [account_rows]; [by eapply spent_weaken; [apply spent_refl|..]|]. cbv zeta.
  eapply spent_weaken; [eapply spent_trans; [eapply spent_trans; [eapply spent_trans;
    [apply spent_require|apply spent_cells]|apply spent_cells_of]|apply IH]|sum|].
  intros [[[H%Z.eqb_eq _] _] H']. by constructor.
Qed.
End Accounting.

(** What one result uses. *)
Definition usage (r : QueryResult) : Totals :=
  {| t_rows := size (q_rows r); t_cells := cells_of (q_rows r);
     t_metadata := size (q_columns r) + size (normalized_parameter_types r);
     t_names := names_of (q_columns r); t_decoded := decoded_of (q_rows r) |}.

(** A result of the schema that was described: its columns are the described
    ones, its rows have one cell per column, and its cell errors name cells
    that are there, in order. *)
Record conforms (d r : QueryResult) : Prop := {
  cf_columns : Forall2 column_matches (q_columns r) (q_columns d);
  cf_rows : Forall (fun row => length row = length (q_columns r)) (q_rows r);
  cf_cells : Forall (fun e => exists row c, q_rows r !! error_row e = Some row /\ row !! error_column e = Some (Some c))
               (cell_errors r);
  cf_order i e e' : cell_errors r !! i = Some e -> cell_errors r !! S i = Some e' ->
    (error_row e < error_row e' \/ error_row e = error_row e' /\ error_column e < error_column e')%nat }.

Lemma error_geb_false a b : error_geb a b = false ->
  (error_row a < error_row b \/ error_row a = error_row b /\ error_column a < error_column b)%nat.
Proof.
  unfold error_geb. rewrite orb_false_iff, andb_false_iff, Nat.ltb_ge, Nat.eqb_neq, Nat.leb_gt. lia.
Qed.

Lemma cell_errors_spec rs width es : forall p, cell_errors_ok rs width p es = true ->
  Forall (fun e => exists row c, rs !! error_row e = Some row /\ row !! error_column e = Some (Some c)) es /\
  (forall q e, p = Some q -> head es = Some e -> error_geb q e = false) /\
  (forall i e e', es !! i = Some e -> es !! S i = Some e' -> error_geb e e' = false).
Proof.
  induction es as [|e es IH]; intros p; cbn [cell_errors_ok]; [done|].
  intros [[H1 H2]%andb_true_iff H3]%andb_true_iff. destruct (IH _ H3) as (F & G & O). split_and!.
  - constructor; [|done]. unfold cell_present in H1. apply andb_true_iff in H1 as [_ H1].
    destruct (rs !! error_row e) as [row|] eqn:Er; [|done]. destruct (row !! error_column e) as [[c|]|] eqn:Ec; [|done..].
    by exists row, c.
  - intros q e0 -> [= <-]. by apply negb_true_iff in H2.
  - intros [|i] e1 e2; cbn.
    + intros [= <-] H. apply (G e e2 eq_refl). by destruct es.
    + apply O.
Qed.

Lemma size_length {A B} (l : list A) (l' : list B) : size l = size l' <-> length l = length l'.
Proof. unfold size. lia. Qed.

(** An accepted result conforms and its use is what the totals grew by. *)
Lemma account_accepts s r snapshot :
  bad_shape s r snapshot = false ->
  let a := account_result s r in
  (fits (s_limits s) (s_decoded_limit s) (s_totals s) -> fits (s_limits s) (s_decoded_limit s) (totals a)) /\
  (valid a = true -> bounded a = true -> conforms (s_description s) r /\ totals a = t_add (s_totals s) (usage r)).
Proof.
  intros Hs. unfold bad_shape in Hs. apply orb_false_iff in Hs as [_ Hs%negb_false_iff%Z.eqb_eq%size_length].
  cbv zeta. unfold account_result. cbv zeta.
  set (a0 := {| valid := true; bounded := true; totals := s_totals s |}).
  match goal with |- context [valid ?a = true] =>
    assert (spent (s_limits s) (s_decoded_limit s) a0 a (usage r) (conforms (s_description s) r)) as [F B V] end.
  { eapply spent_weaken.
    - eapply spent_trans; [|apply spent_require]. eapply spent_trans; [|apply spent_require].
      eapply spent_trans; [|apply spent_result_rows]. eapply spent_trans; [|apply spent_columns].
      eapply spent_trans; [|apply spent_metadata]. eapply spent_trans; [|apply spent_metadata]. apply spent_rows.
    - unfold usage, t_add. cbn. rewrite take_ge by lia. f_equal; lia.
    - intros ((((_ & Hc) & Hr) & _) & (H1 & _ & H3)%cell_errors_spec). constructor; [auto| |done|].
      + eapply List.Forall_impl; [|exact Hr]. intros row. apply size_length.
      + intros i e e' He He'. apply error_geb_false. eauto. }
  split; [exact F|]. intros Hv Hb. split; [apply V, Hv|]. by destruct (B Hv Hb).
Qed.

(** ** Runs of a sequence *)

(** The results the steps published. *)
Definition published (step : BackendResult PreparedResultStep) : list QueryResult :=
  match step with Good p _ => option_list (p_result p) | Bad _ => [] end.
Definition t_sum (rs : list QueryResult) : Totals := foldr (fun r t => t_add (usage r) t) t_zero rs.

Lemma t_sum_snoc rs r : t_sum (rs ++ [r]) = t_add (t_sum rs) (usage r).
Proof.
  induction rs as [|x rs IH]; cbn [t_sum foldr app]; [unfold t_add, t_zero; cbn; f_equal; lia|].
  unfold t_sum in *. rewrite IH. unfold t_add. cbn. f_equal; lia.
Qed.

Lemma proceeding_app a c : proceeding (a ++ c) = proceeding a ++ proceeding c.
Proof. unfold proceeding. by rewrite List.filter_app, map_app. Qed.

Lemma leading_spec sets : proceeding (take (leading_ignored sets) sets) = [] /\
  forall set, sets !! leading_ignored sets = Some set -> ignored set = false.
Proof.
  induction sets as [|set sets [IH1 IH2]]; cbn [leading_ignored]; [done|]. destruct (ignored set) eqn:Ei; cbn.
  - split; [|exact IH2]. unfold proceeding in *. cbn. by rewrite Ei.
  - split; [done|]. by intros ? [= <-].
Qed.

Lemma next_spec s : proceeding (take (next_proceeding s) (s_sets s)) = proceeding (take (s_next s) (s_sets s)) /\
  forall set, s_sets s !! next_proceeding s = Some set -> ignored set = false.
Proof.
  unfold next_proceeding. destruct (leading_spec (drop (s_next s) (s_sets s))) as [H1 H2].
  rewrite <- (take_take_drop (s_sets s)), proceeding_app, H1, app_nil_r. split; [done|].
  intros set Hs. apply H2. by rewrite lookup_drop.
Qed.

Section Runs.
Context {E : Type} (now : E -> Z * E) (disconnect : E -> E).
Context (is_connected : E -> Answer bool * list Event * E) (session_state : E -> Answer SessionState * list Event * E).
Context (run_prepared : bytes -> list QueryParameter -> Z -> E -> Answer (BackendResult QueryResult) * list Event * E).
Context (log : E -> list (list QueryParameter)).
Context (Hlog : logs now disconnect is_connected session_state run_prepared log) (b : nat).
(** The plan, what it has used at the start, and what was executed before. *)
Context (sets : list PreparedCommandSet) (d : QueryResult) (limits : ResultLimits) (decoded_limit : Z).
Context (base : Totals) (log0 : list (list QueryParameter)).

Definition of_plan (s : PreparedResultSequence) : Prop :=
  s_sets s = sets /\ s_description s = d /\ s_limits s = limits /\ s_decoded_limit s = decoded_limit.

(** The invariant: the results so far conform and fit together with what was
    used at the start, and the sets executed are the first ones that proceed. *)
Record sequence_ok (s : PreparedResultSequence) (w : World E) (rs : list QueryResult) : Prop := {
  so_plan : of_plan s;
  so_fits : fits limits decoded_limit (t_add base (t_sum rs));
  so_totals : s_closed s = false -> s_totals s = t_add base (t_sum rs);
  so_conforms : Forall (conforms d) rs;
  so_log : exists k, log (env w) = log0 ++ proceeding (take k sets) /\ (s_closed s = false -> k = s_next s) }.

Lemma closed_ok s s' w w' rs k : sequence_ok s w rs -> of_plan s' -> s_closed s' = true ->
  log (env w') = log0 ++ proceeding (take k sets) -> sequence_ok s' w' rs.
Proof.
  intros [? ? ? ? ?] Hp Hc Hl. constructor; try done; [by rewrite Hc|]. exists k. by rewrite Hc.
Qed.

(** What an advance keeps, from a step and what it published. *)
Definition keeps_ok (rs : list QueryResult) (r : World E * (PreparedResultSequence * BackendResult PreparedResultStep)) : Prop :=
  sequence_ok r.2.1 r.1 (rs ++ published r.2.2).

Lemma fail_ok c s s' w w1 rs k x o : sequence_ok s w rs -> of_plan s' ->
  log (env w1) = log0 ++ proceeding (take k sets) -> keeps_ok rs (fail_step disconnect b c s' x o w1).
Proof.
  intros Hok Hp Hl. unfold keeps_ok, fail_step, mbind, W_bind.
  pose proof (quiet_retire_lease now disconnect is_connected session_state run_prepared log Hlog b w1) as Hq.
  destruct (retire_lease disconnect b w1) as [w2 u]. cbn in *. rewrite app_nil_r.
  eapply (closed_ok _ _ _ _ _ k); [done|done|done|congruence].
Qed.

Lemma execute_step_ok s s0 set w w0 rs :
  sequence_ok s0 w0 rs -> of_plan s -> s_closed s = false -> s_totals s = t_add base (t_sum rs) ->
  log (env w) = log0 ++ proceeding (take (s_next s) sets) -> sets !! s_next s = Some set -> ignored set = false ->
  keeps_ok rs (execute_step now disconnect run_prepared b s set w).
Proof.
  intros Hok Hp Hc Ht Hl Hs Hi. unfold execute_step, mbind, W_bind.
  pose proof (quiet_clock now disconnect is_connected session_state run_prepared log Hlog w) as H1.
  destruct (read_clock now w) as [w1 t1]. cbn in H1. rewrite <- H1 in Hl.
  destruct (s_deadline s <=? t1); [by eapply fail_ok|]. cbv zeta.
  destruct (execute_prepared_spec now disconnect is_connected session_state run_prepared log Hlog b
    (s_sql (with_next (S (s_next s)) s)) (values set) (s_deadline (with_next (S (s_next s)) s)) w1) as [Hx _].
  destruct (execute_prepared now disconnect run_prepared b _ _ _ w1) as [w2 res]. cbn in Hx.
  assert (proceeding (take (S (s_next s)) sets) = proceeding (take (s_next s) sets) ++ [values set]) as Hstep.
  { rewrite (take_S_r _ _ _ Hs), proceeding_app. unfold proceeding at 2. cbn. by rewrite Hi. }
  destruct res as [[r snap|e]|c|ba].
  all: try assert (log (env w2) = log0 ++ proceeding (take (S (s_next s)) sets)) as Hl2
    by (rewrite Hstep, app_assoc, <- Hl; exact Hx).
  - pose proof (quiet_clock now disconnect is_connected session_state run_prepared log Hlog w2) as H3.
    destruct (read_clock now w2) as [w3 t3]. cbn in H3. rewrite <- H3 in Hl2.
    set (n := with_next (S (s_next s)) s). assert (of_plan n) as Hn by done.
    destruct (s_deadline n <=? t3); [by eapply fail_ok|].
    destruct (bad_shape n r snap) eqn:Eb; [by eapply fail_ok|].
    destruct (account_accepts n r snap Eb) as [Hf Ha].
    destruct (valid (account_result n r)) eqn:Ev; cbn [negb]; [|by eapply fail_ok].
    destruct (bounded (account_result n r)) eqn:Ebd; cbn [negb]; [|by eapply fail_ok].
    destruct (Ha eq_refl eq_refl) as [Hconf Htot].
    pose proof (quiet_clock now disconnect is_connected session_state run_prepared log Hlog w3) as H4.
    destruct (read_clock now w3) as [w4 t4]. cbn in H4. rewrite <- H4 in Hl2.
    destruct (_ <=? t4); [by eapply fail_ok|].
    assert (totals (account_result n r) = t_add base (t_sum (rs ++ [r]))) as Hsum.
    { rewrite Htot, t_sum_snoc, t_add_assoc. unfold n. cbn. by rewrite Ht. }
    destruct Hp as (P1 & P2 & P3 & P4), Hok as [_ Of _ Oc _]. unfold n in Hf, Hconf. cbn in Hf, Hconf.
    unfold keeps_ok. cbn. constructor; cbn; [done| |done| |].
    + rewrite <- Hsum, <- P3, <- P4. apply Hf. by rewrite P3, P4, Ht.
    + apply Forall_app_2; [done|]. by rewrite <- P2; constructor.
    + by exists (S (s_next s)).
  - unfold keeps_ok. cbn. rewrite app_nil_r. by eapply (closed_ok _ _ _ _ _ (S (s_next s))).
  - unfold keeps_ok. cbn. rewrite app_nil_r. eapply (closed_ok _ _ _ _ _ (s_next s)); [done..|].
    rewrite app_nil_r in Hx. congruence.
  - by eapply fail_ok.
Qed.

Lemma advance_ok s w rs : sequence_ok s w rs ->
  keeps_ok rs (advance_result_sequence now disconnect is_connected session_state run_prepared b s w).
Proof.
  intros Hok. pose proof Hok as [Hp _ Ht _ (k & Hl & Hk)]. unfold advance_result_sequence, mbind, W_bind, ask.
  destruct (accepts_result_sequence b s w) eqn:Ea; cbn [negb].
  2: { unfold keeps_ok. cbn. rewrite app_nil_r. by eapply (closed_ok _ _ _ _ _ k). }
  unfold accepts_result_sequence in Ea. destruct (s_closed s) eqn:Ec; [done|].
  rewrite (Hk eq_refl) in Hl. specialize (Ht eq_refl).
  pose proof (log_call now disconnect is_connected session_state run_prepared log Hlog is_connected w) as H1.
  rewrite (log_connected _ _ _ _ _ _ Hlog) in H1.
  destruct (call now disconnect is_connected w) as [w1 [connected| |]]; cbn in H1; rewrite <- H1 in Hl; [|by eapply fail_ok..].
  pose proof (log_call now disconnect is_connected session_state run_prepared log Hlog session_state w1) as H2.
  rewrite (log_state _ _ _ _ _ _ Hlog) in H2.
  destruct (call now disconnect session_state w1) as [w2 [st| |]]; cbn in H2; rewrite <- H2 in Hl; [|by eapply fail_ok..].
  destruct (unusable _); [by eapply fail_ok|]. cbv zeta.
  destruct (next_spec s) as [Hn Hi]. destruct Hp as (P1 & P2 & P3 & P4). rewrite P1 in Hn, Hi. rewrite <- Hn in Hl.
  destruct (s_sets (with_next (next_proceeding s) s) !! next_proceeding s) as [set|] eqn:Es; cbn in Es; rewrite P1 in Es.
  - by eapply execute_step_ok; eauto.
  - unfold keeps_ok. cbn. rewrite app_nil_r. by eapply (closed_ok _ _ _ _ _ (next_proceeding s)).
Qed.

Lemma advances_ok n : forall s w rs, sequence_ok s w rs ->
  let r := advances now disconnect is_connected session_state run_prepared b n s w in
  sequence_ok r.2.1 r.1 (rs ++ flat_map published r.2.2).
Proof.
  induction n as [|n IH]; intros s w rs Hok; cbn [advances].
  - cbn. by rewrite app_nil_r.
  - unfold mbind, W_bind. pose proof (advance_ok s w rs Hok) as H1.
    destruct (advance_result_sequence now disconnect is_connected session_state run_prepared b s w) as [w1 [s1 step]].
    unfold keeps_ok in H1. cbn in H1. specialize (IH s1 w1 _ H1).
    destruct (advances now disconnect is_connected session_state run_prepared b n s1 w1) as [w2 [s2 steps]].
    cbn in *. by rewrite app_assoc.
Qed.
End Runs.

Definition is_size (n : Z) : Prop := 0 <= n < 2 ^ 64.
Record sizes (l : ResultLimits) : Prop := {
  sz_rows : is_size (max_rows l); sz_cells : is_size (max_cells l); sz_metadata : is_size (max_metadata_entries l);
  sz_names : is_size (max_metadata_name_bytes l) }.

Lemma size_sub_small a c : is_size a -> 0 <= c <= a -> size_sub a c = a - c.
Proof. unfold is_size, size_sub. intros. apply Z.mod_small. lia. Qed.

Lemma check_columns_fits l cs : forall names total, is_size (max_metadata_name_bytes l) ->
  0 <= names <= max_metadata_name_bytes l -> check_columns l cs names = inl total ->
  names <= total <= max_metadata_name_bytes l.
Proof.
  induction cs as [|c cs IH]; intros names total Hs Hn; cbn [check_columns]; [intros [= <-]; lia|].
  destruct (bad_column c); [done|]. destruct (_ || _) eqn:Eo; [done|]. apply orb_false_iff in Eo as [_ Eo].
  rewrite size_sub_small in Eo by done. zb. pose proof (size_nonneg (column_name c)). intros Ht%IH; [lia|done|lia].
Qed.

Section Start.
Context {E : Type} (now : E -> Z * E) (disconnect : E -> E).
Context (is_connected : E -> Answer bool * list Event * E) (session_state : E -> Answer SessionState * list Event * E).
Context (run_prepared : bytes -> list QueryParameter -> Z -> E -> Answer (BackendResult QueryResult) * list Event * E).
Context (log : E -> list (list QueryParameter)).
Context (Hlog : logs now disconnect is_connected session_state run_prepared log) (b : nat).

Lemma start_ok plan decoded_limit w w1 plan' s snapshot :
  sizes (limits_ plan) -> 0 <= decoded_limit ->
  start_result_sequence now disconnect is_connected session_state b plan decoded_limit w =
    (w1, (plan', Some (Good s snapshot))) ->
  consumed_ plan' = true /\ 0 <= t_metadata (s_totals s) /\ 0 <= t_names (s_totals s) /\
  t_rows (s_totals s) = 0 /\ t_cells (s_totals s) = 0 /\ t_decoded (s_totals s) = 0 /\
  sequence_ok log (sets_ plan) (description_ plan) (limits_ plan) decoded_limit (s_totals s) (log (env w)) s w1 [].
Proof.
  intros [Hr Hc Hm Hn] Hd. unfold start_result_sequence, mbind, W_bind, ask.
  destruct (_ || _); [by intros [= <- <- <-]|]. cbv zeta.
  destruct (metadata_exceeds _ _) eqn:Em; [by destruct (retire_lease disconnect b w)|].
  destruct (check_columns _ _ 0) as [names|c] eqn:Ec; [|by destruct (retire_lease disconnect b w)].
  pose proof (log_call now disconnect is_connected session_state run_prepared log Hlog is_connected w) as H1.
  rewrite (log_connected _ _ _ _ _ _ Hlog) in H1.
  destruct (call now disconnect is_connected w) as [w2 [connected| |]]; cbn in H1; [|by destruct (retire_lease disconnect b w2)..].
  pose proof (log_call now disconnect is_connected session_state run_prepared log Hlog session_state w2) as H2.
  rewrite (log_state _ _ _ _ _ _ Hlog), H1 in H2.
  destruct (call now disconnect session_state w2) as [w3 [st| |]]; cbn in H2; [|by destruct (retire_lease disconnect b w3)..].
  intros [= <- <- <- <-]. cbn [s_totals t_rows t_cells t_decoded t_metadata t_names].
  apply check_columns_fits in Ec; [|done|unfold is_size in Hn; lia].
  unfold metadata_exceeds in Em. rewrite !orb_false_iff in Em. destruct Em as ((_ & Em1) & Em2).
  pose proof (size_nonneg (q_columns (description_ plan))). pose proof (size_nonneg (normalized_parameter_types (description_ plan))).
  zb. rewrite size_sub_small in Em2 by (done || lia). unfold is_size in *.
  split_and!; try done; try lia. constructor; try done.
  - cbn [t_sum foldr]. rewrite t_add_zero. constructor; cbn; lia.
  - intros _. cbn [t_sum foldr]. by rewrite t_add_zero.
  - exists 0%nat. split; [|done]. by rewrite H2, app_nil_r.
Qed.

(** However often a result sequence is advanced, the results it publishes
    all have the schema that was described for the statement, row by row and
    cell error by cell error; their rows, cells, names, metadata and decoded
    bytes together stay within the limits the plan was made with; and the
    parameter sets executed are the first ones of the plan that are not
    ignored, each once and in order, whatever the session answers. *)
Theorem sequence_within_limits plan decoded_limit w w1 plan' s snapshot n :
  sizes (limits_ plan) -> 0 <= decoded_limit ->
  start_result_sequence now disconnect is_connected session_state b plan decoded_limit w =
    (w1, (plan', Some (Good s snapshot))) ->
  let r := advances now disconnect is_connected session_state run_prepared b n s w1 in
  let rs := flat_map published r.2.2 in
  Forall (conforms (description_ plan)) rs /\ fits (limits_ plan) decoded_limit (t_sum rs) /\
  (exists k, log (env r.1) = log (env w) ++ proceeding (take k (sets_ plan))) /\ consumed_ plan' = true.
Proof.
  intros Hs Hd Hstart. destruct (start_ok _ _ _ _ _ _ _ Hs Hd Hstart) as (Hc & ? & ? & R & C & D & Hok).
  destruct (advances_ok now disconnect is_connected session_state run_prepared log Hlog b _ _ _ _ _ _ n s w1 [] Hok)
    as [_ [F1 F2 F3 F4 F5] _ Hconf (k & Hl & _)].
  cbn [app] in *. cbv zeta. split_and!; [done| |by exists k|done].
  unfold t_add in *. cbn in *. constructor; lia.
Qed.
End Start.

(** ** A session that answers one row at a time *)

Definition z_type : NativeTypeInfo :=
  {| scalar := SInteger; column_size := 10; decimal_digits := 0; known := true; declared_type := None;
     declared_column_size := None; type_name := None |}.
Definition z_result (described : option DescribedResultShape) (executed : option ExecutionResultShape)
    (rs : list (list (option bytes))) : QueryResult :=
  {| q_rows := rs; q_columns := [{| column_name := str "n"; normalized_type := Some z_type |}]; q_error := None;
     q_affected_rows := 0; additional_results := []; q_statement_kind := None; normalized_parameter_types := [];
     cell_errors := []; described_result_shape := described; q_execution_shape := executed;
     result_id := 0 |}.
Definition z_run (sql : bytes) (vs : list QueryParameter) (deadline : Z) (e : y_env)
    : Answer (BackendResult QueryResult) * list Event * y_env :=
  (Returned (Good (z_result None (Some ResultSet) [[match vs with v :: _ => PgIeee.value v | [] => None end]]) idle_reusable), [], (e.1, e.2 ++ [vs])).
Definition z_plan : PreparedCommandPlan :=
  new_plan (str "SELECT") y_sets (z_result (Some DescribesResultSet) None []) 0 1000
    {| max_rows := 2; max_cells := 100; max_columns_per_description := 10; max_results := 10;
       max_metadata_entries := 10; max_column_name_bytes := 10; max_metadata_name_bytes := 100;
       max_diagnostic_bytes := 100 |}.
Definition z_started : World y_env * (PreparedCommandPlan * option (BackendResult PreparedResultSequence)) :=
  start_result_sequence y_now y_disconnect y_connected y_state 0 z_plan 50 y_world.
Definition z_sequence : PreparedResultSequence :=
  {| s_sql := str "SELECT"; s_sets := y_sets; s_description := z_result (Some DescribesResultSet) None []; s_borrow := 0;
     s_deadline := 1000; s_limits := limits_ z_plan; s_decoded_limit := 50; s_next := 0;
     s_totals := {| t_rows := 0; t_cells := 0; t_metadata := 1; t_names := 1; t_decoded := 0 |}; s_closed := false |}.
Definition z_advanced : World y_env * (PreparedResultSequence * list (BackendResult PreparedResultStep)) :=
  advances y_now y_disconnect y_connected y_state z_run 0 4 z_sequence z_started.1.

Lemma z_logs : logs y_now y_disconnect y_connected y_state z_run snd.
Proof. by constructor. Qed.

(** The third row is refused: the limit is two. *)
Lemma sequence_within_limits_witness :
  Forall (conforms (description_ z_plan)) (flat_map published z_advanced.2.2) /\
  t_rows (t_sum (flat_map published z_advanced.2.2)) = 2.
Proof.
  split; [|vm_compute; reflexivity].
  apply (sequence_within_limits y_now y_disconnect y_connected y_state z_run snd z_logs 0 z_plan 50 y_world z_started.1
    (consume_plan z_plan) z_sequence idle_reusable 4).
  - constructor; vm_compute; split; discriminate || reflexivity.
  - vm_compute. discriminate.
  - vm_compute. reflexivity.
Defined.
