(* ===== verification/SessionFacade.v ===== *)
(** * The other operations of a borrowed session

    [sdk/src/session/session_owner.cpp]: the operations of [SessionLease] that
    ask an optional facet of the physical session (health, catalogs,
    transactions, descriptions, column origins) or only look at its state
    ([inspect], [catalog_query], [selects_catalog_request]).  Every one of them
    runs through [invoke_borrowed]. *)

From S2P Require Import Prelude Utf8 PgIeee PgResult Backend Credential SessionOwner PreparedBatch.

#[local] Existing Instance W_ret.
#[local] Existing Instance W_bind.

(** The capabilities [inspect] reports; the ones of transactions are a number. *)
Record SessionObservation := {
  connected : bool; observed_state : SessionState; server_version : bytes; transactions : option nat;
  has_statement_description_facet : bool; has_prepared_result_sequence : bool;
  has_single_statement_result_shape : bool; has_catalog_query_facet : bool; has_catalog_execution_facet : bool;
  has_health_facet : bool; has_reset_facet : bool }.

Definition inconsistent_observation : BackendError := plain_error ProtocolError.

Section Facade.
Context {E : Type} (now : E -> Z * E) (disconnect : E -> E).
#[local] Abbreviation Call A := (E -> Answer A * list Event * E).
Context (is_connected : Call bool) (session_state : Call SessionState) (version : Call bytes).
Context (transaction_session statement_description supports_shape supports_sequence catalog_queries : Call bool).
Context (catalog_execution session_health session_reset : Call bool) (transaction_capabilities : Call nat).
#[local] Abbreviation W := (SessionOwner.W (E := E)).
#[local] Abbreviation calls := (call now disconnect).
#[local] Notation "x ⇐ m ; k" := (try_bind m (fun x => k))
  (at level 20, m at level 100, k at level 200, right associativity).
Context (b : nat).

(** An operation of an optional facet. *)
Definition facet_request {T} (facet : Call bool) (operation : Call (BackendResult T)) : W (Answer (BackendResult T)) :=
  present ⇐ calls facet;
  if present : bool then calls operation else reject now disconnect session_state Unsupported.

(** The operations that may change the session: the cache scope ends first. *)
Definition facet_operation {T} (facet : Call bool) (operation : Call (BackendResult T)) : W (Result (BackendResult T)) :=
  invalidate_cache now b ≫= fun _ => invoke_borrowed disconnect b session_snapshot (facet_request facet operation).

(** The operations that only resolve metadata. *)
Definition passive_facet_operation {T} (facet : Call bool) (operation : Call (BackendResult T))
    : W (Result (BackendResult T)) :=
  invoke_borrowed disconnect b session_snapshot (facet_request facet operation).

Definition check_health (run : Call (BackendResult unit)) : W (Result (BackendResult unit)) :=
  facet_operation session_health run.
Definition execute_catalog (run : Call (BackendResult QueryResult)) : W (Result (BackendResult QueryResult)) :=
  facet_operation catalog_execution run.
Definition transaction (run : Call (BackendResult unit)) : W (Result (BackendResult unit)) :=
  facet_operation transaction_session run.
Definition set_transaction_isolation (run : Call (BackendResult unit)) : W (Result (BackendResult unit)) :=
  facet_operation transaction_session run.
Definition describe_statement (run : Call (BackendResult QueryResult)) : W (Result (BackendResult QueryResult)) :=
  facet_operation statement_description run.
(** An origin is the list of its five names. *)
Definition resolve_column_origins (resolver : Call bool) (run : Call (BackendResult (list (list bytes))))
    : W (Result (BackendResult (list (list bytes)))) :=
  passive_facet_operation resolver run.

(** [connected == (state == Disconnected)] is inconsistent; [k] goes on. *)
Definition observed {T} (k : bool -> SessionState -> W (Answer (BackendResult T))) : W (Answer (BackendResult T)) :=
  connected ⇐ calls is_connected;
  st ⇐ calls session_state;
  if Bool.eqb connected (bool_decide (st = Disconnected)) then mret (Returned (Bad inconsistent_observation))
  else k connected st.

Definition inspect_request : W (Answer (BackendResult SessionObservation)) :=
  observed (fun connected st =>
    v ⇐ calls version;
    facet ⇐ calls transaction_session;
    caps ⇐ (if facet : bool then c ⇐ calls transaction_capabilities; mret (Returned (Some c))
            else mret (Returned None));
    description ⇐ calls statement_description;
    facet ⇐ calls statement_description;
    sequence ⇐ (if facet : bool then _ ⇐ calls statement_description; calls supports_sequence
                else mret (Returned false));
    facet ⇐ calls statement_description;
    shape ⇐ (if facet : bool then _ ⇐ calls statement_description; calls supports_shape else mret (Returned false));
    queries ⇐ calls catalog_queries;
    execution ⇐ calls catalog_execution;
    health ⇐ calls session_health;
    reset ⇐ calls session_reset;
    mret (Returned (Good
      {| connected := connected; observed_state := st; server_version := v; transactions := caps;
         has_statement_description_facet := description; has_prepared_result_sequence := sequence;
         has_single_statement_result_shape := shape; has_catalog_query_facet := queries;
         has_catalog_execution_facet := execution; has_health_facet := health; has_reset_facet := reset |}
      (passive_outcome connected st)))).

Definition inspect : W (Result (BackendResult SessionObservation)) :=
  invoke_borrowed disconnect b session_snapshot inspect_request.

(** [query] is the facet's [catalog_query(request)]: the text or the code. *)
Definition catalog_query_request (query : Call (bytes + DbErrorCode)) : W (Answer (BackendResult bytes)) :=
  observed (fun connected st =>
    let outcome := passive_outcome connected st in
    if negb connected then
      mret (Returned (Bad {| error_code := NotConnected; error_state := st; error_disposition := Retire |}))
    else
      facet ⇐ calls catalog_queries;
      if negb facet then mret (Returned (Bad (local_backend_error Unsupported st)))
      else
        q ⇐ calls query;
        match q with
        | inl sql => mret (Returned (Good sql outcome))
        | inr c =>
            mret (Returned (Bad {| error_code := c; error_state := st;
              error_disposition := match c with ProtocolError => Retire | _ => disposition outcome end |}))
        end).

Definition catalog_query (query : Call (bytes + DbErrorCode)) : W (Result (BackendResult bytes)) :=
  invoke_borrowed disconnect b session_snapshot (catalog_query_request query).

Definition selects_catalog_request (selects : Call bool) : W (Result (BackendResult bool)) :=
  invoke_borrowed disconnect b session_snapshot
    (observed (fun connected st =>
       facet ⇐ calls catalog_execution;
       selected ⇐ (if facet : bool then calls selects else mret (Returned false));
       mret (Returned (Good selected (passive_outcome connected st))))).

(** ** What the borrower is left with *)

Section Decisive.
Context (p : nat) (w0 : World E).

#[local] Abbreviation Lent := (SessionOwner.Lent p b w0).
#[local] Abbreviation Gone := (SessionOwner.Gone p w0).

(** The session is gone exactly when the result or an exception says so. *)
Definition decided {T} (r : Result (BackendResult T)) (w : World E) : Prop :=
  match r with
  | Success x => if bool_decide (disposition (session_snapshot x) = Retire) then Gone w else Lent w
  | Failure _ => False
  | Rethrown _ => Gone w
  end.

Lemma lent_retire : triple Lent (retire_lease disconnect b) (fun _ => Gone).
Proof.
  intros w Hw. destruct (lent_fail disconnect p b w0 (A := unit) NotConnected w Hw) as [Hg _].
  unfold fail, mbind, W_bind in Hg. by destruct (retire_lease disconnect b w).
Qed.

Lemma invoke_decided {T} (m : W (Answer (BackendResult T))) :
  triple Lent m (fun _ => Lent) -> triple Lent (invoke_borrowed disconnect b session_snapshot m) decided.
Proof.
  intros Hm. unfold invoke_borrowed. eapply triple_bind; [apply lent_physical|cbn beta]. intros ph.
  apply triple_pure. intros ->. eapply triple_bind; [exact Hm|cbn beta]. intros [x| |].
  - unfold decided. case_bool_decide as Hd.
    + eapply triple_bind; [apply lent_retire|cbn beta]. intros _. apply triple_ret. intros w Hw. by rewrite bool_decide_true.
    + apply triple_ret. intros w Hw. by rewrite bool_decide_false.
  - eapply triple_bind; [apply lent_retire|cbn beta]. intros _. by apply triple_ret.
  - eapply triple_bind; [apply lent_retire|cbn beta]. intros _. by apply triple_ret.
Qed.

Create HintDb lent.
Lemma lent_ret {A} (a : A) : triple Lent (mret a) (fun _ => Lent).
Proof. by apply triple_ret. Qed.
Lemma lent_calls {A} (f : Call A) : triple Lent (calls f) (fun _ => Lent).
Proof. apply lent_call. Qed.
Lemma lent_try {A B} (m : W (Answer A)) (k : A -> W (Answer B)) :
  triple Lent m (fun _ => Lent) -> (forall a, triple Lent (k a) (fun _ => Lent)) ->
  triple Lent (try_bind m k) (fun _ => Lent).
Proof. intros Hm Hk. eapply triple_bind; [exact Hm|cbn beta]. intros []; [apply Hk|apply lent_ret..]. Qed.
#[local] Hint Resolve lent_ret lent_calls : lent.

Ltac lent :=
  repeat first
    [ progress auto with lent nocore
    | apply lent_try; [|intros ?]
    | match goal with
      | |- triple _ (if ?c then _ else _) _ => destruct c
      | |- triple _ (match ?c with _ => _ end) _ => destruct c
      end ].

(** The operations of the file, with the calls they pass to the session. *)
Inductive FacadeOp : Type -> Type :=
| Inspect : FacadeOp SessionObservation
| CatalogQuery (query : Call (bytes + DbErrorCode)) : FacadeOp bytes
| SelectsCatalog (selects : Call bool) : FacadeOp bool
| CheckHealth (run : Call (BackendResult unit)) : FacadeOp unit
| ExecuteCatalog (run : Call (BackendResult QueryResult)) : FacadeOp QueryResult
| Transaction (run : Call (BackendResult unit)) : FacadeOp unit
| SetTransactionIsolation (run : Call (BackendResult unit)) : FacadeOp unit
| DescribeStatement (run : Call (BackendResult QueryResult)) : FacadeOp QueryResult
| ResolveColumnOrigins (resolver : Call bool) (run : Call (BackendResult (list (list bytes)))) : FacadeOp (list (list bytes)).

Definition facade {T} (op : FacadeOp T) : W (Result (BackendResult T)) :=
  match op with
  | Inspect => inspect
  | CatalogQuery query => catalog_query query
  | SelectsCatalog selects => selects_catalog_request selects
  | CheckHealth run => check_health run
  | ExecuteCatalog run => execute_catalog run
  | Transaction run => transaction run
  | SetTransactionIsolation run => set_transaction_isolation run
  | DescribeStatement run => describe_statement run
  | ResolveColumnOrigins resolver run => resolve_column_origins resolver run
  end.

Lemma facet_decided {T} (facet : Call bool) (run : Call (BackendResult T)) : triple Lent (facet_request facet run) (fun _ => Lent).
Proof. unfold facet_request, reject. lent. Qed.
Lemma observed_lent {T} (k : bool -> SessionState -> W (Answer (BackendResult T))) :
  (forall c st, triple Lent (k c st) (fun _ => Lent)) -> triple Lent (observed k) (fun _ => Lent).
Proof. intros Hk. unfold observed. lent. Qed.

Lemma facade_decided {T} (op : FacadeOp T) : triple Lent (facade op) decided.
Proof.
  destruct op; cbn [facade]; unfold check_health, execute_catalog, transaction, set_transaction_isolation,
    describe_statement, facet_operation.
  4-8: eapply triple_bind; [apply lent_invalidate|cbn beta; intros _].
  all: apply invoke_decided; try apply facet_decided; apply observed_lent; intros c st; cbv zeta; lent.
Qed.
End Decisive.

(** C32. An operation of the borrower decides the session: whatever the
    physical session answers, and whatever its owner and credentials do
    meanwhile, the lease keeps the session when the result it hands back does
    not retire it, and otherwise, or when an exception leaves the operation,
    the session is disconnected once, no lease is left and the owner no longer
    accepts. *)
Theorem facade_decides {T} (p : nat) (op : FacadeOp T) (w : World E) :
  own_ok p w -> attached b w = true -> decided p w (facade op w).2 (facade op w).1.
Proof. intros Hok Hb. apply facade_decided. split; [done|]. split; [constructor; auto|done]. Qed.
End Facade.

(** A health check that loses the session. *)
Definition v_lost (e : Z * bool) : Answer (BackendResult unit) * list Event * (Z * bool) :=
  (Returned (Bad (plain_error Timeout)), [CredentialRevoked 0], e).
Definition v_version (e : Z * bool) : Answer bytes * list Event * (Z * bool) := (Returned (str "16"), [], e).
Definition v_capabilities (e : Z * bool) : Answer nat * list Event * (Z * bool) := (Returned 3%nat, [], e).
Definition v_facade {T} : FacadeOp T -> SessionOwner.W (E := Z * bool) (Result (BackendResult T)) :=
  facade x_now x_disconnect x_connected x_state v_version x_yes x_yes x_yes x_yes x_yes x_yes x_yes x_yes v_capabilities 0.

Lemma facade_decides_witness :
  Gone 4 x_lent (v_facade (CheckHealth v_lost) x_lent).1 /\
  disconnected (v_facade (CheckHealth v_lost) x_lent).1 = [4%nat].
Proof.
  split; [|vm_compute; reflexivity].
  apply (facade_decides x_now x_disconnect x_connected x_state v_version x_yes x_yes x_yes x_yes x_yes x_yes x_yes x_yes
    v_capabilities 0 4 (CheckHealth v_lost) x_lent x_lent_ok).
  vm_compute. reflexivity.
Defined.
