(* ===== verification/Diagnostics.v ===== *)
(** * Diagnostic records of a handle

    [DiagnosticRecord], [DiagnosticHeader] and the diagnostic part of
    [ODBCHandle] ([odbc/odbc_handles.h]), and the readers of the records,
    [SQLGetDiagRec] and the ODBC 2 cursor [SQLError] ([odbc/odbc_api.cpp]).
    Record numbers and text lengths are [SQLSMALLINT], sixteen bits wide; the
    store itself is a [std::vector] and may grow past them. *)

From S2P Require Import Prelude Utf8.

(** The return codes of the entry points. *)
Inductive RETCODE := RET_SUCCESS | RET_SUCCESS_WITH_INFO | RET_NO_DATA | RET_ERROR | RET_INVALID_HANDLE
  | RET_NEED_DATA.

#[export] Instance RETCODE_eq_dec : EqDecision RETCODE.
Proof. solve_decision. Defined.

Definition smallint_max : Z := 32767.

(** [static_cast<SQLSMALLINT>] of a [std::size_t]. *)
Definition to_smallint (n : Z) : Z := (n + 32768) mod 65536 - 32768.

Lemma to_smallint_small n : 0 <= n <= smallint_max -> to_smallint n = n.
Proof. unfold to_smallint, smallint_max. intros. dlia. Qed.

Definition SQL_NO_ROW_NUMBER : Z := -1.
Definition SQL_NO_COLUMN_NUMBER : Z := -1.
Definition SQL_DIAG_UNKNOWN_STATEMENT : Z := 0.

Definition starts_with (s p : bytes) : bool := beq (take (length p) s) p.

(** ** One record *)

Definition odbc_subclasses : list bytes :=
  map str ["01S00"; "01S01"; "01S02"; "01S06"; "01S07"; "07S01"; "08S01"; "21S01"; "21S02";
           "25S01"; "25S02"; "25S03"; "42S01"; "42S02"; "42S11"; "42S12"; "42S21"; "42S22";
           "HY095"; "HY097"; "HY098"; "HY099"; "HY100"; "HY101"; "HY105"; "HY107"; "HY109";
           "HY110"; "HY111"; "HYT00"; "HYT01"]%string.

Definition has_odbc_origin (state : bytes) : bool :=
  starts_with state (str "IM") || existsb (beq state) odbc_subclasses.

Record DiagnosticRecord := {
  sqlstate : bytes;
  native_error : Z;
  message_text : bytes;
  class_origin : bytes;
  subclass_origin : bytes;
  row_number : Z;
  column_number : Z
}.

(** The constructor; [connection_name] and [server_name] are empty. *)
Definition diagnostic_record (state : bytes) (native : Z) (message : bytes) : DiagnosticRecord :=
  {| sqlstate := state; native_error := native; message_text := message;
     class_origin := if starts_with state (str "IM") then str "ODBC 3.0" else str "ISO 9075";
     subclass_origin := if has_odbc_origin state then str "ODBC 3.0" else str "ISO 9075";
     row_number := SQL_NO_ROW_NUMBER; column_number := SQL_NO_COLUMN_NUMBER |}.

Definition valid_diagnostic_text (message : bytes) : bytes := replace_invalid_utf8 message.

Record DiagnosticHeader := {
  cursor_row_count : Z;
  header_row_count : Z;
  dynamic_function : bytes;
  dynamic_function_code : Z
}.

Definition empty_header : DiagnosticHeader :=
  {| cursor_row_count := 0; header_row_count := 0; dynamic_function := [];
     dynamic_function_code := SQL_DIAG_UNKNOWN_STATEMENT |}.

(** ** The store of a handle *)

Record Diagnostics := {
  diagnostic_records : list DiagnosticRecord;
  diagnostic_header : DiagnosticHeader;
  last_return_code : RETCODE;
  legacy_diagnostic_record : Z
}.

Definition new_diagnostics : Diagnostics :=
  {| diagnostic_records := []; diagnostic_header := empty_header;
     last_return_code := RET_SUCCESS; legacy_diagnostic_record := 1 |}.

Definition clear_diagnostics (d : Diagnostics) : Diagnostics :=
  {| diagnostic_records := []; diagnostic_header := empty_header;
     last_return_code := last_return_code d; legacy_diagnostic_record := 1 |}.

Definition with_records (d : Diagnostics) (records : list DiagnosticRecord) : Diagnostics :=
  {| diagnostic_records := records; diagnostic_header := diagnostic_header d;
     last_return_code := last_return_code d;
     legacy_diagnostic_record := legacy_diagnostic_record d |}.

Definition add_diagnostic (state : bytes) (native : Z) (message : bytes) (d : Diagnostics)
  : Diagnostics :=
  with_records d (diagnostic_records d ++ [diagnostic_record state native (valid_diagnostic_text message)]).

Definition add_attributed_diagnostic (state message : bytes) (row column native : Z) (d : Diagnostics)
  : Diagnostics :=
  if smallint_max <=? size (diagnostic_records d) then d
  else
    let r := diagnostic_record state native (valid_diagnostic_text message) in
    with_records d (diagnostic_records d ++
      [{| sqlstate := sqlstate r; native_error := native_error r; message_text := message_text r;
          class_origin := class_origin r; subclass_origin := subclass_origin r;
          row_number := row; column_number := column |}]).

Definition set_error (state message : bytes) (native : Z) (d : Diagnostics) : Diagnostics :=
  {| diagnostic_records := [diagnostic_record state native (valid_diagnostic_text message)];
     diagnostic_header := diagnostic_header d; last_return_code := last_return_code d;
     legacy_diagnostic_record := 1 |}.

Definition get_sqlstate (d : Diagnostics) : bytes :=
  match diagnostic_records d with [] => str "00000" | r :: _ => sqlstate r end.

Definition get_diagnostic_record (d : Diagnostics) (record_number : Z) : option DiagnosticRecord :=
  if (record_number <? 1) || (to_smallint (size (diagnostic_records d)) <? record_number) then None
  else diagnostic_records d !! Z.to_nat (record_number - 1).

Definition legacy_diagnostic_record_number (d : Diagnostics) : option Z :=
  if smallint_max <? legacy_diagnostic_record d then None
  else Some (to_smallint (legacy_diagnostic_record d)).

Definition advance_legacy_diagnostic_record (d : Diagnostics) : Diagnostics :=
  {| diagnostic_records := diagnostic_records d; diagnostic_header := diagnostic_header d;
     last_return_code := last_return_code d;
     legacy_diagnostic_record := legacy_diagnostic_record d + 1 |}.

Definition set_last_return_code (code : RETCODE) (d : Diagnostics) : Diagnostics :=
  {| diagnostic_records := diagnostic_records d; diagnostic_header := diagnostic_header d;
     last_return_code := code; legacy_diagnostic_record := legacy_diagnostic_record d |}.

Definition set_statement_diagnostic_header (h : DiagnosticHeader) (d : Diagnostics) : Diagnostics :=
  {| diagnostic_records := diagnostic_records d; diagnostic_header := h;
     last_return_code := last_return_code d;
     legacy_diagnostic_record := legacy_diagnostic_record d |}.

(** [copy_diagnostics_from(source)]; [same] is the test [this == &source]. *)
Definition copy_diagnostics_from (same : bool) (source d : Diagnostics) : Diagnostics :=
  if same then d else source.

(** ** Reading the records

    What [SQLGetDiagRec] stores through each pointer the application gave:
    [None] when nothing is stored there. *)

Record DiagOutput := {
  state_out : option bytes;
  native_out : option Z;
  text_out : option bytes;
  length_out : option Z
}.

Definition no_output : DiagOutput :=
  {| state_out := None; native_out := None; text_out := None; length_out := None |}.

(** The pointers of a call: which of them are not null. *)
Record DiagPointers := {
  to_state : bool;
  to_native : bool;
  to_text : bool;
  to_length : bool
}.

Definition SQLGetDiagRec (d : Diagnostics) (rec_number : Z) (p : DiagPointers) (buffer_length : Z)
  : RETCODE * DiagOutput :=
  if (rec_number <? 1) || (buffer_length <? 0) then (RET_ERROR, no_output)
  else
    match get_diagnostic_record d rec_number with
    | None => (RET_NO_DATA, no_output)
    | Some r =>
        let state := if to_state p then Some (take 5 (sqlstate r) ++ [0]) else None in
        let native := if to_native p then Some (native_error r) else None in
        let required := Z.min (size (message_text r)) smallint_max in
        let len := if to_length p then Some required else None in
        let out text := {| state_out := state; native_out := native; text_out := text; length_out := len |} in
        if to_text p && (buffer_length =? 0) then (RET_SUCCESS_WITH_INFO, out None)
        else if to_text p then
          let copy_len := Z.min (buffer_length - 1) (size (message_text r)) in
          (if copy_len <? size (message_text r) then RET_SUCCESS_WITH_INFO else RET_SUCCESS,
           out (Some (take (Z.to_nat copy_len) (message_text r) ++ [0])))
        else (RET_SUCCESS, out None)
    end.

(** The ODBC 2 reader keeps its place in the handle. *)
Definition SQLError (d : Diagnostics) (p : DiagPointers) (buffer_length : Z)
  : RETCODE * DiagOutput * Diagnostics :=
  match legacy_diagnostic_record_number d with
  | None => (RET_NO_DATA, no_output, d)
  | Some n =>
      let '(code, out) := SQLGetDiagRec d n p buffer_length in
      (code, out, if bool_decide (code = RET_SUCCESS) || bool_decide (code = RET_SUCCESS_WITH_INFO)
                  then advance_legacy_diagnostic_record d else d)
  end.

(** [n] calls in a row. *)
Fixpoint sql_errors (n : nat) (d : Diagnostics) (p : DiagPointers) (buffer_length : Z)
  : list (RETCODE * DiagOutput) * Diagnostics :=
  match n with
  | O => ([], d)
  | S n =>
      let '(r, o, d1) := SQLError d p buffer_length in
      let '(rest, d2) := sql_errors n d1 p buffer_length in
      ((r, o) :: rest, d2)
  end.

(** ** Properties *)

(** The texts are valid UTF-8 and the legacy cursor is a record number. *)
Definition diagnostics_ok (d : Diagnostics) : Prop :=
  Forall (fun r => valid_utf8 (message_text r)) (diagnostic_records d) /\
  1 <= legacy_diagnostic_record d.

Lemma new_diagnostics_ok : diagnostics_ok new_diagnostics.
Proof. split; [constructor|done]. Qed.

Lemma clear_diagnostics_ok d : diagnostics_ok (clear_diagnostics d).
Proof. split; [constructor|done]. Qed.

Lemma set_error_ok state message native d :
  bytes_ok message -> diagnostics_ok (set_error state message native d).
Proof. intros Hm. split; [|done]. repeat constructor. cbn. by apply replace_invalid_utf8_correct. Qed.

Lemma append_record_ok d r :
  diagnostics_ok d -> valid_utf8 (message_text r) ->
  diagnostics_ok (with_records d (diagnostic_records d ++ [r])).
Proof. intros [Ht Hl] Hr. split; [|done]. cbn. apply Forall_app. by repeat constructor. Qed.

Lemma add_diagnostic_ok state native message d :
  bytes_ok message -> diagnostics_ok d -> diagnostics_ok (add_diagnostic state native message d).
Proof. intros Hm Hd. apply append_record_ok; [done|]. by apply replace_invalid_utf8_correct. Qed.

Lemma add_attributed_diagnostic_ok state message row column native d :
  bytes_ok message -> diagnostics_ok d ->
  diagnostics_ok (add_attributed_diagnostic state message row column native d).
Proof.
  intros Hm Hd. unfold add_attributed_diagnostic. destruct (_ <=? _); [done|].
  apply append_record_ok; [done|]. by apply replace_invalid_utf8_correct.
Qed.

Create HintDb diag.
#[export] Hint Resolve new_diagnostics_ok clear_diagnostics_ok set_error_ok add_diagnostic_ok
  add_attributed_diagnostic_ok : diag.

(** Within the sixteen bits of a record number every record is read back. *)
Lemma get_diagnostic_record_exact d n :
  size (diagnostic_records d) <= smallint_max ->
  get_diagnostic_record d n =
    if (1 <=? n) && (n <=? size (diagnostic_records d)) then diagnostic_records d !! Z.to_nat (n - 1) else None.
Proof.
  intros Hs. unfold get_diagnostic_record. rewrite to_smallint_small by (split; [apply size_nonneg|done]).
  destruct (Z.ltb_spec n 1), (Z.leb_spec 1 n), (Z.ltb_spec (size (diagnostic_records d)) n),
    (Z.leb_spec n (size (diagnostic_records d))); cbn; try lia; done.
Qed.

(** A read of a record that exists succeeds, with information exactly when
    the text and its terminator do not fit, and stores a prefix of it. *)
Lemma SQLGetDiagRec_reads d n p b r :
  size (diagnostic_records d) <= smallint_max -> 1 <= n -> 0 <= b ->
  diagnostic_records d !! Z.to_nat (n - 1) = Some r ->
  exists out,
    SQLGetDiagRec d n p b =
      (if to_text p && (b <=? size (message_text r)) then RET_SUCCESS_WITH_INFO else RET_SUCCESS, out) /\
    (forall t, text_out out = Some t -> size t <= b /\ exists k, t = take k (message_text r) ++ [0]) /\
    (forall l, length_out out = Some l -> l = Z.min (size (message_text r)) smallint_max).
Proof.
  intros Hs Hn Hb Hr. unfold SQLGetDiagRec. rewrite get_diagnostic_record_exact by done.
  assert (n <= size (diagnostic_records d)).
  { apply lookup_lt_Some in Hr. unfold size. lia. }
  repeat ztest. rewrite Hr. destruct p as [ps pn pt pl]; cbn [to_text to_state to_native to_length].
  pose proof (size_nonneg (message_text r)). destruct pt; cbn [andb].
  - destruct (Z.eqb_spec b 0).
    + eexists. split; [repeat ztest; done|]. split; cbn; [done|]. destruct pl; intros ? [= <-]; done.
    + eexists. split; [|split; cbn].
      * f_equal. destruct (Z.leb_spec b (size (message_text r))); repeat ztest; done.
      * intros t [= <-]. split; [|by eexists]. rewrite size_app. unfold size at 1.
        rewrite length_take. change (size [0]) with 1. unfold size in *. lia.
      * destruct pl; intros ? [= <-]; done.
  - eexists. split; [done|]. split; cbn; [done|]. destruct pl; intros ? [= <-]; done.
Qed.

Lemma SQLError_in_range d p b r :
  size (diagnostic_records d) <= smallint_max -> 0 <= b -> 1 <= legacy_diagnostic_record d ->
  diagnostic_records d !! Z.to_nat (legacy_diagnostic_record d - 1) = Some r ->
  SQLError d p b =
    (SQLGetDiagRec d (legacy_diagnostic_record d) p b, advance_legacy_diagnostic_record d).
Proof.
  intros Hs Hb Hl Hr. unfold SQLError, legacy_diagnostic_record_number.
  assert (legacy_diagnostic_record d <= size (diagnostic_records d)).
  { apply lookup_lt_Some in Hr. unfold size. lia. }
  ztest. rewrite to_smallint_small by lia.
  destruct (SQLGetDiagRec_reads d _ p b r Hs Hl Hb Hr) as (out & -> & _). by destruct (_ && _).
Qed.

Lemma SQLError_past_end d p b :
  size (diagnostic_records d) <= smallint_max -> 0 <= b ->
  size (diagnostic_records d) < legacy_diagnostic_record d ->
  SQLError d p b = (RET_NO_DATA, no_output, d).
Proof.
  intros Hs Hb Hl. unfold SQLError, legacy_diagnostic_record_number.
  destruct (Z.ltb_spec smallint_max (legacy_diagnostic_record d)); [done|].
  pose proof (size_nonneg (diagnostic_records d)). rewrite to_smallint_small by lia.
  unfold SQLGetDiagRec. rewrite get_diagnostic_record_exact by done. by repeat ztest.
Qed.

Lemma sql_errors_S n d p b r :
  size (diagnostic_records d) <= smallint_max -> 0 <= b -> 1 <= legacy_diagnostic_record d ->
  diagnostic_records d !! Z.to_nat (legacy_diagnostic_record d - 1) = Some r ->
  (sql_errors (S n) d p b).1 =
    SQLGetDiagRec d (legacy_diagnostic_record d) p b ::
    (sql_errors n (advance_legacy_diagnostic_record d) p b).1.
Proof.
  intros Hs Hb Hl Hr. cbn [sql_errors]. rewrite (SQLError_in_range d p b r) by done.
  destruct (SQLGetDiagRec d _ p b). by destruct (sql_errors n _ p b).
Qed.

Lemma sql_errors_from m d p b :
  size (diagnostic_records d) <= smallint_max -> 0 <= b -> 1 <= legacy_diagnostic_record d ->
  legacy_diagnostic_record d - 1 + Z.of_nat m = size (diagnostic_records d) ->
  (sql_errors (S m) d p b).1 =
    map (fun n => SQLGetDiagRec d n p b) (seqZ (legacy_diagnostic_record d) (Z.of_nat m)) ++
    [(RET_NO_DATA, no_output)].
Proof.
  revert d. induction m as [|m IH]; intros d Hs Hb Hp Hl.
  - cbn [sql_errors]. rewrite SQLError_past_end by (done || lia). done.
  - destruct (diagnostic_records d !! Z.to_nat (legacy_diagnostic_record d - 1)) as [r|] eqn:Hr.
    2: { apply lookup_ge_None in Hr. unfold size in *. lia. }
    rewrite (sql_errors_S _ d p b r) by done. rewrite IH by (cbn [diagnostic_records advance_legacy_diagnostic_record legacy_diagnostic_record]; done || lia).
    cbn [advance_legacy_diagnostic_record legacy_diagnostic_record].
    rewrite (seqZ_cons (legacy_diagnostic_record d)) by lia. cbn [map app]. f_equal.
    replace (Z.pred (Z.of_nat (S m))) with (Z.of_nat m) by lia. done.
Qed.

(** After an error is set, a sequence of [SQLError] calls returns every record
    once, in the order of their numbers, as [SQLGetDiagRec] would, and then
    says that there are no more. *)
Theorem sql_error_reads_each_record_once (d : Diagnostics) (p : DiagPointers) (b : Z) :
  size (diagnostic_records d) <= smallint_max -> 0 <= b -> legacy_diagnostic_record d = 1 ->
  (sql_errors (S (length (diagnostic_records d))) d p b).1 =
    map (fun n => SQLGetDiagRec d n p b) (seqZ 1 (size (diagnostic_records d))) ++ [(RET_NO_DATA, no_output)].
Proof.
  intros Hs Hb Hl. rewrite sql_errors_from by (done || lia || (unfold size; lia)). by rewrite Hl.
Qed.
