(* ===== verification/CursorName.v ===== *)
(** * Cursor names

    The names of the statements of a connection ([odbc/odbc_handles.cpp]):
    which names an application may set, when two names denote one cursor, and
    the name a statement has when none is set.  [toupper], [isalpha] and
    [isalnum] are those of the C locale. *)

From S2P Require Import Prelude Digits Diagnostics.

(** ** Definitions *)

Definition default_cursor_name (statement_id : Z) : bytes := str "SQL_CUR" ++ to_string statement_id.

(** [get_cursor_name]. *)
Definition get_cursor_name (cursor_name : bytes) (statement_id : Z) : bytes :=
  match cursor_name with
  | [] => default_cursor_name statement_id
  | _ => cursor_name
  end.

Definition is_quoted_cursor_name (name : bytes) : bool :=
  (2 <=? size name) && bool_decide (head name = Some DQ) && bool_decide (list.last name = Some DQ).

(** The characters between the quotes, [name[1]] to [name[size - 2]]. *)
Definition between_quotes (name : bytes) : bytes := removelast (tail name).

(** The loop of [unescape_quoted_cursor_name] over those characters. *)
Fixpoint unescape_inner (s : bytes) : bytes :=
  match s with
  | [] => []
  | c :: rest =>
      if c =? DQ then
        match rest with
        | c' :: rest' => if c' =? DQ then DQ :: unescape_inner rest' else c :: unescape_inner rest
        | [] => [c]
        end
      else c :: unescape_inner rest
  end.

Definition unescape_quoted_cursor_name (name : bytes) : bytes :=
  if is_quoted_cursor_name name then unescape_inner (between_quotes name) else name.

(** The loop of the validity test, which refuses a quote that is not doubled. *)
Fixpoint unescape_checked (s : bytes) : option bytes :=
  match s with
  | [] => Some []
  | c :: rest =>
      if c =? DQ then
        match rest with
        | c' :: rest' => if c' =? DQ then cons DQ <$> unescape_checked rest' else None
        | [] => None
        end
      else cons c <$> unescape_checked rest
  end.

Definition reserved (name : bytes) : bool :=
  let upper := map toupper name in
  starts_with upper (str "SQLCUR") || starts_with upper (str "SQL_CUR").

Definition is_valid_cursor_name (name : bytes) : bool :=
  if bool_decide (name = []) || (128 <? size name) then false
  else if bool_decide (head name = Some DQ) then
    if (size name <? 2) || negb (bool_decide (list.last name = Some DQ)) then false
    else match unescape_checked (between_quotes name) with
         | None => false
         | Some unescaped => negb (bool_decide (unescaped = [])) && negb (reserved unescaped)
         end
  else
    match name with
    | [] => false
    | first :: _ =>
        (isalpha first || (first =? ch "_")) &&
        forallb (fun c => isalnum c || (c =? ch "_")) name && negb (reserved name)
    end.

Definition cursor_names_conflict (a b : bytes) : bool :=
  let a_quoted := is_quoted_cursor_name a in
  let b_quoted := is_quoted_cursor_name b in
  if a_quoted && b_quoted then beq a b
  else if negb a_quoted && negb b_quoted then
    (size a =? size b) && beq (map toupper a) (map toupper b)
  else
    let unquoted := if a_quoted then b else a in
    let quoted := if a_quoted then a else b in
    let unescaped := unescape_quoted_cursor_name quoted in
    (size unquoted =? size unescaped) && beq (map toupper unquoted) unescaped.

(** ** Properties *)

(** What a name denotes: a plain name in capitals, a quoted one as written. *)
Definition cursor_identity (name : bytes) : bytes :=
  if is_quoted_cursor_name name then unescape_quoted_cursor_name name else map toupper name.

(** The names statements have: those the test accepts and the default ones. *)
Definition cursor_name_ok (name : bytes) : Prop :=
  is_valid_cursor_name name = true \/ exists id, 0 <= id /\ name = default_cursor_name id.

Lemma unescape_checked_inj s t u :
  unescape_checked s = Some u -> unescape_checked t = Some u -> s = t.
Proof.
  revert t u. induction s as [s IH] using (induction_ltof1 _ (@length Z)); unfold ltof in IH.
  intros t u Hs Ht.
  destruct s as [|c s], t as [|d t]; cbn [unescape_checked] in *; [done| | |].
  - destruct (d =? DQ); [destruct t as [|d' t]; [done|destruct (d' =? DQ)]|];
      simplify_eq; by apply fmap_Some in Ht as (? & ? & ?); simplify_eq.
  - destruct (c =? DQ); [destruct s as [|c' s]; [done|destruct (c' =? DQ)]|];
      simplify_eq; by apply fmap_Some in Hs as (? & ? & ?); simplify_eq.
  - destruct (Z.eqb_spec c DQ) as [->|Hc], (Z.eqb_spec d DQ) as [->|Hd].
    + destruct s as [|c' s]; [done|]. destruct t as [|d' t]; [done|].
      destruct (Z.eqb_spec c' DQ) as [->|]; [|done]. destruct (Z.eqb_spec d' DQ) as [->|]; [|done].
      apply fmap_Some in Hs as (u1 & Hs & ->). apply fmap_Some in Ht as (u2 & Ht & Heq). simplify_eq.
      do 2 f_equal. eapply IH; [cbn; lia|done..].
    + destruct s as [|c' s]; [done|]. destruct (Z.eqb_spec c' DQ) as [->|]; [|done].
      apply fmap_Some in Hs as (u1 & Hs & ->). apply fmap_Some in Ht as (u2 & Ht & Heq). by simplify_eq.
    + destruct t as [|d' t]; [done|]. destruct (Z.eqb_spec d' DQ) as [->|]; [|done].
      apply fmap_Some in Hs as (u1 & Hs & ->). apply fmap_Some in Ht as (u2 & Ht & Heq). by simplify_eq.
    + apply fmap_Some in Hs as (u1 & Hs & ->). apply fmap_Some in Ht as (u2 & Ht & Heq). simplify_eq.
      f_equal. eapply IH; [cbn; lia|done..].
Qed.

Lemma unescape_checked_inner s u : unescape_checked s = Some u -> unescape_inner s = u.
Proof.
  revert u. induction s as [s IH] using (induction_ltof1 _ (@length Z)); unfold ltof in IH.
  intros u Hu. destruct s as [|c s]; cbn [unescape_checked unescape_inner] in *; [by simplify_eq|].
  destruct (Z.eqb_spec c DQ).
  - destruct s as [|c' s]; [done|]. destruct (c' =? DQ); [|done].
    apply fmap_Some in Hu as (u1 & Hu & ->). f_equal. apply IH; [cbn; lia|done].
  - apply fmap_Some in Hu as (u1 & Hu & ->). f_equal. apply IH; [cbn; lia|done].
Qed.

(** A name of two characters or more is its first, its middle and its last. *)
Lemma between_quotes_spec name :
  is_quoted_cursor_name name = true -> name = DQ :: between_quotes name ++ [DQ].
Proof.
  unfold is_quoted_cursor_name, between_quotes. intros H. zb.
  apply bool_decide_eq_true in H0, H1. destruct name as [|c name]; [done|].
  assert (c = DQ) as -> by (cbn in H0, H1; congruence).
  cbn [tail]. destruct name as [|d name]; [done|].
  assert (list.last (d :: name) = Some DQ) as Hl by done. clear -Hl.
  apply last_Some in Hl as (l & Hl). change (tail (DQ :: d :: name)) with (d :: name).
  by rewrite Hl, removelast_last.
Qed.

Lemma valid_quoted name :
  is_valid_cursor_name name = true -> is_quoted_cursor_name name = true ->
  exists u, unescape_checked (between_quotes name) = Some u /\ unescape_quoted_cursor_name name = u /\
    reserved u = false.
Proof.
  intros Hv Hq. unfold is_valid_cursor_name in Hv. unfold unescape_quoted_cursor_name. rewrite Hq.
  destruct (_ || _); [done|]. unfold is_quoted_cursor_name in Hq. zb. rewrite H1 in Hv.
  destruct (_ || _); [done|]. destruct (unescape_checked _) as [u|] eqn:Hu; [|done]. zb.
  exists u. split_and!; [done|by apply unescape_checked_inner|done].
Qed.

Lemma valid_unquoted name :
  is_valid_cursor_name name = true -> is_quoted_cursor_name name = false ->
  reserved name = false.
Proof.
  intros Hv Hq. unfold is_valid_cursor_name, is_quoted_cursor_name in *.
  destruct (_ || _); [done|]. destruct (bool_decide (head name = Some DQ)) eqn:Hh.
  - destruct (Z.ltb_spec (size name) 2); [done|]. cbn [orb] in Hv.
    destruct (bool_decide (list.last name = Some DQ)); [|done]. by rewrite (proj2 (Z.leb_le 2 (size name))) in Hq by lia.
  - destruct name; [done|]. by zb.
Qed.

Lemma default_unquoted id : is_quoted_cursor_name (default_cursor_name id) = false.
Proof. unfold is_quoted_cursor_name. rewrite (bool_decide_false (head _ = _)) by done. by rewrite andb_false_r. Qed.

Lemma quoted_ok_valid name :
  cursor_name_ok name -> is_quoted_cursor_name name = true -> is_valid_cursor_name name = true.
Proof. intros [?|(id & _ & ->)] Hq; [done|]. by rewrite default_unquoted in Hq. Qed.

(** Two names of statements conflict exactly when they denote one cursor: the
    test is an equivalence although it treats quoted and plain names apart. *)
Theorem cursor_names_conflict_exact (a b : bytes) :
  cursor_name_ok a -> cursor_name_ok b ->
  cursor_names_conflict a b = true <-> cursor_identity a = cursor_identity b.
Proof.
  intros Ha Hb. unfold cursor_names_conflict, cursor_identity, beq.
  destruct (is_quoted_cursor_name a) eqn:Hqa, (is_quoted_cursor_name b) eqn:Hqb; cbn [andb negb].
  - rewrite bool_decide_eq_true. split; [by intros ->|].
    destruct (valid_quoted a) as (ua & Hua & Hea & _); [by apply quoted_ok_valid|done|].
    destruct (valid_quoted b) as (ub & Hub & Heb & _); [by apply quoted_ok_valid|done|].
    intros E. rewrite Hea, Heb in E. subst ub.
    rewrite (between_quotes_spec a), (between_quotes_spec b) by done. do 2 f_equal.
    eapply unescape_checked_inj; [done|]. by rewrite Hub, E.
  - rewrite andb_true_iff, Z.eqb_eq, bool_decide_eq_true. split; [by intros [_ ->]|].
    intros E. split; [|done]. rewrite E. unfold size. by rewrite length_map.
  - rewrite andb_true_iff, Z.eqb_eq, bool_decide_eq_true. split; [by intros [_ ->]|].
    intros E. split; [|done]. rewrite <- E. unfold size. by rewrite length_map.
  - rewrite andb_true_iff, Z.eqb_eq, bool_decide_eq_true. split; [by intros [_ ->]|].
    intros E. split; [|done]. apply (f_equal length) in E. rewrite !length_map in E. unfold size. lia.
Qed.

Lemma cursor_names_conflict_exact_witness :
  cursor_names_conflict (str "Sales") [DQ; ch "S"; ch "A"; ch "L"; ch "E"; ch "S"; DQ] = true.
Proof.
  apply cursor_names_conflict_exact; [left; vm_compute; reflexivity|left; vm_compute; reflexivity|].
  vm_compute; reflexivity.
Defined.

Lemma toupper_idem c : toupper (toupper c) = toupper c.
Proof.
  unfold toupper. destruct (islower c) eqn:E; [|by rewrite E].
  unfold islower in *. zb. by repeat ztest.
Qed.

Lemma reserved_upper name : reserved (map toupper name) = reserved name.
Proof. unfold reserved. rewrite map_map. by rewrite (map_ext _ _ toupper_idem). Qed.

Lemma default_identity id : cursor_identity (default_cursor_name id) = map toupper (default_cursor_name id).
Proof. unfold cursor_identity. by rewrite default_unquoted. Qed.

(** An application cannot take the default name of any statement. *)
Lemma valid_avoids_default name id :
  is_valid_cursor_name name = true -> cursor_identity name <> cursor_identity (default_cursor_name id).
Proof.
  intros Hv E. rewrite default_identity in E.
  assert (reserved (cursor_identity name) = true) as Hr.
  { rewrite E, reserved_upper. done. }
  unfold cursor_identity in Hr. destruct (is_quoted_cursor_name name) eqn:Hq.
  - destruct (valid_quoted name Hv Hq) as (u & _ & Hu & Hn). rewrite Hu in Hr. congruence.
  - rewrite reserved_upper in Hr. by rewrite (valid_unquoted name Hv Hq) in Hr.
Qed.

Lemma toupper_digit c : isdigit c = true -> toupper c = c.
Proof. unfold isdigit, toupper, islower. intros H. zb. by repeat ztest. Qed.
