(* ===== verification/OdbcTransaction.v ===== *)
(** * Transactions of an ODBC connection

    The part of [ODBCConnection] ([odbc/odbc_handles.cpp]) that keeps the
    transaction flag: manual and automatic commit, the implicit [BEGIN] before a
    statement, the reconciliation with the state the session reports,
    [SQLEndTran], the attributes of a connection and its close.

    The session below is an interface, the class [BackendSession]; the laws the
    flag relies on are the class [HonestSession], and the PostgreSQL session is
    an instance of both ([pg_honest]).  The text of a diagnostic made from a
    backend error is not modelled: [Posted] says which error it is made from. *)

From S2P Require Import Prelude PgWire PgIeee PgRequest PgResult PgAuth Backend Connection Response PgSession SessionSync Diagnostics.

(** ** The session below *)

Class BackendSession (B : Type) := {
  session_of : B -> SessionSnapshot;
  b_transaction : TransactionAction -> Z -> B -> B * Reply unit;
  b_isolation : TransactionIsolation -> Z -> B -> B * Reply unit;
  b_query : bytes -> Z -> B -> B * Reply unit
}.

Definition reply_snapshot {A} (r : Reply A) : SessionSnapshot :=
  match r with Answered _ p => p | Refused e => error_snapshot (oe e) end.

(** What an operation answers is what the session then is, and a transaction
    command that is not refused left the state it is meant to. *)
Class HonestSession (B : Type) `{!BackendSession B} := {
  session_valid : B -> Prop;
  transaction_honest a d b b' r :
    session_valid b -> b_transaction a d b = (b', r) ->
    session_valid b' /\ reply_snapshot r = session_of b' /\
    (forall u p, r = Answered u p -> p = (transaction_command a).2);
  isolation_honest l d b b' r :
    session_valid b -> b_isolation l d b = (b', r) -> session_valid b' /\ reply_snapshot r = session_of b';
  query_honest sql d b b' r :
    session_valid b -> b_query sql d b = (b', r) -> session_valid b' /\ reply_snapshot r = session_of b'
}.

(** ** The connection handle *)

(** A diagnostic that replaces the handle's records. *)
Inductive Posted := State (sqlstate : bytes) | FromBackend (e : OpError).

Record OConn := {
  connected : bool;
  autocommit : bool;
  transaction_active : bool;
  transaction_isolation : Z;
  transaction_isolation_explicit : bool;
  access_mode : Z;
  metadata_id_default : bool;
  quiet_mode : Z;
  connection_timeout_seconds : Z;
  login_timeout_seconds : Z;
  explicit_login_timeout : option Z;
  metadata_epoch : bool;
  pending_input_identity : bool;
  confirmed_read_only : bool;
  query_timeout_default_seconds : Z
}.

Definition initial_oconn : OConn :=
  {| connected := false; autocommit := true; transaction_active := false; transaction_isolation := 2;
     transaction_isolation_explicit := false; access_mode := 0; metadata_id_default := false; quiet_mode := 0;
     connection_timeout_seconds := 0; login_timeout_seconds := 30; explicit_login_timeout := None;
     metadata_epoch := false; pending_input_identity := false; confirmed_read_only := false;
     query_timeout_default_seconds := 0 |}.

Definition with_transaction (active : bool) (c : OConn) : OConn :=
  {| connected := connected c; autocommit := autocommit c; transaction_active := active;
     transaction_isolation := transaction_isolation c;
     transaction_isolation_explicit := transaction_isolation_explicit c; access_mode := access_mode c;
     metadata_id_default := metadata_id_default c; quiet_mode := quiet_mode c;
     connection_timeout_seconds := connection_timeout_seconds c; login_timeout_seconds := login_timeout_seconds c;
     explicit_login_timeout := explicit_login_timeout c; metadata_epoch := metadata_epoch c;
     pending_input_identity := pending_input_identity c; confirmed_read_only := confirmed_read_only c;
     query_timeout_default_seconds := query_timeout_default_seconds c |}.

Definition with_autocommit (on : bool) (c : OConn) : OConn :=
  {| connected := connected c; autocommit := on; transaction_active := transaction_active c;
     transaction_isolation := transaction_isolation c;
     transaction_isolation_explicit := transaction_isolation_explicit c; access_mode := access_mode c;
     metadata_id_default := metadata_id_default c; quiet_mode := quiet_mode c;
     connection_timeout_seconds := connection_timeout_seconds c; login_timeout_seconds := login_timeout_seconds c;
     explicit_login_timeout := explicit_login_timeout c; metadata_epoch := metadata_epoch c;
     pending_input_identity := pending_input_identity c; confirmed_read_only := confirmed_read_only c;
     query_timeout_default_seconds := query_timeout_default_seconds c |}.

Definition with_isolation (value : Z) (c : OConn) : OConn :=
  {| connected := connected c; autocommit := autocommit c; transaction_active := transaction_active c;
     transaction_isolation := value; transaction_isolation_explicit := true; access_mode := access_mode c;
     metadata_id_default := metadata_id_default c; quiet_mode := quiet_mode c;
     connection_timeout_seconds := connection_timeout_seconds c; login_timeout_seconds := login_timeout_seconds c;
     explicit_login_timeout := explicit_login_timeout c; metadata_epoch := metadata_epoch c;
     pending_input_identity := pending_input_identity c; confirmed_read_only := confirmed_read_only c;
     query_timeout_default_seconds := query_timeout_default_seconds c |}.

(** The attributes that only record a value. *)
Definition with_plain (mode : Z) (metadata : bool) (quiet ctimeout login : Z) (explicit : option Z) (c : OConn) : OConn :=
  {| connected := connected c; autocommit := autocommit c; transaction_active := transaction_active c;
     transaction_isolation := transaction_isolation c;
     transaction_isolation_explicit := transaction_isolation_explicit c; access_mode := mode;
     metadata_id_default := metadata; quiet_mode := quiet; connection_timeout_seconds := ctimeout;
     login_timeout_seconds := login; explicit_login_timeout := explicit; metadata_epoch := metadata_epoch c;
     pending_input_identity := pending_input_identity c; confirmed_read_only := confirmed_read_only c;
     query_timeout_default_seconds := query_timeout_default_seconds c |}.

Definition invalidate_metadata_epoch (c : OConn) : OConn :=
  {| connected := connected c; autocommit := autocommit c; transaction_active := transaction_active c;
     transaction_isolation := transaction_isolation c;
     transaction_isolation_explicit := transaction_isolation_explicit c; access_mode := access_mode c;
     metadata_id_default := metadata_id_default c; quiet_mode := quiet_mode c;
     connection_timeout_seconds := connection_timeout_seconds c; login_timeout_seconds := login_timeout_seconds c;
     explicit_login_timeout := explicit_login_timeout c; metadata_epoch := false;
     pending_input_identity := pending_input_identity c; confirmed_read_only := confirmed_read_only c;
     query_timeout_default_seconds := query_timeout_default_seconds c |}.

(** The fields [close_connection] resets. *)
Definition closed_oconn (c : OConn) : OConn :=
  {| connected := false; autocommit := autocommit c; transaction_active := false;
     transaction_isolation := transaction_isolation c;
     transaction_isolation_explicit := transaction_isolation_explicit c; access_mode := access_mode c;
     metadata_id_default := metadata_id_default c; quiet_mode := quiet_mode c;
     connection_timeout_seconds := connection_timeout_seconds c; login_timeout_seconds := login_timeout_seconds c;
     explicit_login_timeout := explicit_login_timeout c; metadata_epoch := false;
     pending_input_identity := false; confirmed_read_only := false; query_timeout_default_seconds := 0 |}.

Definition is_timeout_error (code : DbErrorCode) : bool := bool_decide (code = Timeout).

Definition in_transaction (st : SessionState) : bool :=
  bool_decide (st = InTransaction) || bool_decide (st = FailedTransaction).

(** The session may be gone, or must not be used again. *)
Definition lost (p : SessionSnapshot) : bool :=
  bool_decide (disposition p = Retire) || bool_decide (snapshot_state p = UnknownState) ||
  bool_decide (snapshot_state p = Disconnected).

Section Transactions.
Context {B : Type} `{!BackendSession B}.

(** A connection handle and the session its lease holds. *)
Record World := { oconn : OConn; lease : option B }.

Definition on_conn (f : OConn -> OConn) (w : World) : World := {| oconn := f (oconn w); lease := lease w |}.

Definition close_connection (w : World) : World := {| oconn := closed_oconn (oconn w); lease := None |}.

Definition backend_connected (w : World) : bool :=
  match lease w with
  | None => false
  | Some b => negb (bool_decide (snapshot_state (session_of b) = Disconnected))
  end.

Definition backend_call (op : BackendOperation) (call : B -> B * Reply unit) (w : World) : World * Reply unit :=
  let w := on_conn invalidate_metadata_epoch w in
  match lease w with
  | Some b => let '(b', r) := call b in ({| oconn := oconn w; lease := Some b' |}, r)
  | None => (w, Refused (local_error Unsupported op Disconnected))
  end.

Definition backend_transaction (action : TransactionAction) (deadline : Z) : World -> World * Reply unit :=
  backend_call OpTransaction (b_transaction action deadline).

Definition backend_isolation (level : TransactionIsolation) (deadline : Z) : World -> World * Reply unit :=
  backend_call OpSetTransactionIsolation (b_isolation level deadline).

(** [backend_query] and its kin answer a missing lease as not connected. *)
Definition backend_query (sql : bytes) (deadline : Z) (w : World) : World * Reply unit :=
  let w := on_conn invalidate_metadata_epoch w in
  match lease w with
  | Some b => let '(b', r) := b_query sql deadline b in ({| oconn := oconn w; lease := Some b' |}, r)
  | None =>
      (w, Refused {| oe := {| error_code := NotConnected; error_state := Disconnected; error_disposition := Retire |};
                     oe_class := CNotConnected; oe_operation := OpExecuteDirect; oe_native := None |})
  end.

Definition unexpected_begin : OpError :=
  {| oe := {| error_code := ProtocolError; error_state := Disconnected; error_disposition := Retire |};
     oe_class := CProtocol; oe_operation := OpBeginTransaction; oe_native := None |}.

Definition begin_transaction_if_needed (deadline : Z) (w : World) : World * option OpError :=
  if autocommit (oconn w) || transaction_active (oconn w) then (w, None)
  else
    let '(w, r) := backend_transaction Begin_ deadline w in
    let p := reply_snapshot r in
    match r with
    | Refused e =>
        (if lost p then close_connection w
         else on_conn (with_transaction (in_transaction (snapshot_state p))) w, Some e)
    | Answered _ _ =>
        if bool_decide (p = {| snapshot_state := InTransaction; disposition := ResetRequired |})
        then (on_conn (with_transaction true) w, None)
        else (close_connection w, Some unexpected_begin)
    end.

Definition reconcile_transaction_state (p : SessionSnapshot) (w : World) : World :=
  if autocommit (oconn w) then w
  else if in_transaction (snapshot_state p) then on_conn (with_transaction true) w
  else if bool_decide (snapshot_state p = Idle) then on_conn (with_transaction false) w
  else w.

(** What the cancellation of the statement answers: [before_transaction()],
    [next_phase()], and of the outcome of [finish()] whether the cancellation is
    confirmed and whether it retires the session. *)
Record Cancellation := { may_begin : bool; may_dispatch : bool; confirmed : bool; retires : bool }.

Definition cancelled_server_error (k : Cancellation) (e : OpError) : bool :=
  confirmed k && bool_decide (oe_class e = CServer).

(** The dispatch of a statement, direct or prepared: the implicit [BEGIN], the
    request, the reconciliation. *)
Definition dispatch_statement (sql : bytes) (deadline : Z) (k : Cancellation) (w : World) : World * option Posted :=
  let finish w := if retires k then close_connection w else w in
  let fail_with e w :=
    if cancelled_server_error k e then (w, Some (State (str "HY008")))
    else (if is_timeout_error (error_code (oe e)) then close_connection w else w, Some (FromBackend e)) in
  if negb (may_begin k) then (w, Some (State (str "HY008")))
  else
    let '(w, began) := begin_transaction_if_needed deadline w in
    match began with
    | Some e => fail_with e (finish w)
    | None =>
        if negb (may_dispatch k) then (finish w, Some (State (str (if confirmed k then "HY008" else "HY000")%string)))
        else
          let '(w, r) := backend_query sql deadline w in
          let w := finish (reconcile_transaction_state (reply_snapshot r) w) in
          match r with
          | Refused e => fail_with e w
          | Answered _ _ => if confirmed k then (w, Some (State (str "HY008"))) else (w, None)
          end
    end.

(** [end_transaction]; the two flags are [has_pending_result_sequence()] and
    [has_pending_input()], the questions asked of the statements. *)
Definition end_transaction (sequence_pending input_pending : bool) (completion_type : Z) (deadline : Z) (w : World)
  : World * RETCODE * option Posted :=
  if sequence_pending then (w, RET_ERROR, Some (State (str "HY010")))
  else if input_pending then (w, RET_ERROR, Some (State (str "HY010")))
  else if negb (completion_type =? 0) && negb (completion_type =? 1) then (w, RET_ERROR, Some (State (str "HY012")))
  else if negb (connected (oconn w)) then (w, RET_ERROR, Some (State (str "08003")))
  else if autocommit (oconn w) then (w, RET_SUCCESS, None)
  else if negb (transaction_active (oconn w)) then (w, RET_SUCCESS, None)
  else
    let action := if completion_type =? 0 then Commit else Rollback in
    let '(w, r) := backend_transaction action deadline w in
    match r with
    | Refused e =>
        let p := error_snapshot (oe e) in
        (if is_timeout_error (error_code (oe e)) || lost p then close_connection w
         else on_conn (with_transaction (in_transaction (snapshot_state p))) w, RET_ERROR, Some (FromBackend e))
    | Answered _ _ => (on_conn (with_transaction false) w, RET_SUCCESS, None)
    end.

Definition disconnect (input_pending : bool) (w : World) : World * RETCODE * option Posted :=
  if input_pending then (w, RET_ERROR, Some (State (str "HY010")))
  else if negb (connected (oconn w)) then (w, RET_ERROR, Some (State (str "08003")))
  else if transaction_active (oconn w) && backend_connected w then (w, RET_ERROR, Some (State (str "25000")))
  else (close_connection w, RET_SUCCESS, None).

(** ** Attributes *)

Definition transaction_isolation_from_odbc (value : Z) : option TransactionIsolation :=
  if value =? 1 then Some ReadUncommitted
  else if value =? 2 then Some ReadCommitted
  else if value =? 4 then Some RepeatableRead
  else if value =? 8 then Some Serializable
  else None.

Record TransactionCapabilities := { tx_supported : bool; isolation_levels : TransactionIsolation -> bool }.

Definition supports (caps : TransactionCapabilities) (level : TransactionIsolation) : bool :=
  tx_supported caps && isolation_levels caps level.

Definition uinteger_max : Z := 2 ^ 32 - 1.

(** [NATIVE_SQLWCHAR_ENCODING]: UTF-16 for two-byte wide characters, else UCS-4. *)
Definition native_sqlwchar_encoding (wchar_bytes : Z) : Z := if wchar_bytes =? 2 then 1 else 3.

Definition recognized_unsupported : list Z :=
  [110; 104; 105; 106; 107; 114; 1207; 1208; 116; 119; 120; 122].

Definition set_attribute (caps : TransactionCapabilities) (sequence_pending input_pending : bool) (wchar_bytes : Z)
    (attribute value deadline : Z) (w : World) : World * RETCODE * option Posted :=
  let fail state := (w, RET_ERROR, Some (State (str state))) in
  let keep w' := (w', RET_SUCCESS, None) in
  let c := oconn w in
  let plain mode metadata quiet ctimeout login explicit :=
    keep (on_conn (with_plain mode metadata quiet ctimeout login explicit) w) in
  if input_pending then fail "HY010"%string
  else if ((attribute =? 102) || (attribute =? 108)) && sequence_pending then fail "HY010"%string
  else if attribute =? 1061 then
    if negb (value =? native_sqlwchar_encoding wchar_bytes) then fail "HYC00"%string else keep w
  else if attribute =? 102 then
    if negb (value =? 1) && negb (value =? 0) then fail "HY024"%string
    else if Bool.eqb (autocommit c) (value =? 1) then keep w
    else if (value =? 0) && negb (tx_supported caps) then fail "HYC00"%string
    else if (value =? 1) && connected c && transaction_active c then
      let '(w1, code, posted) := end_transaction sequence_pending input_pending 0 deadline w in
      if bool_decide (code = RET_SUCCESS) then keep (on_conn (with_autocommit true) w1) else (w1, code, posted)
    else keep (on_conn (with_autocommit (value =? 1)) w)
  else if attribute =? 101 then
    if negb (value =? 0) && negb (value =? 1) then fail "HY024"%string
    else plain value (metadata_id_default c) (quiet_mode c) (connection_timeout_seconds c)
           (login_timeout_seconds c) (explicit_login_timeout c)
  else if attribute =? 4 then
    if value =? 0 then keep w else if value =? 1 then fail "HYC00"%string else fail "HY024"%string
  else if attribute =? 10014 then
    if (value =? 0) || (value =? 1) then
      plain (access_mode c) (value =? 1) (quiet_mode c) (connection_timeout_seconds c)
        (login_timeout_seconds c) (explicit_login_timeout c)
    else fail "HY024"%string
  else if attribute =? 117 then
    if value =? 0 then keep w else if value =? 1 then fail "HYC00"%string else fail "HY024"%string
  else if attribute =? 111 then
    plain (access_mode c) (metadata_id_default c) value (connection_timeout_seconds c)
      (login_timeout_seconds c) (explicit_login_timeout c)
  else if attribute =? 108 then
    match transaction_isolation_from_odbc value with
    | None => fail "HY024"%string
    | Some level =>
        if negb (supports caps level) then fail "HYC00"%string
        else if transaction_active c then fail "HY011"%string
        else if connected c then
          let '(w1, r) := backend_isolation level deadline w in
          match r with
          | Refused e =>
              (if is_timeout_error (error_code (oe e)) then close_connection w1 else w1, RET_ERROR, Some (FromBackend e))
          | Answered _ _ => keep (on_conn (with_isolation value) w1)
          end
        else keep (on_conn (with_isolation value) w)
    end
  else if attribute =? 113 then
    if uinteger_max <? value then fail "HY024"%string
    else plain (access_mode c) (metadata_id_default c) (quiet_mode c) value
           (login_timeout_seconds c) (explicit_login_timeout c)
  else if attribute =? 112 then fail (if connected c then "HY011" else "HYC00")%string
  else if existsb (Z.eqb attribute) recognized_unsupported then fail "HYC00"%string
  else if negb (attribute =? 103) then fail "HY092"%string
  else if connected c then fail "HY011"%string
  else if uinteger_max <? value then fail "HY024"%string
  else plain (access_mode c) (metadata_id_default c) (quiet_mode c) (connection_timeout_seconds c) value (Some value).

(** ** A connection in use *)

Inductive Op :=
| Execute (sql : bytes) (k : Cancellation)
| EndTran (sequence_pending input_pending : bool) (completion : Z)
| SetAttribute (sequence_pending input_pending : bool) (attribute value : Z)
| Disconnect_ (input_pending : bool).

(** [Execute] is refused on a closed connection before anything else. *)
Definition perform (caps : TransactionCapabilities) (wchar_bytes : Z) (op : Op) (deadline : Z) (w : World) : World :=
  match op with
  | Execute sql k => if connected (oconn w) then (dispatch_statement sql deadline k w).1 else w
  | EndTran sp ip c => (end_transaction sp ip c deadline w).1.1
  | SetAttribute sp ip a v => (set_attribute caps sp ip wchar_bytes a v deadline w).1.1
  | Disconnect_ ip => (disconnect ip w).1.1
  end.

(** The session of the connection is in a state it reported. *)
Definition known (st : SessionState) : Prop := st = Idle \/ st = InTransaction \/ st = FailedTransaction.

Definition session_idle (w : World) : Prop :=
  forall b, lease w = Some b -> in_transaction (snapshot_state (session_of b)) = false.

(** What an application does not do: leave automatic commit while a transaction
    it began by SQL is open.  And a change of the isolation level, which is a
    command outside a transaction, opens none. *)
Definition orderly (caps : TransactionCapabilities) (wchar_bytes : Z) (op : Op) (deadline : Z) (w : World) : Prop :=
  match op with
  | SetAttribute _ _ 102 0 => session_idle w
  | SetAttribute _ _ 108 _ =>
      autocommit (oconn w) = true \/ session_idle (perform caps wchar_bytes op deadline w)
  | _ => True
  end.

(** ** The flag tells the truth *)

Context `{!HonestSession B}.

(** In manual commit the flag says whether the session, as long as its state is
    known, is in a transaction; in automatic commit it is off; a lease is held
    exactly while the connection is open. *)
Record bookkeeping (w : World) : Prop := {
  bk_open : connected (oconn w) = bool_decide (is_Some (lease w));
  bk_auto : autocommit (oconn w) = true -> transaction_active (oconn w) = false;
  bk_active : transaction_active (oconn w) = true -> connected (oconn w) = true;
  bk_valid : forall b, lease w = Some b -> session_valid b;
  bk_flag : forall b, autocommit (oconn w) = false -> lease w = Some b ->
    known (snapshot_state (session_of b)) ->
    transaction_active (oconn w) = in_transaction (snapshot_state (session_of b))
}.

Lemma bookkeeping_closed w : bookkeeping (close_connection w).
Proof. split; cbn; done. Qed.

Lemma bookkeeping_intro c b :
  connected c = true -> session_valid b -> (autocommit c = true -> transaction_active c = false) ->
  (autocommit c = false -> known (snapshot_state (session_of b)) ->
   transaction_active c = in_transaction (snapshot_state (session_of b))) ->
  bookkeeping {| oconn := c; lease := Some b |}.
Proof. intros Hc Hv Ha Hf. split; cbn; [by rewrite Hc|done|done|by intros ? [= <-]|by intros ? ? [= <-]; auto]. Qed.

Lemma bookkeeping_fields w c :
  bookkeeping w -> connected c = connected (oconn w) -> autocommit c = autocommit (oconn w) ->
  transaction_active c = transaction_active (oconn w) -> bookkeeping {| oconn := c; lease := lease w |}.
Proof. intros [H1 H2 H3 H4 H5] Ec Ea Et. split; cbn; rewrite ?Ec, ?Ea, ?Et; done. Qed.

Lemma lost_false p : lost p = false -> known (snapshot_state p).
Proof.
  unfold lost, known. destruct p as [[] []]; cbn [snapshot_state disposition]; auto; by vm_compute.
Qed.

Lemma in_transaction_known st : in_transaction st = true -> known st.
Proof. unfold known. destruct st; cbn; auto; done. Qed.

Lemma bookkeeping_open w : bookkeeping w -> connected (oconn w) = true -> exists b, lease w = Some b /\ session_valid b.
Proof.
  intros Hw Hc. rewrite (bk_open w Hw) in Hc. apply bool_decide_eq_true in Hc as [b Hb].
  exists b. split; [done|]. by eapply bk_valid.
Qed.

(** A call of the session through the lease: what it answers is what the session
    then is, and nothing of the bookkeeping but the lease has changed. *)
Lemma backend_call_honest op call w w' r :
  bookkeeping w -> connected (oconn w) = true ->
  (forall b b' r, session_valid b -> call b = (b', r) -> session_valid b' /\ reply_snapshot r = session_of b') ->
  backend_call op call w = (w', r) ->
  exists b', w' = {| oconn := invalidate_metadata_epoch (oconn w); lease := Some b' |} /\ session_valid b' /\
    reply_snapshot r = session_of b' /\ exists b, call b = (b', r) /\ session_valid b.
Proof.
  intros Hw Hc Hcall. destruct (bookkeeping_open w Hw Hc) as (b & Hb & Hv).
  unfold backend_call. cbn. rewrite Hb. destruct (call b) as [b' r'] eqn:E. intros [= <- <-].
  destruct (Hcall b b' r' Hv E) as [Hv' Hr]. exists b'. split_and!; [done..|]. by exists b.
Qed.

Lemma begin_bookkeeping deadline w :
  bookkeeping w -> connected (oconn w) = true ->
  bookkeeping (begin_transaction_if_needed deadline w).1 /\
  ((begin_transaction_if_needed deadline w).2 = None ->
   connected (oconn (begin_transaction_if_needed deadline w).1) = true).
Proof.
  intros Hw Hc. unfold begin_transaction_if_needed.
  destruct (autocommit (oconn w)) eqn:Ha; [done|]. destruct (transaction_active (oconn w)) eqn:Ht; [done|]. cbn [orb].
  destruct (backend_transaction Begin_ deadline w) as [w' r] eqn:E.
  apply backend_call_honest in E as (b' & -> & Hv & Hr & _); [|done..|].
  2: { intros b b1 r1 Hb Hcall. by destruct (transaction_honest _ _ _ _ _ Hb Hcall) as (? & ? & _). }
  destruct r as [u p|e]; cbn [reply_snapshot] in *.
  - case_bool_decide as Hp; cbn [fst snd]; [|split; [apply bookkeeping_closed|done]]. split; [|done].
    apply bookkeeping_intro; [done|done|cbn; congruence|]. intros _ _. by rewrite <- Hr, Hp.
  - cbn [fst snd]. destruct (lost _) eqn:El; (split; [|done]); [apply bookkeeping_closed|].
    apply bookkeeping_intro; [done|done|cbn; congruence|]. intros _ _. by rewrite <- Hr.
Qed.

Lemma reconcile_bookkeeping c b p :
  connected c = true -> session_valid b -> (autocommit c = true -> transaction_active c = false) ->
  p = session_of b ->
  bookkeeping (reconcile_transaction_state p {| oconn := c; lease := Some b |}).
Proof.
  intros Hc Hv Ha ->. unfold reconcile_transaction_state. cbn [oconn].
  destruct (autocommit c) eqn:Ea.
  { apply bookkeeping_intro; [done|done|by auto|congruence]. }
  destruct (in_transaction _) eqn:Ei.
  { apply bookkeeping_intro; cbn; [done|done|congruence|by rewrite Ei]. }
  case_bool_decide as Eid.
  { apply bookkeeping_intro; cbn; [done|done|congruence|by rewrite Ei]. }
  apply bookkeeping_intro; [done|done|congruence|].
  intros _ [?|[Hs|Hs]]; [done|by rewrite Hs in Ei..].
Qed.

Lemma bookkeeping_close_if (t : bool) w : bookkeeping w -> bookkeeping (if t then close_connection w else w).
Proof. destruct t; [intros _; apply bookkeeping_closed|done]. Qed.

Lemma dispatch_bookkeeping sql deadline k w :
  bookkeeping w -> connected (oconn w) = true -> bookkeeping (dispatch_statement sql deadline k w).1.
Proof.
  intros Hw Hc. unfold dispatch_statement. destruct (may_begin k); [|done]. cbn [negb].
  destruct (begin_bookkeeping deadline w Hw Hc) as [Hb Hb2].
  destruct (begin_transaction_if_needed deadline w) as [w1 [e|]]; cbn [fst snd] in *.
  { destruct (cancelled_server_error k e); cbn [fst]; by repeat apply bookkeeping_close_if. }
  specialize (Hb2 eq_refl). destruct (may_dispatch k); cbn [negb]; [|by apply bookkeeping_close_if].
  destruct (backend_query sql deadline w1) as [w2 r] eqn:E. unfold backend_query in E. cbn in E.
  destruct (bookkeeping_open w1 Hb Hb2) as (b & Hl & Hv). rewrite Hl in E.
  destruct (b_query sql deadline b) as [b' r'] eqn:Eq. injection E as <- <-.
  destruct (query_honest _ _ _ _ _ Hv Eq) as [Hv' Hr].
  assert (bookkeeping (reconcile_transaction_state (reply_snapshot r')
            {| oconn := invalidate_metadata_epoch (oconn w1); lease := Some b' |})) as Hrec.
  { apply reconcile_bookkeeping; [done|done|apply (bk_auto w1 Hb)|done]. }
  destruct r' as [u p|e]; cbn [reply_snapshot] in *.
  - destruct (confirmed k); cbn [fst]; by apply bookkeeping_close_if.
  - destruct (cancelled_server_error k e); cbn [fst]; by repeat apply bookkeeping_close_if.
Qed.

Lemma end_transaction_bookkeeping sp ip completion deadline w :
  bookkeeping w -> bookkeeping (end_transaction sp ip completion deadline w).1.1.
Proof.
  intros Hw. unfold end_transaction.
  destruct sp; [done|]. destruct ip; [done|]. destruct (_ && _); [done|].
  destruct (connected (oconn w)) eqn:Hc; [|done]. destruct (autocommit (oconn w)) eqn:Ha; [done|].
  destruct (transaction_active (oconn w)) eqn:Ht; [|done]. cbn [negb].
  destruct (backend_transaction _ deadline w) as [w' r] eqn:E.
  apply backend_call_honest in E as (b' & -> & Hv & Hr & b & Hcall & Hvb); [|done..|].
  2: { intros b b1 r1 Hb Hcall. by destruct (transaction_honest _ _ _ _ _ Hb Hcall) as (? & ? & _). }
  destruct r as [u p|e]; cbn [fst].
  - apply bookkeeping_intro; cbn; [done|done|done|]. intros _ _.
    destruct (transaction_honest _ _ _ _ _ Hvb Hcall) as (_ & _ & Hexp).
    rewrite <- Hr. cbn [reply_snapshot]. rewrite (Hexp u p eq_refl). by destruct (completion =? 0).
  - destruct (_ || _) eqn:El; [apply bookkeeping_closed|].
    apply bookkeeping_intro; cbn; [done|done|congruence|]. intros _ _. by rewrite <- Hr.
Qed.

Lemma disconnect_bookkeeping ip w : bookkeeping w -> bookkeeping (disconnect ip w).1.1.
Proof.
  intros Hw. unfold disconnect. destruct ip; [done|]. destruct (negb _); [done|].
  destruct (_ && _); [done|]. apply bookkeeping_closed.
Qed.

Lemma isolation_bookkeeping level value deadline w :
  bookkeeping w -> connected (oconn w) = true -> transaction_active (oconn w) = false ->
  let '(w1, r) := backend_isolation level deadline w in
  let w' := match r with
            | Refused e => if is_timeout_error (error_code (oe e)) then close_connection w1 else w1
            | Answered _ _ => on_conn (with_isolation value) w1
            end in
  (autocommit (oconn w) = true \/ session_idle w') -> bookkeeping w'.
Proof.
  intros Hw Hc Ht. destruct (backend_isolation level deadline w) as [w1 r] eqn:E.
  apply backend_call_honest in E as (b' & -> & Hv & Hr & _); [|done..|].
  2: { intros b b1 r1 Hb Hcall. by apply (isolation_honest _ _ _ _ _ Hb Hcall). }
  cbn zeta. destruct r as [u p|e]; [|destruct (is_timeout_error _); [intros _; apply bookkeeping_closed|]]; intros Hidle;
    (apply bookkeeping_intro; [done|done|done|]); intros Ha _; cbn in Ha |- *;
    (destruct Hidle as [?|Hidle]; [congruence|]); specialize (Hidle b' eq_refl); by rewrite Ht, Hidle.
Qed.

Lemma autocommit_bookkeeping caps sp ip wchar value deadline w :
  bookkeeping w -> (value = 0 -> session_idle w) ->
  bookkeeping (set_attribute caps sp ip wchar 102 value deadline w).1.1.
Proof.
  intros Hw Hidle. unfold set_attribute. destruct ip; [done|]. cbn -[end_transaction Z.eqb].
  change (102 =? 102) with true. change (102 =? 1061) with false. cbn [orb andb].
  destruct sp; [done|]. destruct (_ && _) eqn:Hval; [done|]. destruct (Bool.eqb _ _) eqn:Hsame; [done|].
  apply eqb_false_iff in Hsame. apply andb_false_iff in Hval.
  destruct ((value =? 0) && negb (tx_supported caps)); [done|].
  destruct (Z.eqb_spec value 1) as [->|Hv1]; cbn [andb].
  - assert (autocommit (oconn w) = false) as Ha by (destruct (autocommit (oconn w)); congruence).
    destruct (connected (oconn w) && transaction_active (oconn w)) eqn:Hct.
    + pose proof (end_transaction_bookkeeping false false 0 deadline w Hw) as He.
      destruct (end_transaction false false 0 deadline w) as [[w1 code] posted] eqn:E. cbn [fst] in He |- *.
      case_bool_decide; [|done]. subst code. cbn [fst].
      apply andb_true_iff in Hct as [Hc Ht]. unfold end_transaction in E. rewrite Hc, Ha, Ht in E.
      change (0 =? 0) with true in E. cbn [negb andb] in E.
      destruct (backend_transaction _ _ w) as [w2 [u q|e]] eqn:Eb; simplify_eq.
      apply backend_call_honest in Eb as (b' & -> & Hv & _ & _); [|done..|].
      2: { intros b b1 r1 Hb Hcall. by destruct (transaction_honest _ _ _ _ _ Hb Hcall) as (? & ? & _). }
      apply bookkeeping_intro; cbn; done.
    + cbn [fst]. destruct Hw as [H1 H2 H3 H4 H5]. split; cbn; try done.
      intros _. destruct (transaction_active (oconn w)); [|done]. by rewrite H3 in Hct.
  - assert (value = 0) as -> by (destruct Hval as [?|Hval]; [done|]; apply negb_false_iff, Z.eqb_eq in Hval; done).
    assert (autocommit (oconn w) = true) as Ha by (destruct (autocommit (oconn w)); [done|congruence]).
    cbn [fst]. destruct Hw as [H1 H2 H3 H4 H5]. split; cbn; try done.
    intros b _ Hb _. rewrite (H2 Ha). symmetry. by apply (Hidle eq_refl).
Qed.

Lemma perform_bookkeeping caps wchar op deadline w :
  orderly caps wchar op deadline w -> bookkeeping w -> bookkeeping (perform caps wchar op deadline w).
Proof.
  intros Ho Hw. destruct op as [sql k|sp ip completion|sp ip attribute value|ip]; cbn [perform] in *.
  - destruct (connected (oconn w)) eqn:Hc; [by apply dispatch_bookkeeping|done].
  - by apply end_transaction_bookkeeping.
  - destruct (Z.eq_dec attribute 102) as [->|H102].
    { apply autocommit_bookkeeping; [done|]. intros ->. exact Ho. }
    destruct (Z.eq_dec attribute 108) as [->|H108].
    { assert (autocommit (oconn w) = true \/ session_idle (set_attribute caps sp ip wchar 108 value deadline w).1.1) as Hi.
      { exact Ho. }
      clear Ho. unfold set_attribute in *. cbn -[end_transaction Z.eqb backend_isolation] in *.
      destruct ip; [done|]. change (108 =? 102) with false in *. change (108 =? 108) with true in *.
      change (108 =? 1061) with false in *. change (108 =? 101) with false in *. change (108 =? 4) with false in *.
      change (108 =? 10014) with false in *. change (108 =? 117) with false in *. change (108 =? 111) with false in *.
      cbn [orb andb] in *. destruct sp; [done|]. destruct (transaction_isolation_from_odbc value) as [level|]; [|done].
      destruct (negb _); [done|]. destruct (transaction_active (oconn w)) eqn:Ht; [done|].
      destruct (connected (oconn w)) eqn:Hc; [|by apply bookkeeping_fields].
      pose proof (isolation_bookkeeping level value deadline w Hw Hc Ht) as Hb.
      destruct (backend_isolation level deadline w) as [w1 [u q|e]]; apply Hb, Hi. }
    unfold set_attribute. rewrite (proj2 (Z.eqb_neq _ _) H102), (proj2 (Z.eqb_neq _ _) H108). cbn [orb andb].
    repeat case_match; cbn [fst]; try done; by apply bookkeeping_fields.
  - by apply disconnect_bookkeeping.
Qed.

(** A run of operations, each orderly where it is performed. *)
Fixpoint perform_all caps wchar (ops : list (Op * Z)) (w : World) : World :=
  match ops with
  | [] => w
  | (op, deadline) :: ops => perform_all caps wchar ops (perform caps wchar op deadline w)
  end.

Fixpoint all_orderly caps wchar (ops : list (Op * Z)) (w : World) : Prop :=
  match ops with
  | [] => True
  | (op, deadline) :: ops => orderly caps wchar op deadline w /\ all_orderly caps wchar ops (perform caps wchar op deadline w)
  end.

Lemma perform_all_bookkeeping caps wchar ops w :
  all_orderly caps wchar ops w -> bookkeeping w -> bookkeeping (perform_all caps wchar ops w).
Proof.
  revert w. induction ops as [|[op deadline] ops IH]; intros w; cbn; [done|].
  intros [H1 H2] Hw. apply IH; [done|]. by apply perform_bookkeeping.
Qed.


End Transactions.
Arguments World : clear implicits.

(** ** The PostgreSQL session is honest *)

Section Postgres.
Context {E : Type} `{!Peer E, !StreamPeer E}.
Context (max_size : Z) (profile : PgCatalogProfile) (floats : FloatEnv)
        (base_describe_type describe_type : Z -> Z -> Z -> NativeTypeInfo)
        (normalize : ScalarType -> bytes -> option bytes) (normalize_native : Z -> ScalarType -> bytes -> option bytes).

Definition pg_operation (op : SessionOp) (deadline : Z) : M E (Reply unit) :=
  exec_op max_size profile floats base_describe_type describe_type normalize normalize_native op deadline.

#[local] Instance pg_backend : BackendSession (Session E) := {|
  session_of s := snapshot_of (conn s);
  b_transaction action := pg_operation (RunTransaction action);
  b_isolation level := pg_operation (SetIsolation level);
  b_query sql := pg_operation (ExecuteQuery sql)
|}.

Lemma pg_operation_honest op deadline (s s' : Session E) (r : Reply unit) :
  coherent (conn s) -> pg_operation op deadline s = (s', r) ->
  coherent (conn s') /\ reply_snapshot r = snapshot_of (conn s').
Proof.
  intros Hs Hrun.
  pose proof (exec_op_sound max_size profile floats base_describe_type describe_type normalize normalize_native op deadline s) as H.
  unfold wp, pg_operation in *. rewrite Hrun in H. destruct H as [[Hc _] Hr]. specialize (Hc Hs). split; [done|].
  specialize (Hr Hc). by destruct r.
Qed.

Lemma pg_transaction_expected action deadline (s s' : Session E) u p :
  pg_operation (RunTransaction action) deadline s = (s', Answered u p) -> p = (transaction_command action).2.
Proof.
  unfold pg_operation. cbn [exec_op]. unfold transaction, mbind, M_bind, mret, M_ret.
  destruct (transaction_command action) as [[command op] expected]. cbn [snd].
  destruct (execute_query _ _ _ _ _ _ s) as [s1 [r q|e]]; [|done].
  case_bool_decide; [by intros [= <- <- <-]|].
  unfold retire_session, mbind, M_bind, mret, M_ret. destruct (Connection.disconnect _) as [s2 []]. done.
Qed.

#[local] Instance pg_honest : HonestSession (Session E).
Proof.
  refine {| session_valid := fun s : Session E => coherent (conn s) |}.
  - intros a d s s' r Hs Hrun. destruct (pg_operation_honest _ _ _ _ _ Hs Hrun) as [H1 H2].
    split_and!; [done..|]. intros u p ->. exact (pg_transaction_expected a d s s' u p Hrun).
  - intros l d s s' r Hs Hrun. exact (pg_operation_honest (SetIsolation l) d s s' r Hs Hrun).
  - intros sql d s s' r Hs Hrun. exact (pg_operation_honest (ExecuteQuery sql) d s s' r Hs Hrun).
Defined.
End Postgres.

(** ** A connection over a PostgreSQL session *)

Definition sample_pg : BackendSession (Session Chunks) :=
  pg_backend 1000 PostgreSQL no_floats text_type text_type as_text native_as_text.
#[local] Existing Instance sample_pg.
Definition sample_pg_honest : HonestSession (Session Chunks) :=
  pg_honest 1000 PostgreSQL no_floats text_type text_type as_text native_as_text.
#[local] Existing Instance sample_pg_honest.

Definition all_caps : TransactionCapabilities := {| tx_supported := true; isolation_levels := fun _ => true |}.

Definition open_manual : OConn := with_autocommit false {|
  connected := true; autocommit := true; transaction_active := false; transaction_isolation := 2;
  transaction_isolation_explicit := false; access_mode := 0; metadata_id_default := false; quiet_mode := 0;
  connection_timeout_seconds := 0; login_timeout_seconds := 30; explicit_login_timeout := None;
  metadata_epoch := true; pending_input_identity := false; confirmed_read_only := false;
  query_timeout_default_seconds := 0 |}.

Definition tagged (tag status : bytes) : bytes := frame (ch "C") (cstring tag) ++ frame (ch "Z") status.

(** The server answers the implicit [BEGIN], then the statement, then the commit. *)
Definition manual_world : World (Session Chunks) :=
  {| oconn := open_manual;
     lease := Some (sample_session idle_conn
       [tagged (str "BEGIN") (str "T"); tagged (str "INSERT 0 1") (str "T"); tagged (str "COMMIT") (str "I")]) |}.

Definition not_cancelled : Cancellation := {| may_begin := true; may_dispatch := true; confirmed := false; retires := false |}.
Definition insert_op : list (Op * Z) := [(Execute (str "INSERT INTO t VALUES (1)") not_cancelled, 10)].

Definition after_insert : World (Session Chunks) := Eval vm_compute in
  perform_all all_caps 2 insert_op manual_world.
Definition after_insert_lease : Session Chunks := Eval vm_compute in
  match lease after_insert with Some b => b | None => sample_session idle_conn [] end.

Lemma manual_world_ok : bookkeeping manual_world.
Proof.
  split; [reflexivity|discriminate|discriminate|intros b [= <-]; reflexivity|intros b _ [= <-] _; reflexivity].
Qed.


Lemma after_insert_ok : bookkeeping after_insert.
Proof.
  split; [reflexivity|discriminate|reflexivity|intros b [= <-]; reflexivity|intros b _ [= <-] _; reflexivity].
Qed.

Definition committed : World (Session Chunks) * RETCODE * option Posted := Eval vm_compute in
  end_transaction false false 0 10 after_insert.

