(* ===== verification/Registry.v ===== *)
(** * The handle registry

    [HandleRegistry] ([odbc/odbc_handles.cpp]) and the entry points that make
    and free handles ([odbc/odbc_api.cpp]).  A handle is the address of its
    object, so the registry is the store of the objects: environments,
    connections below them, statements and explicit descriptors below a
    connection, the four implicit descriptors below a statement.  [std::map]
    is a finite map read in the order of its keys ([ordered_keys]).

    Allocation takes the addresses the allocator returns as arguments and does
    not fail.  Logging and the guard's timing are not modelled. *)

From stdpp Require Import sorting.
From S2P Require Import Prelude Digits Diagnostics CursorName PgSession OdbcTransaction.

Inductive HandleType := Environment | Connection | Statement | Descriptor.
#[export] Instance HandleType_eq_dec : EqDecision HandleType. Proof. solve_decision. Defined.

Definition handle_type_code (t : HandleType) : Z :=
  match t with Environment => 1 | Connection => 2 | Statement => 3 | Descriptor => 4 end.

Record Stmt := {
  conn_ : Z;
  needs_data : bool;
  sequence_pending : bool;
  parameter_result_cursor : bool;
  executed : bool;
  cursor_name : bytes;
  statement_id : Z;
  automatic_app_row : Z;
  automatic_app_param : Z;
  app_row : Z;
  app_param : Z;
  imp_row : Z;
  imp_param : Z
}.

Definition uses_descriptor (s : Stmt) (h : Z) : bool :=
  (h =? app_row s) || (h =? app_param s) || (h =? imp_row s) || (h =? imp_param s).

Definition with_app (row param : Z) (s : Stmt) : Stmt :=
  {| conn_ := conn_ s; needs_data := needs_data s; sequence_pending := sequence_pending s;
     parameter_result_cursor := parameter_result_cursor s; executed := executed s; cursor_name := cursor_name s;
     statement_id := statement_id s; automatic_app_row := automatic_app_row s;
     automatic_app_param := automatic_app_param s; app_row := row; app_param := param;
     imp_row := imp_row s; imp_param := imp_param s |}.

Definition with_cursor_name (name : bytes) (s : Stmt) : Stmt :=
  {| conn_ := conn_ s; needs_data := needs_data s; sequence_pending := sequence_pending s;
     parameter_result_cursor := parameter_result_cursor s; executed := executed s; cursor_name := name;
     statement_id := statement_id s; automatic_app_row := automatic_app_row s;
     automatic_app_param := automatic_app_param s; app_row := app_row s; app_param := app_param s;
     imp_row := imp_row s; imp_param := imp_param s |}.

Definition detach_descriptor (d : Z) (s : Stmt) : Stmt :=
  with_app (if app_row s =? d then automatic_app_row s else app_row s)
           (if app_param s =? d then automatic_app_param s else app_param s) s.

(** [automatic] is [is_automatically_allocated()], [describes] the statement an
    implementation row descriptor points back to (null when there is none). *)
Record Desc := { automatic : bool; describes : Z }.

Section Registry.
Context {B : Type} `{!BackendSession B}.

Inductive Body :=
| EnvBody (odbc_version : Z)
| ConnBody (w : World B)
| StmtBody (s : Stmt)
| DescBody (d : Desc).

Record Object := { body : Body; diag : Diagnostics }.
Record Entry := { object : Object; parent : Z }.

Definition get_type (o : Object) : HandleType :=
  match body o with
  | EnvBody _ => Environment | ConnBody _ => Connection | StmtBody _ => Statement | DescBody _ => Descriptor
  end.

Abbreviation Handles := (gmap Z Entry).

Definition ordered_keys (m : Handles) : list Z := merge_sort Z.le (map_to_list m).*1.

(** ** The operations of the registry *)

Definition register_handle (h : Z) (o : Object) (p : Z) (m : Handles) : Handles :=
  <[h := {| object := o; parent := p |}]> m.

Definition is_child (m : Handles) (p h : Z) : bool :=
  match m !! h with Some e => parent e =? p | None => false end.

Definition children (m : Handles) (p : Z) : list Z := filter (is_child m p) (ordered_keys m).

(** The recursion descends one kind of handle at a time, an environment, its
    connections, their statements and their descriptors: four levels. *)
Fixpoint collect_subtree (levels : nat) (h : Z) (st : Handles * list Object) : Handles * list Object :=
  match levels with
  | O => st
  | S levels =>
      let '(m, removed) := foldl (fun st c => collect_subtree levels c st) st (children st.1 h) in
      match m !! h with
      | None => (m, removed)
      | Some e => (delete h m, removed ++ [object e])
      end
  end.

Definition collect_subtree_locked (h : Z) (st : Handles * list Object) : Handles * list Object :=
  collect_subtree 4 h st.

Definition on_object (f : Object -> Object) (h : Z) (m : Handles) : Handles :=
  alter (fun e => {| object := f (object e); parent := parent e |}) h m.

Definition on_diag (f : Diagnostics -> Diagnostics) : Z -> Handles -> Handles :=
  on_object (fun o => {| body := body o; diag := f (diag o) |}).

Definition on_body (f : Body -> Body) : Z -> Handles -> Handles :=
  on_object (fun o => {| body := f (body o); diag := diag o |}).

Definition clear_describes (b : Body) : Body :=
  match b with DescBody d => DescBody {| automatic := automatic d; describes := 0 |} | b => b end.

(** [~ODBCStatement]: its row descriptor forgets it and its implicit
    descriptors are unregistered, by address. *)
Definition destroy_statement (s : Stmt) (m : Handles) : Handles :=
  let m := if imp_row s =? 0 then m else on_body clear_describes (imp_row s) m in
  foldl (fun m d => if d =? 0 then m else (collect_subtree_locked d (m, [])).1) m
    [automatic_app_row s; automatic_app_param s; imp_row s; imp_param s].

Definition destroy (removed : list Object) (m : Handles) : Handles :=
  foldl (fun m o => match body o with StmtBody s => destroy_statement s m | _ => m end) m removed.

Definition unregister_handle (h : Z) (m : Handles) : Handles :=
  let '(m, removed) := collect_subtree_locked h (m, []) in destroy removed m.

Definition unregister_children (p : Z) (m : Handles) : Handles :=
  let '(m, removed) := foldl (fun st c => collect_subtree_locked c st) (m, []) (children m p) in destroy removed m.

Definition has_children (m : Handles) (p : Z) : bool := negb (bool_decide (children m p = [])).

Definition has_type (m : Handles) (t : HandleType) (h : Z) : bool :=
  match m !! h with Some e => bool_decide (get_type (object e) = t) | None => false end.

Definition child_handles (m : Handles) (p : Z) (t : HandleType) : list Z := filter (has_type m t) (children m p).

Definition get_handle (m : Handles) (h : Z) : option Object := object <$> m !! h.

Definition get_statement (m : Handles) (h : Z) : option Stmt :=
  match get_handle m h with Some o => match body o with StmtBody s => Some s | _ => None end | None => None end.
Definition get_connection (m : Handles) (h : Z) : option (World B) :=
  match get_handle m h with Some o => match body o with ConnBody w => Some w | _ => None end | None => None end.
Definition get_descriptor (m : Handles) (h : Z) : option Desc :=
  match get_handle m h with Some o => match body o with DescBody d => Some d | _ => None end | None => None end.
Definition get_environment (m : Handles) (h : Z) : option Z :=
  match get_handle m h with Some o => match body o with EnvBody v => Some v | _ => None end | None => None end.

(** [get_connection_for_handle]: the address of the connection above a handle. *)
Fixpoint connection_above (levels : nat) (m : Handles) (h : Z) : option Z :=
  match levels with
  | O => None
  | S levels =>
      if h =? 0 then None
      else match m !! h with
           | None => None
           | Some e => match get_type (object e) with
                       | Connection => Some h
                       | _ => connection_above levels m (parent e)
                       end
           end
  end.
Definition get_connection_for_handle (m : Handles) (h : Z) : option Z := connection_above 4 m h.

Definition detach_body (d : Z) (b : Body) : Body :=
  match b with StmtBody s => StmtBody (detach_descriptor d s) | b => b end.

Definition detach_descriptor_from_statements (d : Z) (m : Handles) : Handles :=
  match m !! d with
  | None => m
  | Some e => foldl (fun m h => on_body (detach_body d) h m) m (child_handles m (parent e) Statement)
  end.

(** [has_pending_input] and [has_pending_result_sequence] of a connection. *)
Definition statements_of (m : Handles) (c : Z) : list Stmt :=
  omap (get_statement m) (child_handles m c Statement).
Definition has_pending_input (m : Handles) (c : Z) : bool := existsb needs_data (statements_of m c).
Definition has_pending_result_sequence (m : Handles) (c : Z) : bool := existsb sequence_pending (statements_of m c).

(** ** The sequence table of calls a statement that needs data refuses *)

Definition statement_calls : list bytes := map str
  ["SQLBulkOperations"; "SQLBindCol"; "SQLBindParameter"; "SQLColAttribute"; "SQLColAttributeW"; "SQLColAttributes";
   "SQLColAttributesW"; "SQLCloseCursor"; "SQLColumns"; "SQLColumnsW"; "SQLDescribeCol";
   "SQLDescribeColW"; "SQLDescribeParam"; "SQLExecDirect"; "SQLExecDirectW"; "SQLExecute";
   "SQLFetch"; "SQLFetchScroll"; "SQLFreeStmt"; "SQLGetData"; "SQLGetStmtAttr"; "SQLGetStmtAttrW";
   "SQLGetStmtOption"; "SQLGetTypeInfo"; "SQLMoreResults"; "SQLNumParams"; "SQLNumResultCols"; "SQLRowCount";
   "SQLGetCursorName"; "SQLGetCursorNameW"; "SQLSetCursorName"; "SQLSetCursorNameW";
   "SQLPrepare"; "SQLPrepareW"; "SQLPrimaryKeys"; "SQLPrimaryKeysW"; "SQLForeignKeys"; "SQLForeignKeysW"; "SQLProcedures";
   "SQLProceduresW"; "SQLProcedureColumns"; "SQLProcedureColumnsW"; "SQLSetPos";
   "SQLSpecialColumns"; "SQLSpecialColumnsW"; "SQLStatistics"; "SQLStatisticsW"]%string.

Definition cursor_calls : list bytes := map str
  ["SQLPrepare"; "SQLPrepareW"; "SQLExecute"; "SQLExecDirect"; "SQLExecDirectW"; "SQLGetTypeInfo";
   "SQLColumns"; "SQLColumnsW"; "SQLTables"; "SQLTablesW"; "SQLPrimaryKeys"; "SQLPrimaryKeysW"; "SQLForeignKeys";
   "SQLForeignKeysW"; "SQLProcedures"; "SQLProceduresW"; "SQLProcedureColumns"; "SQLProcedureColumnsW";
   "SQLSpecialColumns"; "SQLSpecialColumnsW"; "SQLStatistics"; "SQLStatisticsW"]%string.

Definition connection_calls : list bytes := map str
  ["SQLDisconnect"; "SQLSetConnectAttr"; "SQLSetConnectAttrW"; "SQLSetConnectOption"; "SQLSetConnectOptionW"]%string.

Definition called (name : bytes) (calls : list bytes) : bool := existsb (beq name) calls.

(** Why a handle of the call refuses it. *)
Inductive Refusal := NeedsData | CursorOpen.

Definition refusal (m : Handles) (name : bytes) (h : Z) : option Refusal :=
  match get_handle m h with
  | None => None
  | Some o =>
      match body o with
      | StmtBody s =>
          if needs_data s && called name statement_calls then Some NeedsData
          else if parameter_result_cursor s && called name cursor_calls then Some CursorOpen
          else None
      | DescBody _ =>
          if starts_with name (str "SQLGetDesc") || starts_with name (str "SQLSetDesc") || beq name (str "SQLCopyDesc") then
            match get_connection_for_handle m h with
            | None => None
            | Some c =>
                if existsb (fun s => needs_data s && uses_descriptor s h) (statements_of m c) then Some NeedsData else None
            end
          else None
      | ConnBody _ => if called name connection_calls && has_pending_input m h then Some NeedsData else None
      | EnvBody _ => None
      end
  end.

Fixpoint first_refusal (m : Handles) (name : bytes) (hs : list Z) : option Refusal :=
  match hs with
  | [] => None
  | h :: hs => match refusal m name h with Some x => Some x | None => first_refusal m name hs end
  end.

Definition diagnostic_call (name : bytes) : bool :=
  beq name [] || starts_with name (str "SQLGetDiag") || beq name (str "SQLError") || beq name (str "SQLErrorW").

Definition post (state message : bytes) (h : Z) (m : Handles) : Handles := on_diag (set_error state message 0) h m.

Definition admit_need_data (hs : list Z) (name : bytes) (diagnostic : Z) (m : Handles) : Handles * bool :=
  if diagnostic_call name then (m, true)
  else match first_refusal m name hs with
       | None => (m, true)
       | Some NeedsData =>
           (post (str "HY010") (str "Statement needs parameter data") diagnostic
              (on_diag clear_diagnostics diagnostic m), false)
       | Some CursorOpen =>
           (post (str "24000") (str "Parameter result cursor is open") diagnostic m, false)
       end.

(** ** Removing a subtree *)

(** [x] is [h] or a registered handle somewhere below it. *)
Inductive under (m : Handles) (h : Z) : Z -> Prop :=
| under_self : under m h h
| under_child x e : m !! x = Some e -> under m h (parent e) -> under m h x.

Definition rank (o : Object) : nat :=
  match get_type o with Environment => 0 | Connection => 1 | Statement => 2 | Descriptor => 3 end.

(** The parent of a handle is a handle of an earlier kind. *)
Definition ranked (m : Handles) : Prop :=
  forall x e p, m !! x = Some e -> m !! (parent e) = Some p -> (rank (object p) < rank (object e))%nat.

Definition removes (m : Handles) (h : Z) (m' : Handles) : Prop :=
  (forall x, under m h x -> m' !! x = None) /\ (forall x, ~ under m h x -> m' !! x = m !! x).

Lemma rank_bound o : (rank o <= 3)%nat.
Proof. unfold rank. destruct (get_type o); lia. Qed.

Lemma ranked_sub m m' : m' ⊆ m -> ranked m -> ranked m'.
Proof. intros Hs Hr x e p Hx Hp. eapply Hr; [by eapply lookup_weaken..]. Qed.

Lemma under_mono m m' h x : m' ⊆ m -> under m' h x -> under m h x.
Proof. intros Hs. induction 1 as [|x e Hx _ IH]; [constructor|]. eapply under_child; [by eapply lookup_weaken|done]. Qed.

Lemma under_trans m a b c : under m a b -> under m b c -> under m a c.
Proof. intros Hab. induction 1 as [|x e Hx _ IH]; [done|]. by eapply under_child. Qed.

Lemma under_dec m h x : ranked m -> under m h x \/ ~ under m h x.
Proof.
  intros Hr.
  enough (forall n x, (forall e, m !! x = Some e -> (rank (object e) < n)%nat) -> under m h x \/ ~ under m h x) as H.
  { apply (H 4%nat). intros e _. pose proof (rank_bound (object e)). lia. }
  induction n as [|n IH]; intros y Hy.
  - destruct (decide (y = h)) as [->|Hne]; [left; constructor|]. right. inversion 1 as [|? e Hx]; simplify_eq.
    specialize (Hy e Hx). lia.
  - destruct (decide (y = h)) as [->|Hne]; [left; constructor|].
    destruct (m !! y) as [e|] eqn:Ey.
    + destruct (IH (parent e)) as [Hu|Hu].
      * intros p Hp. specialize (Hy e eq_refl). specialize (Hr y e p Ey Hp). lia.
      * left. by eapply under_child.
      * right. inversion 1; by simplify_eq.
    + right. inversion 1; by simplify_eq.
Qed.

Lemma exists_under_dec m (cs : list Z) x :
  ranked m -> (exists c, c ∈ cs /\ under m c x) \/ ~ (exists c, c ∈ cs /\ under m c x).
Proof.
  intros Hr. induction cs as [|c cs IH]; [right; by intros (c & Hc%elem_of_nil & _)|].
  destruct (under_dec m c x Hr) as [Hu|Hu]; [left; exists c; split; [by left|done]|].
  destruct IH as [(d & Hd & Hux)|Hn]; [left; exists d; split; [by right|done]|].
  right. intros (d & Hd & Hux). apply elem_of_cons in Hd as [->|Hd]; [done|]. apply Hn. by exists d.
Qed.

(** A handle is below another exactly when it is the other or below one of its children. *)
Lemma under_children m h x :
  under m h x <-> x = h \/ exists c e, m !! c = Some e /\ parent e = h /\ under m c x.
Proof.
  split.
  - induction 1 as [|x e Hx Hu IH]; [by left|]. right. destruct IH as [Hp|(c & ec & Hc & Hpc & Hcx)].
    + exists x, e. split_and!; [done..|constructor].
    + exists c, ec. split_and!; [done..|]. by eapply under_child.
  - intros [->|(c & e & Hc & Hp & Hu)]; [constructor|]. eapply under_trans; [|done].
    eapply under_child; [done|]. rewrite Hp. constructor.
Qed.

Lemma removes_sub m h m' : ranked m -> removes m h m' -> m' ⊆ m.
Proof.
  intros Hr [H1 H2]. apply map_subseteq_spec. intros x e Hx.
  destruct (under_dec m h x Hr) as [Hu|Hu]; [by rewrite (H1 x Hu) in Hx|]. by rewrite <- (H2 x Hu).
Qed.

(** Removing some subtrees leaves the others as they were. *)
Lemma under_after m m' (P : Z -> Prop) h x :
  (forall y, P y -> m' !! y = None) -> (forall y, ~ P y -> m' !! y = m !! y) ->
  (forall y e, m !! y = Some e -> P (parent e) -> P y) ->
  ~ P x -> under m h x -> under m' h x.
Proof.
  intros H1 H2 Hdown Hx Hu. induction Hu as [|x e He _ IH]; [constructor|].
  eapply under_child; [by rewrite H2|]. apply IH. intros Hp. by apply Hx, (Hdown x e).
Qed.

Lemma elem_of_ordered_keys m x : x ∈ ordered_keys m <-> is_Some (m !! x).
Proof.
  unfold ordered_keys. rewrite merge_sort_Permutation. rewrite list_elem_of_fmap. split.
  - intros ([y e] & -> & Hin). apply elem_of_map_to_list in Hin. by exists e.
  - intros [e He]. exists (x, e). split; [done|]. by apply elem_of_map_to_list.
Qed.

Lemma NoDup_ordered_keys m : NoDup (ordered_keys m).
Proof. unfold ordered_keys. rewrite merge_sort_Permutation. apply NoDup_fst_map_to_list. Qed.

Lemma elem_of_children m p x : x ∈ children m p <-> exists e, m !! x = Some e /\ parent e = p.
Proof.
  unfold children, is_child. rewrite list_elem_of_filter, elem_of_ordered_keys. split.
  - intros [Hc [e He]]. rewrite He in Hc. exists e. split; [done|]. apply Is_true_true, Z.eqb_eq in Hc. done.
  - intros (e & He & Hp). rewrite He. split; [|done]. apply Is_true_true, Z.eqb_eq. done.
Qed.

Lemma NoDup_children m p : NoDup (children m p).
Proof. apply list.NoDup_filter, NoDup_ordered_keys. Qed.

(** The fold over a list of handles with disjoint subtrees. *)
Lemma collect_list_spec n (cs : list Z) m acc :
  (forall c m acc e, ranked m -> m !! c = Some e -> (4 - rank (object e) <= n)%nat ->
     removes m c (collect_subtree n c (m, acc)).1) ->
  ranked m -> NoDup cs ->
  (forall c, c ∈ cs -> exists e, m !! c = Some e /\ (4 - rank (object e) <= n)%nat) ->
  (forall c d, c ∈ cs -> d ∈ cs -> under m c d -> c = d) ->
  let m' := (foldl (fun st c => collect_subtree n c st) (m, acc) cs).1 in
  (forall x, (exists c, c ∈ cs /\ under m c x) -> m' !! x = None) /\
  (forall x, ~ (exists c, c ∈ cs /\ under m c x) -> m' !! x = m !! x).
Proof.
  intros IH. revert m acc. induction cs as [|c cs IHcs]; intros m acc Hr Hnd Hreg Hdis; cbn [foldl].
  { split; [intros x (c & Hc & _); by apply elem_of_nil in Hc|done]. }
  apply list.NoDup_cons in Hnd as [Hc Hnd].
  destruct (Hreg c) as (e & He & Hle); [by left|].
  pose proof (IH c m acc e Hr He Hle) as [R1 R2].
  destruct (collect_subtree n c (m, acc)) as [m1 acc1]. cbn [fst] in R1, R2.
  assert (m1 ⊆ m) as Hsub by (by apply (removes_sub m c)).
  assert (forall d x, d ∈ cs -> ~ under m c x -> under m d x -> under m1 d x) as Hkeep.
  { intros d x _ Hx Hu. eapply (under_after m m1 (under m c)); [done..| |done|done].
    intros y ey Hy Hp. by eapply under_child. }
  destruct (IHcs m1 acc1) as [S1 S2].
  - by eapply ranked_sub.
  - done.
  - intros d Hd. destruct (Hreg d) as (ed & Hed & Hled); [by right|]. exists ed. split; [|done].
    rewrite R2; [done|]. intros Hu. assert (c = d) as -> by (apply Hdis; [by left|by right|done]). done.
  - intros d d' Hd Hd' Hu. apply Hdis; [by right|by right|]. by eapply under_mono.
  - split.
    + intros x Hx. destruct (exists_under_dec m1 cs x) as [H1|H1]; [by eapply ranked_sub|by apply S1|].
      rewrite S2 by done. destruct Hx as (d & Hd & Hu). destruct (under_dec m c x Hr) as [Hc'|Hc']; [by apply R1|].
      exfalso. apply elem_of_cons in Hd as [->|Hd]; [done|]. apply H1. exists d. split; [done|]. by apply Hkeep.
    + intros x Hx. rewrite S2, R2; [done|..].
      * intros Hu. apply Hx. exists c. split; [by left|done].
      * intros (d & Hd & Hu). apply Hx. exists d. split; [by right|]. by eapply under_mono.
Qed.

Lemma ranked_chain m a b ea eb :
  ranked m -> under m a b -> m !! a = Some ea -> m !! b = Some eb -> (rank (object ea) <= rank (object eb))%nat.
Proof.
  intros Hr Hu Ha. revert eb. induction Hu as [|x e Hx Hu IH]; intros eb Hb; [by simplify_eq|].
  assert (eb = e) as -> by congruence. destruct (m !! parent e) as [p|] eqn:Hp.
  - specialize (IH p eq_refl). specialize (Hr x e p Hx Hp). lia.
  - inversion Hu; by simplify_eq.
Qed.

(** Two children of one handle are below each other only when they are the same. *)
Lemma children_apart m h c d ec ed :
  ranked m -> m !! c = Some ec -> m !! d = Some ed -> parent ec = h -> parent ed = h -> is_Some (m !! h) ->
  under m c d -> c = d.
Proof.
  intros Hr Hc Hd Hpc Hpd [eh Hh] Hu. inversion Hu as [|? e He Hup]; subst; [done|]. simplify_eq. rewrite Hpd in Hup.
  pose proof (Hr c ec eh Hc Hh). pose proof (ranked_chain m c _ ec eh Hr Hup Hc Hh). lia.
Qed.

Lemma collect_subtree_spec n h m acc e :
  ranked m -> m !! h = Some e -> (4 - rank (object e) <= n)%nat ->
  removes m h (collect_subtree n h (m, acc)).1.
Proof.
  revert h m acc e. induction n as [|n IH]; intros h m acc e Hr Hh Hn.
  { pose proof (rank_bound (object e)). lia. }
  cbn [collect_subtree fst].
  pose proof (collect_list_spec n (children m h) m acc IH Hr (NoDup_children m h)) as Hfold.
  destruct Hfold as [F1 F2].
  { intros c (ec & Hc & Hp)%elem_of_children. exists ec. split; [done|].
    specialize (Hr c ec e Hc). rewrite Hp in Hr. specialize (Hr Hh). lia. }
  { intros c d (ec & Hc & Hpc)%elem_of_children (ed & Hd & Hpd)%elem_of_children.
    by eapply (children_apart m h). }
  destruct (foldl _ _ _) as [m1 acc1]. cbn [fst] in F1, F2 |- *.
  assert (forall x, (exists c, c ∈ children m h /\ under m c x) <-> exists c ec, m !! c = Some ec /\ parent ec = h /\ under m c x)
    as Hch.
  { intros x. split; [intros (c & (ec & ? & ?)%elem_of_children & Hu); by exists c, ec|].
    intros (c & ec & ? & ? & ?). exists c. split; [|done]. apply elem_of_children. by exists ec. }
  assert (m1 !! h = Some e) as Hh1.
  { rewrite F2; [done|]. rewrite Hch. intros (c & ec & Hc & Hp & Hu).
    pose proof (ranked_chain m c h ec e Hr Hu Hc Hh). specialize (Hr c ec e Hc). rewrite Hp in Hr. specialize (Hr Hh). lia. }
  rewrite Hh1. cbn [fst]. split.
  - intros x Hu. apply under_children in Hu as [->|Hu]; [apply lookup_delete_eq|].
    apply lookup_delete_None. right. apply F1. by apply Hch.
  - intros x Hu. rewrite under_children in Hu. rewrite lookup_delete_ne by (intros ->; apply Hu; by left).
    apply F2. rewrite Hch. tauto.
Qed.
End Registry.
