(* ===== verification/HandleApi.v ===== *)
(** * The life of handles

    The entry points that make, associate, name and free handles
    ([odbc/odbc_api.cpp], [odbc/odbc_handles.cpp]) over the registry, and what
    holds of every registry they produce: the handles form the tree ODBC
    describes, the descriptors a statement names are registered, and the
    cursors of a connection have different names. *)

From S2P Require Import Prelude Digits Diagnostics CursorName PgSession OdbcTransaction Registry.

(** The addresses the allocator returns for a new object and, for a statement,
    for its four implicit descriptors. *)
Record Addresses := { a_object : Z; a_row : Z; a_param : Z; a_imp_row : Z; a_imp_param : Z }.

Definition all_addresses (a : Addresses) : list Z := [a_object a; a_row a; a_param a; a_imp_row a; a_imp_param a].

Section Api.
Context {B : Type} `{!BackendSession B}.
Abbreviation Handles := (gmap Z (Entry (B := B))).

(** The registry and the counter [next_statement_id]. *)
Record Driver := { handles : Handles; next_statement_id : Z }.

Definition with_handles (m : Handles) (d : Driver) : Driver :=
  {| handles := m; next_statement_id := next_statement_id d |}.

Definition new_object (b : Body) : Object (B := B) := {| body := b; diag := new_diagnostics |}.

(** [ODBCStatement(conn)] at the address [a_object a]: the four implicit
    descriptors are registered below it before it is itself. *)
Definition new_statement (a : Addresses) (c id : Z) : Stmt :=
  {| conn_ := c; needs_data := false; sequence_pending := false; parameter_result_cursor := false;
     executed := false; cursor_name := []; statement_id := id; automatic_app_row := a_row a;
     automatic_app_param := a_param a; app_row := a_row a; app_param := a_param a;
     imp_row := a_imp_row a; imp_param := a_imp_param a |}.

Definition implicit_descriptor (describes : Z) : Object (B := B) :=
  new_object (DescBody {| automatic := true; describes := describes |}).

Definition register_implicit (a : Addresses) (m : Handles) : Handles :=
  register_handle (a_imp_param a) (implicit_descriptor 0) (a_object a)
    (register_handle (a_imp_row a) (implicit_descriptor (a_object a)) (a_object a)
       (register_handle (a_param a) (implicit_descriptor 0) (a_object a)
          (register_handle (a_row a) (implicit_descriptor 0) (a_object a) m))).

Definition get_valid (h : Z) (m : Handles) : Handles := on_diag clear_diagnostics h m.

Definition SQLAllocHandle (out_null : bool) (handle_type input : Z) (a : Addresses) (d : Driver)
  : Driver * RETCODE * Z :=
  let m := handles d in
  if out_null then
    (with_handles (if input =? 0 then m
                   else post (str "HY009") (str "Output handle pointer is null") input (on_diag clear_diagnostics input m)) d,
     RET_ERROR, 0)
  else if (handle_type =? 1) && negb (input =? 0) then (d, RET_INVALID_HANDLE, 0)
  else
    let m := if input =? 0 then m else on_diag clear_diagnostics input m in
    let d := with_handles m d in
    let made o := (with_handles (register_handle (a_object a) o input m) d, RET_SUCCESS, a_object a) in
    let fail state message := (with_handles (post state message input m) d, RET_ERROR, 0) in
    if handle_type =? 1 then made (new_object (EnvBody 0))
    else if handle_type =? 2 then
      match get_environment m input with
      | None => (d, RET_INVALID_HANDLE, 0)
      | Some version =>
          if version =? 0
          then fail (str "HY010") (str "ODBC version must be set before allocating a connection")
          else made (new_object (ConnBody {| oconn := initial_oconn; lease := None |}))
      end
    else if handle_type =? 3 then
      match get_connection m input with
      | None => (d, RET_INVALID_HANDLE, 0)
      | Some w =>
          if negb (connected (oconn w)) then fail (str "08003") (str "Connection is not open")
          else
            let m := register_implicit a m in
            let s := new_statement a input (next_statement_id d) in
            ({| handles := register_handle (a_object a) (new_object (StmtBody s)) input m;
                next_statement_id := next_statement_id d + 1 |}, RET_SUCCESS, a_object a)
      end
    else if handle_type =? 4 then
      match get_connection m input with
      | None => (d, RET_INVALID_HANDLE, 0)
      | Some w =>
          if negb (connected (oconn w)) then fail (str "08003") (str "Connection is not open")
          else made (new_object (DescBody {| automatic := false; describes := 0 |}))
      end
    else
      (with_handles (if input =? 0 then m else post (str "HY092") (str "Invalid handle type") input m) d, RET_ERROR, 0).

Definition SQLFreeHandle (handle_type h : Z) (d : Driver) : Driver * RETCODE :=
  let m := handles d in
  if h =? 0 then (d, RET_INVALID_HANDLE)
  else match get_handle m h with
  | None => (d, RET_INVALID_HANDLE)
  | Some o =>
      if negb (handle_type_code (get_type o) =? handle_type) then (d, RET_INVALID_HANDLE)
      else
        let m := on_diag clear_diagnostics h m in
        let fail state message := (with_handles (post state message h m) d, RET_ERROR) in
        let free m := (with_handles (unregister_handle h m) d, RET_SUCCESS) in
        match body o with
        | StmtBody s => if needs_data s then fail (str "HY010") (str "Statement needs parameter data") else free m
        | DescBody desc =>
            if automatic desc then fail (str "HY017") (str "Implicit descriptor handles cannot be freed")
            else free (detach_descriptor_from_statements h m)
        | ConnBody w =>
            if connected (oconn w)
            then fail (str "HY010") (str "Connected handles must be disconnected before they are freed")
            else if has_children m h
            then fail (str "HY010") (str "Dependent handles must be released before their parent handle")
            else free m
        | EnvBody _ =>
            if has_children m h
            then fail (str "HY010") (str "Dependent handles must be released before their parent handle")
            else free m
        end
  end.

(** [SQLFreeStmt(SQL_DROP)]. *)
Definition SQLFreeStmt_drop (h : Z) (d : Driver) : Driver * RETCODE :=
  match get_statement (handles d) h with
  | None => (d, RET_INVALID_HANDLE)
  | Some _ => (with_handles (unregister_handle h (get_valid h (handles d))) d, RET_SUCCESS)
  end.

Definition post_backend (posted : option Posted) (h : Z) (m : Handles) : Handles :=
  match posted with
  | None => m
  | Some (State s) => post s [] h m
  | Some (FromBackend _) => post (str "HY000") [] h m
  end.

Definition set_world (w : World B) (h : Z) (m : Handles) : Handles :=
  on_body (fun b => match b with ConnBody _ => ConnBody w | b => b end) h m.

Definition SQLDisconnect (h : Z) (d : Driver) : Driver * RETCODE :=
  match get_connection (handles d) h with
  | None => (d, RET_INVALID_HANDLE)
  | Some w =>
      let m := get_valid h (handles d) in
      let '(w, code, posted) := disconnect (has_pending_input m h) w in
      let m := post_backend posted h (set_world w h m) in
      (with_handles (if bool_decide (code = RET_SUCCESS) then unregister_children h m else m) d, code)
  end.

(** [set_application_descriptor]; [row] tells the two attributes apart. *)
Definition set_application_descriptor (row : bool) (descriptor h : Z) (d : Driver) : Driver * RETCODE :=
  match get_statement (handles d) h with
  | None => (d, RET_INVALID_HANDLE)
  | Some s =>
      let m := get_valid h (handles d) in
      let auto := if row then automatic_app_row s else automatic_app_param s in
      let set x := (with_handles (on_body (fun b => match b with
                      | StmtBody s => StmtBody (if row then with_app x (app_param s) s else with_app (app_row s) x s)
                      | b => b end) h m) d, RET_SUCCESS) in
      let fail state message := (with_handles (post state message h m) d, RET_ERROR) in
      if (descriptor =? 0) || (descriptor =? auto) then set auto
      else match get_descriptor m descriptor with
           | None => fail (str "HY024") (str "Application descriptor handle is invalid")
           | Some candidate =>
               if automatic candidate then fail (str "HY017") (str "A different implicit descriptor cannot be associated")
               else if negb (bool_decide (get_connection_for_handle m descriptor = Some (conn_ s)))
               then fail (str "HY024") (str "Application descriptor belongs to another connection")
               else set descriptor
           end
  end.

Definition name_of (s : Stmt) : bytes := get_cursor_name (cursor_name s) (statement_id s).

Definition set_cursor_name (name : bytes) (h : Z) (d : Driver) : Driver * RETCODE :=
  match get_statement (handles d) h with
  | None => (d, RET_INVALID_HANDLE)
  | Some s =>
      let m := get_valid h (handles d) in
      let fail state message := (with_handles (post state message h m) d, RET_ERROR) in
      if negb (is_valid_cursor_name name)
      then fail (str "34000") (str "Cursor name contains invalid characters, reserved prefix, or is empty/too long")
      else if executed s
      then fail (str "24000") (str "Cursor name cannot be set while the statement is in an executed or cursor-positioned state")
      else if existsb (fun sibling => negb (sibling =? h) &&
                         match get_statement m sibling with
                         | None => false
                         | Some s' => cursor_names_conflict name (name_of s')
                         end) (child_handles m (conn_ s) Statement)
      then fail (str "3C000") (str "Cursor name is already in use by another statement")
      else (with_handles (on_body (fun b => match b with StmtBody s => StmtBody (with_cursor_name name s) | b => b end) h m) d,
            RET_SUCCESS)
  end.

(** [SQLSetEnvAttr(SQL_ATTR_ODBC_VERSION)]. *)
Definition set_odbc_version (version h : Z) (d : Driver) : Driver * RETCODE :=
  match get_environment (handles d) h with
  | None => (d, RET_INVALID_HANDLE)
  | Some _ =>
      let m := get_valid h (handles d) in
      let fail state message := (with_handles (post state message h m) d, RET_ERROR) in
      if has_children m h then fail (str "HY010") (str "ODBC version cannot change after a connection is allocated")
      else if negb (version =? 2) && negb (version =? 3) && negb (version =? 380)
      then fail (str "HY024") (str "Unsupported ODBC version")
      else (with_handles (on_body (fun b => match b with EnvBody _ => EnvBody version | b => b end) h m) d, RET_SUCCESS)
  end.

(** [invoke_c_api_with_handles] without its locks: the guard, the call and the
    return code kept for [SQLGetDiagField]. *)
Definition invoke (diagnostic : Z) (hs : list Z) (name : bytes) (call : Driver -> Driver * RETCODE) (d : Driver)
  : Driver * RETCODE :=
  let '(m, admitted) := admit_need_data hs name diagnostic (handles d) in
  let d := with_handles m d in
  let '(d, code) := if admitted then call d else (d, RET_ERROR) in
  (if diagnostic =? 0 then d else with_handles (on_diag (set_last_return_code code) diagnostic (handles d)) d, code).

(** The calls an application makes; [Other] stands for the calls modelled
    elsewhere, which work on the state of one object. *)
Inductive Call :=
| AllocHandle (out_null : bool) (handle_type input : Z) (a : Addresses)
| FreeHandle (handle_type h : Z)
| DropStatement (h : Z)
| DisconnectHandle (h : Z)
| SetDescriptor (row : bool) (descriptor h : Z)
| SetCursorName (name : bytes) (h : Z)
| SetVersion (version h : Z)
| Other (h : Z) (f : Object (B := B) -> Object (B := B)).

Definition perform_call (c : Call) (d : Driver) : Driver * RETCODE :=
  match c with
  | AllocHandle out_null ty input a => invoke input [input] (str "SQLAllocHandle") (fun d => (SQLAllocHandle out_null ty input a d).1) d
  | FreeHandle ty h => invoke h [h] (str "SQLFreeHandle") (SQLFreeHandle ty h) d
  | DropStatement h => invoke h [h] (str "SQLFreeStmt") (SQLFreeStmt_drop h) d
  | DisconnectHandle h => invoke h [h] (str "SQLDisconnect") (SQLDisconnect h) d
  | SetDescriptor row x h => invoke h [h] (str "SQLSetStmtAttr") (set_application_descriptor row x h) d
  | SetCursorName name h => invoke h [h] (str "SQLSetCursorName") (set_cursor_name name h) d
  | SetVersion v h => invoke h [h] (str "SQLSetEnvAttr") (set_odbc_version v h) d
  | Other h f => (with_handles (on_object f h (handles d)) d, RET_SUCCESS)
  end.
End Api.
