(* ===== verification/HandleLayout.v ===== *)
(** * The handles of a driver are well laid out

    The invariant of HandleApi.v.  What it speaks of is the skeleton of the
    registry: the parent and the kind of each handle and, of a statement, its
    connection, its descriptors and its cursor name.  Most operations leave the
    skeleton alone; the others add a handle, remove a subtree, or change one
    statement. *)

From S2P Require Import Prelude Digits Diagnostics CursorName PgSession OdbcTransaction Registry HandleApi.

(** A statement without the fields other operations change. *)
Definition bare (s : Stmt) : Stmt :=
  {| conn_ := conn_ s; needs_data := false; sequence_pending := false; parameter_result_cursor := false;
     executed := false; cursor_name := cursor_name s; statement_id := statement_id s;
     automatic_app_row := automatic_app_row s; automatic_app_param := automatic_app_param s;
     app_row := app_row s; app_param := app_param s; imp_row := imp_row s; imp_param := imp_param s |}.

Inductive Kind := KEnv | KConn | KStmt (s : Stmt) | KDesc (automatic : bool).
Abbreviation Skeleton := (gmap Z (Z * Kind)).

Definition implicit_of (s : Stmt) : list Z := [automatic_app_row s; automatic_app_param s; imp_row s; imp_param s].

Lemma implicit_members s :
  automatic_app_row s ∈ implicit_of s /\ automatic_app_param s ∈ implicit_of s /\
  imp_row s ∈ implicit_of s /\ imp_param s ∈ implicit_of s.
Proof. unfold implicit_of. set_solver. Qed.

Record layout (k : Skeleton) (next : Z) : Prop := {
  null_free : k !! 0 = None;
  env_root h p : k !! h = Some (p, KEnv) -> p = 0;
  conn_parent h p : k !! h = Some (p, KConn) -> exists q, k !! p = Some (q, KEnv);
  stmt_parent h p s : k !! h = Some (p, KStmt s) -> conn_ s = p /\ exists q, k !! p = Some (q, KConn);
  desc_parent h p auto : k !! h = Some (p, KDesc auto) ->
    if auto then exists q s, k !! p = Some (q, KStmt s) else exists q, k !! p = Some (q, KConn);
  implicit_there h p s d : k !! h = Some (p, KStmt s) -> d ∈ implicit_of s -> k !! d = Some (h, KDesc true);
  app_row_there h p s : k !! h = Some (p, KStmt s) ->
    app_row s = automatic_app_row s \/ k !! app_row s = Some (p, KDesc false);
  app_param_there h p s : k !! h = Some (p, KStmt s) ->
    app_param s = automatic_app_param s \/ k !! app_param s = Some (p, KDesc false);
  id_below h p s : k !! h = Some (p, KStmt s) -> 0 <= statement_id s < next;
  name_valid h p s : k !! h = Some (p, KStmt s) -> cursor_name s = [] \/ is_valid_cursor_name (cursor_name s) = true;
  names_apart h h' p s s' : k !! h = Some (p, KStmt s) -> k !! h' = Some (p, KStmt s') -> h <> h' ->
    cursor_identity (name_of s) <> cursor_identity (name_of s');
  ids_apart h h' p p' s s' : k !! h = Some (p, KStmt s) -> k !! h' = Some (p', KStmt s') -> h <> h' ->
    statement_id s <> statement_id s'
}.

(** ** Changes of a skeleton *)

(** Removing handles of which no remaining handle is a child, nor a remaining
    statement has a descriptor among them. *)
Lemma layout_remove k k' next (X : Z -> Prop) :
  layout k next ->
  (forall x, X x -> k' !! x = None) -> (forall x, ~ X x -> k' !! x = k !! x) -> (forall x, X x \/ ~ X x) ->
  (forall h p t, k !! h = Some (p, t) -> ~ X h -> p <> 0 -> ~ X p) ->
  (forall h p s, k !! h = Some (p, KStmt s) -> ~ X h ->
     ~ X (app_row s) /\ ~ X (app_param s) /\ forall d, d ∈ implicit_of s -> ~ X d) ->
  layout k' next.
Proof.
  intros HL Hin Hout Hdec Hpar Hst.
  assert (forall h v, k' !! h = Some v -> k !! h = Some v /\ ~ X h) as Hback.
  { intros h v Hh. destruct (Hdec h) as [Hx|Hx]; [by rewrite Hin in Hh|]. by rewrite <- Hout. }
  assert (forall h p t v, k' !! h = Some (p, t) -> k !! p = Some v -> k' !! p = Some v) as Hup.
  { intros h p t v Hh Hp. destruct (Hback _ _ Hh) as [Hk Hx]. rewrite Hout; [done|].
    eapply Hpar; [done..|]. intros ->. by rewrite (null_free k next HL) in Hp. }
  split.
  - destruct (k' !! 0) as [v|] eqn:E; [|done]. apply Hback in E as [E _]. by rewrite (null_free k next HL) in E.
  - intros h p [Hh _]%Hback. by eapply env_root.
  - intros h p Hh. destruct (conn_parent k next HL h p) as [q Hq]; [by apply Hback|]. exists q. by eapply Hup.
  - intros h p s Hh. destruct (stmt_parent k next HL h p s) as [Hc [q Hq]]; [by apply Hback|].
    split; [done|]. exists q. by eapply Hup.
  - intros h p auto Hh. pose proof (desc_parent k next HL h p auto) as H. destruct auto.
    + destruct H as (q & s & Hq); [by apply Hback|]. exists q, s. by eapply Hup.
    + destruct H as (q & Hq); [by apply Hback|]. exists q. by eapply Hup.
  - intros h p s d Hh Hd. destruct (Hback _ _ Hh) as [Hk Hx]. rewrite Hout; [by eapply implicit_there|].
    destruct (Hst h p s Hk Hx) as (_ & _ & Hi). by apply Hi.
  - intros h p s Hh. destruct (Hback _ _ Hh) as [Hk Hx]. destruct (app_row_there k next HL h p s Hk); [by left|right].
    rewrite Hout; [done|]. by destruct (Hst h p s Hk Hx) as (Hi & _).
  - intros h p s Hh. destruct (Hback _ _ Hh) as [Hk Hx]. destruct (app_param_there k next HL h p s Hk); [by left|right].
    rewrite Hout; [done|]. by destruct (Hst h p s Hk Hx) as (_ & Hi & _).
  - intros h p s [Hh _]%Hback. by eapply id_below.
  - intros h p s [Hh _]%Hback. by eapply name_valid.
  - intros h h' p s s' [Hh _]%Hback [Hh' _]%Hback. by eapply names_apart.
  - intros h h' p p' s s' [Hh _]%Hback [Hh' _]%Hback. by eapply ids_apart.
Qed.

Lemma digits_toupper ds : digits ds -> map toupper ds = ds.
Proof. induction 1 as [|c ds Hc _ IH]; [done|]. cbn. by rewrite toupper_digit, IH by done. Qed.

(** Default names are as different as the numbers of their statements. *)
Lemma default_identity_inj i j :
  0 <= i -> 0 <= j -> cursor_identity (default_cursor_name i) = cursor_identity (default_cursor_name j) -> i = j.
Proof.
  intros Hi Hj. rewrite !default_identity. unfold default_cursor_name. rewrite !map_app.
  destruct (to_string_spec i Hi) as (Di & _ & Vi & _), (to_string_spec j Hj) as (Dj & _ & Vj & _).
  rewrite (digits_toupper (to_string i)), (digits_toupper (to_string j)) by done. intros E%app_inv_head. by rewrite <- Vi, <- Vj, E.
Qed.

(** What a statement's name may be: the one set, valid, or its default. *)
Lemma name_of_cases s :
  (cursor_name s = [] /\ name_of s = default_cursor_name (statement_id s)) \/ name_of s = cursor_name s.
Proof. unfold name_of, get_cursor_name. destruct (cursor_name s); [by left|by right]. Qed.

Lemma name_of_ok k next h p s : layout k next -> k !! h = Some (p, KStmt s) -> cursor_name_ok (name_of s).
Proof.
  intros HL Hh. destruct (name_of_cases s) as [[_ ->]|E].
  - right. exists (statement_id s). split; [|done]. by apply (id_below k next HL h p s).
  - rewrite E. destruct (name_valid k next HL h p s Hh) as [En|Hv]; [|by left].
    right. exists (statement_id s). split; [by apply (id_below k next HL h p s)|].
    rewrite <- E. unfold name_of, get_cursor_name. by rewrite En.
Qed.

(** The default name of the next statement is no other statement's name. *)
Lemma next_name_apart k next h p s :
  layout k next -> k !! h = Some (p, KStmt s) ->
  cursor_identity (name_of s) <> cursor_identity (default_cursor_name next).
Proof.
  intros HL Hh. pose proof (id_below k next HL h p s Hh) as Hid.
  destruct (name_of_cases s) as [[_ ->]|E].
  - intros Heq%default_identity_inj; lia.
  - destruct (name_valid k next HL h p s Hh) as [En|Hv].
    + unfold name_of, get_cursor_name in E. by rewrite En in E.
    + rewrite E. by apply valid_avoids_default.
Qed.

(** A new handle that is no statement. *)
Lemma layout_insert k next x p t :
  layout k next -> k !! x = None -> x <> 0 ->
  match t with
  | KEnv => p = 0
  | KConn => exists q, k !! p = Some (q, KEnv)
  | KDesc false => exists q, k !! p = Some (q, KConn)
  | _ => False
  end ->
  layout (<[x := (p, t)]> k) next.
Proof.
  intros HL Hx Hx0 Ht.
  assert (forall h v, k !! h = Some v -> <[x := (p, t)]> k !! h = Some v) as Hkeep.
  { intros h v Hh. rewrite lookup_insert_ne; [done|]. intros ->. congruence. }
  assert (forall h q s, <[x := (p, t)]> k !! h = Some (q, KStmt s) -> k !! h = Some (q, KStmt s)) as Hst.
  { intros h q s. destruct (decide (x = h)) as [->|Hne]; [|by rewrite lookup_insert_ne].
    rewrite lookup_insert_eq. intros [= -> ->]. done. }
  split.
  - rewrite lookup_insert_ne by done. by eapply null_free.
  - intros h q. destruct (decide (x = h)) as [->|Hne];
      [rewrite lookup_insert_eq|rewrite lookup_insert_ne by done; by eapply env_root]. by intros [= -> ->].
  - intros h q. destruct (decide (x = h)) as [->|Hne].
    + rewrite lookup_insert_eq. intros [= -> ->]. destruct Ht as [r Hr]. exists r. by apply Hkeep.
    + rewrite lookup_insert_ne by done. intros Hh. destruct (conn_parent k next HL h q Hh) as [r Hr].
      exists r. by apply Hkeep.
  - intros h q s Hh%Hst. destruct (stmt_parent k next HL h q s Hh) as [Hc [r Hr]]. split; [done|]. exists r. by apply Hkeep.
  - intros h q auto. destruct (decide (x = h)) as [->|Hne].
    + rewrite lookup_insert_eq. intros [= -> ->]. destruct auto; [done|]. destruct Ht as [r Hr]. exists r. by apply Hkeep.
    + rewrite lookup_insert_ne by done. intros Hh. pose proof (desc_parent k next HL h q auto Hh) as Hd.
      destruct auto; [destruct Hd as (r & s & Hr); exists r, s|destruct Hd as (r & Hr); exists r]; by apply Hkeep.
  - intros h q s d Hh%Hst Hd. apply Hkeep. by eapply implicit_there.
  - intros h q s Hh%Hst. destruct (app_row_there k next HL h q s Hh); [by left|right; by apply Hkeep].
  - intros h q s Hh%Hst. destruct (app_param_there k next HL h q s Hh); [by left|right; by apply Hkeep].
  - intros h q s Hh%Hst. by eapply id_below.
  - intros h q s Hh%Hst. by eapply name_valid.
  - intros h h' q s s' Hh%Hst Hh'%Hst. by eapply names_apart.
  - intros h h' q q' s s' Hh%Hst Hh'%Hst. by eapply ids_apart.
Qed.

(** One statement changed: its application descriptors or its cursor name. *)
Lemma layout_update k next h p s s' :
  layout k next -> k !! h = Some (p, KStmt s) ->
  conn_ s' = conn_ s -> statement_id s' = statement_id s -> implicit_of s' = implicit_of s ->
  (app_row s' = automatic_app_row s' \/ k !! app_row s' = Some (p, KDesc false)) ->
  (app_param s' = automatic_app_param s' \/ k !! app_param s' = Some (p, KDesc false)) ->
  (cursor_name s' = [] \/ is_valid_cursor_name (cursor_name s') = true) ->
  (forall h' t, k !! h' = Some (p, KStmt t) -> h' <> h -> cursor_identity (name_of s') <> cursor_identity (name_of t)) ->
  layout (<[h := (p, KStmt s')]> k) next.
Proof.
  intros HL Hh Hc Hi Him Hrow Hparam Hname Hapart.
  assert (forall x q t, (forall u, t <> KStmt u) ->
    <[h := (p, KStmt s')]> k !! x = Some (q, t) <-> k !! x = Some (q, t)) as Hother.
  { intros x q t Ht. destruct (decide (h = x)) as [->|Hne]; [|by rewrite lookup_insert_ne].
    rewrite lookup_insert_eq, Hh. split; intros [= -> <-]; by destruct (Ht _ eq_refl). }
  assert (forall x q t, <[h := (p, KStmt s')]> k !! x = Some (q, KStmt t) ->
    (x = h /\ q = p /\ t = s') \/ (x <> h /\ k !! x = Some (q, KStmt t))) as Hst.
  { intros x q t. destruct (decide (h = x)) as [->|Hne]; [|rewrite lookup_insert_ne by done; auto].
    rewrite lookup_insert_eq. intros [= -> ->]. by left. }
  split.
  - rewrite lookup_insert_ne; [by eapply null_free|]. intros ->. by rewrite (null_free k next HL) in Hh.
  - intros x q Hx%Hother; [|done]. by eapply env_root.
  - intros x q Hx%Hother; [|done]. destruct (conn_parent k next HL x q Hx) as [r Hr]. exists r. by apply Hother.
  - intros x q t Hx%Hst. destruct Hx as [(-> & -> & ->)|[Hne Hx]].
    + destruct (stmt_parent k next HL h p s Hh) as [E [r Hr]]. split; [congruence|]. exists r. by apply Hother.
    + destruct (stmt_parent k next HL x q t Hx) as [E [r Hr]]. split; [done|]. exists r. by apply Hother.
  - intros x q auto Hx%Hother; [|done]. pose proof (desc_parent k next HL x q auto Hx) as Hd. destruct auto.
    + destruct Hd as (r & t & Hr). destruct (decide (q = h)) as [->|Hne].
      * exists p, s'. apply lookup_insert_eq.
      * exists r, t. by rewrite lookup_insert_ne.
    + destruct Hd as (r & Hr). exists r. by apply Hother.
  - intros x q t d Hx%Hst Hd. apply Hother; [done|].
    destruct Hx as [(-> & -> & ->)|[Hne Hx]]; [|by eapply implicit_there]. rewrite Him in Hd. by eapply implicit_there.
  - intros x q t Hx%Hst. destruct Hx as [(-> & -> & ->)|[Hne Hx]].
    + destruct Hrow as [|Hrow]; [by left|right; by apply Hother].
    + destruct (app_row_there k next HL x q t Hx); [by left|right; by apply Hother].
  - intros x q t Hx%Hst. destruct Hx as [(-> & -> & ->)|[Hne Hx]].
    + destruct Hparam as [|Hparam]; [by left|right; by apply Hother].
    + destruct (app_param_there k next HL x q t Hx); [by left|right; by apply Hother].
  - intros x q t Hx%Hst. destruct Hx as [(-> & -> & ->)|[Hne Hx]]; [rewrite Hi|]; by eapply id_below.
  - intros x q t Hx%Hst. destruct Hx as [(-> & -> & ->)|[Hne Hx]]; [done|]. by eapply name_valid.
  - intros x x' q t t' Hx%Hst Hx'%Hst Hne.
    destruct Hx as [(-> & -> & ->)|[Hxh Hx]], Hx' as [(-> & Hq & ->)|[Hxh' Hx']]; [done|..]; try subst q.
    + by apply (Hapart x').
    + apply not_eq_sym. by apply (Hapart x).
    + by eapply names_apart.
  - intros x x' q q' t t' Hx%Hst Hx'%Hst Hne.
    destruct Hx as [(-> & -> & ->)|[Hxh Hx]], Hx' as [(-> & Hq & ->)|[Hxh' Hx']]; [done|..]; try rewrite Hi;
      by eapply ids_apart.
Qed.

(** A new statement with its four implicit descriptors. *)
Lemma layout_insert_statement k next a c q :
  layout k next -> 0 <= next -> k !! c = Some (q, KConn) ->
  NoDup (all_addresses a) -> Forall (fun x => x <> 0 /\ k !! x = None) (all_addresses a) ->
  let d := (a_object a, KDesc true) in
  layout (<[a_object a := (c, KStmt (new_statement a c next))]>
            (<[a_imp_param a := d]> (<[a_imp_row a := d]> (<[a_param a := d]> (<[a_row a := d]> k))))) (next + 1).
Proof.
  intros HL Hnext Hc Hnd Hfresh d. set (k' := <[a_object a := _]> _).
  unfold all_addresses in *. rewrite !list.NoDup_cons, !elem_of_cons in Hnd.
  destruct Hnd as (N1 & N2 & N3 & N4 & _).
  rewrite !list.Forall_cons in Hfresh. destruct Hfresh as ([Z1 F1] & [Z2 F2] & [Z3 F3] & [Z4 F4] & [Z5 F5] & _).
  set (s := new_statement a c next) in *.
  assert (k' !! a_object a = Some (c, KStmt s)) as Hs by apply lookup_insert_eq.
  assert (forall x, x ∈ implicit_of s -> k' !! x = Some d) as Hd.
  { intros x Hx. unfold k'. unfold implicit_of, s in Hx. cbn [automatic_app_row automatic_app_param imp_row imp_param new_statement] in Hx.
    rewrite !elem_of_cons in Hx. rewrite !lookup_insert.
    repeat case_decide; subst; try done; exfalso; destruct Hx as [?|[?|[?|[?|?%elem_of_nil]]]]; naive_solver. }
  assert (forall x v, k !! x = Some v -> k' !! x = Some v) as Hkeep.
  { intros x v Hx. unfold k'. rewrite !lookup_insert_ne; [done|intros E; congruence..]. }
  assert (forall x v, k' !! x = Some v ->
    k !! x = Some v \/ (x = a_object a /\ v = (c, KStmt s)) \/ (x ∈ implicit_of s /\ v = d)) as Hback.
  { intros x v. unfold k'. rewrite !lookup_insert. unfold implicit_of, s.
    cbn [automatic_app_row automatic_app_param imp_row imp_param new_statement]. rewrite !elem_of_cons. repeat case_decide; subst; intros Hx; simplify_eq; naive_solver. }
  assert (forall x q t, k' !! x = Some (q, KStmt t) ->
    k !! x = Some (q, KStmt t) \/ (x = a_object a /\ q = c /\ t = s)) as Hst.
  { intros x r t Hx%Hback. destruct Hx as [?|[[-> [= -> ->]]|[_ [=]]]]; auto. }
  clearbody k'. split.
  - destruct (k' !! 0) as [v|] eqn:E; [|done]. apply Hback in E as [E|[[E _]|[E _]]].
    + by rewrite (null_free k next HL) in E.
    + done.
    + unfold implicit_of, s in E. cbn [automatic_app_row automatic_app_param imp_row imp_param new_statement] in E.
      rewrite !elem_of_cons in E. destruct E as [?|[?|[?|[?|?%elem_of_nil]]]]; congruence || done.
  - intros h p Hh%Hback. destruct Hh as [Hh|[[_ [=]]|[_ [=]]]]. by eapply env_root.
  - intros h p Hh%Hback. destruct Hh as [Hh|[[_ [=]]|[_ [=]]]]. destruct (conn_parent k next HL h p Hh) as [r Hr].
    exists r. by apply Hkeep.
  - intros h p t Hh%Hst. destruct Hh as [Hh|(-> & -> & ->)].
    + destruct (stmt_parent k next HL h p t Hh) as [E [r Hr]]. split; [done|]. exists r. by apply Hkeep.
    + split; [done|]. exists q. by apply Hkeep.
  - intros h p auto Hh%Hback. destruct Hh as [Hh|[[_ [=]]|[_ [= -> ->]]]].
    + pose proof (desc_parent k next HL h p auto Hh) as Hp. destruct auto.
      * destruct Hp as (r & t & Hr). exists r, t. by apply Hkeep.
      * destruct Hp as (r & Hr). exists r. by apply Hkeep.
    + exists c, s. done.
  - intros h p t x Hh%Hst Hx. destruct Hh as [Hh|(-> & -> & ->)].
    + apply Hkeep. by eapply implicit_there.
    + by apply Hd.
  - intros h p t Hh%Hst. destruct Hh as [Hh|(-> & -> & ->)]; [|by left].
    destruct (app_row_there k next HL h p t Hh); [by left|right; by apply Hkeep].
  - intros h p t Hh%Hst. destruct Hh as [Hh|(-> & -> & ->)]; [|by left].
    destruct (app_param_there k next HL h p t Hh); [by left|right; by apply Hkeep].
  - intros h p t Hh%Hst. destruct Hh as [Hh|(-> & -> & ->)]; [|cbn; lia].
    pose proof (id_below k next HL h p t Hh). lia.
  - intros h p t Hh%Hst. destruct Hh as [Hh|(-> & -> & ->)]; [|by left]. by eapply name_valid.
  - intros h h' p t t' Hh%Hst Hh'%Hst Hne.
    destruct Hh as [Hh|(-> & -> & ->)], Hh' as [Hh'|(-> & Hp & ->)]; [by eapply names_apart|..|done].
    + by eapply next_name_apart.
    + apply not_eq_sym. by eapply next_name_apart.
  - intros h h' p p' t t' Hh%Hst Hh'%Hst Hne.
    destruct Hh as [Hh|(-> & -> & ->)], Hh' as [Hh'|(-> & Hp & ->)]; [by eapply ids_apart|..|done].
    + destruct (id_below k next HL h p t Hh) as [_ Hlt]. change (statement_id s) with next. clear -Hlt. lia.
    + destruct (id_below k next HL h' p' t' Hh') as [_ Hlt]. change (statement_id s) with next. clear -Hlt. lia.
Qed.

(** ** The skeleton of a registry *)

Section Layout.
Context {B : Type} `{!BackendSession B}.
Abbreviation Handles := (gmap Z (Entry (B := B))).
Implicit Types m : Handles.

Definition kind (b : Body (B := B)) : Kind :=
  match b with
  | EnvBody _ => KEnv | ConnBody _ => KConn | StmtBody s => KStmt (bare s) | DescBody x => KDesc (automatic x)
  end.

Definition skel (e : Entry (B := B)) : Z * Kind := (parent e, kind (body (object e))).
Definition skels m : Skeleton := skel <$> m.

Lemma skels_lookup m h : skels m !! h = skel <$> m !! h.
Proof. apply lookup_fmap. Qed.

Lemma skels_Some m h p t :
  skels m !! h = Some (p, t) <-> exists e, m !! h = Some e /\ parent e = p /\ kind (body (object e)) = t.
Proof.
  rewrite skels_lookup, fmap_Some. split.
  - intros (e & He & [= -> ->]). by exists e.
  - intros (e & He & <- & <-). by exists e.
Qed.

Lemma skels_on_object f h m :
  (forall e, m !! h = Some e -> kind (body (f (object e))) = kind (body (object e))) ->
  skels (on_object f h m) = skels m.
Proof.
  intros Hf. apply map_eq. intros x. rewrite !skels_lookup. unfold on_object.
  destruct (decide (h = x)) as [->|Hne]; [|by rewrite lookup_alter_ne].
  rewrite lookup_alter_eq. destruct (m !! x) as [e|] eqn:E; [|done]. cbn. unfold skel. cbn. by rewrite Hf.
Qed.

Lemma skels_on_diag f h m : skels (on_diag f h m) = skels m.
Proof. by apply skels_on_object. Qed.

Lemma skels_post st text h m : skels (post st text h m) = skels m.
Proof. apply skels_on_diag. Qed.

Lemma skels_set_world w h m : skels (set_world w h m) = skels m.
Proof. apply skels_on_object. intros e _. by destruct (object e) as [[] ?]. Qed.

Lemma skels_post_backend posted h m : skels (post_backend posted h m) = skels m.
Proof. destruct posted as [[]|]; cbn; rewrite ?skels_post; done. Qed.

Create Rewrite HintDb skels.
#[local] Hint Rewrite skels_on_diag skels_post skels_set_world skels_post_backend : skels.

(** ** What follows from a layout *)

Lemma layout_ranked m next : layout (skels m) next -> ranked m.
Proof.
  intros HL x e p Hx Hp. unfold rank, get_type.
  assert (skels m !! x = Some (parent e, kind (body (object e)))) as Kx by (apply skels_Some; eauto).
  assert (skels m !! parent e = Some (parent p, kind (body (object p)))) as Kp by (apply skels_Some; eauto).
  destruct (body (object e)) as [v|w|s|x'] eqn:Eb; cbn [kind] in Kx.
  - apply (env_root _ _ HL) in Kx. rewrite Kx, (null_free _ _ HL) in Kp. done.
  - apply (conn_parent _ _ HL) in Kx as [q Kx]. destruct (body (object p)); cbn in Kp; simplify_eq; lia.
  - apply (stmt_parent _ _ HL) in Kx as [_ [q Kx]]. destruct (body (object p)); cbn in Kp; simplify_eq; lia.
  - apply (desc_parent _ _ HL) in Kx. destruct (automatic x');
      [destruct Kx as (q & s & Kx)|destruct Kx as (q & Kx)]; destruct (body (object p)); cbn in Kp; simplify_eq; lia.
Qed.

(** A descriptor has no children, and neither has an address nobody registered. *)
Lemma layout_leaf m next x : layout (skels m) next ->
  (skels m !! x = None \/ exists p auto, skels m !! x = Some (p, KDesc auto)) -> x <> 0 -> children m x = [].
Proof.
  intros HL Hx Hx0. destruct (children m x) as [|c cs] eqn:E; [done|].
  assert (c ∈ children m x) as (e & He & Hp)%elem_of_children by (rewrite E; by left).
  assert (skels m !! c = Some (x, kind (body (object e)))) as Kc by (apply skels_Some; exists e; split_and!; congruence).
  destruct (body (object e)) as [v|w|s|y]; cbn [kind] in Kc.
  - by apply (env_root _ _ HL) in Kc.
  - apply (conn_parent _ _ HL) in Kc as [q Kc]. destruct Hx as [Hx|(r & auto & Hx)]; congruence.
  - apply (stmt_parent _ _ HL) in Kc as [_ [q Kc]]. destruct Hx as [Hx|(r & auto & Hx)]; congruence.
  - apply (desc_parent _ _ HL) in Kc. destruct (automatic y); [destruct Kc as (q & s & Kc)|destruct Kc as (q & Kc)];
      destruct Hx as [Hx|(r & auto & Hx)]; congruence.
Qed.

(** What a collection adds to the list of removed objects, it removes from the
    map, of which it leaves a part. *)
Definition collects m (acc : list Object) (st : Handles * list Object) : Prop :=
  st.1 ⊆ m /\
  (forall o, o ∈ st.2 -> o ∈ acc \/ exists x e, m !! x = Some e /\ object e = o /\ st.1 !! x = None).

Lemma collect_list_collects n cs m acc :
  (forall h m acc, collects m acc (collect_subtree n h (m, acc))) ->
  collects m acc (foldl (fun st c => collect_subtree n c st) (m, acc) cs).
Proof.
  intros IH. revert m acc. induction cs as [|c cs IHcs]; intros m acc; cbn [foldl]; [split; [done|by left]|].
  destruct (IH c m acc) as [Hs1 Hr1]. destruct (collect_subtree n c (m, acc)) as [m1 acc1]. cbn [fst snd] in Hs1, Hr1.
  destruct (IHcs m1 acc1) as [Hs2 Hr2]. destruct (foldl _ _ _) as [m2 acc2]. cbn [fst snd] in *. split; [by etrans|].
  intros o Ho. destruct (Hr2 o Ho) as [Ho1|(x & e & Hx & Heo & Hn)].
  - destruct (Hr1 o Ho1) as [|(x & e & Hx & Heo & Hn)]; [by left|right]. exists x, e. split_and!; [done..|]. cbn.
    destruct (m2 !! x) as [v|] eqn:E2; [|done]. eapply lookup_weaken in E2; [|done]. congruence.
  - right. exists x, e. split_and!; [by eapply lookup_weaken|done..].
Qed.

Lemma collect_collects n h m acc : collects m acc (collect_subtree n h (m, acc)).
Proof.
  revert h m acc. induction n as [|n IH]; intros h m acc; cbn [collect_subtree]; [split; [done|by left]|]. cbn [fst].
  destruct (collect_list_collects n (children m h) m acc IH) as [Hsub Hrem].
  destruct (foldl _ _ _) as [m1 acc1]. cbn [fst snd] in *.
  destruct (m1 !! h) as [e|] eqn:Eh; [|done]. split; cbn [fst snd].
  - etrans; [apply delete_subseteq|done].
  - intros o [Ho|Ho]%elem_of_app.
    + destruct (Hrem o Ho) as [|(x & e' & Hx & Heo & Hn)]; [by left|right]. exists x, e'. split_and!; [done..|].
      apply lookup_delete_None. by right.
    + apply list_elem_of_singleton in Ho as ->. right. exists h, e. split_and!; [by eapply lookup_weaken|done|].
      apply lookup_delete_eq.
Qed.

(** An address that is not registered and has no children is left alone. *)
Lemma collect_absent n x m acc : m !! x = None -> children m x = [] -> collect_subtree n x (m, acc) = (m, acc).
Proof. intros Hx Hc. destruct n; [done|]. cbn [collect_subtree fst]. rewrite Hc. cbn [foldl]. by rewrite Hx. Qed.

Lemma destroy_absent removed m :
  (forall o s x, o ∈ removed -> body o = StmtBody s -> x ∈ implicit_of s -> m !! x = None /\ (x = 0 \/ children m x = [])) ->
  destroy removed m = m.
Proof.
  unfold destroy. induction removed as [|o removed IH]; intros Habs; cbn [foldl]; [done|].
  assert (match body o with StmtBody s => destroy_statement s m | _ => m end = m) as ->.
  { destruct (body o) as [| |s|] eqn:Eb; try done.
    assert (forall x, x ∈ implicit_of s -> (if x =? 0 then m else (collect_subtree_locked x (m, [])).1) = m) as Hx.
    { intros x Hin. destruct (Habs o s x) as [Hn Hc]; [by left|done..|]. destruct (Z.eqb_spec x 0); [done|].
      destruct Hc; [done|]. unfold collect_subtree_locked. by rewrite collect_absent. }
    unfold destroy_statement.
    assert ((if imp_row s =? 0 then m else on_body clear_describes (imp_row s) m) = m) as ->.
    { destruct (_ =? _); [done|]. unfold on_body, on_object. apply alter_id. intros e He.
      destruct (Habs o s (imp_row s)) as [Hn _]; [by left|done|apply implicit_members|]. congruence. }
    cbn [foldl]. rewrite !Hx by apply implicit_members. done. }
  apply IH. intros o' s x Ho'. apply Habs. by right.
Qed.

(** ** Freeing *)

(** The statements a removal collected have left nothing behind. *)
Lemma destroy_collected m m' next removed :
  layout (skels m) next -> m' ⊆ m ->
  (forall o, o ∈ removed -> exists x e, m !! x = Some e /\ object e = o /\ m' !! x = None) ->
  (forall x e, m !! x = Some e -> m' !! parent e = None -> parent e <> 0 -> m' !! x = None) ->
  destroy removed m' = m'.
Proof.
  intros HL Hsub Hrem Hdown. apply destroy_absent. intros o s d Ho Hb Hd.
  destruct (Hrem o Ho) as (x & e & Hx & <- & Hn).
  assert (skels m !! x = Some (parent e, KStmt (bare s))) as Kx.
  { apply skels_Some. exists e. by rewrite Hb. }
  assert (skels m !! d = Some (x, KDesc true)) as Kd by (apply (implicit_there _ _ HL x _ _ d Kx); done).
  assert (x <> 0) as Hx0 by (intros ->; by rewrite (null_free _ _ HL) in Kx).
  apply skels_Some in Kd as Hd'. destruct Hd' as (ed & Hed & Hped & _). split.
  - apply (Hdown d ed); [done|by rewrite Hped|by rewrite Hped].
  - right. assert (children m d = []) as Hc.
    { eapply layout_leaf; [done|right; eauto|]. intros ->. by rewrite (null_free _ _ HL) in Kd. }
    destruct (children m' d) as [|c cs] eqn:E; [done|].
    assert (c ∈ children m' d) as (ec & Hec & Hpc)%elem_of_children by (rewrite E; by left).
    assert (c ∈ children m d) as Hin by (apply elem_of_children; exists ec; split; [by eapply lookup_weaken|done]).
    by rewrite Hc in Hin; apply elem_of_nil in Hin.
Qed.

Lemma removes_down m h m' x e :
  ranked m -> removes m h m' -> m !! x = Some e -> is_Some (m !! parent e) -> m' !! parent e = None -> m' !! x = None.
Proof.
  intros Hr [R1 R2] Hx [p Hp] Hn. apply R1. destruct (under_dec m h (parent e) Hr) as [Hu|Hu].
  - by eapply under_child.
  - rewrite R2 in Hn by done. congruence.
Qed.

(** Every handle but an environment has its parent registered. *)
Lemma layout_parent m next x e :
  layout (skels m) next -> m !! x = Some e -> parent e <> 0 -> is_Some (m !! parent e).
Proof.
  intros HL Hx Hp. assert (skels m !! x = Some (parent e, kind (body (object e)))) as Kx by (apply skels_Some; eauto).
  assert (exists v, skels m !! parent e = Some v) as [[q t] Hv].
  { destruct (kind _) as [| |s|[]].
    - by apply (env_root _ _ HL) in Kx.
    - apply (conn_parent _ _ HL) in Kx as [q Kx]. eauto.
    - apply (stmt_parent _ _ HL) in Kx as [_ [q Kx]]. eauto.
    - apply (desc_parent _ _ HL) in Kx as (q & s & Kx). eauto.
    - apply (desc_parent _ _ HL) in Kx as (q & Kx). eauto. }
  apply skels_Some in Hv as (e' & He' & _). by exists e'.
Qed.

(** [unregister_handle] removes the handle and everything below it, nothing
    else, and running the destructors changes nothing more. *)
Lemma unregister_exact m next h :
  layout (skels m) next -> is_Some (m !! h) -> removes m h (unregister_handle h m).
Proof.
  intros HL [e He]. pose proof (layout_ranked m next HL) as Hr.
  assert (removes m h (collect_subtree 4 h (m, [])).1) as Hrem.
  { eapply collect_subtree_spec; [done..|]. lia. }
  unfold unregister_handle, collect_subtree_locked.
  destruct (collect_collects 4 h m []) as [_ Hc].
  destruct (collect_subtree 4 h (m, [])) as [m' removed]. cbn [fst snd] in *.
  rewrite (destroy_collected m m' next); [done|done|by eapply removes_sub|..].
  - intros o Ho. destruct (Hc o Ho) as [Hn|H]; [by apply elem_of_nil in Hn|done].
  - intros x ex Hx Hn Hp0. eapply removes_down; [done..| |done]. by eapply layout_parent.
Qed.

Lemma removes_skels m h m' x :
  ranked m -> removes m h m' -> (under m h x -> skels m' !! x = None) /\ (~ under m h x -> skels m' !! x = skels m !! x).
Proof.
  intros Hr [R1 R2]. rewrite !skels_lookup. split; intros Hu; [by rewrite R1|by rewrite R2].
Qed.

(** Freeing a handle that is no implicit descriptor and that no statement uses
    as an application descriptor keeps the layout. *)
Lemma layout_free m next h :
  layout (skels m) next -> is_Some (m !! h) -> (forall p, skels m !! h <> Some (p, KDesc true)) ->
  (forall x p s, skels m !! x = Some (p, KStmt s) -> app_row s <> h /\ app_param s <> h) ->
  layout (skels (unregister_handle h m)) next.
Proof.
  intros HL Hh Hauto Happ. pose proof (layout_ranked m next HL) as Hr.
  pose proof (unregister_exact m next h HL Hh) as Hrem.
  eapply (layout_remove (skels m) _ next (under m h)); [done|..].
  - intros x. by apply removes_skels.
  - intros x. by apply removes_skels.
  - intros x. by apply under_dec.
  - intros x p t (e & He & <- & _)%skels_Some Hx _ Hp. apply Hx. by eapply under_child.
  - intros x p s Kx Hx. destruct (proj1 (skels_Some _ _ _ _) Kx) as (e & He & Hpe & _).
    assert (forall (d q : Z) t, skels m !! d = Some (q, t) -> d <> h -> (q = x \/ q = p) -> ~ under m h d) as Hd.
    { intros d q t (ed & Hed & Hped & _)%skels_Some Hdh Hq Hu. inversion Hu as [|? ed' Hed' Hup]; [done|]. simplify_eq.
      apply Hx. destruct Hq as [Hq|Hq]; rewrite Hq in Hup; [done|]. eapply under_child; [done|]. congruence. }
    destruct (Happ x p s Kx) as [Hrow Hparam].
    assert (forall d, d ∈ implicit_of s -> ~ under m h d) as Himp.
    { intros d Hdi. pose proof (implicit_there _ _ HL x p s d Kx Hdi) as Kd.
      apply (Hd d x (KDesc true)); [done|intros ->; by apply Hauto in Kd|by left]. }
    split_and!; [..|done].
    + destruct (app_row_there _ _ HL x p s Kx) as [E|Kd]; [rewrite E; apply Himp, implicit_members|].
      eapply Hd; [done|done|by right].
    + destruct (app_param_there _ _ HL x p s Kx) as [E|Kd]; [rewrite E; apply Himp, implicit_members|].
      eapply Hd; [done|done|by right].
Qed.

(** [x] is below a child of [c]. *)
Definition below m (c x : Z) : Prop := exists kid, kid ∈ children m c /\ under m kid x.

(** [unregister_children] removes everything below a handle and nothing else. *)
Lemma unregister_children_exact m next c :
  layout (skels m) next -> is_Some (m !! c) ->
  (forall x, below m c x -> unregister_children c m !! x = None) /\
  (forall x, ~ below m c x -> unregister_children c m !! x = m !! x).
Proof.
  intros HL [ec Hc]. pose proof (layout_ranked m next HL) as Hr.
  destruct (collect_list_spec 4 (children m c) m []) as [F1 F2]; [|done|apply NoDup_children|..].
  { intros x m0 acc e ? ? ?. by eapply collect_subtree_spec. }
  { intros x (e & He & _)%elem_of_children. exists e. split; [done|lia]. }
  { intros x y (ex & Hx & Hpx)%elem_of_children (ey & Hy & Hpy)%elem_of_children.
    by eapply (children_apart m c). }
  destruct (collect_list_collects 4 (children m c) m [] (collect_collects 4)) as [Hsub Hrem].
  unfold unregister_children, collect_subtree_locked.
  destruct (foldl _ _ _) as [m' removed]. cbn [fst snd] in *.
  rewrite (destroy_collected m m' next); [done|done|done|..].
  - intros o Ho. destruct (Hrem o Ho) as [Hn|H]; [by apply elem_of_nil in Hn|done].
  - intros x ex Hx Hn Hp0. destruct (layout_parent m next x ex HL Hx Hp0) as [ep Hp].
    apply F1. destruct (exists_under_dec m (children m c) (parent ex) Hr) as [(kid & Hkid & Hu)|Hb].
    + exists kid. split; [done|]. by eapply under_child.
    + rewrite F2 in Hn by done. congruence.
Qed.

Lemma layout_free_children m next c q :
  layout (skels m) next -> skels m !! c = Some (q, KConn) -> layout (skels (unregister_children c m)) next.
Proof.
  intros HL Kc. pose proof (layout_ranked m next HL) as Hr.
  destruct (proj1 (skels_Some _ _ _ _) Kc) as (ec & Hc & _).
  destruct (unregister_children_exact m next c HL) as [U1 U2]; [by exists ec|].
  eapply (layout_remove (skels m) _ next (below m c)); [done|..].
  - intros x Hx. by rewrite skels_lookup, U1.
  - intros x Hx. by rewrite !skels_lookup, U2.
  - intros x. by apply exists_under_dec.
  - intros x p t (e & He & <- & _)%skels_Some Hx _ (kid & Hkid & Hu). apply Hx. exists kid. split; [done|]. by eapply under_child.
  - intros x p s Kx Hx. destruct (proj1 (skels_Some _ _ _ _) Kx) as (e & He & Hpe & _).
    assert (p <> c) as Hpc.
    { intros ->. apply Hx. exists x. split; [|constructor]. apply elem_of_children. by exists e. }
    assert (x <> c) as Hxc by (intros ->; congruence).
    assert (forall y t r, skels m !! y = Some (r, t) -> (r = x \/ r = p) -> ~ below m c y) as Hd.
    { intros y t r (ey & Hy & Hpy & _)%skels_Some Hq (kid & Hkid & Hu). inversion Hu as [|? ed' Hed' Hup].
      - subst kid. apply elem_of_children in Hkid as (ey' & Hy' & Hpy'). destruct Hq; congruence.
      - simplify_eq. apply Hx. exists kid. split; [done|]. destruct Hq as [Hq|Hq]; rewrite Hq in Hup; [done|].
        eapply under_child; [done|]. congruence. }
    assert (forall y, y ∈ implicit_of s -> ~ below m c y) as Himp.
    { intros y Hy. eapply Hd; [by eapply (implicit_there _ _ HL)|by left]. }
    split_and!; [..|done].
    + destruct (app_row_there _ _ HL x p s Kx) as [E|Kd]; [rewrite E; apply Himp, implicit_members|].
      eapply Hd; [done|by right].
    + destruct (app_param_there _ _ HL x p s Kx) as [E|Kd]; [rewrite E; apply Himp, implicit_members|].
      eapply Hd; [done|by right].
Qed.

(** ** Detaching a descriptor *)

Lemma elem_of_child_handles m p t x :
  x ∈ child_handles m p t <-> exists e, m !! x = Some e /\ parent e = p /\ get_type (object e) = t.
Proof.
  unfold child_handles, has_type. rewrite list_elem_of_filter, elem_of_children. split.
  - intros [Ht (e & He & Hp)]. rewrite He in Ht. exists e. split_and!; [done..|].
    apply Is_true_true in Ht. by apply bool_decide_eq_true in Ht.
  - intros (e & He & Hp & Ht). rewrite He. split; [|by exists e]. apply Is_true_true. by apply bool_decide_eq_true.
Qed.

Lemma bare_detach d s : bare (detach_descriptor d s) = detach_descriptor d (bare s).
Proof. done. Qed.

Lemma detach_idem d s :
  automatic_app_row s <> d -> automatic_app_param s <> d ->
  detach_descriptor d (detach_descriptor d s) = detach_descriptor d s.
Proof.
  intros H1%Z.eqb_neq H2%Z.eqb_neq. unfold detach_descriptor, with_app. cbn.
  destruct (app_row s =? d) eqn:E1, (app_param s =? d) eqn:E2; rewrite ?E1, ?E2, ?H1, ?H2; done.
Qed.

(** One statement after another is detached. *)
Lemma layout_detach_list m next d p0 hs :
  layout (skels m) next -> skels m !! d = Some (p0, KDesc false) ->
  (forall h, h ∈ hs -> exists s, skels m !! h = Some (p0, KStmt s)) ->
  let m' := foldl (fun m h => on_body (detach_body d) h m) m hs in
  layout (skels m') next /\
  (forall x p t, (forall s, t <> KStmt s) -> skels m' !! x = Some (p, t) <-> skels m !! x = Some (p, t)) /\
  (forall x p s', skels m' !! x = Some (p, KStmt s') ->
     exists s, skels m !! x = Some (p, KStmt s) /\ (s' = s \/ s' = detach_descriptor d s) /\
       (x ∈ hs -> app_row s' <> d /\ app_param s' <> d)).
Proof.
  revert m. induction hs as [|h hs IH]; intros m HL Kd Hhs; cbn [foldl].
  { split_and!; [done|done|]. intros x p s Hx. exists s. split_and!; [done|by left|]. by intros ?%elem_of_nil. }
  destruct (Hhs h) as [s Kh]; [by left|].
  assert (automatic_app_row s <> d /\ automatic_app_param s <> d) as [Ha1 Ha2].
  { assert (forall y, y ∈ implicit_of s -> y <> d) as Hy.
    { intros y Hy ->. pose proof (implicit_there _ _ HL h p0 s d Kh Hy). congruence. }
    split; apply Hy, implicit_members. }
  set (m1 := on_body (detach_body d) h m).
  assert (skels m1 = <[h := (p0, KStmt (detach_descriptor d s))]> (skels m)) as Em1.
  { apply map_eq. intros x. unfold m1, on_body, on_object. rewrite skels_lookup.
    destruct (decide (h = x)) as [->|Hne].
    - rewrite lookup_alter_eq, lookup_insert_eq. apply skels_Some in Kh as (e & -> & Hp & Hk). cbn. unfold skel. cbn.
      destruct (body (object e)); cbn in Hk |- *; simplify_eq. done.
    - by rewrite lookup_alter_ne, lookup_insert_ne, skels_lookup. }
  assert (layout (skels m1) next) as HL1.
  { rewrite Em1. eapply layout_update; [done..| | | |].
    - cbn. destruct (app_row s =? d) eqn:E; [by left|]. by apply (app_row_there _ _ HL h).
    - cbn. destruct (app_param s =? d) eqn:E; [by left|]. by apply (app_param_there _ _ HL h).
    - exact (name_valid _ _ HL h p0 s Kh).
    - intros x t Kx Hne. exact (names_apart _ _ HL h x p0 s t Kh Kx (not_eq_sym Hne)). }
  assert (forall x p t, (forall s, t <> KStmt s) -> skels m1 !! x = Some (p, t) <-> skels m !! x = Some (p, t)) as Hk1.
  { intros x p t Ht. rewrite Em1. destruct (decide (h = x)) as [->|Hne]; [|by rewrite lookup_insert_ne].
    rewrite lookup_insert_eq, Kh. split; intros [= -> <-]; by destruct (Ht _ eq_refl). }
  destruct (IH m1 HL1) as (I1 & I2 & I3).
  { by apply Hk1. }
  { intros x Hx. destruct (Hhs x) as [t Kx]; [by right|]. rewrite Em1. destruct (decide (h = x)) as [->|Hne].
    - rewrite lookup_insert_eq. eauto.
    - rewrite lookup_insert_ne by done. eauto. }
  fold m1. split_and!; [done| |].
  - intros x p t Ht. rewrite I2 by done. by apply Hk1.
  - intros x p s' Hx. destruct (I3 x p s' Hx) as (s1 & K1 & Hs' & Hin). rewrite Em1 in K1.
    destruct (decide (h = x)) as [->|Hne].
    + rewrite lookup_insert_eq in K1. injection K1 as <- <-. exists s. split; [done|].
      pose proof (detach_idem d s Ha1 Ha2) as Hidem.
      split; [right; destruct Hs' as [->| ->]; [done|by rewrite Hidem]|]. intros _.
      assert (s' = detach_descriptor d s) as -> by (destruct Hs' as [->| ->]; [done|by rewrite Hidem]).
      cbn. destruct (Z.eqb_spec (app_row s) d), (Z.eqb_spec (app_param s) d); done.
    + rewrite lookup_insert_ne in K1 by done. exists s1. split; [done|]. split; [done|].
      intros [?|Hxs]%elem_of_cons; [congruence|]. by apply Hin.
Qed.

Lemma detach_skels m next d p0 e :
  layout (skels m) next -> m !! d = Some e -> parent e = p0 -> kind (body (object e)) = KDesc false ->
  let m' := detach_descriptor_from_statements d m in
  layout (skels m') next /\ skels m' !! d = Some (p0, KDesc false) /\
  (forall x p s, skels m' !! x = Some (p, KStmt s) -> app_row s <> d /\ app_param s <> d).
Proof.
  intros HL He Hp Hk. assert (skels m !! d = Some (p0, KDesc false)) as Kd by (apply skels_Some; eauto).
  unfold detach_descriptor_from_statements. rewrite He, Hp.
  destruct (layout_detach_list m next d p0 (child_handles m p0 Statement) HL Kd) as (L1 & L2 & L3).
  { intros h (eh & Hh & Hph & Ht)%elem_of_child_handles. unfold get_type in Ht.
    destruct (body (object eh)) as [| |s|] eqn:Eb; try done. exists (bare s). apply skels_Some. exists eh. by rewrite Eb. }
  split_and!; [done|by apply L2|]. intros x p s' Hx. destruct (L3 x p s' Hx) as (s & Kx & Hs' & Hin).
  destruct (decide (p = p0)) as [->|Hne].
  - apply Hin. apply elem_of_child_handles. apply skels_Some in Kx as (ex & Hex & Hpx & Hkx). exists ex. split_and!; [done..|].
    unfold get_type. by destruct (body (object ex)).
  - assert (forall u, skels m !! x = Some (p, KStmt u) -> app_row u <> d /\ app_param u <> d) as Hu.
    { intros u Ku. assert (forall y, y ∈ implicit_of u -> y <> d) as Hy.
      { intros y Hy ->. pose proof (implicit_there _ _ HL x p u d Ku Hy). congruence. }
      destruct (app_row_there _ _ HL x p u Ku) as [E1|E1], (app_param_there _ _ HL x p u Ku) as [E2|E2];
        (split; [first [rewrite E1; apply Hy, implicit_members|congruence]
                |first [rewrite E2; apply Hy, implicit_members|congruence]]). }
    destruct (Hu s Kx) as [U1 U2]. destruct Hs' as [->| ->]; [done|]. cbn.
    by rewrite (proj2 (Z.eqb_neq _ _) U1), (proj2 (Z.eqb_neq _ _) U2).
Qed.

(** ** Every call keeps the layout *)

Definition driver_ok (d : Driver (B := B)) : Prop :=
  layout (skels (handles d)) (next_statement_id d) /\ 0 <= next_statement_id d.

(** Calls the world allows: the allocator returns addresses not in use, and a
    call modelled elsewhere leaves the skeleton alone. *)
Definition allowed (c : Call (B := B)) (d : Driver (B := B)) : Prop :=
  match c with
  | AllocHandle _ _ _ a => NoDup (all_addresses a) /\ Forall (fun x => x <> 0 /\ handles d !! x = None) (all_addresses a)
  | Other h f => forall e, handles d !! h = Some e -> kind (body (f (object e))) = kind (body (object e))
  | _ => True
  end.

Lemma with_handles_ok m (d : Driver (B := B)) : driver_ok d -> skels m = skels (handles d) -> driver_ok (with_handles m d).
Proof. intros [HL Hn] E. split; [|done]. cbn [handles with_handles]. by rewrite E. Qed.

Lemma admit_skels hs name diagnostic m : skels (admit_need_data hs name diagnostic m).1 = skels m.
Proof.
  unfold admit_need_data. destruct (diagnostic_call name); [done|].
  destruct (first_refusal m name hs) as [[]|]; cbn [fst]; rewrite ?skels_post, ?skels_on_diag; done.
Qed.

Lemma invoke_ok diagnostic hs name call (d : Driver (B := B)) :
  driver_ok d -> (forall m, skels m = skels (handles d) -> driver_ok (call (with_handles m d)).1) ->
  driver_ok (invoke diagnostic hs name call d).1.
Proof.
  intros Hd Hcall. unfold invoke. pose proof (admit_skels hs name diagnostic (handles d)) as Ha.
  destruct (admit_need_data _ _ _ _) as [m admitted]. cbn [fst] in Ha.
  assert (driver_ok (if admitted then call (with_handles m d) else (with_handles m d, RET_ERROR)).1) as Hc.
  { destruct admitted; [by apply Hcall|by apply with_handles_ok]. }
  destruct (if admitted then _ else _) as [d1 code]. cbn [fst] in *.
  destruct (diagnostic =? 0); [done|]. apply with_handles_ok; [done|]. apply skels_on_diag.
Qed.

Lemma skels_register h o p m : skels (register_handle h o p m) = <[h := (p, kind (body o))]> (skels m).
Proof. unfold skels, register_handle. by rewrite fmap_insert. Qed.

Lemma get_environment_skel m h v : get_environment m h = Some v -> exists q, skels m !! h = Some (q, KEnv).
Proof.
  unfold get_environment, get_handle. destruct (m !! h) as [e|] eqn:E; [|done]. cbn.
  destruct (body (object e)) eqn:Eb; [|done..]. intros _. exists (parent e). apply skels_Some. exists e. by rewrite Eb.
Qed.

Lemma get_connection_skel m h w : get_connection m h = Some w -> exists q, skels m !! h = Some (q, KConn).
Proof.
  unfold get_connection, get_handle. destruct (m !! h) as [e|] eqn:E; [|done]. cbn.
  destruct (body (object e)) eqn:Eb; try done. intros _. exists (parent e). apply skels_Some. exists e. by rewrite Eb.
Qed.

Lemma get_statement_skel m h s : get_statement m h = Some s -> exists q, skels m !! h = Some (q, KStmt (bare s)).
Proof.
  unfold get_statement, get_handle. destruct (m !! h) as [e|] eqn:E; [|done]. cbn.
  destruct (body (object e)) eqn:Eb; try done. intros [= <-]. exists (parent e). apply skels_Some. exists e. by rewrite Eb.
Qed.

Lemma get_descriptor_skel m h x :
  get_descriptor m h = Some x -> exists q, skels m !! h = Some (q, KDesc (automatic x)).
Proof.
  unfold get_descriptor, get_handle. destruct (m !! h) as [e|] eqn:E; [|done]. cbn.
  destruct (body (object e)) eqn:Eb; try done. intros [= <-]. exists (parent e). apply skels_Some. exists e. by rewrite Eb.
Qed.

Lemma fresh_skels a m : Forall (fun x => x <> 0 /\ m !! x = None) (all_addresses a) ->
  Forall (fun x => x <> 0 /\ skels m !! x = None) (all_addresses a).
Proof. intros H. eapply list.Forall_impl; [done|]. intros x [H1 H2]. split; [done|]. by rewrite skels_lookup, H2. Qed.

Lemma alloc_ok out_null ty input a (d : Driver (B := B)) :
  driver_ok d -> NoDup (all_addresses a) -> Forall (fun x => x <> 0 /\ skels (handles d) !! x = None) (all_addresses a) ->
  driver_ok (SQLAllocHandle out_null ty input a d).1.1.
Proof.
  intros Hd Hnd Hf. unfold SQLAllocHandle. destruct out_null.
  { cbn [fst]. apply with_handles_ok; [done|]. destruct (_ =? _); [done|]. by rewrite skels_post, skels_on_diag. }
  destruct (_ && _) eqn:Henv; [done|].
  set (m := if input =? 0 then handles d else on_diag clear_diagnostics input (handles d)).
  assert (skels m = skels (handles d)) as Em by (unfold m; destruct (input =? 0); [done|apply skels_on_diag]).
  assert (driver_ok (with_handles m d)) as Hm by (by apply with_handles_ok).
  rewrite <- Em in Hf. clearbody m. destruct Hm as [HL Hn]. cbn [handles with_handles next_statement_id] in HL, Hn.
  assert (a_object a <> 0 /\ skels m !! a_object a = None) as [Ha0 Ha].
  { pose proof Hf as Hf'. unfold all_addresses in Hf'. by inv_forall. }
  assert (forall o, match kind (body o) with
      | KEnv => input = 0 | KConn => exists q, skels m !! input = Some (q, KEnv)
      | KDesc false => exists q, skels m !! input = Some (q, KConn) | _ => False end ->
      driver_ok (with_handles (register_handle (a_object a) o input m) (with_handles m d))) as Hmade.
  { intros o Ho. split; [|done]. cbn [handles with_handles]. rewrite skels_register. by apply layout_insert. }
  assert (forall st text, driver_ok (with_handles (post st text input m) (with_handles m d))) as Hfail.
  { intros st text. split; [|done]. cbn [handles with_handles]. by rewrite skels_post. }
  destruct (Z.eqb_spec ty 1) as [->|_].
  { cbn [andb] in Henv. apply negb_false_iff, Z.eqb_eq in Henv. cbn [fst]. by apply Hmade. }
  destruct (ty =? 2).
  { destruct (get_environment m input) as [v|] eqn:Ee; [|done]. apply get_environment_skel in Ee.
    destruct (v =? 0); cbn [fst]; [apply Hfail|]. by apply Hmade. }
  destruct (ty =? 3).
  { destruct (get_connection m input) as [w|] eqn:Ee; [|done]. apply get_connection_skel in Ee as [q Hq].
    destruct (connected (oconn w)); cbn [negb fst]; [|apply Hfail]. split; cbn [handles next_statement_id with_handles]; [|lia].
    unfold register_implicit. rewrite !skels_register. by eapply layout_insert_statement. }
  destruct (ty =? 4).
  { destruct (get_connection m input) as [w|] eqn:Ee; [|done]. apply get_connection_skel in Ee.
    destruct (connected (oconn w)); cbn [negb fst]; [|apply Hfail]. by apply Hmade. }
  cbn [fst]. destruct (input =? 0); [done|]. apply Hfail.
Qed.

(** No statement uses a handle that is no explicit descriptor. *)
Lemma app_apart m next h :
  layout (skels m) next -> is_Some (skels m !! h) -> (forall p auto, skels m !! h <> Some (p, KDesc auto)) ->
  forall x p s, skels m !! x = Some (p, KStmt s) -> app_row s <> h /\ app_param s <> h.
Proof.
  intros HL _ Hh x p s Kx.
  assert (forall y, y ∈ implicit_of s -> y <> h) as Hy.
  { intros y Hy ->. pose proof (implicit_there _ _ HL x p s h Kx Hy) as K. by apply Hh in K. }
  destruct (app_row_there _ _ HL x p s Kx) as [E1|E1], (app_param_there _ _ HL x p s Kx) as [E2|E2];
    (split; [first [rewrite E1; apply Hy, implicit_members|intros Hs; rewrite Hs in E1; by apply Hh in E1]
            |first [rewrite E2; apply Hy, implicit_members|intros Hs; rewrite Hs in E2; by apply Hh in E2]]).
Qed.

Lemma unregister_ok (d : Driver (B := B)) m h p t :
  driver_ok d -> skels m = skels (handles d) -> skels m !! h = Some (p, t) -> (forall auto, t <> KDesc auto) ->
  driver_ok (with_handles (unregister_handle h m) d).
Proof.
  intros [HL Hn] E Kh Ht. rewrite <- E in HL. split; [|done]. cbn [handles with_handles].
  destruct (proj1 (skels_Some _ _ _ _) Kh) as (e & He & _).
  apply layout_free; [done|by exists e|intros q Kq; rewrite Kh in Kq; simplify_eq; by apply (Ht true)|].
  eapply app_apart; [done|by exists (p, t)|]. intros q auto Kq. rewrite Kh in Kq. simplify_eq. by apply (Ht auto).
Qed.

Lemma free_ok ty h (d : Driver (B := B)) : driver_ok d -> driver_ok (SQLFreeHandle ty h d).1.
Proof.
  intros Hd. unfold SQLFreeHandle. destruct (h =? 0); [done|].
  unfold get_handle. destruct (handles d !! h) as [e|] eqn:He; cbn [option_fmap option_map fmap]; [|done].
  destruct (negb _); [done|].
  assert (skels (on_diag clear_diagnostics h (handles d)) = skels (handles d)) as E by apply skels_on_diag.
  assert (skels (handles d) !! h = Some (parent e, kind (body (object e)))) as Kh by (apply skels_Some; eauto).
  assert (forall st text, driver_ok (with_handles (post st text h (on_diag clear_diagnostics h (handles d))) d)) as Hfail.
  { intros st text. apply with_handles_ok; [done|]. by rewrite skels_post. }
  assert ((forall auto, kind (body (object e)) <> KDesc auto) ->
    driver_ok (with_handles (unregister_handle h (on_diag clear_diagnostics h (handles d))) d)) as Hfree.
  { intros Hk. eapply unregister_ok; [done..| |exact Hk]. by rewrite E. }
  destruct (body (object e)) as [v|w|s|x] eqn:Eb.
  - destruct (has_children _ h); cbn [fst]; [apply Hfail|by apply Hfree].
  - destruct (connected (oconn w)); [apply Hfail|]. destruct (has_children _ h); cbn [fst]; [apply Hfail|by apply Hfree].
  - destruct (needs_data s); cbn [fst]; [apply Hfail|by apply Hfree].
  - destruct (automatic x) eqn:Ea; cbn [fst]; [apply Hfail|]. cbn [kind] in Kh. rewrite Ea in Kh.
    destruct Hd as [HL Hn]. rewrite <- E in HL, Kh.
    destruct (proj1 (skels_Some _ _ _ _) Kh) as (e1 & He1 & Hp1 & Hk1).
    destruct (detach_skels _ _ h _ e1 HL He1 Hp1 Hk1) as (L1 & L2 & L3).
    split; [|done]. cbn [handles with_handles]. destruct (proj1 (skels_Some _ _ _ _) L2) as (e2 & He2 & _).
    apply layout_free; [done|by exists e2|by rewrite L2|done].
Qed.

Lemma drop_ok h (d : Driver (B := B)) : driver_ok d -> driver_ok (SQLFreeStmt_drop h d).1.
Proof.
  intros Hd. unfold SQLFreeStmt_drop. destruct (get_statement (handles d) h) as [s|] eqn:Es; [|done].
  apply get_statement_skel in Es as [q Kq]. cbn [fst].
  eapply unregister_ok; [done|apply skels_on_diag|unfold get_valid; by rewrite skels_on_diag|done].
Qed.

Lemma disconnect_ok h (d : Driver (B := B)) : driver_ok d -> driver_ok (SQLDisconnect h d).1.
Proof.
  intros Hd. unfold SQLDisconnect. destruct (get_connection (handles d) h) as [w|] eqn:Ew; [|done].
  apply get_connection_skel in Ew as [q Kq]. destruct (disconnect _ w) as [[w1 code] posted]. cbn [fst].
  set (m := post_backend posted h (set_world w1 h (get_valid h (handles d)))).
  assert (skels m = skels (handles d)) as E.
  { unfold m, get_valid. by rewrite skels_post_backend, skels_set_world, skels_on_diag. }
  case_bool_decide; [|by apply with_handles_ok]. destruct Hd as [HL Hn]. rewrite <- E in HL, Kq.
  split; [|done]. cbn [handles with_handles]. by eapply layout_free_children.
Qed.

Lemma skels_update_statement (f : Stmt -> Stmt) h m p s :
  skels m !! h = Some (p, KStmt (bare s)) ->
  (forall e s, m !! h = Some e -> body (object e) = StmtBody s -> bare (f s) = bare (f (bare s))) ->
  skels (on_body (fun b => match b with StmtBody s => StmtBody (f s) | b => b end) h m) =
    <[h := (p, KStmt (bare (f (bare s))))]> (skels m).
Proof.
  intros Kh Hf. apply map_eq. intros x. rewrite skels_lookup. unfold on_body, on_object.
  destruct (decide (h = x)) as [->|Hne]; [|by rewrite lookup_alter_ne, lookup_insert_ne, skels_lookup].
  rewrite lookup_alter_eq, lookup_insert_eq. apply skels_Some in Kh as (e & He & Hp & Hk). rewrite He. cbn. unfold skel. cbn.
  destruct (body (object e)) as [| |u|] eqn:Eb; try done. cbn [kind] in Hk |- *.
  assert (bare u = bare s) as Hb by congruence. by rewrite (Hf e u He Eb), Hb, Hp.
Qed.

Lemma explicit_connection m next x p y :
  layout (skels m) next -> get_descriptor m x = Some y -> automatic y = false ->
  get_connection_for_handle m x = Some p -> skels m !! x = Some (p, KDesc false).
Proof.
  intros HL Hx Ha Hc. apply get_descriptor_skel in Hx as [q Kx]. rewrite Ha in Kx.
  pose proof (desc_parent _ _ HL x q false Kx) as (r & Kq).
  assert (x <> 0 /\ q <> 0) as [Hx0 Hq0] by (split; intros ->; rewrite (null_free _ _ HL) in *; done).
  apply skels_Some in Kx as Hx. destruct Hx as (e & He & Hpe & Hk).
  apply skels_Some in Kq as Hq. destruct Hq as (eq & Heq & Hpeq & Hkq).
  unfold get_connection_for_handle in Hc. cbn [connection_above] in Hc.
  rewrite (proj2 (Z.eqb_neq _ _) Hx0), He in Hc. unfold get_type in Hc at 1.
  destruct (body (object e)) as [| | |z]; try done. rewrite Hpe in Hc.
  rewrite (proj2 (Z.eqb_neq _ _) Hq0), Heq in Hc. unfold get_type in Hc at 1.
  destruct (body (object eq)) as [|w| |]; try done. by simplify_eq.
Qed.

Lemma set_descriptor_ok row x h (d : Driver (B := B)) : driver_ok d -> driver_ok (set_application_descriptor row x h d).1.
Proof.
  intros Hd. unfold set_application_descriptor. destruct (get_statement (handles d) h) as [s|] eqn:Es; [|done].
  apply get_statement_skel in Es as [q Kq].
  assert (skels (get_valid h (handles d)) = skels (handles d)) as E by apply skels_on_diag.
  assert (forall st text, driver_ok (with_handles (post st text h (get_valid h (handles d))) d)) as Hfail.
  { intros st text. apply with_handles_ok; [done|]. by rewrite skels_post. }
  destruct Hd as [HL Hn]. rewrite <- E in HL, Kq.
  assert (forall y, y = (if row then automatic_app_row s else automatic_app_param s) \/
            skels (get_valid h (handles d)) !! y = Some (q, KDesc false) ->
    driver_ok (with_handles (on_body (fun b => match b with
      | StmtBody s => StmtBody (if row then with_app y (app_param s) s else with_app (app_row s) y s)
      | b => b end) h (get_valid h (handles d))) d)) as Hset.
  { intros y Hy. split; [|done]. cbn [handles with_handles].
    rewrite (skels_update_statement (fun s => if row then with_app y (app_param s) s else with_app (app_row s) y s) h _ q s Kq)
      by (intros; by destruct row).
    eapply layout_update; [done|exact Kq|by destruct row..| | | |].
    - destruct row; cbn; [done|]. exact (app_row_there _ _ HL h q _ Kq).
    - destruct row; cbn; [|done]. exact (app_param_there _ _ HL h q _ Kq).
    - destruct row; exact (name_valid _ _ HL h q _ Kq).
    - intros h' t Kt Hne. pose proof (names_apart _ _ HL h h' q _ t Kq Kt (not_eq_sym Hne)) as Ha. by destruct row. }
  destruct (_ || _); cbn [fst]; [apply Hset; by left|].
  destruct (get_descriptor _ x) as [y|] eqn:Ey; cbn [fst]; [|apply Hfail].
  destruct (automatic y) eqn:Eauto; cbn [fst]; [apply Hfail|].
  destruct (bool_decide _) eqn:Ec; cbn [negb fst]; [|apply Hfail]. apply bool_decide_eq_true in Ec.
  apply Hset. right. replace q with (conn_ s); [by eapply explicit_connection|].
  by destruct (stmt_parent _ _ HL h q _ Kq) as [Hc _].
Qed.

Lemma set_cursor_name_ok name h (d : Driver (B := B)) : driver_ok d -> driver_ok (set_cursor_name name h d).1.
Proof.
  intros Hd. unfold set_cursor_name. destruct (get_statement (handles d) h) as [s|] eqn:Es; [|done].
  apply get_statement_skel in Es as [q Kq].
  assert (skels (get_valid h (handles d)) = skels (handles d)) as E by apply skels_on_diag.
  assert (forall st text, driver_ok (with_handles (post st text h (get_valid h (handles d))) d)) as Hfail.
  { intros st text. apply with_handles_ok; [done|]. by rewrite skels_post. }
  destruct Hd as [HL Hn]. rewrite <- E in HL, Kq.
  destruct (is_valid_cursor_name name) eqn:Hv; cbn [negb fst]; [|apply Hfail].
  destruct (executed s); cbn [fst]; [apply Hfail|]. destruct (existsb _ _) eqn:Hex; cbn [fst]; [apply Hfail|].
  split; [|done]. cbn [handles with_handles].
  rewrite (skels_update_statement (with_cursor_name name) h _ q s Kq) by done.
  destruct (stmt_parent _ _ HL h q _ Kq) as [Hc _]. cbn in Hc.
  eapply layout_update; [done|exact Kq|done..| | | |].
  - exact (app_row_there _ _ HL h q _ Kq).
  - exact (app_param_there _ _ HL h q _ Kq).
  - by right.
  - intros h' t Kt Hne Heq. destruct (proj1 (skels_Some _ _ _ _) Kt) as (e & He & Hp & Hk).
    destruct (body (object e)) as [| |u|] eqn:Eb; try done. cbn [kind] in Hk. assert (t = bare u) as -> by congruence.
    assert (existsb (fun sibling => negb (sibling =? h) &&
              match get_statement (get_valid h (handles d)) sibling with
              | None => false | Some s' => cursor_names_conflict name (name_of s') end)
            (child_handles (get_valid h (handles d)) (conn_ s) Statement) = true) as Hcon; [|congruence].
    apply existsb_exists. exists h'. split.
    + apply list_elem_of_In, elem_of_child_handles. exists e. split_and!; [done|congruence|]. unfold get_type. by rewrite Eb.
    + rewrite (proj2 (Z.eqb_neq h' h)) by done. cbn [negb andb].
      unfold get_statement, get_handle. rewrite He. cbn. rewrite Eb.
      apply cursor_names_conflict_exact; [by left|exact (name_of_ok _ _ h' _ _ HL Kt)|].
      etrans; [|exact Heq]. unfold name_of, get_cursor_name. cbn. by destruct name.
Qed.

Lemma set_version_ok v h (d : Driver (B := B)) : driver_ok d -> driver_ok (set_odbc_version v h d).1.
Proof.
  intros Hd. unfold set_odbc_version. destruct (get_environment (handles d) h); [|done].
  destruct (has_children _ h); [|destruct (_ && _)]; cbn [fst]; apply with_handles_ok; try done;
    unfold get_valid; rewrite ?skels_post, ?skels_on_diag; try done.
  unfold on_body. rewrite skels_on_object, skels_on_diag; [done|]. intros e _. by destruct (object e) as [[] ?].
Qed.

Lemma perform_call_ok c (d : Driver (B := B)) : allowed c d -> driver_ok d -> driver_ok (perform_call c d).1.
Proof.
  intros Hall Hd. destruct c as [out_null ty input a|ty h|h|h|row x h|name h|v h|h f]; cbn [perform_call allowed] in *.
  - destruct Hall as [Hnd Hf]. apply invoke_ok; [done|]. intros m E. apply alloc_ok; [by apply with_handles_ok|done|].
    cbn [handles with_handles]. rewrite E. by apply fresh_skels.
  - apply invoke_ok; [done|]. intros m E. by apply free_ok, with_handles_ok.
  - apply invoke_ok; [done|]. intros m E. by apply drop_ok, with_handles_ok.
  - apply invoke_ok; [done|]. intros m E. by apply disconnect_ok, with_handles_ok.
  - apply invoke_ok; [done|]. intros m E. by apply set_descriptor_ok, with_handles_ok.
  - apply invoke_ok; [done|]. intros m E. by apply set_cursor_name_ok, with_handles_ok.
  - apply invoke_ok; [done|]. intros m E. by apply set_version_ok, with_handles_ok.
  - cbn [fst]. apply with_handles_ok; [done|]. by apply skels_on_object.
Qed.

Definition new_driver : Driver (B := B) := {| handles := ∅; next_statement_id := 0 |}.

Fixpoint perform_calls (cs : list (Call (B := B))) (d : Driver (B := B)) : Driver (B := B) :=
  match cs with [] => d | c :: cs => perform_calls cs (perform_call c d).1 end.

Fixpoint all_allowed (cs : list (Call (B := B))) (d : Driver (B := B)) : Prop :=
  match cs with [] => True | c :: cs => allowed c d /\ all_allowed cs (perform_call c d).1 end.

Lemma new_driver_ok : driver_ok new_driver.
Proof. split; [|done]. split; cbn; intros; unfold skels in *; rewrite fmap_empty in *; by simplify_map_eq. Qed.

Lemma perform_calls_ok cs (d : Driver (B := B)) : all_allowed cs d -> driver_ok d -> driver_ok (perform_calls cs d).
Proof.
  revert d. induction cs as [|c cs IH]; intros d; cbn; [done|]. intros [H1 H2] Hd. apply IH; [done|]. by apply perform_call_ok.
Qed.

(** What an operation on a statement relies on: the descriptors it dereferences
    and the connection above it are there. *)
Definition statement_resolves m (h : Z) (s : Stmt) : Prop :=
  is_Some (get_descriptor m (app_row s)) /\ is_Some (get_descriptor m (app_param s)) /\
  is_Some (get_descriptor m (imp_row s)) /\ is_Some (get_descriptor m (imp_param s)) /\
  get_connection_for_handle m h = Some (conn_ s) /\ is_Some (get_connection m (conn_ s)).

Lemma skel_descriptor m h p auto : skels m !! h = Some (p, KDesc auto) -> is_Some (get_descriptor m h).
Proof.
  intros (e & He & _ & Hk)%skels_Some. unfold get_descriptor, get_handle. rewrite He. cbn.
  by destruct (body (object e)).
Qed.

Lemma layout_resolves m next h s : layout (skels m) next -> get_statement m h = Some s -> statement_resolves m h s.
Proof.
  intros HL Hs. apply get_statement_skel in Hs as Ks. destruct Ks as [p Kh].
  assert (forall y, y ∈ implicit_of s -> is_Some (get_descriptor m y)) as Himp.
  { intros y Hy. eapply skel_descriptor. by apply (implicit_there _ _ HL h p (bare s) y Kh). }
  destruct (stmt_parent _ _ HL h p _ Kh) as [Hc [q Kp]]. cbn in Hc.
  destruct (proj1 (skels_Some _ _ _ _) Kp) as (ep & Hep & _ & Hkp).
  destruct (proj1 (skels_Some _ _ _ _) Kh) as (eh & Heh & Hph & Hkh).
  assert (h <> 0 /\ p <> 0) as [Hh0 Hp0].
  { split; intros ->; [by rewrite (null_free _ _ HL) in Kh|by rewrite (null_free _ _ HL) in Kp]. }
  split_and!.
  - destruct (app_row_there _ _ HL h p _ Kh) as [E|E]; cbn in E; [rewrite E; apply Himp, implicit_members|by eapply skel_descriptor].
  - destruct (app_param_there _ _ HL h p _ Kh) as [E|E]; cbn in E; [rewrite E; apply Himp, implicit_members|by eapply skel_descriptor].
  - apply Himp, implicit_members.
  - apply Himp, implicit_members.
  - unfold get_connection_for_handle. cbn [connection_above]. rewrite (proj2 (Z.eqb_neq _ _) Hh0), Heh.
    unfold get_type at 1. destruct (body (object eh)); try done. rewrite Hph, (proj2 (Z.eqb_neq _ _) Hp0), Hep.
    unfold get_type at 1. destruct (body (object ep)); try done. congruence.
  - unfold get_connection, get_handle. rewrite Hc, Hep. cbn. by destruct (body (object ep)).
Qed.

(** C9.  Whatever handles an application makes, associates, names and frees, and in
    whatever order: every descriptor a statement uses and the connection above it
    are registered, so that no operation on the statement finds a dangling one; the
    parent of every handle is registered; and no two statements of a connection
    have names that denote one cursor. *)
Theorem handles_stay_resolved (calls : list (Call (B := B))) (Hcalls : all_allowed calls new_driver) :
  let m := handles (perform_calls calls new_driver) in
  (forall h s, get_statement m h = Some s -> statement_resolves m h s) /\
  (forall h e, m !! h = Some e -> parent e <> 0 -> is_Some (m !! parent e)) /\
  (forall h h' s s', get_statement m h = Some s -> get_statement m h' = Some s' -> h <> h' -> conn_ s = conn_ s' ->
     cursor_names_conflict (name_of s) (name_of s') = false).
Proof.
  destruct (perform_calls_ok calls new_driver Hcalls new_driver_ok) as [HL _]. cbn zeta. split_and!.
  - intros h s. by eapply layout_resolves.
  - intros h e. by eapply layout_parent.
  - intros h h' s s' Hs Hs' Hne Hc. apply get_statement_skel in Hs as [p Kh], Hs' as [p' Kh'].
    destruct (stmt_parent _ _ HL h p _ Kh) as [E _], (stmt_parent _ _ HL h' p' _ Kh') as [E' _]. cbn in E, E'.
    assert (p' = p) as -> by congruence.
    apply not_true_iff_false. rewrite cursor_names_conflict_exact.
    + exact (names_apart _ _ HL h h' p _ _ Kh Kh' Hne).
    + exact (name_of_ok _ _ h p _ HL Kh).
    + exact (name_of_ok _ _ h' p _ HL Kh').
Qed.
End Layout.

(** ** A driver in use *)

#[local] Instance no_backend : BackendSession unit := {|
  session_of _ := Backend.idle_reusable;
  b_transaction _ _ b := (b, Refused (local_error Backend.Unsupported Backend.OpTransaction Backend.Idle));
  b_isolation _ _ b := (b, Refused (local_error Backend.Unsupported Backend.OpSetTransactionIsolation Backend.Idle));
  b_query _ _ b := (b, Refused (local_error Backend.Unsupported Backend.OpExecuteDirect Backend.Idle))
|}.

Definition at_ (x : Z) : Addresses :=
  {| a_object := x; a_row := x + 1; a_param := x + 2; a_imp_row := x + 3; a_imp_param := x + 4 |}.

(** Stands for a successful [SQLConnect]. *)
Definition opened : OConn :=
  {| connected := true; autocommit := true; transaction_active := false; transaction_isolation := 2;
     transaction_isolation_explicit := false; access_mode := 0; metadata_id_default := false; quiet_mode := 0;
     connection_timeout_seconds := 0; login_timeout_seconds := 30; explicit_login_timeout := None;
     metadata_epoch := true; pending_input_identity := false; confirmed_read_only := false;
     query_timeout_default_seconds := 0 |}.
Definition connect_object (o : Object (B := unit)) : Object (B := unit) :=
  {| body := match body o with ConnBody _ => ConnBody {| oconn := opened; lease := Some tt |} | b => b end; diag := diag o |}.

Definition sample_calls : list (Call (B := unit)) :=
  [AllocHandle false 1 0 (at_ 100); SetVersion 3 100; AllocHandle false 2 100 (at_ 200); Other 200 connect_object;
   AllocHandle false 3 200 (at_ 300); AllocHandle false 3 200 (at_ 400); AllocHandle false 4 200 (at_ 500);
   SetDescriptor true 500 300; SetCursorName (str "Sales") 300; SetCursorName (str "SALES") 400;
   FreeHandle 4 500; DropStatement 400].

Lemma sample_calls_allowed : all_allowed sample_calls new_driver.
Proof.
  repeat (split; [cbn [allowed sample_calls];
    first [exact I
          |split; [apply (bool_decide_eq_true_1 (NoDup _)); vm_compute; reflexivity|repeat (constructor; [split; [done|vm_compute; reflexivity]|]); constructor]
          |intros e; vm_compute; intros [= <-]; reflexivity]|]).
  exact I.
Qed.

Lemma handles_stay_resolved_witness :
  let m := handles (perform_calls sample_calls new_driver) in
  (app_row <$> get_statement m 300) = Some 301 /\ get_statement m 400 = None /\
  (forall h s, get_statement m h = Some s -> statement_resolves m h s).
Proof.
  split; [vm_compute; reflexivity|]. split; [vm_compute; reflexivity|].
  exact (proj1 (handles_stay_resolved sample_calls sample_calls_allowed)).
Defined.

(** The destructor of a statement unregisters its implicit descriptors by their
    addresses.  When it runs later than the removal, which a lease that still
    holds the statement brings about, those addresses may belong to new handles:
    a descriptor another thread made on another connection is removed. *)
Definition shared_start : Driver := Eval vm_compute in
  perform_calls [AllocHandle false 1 0 (at_ 100); SetVersion 3 100;
    AllocHandle false 2 100 (at_ 200); Other 200 connect_object; AllocHandle false 3 200 (at_ 300);
    AllocHandle false 2 100 (at_ 600); Other 600 connect_object] new_driver.

Definition freed_statement : Stmt := new_statement (at_ 300) 200 0.
Definition after_removal : gmap Z (Entry (B := unit)) := Eval vm_compute in
  (collect_subtree_locked 300 (handles shared_start, [])).1.
Definition after_reuse : gmap Z (Entry (B := unit)) :=
  register_handle 301 (new_object (DescBody {| automatic := false; describes := 0 |})) 600 after_removal.

Example late_destruction_removes_a_new_handle :
  get_statement (handles shared_start) 300 = Some freed_statement /\
  after_removal !! 301 = None /\
  get_descriptor after_reuse 301 = Some {| automatic := false; describes := 0 |} /\
  get_descriptor (destroy_statement freed_statement after_reuse) 301 = None.
Proof. vm_compute. auto. Qed.
