(* ===== verification/HandleLocks.v ===== *)
(** * Operation leases

    [HandleRegistry::lock_handles] ([odbc/odbc_handles.cpp]) and the threads
    that call the driver.  A lease names the handles of a call and the handles
    above them up to the connection, keeps their objects alive and locks their
    recursive mutexes in the order of their addresses.  One call takes a second
    lease while it holds its first: [SQLEndTran] on an environment locks the
    connections below it and then calls itself on each.

    The registry's own mutex is held for a few instructions and never while
    another is awaited, so what it protects is one step.  Listing the children
    of an environment and naming them for the second lease is one step too. *)

From stdpp Require Import sorting.
From S2P Require Import Prelude Digits Diagnostics CursorName PgSession OdbcTransaction Registry HandleApi HandleLayout.

Section Locks.
Context {B : Type} `{!BackendSession B}.
Abbreviation Handles := (gmap Z (Entry (B := B))).
Implicit Types m : Handles.

(** ** Naming the handles of a lease *)

(** The climb from one requested handle; [named] holds the keys found so far. *)
Fixpoint climb (levels : nat) m (named : list Z) (h : Z) : list Z :=
  match levels with
  | O => named
  | S levels =>
      if h =? 0 then named
      else match m !! h with
           | None => named
           | Some e =>
               if bool_decide (h ∈ named) then named
               else match get_type (object e) with
                    | Connection => h :: named
                    | _ => climb levels m (h :: named) (parent e)
                    end
           end
  end.

Definition lock_handles m (hs : list Z) : list Z := merge_sort Z.le (foldl (climb 4 m) [] hs).

(** ** Threads *)

(** The mutex of an object, by the kind of the object and its address. *)
Abbreviation Mutex := (HandleType * Z)%type.

Definition mutex_at m (h : Z) : option Mutex :=
  e ← m !! h; Some (get_type (object e), h).

Definition mutexes m (hs : list Z) : list Mutex := omap (mutex_at m) hs.

(** What a call does after its lease: most work and return; [SQLEndTran] on an
    environment goes on to its connections. *)
Inductive Todo :=
| Work
| ThenChildren (env : Z)
| ThenEach (connections : list Z).

Inductive Thread :=
| Resting
| Busy (held wants : list Mutex) (todo : Todo).

Inductive ApiCall :=
| OnHandle (h : Z)
| CopyDesc (source target : Z)
| EndTranEnv (env : Z).

Definition requested (c : ApiCall) : list Z :=
  match c with OnHandle h => [h] | CopyDesc s t => [s; t] | EndTranEnv e => [e] end.

Definition after (c : ApiCall) : Todo := match c with EndTranEnv e => ThenChildren e | _ => Work end.

(** Applications copy descriptors, not environments. *)
Definition proper m (c : ApiCall) : Prop :=
  match c with
  | CopyDesc s t => has_type m Environment s = false /\ has_type m Environment t = false
  | _ => True
  end.

Record System := { registry : Handles; threads : list Thread }.

Definition holds (t : Thread) (x : Mutex) : Prop := match t with Busy held _ _ => x ∈ held | Resting => False end.
Definition pins (t : Thread) (x : Mutex) : Prop :=
  match t with Busy held wants _ => x ∈ held \/ x ∈ wants | Resting => False end.

Definition well_laid m : Prop := exists next, layout (skels m) next.

(** What one thread does next: a lock it gets, its second lease, its call on the
    next connection, its return. *)
Inductive advance (s : System) (i : nat) : System -> Prop :=
| Acquire held x wants todo :
    threads s !! i = Some (Busy held (x :: wants) todo) ->
    (forall j t, threads s !! j = Some t -> j <> i -> ~ holds t x) ->
    advance s i {| registry := registry s; threads := <[i := Busy (x :: held) wants todo]> (threads s) |}
| TakeChildren held e :
    threads s !! i = Some (Busy held [] (ThenChildren e)) ->
    has_type (registry s) Environment e = true ->
    let cs := child_handles (registry s) e Connection in
    advance s i {| registry := registry s;
      threads := <[i := Busy held (mutexes (registry s) (lock_handles (registry s) cs)) (ThenEach cs)]> (threads s) |}
| RefuseChildren held e :
    threads s !! i = Some (Busy held [] (ThenChildren e)) ->
    has_type (registry s) Environment e = false ->
    advance s i {| registry := registry s; threads := <[i := Resting]> (threads s) |}
| CallNext held c cs :
    threads s !! i = Some (Busy held [] (ThenEach (c :: cs))) ->
    advance s i {| registry := registry s;
      threads := <[i := Busy held (mutexes (registry s) (lock_handles (registry s) [c])) (ThenEach cs)]> (threads s) |}
| Return held todo :
    threads s !! i = Some (Busy held [] todo) -> todo = Work \/ todo = ThenEach [] ->
    advance s i {| registry := registry s; threads := <[i := Resting]> (threads s) |}.

(** Besides, a thread starts a call, and the registry changes.  A lease keeps its
    objects alive, so the address of one is not another object's meanwhile. *)
Inductive step (s : System) : System -> Prop :=
| Advance i s' : advance s i s' -> step s s'
| Start i c :
    threads s !! i = Some Resting -> proper (registry s) c ->
    step s {| registry := registry s;
      threads := <[i := Busy [] (mutexes (registry s) (lock_handles (registry s) (requested c))) (after c)]> (threads s) |}
| Change m' :
    well_laid m' ->
    (forall i t x y, threads s !! i = Some t -> pins t x -> mutex_at m' x.2 = Some y -> y = x) ->
    step s {| registry := m'; threads := threads s |}.

(** ** What a lease locks *)

Lemma climb_spec levels m named h x :
  x ∈ climb levels m named h -> x ∈ named \/ (is_Some (m !! x) /\ x <> 0).
Proof.
  revert named h. induction levels as [|n IH]; intros named h; cbn [climb]; [by left|].
  destruct (Z.eqb_spec h 0); [by left|]. destruct (m !! h) as [e|] eqn:He; [|by left].
  case_bool_decide; [by left|].
  assert (x ∈ h :: named -> x ∈ named \/ (is_Some (m !! x) /\ x <> 0)) as Hcons.
  { intros [->|?]%elem_of_cons; [right; split; [by exists e|done]|by left]. }
  destruct (get_type (object e)); try exact Hcons; intros [?|?]%IH; auto.
Qed.

Lemma NoDup_climb levels m named h : NoDup named -> NoDup (climb levels m named h).
Proof.
  revert named h. induction levels as [|n IH]; intros named h Hn; cbn [climb]; [done|].
  destruct (h =? 0); [done|]. destruct (m !! h) as [e|]; [|done]. case_bool_decide; [done|].
  assert (NoDup (h :: named)) by (by apply list.NoDup_cons). destruct (get_type (object e)); auto.
Qed.

Lemma climb_keeps levels m named h x : x ∈ named -> x ∈ climb levels m named h.
Proof.
  revert named h. induction levels as [|n IH]; intros named h Hx; cbn [climb]; [done|].
  destruct (h =? 0); [done|]. destruct (m !! h) as [e|]; [|done]. case_bool_decide; [done|].
  destruct (get_type (object e)); try apply IH; by right.
Qed.

Lemma lock_handles_sorted m hs : StronglySorted Z.le (lock_handles m hs) /\ NoDup (lock_handles m hs).
Proof.
  unfold lock_handles. split.
  - apply (StronglySorted_merge_sort Z.le).
  - rewrite merge_sort_Permutation. assert (forall l, NoDup l -> NoDup (foldl (climb 4 m) l hs)) as H.
    { induction hs as [|h hs IH]; intros l Hl; cbn [foldl]; [done|]. by apply IH, NoDup_climb. }
    apply H. constructor.
Qed.

Lemma lock_handles_In m hs x :
  x ∈ lock_handles m hs <-> x ∈ foldl (climb 4 m) [] hs.
Proof. unfold lock_handles. by rewrite merge_sort_Permutation. Qed.

Lemma climb_list_keeps m hs l x : x ∈ l -> x ∈ foldl (climb 4 m) l hs.
Proof. revert l. induction hs as [|h hs IH]; intros l Hl; cbn [foldl]; [done|]. by apply IH, climb_keeps. Qed.

Lemma climb_requested n m named h e : h <> 0 -> m !! h = Some e -> h ∈ climb (S n) m named h.
Proof.
  intros H0 He. cbn [climb]. rewrite (proj2 (Z.eqb_neq _ _) H0), He. case_bool_decide; [done|].
  destruct (get_type (object e)); try (apply climb_keeps; by left). by left.
Qed.

(** A handle that is asked for and registered is locked. *)
Lemma lock_handles_requested m hs h :
  h ∈ hs -> h <> 0 -> is_Some (m !! h) -> h ∈ lock_handles m hs.
Proof.
  intros Hin H0 [e He]. apply lock_handles_In. generalize (@nil Z) as l.
  induction hs as [|x hs IH]; intros l; [by apply elem_of_nil in Hin|]. cbn [foldl].
  apply elem_of_cons in Hin as [<-|Hin]; [|by apply IH]. by eapply climb_list_keeps, climb_requested.
Qed.

(** The chain above a handle that is no environment stops at a connection. *)
Lemma climb_no_env levels m next named h x :
  layout (skels m) next -> has_type m Environment h = false ->
  x ∈ climb levels m named h -> x ∈ named \/ has_type m Environment x = false.
Proof.
  intros HL. revert named h. induction levels as [|n IH]; intros named h Hh; cbn [climb]; [by left|].
  destruct (h =? 0); [by left|]. destruct (m !! h) as [e|] eqn:He; [|by left]. case_bool_decide; [by left|].
  assert (x ∈ h :: named -> x ∈ named \/ has_type m Environment x = false) as Hcons.
  { intros [->|?]%elem_of_cons; [by right|by left]. }
  assert (skels m !! h = Some (parent e, kind (body (object e)))) as Kh by (apply skels_Some; eauto).
  assert ((forall v, body (object e) <> EnvBody v) -> (forall w, body (object e) <> ConnBody w) ->
          has_type m Environment (parent e) = false) as Hpar.
  { intros Hn1 Hn2. assert (exists q t, skels m !! parent e = Some (q, t) /\ t <> KEnv) as (q & t & Kp & Ht).
    { destruct (body (object e)) as [v|w|s|d]; cbn [kind] in Kh; [by destruct (Hn1 v)|by destruct (Hn2 w)|..].
      - apply (stmt_parent _ _ HL) in Kh as [_ [q Kq]]. by exists q, KConn.
      - apply (desc_parent _ _ HL) in Kh. destruct (automatic d).
        + destruct Kh as (q & s & Kq). by exists q, (KStmt s).
        + destruct Kh as (q & Kq). by exists q, KConn. }
    unfold has_type. apply skels_Some in Kp as (ep & -> & _ & Hk). apply bool_decide_eq_false. unfold get_type.
    destruct (body (object ep)); cbn in Hk; congruence. }
  unfold has_type, get_type in Hh |- *. rewrite He in Hh. unfold get_type in *.
  destruct (body (object e)) as [v|w|s|d] eqn:Eb; [by rewrite bool_decide_true in Hh|exact Hcons|..];
    (intros Hx; apply IH in Hx; [destruct Hx as [Hx|Hx]; [by apply Hcons|by right]|by apply Hpar]).
Qed.

Lemma climb_env m named h next :
  layout (skels m) next -> has_type m Environment h = true -> h ∉ named ->
  climb 4 m named h = h :: named.
Proof.
  intros HL Hh Hn. unfold has_type in Hh. destruct (m !! h) as [e|] eqn:He; [|done]. apply bool_decide_eq_true in Hh.
  assert (skels m !! h = Some (parent e, kind (body (object e)))) as Kh by (apply skels_Some; eauto).
  assert (h <> 0) as H0 by (intros ->; by rewrite (null_free _ _ HL) in Kh).
  unfold get_type in Hh. destruct (body (object e)) eqn:Eb; try done. cbn [kind] in Kh.
  apply (env_root _ _ HL) in Kh. cbn [climb]. rewrite (proj2 (Z.eqb_neq _ _) H0), He.
  rewrite bool_decide_false by done. unfold get_type. rewrite Eb, Kh. done.
Qed.

Lemma length_climb levels m named h : (length (climb levels m named h) <= levels + length named)%nat.
Proof.
  revert named h. induction levels as [|n IH]; intros named h; cbn [climb]; [lia|].
  destruct (h =? 0); [lia|]. destruct (m !! h) as [e|]; [|lia]. case_bool_decide; [lia|].
  destruct (get_type (object e)); specialize (IH (h :: named) (parent e)); cbn in *; lia.
Qed.

(** ** The order of the mutexes: environments first, then by address *)

Definition of_env (x : Mutex) : bool := bool_decide (x.1 = Environment).
Definition mlt (x y : Mutex) : bool :=
  if of_env x then negb (of_env y) || (x.2 <? y.2) else negb (of_env y) && (x.2 <? y.2).

Lemma mlt_trans x y z : mlt x y -> mlt y z -> mlt x z.
Proof.
  unfold mlt. destruct (of_env x), (of_env y), (of_env z); cbn; try done.
  all: rewrite !Is_true_true, !Z.ltb_lt; lia.
Qed.

Lemma elem_of_mutexes m hs x : x ∈ mutexes m hs <-> x.2 ∈ hs /\ mutex_at m x.2 = Some x.
Proof.
  unfold mutexes. rewrite list_elem_of_omap. split.
  - intros (h & Hh & Hx). assert (x.2 = h) as <-; [|done].
    unfold mutex_at in Hx. destruct (m !! h); [|done]. cbn in Hx. by simplify_eq.
  - intros [H1 H2]. by exists (x.2).
Qed.

Lemma mutex_env m x : mutex_at m x.2 = Some x -> of_env x = has_type m Environment x.2.
Proof.
  unfold mutex_at, has_type, of_env. destruct (m !! x.2) as [e|]; [|done]. cbn. intros [= E]. by rewrite <- E.
Qed.

Lemma mutexes_sorted m hs b :
  StronglySorted Z.le hs -> NoDup hs -> (forall x, x ∈ mutexes m hs -> of_env x = b) ->
  StronglySorted mlt (mutexes m hs).
Proof.
  induction hs as [|h hs IH]; intros Hs Hnd Hb; [constructor|]. cbn.
  apply StronglySorted_inv in Hs as [Hs Hle]. apply list.NoDup_cons in Hnd as [Hh Hnd].
  destruct (mutex_at m h) as [x|] eqn:Ex.
  - assert (x.2 = h) as Hx2. { unfold mutex_at in Ex. destruct (m !! h); [|done]. cbn in Ex. by simplify_eq. }
    assert (x ∈ mutexes m (h :: hs)) as Hx. { apply elem_of_mutexes. rewrite Hx2. split; [by left|done]. }
    constructor.
    + apply IH; [done..|]. intros y Hy. apply Hb. apply elem_of_mutexes in Hy as [? ?]. apply elem_of_mutexes.
      split; [by right|done].
    + apply list.Forall_forall. intros y Hy. assert (y ∈ mutexes m (h :: hs)) as Hy'.
      { apply elem_of_mutexes in Hy as [? ?]. apply elem_of_mutexes. split; [by right|done]. }
      apply elem_of_mutexes in Hy as [Hyin _].
      assert (x.2 < y.2) as Hlt.
      { rewrite list.Forall_forall in Hle. specialize (Hle _ Hyin). rewrite Hx2.
        assert (y.2 <> h) by (intros E; rewrite E in Hyin; done). lia. }
      unfold mlt. rewrite (Hb x Hx), (Hb y Hy'). apply Is_true_true. rewrite (proj2 (Z.ltb_lt _ _) Hlt). by destruct b.
  - apply IH; [done..|]. intros y Hy. apply Hb. apply elem_of_mutexes in Hy as [? ?]. apply elem_of_mutexes.
    split; [by right|done].
Qed.

(** The lease of a proper call is in the order of the mutexes. *)
Lemma lease_no_env m next hs :
  layout (skels m) next -> (forall h, h ∈ hs -> has_type m Environment h = false) ->
  StronglySorted mlt (mutexes m (lock_handles m hs)) /\
  (forall x, x ∈ mutexes m (lock_handles m hs) -> of_env x = false).
Proof.
  intros HL Hhs. assert (forall x, x ∈ mutexes m (lock_handles m hs) -> of_env x = false) as Hne.
  { intros x [Hx Hm]%elem_of_mutexes. rewrite (mutex_env m x Hm). apply lock_handles_In in Hx.
    revert Hx Hhs. generalize (x.2) as y. intros y.
    assert (forall l, (forall z, z ∈ l -> has_type m Environment z = false) ->
      (forall h, h ∈ hs -> has_type m Environment h = false) -> y ∈ foldl (climb 4 m) l hs -> has_type m Environment y = false) as H.
    { clear -HL. induction hs as [|h hs IH]; intros l Hl Hhs Hy; cbn [foldl] in Hy; [by apply Hl|].
      eapply IH; [|intros z Hz; apply Hhs; by right|done]. intros z Hz.
      apply (climb_no_env 4 m next l h z HL) in Hz as [Hz|Hz]; [by apply Hl|done|]. apply Hhs. by left. }
    intros Hy Hhs'. eapply H; [|done|done]. intros z Hz. by apply elem_of_nil in Hz. }
  split; [|done]. destruct (lock_handles_sorted m hs) as [S1 S2]. by eapply mutexes_sorted.
Qed.

Lemma lease_one m next h :
  layout (skels m) next ->
  StronglySorted mlt (mutexes m (lock_handles m [h])) /\
  ((forall x, x ∈ mutexes m (lock_handles m [h]) -> of_env x = true) \/
   exists t, t <> Environment /\ (t, h) ∈ mutexes m (lock_handles m [h])).
Proof.
  intros HL. destruct (has_type m Environment h) eqn:Eh.
  - assert (lock_handles m [h] = [h]) as ->.
    { unfold lock_handles. cbn [foldl]. rewrite (climb_env m [] h next HL Eh) by apply not_elem_of_nil. done. }
    assert (forall x, x ∈ mutexes m [h] -> of_env x = true) as Hx.
    { intros x [Hx Hm]%elem_of_mutexes. apply list_elem_of_singleton in Hx. rewrite (mutex_env m x Hm), Hx. done. }
    split; [|by left]. eapply mutexes_sorted; [repeat constructor|apply NoDup_singleton|done].
  - destruct (lease_no_env m next [h] HL) as [H1 H2].
    { intros x Hx. by apply list_elem_of_singleton in Hx as ->. }
    split; [done|]. destruct (m !! h) as [e|] eqn:He.
    + right. unfold has_type in Eh. rewrite He in Eh. apply bool_decide_eq_false in Eh.
      exists (get_type (object e)). split; [done|]. apply elem_of_mutexes. cbn [snd]. split.
      * apply lock_handles_requested; [by left| |by exists e]. intros ->.
        pose proof (null_free _ _ HL) as Hn. rewrite skels_lookup, He in Hn. done.
      * unfold mutex_at. by rewrite He.
    + left. intros x [Hx Hm]%elem_of_mutexes. exfalso. apply lock_handles_In in Hx. cbn [foldl climb] in Hx.
      rewrite He in Hx. destruct (h =? 0); by apply elem_of_nil in Hx.
Qed.

(** ** The invariant of the threads *)

Definition named_by (held wants : list Mutex) (x : Mutex) : Prop := x ∈ held \/ x ∈ wants.

Definition thread_ok (t : Thread) : Prop :=
  match t with
  | Resting => True
  | Busy held wants todo =>
      StronglySorted mlt wants /\
      (forall x, x ∈ wants -> x ∈ held \/ forall y, y ∈ held -> mlt y x) /\
      match todo with
      | Work => True
      | ThenChildren e =>
          (forall x, named_by held wants x -> of_env x = true) \/
          exists t, t <> Environment /\ named_by held wants (t, e)
      | ThenEach cs => forall c, c ∈ cs -> named_by held wants (Connection, c)
      end
  end.

Record system_ok (s : System) : Prop := {
  registry_laid : well_laid (registry s);
  threads_ok i t : threads s !! i = Some t -> thread_ok t;
  pinned i t x y : threads s !! i = Some t -> pins t x -> mutex_at (registry s) x.2 = Some y -> y = x;
  apart i j t u x : threads s !! i = Some t -> threads s !! j = Some u -> i <> j -> holds t x -> holds u x -> False
}.

(** Changing one thread to one that is well ordered, pins what is consistent and
    holds nothing another holds. *)
Lemma system_ok_update s i t :
  system_ok s -> thread_ok t -> (i < length (threads s))%nat ->
  (forall x y, pins t x -> mutex_at (registry s) x.2 = Some y -> y = x) ->
  (forall j u x, threads s !! j = Some u -> j <> i -> holds t x -> holds u x -> False) ->
  system_ok {| registry := registry s; threads := <[i := t]> (threads s) |}.
Proof.
  intros Hs Ht Hi Hp Ha. split; cbn [registry threads].
  - by apply registry_laid.
  - intros j u Hj. destruct (decide (i = j)) as [<-|Hne].
    + rewrite list_lookup_insert_eq in Hj by done. by simplify_eq.
    + rewrite list_lookup_insert_ne in Hj by done. by eapply threads_ok.
  - intros j u x y Hj. destruct (decide (i = j)) as [<-|Hne].
    + rewrite list_lookup_insert_eq in Hj by done. simplify_eq. apply Hp.
    + rewrite list_lookup_insert_ne in Hj by done. by eapply pinned.
  - intros j k u v x Hj Hk Hne Hu Hv.
    destruct (decide (i = j)) as [<-|Hij], (decide (i = k)) as [<-|Hik]; [done|..].
    + rewrite list_lookup_insert_eq in Hj by done. rewrite list_lookup_insert_ne in Hk by done.
      injection Hj as <-. exact (Ha k v x Hk (not_eq_sym Hik) Hu Hv).
    + rewrite list_lookup_insert_ne in Hj by done. rewrite list_lookup_insert_eq in Hk by done.
      injection Hk as <-. exact (Ha j u x Hj (not_eq_sym Hij) Hv Hu).
    + rewrite list_lookup_insert_ne in Hj by done. rewrite list_lookup_insert_ne in Hk by done.
      exact (apart s Hs j k u v x Hj Hk Hne Hu Hv).
Qed.

Lemma resting_ok s i : system_ok s -> (i < length (threads s))%nat ->
  system_ok {| registry := registry s; threads := <[i := Resting]> (threads s) |}.
Proof. intros Hs Hi. by apply system_ok_update. Qed.

Lemma acquire_ok s i held x wants todo :
  system_ok s -> threads s !! i = Some (Busy held (x :: wants) todo) ->
  (forall j t, threads s !! j = Some t -> j <> i -> ~ holds t x) ->
  system_ok {| registry := registry s; threads := <[i := Busy (x :: held) wants todo]> (threads s) |}.
Proof.
  intros Hs Hi Hfree. pose proof (threads_ok s Hs i _ Hi) as (Hsort & Hord & Htodo).
  apply StronglySorted_inv in Hsort as [Hsort Hx]. rewrite list.Forall_forall in Hx.
  assert (forall y, named_by (x :: held) wants y <-> named_by held (x :: wants) y) as Hn.
  { intros y. unfold named_by. rewrite !elem_of_cons. tauto. }
  apply system_ok_update; [done| |by eapply lookup_lt_Some|..].
  - split; [done|]. split.
    + intros y Hy. destruct (Hord y) as [Hh|Hlt]; [by right|left; by right|].
      right. intros z [->|Hz]%elem_of_cons; [by apply Hx|by apply Hlt].
    + destruct todo as [|e|cs]; [done|..].
      * destruct Htodo as [Hall|(t & Ht & Hin)]; [left; intros y Hy; by apply Hall, Hn|right].
        exists t. split; [done|by apply Hn].
      * intros c Hc. by apply Hn, Htodo.
  - intros y z Hy. apply (pinned s Hs i _ y z Hi). cbn [pins] in *. by apply Hn.
  - intros j u y Hj Hne Hy Hu. cbn [holds] in Hy. apply elem_of_cons in Hy as [->|Hy]; [by eapply Hfree|].
    exact (apart s Hs i j _ u y Hi Hj (not_eq_sym Hne) Hy Hu).
Qed.

Lemma mutexes_pinned m hs x y : x ∈ mutexes m hs -> mutex_at m x.2 = Some y -> y = x.
Proof. intros [_ Hx]%elem_of_mutexes Hy. congruence. Qed.

Lemma children_ok s i held e :
  system_ok s -> threads s !! i = Some (Busy held [] (ThenChildren e)) ->
  has_type (registry s) Environment e = true ->
  let cs := child_handles (registry s) e Connection in
  system_ok {| registry := registry s;
    threads := <[i := Busy held (mutexes (registry s) (lock_handles (registry s) cs)) (ThenEach cs)]> (threads s) |}.
Proof.
  intros Hs Hi He cs. destruct (registry_laid s Hs) as [next HL].
  pose proof (threads_ok s Hs i _ Hi) as (_ & _ & Htodo).
  assert (forall x, x ∈ held -> of_env x = true) as Henv.
  { destruct Htodo as [Hall|(t & Ht & Hin)]; [intros x Hx; apply Hall; by left|].
    exfalso. unfold has_type in He. destruct (registry s !! e) as [ee|] eqn:Ee; [|done].
    apply bool_decide_eq_true in He. apply Ht.
    assert ((Environment, e) = (t, e)) as [= ->]; [|done].
    apply (pinned s Hs i _ (t, e) (Environment, e) Hi); [exact Hin|]. unfold mutex_at. cbn. by rewrite Ee, <- He. }
  assert (forall c, c ∈ cs -> exists ec, registry s !! c = Some ec /\ get_type (object ec) = Connection) as Hcs.
  { intros c (ec & Hc & _ & Ht)%elem_of_child_handles. by exists ec. }
  destruct (lease_no_env (registry s) next cs HL) as [Hsort Hne].
  { intros c Hc. destruct (Hcs c Hc) as (ec & Hec & Ht). unfold has_type. rewrite Hec, Ht. done. }
  apply system_ok_update; [done| |by eapply lookup_lt_Some|..].
  - split; [done|]. split.
    + intros x Hx. right. intros y Hy. unfold mlt. rewrite (Henv y Hy), (Hne x Hx). done.
    + intros c Hc. right. destruct (Hcs c Hc) as (ec & Hec & Ht). apply elem_of_mutexes. cbn [snd]. split.
      * apply lock_handles_requested; [done| |by exists ec]. intros ->.
        pose proof (null_free _ _ HL) as Hn. rewrite skels_lookup, Hec in Hn. done.
      * unfold mutex_at. rewrite Hec. cbn. by rewrite Ht.
  - intros x y Hx. cbn [pins] in Hx. destruct Hx as [Hx|Hx]; [|by eapply mutexes_pinned].
    apply (pinned s Hs i _ x y Hi). by left.
  - intros j u x Hj Hne' Hx Hu. exact (apart s Hs i j _ u x Hi Hj (not_eq_sym Hne') Hx Hu).
Qed.

Lemma call_next_ok s i held c cs :
  system_ok s -> threads s !! i = Some (Busy held [] (ThenEach (c :: cs))) ->
  system_ok {| registry := registry s;
    threads := <[i := Busy held (mutexes (registry s) (lock_handles (registry s) [c])) (ThenEach cs)]> (threads s) |}.
Proof.
  intros Hs Hi. destruct (registry_laid s Hs) as [next HL].
  pose proof (threads_ok s Hs i _ Hi) as (_ & _ & Htodo).
  assert (forall c', c' ∈ c :: cs -> (Connection, c') ∈ held) as Hheld.
  { intros c' Hc'. destruct (Htodo c' Hc') as [|Hn]; [done|by apply elem_of_nil in Hn]. }
  assert (forall x, x ∈ mutexes (registry s) (lock_handles (registry s) [c]) -> x ∈ held) as Hsub.
  { intros x [Hx Hm]%elem_of_mutexes. apply lock_handles_In in Hx. cbn [foldl climb] in Hx.
    destruct (c =? 0); [by apply elem_of_nil in Hx|].
    destruct (registry s !! c) as [ec|] eqn:Ec; [|by apply elem_of_nil in Hx].
    rewrite bool_decide_false in Hx by apply not_elem_of_nil.
    assert (get_type (object ec) = Connection) as Ht.
    { assert ((get_type (object ec), c) = (Connection, c)) as [= ->]; [|done].
      apply (pinned s Hs i _ (Connection, c) _ Hi); [left; apply Hheld; by left|]. unfold mutex_at. cbn. by rewrite Ec. }
    rewrite Ht in Hx. apply list_elem_of_singleton in Hx. unfold mutex_at in Hm. rewrite Hx, Ec in Hm. cbn in Hm.
    injection Hm as Hm. rewrite <- Hm, Ht. apply Hheld. by left. }
  destruct (lease_one (registry s) next c HL) as [Hsort _].
  apply system_ok_update; [done| |by eapply lookup_lt_Some|..].
  - split; [done|]. split; [intros x Hx; left; by apply Hsub|]. intros c' Hc'. left. apply Hheld. by right.
  - intros x y Hx. apply (pinned s Hs i _ x y Hi). left. cbn in Hx. destruct Hx as [Hx|Hx]; [done|by apply Hsub].
  - intros j u x Hj Hne' Hx Hu. exact (apart s Hs i j _ u x Hi Hj (not_eq_sym Hne') Hx Hu).
Qed.

Lemma advance_system_ok s i s' : system_ok s -> advance s i s' -> system_ok s'.
Proof.
  intros Hs Ha. destruct Ha.
  - by apply acquire_ok.
  - by apply children_ok.
  - apply resting_ok; [done|by eapply lookup_lt_Some].
  - by eapply call_next_ok.
  - apply resting_ok; [done|by eapply lookup_lt_Some].
Qed.

Lemma start_system_ok s i c :
  system_ok s -> threads s !! i = Some Resting -> proper (registry s) c ->
  system_ok {| registry := registry s;
    threads := <[i := Busy [] (mutexes (registry s) (lock_handles (registry s) (requested c))) (after c)]> (threads s) |}.
Proof.
  intros Hs Hi Hc. destruct (registry_laid s Hs) as [next HL].
  assert (thread_ok (Busy [] (mutexes (registry s) (lock_handles (registry s) (requested c))) (after c))) as Hok.
  { destruct c as [h|a b|e]; cbn [requested after].
    - destruct (lease_one (registry s) next h HL) as [Hsort _]. split; [done|]. split; [|done].
      intros x _. right. intros y Hy. by apply elem_of_nil in Hy.
    - destruct Hc as [Ha Hb]. destruct (lease_no_env (registry s) next [a; b] HL) as [Hsort _].
      { intros h Hh. apply elem_of_cons in Hh as [->|Hh]; [done|]. by apply list_elem_of_singleton in Hh as ->. }
      split; [done|]. split; [|done]. intros x _. right. intros y Hy. by apply elem_of_nil in Hy.
    - destruct (lease_one (registry s) next e HL) as [Hsort Hcase]. split; [done|]. split.
      + intros x _. right. intros y Hy. by apply elem_of_nil in Hy.
      + destruct Hcase as [Hall|(t & Ht & Hin)].
        * left. intros x [Hx|Hx]; [by apply elem_of_nil in Hx|by apply Hall].
        * right. exists t. split; [done|by right]. }
  apply system_ok_update; [done|done|by eapply lookup_lt_Some|..].
  - intros x y Hx. cbn in Hx. destruct Hx as [Hx|Hx]; [by apply elem_of_nil in Hx|]. by eapply mutexes_pinned.
  - intros j u x _ _ Hx. cbn in Hx. by apply elem_of_nil in Hx.
Qed.

Lemma step_ok s s' : system_ok s -> step s s' -> system_ok s'.
Proof.
  intros Hs Hstep. destruct Hstep as [i s' Ha|i c Hi Hc|m' Hm Hpins].
  - by eapply advance_system_ok.
  - by apply start_system_ok.
  - split; cbn [registry threads]; [done|by apply threads_ok|done|by apply apart].
Qed.

(** ** Progress *)

Lemma mlt_total x y : mlt x y = false -> mlt y x = false -> of_env x = of_env y /\ x.2 = y.2.
Proof.
  unfold mlt. destruct (of_env x), (of_env y); cbn; try done; rewrite !Z.ltb_ge; intros; split; try done; lia.
Qed.

Lemma mlt_asym x y : mlt x y = true -> mlt y x = false.
Proof.
  unfold mlt. destruct (of_env x), (of_env y); cbn; try done; rewrite Z.ltb_lt, Z.ltb_ge; lia.
Qed.

Lemma exists_max (l : list Mutex) : l <> [] -> exists x, x ∈ l /\ forall y, y ∈ l -> mlt x y = false.
Proof.
  induction l as [|x l IH]; [done|]. intros _. destruct l as [|z l].
  { exists x. split; [by left|]. intros y ->%list_elem_of_singleton. unfold mlt. destruct (of_env x); cbn; apply Z.ltb_irrefl. }
  destruct IH as (w & Hw & Hmax); [done|]. destruct (mlt w x) eqn:E.
  - exists x. split; [by left|]. intros y [->|Hy]%elem_of_cons.
    + unfold mlt. destruct (of_env x); cbn; apply Z.ltb_irrefl.
    + destruct (mlt x y) eqn:Exy; [|done]. specialize (Hmax y Hy).
      assert (mlt w y = true); [|congruence]. apply Is_true_true.
      by apply (mlt_trans w x y); apply Is_true_true.
  - exists w. split; [by right|]. intros y [->|Hy]%elem_of_cons; [done|by apply Hmax].
Qed.

(** The first mutex a thread waits for. *)
Definition awaited (t : Thread) : option Mutex :=
  match t with Busy _ (x :: _) _ => Some x | _ => None end.

Lemma ready_advances s i held todo :
  threads s !! i = Some (Busy held [] todo) -> exists s', advance s i s'.
Proof.
  intros Hi. destruct todo as [|e|[|c cs]].
  - eexists. eapply Return; [done|by left].
  - destruct (has_type (registry s) Environment e) eqn:He; eexists; [by eapply TakeChildren|by eapply RefuseChildren].
  - eexists. eapply Return; [done|by right].
  - eexists. by eapply CallNext.
Qed.

Lemma held_dec s i x :
  (forall j t, threads s !! j = Some t -> j <> i -> ~ holds t x) \/
  (exists j t, threads s !! j = Some t /\ j <> i /\ holds t x).
Proof.
  assert (forall (l : list Thread) (k : nat), (forall j t, l !! j = Some t -> (k + j)%nat <> i -> ~ holds t x) \/
    (exists j t, l !! j = Some t /\ (k + j)%nat <> i /\ holds t x)) as H.
  { induction l as [|t l IH]; intros k; [by left|].
    assert (holds t x \/ ~ holds t x) as Hdec.
    { destruct t as [|held wants todo]; cbn; [right; intros []|]. destruct (decide (x ∈ held)); auto. }
    destruct (decide (k = i)) as [Hk|Hk], Hdec as [Hh|Hh], (IH (S k)) as [Hn|(j & u & Hj & Hne & Hu)];
      try (right; exists (S j), u; rewrite Nat.add_succ_r; done);
      try (right; exists 0%nat, t; rewrite Nat.add_0_r; done);
      (left; intros [|j] u Hj Hne; cbn in Hj; [simplify_eq; rewrite Nat.add_0_r in Hne; done|];
       apply (Hn j u Hj); rewrite Nat.add_succ_r in Hne; done). }
  exact (H (threads s) 0%nat).
Qed.

(** As long as a thread is busy, some thread can go on. *)
Lemma some_thread_advances s :
  system_ok s -> (exists i t, threads s !! i = Some t /\ t <> Resting) -> exists i s', advance s i s'.
Proof.
  intros Hs (i & t & Hi & Ht).
  destruct (omap awaited (threads s)) as [|x0 xs] eqn:Ew.
  { destruct t as [|held [|x wants] todo]; [done|by exists i; eapply ready_advances|].
    assert (x ∈ omap awaited (threads s)) as Hx.
    { apply list_elem_of_omap. exists (Busy held (x :: wants) todo). split; [by eapply list_elem_of_lookup_2|done]. }
    rewrite Ew in Hx. by apply elem_of_nil in Hx. }
  destruct (exists_max (x0 :: xs)) as (x & Hx & Hmax); [done|]. rewrite <- Ew in Hx, Hmax.
  apply list_elem_of_omap in Hx as (u & Hu & Hux). apply list_elem_of_lookup_1 in Hu as [k Hk].
  destruct u as [|held [|y wants] todo]; [done..|]. cbn in Hux. simplify_eq.
  destruct (held_dec s k x) as [Hfree|(j & v & Hj & Hjk & Hv)].
  { exists k. eexists. by eapply Acquire. }
  exists j. destruct v as [|hv [|y wv] tv]; [done|by eapply ready_advances|].
  destruct (threads_ok s Hs j _ Hj) as (_ & Hord & _). destruct (Hord y) as [Hy|Hlt]; [by left|..].
  - eexists. eapply Acquire; [done|]. intros l w Hl Hlj Hw. by apply (apart s Hs j l _ w y Hj Hl (not_eq_sym Hlj)).
  - specialize (Hlt x Hv). assert (y ∈ omap awaited (threads s)) as Hin.
    { apply list_elem_of_omap. exists (Busy hv (y :: wv) tv). split; [by eapply list_elem_of_lookup_2|done]. }
    specialize (Hmax y Hin). by rewrite Hmax in Hlt.
Qed.

(** ** Every call that has begun can end *)

Definition undecided (t : Thread) : nat := match t with Busy _ _ (ThenChildren _) => 1 | _ => 0 end.
Definition remaining (t : Thread) : nat :=
  match t with
  | Resting => 0
  | Busy _ wants todo => 1 + length wants + match todo with ThenEach cs => 5 * length cs | _ => 0 end
  end.

Lemma sum_update (f : Thread -> nat) l i t u :
  l !! i = Some t -> (sum_list_with f (<[i := u]> l) + f t = sum_list_with f l + f u)%nat.
Proof.
  revert i. induction l as [|x l IH]; intros [|i] Hi; [done|done|..]; cbn [lookup list_lookup insert list_insert sum_list_with] in *.
  - injection Hi as ->. clear. generalize (f t) (f u) (sum_list_with f l). intros. lia.
  - rewrite <- !Nat.add_assoc. f_equal. exact (IH i Hi).
Qed.

Lemma length_mutexes m hs : (length (mutexes m hs) <= length hs)%nat.
Proof. induction hs as [|h hs IH]; cbn; [done|]. destruct (mutex_at m h); cbn; [by apply le_n_S|by apply le_S]. Qed.

Lemma lease_length m c : (length (mutexes m (lock_handles m [c])) <= 4)%nat.
Proof.
  unfold lock_handles. etrans; [apply length_mutexes|]. rewrite merge_sort_Permutation. cbn [foldl].
  apply (length_climb 4 m [] c).
Qed.

Definition lex (a b : nat * nat) : Prop := (a.1 < b.1)%nat \/ (a.1 = b.1 /\ (a.2 < b.2)%nat).

Lemma lex_wf : well_founded lex.
Proof.
  intros [a b]. revert b. induction a as [a IHa] using lt_wf_ind. intros b. induction b as [b IHb] using lt_wf_ind.
  constructor. intros [c d] [H|[H1 H2]]; cbn in *; [by apply IHa|]. subst c. by apply IHb.
Qed.

Definition pending (s : System) : nat * nat :=
  (sum_list_with undecided (threads s), sum_list_with remaining (threads s)).

Lemma advance_decreases s i s' : advance s i s' -> lex (pending s') (pending s).
Proof.
  unfold lex, pending. intros [held x wants todo Hi _|held e Hi _ cs|held e Hi _|held c cs Hi|held todo Hi Ht]; cbn [fst snd threads].
  all: match goal with H : threads _ !! ?i = Some _ |- context [<[?i := ?u]> _] =>
    pose proof (sum_update undecided _ i _ u H) as H1; pose proof (sum_update remaining _ i _ u H) as H2 end.
  - right. destruct todo; cbn in H1, H2; lia.
  - left. cbn in H1. lia.
  - left. cbn in H1. lia.
  - right. pose proof (lease_length (registry s) c). cbn [undecided remaining length] in H1, H2. lia.
  - right. destruct Ht as [->| ->]; cbn in H1, H2; lia.
Qed.

Lemma drain s : system_ok s ->
  exists s', rtc (fun a b => exists i, advance a i b) s s' /\ Forall (eq Resting) (threads s').
Proof.
  remember (pending s) as w eqn:Ew. revert s Ew. induction w as [w IH] using (well_founded_ind lex_wf). intros s -> Hs.
  destruct (decide (Forall (fun t => awaited t = None /\ undecided t = 0%nat /\ remaining t = 0%nat) (threads s))) as [Hall|Hno].
  - exists s. split; [constructor|]. eapply list.Forall_impl; [done|]. intros [|held wants todo] (_ & _ & Hr); [done|]. cbn in Hr. lia.
  - destruct (some_thread_advances s Hs) as (i & s1 & Ha).
    { apply not_Forall_Exists in Hno; [|apply _]. apply list.Exists_exists in Hno as (t & Ht & Hn).
      apply list_elem_of_lookup_1 in Ht as [i Hi]. exists i, t. split; [done|]. intros ->. by apply Hn. }
    destruct (IH (pending s1) (advance_decreases s i s1 Ha) s1 eq_refl (advance_system_ok s i s1 Hs Ha)) as (s' & Hrun & Hrest).
    exists s'. split; [|done]. eapply rtc_l; [by exists i|done].
Qed.

Definition quiet (s : System) : Prop := well_laid (registry s) /\ Forall (eq Resting) (threads s).

Lemma quiet_ok s : quiet s -> system_ok s.
Proof.
  intros [Hm Hr]. assert (forall i t, threads s !! i = Some t -> t = Resting) as Ht.
  { intros i t Hi. rewrite list.Forall_forall in Hr. symmetry. apply Hr. by eapply list_elem_of_lookup_2. }
  split; [done|..].
  - intros i t Hi. by rewrite (Ht i t Hi).
  - intros i t x y Hi. by rewrite (Ht i t Hi).
  - intros i j t u x Hi _ _ Hh. by rewrite (Ht i t Hi) in Hh.
Qed.


(** A lease on a handle locks the connection above it, so that two calls on one
    connection never work at the same time. *)
Lemma lease_locks_connection m next h c :
  layout (skels m) next -> is_Some (m !! h) -> get_connection_for_handle m h = Some c -> c ∈ lock_handles m [h].
Proof.
  intros HL _ Hc. apply lock_handles_In. cbn [foldl]. unfold get_connection_for_handle in Hc.
  assert (forall n named h, (forall x, x ∈ named -> x <> 0) -> connection_above n m h = Some c ->
            ranked m -> (forall x e, x ∈ named -> m !! x = Some e -> forall eh, m !! h = Some eh -> (rank (object eh) < rank (object e))%nat) ->
            c ∈ climb n m named h) as Hgen; [|eapply Hgen; [by intros ? ?%elem_of_nil|exact Hc|by eapply layout_ranked|by intros ? ? ?%elem_of_nil]].
  clear h Hc. induction n as [|n IH]; intros named h Hnz Hc Hr Hrank; cbn [connection_above climb] in *; [done|].
  destruct (h =? 0) eqn:E0; [done|]. destruct (m !! h) as [e|] eqn:He; [|done].
  assert (h ∉ named) as Hnew. { intros Hin. specialize (Hrank h e Hin He e eq_refl). lia. }
  rewrite bool_decide_false by done.
  assert (forall x ex, x ∈ h :: named -> m !! x = Some ex -> forall eh, m !! parent e = Some eh -> (rank (object eh) < rank (object ex))%nat) as Hrank'.
  { intros x ex [->|Hx]%elem_of_cons Hex eh Heh.
    - simplify_eq. by eapply Hr.
    - specialize (Hrank x ex Hx Hex e eq_refl). specialize (Hr h e eh He Heh). lia. }
  assert (forall x, x ∈ h :: named -> x <> 0) as Hnz'.
  { intros x [->|Hx]%elem_of_cons; [by apply Z.eqb_neq|by apply Hnz]. }
  destruct (get_type (object e)); try (by apply IH). simplify_eq. by left.
Qed.
End Locks.


(** ** Two threads on one connection *)

#[local] Existing Instance no_backend.

(** One thread works on a statement while another ends the transactions of the
    environment: the second waits for the lock of the connection, and gets it. *)
Definition two_threads : System := {| registry := handles (perform_calls sample_calls new_driver); threads := [Resting; Resting] |}.
Definition both_called : System := {|
  registry := registry two_threads;
  threads := [Busy [] [(Connection, 200); (Statement, 300)] Work; Busy [] [(Environment, 100)] (ThenChildren 100)]
|}.

Lemma two_threads_quiet : quiet two_threads.
Proof.
  split; [|repeat constructor]. destruct (perform_calls_ok sample_calls new_driver sample_calls_allowed new_driver_ok) as [HL _].
  by eexists.
Qed.

Lemma both_called_reached : rtc step two_threads both_called.
Proof.
  eapply rtc_l; [exact (Start two_threads 0 (OnHandle 300) eq_refl I)|].
  eapply rtc_l; [refine (Start _ 1 (EndTranEnv 100) _ I); reflexivity|].
  match goal with |- rtc step ?a ?b => assert (a = b) as ->; [|constructor] end.
  unfold both_called. f_equal.
Qed.

