(* ===== verification/ResultConvert.v ===== *)
(** * A result cell to the application's buffer

    The conversions of a result value that [odbc/odbc_handles.cpp] decides itself
    before it calls [TextDataConverter]: which C buffers a column may be fetched
    into and how wide an element of their array is, character data and booleans
    as bytes, host representations of fixed types, and the length an indicator
    reports without a buffer.

    Sizes are those of a 64-bit build.  A hexadecimal text is never longer than
    [std::string::max_size()]: the cells come from bounded responses. *)

From S2P Require Import Prelude Digits Utf8 Unicode Hex PgIeee ScaledDecimal ResultTypes ConvertNumber ConvertTime ConvertData Diagnostics.

(** ** Layout of the buffers *)

Definition sqllen_max : Z := 2 ^ 63 - 1.

(** [static_cast<std::size_t>]. *)
Definition to_size_t (n : Z) : Z := n mod 2 ^ 64.

Definition is_character_sql_type (sql_type : Z) : bool :=
  one_of sql_type [SQL_CHAR; SQL_VARCHAR; SQL_LONGVARCHAR; SQL_WCHAR; SQL_WVARCHAR; SQL_WLONGVARCHAR].

Definition is_binary_sql_type (sql_type : Z) : bool :=
  one_of sql_type [SQL_BINARY; SQL_VARBINARY; SQL_LONGVARBINARY].

Definition bound_column_stride (type len : Z) : option Z :=
  let c := canonical_c_type type in
  if one_of c [SQL_C_CHAR; SQL_C_WCHAR; SQL_C_BINARY] then if len <? 0 then None else Some len
  else if c =? SQL_C_STINYINT then Some 1
  else if one_of c [SQL_C_UTINYINT; SQL_C_BIT] then Some 1
  else if c =? SQL_C_SSHORT then Some 2
  else if c =? SQL_C_USHORT then Some 2
  else if c =? SQL_C_SLONG then Some 4
  else if c =? SQL_C_ULONG then Some 4
  else if c =? SQL_C_SBIGINT then Some 8
  else if c =? SQL_C_UBIGINT then Some 8
  else if c =? SQL_C_FLOAT then Some 4
  else if c =? SQL_C_DOUBLE then Some 8
  else if c =? SQL_C_NUMERIC then Some 19
  else if one_of c [SQL_C_DATE; SQL_C_TYPE_DATE] then Some 6
  else if one_of c [SQL_C_TIME; SQL_C_TYPE_TIME] then Some 6
  else if one_of c [SQL_C_TIMESTAMP; SQL_C_TYPE_TIMESTAMP] then Some 16
  else None.

Definition position_of (p : Z -> bool) (from : nat) (s : bytes) : option Z :=
  (fun i => Z.of_nat (from + i.1)) <$> list_find (fun c => p c = true) (drop from s).

(** The characters of a number, a date or a time that may not be cut off. *)
Definition required_length (sql_type : Z) (value : bytes) : Z :=
  let decimal_type := one_of sql_type [SQL_DECIMAL; SQL_NUMERIC] in
  let approximate_type := one_of sql_type [SQL_REAL; SQL_FLOAT; SQL_DOUBLE] in
  let date_type := sql_type =? SQL_TYPE_DATE in
  let time_type := sql_type =? SQL_TYPE_TIME in
  let timestamp_type := sql_type =? SQL_TYPE_TIMESTAMP in
  let decimal_point :=
    if decimal_type || approximate_type || time_type || timestamp_type
    then position_of (Z.eqb (ch ".")) 0 value else None in
  let scientific := approximate_type &&
    bool_decide (is_Some (position_of (fun c => (c =? ch "e") || (c =? ch "E")) 0 value)) in
  let time_zone := (time_type || timestamp_type) &&
    bool_decide (is_Some (position_of (fun c => (c =? ch "+") || (c =? ch "-")) (if time_type then 8 else 19) value)) in
  if scientific || date_type || time_zone then size value
  else match decimal_point with None => size value | Some p => p end.

Definition value_bearing_type (sql_type : Z) : bool :=
  one_of sql_type [SQL_TINYINT; SQL_SMALLINT; SQL_INTEGER; SQL_BIGINT; SQL_DECIMAL; SQL_NUMERIC; SQL_REAL;
                   SQL_FLOAT; SQL_DOUBLE; SQL_TYPE_DATE; SQL_TYPE_TIME; SQL_TYPE_TIMESTAMP].

Section Result.
Context (w : wide) (lib : FloatLibrary) (local : option (Z * Z * Z)).

Definition unit_size (target_type : Z) : Z := if target_type =? SQL_C_WCHAR then wchar_size w else 1.

Definition value_preserving_character_buffer_fits (sql_type target_type : Z) (value : bytes) (buffer_length offset : Z)
  : bool :=
  if negb (value_bearing_type sql_type) || negb (one_of target_type [SQL_C_CHAR; SQL_C_WCHAR]) then true
  else
    let required := required_length sql_type value in
    if required <=? offset then true
    else required - offset <? to_size_t buffer_length / unit_size target_type.

(** ** Conversions *)

Definition convert_character_result_to_binary (value : bytes) (buffer_length : Z) : Converted :=
  let copy_length := Z.min (to_size_t buffer_length) (size value) in
  {| code := if copy_length <? size value then SQL_SUCCESS_WITH_INFO else SQL_SUCCESS; issue := None;
     buffer := if 0 <? copy_length then Some (Raw (take (Z.to_nat copy_length) value)) else None;
     indicator := Some (size value) |}.

Definition bit_result_as_text (value : bytes) : option bytes :=
  if beq value (str "1") then Some (str "1") else if beq value (str "0") then Some (str "0") else None.

Definition bit_uses_decimal_representation (target_type : Z) : bool :=
  one_of target_type [SQL_C_CHAR; SQL_C_WCHAR; SQL_C_STINYINT; SQL_C_UTINYINT; SQL_C_USHORT; SQL_C_ULONG;
    SQL_C_UBIGINT; SQL_C_SSHORT; SQL_C_SLONG; SQL_C_SBIGINT; SQL_C_FLOAT; SQL_C_DOUBLE; SQL_C_NUMERIC].

Definition convert_bit_result_to_binary (value : bytes) (buffer_length : Z) : Converted :=
  match bit_result_as_text value with
  | None => failed ConversionIssue.InvalidCharacterValue
  | Some bit =>
      if buffer_length <? 1 then failed ConversionIssue.NumericValueOutOfRange
      else {| code := SQL_SUCCESS; issue := None;
              buffer := Some (Bit (if at_pos bit 0 =? ch "1" then 1 else 0)); indicator := Some 1 |}
  end.

(** [None] is the code 0. *)
Definition fixed_binary_result_c_type (sql_type : Z) : option Z :=
  if one_of sql_type [SQL_TYPE_DATE; SQL_DATE] then Some SQL_C_TYPE_DATE
  else if one_of sql_type [SQL_TYPE_TIME; SQL_TIME] then Some SQL_C_TYPE_TIME
  else if one_of sql_type [SQL_TYPE_TIMESTAMP; SQL_TIMESTAMP] then Some SQL_C_TYPE_TIMESTAMP
  else if sql_type =? SQL_TINYINT then Some SQL_C_STINYINT
  else if sql_type =? SQL_SMALLINT then Some SQL_C_SSHORT
  else if sql_type =? SQL_INTEGER then Some SQL_C_SLONG
  else if sql_type =? SQL_BIGINT then Some SQL_C_SBIGINT
  else if sql_type =? SQL_REAL then Some SQL_C_FLOAT
  else if one_of sql_type [SQL_FLOAT; SQL_DOUBLE] then Some SQL_C_DOUBLE
  else if one_of sql_type [SQL_NUMERIC; SQL_DECIMAL] then Some SQL_C_NUMERIC
  else None.

Definition widest_scratch : Z := 19.

(** The host object of the value; the zeroed padding of a structure is not part
    of an object.  [null_buffer] asks for the length alone. *)
Definition convert_fixed_result_to_binary (c_type : Z) (value : bytes) (null_buffer : bool) (buffer_length : Z)
  (source_precision source_scale : Z) : Converted :=
  let numeric := c_type =? SQL_C_NUMERIC in
  if numeric && ((source_precision <? 1) || (38 <? source_precision) || (source_scale <? -128) ||
                 (to_smallint source_precision <? source_scale))
  then failed ConversionIssue.NumericValueOutOfRange
  else
    let r := convert_data w lib local value c_type false widest_scratch
               (if numeric then to_smallint source_precision else 38) (if numeric then source_scale else 0) in
    match code r with
    | SQL_ERROR => r
    | _ =>
        let width := default 0 (indicator r) in
        if negb null_buffer && (buffer_length <? width) then failed ConversionIssue.NumericValueOutOfRange
        else {| code := code r; issue := issue r; buffer := if null_buffer then None else buffer r;
                indicator := Some width |}
    end.

Definition ieee_token (value : bytes) : bool :=
  beq value (str "NaN") || beq value (str "Infinity") || beq value (str "-Infinity").

Definition nonfinite_numeric_result (sql_type target_type : Z) (value : bytes) : bool :=
  (target_type =? SQL_C_NUMERIC) && one_of sql_type [SQL_REAL; SQL_FLOAT; SQL_DOUBLE] && ieee_token value.

Definition invalid_character_numeric_result (sql_type target_type : Z) (value : bytes) : bool :=
  if negb (is_character_sql_type sql_type) then false
  else if negb (one_of target_type [SQL_C_STINYINT; SQL_C_UTINYINT; SQL_C_SSHORT; SQL_C_USHORT; SQL_C_SLONG;
                  SQL_C_ULONG; SQL_C_SBIGINT; SQL_C_UBIGINT; SQL_C_BIT; SQL_C_FLOAT; SQL_C_DOUBLE]) then false
  else
    let value := trim_whitespace value in
    ieee_token value ||
    ((target_type =? SQL_C_BIT) &&
       (beq value (str "t") || beq value (str "true") || beq value (str "f") || beq value (str "false"))).

Definition time_uses_timestamp_projection (sql_type target_type : Z) : bool :=
  one_of sql_type [SQL_TYPE_TIME; SQL_TIME] && one_of target_type [SQL_C_TYPE_TIMESTAMP; SQL_C_TIMESTAMP].

Definition without_fraction (o : stored) : stored :=
  match o with
  | Timestamp year month day hour minute second _ => Timestamp year month day hour minute second 0
  | o => o
  end.

Definition convert_time_result_to_timestamp (value : bytes) (null_buffer : bool) : Converted :=
  let r := convert_data w lib local value SQL_C_TYPE_TIMESTAMP false 16 38 0 in
  match code r with
  | SQL_ERROR => r
  | _ => {| code := code r; issue := issue r; buffer := if null_buffer then None else without_fraction <$> buffer r;
            indicator := Some (default 0 (indicator r)) |}
  end.

(** ** The length without a buffer *)

Definition measured (n : Z) : Converted :=
  {| code := SQL_SUCCESS; issue := None; buffer := None; indicator := Some n |}.

Definition length_in_bytes (units size_of_unit : Z) : Converted :=
  if sqllen_max / size_of_unit <? units then failed ConversionIssue.NumericValueOutOfRange
  else measured (units * size_of_unit).

(** The application's units of a text, with the overflow test of each one. *)
Definition wide_units_step (st : bytes * Z) : (bytes * Z) + option (Z + ConversionIssue.t) :=
  let '(rest, units) := st in
  match rest with
  | [] => inr (Some (inl units))
  | _ =>
      match next_utf8_code_point rest with
      | None => inr (Some (inr ConversionIssue.InvalidCharacterValue))
      | Some (point, rest) =>
          let increment := if (wchar_size w =? 2) && (0xffff <? point) then 2 else 1 in
          if sqllen_max / wchar_size w - increment <? units
          then inr (Some (inr ConversionIssue.NumericValueOutOfRange))
          else inl (rest, units + increment)
      end
  end.

Definition count_wide_units (value : bytes) : option (Z + ConversionIssue.t) :=
  run unread wide_units_step (value, 0).

Definition indicator_only_result_length (sql_type target_type : Z) (value : bytes)
  (precision sc source_precision source_scale : Z) : Converted :=
  if invalid_character_numeric_result sql_type target_type value
  then failed ConversionIssue.InvalidCharacterValue
  else if nonfinite_numeric_result sql_type target_type value
  then failed ConversionIssue.NumericValueOutOfRange
  else if (sql_type =? SQL_BIT) && negb (beq value (str "0")) && negb (beq value (str "1"))
  then failed ConversionIssue.InvalidCharacterValue
  else if one_of target_type [SQL_C_CHAR; SQL_C_WCHAR] then
    if is_binary_sql_type sql_type then length_in_bytes (size value) (2 * unit_size target_type)
    else if target_type =? SQL_C_CHAR then length_in_bytes (size value) 1
    else match count_wide_units value with
         | Some (inl units) => length_in_bytes units (wchar_size w)
         | Some (inr i) => failed i
         | None => failed ConversionIssue.InvalidCharacterValue
         end
  else
    match fixed_binary_result_c_type sql_type with
    | Some c_type =>
        if target_type =? SQL_C_BINARY
        then convert_fixed_result_to_binary c_type value true 0 source_precision source_scale
        else if negb (bool_decide (is_Some (bound_column_stride target_type 0)))
        then failed ConversionIssue.InvalidCharacterValue
        else if time_uses_timestamp_projection sql_type target_type
        then convert_time_result_to_timestamp value true
        else convert_data w lib local value target_type false 35 precision sc
    | None =>
        if target_type =? SQL_C_BINARY then length_in_bytes (if sql_type =? SQL_BIT then 1 else size value) 1
        else if negb (bool_decide (is_Some (bound_column_stride target_type 0)))
        then failed ConversionIssue.InvalidCharacterValue
        else convert_data w lib local value target_type false 35 precision sc
    end.
End Result.

(** ** Diagnostics of a conversion *)

Definition conversion_state (result : SQLRETURN) (i : option ConversionIssue.t) : option (bytes * bytes) :=
  match result, i with
  | SQL_SUCCESS_WITH_INFO, Some ConversionIssue.FractionalTruncation =>
      Some (str "01S07", str "Fractional result digits were truncated")
  | SQL_SUCCESS_WITH_INFO, _ =>
      Some (str "01004", str "Result value was truncated to fit the application buffer")
  | SQL_SUCCESS, _ => None
  | SQL_ERROR, Some ConversionIssue.NumericValueOutOfRange =>
      Some (str "22003", str "Result value is outside the requested numeric range")
  | SQL_ERROR, Some ConversionIssue.InvalidDatetimeFormat =>
      Some (str "22007", str "Result value is not a valid date or time")
  | SQL_ERROR, _ => Some (str "22018", str "Result value could not be converted to the requested C type")
  end.

Definition set_conversion_diagnostic (result : SQLRETURN) (i : option ConversionIssue.t) (row column : Z)
  (d : Diagnostics) : Diagnostics :=
  match conversion_state result i with
  | None => d
  | Some (state, message) =>
      if 0 <? row then add_attributed_diagnostic state message row column 0 d else set_error state message 0 d
  end.
