(* ===== verification/Cursor.v ===== *)
(** * Fetching

    The result cursor of an [ODBCStatement] ([odbc/odbc_handles.cpp]): the rowset
    a fetch selects, the checks of the application's address spans, the delivery
    of bound columns, [SQLSetPos] and bookmarks.

    A pointer is its address and null is 0; what a call writes to the application
    is the list of its writes in order, and what it reads of the application's
    memory is a function of the address.  Everything a fetch reads there it reads
    before its first write.  The build is a 64-bit one: [SQLULEN], [SQLLEN],
    [BOOKMARK] and [std::size_t] have 64 bits, so that the casts between them that
    the code checks lose nothing. *)

From S2P Require Import Prelude Digits Utf8 Unicode Hex PgIeee ScaledDecimal ResultTypes ConvertNumber ConvertTime ConvertData Diagnostics ResultConvert.

(** ** State *)

(** [BoundResultField], and the fields of an application descriptor's record. *)
Record Field := {
  f_type : Z; f_precision : Z; f_scale : Z; f_octet_length : Z;
  f_data : Z; f_indicator : Z; f_length : Z
}.

Record Ard := {
  array_size : Z; bind_type : Z; bind_offset_ptr : Z;
  bookmark_record : option Field; records : list Field
}.

Record Ird := { rows_processed_ptr : Z; array_status_ptr : Z }.

Record ColumnInfo := { sql_type : Z; column_size : Z; decimal_digits : Z }.

Abbreviation Cell := (option bytes).

(** The owning result of an execution. *)
Record Result := {
  column_info_ : list ColumnInfo;
  result_rows_ : list (list Cell);
  result_cell_errors_ : list (nat * nat);
  parameter_result_cursor_ : bool;
  active_bookmark_generation_ : Z
}.

Inductive BookmarkMode := UB_OFF | UB_FIXED | UB_VARIABLE.
#[export] Instance BookmarkMode_eq_dec : EqDecision BookmarkMode. Proof. solve_decision. Defined.

Record Policy := {
  static_cursor : bool;          (* cursor_type_ == SQL_CURSOR_STATIC *)
  bookmark_mode_ : BookmarkMode;
  bookmark_statement_id_ : Z;
  retrieve_data_ : bool;
  fetch_bookmark_ptr_ : Z
}.

Inductive StaticPosition := BeforeStart | OnRowset | AfterEnd.
#[export] Instance StaticPosition_eq_dec : EqDecision StaticPosition. Proof. solve_decision. Defined.

Record WideGetDataState := { byte_position : Z; remaining_units : Z; valid : bool }.

Record GetDataState := {
  get_data_column_ : Z; get_data_offset_ : Z; get_data_target_type_ : Z; wide_get_data_ : WideGetDataState
}.

Definition no_get_data : GetDataState :=
  {| get_data_column_ := 0; get_data_offset_ := 0; get_data_target_type_ := 0;
     wide_get_data_ := {| byte_position := 0; remaining_units := 0; valid := false |} |}.

Record Position := {
  static_position_ : StaticPosition;
  current_row_ : Z;
  fetched_rowset_size_ : Z;
  actual_fetched_rows_ : Z;
  selected_row_slot_ : Z;
  rowset_exhausted_ : bool;
  row_positioned_ : bool;
  fetch_failed_ : bool;
  bulk_unpositioned_ : bool;
  get_data_ : GetDataState
}.

(** What [apply_query_result] and [clear_current_result] leave. *)
Definition new_position : Position :=
  {| static_position_ := BeforeStart; current_row_ := 0; fetched_rowset_size_ := 1; actual_fetched_rows_ := 0;
     selected_row_slot_ := 0; rowset_exhausted_ := false; row_positioned_ := false; fetch_failed_ := false;
     bulk_unpositioned_ := false; get_data_ := no_get_data |}.

Record Cursor := { needs_data_ : bool; executed_ : bool; result : Result; policy : Policy; position : Position }.

Definition with_position (p : Position) (c : Cursor) : Cursor :=
  {| needs_data_ := needs_data_ c; executed_ := executed_ c; result := result c; policy := policy c; position := p |}.

Definition failed_fetch (p : Position) : Position :=
  {| static_position_ := static_position_ p; current_row_ := current_row_ p;
     fetched_rowset_size_ := fetched_rowset_size_ p; actual_fetched_rows_ := actual_fetched_rows_ p;
     selected_row_slot_ := selected_row_slot_ p; rowset_exhausted_ := rowset_exhausted_ p;
     row_positioned_ := row_positioned_ p; fetch_failed_ := true; bulk_unpositioned_ := bulk_unpositioned_ p;
     get_data_ := get_data_ p |}.

Definition rows (c : Cursor) : list (list Cell) := result_rows_ (result c).
Definition use_bookmarks (c : Cursor) : bool := negb (bool_decide (bookmark_mode_ (policy c) = UB_OFF)).
Definition use_fixed_bookmarks (c : Cursor) : bool := bool_decide (bookmark_mode_ (policy c) = UB_FIXED).

(** ** Writes *)

Inductive Item :=
| Object (o : stored)
| Length (n : Z)
| Count (n : Z)
| RowStatus (n : Z)
| Token (t : bytes)
| Ordinal (width n : Z).

Abbreviation Write := (Z * Item)%type.

Definition SQL_ROW_SUCCESS : Z := 0.
Definition SQL_ROW_NOROW : Z := 3.
Definition SQL_ROW_ERROR : Z := 5.
Definition SQL_ROW_SUCCESS_WITH_INFO : Z := 6.
Definition SQL_NULL_DATA : Z := -1.

(** A write through a pointer that may be null. *)
Definition store (address : Z) (i : Item) : list Write := if address =? 0 then [] else [(address, i)].

(** ** Bookmarks *)

Definition bookmark_bytes : Z := 24.
Definition SQL_C_VARBOOKMARK : Z := SQL_C_BINARY.

(** [bookmark_integer]: eight bytes, most significant first. *)
Definition bookmark_integer (value : Z) : bytes :=
  map (fun i => Z.shiftr value (56 - 8 * i) mod 256) (seqZ 0 8).
Definition read_bookmark_integer (s : bytes) : Z := foldl (fun value b => Z.lor (Z.shiftl value 8) b mod 2 ^ 64) 0 s.

Definition bookmark_for (c : Cursor) (row : Z) : bytes :=
  bookmark_integer (bookmark_statement_id_ (policy c)) ++
  bookmark_integer (active_bookmark_generation_ (result c)) ++ bookmark_integer ((row + 1) mod 2 ^ 64).

(** The row a token identifies, when it is a token of this owning result. *)
Definition row_of_token (c : Cursor) (token : bytes) : option Z :=
  let ordinal := read_bookmark_integer (take 8 (drop 16 token)) in
  if (active_bookmark_generation_ (result c) =? 0) ||
     negb (read_bookmark_integer (take 8 token) =? bookmark_statement_id_ (policy c)) ||
     negb (read_bookmark_integer (take 8 (drop 8 token)) =? active_bookmark_generation_ (result c)) ||
     (ordinal =? 0) || (size (rows c) <? ordinal)
  then None else Some (ordinal - 1).

Definition is_supported_fixed_bookmark_c_type (target_type : Z) : bool :=
  one_of target_type [SQL_C_DEFAULT; SQL_C_ULONG; SQL_C_LONG; SQL_C_SLONG; SQL_C_UBIGINT; SQL_C_SBIGINT].

Definition fixed_bookmark_c_type_width (target_type len : Z) : Z :=
  if one_of target_type [SQL_C_UBIGINT; SQL_C_SBIGINT] then 8
  else if target_type =? SQL_C_DEFAULT then 8
  else if 8 <=? len then 8 else 4.

(** ** The rowset *)

Inductive Orientation := NEXT | FIRST | LAST | PRIOR | ABSOLUTE | RELATIVE | BOOKMARK.
#[export] Instance Orientation_eq_dec : EqDecision Orientation. Proof. solve_decision. Defined.

(** The position reached, the index of the first row, and whether the rowset
    asked for begins before the first row. *)
Record Target := { t_position : StaticPosition; t_start : Z; t_overlap : bool }.
Definition target (p : StaticPosition) (start : Z) (overlap : bool) : Target :=
  {| t_position := p; t_start := start; t_overlap := overlap |}.

Definition absolute (total rowset offset : Z) : Target :=
  let magnitude := Z.abs offset in
  if offset =? 0 then target BeforeStart 0 false
  else if 0 <? offset then
    if total <? magnitude then target AfterEnd 0 false else target OnRowset (magnitude - 1) false
  else if magnitude <=? total then target OnRowset (total - magnitude) false
  else if (magnitude <=? rowset) && negb (total =? 0) then target OnRowset 0 true
  else target BeforeStart 0 false.

(** A static cursor; [rowset] is the size now asked for, [last] the size of the
    previous fetch. *)
Definition static_target (total rowset last current : Z) (at_ : StaticPosition) (o : Orientation)
    (offset bookmark_row : Z) : Target :=
  let prior := if current =? 0 then 0 else current - 1 in
  let magnitude := Z.abs offset in
  let stay := target at_ 0 false in
  let t :=
    match o with
    | BOOKMARK =>
        if offset <? 0 then
          if bookmark_row <? magnitude then target BeforeStart 0 false
          else target OnRowset (bookmark_row - magnitude) false
        else if total - bookmark_row <=? magnitude then target AfterEnd 0 false
        else target OnRowset (bookmark_row + magnitude) false
    | FIRST => target OnRowset 0 false
    | LAST => target OnRowset (if rowset <? total then total - rowset else 0) false
    | ABSOLUTE => absolute total rowset offset
    | RELATIVE =>
        if (bool_decide (at_ = BeforeStart) && (0 <? offset)) || (bool_decide (at_ = AfterEnd) && (offset <? 0))
        then absolute total rowset offset
        else if bool_decide (at_ = OnRowset) then
          if 0 <=? offset then
            if (total <=? prior) || (total - prior <=? magnitude) then target AfterEnd 0 false
            else target OnRowset (prior + magnitude) false
          else if magnitude <=? prior then target OnRowset (prior - magnitude) false
          else if negb (prior =? 0) && (magnitude <=? rowset) then target OnRowset 0 true
          else target BeforeStart 0 false
        else stay
    | PRIOR =>
        match at_ with
        | AfterEnd => target OnRowset (if rowset <=? total then total - rowset else 0)
                        ((total <? rowset) && negb (total =? 0))
        | OnRowset =>
            if prior =? 0 then target BeforeStart 0 false
            else if prior <? rowset then target OnRowset 0 true
            else target OnRowset (prior - rowset) false
        | BeforeStart => stay
        end
    | NEXT =>
        match at_ with
        | BeforeStart => target OnRowset 0 false
        | OnRowset =>
            if (total <=? prior) || (total - prior <=? last) then target AfterEnd 0 false
            else target OnRowset (prior + last) false
        | AfterEnd => stay
        end
    end in
  if bool_decide (t_position t = OnRowset) && (total =? 0) then target AfterEnd (t_start t) (t_overlap t) else t.

(** A forward-only cursor: [None] when its rows are exhausted. *)
Definition forward_start (total rowset last current : Z) (exhausted : bool) : option Z :=
  if exhausted then None
  else if current =? 0 then Some 0
  else
    let prior := current - 1 in
    if (total <=? prior) || (total - prior <=? last) || (2 ^ 64 - 1 - prior <? rowset) then None
    else Some (prior + rowset).

(** ** Address spans *)

Definition address_max : Z := 2 ^ 64 - 1.
Definition sqllen_bytes : Z := 8.

Definition span_fits (address count stride : Z) : bool :=
  if (address =? 0) || (count =? 0) || (stride =? 0) then true
  else count <=? (address_max - address) / stride.

Definition row_span_fits (rowset row_stride address extent : Z) : bool :=
  if (address =? 0) || (rowset =? 0) then true
  else if address_max - address <? extent then false
  else rowset - 1 <=? (address_max - address - extent) / row_stride.

(** How a fetch lays its rows out: [row_stride] is 0 for column-wise arrays. *)
Record Layout := { rowset_size : Z; row_stride : Z; binding_offset : Z }.

Definition field_span_fits (l : Layout) (address extent : Z) : bool :=
  if address =? 0 then true
  else if address_max - address <? binding_offset l then false
  else
    let shifted := address + binding_offset l in
    if row_stride l =? 0 then span_fits shifted (rowset_size l) extent
    else row_span_fits (rowset_size l) (row_stride l) shifted extent.

(** The address of a field in a row of the rowset; a null field stays null. *)
Definition field_address (l : Layout) (slot base column_stride : Z) : Z :=
  if base =? 0 then 0
  else to_size_t (base + binding_offset l + slot * (if row_stride l =? 0 then column_stride else row_stride l)).

Definition bound (f : Field) : bool := negb (f_data f =? 0) || negb (f_indicator f =? 0) || negb (f_length f =? 0).

Definition effective_type (sql_type c_type : Z) : Z := if c_type =? SQL_C_DEFAULT then default_c_type sql_type else c_type.

(** The bookmark record, when it is bound: why the fetch is refused. *)
Definition check_bookmark_record (c : Cursor) (l : Layout) (f : Field) : option (bytes * bytes) :=
  if negb (bound f) then None
  else if negb (use_bookmarks c) then Some (str "07009", str "Bookmarks are disabled")
  else
    let span extent :=
      if field_span_fits l (f_data f) extent && field_span_fits l (f_indicator f) sqllen_bytes &&
         field_span_fits l (f_length f) sqllen_bytes
      then None else Some (str "HY024", str "Bookmark output address span is out of range") in
    if use_fixed_bookmarks c then
      if negb (is_supported_fixed_bookmark_c_type (f_type f))
      then Some (str "07006", str "Invalid bookmark binding type")
      else span (fixed_bookmark_c_type_width (f_type f) (f_octet_length f))
    else if negb (f_type f =? SQL_C_VARBOOKMARK) then Some (str "07006", str "Invalid bookmark binding type")
    else if negb (f_data f =? 0) && negb (f_octet_length f =? bookmark_bytes)
    then Some (str "HY090", str "Bookmark binding requires the complete maximum length")
    else span bookmark_bytes.

Definition check_column (l : Layout) (f : Field) (column : ColumnInfo) : bool :=
  if negb (bound f) then true
  else
    let type := effective_type (sql_type column) (f_type f) in
    if negb (is_conversion_supported (sql_type column) (canonical_c_type type)) then true
    else
      match (if f_data f =? 0 then Some 0 else bound_column_stride type (f_octet_length f)) with
      | None => false
      | Some stride =>
          field_span_fits l (f_data f) stride && field_span_fits l (f_indicator f) sqllen_bytes &&
          field_span_fits l (f_length f) sqllen_bytes
      end.

Fixpoint check_columns (l : Layout) (fs : list Field) (columns : list ColumnInfo) : bool :=
  match fs, columns with
  | f :: fs, column :: columns => check_column l f column && check_columns l fs columns
  | _, _ => true
  end.

(** ** A bound row *)

Section Fetch.
Context (w : wide) (lib : FloatLibrary) (local : option (Z * Z * Z)).

Definition stored_size (o : stored) : Z :=
  match o with
  | Integer T _ => int_width T
  | Floating f _ => width f
  | Bit _ => 1
  | Numeric _ => 19
  | Date _ _ _ | Time _ _ _ => 6
  | Timestamp _ _ _ _ _ _ _ => 16
  | Chars s | Raw s => size s
  | WideChars s => wchar_size w * size s
  end.

Definition item_size (i : Item) : Z :=
  match i with
  | Object o => stored_size o
  | Length _ | Count _ => 8
  | RowStatus _ => 2
  | Token t => size t
  | Ordinal width _ => width
  end.

(** A value in a buffer of the application: a SQLSTATE of the fetch itself, or
    what the conversion left. *)
Definition convert_cell (source target_type : Z) (column : option ColumnInfo) (f : Field) (value : bytes)
  : bytes * bytes + Converted :=
  let source_precision := default 0 (column_size <$> column) in
  let source_scale := default 0 (decimal_digits <$> column) in
  if negb (f_data f =? 0) && invalid_character_numeric_result source target_type value
  then inr (failed ConversionIssue.InvalidCharacterValue)
  else if negb (f_data f =? 0) && nonfinite_numeric_result source target_type value
  then inr (failed ConversionIssue.NumericValueOutOfRange)
  else if f_data f =? 0
  then inr (indicator_only_result_length w lib local source target_type value (f_precision f) (f_scale f)
              source_precision source_scale)
  else
    let character := one_of target_type [SQL_C_CHAR; SQL_C_WCHAR] in
    let binary_as_text := is_binary_sql_type source && character in
    let bit_as_text := (source =? SQL_BIT) && bit_uses_decimal_representation target_type in
    match (if binary_as_text then Some (encode_pairs value)
           else if bit_as_text then bit_result_as_text value else Some value) with
    | None => inl (str "22018", str "Invalid normalized boolean result")
    | Some text =>
        if negb (value_preserving_character_buffer_fits w source target_type text (f_octet_length f) 0)
        then inl (str "22003", str "Result value does not fit in the character buffer")
        else
          let unit := unit_size w target_type in
          if bit_as_text && character && (f_octet_length f <? 2 * unit)
          then inl (str "22003", str "Bit character result does not fit in the application buffer")
          else
            let units := f_octet_length f / unit in
            let len :=
              if binary_as_text && (0 <? f_octet_length f) && (1 <? units) && (units - 1 <? size text) &&
                 negb ((units - 1) mod 2 =? 0)
              then (units - 1) * unit else f_octet_length f in
            inr (if time_uses_timestamp_projection source target_type
                 then convert_time_result_to_timestamp w lib local value false
                 else if (source =? SQL_BIT) && (target_type =? SQL_C_BINARY)
                 then convert_bit_result_to_binary value len
                 else match fixed_binary_result_c_type source with
                      | Some c_type =>
                          if target_type =? SQL_C_BINARY
                          then convert_fixed_result_to_binary w lib local c_type value false len source_precision source_scale
                          else convert_data w lib local text target_type false len (f_precision f) (f_scale f)
                      | None =>
                          if is_character_sql_type source && (target_type =? SQL_C_BINARY)
                          then convert_character_result_to_binary value len
                          else convert_data w lib local text target_type false len (f_precision f) (f_scale f)
                      end)
    end.

Record Delivery := { outcome : RETCODE; dg : Diagnostics; written : list Write }.
Definition delivered (r : RETCODE) (d : Diagnostics) (ws : list Write) : Delivery :=
  {| outcome := r; dg := d; written := ws |}.

(** A rowset's diagnostics name their row and column; those of a single row do
    not. *)
Definition report (attributed : bool) (slot column : Z) (state message : bytes) (d : Diagnostics) : Diagnostics :=
  if attributed then add_attributed_diagnostic state message (slot + 1) column 0 d else set_error state message 0 d.

(** One bound column [i] (from 0) of the row [row_index] of the result. *)
Definition fetch_column (c : Cursor) (l : Layout) (attributed : bool) (row_index : nat) (slot : Z) (i : nat)
    (f : Field) (cell : Cell) (d : Diagnostics) : Delivery :=
  let column := column_info_ (result c) !! i in
  let source := default SQL_VARCHAR (sql_type <$> column) in
  let target_type := canonical_c_type (effective_type source (f_type f)) in
  let refuse state message := delivered RET_ERROR (report attributed slot (Z.of_nat i + 1) state message d) [] in
  if negb (bound f) then delivered RET_SUCCESS d []
  else if negb (is_conversion_supported source target_type)
  then refuse (str "07006") (str "Unsupported result data type conversion")
  else
    let data := field_address l slot (f_data f) (default 0 (bound_column_stride target_type (f_octet_length f))) in
    let indicator_at := field_address l slot (f_indicator f) sqllen_bytes in
    let length_at := field_address l slot (f_length f) sqllen_bytes in
    match cell with
    | None =>
        if indicator_at =? 0 then refuse (str "22002") (str "NULL column requires an indicator variable")
        else delivered RET_SUCCESS d [(indicator_at, Length SQL_NULL_DATA)]
    | Some value =>
        if bool_decide ((row_index, i) ∈ result_cell_errors_ (result c))
        then refuse (str "22018") (str "Invalid backend result encoding")
        else
          match convert_cell source target_type column f value with
          | inl (state, message) => refuse state message
          | inr r =>
              let d := set_conversion_diagnostic (code r) (issue r)
                         (if attributed then slot + 1 else 0) (Z.of_nat i + 1) d in
              match code r with
              | SQL_ERROR => delivered RET_ERROR d []
              | _ =>
                  let output_length := if length_at =? 0 then indicator_at else length_at in
                  delivered
                    (match code r with SQL_SUCCESS_WITH_INFO => RET_SUCCESS_WITH_INFO | _ => RET_SUCCESS end) d
                    (match buffer r with Some o => store data (Object o) | None => [] end ++
                     match indicator r with Some n => store output_length (Length n) | None => [] end ++
                     (if negb (indicator_at =? length_at) then store indicator_at (Length 0) else []))
              end
          end
    end.

(** The bound columns of a row, up to the first error; [ignored] are the masks of
    a bulk fetch. *)
Fixpoint fetch_columns (c : Cursor) (l : Layout) (attributed : bool) (row_index : nat) (slot : Z) (i : nat)
    (fs : list Field) (ignored : list bool) (row : list Cell) (so_far : RETCODE) (d : Diagnostics) : Delivery :=
  match fs, row with
  | f :: fs, cell :: row =>
      if default false (head ignored) then fetch_columns c l attributed row_index slot (S i) fs (tail ignored) row so_far d
      else
        let one := fetch_column c l attributed row_index slot i f cell d in
        match outcome one with
        | RET_ERROR => one
        | r =>
            let so_far := if bool_decide (r = RET_SUCCESS_WITH_INFO) then RET_SUCCESS_WITH_INFO else so_far in
            let rest := fetch_columns c l attributed row_index slot (S i) fs (tail ignored) row so_far (dg one) in
            delivered (outcome rest) (dg rest) (written one ++ written rest)
        end
  | _, _ => delivered so_far d []
  end.

(** The bookmark of the row, when record 0 is bound. *)
Definition bookmark_writes (c : Cursor) (ard : Ard) (l : Layout) (row_index : nat) (slot : Z) : list Write :=
  match bookmark_record ard with
  | None => []
  | Some f =>
      if negb (use_bookmarks c) then []
      else
        let width := if use_fixed_bookmarks c then fixed_bookmark_c_type_width (f_type f) (f_octet_length f)
                     else bookmark_bytes in
        let ordinal := Z.of_nat row_index + 1 in
        let item := if use_fixed_bookmarks c then Ordinal width (if width =? 8 then ordinal else ordinal mod 2 ^ 32)
                    else Token (bookmark_for c (Z.of_nat row_index)) in
        let length_at := field_address l slot (f_length f) sqllen_bytes in
        let indicator_at := field_address l slot (f_indicator f) sqllen_bytes in
        store (field_address l slot (f_data f) width) item ++ store length_at (Length width) ++
        (if negb (indicator_at =? length_at)
         then store indicator_at (Length (if length_at =? 0 then width else 0)) else [])
  end.

Definition row_status (status slot : Z) (n : Z) : list Write :=
  if status =? 0 then [] else [(status + 2 * slot, RowStatus n)].

Definition fetch_bound_row (c : Cursor) (ard : Ard) (status : Z) (l : Layout) (bulk : option (list Field * list bool))
    (row_index : nat) (slot : Z) (d : Diagnostics) : Delivery :=
  let '(fs, ignored) := default (records ard, []) bulk in
  let attributed := bool_decide (is_Some bulk) || (1 <? rowset_size l) in
  let head := match bulk with None => bookmark_writes c ard l row_index slot | Some _ => [] end in
  let r := fetch_columns c l attributed row_index slot 0 fs ignored (default [] (rows c !! row_index)) RET_SUCCESS d in
  delivered (outcome r) (dg r)
    (head ++ written r ++
     row_status status slot
       (match outcome r with
        | RET_ERROR => SQL_ROW_ERROR
        | RET_SUCCESS_WITH_INFO => SQL_ROW_SUCCESS_WITH_INFO
        | _ => SQL_ROW_SUCCESS
        end)).

(** ** The fetch *)

(** The application's memory: the byte at each address, least significant first
    in an integer. *)
Context (mem : Z -> Z).

Definition load (address : Z) (count : Z) : bytes := map mem (seqZ address count).
Definition load_ulen (address : Z) : Z := foldr (fun b value => b + 256 * value) 0 (load address 8).

Record Fetched := { f_return : RETCODE; f_cursor : Cursor; f_diag : Diagnostics; f_written : list Write }.
Definition fetched (r : RETCODE) (c : Cursor) (d : Diagnostics) (ws : list Write) : Fetched :=
  {| f_return := r; f_cursor := c; f_diag := d; f_written := ws |}.
Definition refused (state message : bytes) (c : Cursor) (d : Diagnostics) : Fetched :=
  fetched RET_ERROR c (set_error state message 0 d) [].

(** The row of the bookmark the application points to: the position may be marked
    as failed and the call refused. *)
Definition input_bookmark (c : Cursor) (d : Diagnostics) : Z + Fetched :=
  let bad message := inr (refused (str "HY111") message (with_position (failed_fetch (position c)) c) d) in
  let p := fetch_bookmark_ptr_ (policy c) in
  if p =? 0 then bad (str "Bookmark input is absent")
  else if use_fixed_bookmarks c then
    if address_max - p <? 8 then inr (refused (str "HY024") (str "Bookmark input address span is out of range") c d)
    else
      let ordinal := load_ulen p in
      if (ordinal =? 0) || (size (rows c) <? ordinal) then bad (str "Bookmark does not identify this owning result")
      else inl (ordinal - 1)
  else if address_max - p <? bookmark_bytes
  then inr (refused (str "HY024") (str "Bookmark input address span is out of range") c d)
  else match row_of_token c (load p bookmark_bytes) with
       | None => bad (str "Bookmark does not identify this owning result")
       | Some row => inl row
       end.

Definition binding_offset_of (out_of_range : bytes) (ard : Ard) : Z + bytes * bytes :=
  let p := bind_offset_ptr ard in
  if p =? 0 then inl 0
  else if address_max - p <? 8 then inr (str "HY024", out_of_range)
  else
    let encoded := load_ulen p in
    if sqllen_max <? encoded
    then inr (str "HYC00", str "Binding offset outside the common nonnegative range is not supported")
    else inl encoded.

(** All checks of the application's spans. *)
Definition check_spans (c : Cursor) (ard : Ard) (ird : Ird) (l : Layout) : option (bytes * bytes) :=
  if (rowset_size l =? 0) || negb (span_fits (array_status_ptr ird) (rowset_size l) 2) ||
     negb (span_fits (rows_processed_ptr ird) 1 8)
  then Some (str "HY024", str "Rowset application address span is out of range")
  else if negb (retrieve_data_ (policy c)) then None
  else
    match bookmark_record ard ≫= check_bookmark_record c l with
    | Some refusal => Some refusal
    | None =>
        if check_columns l (records ard) (column_info_ (result c)) then None
        else Some (str "HY024", str "Rowset column address span is out of range")
    end.

Definition chosen (c : Cursor) (rowset : Z) (o : Orientation) (offset bookmark_row : Z) : StaticPosition * option (Z * bool) :=
  let p := position c in
  let total := size (rows c) in
  if static_cursor (policy c) then
    let t := static_target total rowset (fetched_rowset_size_ p) (current_row_ p) (static_position_ p) o offset bookmark_row in
    (t_position t, if bool_decide (t_position t = OnRowset) then Some (t_start t, t_overlap t) else None)
  else
    (static_position_ p,
     (fun start => (start, false)) <$>
       forward_start total rowset (fetched_rowset_size_ p) (current_row_ p) (rowset_exhausted_ p)).

Fixpoint deliver_rows (c : Cursor) (ard : Ard) (status : Z) (l : Layout) (start : nat) (slots : list nat) (d : Diagnostics)
  : Z * bool * Diagnostics * list Write :=
  match slots with
  | [] => (0, false, d, [])
  | slot :: slots =>
      let r := fetch_bound_row c ard status l None (start + slot) (Z.of_nat slot) d in
      let '(errors, warning, d, ws) := deliver_rows c ard status l start slots (dg r) in
      (errors + (if bool_decide (outcome r = RET_ERROR) then 1 else 0),
       bool_decide (outcome r = RET_SUCCESS_WITH_INFO) || warning, d, written r ++ ws)
  end.

Definition slots_of (n : Z) : list nat := seq 0 (Z.to_nat n).

Definition overlap_message : bytes := str "Requested rowset overlapped the beginning of the result set".

(** After the last row, or before the first. *)
Definition off_rowset (static : bool) (reached : StaticPosition) (p : Position) : Position :=
  {| static_position_ := reached; current_row_ := if static then 0 else current_row_ p;
     fetched_rowset_size_ := fetched_rowset_size_ p; actual_fetched_rows_ := 0; selected_row_slot_ := 0;
     rowset_exhausted_ := true; row_positioned_ := false; fetch_failed_ := false; bulk_unpositioned_ := false;
     get_data_ := no_get_data |}.

Definition on_rowset (reached : StaticPosition) (start rowset count : Z) : Position :=
  {| static_position_ := reached; current_row_ := start + 1; fetched_rowset_size_ := rowset;
     actual_fetched_rows_ := count; selected_row_slot_ := 0; rowset_exhausted_ := false; row_positioned_ := true;
     fetch_failed_ := false; bulk_unpositioned_ := false; get_data_ := no_get_data |}.

Definition status_of_rows (status : Z) (slots : list nat) (n : Z) : list Write :=
  concat (map (fun slot => row_status status (Z.of_nat slot) n) slots).

(** The part of a fetch after its checks: the statuses, the move, the rows. *)
Definition advance_rowset (c : Cursor) (ard : Ard) (ird : Ird) (l : Layout) (o : Orientation) (offset bookmark_row : Z)
    (d : Diagnostics) : Fetched :=
  let total := size (rows c) in
  let rowset := rowset_size l in
  let status := array_status_ptr ird in
  let '(reached, choice) := chosen c rowset o offset bookmark_row in
  let no_rows := status_of_rows status (slots_of rowset) SQL_ROW_NOROW in
  match choice ≫= (fun '(start, overlap) => if start <? total then Some (start, overlap) else None) with
  | None =>
      fetched RET_NO_DATA (with_position (off_rowset (static_cursor (policy c)) reached (position c)) c) d
        (no_rows ++ store (rows_processed_ptr ird) (Count 0))
  | Some (start, overlap) =>
      let count := Z.min rowset (total - start) in
      let c := with_position (on_rowset reached start rowset count) c in
      let counted := store (rows_processed_ptr ird) (Count count) in
      let finish d := if overlap : bool then add_attributed_diagnostic (str "01S06") overlap_message 0 0 0 d else d in
      if negb (retrieve_data_ (policy c)) then
        fetched (if overlap then RET_SUCCESS_WITH_INFO else RET_SUCCESS) c (finish d)
          (no_rows ++ counted ++ status_of_rows status (slots_of count) SQL_ROW_SUCCESS)
      else
        let '(errors, warning, d, ws) := deliver_rows c ard status l (Z.to_nat start) (slots_of count) d in
        fetched (if errors =? count then RET_ERROR
                 else if negb (errors =? 0) || warning || overlap then RET_SUCCESS_WITH_INFO else RET_SUCCESS)
          c (finish d) (no_rows ++ counted ++ ws)
  end.

Definition needs_data_refusal (c : Cursor) (d : Diagnostics) : Fetched :=
  refused (str "HY010") (str "Statement needs parameter data") c (clear_diagnostics d).

(** The checks of a fetch: the bookmark's row and the layout, or the refusal. *)
Definition fetch_checks (o : Orientation) (ard : Ard) (ird : Ird) (c : Cursor) (d : Diagnostics) : Z * Layout + Fetched :=
  if needs_data_ c then inr (needs_data_refusal c d)
  else if negb (executed_ c) then inr (refused (str "HY010") (str "Statement has not been executed") c d)
  else if bool_decide (column_info_ (result c) = []) && negb (parameter_result_cursor_ (result c))
  then inr (refused (str "24000") (str "Executed statement did not produce a result set") c d)
  else if bulk_unpositioned_ (position c) && bool_decide (o ∈ [NEXT; PRIOR; RELATIVE])
  then inr (refused (str "HY010") (str "Bulk cursor requires explicit repositioning") c d)
  else if use_bookmarks c && (active_bookmark_generation_ (result c) =? 0)
  then inr (refused (str "HY000") (str "Owning bookmark result is unavailable") c d)
  else
    match (if bool_decide (o = BOOKMARK) then input_bookmark c d else inl 0) with
    | inr refusal => inr refusal
    | inl bookmark_row =>
        match (if retrieve_data_ (policy c)
               then binding_offset_of (str "Binding offset address span is out of range") ard else inl 0) with
        | inr (state, message) => inr (refused state message c d)
        | inl offset =>
            let l := {| rowset_size := array_size ard;
                        row_stride := if retrieve_data_ (policy c) then bind_type ard else 0;
                        binding_offset := offset |} in
            match check_spans c ard ird l with
            | Some (state, message) => inr (refused state message c d)
            | None => inl (bookmark_row, l)
            end
        end
    end.

Definition fetch_impl (o : Orientation) (offset : Z) (ard : Ard) (ird : Ird) (c : Cursor) (d : Diagnostics) : Fetched :=
  match fetch_checks o ard ird c d with
  | inr refusal => refusal
  | inl (bookmark_row, l) => advance_rowset c ard ird l o offset bookmark_row d
  end.

Definition fetch (ard : Ard) (ird : Ird) : Cursor -> Diagnostics -> Fetched := fetch_impl NEXT 0 ard ird.

(** The codes of [sql.h] and [sqlext.h]. *)
Definition orientation_of (code : Z) : option Orientation :=
  if code =? 1 then Some NEXT else if code =? 2 then Some FIRST else if code =? 3 then Some LAST
  else if code =? 4 then Some PRIOR else if code =? 5 then Some ABSOLUTE else if code =? 6 then Some RELATIVE
  else if code =? 8 then Some BOOKMARK else None.

Definition fetch_scroll (code offset : Z) (ard : Ard) (ird : Ird) (c : Cursor) (d : Diagnostics) : Fetched :=
  match orientation_of code with
  | None => refused (str "HY106") (str "Invalid fetch orientation") c d
  | Some BOOKMARK =>
      if negb (use_bookmarks c)
      then refused (str "HYC00") (str "Bookmark fetch is not supported when bookmarks are disabled") c d
      else if negb (static_cursor (policy c))
      then refused (str "HY106") (str "Bookmark fetch requires a bookmark static cursor") c d
      else fetch_impl BOOKMARK offset ard ird c d
  | Some o =>
      if negb (bool_decide (o = NEXT)) && negb (static_cursor (policy c))
      then refused (str "HYC00") (str "Scrollable fetch orientation is not supported") c d
      else fetch_impl o offset ard ird c d
  end.

(** ** SQLSetPos *)

Definition select_slot (slot : Z) (p : Position) : Position :=
  {| static_position_ := static_position_ p; current_row_ := current_row_ p;
     fetched_rowset_size_ := fetched_rowset_size_ p; actual_fetched_rows_ := actual_fetched_rows_ p;
     selected_row_slot_ := slot; rowset_exhausted_ := rowset_exhausted_ p; row_positioned_ := row_positioned_ p;
     fetch_failed_ := fetch_failed_ p; bulk_unpositioned_ := bulk_unpositioned_ p; get_data_ := no_get_data |}.

(** [SQL_POSITION] is 0, [SQL_REFRESH] 1, [SQL_UPDATE] 2, [SQL_DELETE] 3 and
    [SQL_ADD] 4; the locks are 0 (no change), 1 and 2. *)
Definition set_pos (row operation lock : Z) (c : Cursor) (d : Diagnostics) : Fetched :=
  let p := position c in
  if needs_data_ c then needs_data_refusal c d
  else if negb (one_of operation [0; 1; 2; 3; 4]) || negb (one_of lock [0; 1; 2]) || one_of operation [2; 3]
  then refused (str "HY092") (str "Invalid operation or lock for a read-only cursor") c d
  else if negb (operation =? 0) || negb (lock =? 0)
  then refused (str "HYC00") (str "Requested rowset operation or lock is not supported") c d
  else if bulk_unpositioned_ p then refused (str "HY010") (str "Bulk cursor requires explicit repositioning") c d
  else if negb (executed_ c) then refused (str "HY010") (str "Statement has not been executed") c d
  else if bool_decide (column_info_ (result c) = []) || negb (row_positioned_ p) || (current_row_ p =? 0) ||
          (actual_fetched_rows_ p =? 0)
  then refused (str "24000") (str "No fetched rowset is available") c d
  else if negb (static_cursor (policy c)) || (row =? 0)
  then refused (str "HY109") (str "A static cursor and a nonzero row are required") c d
  else if actual_fetched_rows_ p <? row then refused (str "HY107") (str "Row is outside the actual fetched rowset") c d
  else
    let slot := row - 1 in
    let start := current_row_ p - 1 in
    if (size (rows c) <=? start) || (size (rows c) - start <=? slot)
    then refused (str "HY000") (str "Invalid owning rowset position") c d
    else fetched RET_SUCCESS (with_position (select_slot slot p) c) d [].

(** ** SQLBulkOperations *)

Record ResultLimits := { limit_rows : Z; limit_cells : Z }.

(** The address of a field of a row, when no step of it wraps around. *)
Definition bulk_field (offset stride : Z) (base slot extent : Z) : option Z :=
  if base =? 0 then Some 0
  else if address_max - base <? offset then None
  else
    let address := base + offset in
    let step := if stride =? 0 then extent else stride in
    if negb (step =? 0) && ((address_max - address) / step <? slot) then None
    else
      let address := address + slot * step in
      if address_max - address <? extent then None else Some address.

Definition bulk_span (pointer elements width : Z) : bool :=
  (pointer =? 0) || (elements <=? (address_max - pointer) / width).

Definition SQL_COLUMN_IGNORE : Z := -6.

Definition to_sqllen (n : Z) : Z := (n + 2 ^ 63) mod 2 ^ 64 - 2 ^ 63.

Definition ignores (offset stride slot : Z) (base : Z) : bool :=
  match bulk_field offset stride base slot sqllen_bytes with
  | Some address => negb (base =? 0) && (to_sqllen (load_ulen address) =? SQL_COLUMN_IGNORE)
  | None => false
  end.

(** The captured masks of a row. *)
Definition row_masks (offset stride slot : Z) (fs : list Field) : list bool :=
  map (fun f => ignores offset stride slot (f_indicator f) || ignores offset stride slot (f_length f)) fs.

Fixpoint bulk_row_fits (offset stride slot : Z) (fs : list Field) (columns : list ColumnInfo) (masks : list bool) : bool :=
  match fs, columns, masks with
  | f :: fs, column :: columns, ignored :: masks =>
      (ignored ||
       (let type := effective_type (sql_type column) (f_type f) in
        negb (is_conversion_supported (sql_type column) (canonical_c_type type)) ||
        match (if f_data f =? 0 then Some 0 else bound_column_stride type (f_octet_length f)) with
        | None => false
        | Some extent =>
            bool_decide (is_Some (bulk_field offset stride (f_data f) slot extent)) &&
            bool_decide (is_Some (bulk_field offset stride (f_indicator f) slot sqllen_bytes)) &&
            bool_decide (is_Some (bulk_field offset stride (f_length f) slot sqllen_bytes))
        end)) && bulk_row_fits offset stride slot fs columns masks
  | _, _, _ => true
  end.

Fixpoint bulk_rows (c : Cursor) (ard : Ard) (status : Z) (l : Layout) (fs : list Field)
    (requests : list (bytes * list bool)) (slot : Z) (d : Diagnostics) : Z * bool * Diagnostics * list Write :=
  match requests with
  | [] => (0, false, d, [])
  | (token, masks) :: requests =>
      let r := match row_of_token c token with
               | None =>
                   delivered RET_ERROR
                     (add_attributed_diagnostic (str "HY111") (str "Bookmark does not identify this owning result")
                        (slot + 1) 0 0 d)
                     (row_status status slot SQL_ROW_ERROR)
               | Some row => fetch_bound_row c ard status l (Some (fs, masks)) (Z.to_nat row) slot d
               end in
      let '(errors, warning, d, ws) := bulk_rows c ard status l fs requests (slot + 1) (dg r) in
      (errors + (if bool_decide (outcome r = RET_ERROR) then 1 else 0),
       bool_decide (outcome r = RET_SUCCESS_WITH_INFO) || warning, d, written r ++ ws)
  end.

(** Bulk rows are no rowset: nothing is selected. *)
Definition bulk_position (failed_ : bool) (p : Position) : Position :=
  {| static_position_ := static_position_ p; current_row_ := 0; fetched_rowset_size_ := fetched_rowset_size_ p;
     actual_fetched_rows_ := 0; selected_row_slot_ := 0; rowset_exhausted_ := rowset_exhausted_ p;
     row_positioned_ := false; fetch_failed_ := failed_; bulk_unpositioned_ := true; get_data_ := no_get_data |}.

Definition plan_exceeds (limits : ResultLimits) (count columns : Z) : bool :=
  (columns =? address_max) || (limit_rows limits <? count) || (limit_cells limits <? columns + 1) ||
  (limit_cells limits / (columns + 1) <? count) || (address_max / bookmark_bytes <? count) ||
  (address_max / 40 <? columns) || (negb (columns =? 0) && (address_max / columns <? count)).

Definition bulk_deliver (ard : Ard) (ird : Ird) (bookmark : Field) (offset : Z) (c : Cursor)
    (d : Diagnostics) : Fetched :=
  let count := array_size ard in
  let stride := bind_type ard in
  let columns := Nat.min (length (records ard)) (length (column_info_ (result c))) in
  let status := array_status_ptr ird in
  let span state message := refused state message c d in
  if negb (bulk_span status count 2) || negb (bulk_span (rows_processed_ptr ird) 1 8) ||
     negb (bool_decide (is_Some (bulk_field offset stride (f_data bookmark) (count - 1) bookmark_bytes)))
  then span (str "HY024") (str "Bulk header or bookmark address span is out of range")
  else
    let fs := take columns (records ard) in
    if negb (forallb (fun f => bool_decide (is_Some (bulk_field offset stride (f_indicator f) (count - 1) sqllen_bytes)) &&
                               bool_decide (is_Some (bulk_field offset stride (f_length f) (count - 1) sqllen_bytes))) fs)
    then span (str "HY024") (str "Bulk ignore input span is out of range")
    else
      let requests := map (fun slot =>
        (load (default 0 (bulk_field offset stride (f_data bookmark) (Z.of_nat slot) bookmark_bytes)) bookmark_bytes,
         row_masks offset stride (Z.of_nat slot) fs)) (slots_of count) in
      if negb (forallb (fun slot => bulk_row_fits offset stride (Z.of_nat slot) fs (column_info_ (result c))
                                      (row_masks offset stride (Z.of_nat slot) fs)) (slots_of count))
      then span (str "HY024") (str "Bulk output address span is out of range")
      else
        let l := {| rowset_size := count; row_stride := stride; binding_offset := offset |} in
        let '(errors, warning, d, ws) :=
          bulk_rows (with_position (bulk_position false (position c)) c) ard status l fs requests 0 d in
        fetched (if errors =? count then RET_ERROR
                 else if negb (errors =? 0) || warning then RET_SUCCESS_WITH_INFO else RET_SUCCESS)
          (with_position (bulk_position (errors =? count) (position c)) c) d
          (store (rows_processed_ptr ird) (Count count) ++ status_of_rows status (slots_of count) SQL_ROW_ERROR ++ ws).

(** [SQL_FETCH_BY_BOOKMARK] is 7. *)
Definition bulk_operations (limits : ResultLimits) (operation : Z) (ard : Ard) (ird : Ird) (c : Cursor) (d : Diagnostics)
  : Fetched :=
  if needs_data_ c then needs_data_refusal c d
  else if negb (operation =? 7) then refused (str "HY092") (str "Invalid bulk operation for a read-only cursor") c d
  else if negb (executed_ c) then refused (str "HY010") (str "Statement has not been executed") c d
  else if bool_decide (column_info_ (result c) = [])
  then refused (str "24000") (str "Executed statement did not produce a result set") c d
  else if negb (static_cursor (policy c))
  then refused (str "HYC00") (str "Bulk bookmark fetch requires a static cursor") c d
  else
    match bookmark_record ard with
    | Some bookmark =>
        if negb (bool_decide (bookmark_mode_ (policy c) = UB_VARIABLE)) || (f_data bookmark =? 0)
        then refused (str "HY092") (str "Bulk fetch requires a bound variable bookmark input") c d
        else if negb (f_type bookmark =? SQL_C_VARBOOKMARK)
        then refused (str "07006") (str "Invalid bookmark input binding type") c d
        else if negb (f_octet_length bookmark =? bookmark_bytes)
        then refused (str "HY090") (str "Bulk fetch requires complete bookmark inputs") c d
        else if (array_size ard =? 0) || (sqllen_max <? array_size ard)
        then refused (str "HY024") (str "Bulk application layout is out of range") c d
        else if plan_exceeds limits (array_size ard)
                  (Z.min (size (records ard)) (size (column_info_ (result c))))
        then refused (str "HY000") (str "Bulk bookmark input plan limit exceeded") c d
        else
          match binding_offset_of (str "Bulk offset address span is out of range") ard with
          | inr (state, message) => refused state message c d
          | inl offset => bulk_deliver ard ird bookmark offset c d
          end
    | None => refused (str "HY092") (str "Bulk fetch requires a bound variable bookmark input") c d
    end.
End Fetch.

(** ** The table of SQLFetchScroll *)

(** The rowset an ODBC application asks for, in row numbers from 1: [LastRow] is
    the number of rows, [Size] the rowset size, [Last] that of the previous fetch,
    [Start] the first row of the current rowset. *)
Inductive Where := Before | After | From (row : Z) (overlaps : bool).

Inductive absolute_row (LastRow Size offset : Z) : Where -> Prop :=
| abs_zero : offset = 0 -> absolute_row LastRow Size offset Before
| abs_row : 1 <= offset <= LastRow -> absolute_row LastRow Size offset (From offset false)
| abs_past : LastRow < offset -> 0 < offset -> absolute_row LastRow Size offset After
| abs_back : - LastRow <= offset < 0 -> absolute_row LastRow Size offset (From (LastRow + offset + 1) false)
| abs_before : offset < - LastRow -> offset < - Size \/ LastRow = 0 -> offset < 0 -> absolute_row LastRow Size offset Before
| abs_overlap : offset < - LastRow -> - Size <= offset < 0 -> LastRow <> 0 -> absolute_row LastRow Size offset (From 1 true).

Inductive table (LastRow Size Last Start : Z) (at_ : StaticPosition) (offset bookmark : Z) : Orientation -> Where -> Prop :=
| next_first : at_ = BeforeStart -> table LastRow Size Last Start at_ offset bookmark NEXT (From 1 false)
| next_row : at_ = OnRowset -> Start + Last <= LastRow ->
    table LastRow Size Last Start at_ offset bookmark NEXT (From (Start + Last) false)
| next_past : at_ = OnRowset -> LastRow < Start + Last -> table LastRow Size Last Start at_ offset bookmark NEXT After
| next_end : at_ = AfterEnd -> table LastRow Size Last Start at_ offset bookmark NEXT After
| first_row : table LastRow Size Last Start at_ offset bookmark FIRST (From 1 false)
| last_rowset : Size <= LastRow -> table LastRow Size Last Start at_ offset bookmark LAST (From (LastRow - Size + 1) false)
| last_short : LastRow < Size -> table LastRow Size Last Start at_ offset bookmark LAST (From 1 false)
| prior_before : at_ = BeforeStart -> table LastRow Size Last Start at_ offset bookmark PRIOR Before
| prior_first : at_ = OnRowset -> Start = 1 -> table LastRow Size Last Start at_ offset bookmark PRIOR Before
| prior_overlap : at_ = OnRowset -> 1 < Start <= Size -> table LastRow Size Last Start at_ offset bookmark PRIOR (From 1 true)
| prior_row : at_ = OnRowset -> Size < Start ->
    table LastRow Size Last Start at_ offset bookmark PRIOR (From (Start - Size) false)
| prior_end : at_ = AfterEnd -> Size <= LastRow ->
    table LastRow Size Last Start at_ offset bookmark PRIOR (From (LastRow - Size + 1) false)
| prior_end_short : at_ = AfterEnd -> LastRow < Size ->
    table LastRow Size Last Start at_ offset bookmark PRIOR (From 1 true)
| absolute_ t : absolute_row LastRow Size offset t -> table LastRow Size Last Start at_ offset bookmark ABSOLUTE t
| relative_in t : at_ = BeforeStart /\ 0 < offset \/ at_ = AfterEnd /\ offset < 0 ->
    absolute_row LastRow Size offset t -> table LastRow Size Last Start at_ offset bookmark RELATIVE t
| relative_before : at_ = BeforeStart -> offset <= 0 -> table LastRow Size Last Start at_ offset bookmark RELATIVE Before
| relative_end : at_ = AfterEnd -> 0 <= offset -> table LastRow Size Last Start at_ offset bookmark RELATIVE After
| relative_row : at_ = OnRowset -> 1 <= Start + offset <= LastRow ->
    table LastRow Size Last Start at_ offset bookmark RELATIVE (From (Start + offset) false)
| relative_past : at_ = OnRowset -> LastRow < Start + offset ->
    table LastRow Size Last Start at_ offset bookmark RELATIVE After
| relative_off : at_ = OnRowset -> Start + offset < 1 -> Start = 1 \/ offset < - Size ->
    table LastRow Size Last Start at_ offset bookmark RELATIVE Before
| relative_overlap : at_ = OnRowset -> Start + offset < 1 -> 1 < Start -> - Size <= offset ->
    table LastRow Size Last Start at_ offset bookmark RELATIVE (From 1 true)
| bookmark_row : 1 <= bookmark + offset <= LastRow ->
    table LastRow Size Last Start at_ offset bookmark BOOKMARK (From (bookmark + offset) false)
| bookmark_before : bookmark + offset < 1 -> table LastRow Size Last Start at_ offset bookmark BOOKMARK Before
| bookmark_past : LastRow < bookmark + offset -> table LastRow Size Last Start at_ offset bookmark BOOKMARK After.

(** An empty result has no first row. *)
Definition in_result (LastRow : Z) (t : Where) : Where :=
  match t with From _ _ => if LastRow =? 0 then After else t | t => t end.

Definition where_of (t : Target) : Where :=
  match t_position t with
  | BeforeStart => Before | AfterEnd => After | OnRowset => From (t_start t + 1) (t_overlap t)
  end.

Lemma absolute_row_total LastRow Size offset : 0 <= LastRow -> 0 < Size -> exists t, absolute_row LastRow Size offset t.
Proof.
  intros. destruct (Z.lt_trichotomy offset 0) as [|[|]].
  - destruct (decide (- LastRow <= offset)); [eexists; by apply abs_back|].
    destruct (decide (offset < - Size \/ LastRow = 0)); [eexists; apply abs_before; lia|eexists; apply abs_overlap; lia].
  - eexists. by apply abs_zero.
  - destruct (decide (offset <= LastRow)); [eexists; apply abs_row; lia|eexists; apply abs_past; lia].
Qed.

Lemma table_total LastRow Size Last Start at_ offset bookmark o :
  0 <= LastRow -> 0 < Size -> match at_ with OnRowset => 1 <= Start <= LastRow | _ => Start = 0 end ->
  exists t, table LastRow Size Last Start at_ offset bookmark o t.
Proof.
  intros HL HS Hat. destruct (absolute_row_total LastRow Size offset HL HS) as [a Ha].
  destruct o.
  - destruct at_; [eexists; by apply next_first| |eexists; by apply next_end].
    destruct (decide (Start + Last <= LastRow)); [eexists; by apply next_row|eexists; apply next_past; [done|lia]].
  - eexists. apply first_row.
  - destruct (decide (Size <= LastRow)); [eexists; by apply last_rowset|eexists; apply last_short; lia].
  - destruct at_; [eexists; by apply prior_before| |].
    + destruct (decide (Start = 1)); [eexists; by apply prior_first|].
      destruct (decide (Start <= Size)); [eexists; apply prior_overlap; [done|lia]|eexists; apply prior_row; [done|lia]].
    + destruct (decide (Size <= LastRow)); [eexists; by apply prior_end|eexists; apply prior_end_short; [done|lia]].
  - eexists. by apply absolute_.
  - destruct at_.
    + destruct (decide (0 < offset)); [eexists; apply relative_in; [by left|done]|eexists; apply relative_before; [done|lia]].
    + destruct (decide (LastRow < Start + offset)); [eexists; by apply relative_past|].
      destruct (decide (1 <= Start + offset)); [eexists; apply relative_row; [done|lia]|].
      destruct (decide (Start = 1 \/ offset < - Size)); [eexists; apply relative_off; [done|lia|done]|].
      eexists; apply relative_overlap; [done|lia..].
    + destruct (decide (offset < 0)); [eexists; apply relative_in; [by right|done]|eexists; apply relative_end; [done|lia]].
  - destruct (decide (bookmark + offset < 1)); [eexists; by apply bookmark_before|].
    destruct (decide (bookmark + offset <= LastRow)); [eexists; apply bookmark_row; lia|eexists; apply bookmark_past; lia].
Qed.

(** The tests of a rowset's computation, by what is known of its numbers. *)
Ltac rowset_tests :=
  repeat match goal with H : _ \/ _ |- _ => destruct H | H : _ /\ _ |- _ => destruct H end; subst;
  repeat first
    [ progress cbn [t_position t_start t_overlap target where_of in_result andb orb negb]
    | rewrite bool_decide_true by done
    | rewrite bool_decide_false by done
    | rewrite andb_false_r
    | ztest ];
  try done; try (f_equal; lia).

Lemma absolute_exact LastRow Size offset t : 0 <= LastRow -> 0 < Size ->
  absolute_row LastRow Size offset t -> where_of (absolute LastRow Size offset) = t.
Proof. intros HL HS Ha. unfold absolute. destruct Ha; unfold where_of; rowset_tests. Qed.

Lemma where_of_clip total t :
  where_of (if bool_decide (t_position t = OnRowset) && (total =? 0) then target AfterEnd (t_start t) (t_overlap t) else t)
    = in_result total (where_of t).
Proof. unfold where_of, in_result. destruct t as [[] ? ?], (total =? 0); done. Qed.

Lemma static_target_table (total rowset last current offset bookmark : Z) (at_ : StaticPosition) (o : Orientation) t :
  0 <= total -> 0 < rowset -> 0 < last ->
  match at_ with OnRowset => 1 <= current <= total | _ => current = 0 end ->
  (o = BOOKMARK -> 1 <= bookmark <= total) ->
  table total rowset last current at_ offset bookmark o t ->
  where_of (static_target total rowset last current at_ o offset (bookmark - 1)) = in_result total t.
Proof.
  intros Htotal Hrowset Hlast Hcurrent Hbookmark Ht. unfold static_target. rewrite where_of_clip.
  destruct Ht as [| | | | | | | | | | | | |t Ha|t Hat Ha| | | | | | | | |]; subst; try specialize (Hbookmark eq_refl);
    try (f_equal; by apply absolute_exact); try (f_equal; unfold where_of; by rowset_tests).
  - f_equal. unfold where_of. destruct (Z.ltb_spec rowset total); by rowset_tests.
  - destruct (Z.eqb_spec total 0); [by subst|]. f_equal. unfold where_of. by rowset_tests.
  - f_equal. transitivity (where_of (absolute total rowset offset)); [f_equal|by apply absolute_exact].
    destruct Hat as [[-> ?]|[-> ?]]; by rowset_tests.
  - f_equal. unfold where_of. destruct (Z.leb_spec 0 offset); by rowset_tests.
  - f_equal. unfold where_of. destruct (Z.ltb_spec offset 0); by rowset_tests.
Qed.

(** C17.  A static cursor moves as ODBC says: for every orientation, offset, rowset
    size and position of the cursor, the rowset the fetch selects is the one of
    the table of [SQLFetchScroll], with the warning exactly where the rowset asked
    for overlaps the beginning of the result; an empty result has no rowset. *)
Theorem static_target_exact (total rowset last current offset bookmark : Z) (at_ : StaticPosition) (o : Orientation)
  (Htotal : 0 <= total) (Hrowset : 0 < rowset) (Hlast : 0 < last)
  (Hcurrent : match at_ with OnRowset => 1 <= current <= total | _ => current = 0 end)
  (Hbookmark : o = BOOKMARK -> 1 <= bookmark <= total) :
  (exists t, table total rowset last current at_ offset bookmark o t) /\
  (forall t, table total rowset last current at_ offset bookmark o t ->
     where_of (static_target total rowset last current at_ o offset (bookmark - 1)) = in_result total t).
Proof. split; [by apply table_total|]. intros t. by apply static_target_table. Qed.

Lemma static_target_exact_witness :
  where_of (static_target 10 4 3 2 OnRowset PRIOR 0 0) = From 1 true.
Proof.
  refine (proj2 (static_target_exact 10 4 3 2 0 1 OnRowset PRIOR _ _ _ _ _) (From 1 true) _); try lia.
  apply prior_overlap; [done|lia].
Defined.
