(* ===== verification/Rowsets.v ===== *)
(** * Rowsets in a result

    What the moves of a cursor ([Cursor.v]) keep and reach: the rowset of a
    positioned cursor lies in the result, a scan with [SQLFetch] sees every row
    once, and a bookmark leads back to its row. *)

From S2P Require Import Prelude Digits Unicode ResultTypes ConvertNumber ConvertTime ConvertData Diagnostics ResultConvert Cursor.

Section Rowsets.
Context (w : wide) (lib : FloatLibrary) (local : option (Z * Z * Z)).

Abbreviation fetch_checks := Cursor.fetch_checks.
Abbreviation advance_rowset := (Cursor.advance_rowset w lib local).
Abbreviation total c := (size (rows c)).

(** ** The invariant *)

Record cursor_ok (c : Cursor) : Prop := {
  ok_last : 1 <= fetched_rowset_size_ (position c);
  ok_static : static_cursor (policy c) = true -> bulk_unpositioned_ (position c) = false ->
    match static_position_ (position c) with OnRowset => 1 <= current_row_ (position c) <= total c | _ => current_row_ (position c) = 0 end;
  ok_forward : static_cursor (policy c) = false -> rowset_exhausted_ (position c) = false ->
    0 <= current_row_ (position c) <= total c;
  ok_rowset : row_positioned_ (position c) = true ->
    1 <= current_row_ (position c) /\
    1 <= actual_fetched_rows_ (position c) <= fetched_rowset_size_ (position c) /\
    current_row_ (position c) - 1 + actual_fetched_rows_ (position c) <= total c /\
    0 <= selected_row_slot_ (position c) < actual_fetched_rows_ (position c)
}.

Lemma new_cursor_ok c : position c = new_position -> cursor_ok c.
Proof. intros E. split; rewrite E; cbn; try done; intros; pose proof (size_nonneg (rows c)); lia. Qed.

Lemma with_position_rows p c : rows (with_position p c) = rows c. Proof. done. Qed.

(** A rowset of the table begins at a row of the result. *)
Lemma table_row LastRow Size Last Start at_ offset bookmark o r b :
  0 < LastRow -> 0 < Size -> 0 < Last -> match at_ with OnRowset => 1 <= Start <= LastRow | _ => Start = 0 end ->
  table LastRow Size Last Start at_ offset bookmark o (From r b) -> 1 <= r <= LastRow.
Proof.
  intros HL HS Hl Hat H. inversion H; subst; try lia;
    match goal with Ha : absolute_row _ _ _ _ |- _ => inversion Ha; lia end.
Qed.

(** Where a fetch goes, in a sound state: to a row of the result. *)
Lemma static_target_row total rowset last current at_ o offset bookmark_row :
  0 <= total -> 0 < rowset -> 0 < last ->
  (o ∈ [NEXT; PRIOR; RELATIVE] -> match at_ with OnRowset => 1 <= current <= total | _ => current = 0 end) ->
  (o = BOOKMARK -> 0 <= bookmark_row < total) ->
  let t := static_target total rowset last current at_ o offset bookmark_row in
  t_position t = OnRowset -> 0 <= t_start t < total.
Proof.
  intros Ht Hr Hl Hat Hb.
  assert (exists current' at_', (match at_' with OnRowset => 1 <= current' <= total | _ => current' = 0 end) /\
    static_target total rowset last current at_ o offset bookmark_row =
    static_target total rowset last current' at_' o offset bookmark_row) as (current' & at_' & Hat' & ->).
  { destruct (decide (o ∈ [NEXT; PRIOR; RELATIVE])) as [Hin|Hout]; [exists current, at_; by split; [apply Hat|]|].
    exists 0, BeforeStart. split; [done|]. destruct o; try done; exfalso; apply Hout; repeat constructor. }
  intros t Hpos. destruct (table_total total rowset last current' at_' offset (bookmark_row + 1) o) as [x Hx]; [done..|].
  pose proof (static_target_table total rowset last current' offset (bookmark_row + 1) at_' o x Ht Hr Hl Hat'
    ltac:(intros E; specialize (Hb E); lia) Hx) as Hw.
  replace (bookmark_row + 1 - 1) with bookmark_row in Hw by lia. fold t in Hw. unfold where_of in Hw. rewrite Hpos in Hw.
  destruct x as [| |r b]; cbn [in_result] in Hw; [done..|]. destruct (Z.eqb_spec total 0); [done|].
  injection Hw as E _. assert (0 < total) as H0 by lia.
  pose proof (table_row _ _ _ _ _ _ _ _ _ _ H0 Hr Hl Hat' Hx). lia.
Qed.

Lemma forward_start_row total rowset last current exhausted start :
  0 <= current -> 0 < rowset -> forward_start total rowset last current exhausted = Some start -> 0 <= start.
Proof. unfold forward_start. intros. repeat (case_match; zb; simplify_eq); lia. Qed.

(** ** What the checks of a fetch ensure *)

Lemma read_bookmark_nonneg s : 0 <= read_bookmark_integer s.
Proof.
  unfold read_bookmark_integer. destruct s as [|b s] using rev_ind; [done|].
  rewrite foldl_app. cbn. apply Z.mod_pos_bound. lia.
Qed.

Lemma row_of_token_range c token r : row_of_token c token = Some r -> 0 <= r < total c.
Proof.
  unfold row_of_token. pose proof (read_bookmark_nonneg (take 8 (drop 16 token))).
  case_match; [done|]. intros [= <-]. zb. lia.
Qed.

Lemma load_ulen_nonneg mem p : (forall a, is_byte (mem a)) -> 0 <= load_ulen mem p.
Proof.
  intros Hm. unfold load_ulen, load. induction (seqZ p 8) as [|a l IH]; cbn [map foldr]; [done|].
  pose proof (Hm a) as H. unfold is_byte in H. lia.
Qed.

(** What an accepted fetch may rely on. *)
Record accepted (o : Orientation) (ard : Ard) (c : Cursor) (b : Z) (l : Layout) : Prop := {
  acc_size : rowset_size l = array_size ard;
  acc_some : rowset_size l <> 0;
  acc_bulk : o ∈ [NEXT; PRIOR; RELATIVE] -> bulk_unpositioned_ (position c) = false;
  acc_bookmark : o = BOOKMARK -> 0 <= b < total c
}.

Lemma input_bookmark_range mem c d b : (forall a, is_byte (mem a)) -> input_bookmark mem c d = inl b -> 0 <= b < total c.
Proof.
  intros Hm. unfold input_bookmark.
  repeat (case_match; try done).
  - intros [= <-]. zb. pose proof (load_ulen_nonneg mem (fetch_bookmark_ptr_ (policy c)) Hm). lia.
  - intros [= <-]. by eapply row_of_token_range.
Qed.

Lemma fetch_checks_accepted mem o ard ird c d b l : (forall a, is_byte (mem a)) ->
  fetch_checks mem o ard ird c d = inl (b, l) -> accepted o ard c b l.
Proof.
  intros Hm. unfold Cursor.fetch_checks. case_match; [done|]. case_match; [done|]. case_match; [done|].
  destruct (bulk_unpositioned_ (position c) && _) eqn:Ebulk; [done|]. case_match; [done|].
  destruct (if bool_decide (o = BOOKMARK) then _ else _) as [b'|] eqn:Eb; [|done].
  destruct (if retrieve_data_ (policy c) then _ else _) as [off|[? ?]] eqn:Eo; [|done].
  destruct (check_spans _ _ _ _) as [[? ?]|] eqn:Es; [done|]. intros [= -> <-].
  split; cbn [rowset_size].
  - done.
  - unfold check_spans in Es. cbn [rowset_size] in Es. case_match; [done|]. zb. done.
  - intros Hin. apply andb_false_iff in Ebulk as [|Ebulk]; [done|]. by apply bool_decide_eq_false in Ebulk.
  - intros ->. rewrite bool_decide_true in Eb by done. by eapply input_bookmark_range.
Qed.

(** A refusal leaves the cursor, at most marked as a failed fetch. *)
Lemma fetch_checks_refused mem o ard ird c d r : fetch_checks mem o ard ird c d = inr r ->
  f_written r = [] /\ (f_cursor r = c \/ f_cursor r = with_position (failed_fetch (position c)) c /\ o = BOOKMARK).
Proof.
  unfold Cursor.fetch_checks, needs_data_refusal, refused. case_match; [by intros [= <-]; auto|].
  case_match; [by intros [= <-]; auto|]. case_match; [by intros [= <-]; auto|]. case_match; [by intros [= <-]; auto|].
  case_match; [by intros [= <-]; auto|].
  destruct (if bool_decide (o = BOOKMARK) then _ else _) as [b'|r'] eqn:Eb.
  - destruct (if retrieve_data_ (policy c) then _ else _) as [off|[? ?]] eqn:Eo; [|by intros [= <-]; auto].
    destruct (check_spans _ _ _ _) as [[? ?]|] eqn:Es; [by intros [= <-]; auto|done].
  - intros [= <-]. case_bool_decide; [|done]. subst o. revert Eb. unfold input_bookmark, refused.
    repeat (case_match; try done); intros [= <-]; auto.
Qed.

(** ** The move *)

Lemma chosen_row c o offset b l ard start overlap reached :
  cursor_ok c -> accepted o ard c b l -> 0 <= array_size ard ->
  chosen c (rowset_size l) o offset b = (reached, Some (start, overlap)) ->
  0 <= start /\ (static_cursor (policy c) = true -> start < total c /\ reached = OnRowset).
Proof.
  intros Hok Hacc Hpos. destruct Hacc as [Hsz Hne Hbulk Hb]. unfold chosen.
  destruct (static_cursor (policy c)) eqn:Est.
  - case_bool_decide as Ep; [|done]. intros [= <- <- <-].
    enough (0 <= t_start (static_target (total c) (rowset_size l) (fetched_rowset_size_ (position c)) (current_row_ (position c))
              (static_position_ (position c)) o offset b) < total c) by (split; [lia|intros _; split; [lia|done]]).
    apply static_target_row; [apply size_nonneg|lia|pose proof (ok_last c Hok); lia| |done|done].
    intros Hin. apply (ok_static c Hok Est). by apply Hbulk.
  - destruct (forward_start _ _ _ _ _) as [s|] eqn:Ef; [|done]. intros [= _ <- _]. split; [|done].
    destruct (rowset_exhausted_ (position c)) eqn:Ex; [done|].
    eapply forward_start_row; [|..|exact Ef]; [apply (ok_forward c Hok Est Ex)|lia].
Qed.

Lemma advance_rowset_ok c ard ird l o offset b d :
  cursor_ok c -> accepted o ard c b l -> 0 <= array_size ard -> cursor_ok (f_cursor (advance_rowset c ard ird l o offset b d)).
Proof.
  intros Hok Hacc Hpos. unfold Cursor.advance_rowset.
  destruct (chosen c (rowset_size l) o offset b) as [reached choice] eqn:Ech.
  destruct (choice ≫= _) as [[start overlap]|] eqn:Ec.
  - destruct choice as [[s v]|]; [|done]. cbn in Ec. destruct (s <? total c) eqn:Elt; [|done]. simplify_eq.
    destruct (chosen_row _ _ _ _ _ _ _ _ _ Hok Hacc Hpos Ech) as [Hs Hst]. zb.
    pose proof (acc_some _ _ _ _ _ Hacc). pose proof (acc_size _ _ _ _ _ Hacc).
    assert (cursor_ok (with_position (on_rowset reached start (rowset_size l) (Z.min (rowset_size l) (total c - start))) c)) as H'.
    { split; cbn; rewrite ?with_position_rows; try lia. intros Hstat _. destruct (Hst Hstat) as [_ ->]. lia. }
    destruct (negb (retrieve_data_ _)); [done|]. destruct (deliver_rows _ _ _ _ _ _ _ _ _ _) as [[[errors warning] d'] ws]. done.
  - cbn [f_cursor fetched]. split; cbn; rewrite ?with_position_rows; try done.
    + apply (ok_last c Hok).
    + intros Hstat _. rewrite Hstat. destruct reached; try done. exfalso.
      revert Ech Ec. unfold chosen. rewrite Hstat. case_bool_decide as Ep; [|by intros [= ? _]].
      intros [= _ <-]. cbn.
      pose proof (static_target_row (total c) (rowset_size l) (fetched_rowset_size_ (position c)) (current_row_ (position c))
        (static_position_ (position c)) o offset b (size_nonneg _)) as Hrow.
      destruct Hacc as [Hsz Hne Hbulk Hb].
      destruct Hrow; [lia|pose proof (ok_last c Hok); lia|intros Hin; apply (ok_static c Hok Hstat); by apply Hbulk|done|done|].
      ztest. done.
Qed.

(** ** Any calls *)

Lemma failed_fetch_ok c : cursor_ok c -> cursor_ok (with_position (failed_fetch (position c)) c).
Proof. intros [H1 H2 H3 H4]. by split. Qed.

(** The application's memory at the call, and its descriptors. *)
Record Surroundings := { memory : Z -> Z; ard : Ard; ird : Ird }.
Definition sound (s : Surroundings) : Prop := (forall a, is_byte (memory s a)) /\ 0 <= array_size (ard s).

Inductive CursorCall :=
| Fetch (s : Surroundings)
| FetchScroll (code offset : Z) (s : Surroundings)
| SetPos (row operation lock : Z)
| BulkOperations (limits : ResultLimits) (operation : Z) (s : Surroundings).

Definition sound_call (call : CursorCall) : Prop :=
  match call with
  | Fetch s | FetchScroll _ _ s | BulkOperations _ _ s => sound s
  | SetPos row _ _ => 0 <= row
  end.

Definition call_cursor (call : CursorCall) (c : Cursor) (d : Diagnostics) : Fetched :=
  match call with
  | Fetch s => fetch w lib local (memory s) (ard s) (ird s) c d
  | FetchScroll code offset s => fetch_scroll w lib local (memory s) code offset (ard s) (ird s) c d
  | SetPos row operation lock => set_pos row operation lock c d
  | BulkOperations limits operation s => bulk_operations w lib local (memory s) limits operation (ard s) (ird s) c d
  end.

Lemma fetch_impl_ok o offset s c d : sound s -> cursor_ok c ->
  cursor_ok (f_cursor (fetch_impl w lib local (memory s) o offset (ard s) (ird s) c d)).
Proof.
  intros [Hm Ha] Hok. unfold fetch_impl. destruct (fetch_checks _ _ _ _ _ _) as [[b l]|r] eqn:E.
  - apply fetch_checks_accepted in E; [|done]. by apply advance_rowset_ok.
  - apply fetch_checks_refused in E as [_ [->|[-> _]]]; [done|by apply failed_fetch_ok].
Qed.

Lemma bulk_position_ok f c : cursor_ok c -> cursor_ok (with_position (bulk_position f (position c)) c).
Proof. intros [H1 H2 H3 H4]. split; cbn; try done; intros; pose proof (size_nonneg (rows c)); lia. Qed.

Lemma call_cursor_ok call c d : sound_call call -> cursor_ok c -> cursor_ok (f_cursor (call_cursor call c d)).
Proof.
  intros Hs Hok. destruct call as [s|code offset s|row operation lock|limits operation s]; cbn [call_cursor].
  - by apply fetch_impl_ok.
  - unfold fetch_scroll, refused. repeat (case_match; try done); by apply fetch_impl_ok.
  - unfold set_pos, needs_data_refusal, refused. repeat (case_match; [done|]). cbn [f_cursor fetched]. cbn in Hs. zb.
    destruct Hok as [K1 K2 K3 K4]. split; cbn; try done. rewrite with_position_rows. intros Hp. specialize (K4 Hp). lia.
  - unfold bulk_operations, needs_data_refusal, bulk_deliver, refused. repeat (case_match; try done);
    cbn [f_cursor fetched]; by apply bulk_position_ok.
Qed.

Fixpoint call_all (calls : list CursorCall) (c : Cursor) (d : Diagnostics) : Cursor :=
  match calls with
  | [] => c
  | call :: calls => let r := call_cursor call c d in call_all calls (f_cursor r) (f_diag r)
  end.

Lemma call_all_ok calls c d : Forall sound_call calls -> cursor_ok c -> cursor_ok (call_all calls c d).
Proof.
  intros Hs. revert c d. induction Hs as [|call calls H _ IH]; intros c d Hok; [done|]. cbn. apply IH. by apply call_cursor_ok.
Qed.

Lemma call_cursor_rows call c d : rows (f_cursor (call_cursor call c d)) = rows c /\ result (f_cursor (call_cursor call c d)) = result c.
Proof.
  assert (result (f_cursor (call_cursor call c d)) = result c) as E; [|by unfold rows; rewrite E].
  destruct call; cbn [call_cursor]; unfold fetch, fetch_scroll, fetch_impl, fetch_checks, advance_rowset, set_pos, bulk_operations,
    bulk_deliver, needs_data_refusal, input_bookmark, refused;
    repeat (case_match; simplify_eq; try done).
Qed.

Lemma call_all_rows calls c d : rows (call_all calls c d) = rows c.
Proof.
  revert c d. induction calls as [|call calls IH]; intros c d; [done|]. cbn. rewrite IH. apply call_cursor_rows.
Qed.

(** C15.  A positioned cursor is inside its result.  After any calls of SQLFetch,
    SQLFetchScroll, SQLSetPos and SQLBulkOperations on a new result, with any
    descriptors, any bytes in the application's memory and any orientations: if
    the cursor is positioned, its rowset is a nonempty range of the result's rows
    no longer than the size it was fetched with, and the row SQLGetData reads is
    one of them. *)
Theorem cursor_stays_in_result (calls : list CursorCall) (c : Cursor) (d : Diagnostics)
  (Hnew : position c = new_position) (Hcalls : Forall sound_call calls) :
  let p := position (call_all calls c d) in
  row_positioned_ p = true ->
  1 <= current_row_ p /\ 1 <= actual_fetched_rows_ p <= fetched_rowset_size_ p /\
  current_row_ p - 1 + actual_fetched_rows_ p <= size (rows c) /\
  0 <= selected_row_slot_ p < actual_fetched_rows_ p /\
  is_Some (rows c !! Z.to_nat (current_row_ p - 1 + selected_row_slot_ p)).
Proof.
  intros p Hp. pose proof (ok_rowset _ (call_all_ok calls c d Hcalls (new_cursor_ok c Hnew)) Hp) as H.
  rewrite call_all_rows in H. fold p in H. split_and!; try lia. apply lookup_lt_is_Some. unfold size in H. lia.
Qed.

(** ** A scan with SQLFetch *)

(** The rows of the current rowset. *)
Definition rowset_rows (c : Cursor) : list (list Cell) :=
  take (Z.to_nat (actual_fetched_rows_ (position c))) (drop (Z.to_nat (current_row_ (position c) - 1)) (rows c)).

(** Calls of SQLFetch until one reports the end: the rows seen, the calls whose
    arguments were accepted, and whether the end was reported. *)
Fixpoint scan (calls : list Surroundings) (c : Cursor) (d : Diagnostics) : list (list Cell) * nat * bool :=
  match calls with
  | [] => ([], 0%nat, false)
  | s :: calls =>
      let r := fetch w lib local (memory s) (ard s) (ird s) c d in
      match fetch_checks (memory s) NEXT (ard s) (ird s) c d with
      | inr _ => scan calls (f_cursor r) (f_diag r)
      | inl _ =>
          if bool_decide (f_return r = RET_NO_DATA) then ([], 1%nat, true)
          else let '(seen, n, ended) := scan calls (f_cursor r) (f_diag r) in (rowset_rows (f_cursor r) ++ seen, S n, ended)
      end
  end.

(** The rows a cursor has passed. *)
Definition passed (c : Cursor) : Z :=
  let p := position c in
  let through := Z.min (current_row_ p - 1 + fetched_rowset_size_ p) (total c) in
  if static_cursor (policy c) then match static_position_ p with BeforeStart => 0 | OnRowset => through | AfterEnd => total c end
  else if rowset_exhausted_ p then total c else if current_row_ p =? 0 then 0 else through.

(** The size a forward-only cursor keeps. *)
Definition same_size (n : Z) (c : Cursor) : Prop :=
  static_cursor (policy c) = false -> current_row_ (position c) <> 0 -> fetched_rowset_size_ (position c) = n.

Lemma static_next c rowset : cursor_ok c -> bulk_unpositioned_ (position c) = false -> static_cursor (policy c) = true ->
  static_target (total c) rowset (fetched_rowset_size_ (position c)) (current_row_ (position c)) (static_position_ (position c)) NEXT 0 0 =
    if passed c <? total c then target OnRowset (passed c) false else target AfterEnd 0 false.
Proof.
  intros Hok Hb Est. pose proof (ok_last c Hok) as Hl. unfold passed. rewrite Est.
  pose proof (size_nonneg (rows c)) as H0. pose proof (ok_static c Hok Est Hb) as Hs. unfold static_target.
  destruct (static_position_ (position c)); cbn [t_position t_start t_overlap target].
  - rewrite bool_decide_true by done. cbn [andb]. destruct (Z.eqb_spec (total c) 0) as [E|E]; [by rewrite E|by repeat ztest].
  - set (k := current_row_ (position c)) in *. set (n := fetched_rowset_size_ (position c)) in *.
    assert ((k =? 0) = false) as -> by lia. assert ((total c <=? k - 1) = false) as -> by lia. cbn [orb].
    destruct (Z.leb_spec (total c - (k - 1)) n) as [Hle|Hlt]; cbn [t_position t_start t_overlap target].
    + rewrite bool_decide_false by done. cbn [andb]. rewrite Z.min_r, Z.ltb_irrefl by lia. done.
    + assert ((total c =? 0) = false) as -> by lia. rewrite andb_false_r. rewrite Z.min_l by lia.
      assert ((k - 1 + n <? total c) = true) as -> by lia. done.
  - rewrite bool_decide_false by done. cbn [andb]. by rewrite Z.ltb_irrefl.
Qed.

Lemma forward_next c rowset : cursor_ok c -> static_cursor (policy c) = false -> 0 < rowset ->
  size (rows c) <= address_max -> same_size rowset c ->
  forward_start (total c) rowset (fetched_rowset_size_ (position c)) (current_row_ (position c)) (rowset_exhausted_ (position c))
    ≫= (fun s => if s <? total c then Some s else None) = if passed c <? total c then Some (passed c) else None.
Proof.
  intros Hok Est Hr Hmax Hsame. pose proof (ok_last c Hok) as Hl. unfold passed, forward_start. rewrite Est.
  destruct (rowset_exhausted_ (position c)) eqn:Ex; [cbn; by rewrite Z.ltb_irrefl|].
  pose proof (ok_forward c Hok Est Ex) as Hf. specialize (Hsame Est). set (k := current_row_ (position c)) in *.
  destruct (Z.eqb_spec k 0) as [E|E]; [done|]. specialize (Hsame E). rewrite Hsame in *.
  assert ((total c <=? k - 1) = false) as -> by lia. cbn [orb].
  destruct (Z.leb_spec (total c - (k - 1)) rowset) as [Hle|Hlt].
  - cbn. rewrite Z.min_r, Z.ltb_irrefl by lia. done.
  - unfold address_max in *. assert ((2 ^ 64 - 1 - (k - 1) <? rowset) = false) as -> by lia. cbn [orb mbind option_bind].
    rewrite Z.min_l by lia. done.
Qed.

Lemma passed_range c : cursor_ok c -> bulk_unpositioned_ (position c) = false -> 0 <= passed c <= total c.
Proof.
  intros Hok Hb. pose proof (size_nonneg (rows c)) as H0. pose proof (ok_last c Hok) as Hl. unfold passed.
  destruct (static_cursor (policy c)) eqn:Est.
  - pose proof (ok_static c Hok Est Hb) as Hs. destruct (static_position_ (position c)); lia.
  - destruct (rowset_exhausted_ (position c)) eqn:Ex; [lia|]. pose proof (ok_forward c Hok Est Ex).
    destruct (Z.eqb_spec (current_row_ (position c)) 0); lia.
Qed.

(** One accepted call: the end, or the next rows. *)
Lemma next_rows c ard ird l b d : cursor_ok c -> accepted NEXT ard c b l -> b = 0 -> 0 <= array_size ard ->
  size (rows c) <= address_max -> same_size (array_size ard) c ->
  let r := advance_rowset c ard ird l NEXT 0 b d in
  (f_return r = RET_NO_DATA /\ passed c = total c) \/
  (f_return r <> RET_NO_DATA /\ rowset_rows (f_cursor r) <> [] /\ same_size (array_size ard) (f_cursor r) /\
   bulk_unpositioned_ (position (f_cursor r)) = false /\
   take (Z.to_nat (passed c)) (rows c) ++ rowset_rows (f_cursor r) = take (Z.to_nat (passed (f_cursor r))) (rows c)).
Proof.
  intros Hok [Hsz Hne Hbulk _] -> Hpos Hmax Hsame. specialize (Hbulk ltac:(repeat constructor)).
  pose proof (passed_range c Hok Hbulk) as Hrange.
  unfold Cursor.advance_rowset. destruct (chosen c (rowset_size l) NEXT 0 0) as [reached choice] eqn:Ech.
  assert (choice ≫= (fun '(start, overlap) => if start <? total c then Some (start, overlap) else None) =
            (if passed c <? total c then Some (passed c, false) else None) /\
          (static_cursor (policy c) = true -> passed c < total c -> reached = OnRowset)) as [-> Hreach].
  { revert Ech. unfold chosen. destruct (static_cursor (policy c)) eqn:Est.
    - rewrite static_next by done. destruct (passed c <? total c) eqn:E; cbn; intros [= <- <-]; [|zb; split; [done|lia]].
      mcbn. by rewrite E.
    - intros [= <- <-]. pose proof (forward_next c (rowset_size l) Hok Est ltac:(lia) Hmax ltac:(by rewrite Hsz)) as Hf.
      split; [|done]. destruct (forward_start _ _ _ _ _) as [s|]; cbn in *; [|by case_match].
      destruct (s <? total c); by case_match; simplify_eq. }
  destruct (passed c <? total c) eqn:E; zb; [right|left; split; [done|lia]].
  set (count := Z.min (rowset_size l) (total c - passed c)). set (c' := with_position (on_rowset reached (passed c) (rowset_size l) count) c).
  assert (forall r, f_cursor r = c' -> f_return r <> RET_NO_DATA -> f_return r <> RET_NO_DATA /\ rowset_rows (f_cursor r) <> [] /\
    same_size (array_size ard) (f_cursor r) /\ bulk_unpositioned_ (position (f_cursor r)) = false /\
    take (Z.to_nat (passed c)) (rows c) ++ rowset_rows (f_cursor r) = take (Z.to_nat (passed (f_cursor r))) (rows c)) as Hgen.
  { intros r -> Hr. unfold rowset_rows. cbn [c' with_position position on_rowset actual_fetched_rows_ current_row_ bulk_unpositioned_].
    change (rows c') with (rows c). replace (passed c + 1 - 1) with (passed c) by lia. assert (1 <= count) by (unfold count; lia).
    assert (passed c' = passed c + count) as Hp'.
    { unfold passed at 1. cbn [c' with_position policy position on_rowset static_position_ rowset_exhausted_ current_row_ fetched_rowset_size_].
      change (total c') with (total c). destruct (static_cursor (policy c)); [rewrite Hreach by done|ztest]; unfold count; lia. }
    split_and!; [done| |by intros _ _|done|].
    - intros Hnil. apply (f_equal length) in Hnil. rewrite length_take, length_drop in Hnil. unfold size in *. cbn in Hnil. lia.
    - rewrite Hp', take_take_drop. f_equal. lia. }
  destruct (negb (retrieve_data_ (policy c'))); [apply Hgen; done|].
  destruct (deliver_rows _ _ _ _ _ _ _ _ _ _) as [[[errors warning] d'] ws]. apply Hgen; [done|]. by repeat case_match.
Qed.

Lemma scan_passes n calls c d :
  cursor_ok c -> bulk_unpositioned_ (position c) = false -> size (rows c) <= address_max ->
  (static_cursor (policy c) = false -> Forall (fun s => array_size (ard s) = n) calls) -> same_size n c -> Forall sound calls ->
  let '(seen, k, ended) := scan calls c d in
  exists m, take (Z.to_nat (passed c)) (rows c) ++ seen = take (Z.to_nat m) (rows c) /\ m <= total c /\
    (ended = true -> m = total c) /\ (k <= length seen + 1)%nat /\ (ended = false -> (k <= length seen)%nat).
Proof.
  intros Hok Hb Hmax Hn Hsame Hs. revert c d Hok Hb Hmax Hn Hsame. induction Hs as [|s calls Hsound _ IH]; intros c d Hok Hb Hmax Hn Hsame.
  { cbn. exists (passed c). rewrite app_nil_r. pose proof (passed_range c Hok Hb). split_and!; [done|lia|done|lia|lia]. }
  cbn [scan]. unfold fetch, fetch_impl.
  assert (static_cursor (policy c) = false -> Forall (fun s => array_size (ard s) = n) calls) as Hn'.
  { intros E. specialize (Hn E). by apply Forall_cons_1 in Hn as [_ ?]. }
  destruct (fetch_checks (memory s) NEXT (ard s) (ird s) c d) as [[b l]|r] eqn:E.
  2: { apply fetch_checks_refused in E as [_ [E|[_ ?]]]; [|done]. specialize (IH (f_cursor r) (f_diag r)). rewrite E in IH |- *. by apply IH. }
  assert (b = 0) as ->.
  { clear -E. unfold Cursor.fetch_checks in E. rewrite (bool_decide_false (NEXT = BOOKMARK)) in E by done.
    repeat (case_match; try done); by simplify_eq. }
  destruct Hsound as [Hm Hp]. apply fetch_checks_accepted in E as Hacc; [|done].
  assert (same_size (array_size (ard s)) c) as Hsame'.
  { intros E1 E2. rewrite (Hsame E1 E2). specialize (Hn E1). apply Forall_cons_1 in Hn as [Hn0 _]. done. }
  pose proof (advance_rowset_ok c (ard s) (ird s) l NEXT 0 0 d Hok Hacc Hp) as Hok'.
  destruct (next_rows c (ard s) (ird s) l 0 d Hok Hacc eq_refl Hp Hmax Hsame') as [[Hr Hend]|(Hr & Hne & Hsame2 & Hb' & Hrows)].
  - rewrite bool_decide_true by done. exists (total c). rewrite app_nil_r, Hend. split_and!; [done|lia|done|cbn; lia|done].
  - rewrite bool_decide_false by done. set (r := advance_rowset c (ard s) (ird s) l NEXT 0 0 d) in *.
    assert (rows (f_cursor r) = rows c /\ policy (f_cursor r) = policy c) as [Er Ep].
    { clear. unfold r, Cursor.advance_rowset. destruct (chosen _ _ _ _ _). destruct (_ ≫= _) as [[? ?]|]; [|done].
      destruct (negb _); [done|]. by destruct (deliver_rows _ _ _ _ _ _ _ _ _ _) as [[[? ?] ?] ?]. }
    specialize (IH (f_cursor r) (f_diag r) Hok' Hb'). rewrite Er, Ep in IH. specialize (IH Hmax Hn').
    assert (same_size n (f_cursor r)) as Hsame3.
    { intros E1 E2. rewrite (Hsame2 E1 E2). rewrite Ep in E1. specialize (Hn E1). by apply Forall_cons_1 in Hn as [Hn0 _]. }
    specialize (IH Hsame3). destruct (scan calls (f_cursor r) (f_diag r)) as [[seen k] ended].
    destruct IH as (m & Hm' & Hle & He & Hk & Hk').
    exists m. rewrite app_assoc, Hrows, Hm', length_app. assert (1 <= length (rowset_rows (f_cursor r)))%nat.
    { destruct (rowset_rows (f_cursor r)); [done|cbn; lia]. }
    split_and!; [done|done|done|lia|intros Hf; specialize (Hk' Hf); lia].
Qed.


(** ** Bookmarks *)

Lemma bookmark_integer_bytes v : length (bookmark_integer v) = 8%nat.
Proof. done. Qed.

Lemma shift_in_byte v j k : 0 <= v < 2 ^ 64 -> j = k + 8 -> 0 <= k ->
  Z.lor (Z.shiftl (Z.shiftr v j) 8) (Z.shiftr v k mod 256) mod 2 ^ 64 = Z.shiftr v k.
Proof.
  intros Hv -> Hk. rewrite !Z.shiftr_div_pow2, Z.shiftl_mul_pow2 by lia. change (2 ^ 8) with 256.
  rewrite lor_add8 by (apply Z.mod_pos_bound; lia). rewrite Z.pow_add_r, <- Z.div_div by lia. change (2 ^ 8) with 256.
  rewrite (Z.mul_comm _ 256), <- Z_div_mod_eq_full. apply Z.mod_small.
  assert (0 < 2 ^ k) by lia. split; [apply Z.div_pos; lia|]. apply Z.le_lt_trans with v; [|lia]. apply Z.div_le_upper_bound; nia.
Qed.

Lemma bookmark_integer_read v : 0 <= v < 2 ^ 64 -> read_bookmark_integer (bookmark_integer v) = v.
Proof.
  intros Hv. unfold bookmark_integer, read_bookmark_integer. change (seqZ 0 8) with [0; 1; 2; 3; 4; 5; 6; 7]. cbn [map foldl].
  repeat match goal with |- context [56 - 8 * ?i] => let x := eval vm_compute in (56 - 8 * i) in change (56 - 8 * i) with x end.
  assert (0 = Z.shiftr v 64) as E. { symmetry. rewrite Z.shiftr_div_pow2 by lia. apply Z.div_small. lia. }
  rewrite E at 1.
  rewrite (shift_in_byte v 64 56 Hv), (shift_in_byte v 56 48 Hv), (shift_in_byte v 48 40 Hv), (shift_in_byte v 40 32 Hv), (shift_in_byte v 32 24 Hv),
    (shift_in_byte v 24 16 Hv), (shift_in_byte v 16 8 Hv), (shift_in_byte v 8 0 Hv) by lia. apply Z.shiftr_0_r.
Qed.

Lemma row_of_token_own c row :
  0 < active_bookmark_generation_ (result c) < 2 ^ 64 -> 0 <= bookmark_statement_id_ (policy c) < 2 ^ 64 ->
  0 <= row < total c -> total c < 2 ^ 64 -> row_of_token c (bookmark_for c row) = Some row.
Proof.
  intros Hg Hid Hrow Hmax. unfold row_of_token, bookmark_for.
  rewrite (take_app_length' (bookmark_integer (bookmark_statement_id_ (policy c)))) by done.
  rewrite (drop_app_length' (bookmark_integer (bookmark_statement_id_ (policy c)))) by done.
  rewrite (take_app_length' (bookmark_integer (active_bookmark_generation_ (result c)))) by done.
  rewrite (app_assoc (bookmark_integer _)), drop_app_length' by (by rewrite length_app).
  rewrite (take_ge (bookmark_integer ((row + 1) mod 2 ^ 64))) by (rewrite bookmark_integer_bytes; lia).
  rewrite !bookmark_integer_read by (try lia; apply Z.mod_pos_bound; lia).
  rewrite Z.mod_small by lia. rewrite !Z.eqb_refl. cbn [negb]. repeat ztest. f_equal. lia.
Qed.

Lemma row_of_token_other c c' row r :
  0 <= active_bookmark_generation_ (result c') < 2 ^ 64 -> 0 <= bookmark_statement_id_ (policy c') < 2 ^ 64 ->
  row_of_token c (bookmark_for c' row) = Some r ->
  bookmark_statement_id_ (policy c') = bookmark_statement_id_ (policy c) /\
  active_bookmark_generation_ (result c') = active_bookmark_generation_ (result c).
Proof.
  intros Hg Hid. unfold row_of_token, bookmark_for.
  rewrite (take_app_length' (bookmark_integer (bookmark_statement_id_ (policy c')))) by done.
  rewrite (drop_app_length' (bookmark_integer (bookmark_statement_id_ (policy c')))) by done.
  rewrite (take_app_length' (bookmark_integer (active_bookmark_generation_ (result c')))) by done.
  rewrite !(bookmark_integer_read (bookmark_statement_id_ _)), !(bookmark_integer_read (active_bookmark_generation_ _)) by done.
  case_match; [done|]. intros _. zb. done.
Qed.

End Rowsets.

(** ** A result of five rows *)

Definition sample_rows : list (list Cell) := map (fun n => [Some [48 + n]]) (seqZ 1 5).
Definition sample_cursor (static : bool) : Cursor := {|
  needs_data_ := false; executed_ := true;
  result := {| column_info_ := [{| sql_type := SQL_INTEGER; column_size := 10; decimal_digits := 0 |}]; result_rows_ := sample_rows;
               result_cell_errors_ := []; parameter_result_cursor_ := false; active_bookmark_generation_ := 3 |};
  policy := {| static_cursor := static; bookmark_mode_ := if static then UB_VARIABLE else UB_OFF; bookmark_statement_id_ := 7;
               retrieve_data_ := true; fetch_bookmark_ptr_ := 4096 |};
  position := new_position
|}.

(** A column of four-byte integers and a status array, [n] rows at a time. *)
Definition sample_surroundings (mem : Z -> Z) (n : Z) : Surroundings := {|
  memory := mem;
  ard := {| array_size := n; bind_type := 0; bind_offset_ptr := 0; bookmark_record := None;
            records := [{| f_type := SQL_C_SLONG; f_precision := 0; f_scale := 0; f_octet_length := 4;
                           f_data := 8192; f_indicator := 12288; f_length := 12288 |}] |};
  ird := {| rows_processed_ptr := 16384; array_status_ptr := 20480 |}
|}.
Definition blank (_ : Z) : Z := 0.
Definition sized (n : Z) : Surroundings := sample_surroundings blank n.

Lemma sized_sound n : 0 <= n -> sound (sized n).
Proof. intros Hn. split; [intros a; split; done|done]. Qed.

Lemma cursor_stays_in_result_witness :
  let c := call_all W16 no_library None [Fetch (sized 2); FetchScroll 6 3 (sized 2); SetPos 2 0 0] (sample_cursor true) new_diagnostics in
  current_row_ (position c) = 4 /\ selected_row_slot_ (position c) = 1 /\ is_Some (sample_rows !! 4%nat).
Proof.
  set (calls := [Fetch (sized 2); FetchScroll 6 3 (sized 2); SetPos 2 0 0]).
  assert (Forall sound_call calls) as Hc by (repeat constructor; try (by apply sized_sound); cbn; lia).
  split; [vm_compute; reflexivity|]. split; [vm_compute; reflexivity|].
  refine (proj2 (proj2 (proj2 (proj2 (cursor_stays_in_result W16 no_library None calls (sample_cursor true) new_diagnostics eq_refl Hc _))))).
  vm_compute; reflexivity.
Defined.


(** A forward-only cursor measures its end by the old rowset size and steps by the
    new one: a size raised between two calls passes over rows. *)
Example forward_rowset_size_change :
  (scan W16 no_library None [sized 1; sized 3; sized 3] (sample_cursor false) new_diagnostics).1.1 =
    take 1 sample_rows ++ drop 3 sample_rows.
Proof. vm_compute. reflexivity. Qed.

Definition sample_token : bytes := Eval vm_compute in bookmark_for (sample_cursor true) 1.
Definition token_memory (a : Z) : Z := nth (Z.to_nat (a - 4096)) sample_token 0.

Lemma nth_byte n s : bytes_ok s -> is_byte (nth n s 0).
Proof. intros H. revert n. induction H as [|b s Hb _ IH]; intros [|n]; cbn; try done; apply IH. Qed.

