(* ===== verification/FetchBounds.v ===== *)
(** * Where a fetch writes

    A fetch checks the application's address spans before it writes anything.
    Here it is shown that the checks are enough: every write of [Cursor.v] goes to
    a slot of a field the application bound, at the address the layout gives it
    without wrapping around, and is no longer than the slot. *)

From S2P Require Import Prelude Digits Utf8 Unicode Hex PgIeee ScaledDecimal ResultTypes ConvertNumber ConvertTime ConvertData Diagnostics ResultConvert Cursor Rowsets.

Section Bounds.
Context (w : wide) (lib : FloatLibrary) (local : option (Z * Z * Z)).

Abbreviation stored_size := (Cursor.stored_size w).

(** ** The objects of a conversion *)

(** A conversion to a fixed C type reports the size of what it stores. *)
Definition measured_as (n : Z) (r : Converted) : Prop :=
  forall o, buffer r = Some o -> stored_size o = n /\ indicator r = Some n.

Lemma measured_failed n i : measured_as n (failed i).
Proof. done. Qed.
Lemma measured_stored o n b : stored_size o = n -> measured_as n (stored_as o n b).
Proof. intros H o'. by destruct b; intros [= <-]. Qed.

Create HintDb measured.
#[local] Hint Resolve measured_failed : measured.
#[local] Hint Extern 1 (measured_as _ (stored_as _ _ _)) => (apply measured_stored; done) : measured.
#[local] Hint Extern 2 (measured_as _ {| code := _; issue := _; buffer := None; indicator := _ |}) => (intros ? ?; done) : measured.

Lemma measured_integral T value : measured_as (int_width T) (convert_integral lib T value).
Proof.
  unfold convert_integral, integer_path, decimal_path, floating_path, place_integral, finish.
  repeat (case_match; simplify_eq; eauto with measured).
Qed.

Lemma measured_boolean value : measured_as 1 (convert_boolean lib value).
Proof. unfold convert_boolean. repeat (case_match; eauto with measured). Qed.

Lemma measured_floating value f : measured_as (width f) (convert_floating lib value f).
Proof. unfold convert_floating. case_match; eauto with measured. Qed.

Lemma measured_numeric value precision sc : measured_as 19 (convert_numeric value precision sc).
Proof. unfold convert_numeric. repeat (case_match; eauto with measured). Qed.

Lemma measured_date value : measured_as 6 (convert_date value).
Proof. unfold convert_date, invalid_datetime. repeat (case_match; eauto with measured). Qed.
Lemma measured_time value : measured_as 6 (convert_time value).
Proof. unfold convert_time, invalid_datetime. repeat (case_match; eauto with measured). Qed.
Lemma measured_timestamp value : measured_as 16 (convert_timestamp local value).
Proof. unfold convert_timestamp, invalid_datetime. repeat (case_match; eauto with measured). Qed.

(** What a conversion that succeeds stores fits in [n] bytes. *)
Definition fits (n : Z) (r : Converted) : Prop :=
  code r <> SQL_ERROR -> forall o, buffer r = Some o -> stored_size o <= n.

Lemma measured_fits n r : measured_as n r -> fits n r.
Proof. intros H _ o Ho. destruct (H o Ho). lia. Qed.

Lemma fits_weaken n m r : n <= m -> fits n r -> fits m r.
Proof. intros Hnm H Hc o Ho. specialize (H Hc o Ho). lia. Qed.

Lemma size_take_le {A} (l : list A) n : 0 <= n -> size (take (Z.to_nat n) l) <= n.
Proof. intros Hn. unfold size. rewrite length_take. lia. Qed.

Lemma convert_string_fits value len : 0 <= len -> fits len (convert_string value len).
Proof.
  intros H _ o. unfold convert_string. destruct (_ <? _); [done|]. destruct (len =? 0) eqn:E; [done|]. cbn [buffer]. intros [= <-].
  cbn [Cursor.stored_size]. zb. rewrite size_app. change (size [0]) with 1. pose proof (size_nonneg value).
  pose proof (size_take_le value (Z.min (len - 1) (size value)) ltac:(lia)). lia.
Qed.

Lemma wide_copy_length_le w' units capacity : 0 <= capacity -> 0 <= wide_copy_length w' units capacity <= capacity.
Proof. intros H. pose proof (size_nonneg units). unfold wide_copy_length. repeat case_match; zb; lia. Qed.

Lemma convert_wide_string_fits value len : 0 <= len -> fits len (convert_wide_string w value len).
Proof.
  intros H _ o. unfold convert_wide_string. destruct (_ <? _); [done|]. destruct (utf8_to_wide w value) as [units|]; [|done].
  destruct (len / wchar_size w =? 0) eqn:E; [done|]. cbn [buffer]. intros [= <-]. cbn [Cursor.stored_size]. zb. rewrite size_app. change (size [0]) with 1. assert (0 < wchar_size w) as Hw by (destruct w; done).
  assert (0 <= len / wchar_size w) by (apply Z.div_pos; lia). pose proof (Z.mul_div_le len (wchar_size w) Hw).
  pose proof (wide_copy_length_le w units (len / wchar_size w - 1) ltac:(lia)) as Hc.
  pose proof (size_take_le units (wide_copy_length w units (len / wchar_size w - 1)) ltac:(lia)). nia.
Qed.

Lemma convert_binary_fits value len : 0 <= len -> fits len (convert_binary value len).
Proof.
  intros H _ o. unfold convert_binary. destruct (_ <? _); [done|]. cbn [buffer]. destruct (_ <? _); [|done]. intros [= <-].
  cbn [Cursor.stored_size]. pose proof (size_nonneg value). pose proof (size_take_le value (Z.min len (size value)) ltac:(lia)). lia.
Qed.

(** The C types whose objects have one size. *)
Definition fixed_c_type (c : Z) : bool := negb (one_of c [SQL_C_CHAR; SQL_C_WCHAR; SQL_C_BINARY]).

Definition fixed_codes : list Z :=
  [SQL_C_STINYINT; SQL_C_UTINYINT; SQL_C_BIT; SQL_C_SSHORT; SQL_C_USHORT; SQL_C_SLONG; SQL_C_ULONG; SQL_C_SBIGINT; SQL_C_UBIGINT;
   SQL_C_FLOAT; SQL_C_DOUBLE; SQL_C_NUMERIC; SQL_C_DATE; SQL_C_TYPE_DATE; SQL_C_TIME; SQL_C_TYPE_TIME; SQL_C_TIMESTAMP;
   SQL_C_TYPE_TIMESTAMP].

Lemma convert_data_measured value c len p sc n : canonical_c_type c = c -> fixed_c_type c = true ->
  bound_column_stride c 0 = Some n -> measured_as n (convert_data w lib local value c false len p sc).
Proof.
  intros Hc Hf Hn. assert (one_of c fixed_codes = true) as Hin.
  { unfold fixed_c_type in Hf. apply negb_true_iff in Hf. unfold bound_column_stride in Hn. rewrite Hc, Hf in Hn. cbv zeta in Hn.
    unfold one_of, fixed_codes in *. cbn [existsb] in *.
    repeat match goal with |- context [c =? ?x] => destruct (c =? x) eqn:?; cbn [orb] in *; [done|] end. done. }
  pose proof (fun T => measured_integral T value) as H1. pose proof (measured_floating value) as H3.
  unfold one_of, fixed_codes in Hin. cbn [existsb] in Hin. rewrite !orb_true_iff, !Z.eqb_eq in Hin.
  repeat (destruct Hin as [->|Hin]; [injection Hn as <-;
    first [exact (H1 SQLSCHAR)|exact (H1 SQLCHAR)|exact (H1 SQLSMALLINT)|exact (H1 SQLUSMALLINT)|exact (H1 SQLINTEGER)
          |exact (H1 SQLUINTEGER)|exact (H1 SQLBIGINT)|exact (H1 SQLUBIGINT)|exact (measured_boolean value)
          |exact (H3 binary32)|exact (H3 binary64)|exact (measured_numeric value p sc)|exact (measured_date value)
          |exact (measured_time value)|exact (measured_timestamp value)]|]). done.
Qed.

Lemma stride_fixed c len : canonical_c_type c = c -> fixed_c_type c = true -> bound_column_stride c len = bound_column_stride c 0.
Proof. intros Hc Hf. unfold bound_column_stride. apply negb_true_iff in Hf. by rewrite Hc, Hf. Qed.

Lemma stride_variable c len n : canonical_c_type c = c -> fixed_c_type c = false -> bound_column_stride c len = Some n -> n = len.
Proof.
  intros Hc Hf. unfold bound_column_stride. apply negb_false_iff in Hf. rewrite Hc, Hf. case_match; [done|]. by intros [= ->].
Qed.

Lemma convert_data_fits value c len len' p sc n : canonical_c_type c = c -> 0 <= len' <= len ->
  bound_column_stride c len = Some n -> fits n (convert_data w lib local value c false len' p sc).
Proof.
  intros Hc Hlen Hn. destruct (fixed_c_type c) eqn:Ef.
  - rewrite stride_fixed in Hn by done. apply measured_fits. by apply convert_data_measured.
  - rewrite (stride_variable c len n Hc Ef Hn). apply (fits_weaken len'); [lia|]. unfold fixed_c_type in Ef. apply negb_false_iff in Ef.
    unfold one_of in Ef. cbn [existsb] in Ef. rewrite !orb_true_iff, !Z.eqb_eq in Ef.
    destruct Ef as [->|[->|[->|?]]]; [apply convert_string_fits; lia|apply convert_wide_string_fits; lia|apply convert_binary_fits; lia|done].
Qed.

Lemma convert_time_fits value : fits 16 (convert_time_result_to_timestamp w lib local value false).
Proof.
  intros Hcode o. revert Hcode. unfold convert_time_result_to_timestamp.
  pose proof (convert_data_measured value SQL_C_TYPE_TIMESTAMP 16 38 0 16 eq_refl eq_refl eq_refl) as H.
  destruct (convert_data w lib local value SQL_C_TYPE_TIMESTAMP false 16 38 0) as [cd i b n]. cbn [code issue buffer indicator].
  assert (forall o, without_fraction <$> b = Some o -> stored_size o <= 16) as Hb.
  { intros x. destruct b as [y|]; [|done]. destruct (H y eq_refl) as [Hy _]. intros [= <-]. destruct y; cbn in *; lia. }
  destruct cd; cbn [buffer code]; [intros _; apply Hb..|done].
Qed.

Lemma convert_fixed_fits c_type value len sp ss n : canonical_c_type c_type = c_type -> fixed_c_type c_type = true ->
  bound_column_stride c_type 0 = Some n -> 0 <= len -> fits len (convert_fixed_result_to_binary w lib local c_type value false len sp ss).
Proof.
  intros Hc Hf Hn Hlen Hcode o. revert Hcode. unfold convert_fixed_result_to_binary. case_match; [done|].
  pose proof (convert_data_measured value c_type widest_scratch
    (if c_type =? SQL_C_NUMERIC then Diagnostics.to_smallint sp else 38) (if c_type =? SQL_C_NUMERIC then ss else 0) n Hc Hf Hn) as Hm.
  destruct (convert_data w lib local value c_type false widest_scratch _ _) as [cd i b k] eqn:Ecd. cbn [code issue buffer indicator] in *.
  destruct cd; cbn [negb andb code]; [destruct (len <? default 0 k) eqn:El; [done|]; cbn [buffer]; intros _ ->;
    destruct (Hm o eq_refl) as [E1 E2]; cbn in E2; simplify_eq; zb; cbn in *; lia..|done].
Qed.

Lemma fixed_binary_type source c_type : fixed_binary_result_c_type source = Some c_type ->
  canonical_c_type c_type = c_type /\ fixed_c_type c_type = true /\ is_Some (bound_column_stride c_type 0).
Proof. unfold fixed_binary_result_c_type. intros H. repeat (case_match; simplify_eq); (split; [done|split; [done|by eexists]]). Qed.

Lemma convert_character_fits value len : 0 <= len <= sqllen_max -> fits len (convert_character_result_to_binary value len).
Proof.
  intros Hlen _ o. unfold convert_character_result_to_binary. cbn [buffer]. unfold to_size_t, sqllen_max in *.
  rewrite Z.mod_small by lia. destruct (_ <? _); [|done]. intros [= <-]. cbn [Cursor.stored_size].
  pose proof (size_nonneg value). pose proof (size_take_le value (Z.min len (size value)) ltac:(lia)). lia.
Qed.

Lemma convert_bit_fits value len : fits len (convert_bit_result_to_binary value len).
Proof.
  intros _ o. unfold convert_bit_result_to_binary. case_match; [|done]. destruct (len <? 1) eqn:E; [done|]. zb.
  cbn [buffer]. intros [= <-]. cbn. lia.
Qed.

(** What a fetch stores in a bound buffer fits in its element. *)
Lemma convert_cell_fits source target_type column f value r n :
  convert_cell w lib local source target_type column f value = inr r -> f_data f <> 0 ->
  (fixed_c_type target_type = false -> 0 <= f_octet_length f) -> f_octet_length f <= sqllen_max ->
  canonical_c_type target_type = target_type ->
  bound_column_stride target_type (f_octet_length f) = Some n -> fits n r.
Proof.
  intros H Hd Hpos Hmax Hc Hn. revert H. unfold convert_cell. assert ((f_data f =? 0) = false) as -> by (by apply Z.eqb_neq). cbn [negb andb].
  destruct (invalid_character_numeric_result _ _ _); [by intros [= <-]|].
  destruct (nonfinite_numeric_result _ _ _); [by intros [= <-]|]. cbv zeta.
  destruct (if is_binary_sql_type source && _ then _ else _) as [text|]; [|done].
  destruct (negb (value_preserving_character_buffer_fits _ _ _ _ _ _)); [done|].
  destruct ((source =? SQL_BIT) && bit_uses_decimal_representation target_type && _ && _); [done|].
  set (units := f_octet_length f / unit_size w target_type).
  set (len := if is_binary_sql_type source && _ && _ && _ && _ && _ then _ else _).
  assert (len <= f_octet_length f /\ (0 <= f_octet_length f -> 0 <= len)) as [Hl Hl0].
  { assert (0 < unit_size w target_type) as Hu by (unfold unit_size; case_match; [by destruct w|done]).
    pose proof (Z.mul_div_le (f_octet_length f) _ Hu). unfold len. destruct (_ && _) eqn:E; [|lia].
    zb. unfold units in *. split; [nia|]. intros ?. assert (0 <= f_octet_length f / unit_size w target_type) by (apply Z.div_pos; lia). nia. }
  intros [= <-]. destruct (time_uses_timestamp_projection source target_type) eqn:Et.
  { assert (n = 16) as ->; [|apply convert_time_fits]. apply andb_true_iff in Et as [_ Et]. unfold one_of in Et. cbn [existsb] in Et.
    rewrite !orb_true_iff, !Z.eqb_eq in Et. destruct Et as [->|[->|?]]; [by injection Hn|by injection Hn|done]. }
  destruct (target_type =? SQL_C_BINARY) eqn:Eb; zb.
  - subst target_type. specialize (Hpos eq_refl).
    assert (n = f_octet_length f) as -> by apply (stride_variable SQL_C_BINARY _ _ eq_refl eq_refl Hn).
    apply (fits_weaken len); [lia|]. rewrite !andb_true_r. destruct (source =? SQL_BIT); [apply convert_bit_fits|].
    destruct (fixed_binary_result_c_type source) as [c_type|] eqn:Ef.
    + destruct (fixed_binary_type source c_type Ef) as (H1 & H2 & [k Hk]). eapply convert_fixed_fits; eauto; lia.
    + destruct (is_character_sql_type source); [apply convert_character_fits; lia|].
      eapply convert_data_fits; [done|split; [lia|apply Z.le_refl]|]. cbn. case_match; [zb; lia|done].
  - rewrite !andb_false_r. destruct (fixed_c_type target_type) eqn:Ex.
    + rewrite stride_fixed in Hn by done. destruct (fixed_binary_result_c_type source); apply measured_fits; by apply convert_data_measured.
    + specialize (Hpos eq_refl). destruct (fixed_binary_result_c_type source); (eapply convert_data_fits; [done| |exact Hn]; lia).
Qed.

(** ** The spans *)

Definition slot_address (l : Layout) (slot base extent : Z) : Z :=
  base + binding_offset l + slot * (if row_stride l =? 0 then extent else row_stride l).

Lemma span_slot address count stride slot : 0 < address -> 0 < stride -> span_fits address count stride = true -> 0 <= slot < count ->
  address + slot * stride + stride <= address_max.
Proof.
  intros Ha Hs H Hslot. unfold span_fits in H. assert ((address =? 0) || (count =? 0) || (stride =? 0) = false) as E.
  { apply orb_false_iff. split; [apply orb_false_iff; split|]; apply Z.eqb_neq; lia. }
  rewrite E in H. apply Z.leb_le in H. pose proof (Z.mul_div_le (address_max - address) stride Hs). nia.
Qed.

Lemma field_slot l base extent slot : field_span_fits l base extent = true -> 0 < base -> 0 <= binding_offset l -> 0 <= extent ->
  0 <= row_stride l -> 0 <= slot < rowset_size l ->
  field_address l slot base extent = slot_address l slot base extent /\ slot_address l slot base extent + extent <= address_max /\
  0 < slot_address l slot base extent.
Proof.
  intros H Hb Ho He Hr Hslot. unfold field_span_fits in H. unfold field_address. assert ((base =? 0) = false) as E by lia. rewrite E in *.
  fold (slot_address l slot base extent).
  destruct (address_max - base <? binding_offset l) eqn:Eo; [done|]. zb.
  assert (slot_address l slot base extent + extent <= address_max /\ 0 < slot_address l slot base extent) as [H1 H2].
  { unfold slot_address. destruct (row_stride l =? 0) eqn:Er; zb.
    - destruct (decide (extent = 0)) as [->|Hne]; [lia|].
      pose proof (span_slot (base + binding_offset l) (rowset_size l) extent slot ltac:(lia) ltac:(lia) H Hslot). nia.
    - unfold row_span_fits in H. case_match; zb; [lia|]. case_match; zb; [done|].
      pose proof (Z.mul_div_le (address_max - (base + binding_offset l) - extent) (row_stride l) ltac:(lia)). nia. }
  split_and!; [|done|done]. unfold to_size_t. apply Z.mod_small. unfold address_max in *. lia.
Qed.

(** The places a fetch may write to: the count, the status of a row, and in each
    row the elements of the fields the application bound. *)
Inductive given (c : Cursor) (ard : Ard) (ird : Ird) (l : Layout) : Z -> Z -> Prop :=
| given_count : rows_processed_ptr ird <> 0 -> given c ard ird l (rows_processed_ptr ird) 8
| given_status slot : array_status_ptr ird <> 0 -> 0 <= slot < rowset_size l ->
    given c ard ird l (array_status_ptr ird + 2 * slot) 2
| given_data i f column extent slot : records ard !! i = Some f -> column_info_ (result c) !! i = Some column -> f_data f <> 0 ->
    bound_column_stride (effective_type (sql_type column) (f_type f)) (f_octet_length f) = Some extent ->
    0 <= slot < rowset_size l -> given c ard ird l (slot_address l slot (f_data f) extent) extent
| given_length f base slot : f ∈ records ard \/ bookmark_record ard = Some f -> base = f_indicator f \/ base = f_length f -> base <> 0 ->
    0 <= slot < rowset_size l -> given c ard ird l (slot_address l slot base 8) 8
| given_bookmark f slot : bookmark_record ard = Some f -> f_data f <> 0 -> 0 <= slot < rowset_size l ->
    let extent := if use_fixed_bookmarks c then fixed_bookmark_c_type_width (f_type f) (f_octet_length f) else bookmark_bytes in
    given c ard ird l (slot_address l slot (f_data f) extent) extent.

Definition in_bounds (c : Cursor) (ard : Ard) (ird : Ird) (l : Layout) (wr : Write) : Prop :=
  exists extent, given c ard ird l wr.1 extent /\ item_size w wr.2 <= extent /\ 0 < wr.1 /\ wr.1 + extent <= address_max.

(** Values of the C types of the descriptors. *)
Definition field_ok (f : Field) : Prop :=
  0 <= f_data f /\ 0 <= f_indicator f /\ 0 <= f_length f /\ f_octet_length f <= sqllen_max.
Record descriptors_ok (ard : Ard) (ird : Ird) : Prop := {
  dok_size : 0 <= array_size ard; dok_stride : 0 <= bind_type ard;
  dok_records : Forall field_ok (records ard); dok_bookmark : forall f, bookmark_record ard = Some f -> field_ok f;
  dok_ird : 0 <= rows_processed_ptr ird /\ 0 <= array_status_ptr ird
}.

Definition layout_ok (l : Layout) : Prop := 0 <= rowset_size l /\ 0 <= row_stride l /\ 0 <= binding_offset l.

Lemma canonical_idempotent c : canonical_c_type (canonical_c_type c) = canonical_c_type c.
Proof. unfold canonical_c_type. repeat (case_match; zb; subst; try done). Qed.

Lemma stride_canonical c len : bound_column_stride (canonical_c_type c) len = bound_column_stride c len.
Proof. unfold bound_column_stride. by rewrite canonical_idempotent. Qed.

Lemma stride_nonneg c len n : bound_column_stride c len = Some n -> 0 <= n /\ (fixed_c_type (canonical_c_type c) = false -> 0 <= len).
Proof.
  unfold bound_column_stride, fixed_c_type. destruct (one_of (canonical_c_type c) [SQL_C_CHAR; SQL_C_WCHAR; SQL_C_BINARY]).
  - case_match; [done|]. intros [= <-]. zb. lia.
  - intros H. split; [|done]. repeat (case_match; simplify_eq; try lia).
Qed.

(** ** The writes of a row *)

(** The place of a field in one row. *)
Definition place_ok (l : Layout) (slot base extent : Z) : Prop :=
  base <> 0 -> field_address l slot base extent = slot_address l slot base extent /\
               slot_address l slot base extent + extent <= address_max /\ 0 < slot_address l slot base extent.

Lemma field_place l base extent slot : field_span_fits l base extent = true -> layout_ok l -> 0 <= base -> 0 <= extent ->
  0 <= slot < rowset_size l -> place_ok l slot base extent.
Proof. intros H (_ & ? & ?) ? ? ? ?. apply field_slot; [done|lia..]. Qed.

Lemma bulk_place l base extent slot : is_Some (bulk_field (binding_offset l) (row_stride l) base slot extent) -> layout_ok l ->
  0 <= base -> 0 <= extent -> 0 <= slot -> place_ok l slot base extent.
Proof.
  intros [a H] (_ & Hr & Ho) Hb He Hs Hne. unfold bulk_field in H. assert ((base =? 0) = false) as E by lia. rewrite E in H.
  destruct (_ <? binding_offset l) eqn:E1; [done|]. destruct (negb _ && _); [done|].
  destruct (_ <? extent) eqn:E2; [done|]. zb.
  assert (slot_address l slot base extent + extent <= address_max /\ 0 < slot_address l slot base extent) as [H1 H2].
  { unfold slot_address. destruct (row_stride l =? 0) eqn:Er; zb; nia. }
  split_and!; [|done..]. unfold field_address. rewrite (proj2 (Z.eqb_neq base 0) Hne). fold (slot_address l slot base extent). unfold to_size_t.
  apply Z.mod_small. unfold address_max in *. lia.
Qed.

Lemma Forall_store (P : Write -> Prop) a i : (a <> 0 -> P (a, i)) -> Forall P (store a i).
Proof. intros H. unfold store. destruct (Z.eqb_spec a 0); repeat constructor; auto. Qed.

Lemma null_field l slot extent : field_address l slot 0 extent = 0.
Proof. done. Qed.

Section Row.
Context (c : Cursor) (ard : Ard) (ird : Ird) (l : Layout) (slot : Z) (Hslot : 0 <= slot < rowset_size l).
Abbreviation inside := (in_bounds c ard ird l).

Lemma length_inside f base n : f ∈ records ard \/ bookmark_record ard = Some f -> base = f_indicator f \/ base = f_length f ->
  place_ok l slot base 8 -> field_address l slot base sqllen_bytes <> 0 -> inside (field_address l slot base sqllen_bytes, Length n).
Proof.
  intros Hf Hb Hp Hne. change sqllen_bytes with 8 in *. destruct (decide (base = 0)) as [->|H0]; [done|]. destruct (Hp H0) as (E & H1 & H2).
  rewrite E. exists 8. split_and!; [|done|done|done]. by apply (given_length c ard ird l f).
Qed.

(** The fields of a column in this row, when the column is converted at all. *)
Definition column_placed (f : Field) (column : ColumnInfo) : Prop :=
  let type := effective_type (sql_type column) (f_type f) in
  bound f = true -> is_conversion_supported (sql_type column) (canonical_c_type type) = true ->
  (f_data f <> 0 -> exists extent, bound_column_stride type (f_octet_length f) = Some extent /\ place_ok l slot (f_data f) extent) /\
  place_ok l slot (f_indicator f) 8 /\ place_ok l slot (f_length f) 8.

Lemma fetch_column_inside attributed row_index i f column cell d :
  records ard !! i = Some f -> column_info_ (result c) !! i = Some column -> field_ok f -> column_placed f column ->
  Forall inside (written (fetch_column w lib local c l attributed row_index slot i f cell d)).
Proof.
  intros Hf Hc (_ & _ & _ & Hmax) Hp. unfold fetch_column. rewrite Hc.
  change (default SQL_VARCHAR (sql_type <$> Some column)) with (sql_type column).
  destruct (bound f) eqn:Eb; [|constructor]. cbn [negb]. cbv zeta.
  set (type := effective_type (sql_type column) (f_type f)) in *.
  destruct (is_conversion_supported (sql_type column) (canonical_c_type type)) eqn:Es; [|constructor]. cbn [negb].
  destruct (Hp Eb Es) as (Hd & Hi & Hl). clear Hp. fold type in Hd. rewrite stride_canonical.
  assert (f ∈ records ard) as Hin by (by eapply list_elem_of_lookup_2).
  destruct cell as [value|].
  2: { destruct (Z.eqb_spec (field_address l slot (f_indicator f) sqllen_bytes) 0); [constructor|]. constructor; [|constructor].
       apply (length_inside f); [by left|by left|done|done]. }
  destruct (bool_decide _); [constructor|].
  destruct (convert_cell _ _ _ _ _ _ _ _) as [[]|r] eqn:Er; [constructor|].
  assert (forall n, Forall inside (store (if field_address l slot (f_length f) sqllen_bytes =? 0
      then field_address l slot (f_indicator f) sqllen_bytes else field_address l slot (f_length f) sqllen_bytes) (Length n))) as Hout.
  { intros n. apply Forall_store. destruct (_ =? 0); intros ?; apply (length_inside f); auto. }
  assert (code r <> SQL_ERROR -> Forall inside (match buffer r with
      | Some o => store (field_address l slot (f_data f) (default 0 (bound_column_stride type (f_octet_length f)))) (Object o) | None => [] end)) as Hdata.
  { intros Hok. destruct (buffer r) as [o|] eqn:Eo; [|constructor]. apply Forall_store. intros Hne.
    destruct (decide (f_data f = 0)) as [E0|H0]; [by rewrite E0 in Hne|]. destruct (Hd H0) as (extent & Hx & Hplace).
    rewrite Hx in *. cbn [default from_option] in *. change (id extent) with extent in *. destruct (Hplace H0) as (E & H1 & H2). rewrite E. exists extent.
    split_and!; [by eapply given_data| |done|done]. cbn [item_size snd].
    pose proof (stride_nonneg _ _ _ Hx) as [_ Hlen]. eapply convert_cell_fits; [exact Er|done|exact Hlen|done|apply canonical_idempotent| |done|done].
    by rewrite stride_canonical. }
  destruct (code r) eqn:Ecode; cbn [written delivered]; [apply Forall_app; split; [by apply Hdata|]; apply Forall_app; split;
    [destruct (indicator r); [apply Hout|constructor]|destruct (negb _); [|constructor]; apply Forall_store; intros ?;
     apply (length_inside f); auto]..|constructor].
Qed.

Lemma fetch_columns_inside attributed row_index : forall fs i ignored row so_far d,
  (forall j f, fs !! j = Some f -> records ard !! (i + j)%nat = Some f) ->
  (i + length row <= length (column_info_ (result c)))%nat -> Forall field_ok fs ->
  (forall j f column, fs !! j = Some f -> default false (ignored !! j) = false ->
     column_info_ (result c) !! (i + j)%nat = Some column -> column_placed f column) ->
  Forall inside (written (fetch_columns w lib local c l attributed row_index slot i fs ignored row so_far d)).
Proof.
  induction fs as [|f fs IH]; intros i ignored row so_far d Hr Hlen Hok Hp; [constructor|]. destruct row as [|cell row]; [constructor|].
  cbn [fetch_columns]. apply Forall_cons_1 in Hok as [Hf Hok]. cbn [length] in Hlen.
  assert (forall so_far d, Forall inside (written (fetch_columns w lib local c l attributed row_index slot (S i) fs (tail ignored) row so_far d))) as Hrest.
  { intros. apply IH; [intros j g Hg; rewrite Nat.add_succ_comm; by apply Hr|lia|done|].
    intros j g column Hg Hi Hcol. rewrite Nat.add_succ_comm in Hcol. apply (Hp (S j)); [done| |done].
    destruct ignored as [|b ignored]; [done|exact Hi]. }
  assert (head ignored = ignored !! 0%nat) as -> by (by destruct ignored).
  destruct (default false (ignored !! 0%nat)) eqn:Ei; [apply Hrest|].
  destruct (lookup_lt_is_Some_2 (column_info_ (result c)) i ltac:(lia)) as [column Hcol].
  assert (Forall inside (written (fetch_column w lib local c l attributed row_index slot i f cell d))) as H1.
  { eapply fetch_column_inside; [|exact Hcol|done|].
    - specialize (Hr 0%nat f eq_refl). by rewrite Nat.add_0_r in Hr.
    - apply (Hp 0%nat); [done|done|]. by rewrite Nat.add_0_r. }
  destruct (outcome (fetch_column _ _ _ _ _ _ _ _ _ _ _ _)); try exact H1; cbn [written delivered]; apply Forall_app; auto.
Qed.

Lemma bookmark_inside row_index :
  (forall f, bookmark_record ard = Some f -> bound f = true -> use_bookmarks c = true ->
     place_ok l slot (f_data f) (if use_fixed_bookmarks c then fixed_bookmark_c_type_width (f_type f) (f_octet_length f) else bookmark_bytes) /\
     place_ok l slot (f_indicator f) 8 /\ place_ok l slot (f_length f) 8) ->
  Forall inside (bookmark_writes c ard l row_index slot).
Proof.
  intros H. unfold bookmark_writes. destruct (bookmark_record ard) as [f|] eqn:Ef; [|constructor].
  destruct (use_bookmarks c) eqn:Eu; [|constructor]. cbn [negb]. cbv zeta. specialize (H f eq_refl).
  set (width := if use_fixed_bookmarks c then _ else _) in *.
  destruct (bound f) eqn:Eb.
  2: { unfold bound in Eb. apply orb_false_iff in Eb as [Eb E3]. apply orb_false_iff in Eb as [E1 E2]. zb. rewrite E1, E2, E3. constructor. }
  destruct (H eq_refl eq_refl) as (Hd & Hi & Hl). apply Forall_app; split; [|apply Forall_app; split].
  - apply Forall_store. intros Hne. destruct (decide (f_data f = 0)) as [E0|H0]; [by rewrite E0 in Hne|].
    destruct (Hd H0) as (E & H1 & H2). rewrite E. exists width. split_and!; [by apply given_bookmark| |done|done].
    unfold width. destruct (use_fixed_bookmarks c); cbn [item_size snd]; [lia|done].
  - apply Forall_store. intros. apply (length_inside f); auto.
  - destruct (negb _); [|constructor]. apply Forall_store. intros. apply (length_inside f); auto.
Qed.

Lemma row_status_inside n : 0 <= array_status_ptr ird -> span_fits (array_status_ptr ird) (rowset_size l) 2 = true ->
  Forall inside (row_status (array_status_ptr ird) slot n).
Proof.
  intros H0 H. unfold row_status. destruct (Z.eqb_spec (array_status_ptr ird) 0); [constructor|]. constructor; [|constructor].
  pose proof (span_slot (array_status_ptr ird) (rowset_size l) 2 slot ltac:(lia) ltac:(lia) H Hslot).
  exists 2. cbn [fst snd item_size]. split_and!; [by apply given_status|done|lia|lia].
Qed.
End Row.

(** ** What the checks give *)

Lemma check_column_placed l slot f column : check_column l f column = true -> layout_ok l -> field_ok f -> 0 <= slot < rowset_size l ->
  column_placed l slot f column.
Proof.
  intros H Hl (H1 & H2 & H3 & _) Hslot Hb Hs. unfold check_column in H. rewrite Hb in H. cbv zeta in H. rewrite Hs in H. cbn [negb] in H.
  destruct (if f_data f =? 0 then _ else _) as [extent|] eqn:Ex; [|done].
  apply andb_true_iff in H as [H Hfl]. apply andb_true_iff in H as [Hfd Hfi]. split_and!; [|by apply field_place..].
  intros H0. rewrite (proj2 (Z.eqb_neq _ 0) H0) in Ex. exists extent. split; [done|]. apply field_place; try done. exact (proj1 (stride_nonneg _ _ _ Ex)).
Qed.

Lemma check_columns_lookup l : forall fs columns i f column, check_columns l fs columns = true -> fs !! i = Some f ->
  columns !! i = Some column -> check_column l f column = true.
Proof.
  induction fs as [|g fs IH]; intros [|k columns] [|i] f column H Hf Hc; try done; cbn [check_columns] in H;
    apply andb_true_iff in H as [H1 H2]; [by simplify_eq/=|by eapply IH].
Qed.

Lemma bulk_row_placed l slot : layout_ok l -> 0 <= slot -> forall fs columns masks i f column,
  bulk_row_fits (binding_offset l) (row_stride l) slot fs columns masks = true -> length masks = length fs ->
  fs !! i = Some f -> columns !! i = Some column -> default false (masks !! i) = false -> field_ok f -> column_placed l slot f column.
Proof.
  intros Hl Hslot. induction fs as [|g fs IH]; intros [|k columns] [|m masks] [|i] f column H Hlen Hf Hc Hm Hok; try done;
    cbn [bulk_row_fits] in H; apply andb_true_iff in H as [H1 H2]; [|apply (IH columns masks i f column); [done|by apply Nat.succ_inj|done..]].
  cbn in Hf, Hc. injection Hf as ->. injection Hc as ->. change (m = false) in Hm. subst m. cbn [orb] in H1. destruct Hok as (Hd & Hi & Hk & _).
  intros _ Hs. cbv zeta in H1. rewrite Hs in H1. cbn [negb orb] in H1.
  destruct (if f_data f =? 0 then _ else _) as [extent|] eqn:Ex; [|done].
  apply andb_true_iff in H1 as [H1 Hfl]. apply andb_true_iff in H1 as [Hfd Hfi].
  apply bool_decide_eq_true in Hfl, Hfd, Hfi. split_and!; [|by apply bulk_place..].
  intros H0. rewrite (proj2 (Z.eqb_neq _ 0) H0) in Ex. exists extent. split; [done|]. apply bulk_place; try done. exact (proj1 (stride_nonneg _ _ _ Ex)).
Qed.

Lemma check_bookmark_placed c l slot f : check_bookmark_record c l f = None -> layout_ok l -> field_ok f -> 0 <= slot < rowset_size l ->
  bound f = true -> use_bookmarks c = true ->
  place_ok l slot (f_data f) (if use_fixed_bookmarks c then fixed_bookmark_c_type_width (f_type f) (f_octet_length f) else bookmark_bytes) /\
  place_ok l slot (f_indicator f) 8 /\ place_ok l slot (f_length f) 8.
Proof.
  intros H Hl (H1 & H2 & H3 & _) Hslot Hb Hu. unfold check_bookmark_record in H. rewrite Hb, Hu in H. cbn [negb] in H. cbv zeta in H.
  assert (forall extent, 0 <= extent -> field_span_fits l (f_data f) extent && field_span_fits l (f_indicator f) sqllen_bytes &&
            field_span_fits l (f_length f) sqllen_bytes = true ->
          place_ok l slot (f_data f) extent /\ place_ok l slot (f_indicator f) 8 /\ place_ok l slot (f_length f) 8) as K.
  { intros extent He Hs. apply andb_true_iff in Hs as [Hs Hfl]. apply andb_true_iff in Hs as [Hfd Hfi]. split_and!; by apply field_place. }
  destruct (use_fixed_bookmarks c); apply K; try done.
  - unfold fixed_bookmark_c_type_width. repeat case_match; lia.
  - by repeat (case_match; try done).
  - by repeat (case_match; try done).
Qed.

(** ** The writes of a rowset *)

Section Rowset.
Context (c : Cursor) (ard : Ard) (ird : Ird) (l : Layout).
Context (Hok : descriptors_ok ard ird) (Hl : layout_ok l).
Context (Hrows : Forall (fun row => (length row <= length (column_info_ (result c)))%nat) (rows c)).
Context (Hstatus : span_fits (array_status_ptr ird) (rowset_size l) 2 = true) (Hcount : span_fits (rows_processed_ptr ird) 1 8 = true).
Abbreviation inside := (in_bounds c ard ird l).

Lemma row_width row_index : (length (default [] (rows c !! row_index)) <= length (column_info_ (result c)))%nat.
Proof.
  destruct (rows c !! row_index) as [row|] eqn:E; [|cbn; lia]. by apply (proj1 (Forall_lookup _ _) Hrows row_index row).
Qed.

Lemma count_inside n : Forall inside (store (rows_processed_ptr ird) (Count n)).
Proof.
  apply Forall_store. intros H0. destruct Hok as [_ _ _ _ [H1 _]].
  pose proof (span_slot (rows_processed_ptr ird) 1 8 0 ltac:(lia) ltac:(lia) Hcount ltac:(lia)).
  exists 8. cbn [fst snd item_size]. split_and!; [by apply given_count|done|lia|lia].
Qed.

Lemma statuses_inside n count : count <= rowset_size l -> Forall inside (status_of_rows (array_status_ptr ird) (slots_of count) n).
Proof.
  intros Hle. unfold status_of_rows. apply Forall_concat, Forall_fmap, list.Forall_forall. intros slot Hin.
  apply elem_of_seq in Hin. apply row_status_inside; [lia| |done]. by destruct Hok as [_ _ _ _ [_ ?]].
Qed.

Lemma fetch_bound_row_inside slot row_index d :
  check_columns l (records ard) (column_info_ (result c)) = true -> bookmark_record ard ≫= check_bookmark_record c l = None ->
  0 <= slot < rowset_size l ->
  Forall inside (written (fetch_bound_row w lib local c ard (array_status_ptr ird) l None row_index slot d)).
Proof.
  intros Hc Hb Hslot. destruct Hok as [_ _ Hr Hbr [_ Hst]]. unfold fetch_bound_row. cbn [default from_option id written delivered].
  change (default (records ard, []) None) with (records ard, @nil bool). cbv iota beta. cbn [written delivered].
  apply Forall_app; split; [|apply Forall_app; split; [|by apply row_status_inside]].
  - apply bookmark_inside; [done|]. intros f Hf. rewrite Hf in Hb. apply check_bookmark_placed; auto.
  - apply fetch_columns_inside; [done|by intros|apply row_width|done|]. intros j f column Hf _ Hcol.
    apply check_column_placed; [by eapply check_columns_lookup|done| |done]. by eapply (proj1 (Forall_lookup _ _) Hr).
Qed.

Lemma bulk_bound_row_inside slot row_index n masks d :
  bulk_row_fits (binding_offset l) (row_stride l) slot (take n (records ard)) (column_info_ (result c)) masks = true ->
  length masks = length (take n (records ard)) -> 0 <= slot < rowset_size l ->
  Forall inside (written (fetch_bound_row w lib local c ard (array_status_ptr ird) l (Some (take n (records ard), masks)) row_index slot d)).
Proof.
  intros Hc Hm Hslot. destruct Hok as [_ _ Hr Hbr [_ Hst]]. unfold fetch_bound_row.
  change (default (records ard, []) (Some ?x)) with x. cbv iota beta. cbn [written delivered app].
  apply Forall_app; split; [|by apply row_status_inside].
  assert (Forall field_ok (take n (records ard))) as Ht by (by apply Forall_take).
  apply fetch_columns_inside; [done| |apply row_width|done|].
  - intros j f Hf. apply lookup_take_Some in Hf as [Hf _]. done.
  - intros j f column Hf Hi Hcol. eapply bulk_row_placed; [done|lia|exact Hc|done|exact Hf|exact Hcol|exact Hi|].
    by eapply (proj1 (Forall_lookup _ _) Ht).
Qed.

Lemma deliver_rows_inside start : check_columns l (records ard) (column_info_ (result c)) = true ->
  bookmark_record ard ≫= check_bookmark_record c l = None -> forall slots d, Forall (fun slot => 0 <= Z.of_nat slot < rowset_size l) slots ->
  Forall inside (deliver_rows w lib local c ard (array_status_ptr ird) l start slots d).2.
Proof.
  intros Hc Hb slots. induction slots as [|slot slots IH]; intros d Hs; [constructor|]. apply Forall_cons_1 in Hs as [Hslot Hs].
  cbn [deliver_rows]. cbv zeta. set (r := fetch_bound_row _ _ _ _ _ _ _ _ _ _ _). specialize (IH (dg r) Hs).
  destruct (deliver_rows _ _ _ _ _ _ _ _ _ _) as [[[errors warning] d'] ws]. cbn [snd] in *.
  apply Forall_app; split; [|done]. by apply fetch_bound_row_inside.
Qed.

Lemma bulk_rows_inside n : forall requests slot d, 0 <= slot -> slot + size requests <= rowset_size l ->
  (forall i token masks, requests !! i = Some (token, masks) -> length masks = length (take n (records ard)) /\
     bulk_row_fits (binding_offset l) (row_stride l) (slot + Z.of_nat i) (take n (records ard)) (column_info_ (result c)) masks = true) ->
  Forall inside (bulk_rows w lib local c ard (array_status_ptr ird) l (take n (records ard)) requests slot d).2.
Proof.
  induction requests as [|[token masks] requests IH]; intros slot d H0 Hn H; [constructor|]. cbn [bulk_rows]. cbv zeta.
  set (r := match row_of_token c token with Some _ => _ | None => _ end). rewrite size_cons in Hn. pose proof (size_nonneg requests).
  assert (Forall inside (written r)) as Hr.
  { destruct (H 0%nat token masks eq_refl) as [Hm Hfit]. rewrite Z.add_0_r in Hfit. unfold r. destruct (row_of_token c token).
    - apply bulk_bound_row_inside; [done|done|lia].
    - apply row_status_inside; [lia| |done]. by destruct Hok as [_ _ _ _ [_ ?]]. }
  specialize (IH (slot + 1) (dg r) ltac:(lia) ltac:(lia)). destruct (bulk_rows _ _ _ _ _ _ _ _ _ _ _) as [[[errors warning] d'] ws]. cbn [snd] in *.
  apply Forall_app; split; [done|]. apply IH. intros i t m Hi. specialize (H (S i) t m Hi).
  replace (slot + 1 + Z.of_nat i) with (slot + Z.of_nat (S i)) by lia. done.
Qed.
End Rowset.

(** The places do not depend on the cursor's position. *)
Lemma in_bounds_position p c ard ird l ws :
  Forall (in_bounds (with_position p c) ard ird l) ws -> Forall (in_bounds c ard ird l) ws.
Proof.
  intros H. eapply Forall_impl; [|exact H]. intros wr (extent & Hg & Hrest). exists extent. split; [|done]. clear -Hg.
  destruct Hg; [by apply given_count|by apply given_status|by eapply given_data|by eapply given_length|by apply given_bookmark].
Qed.

Lemma slots_below n l : n <= rowset_size l -> Forall (fun slot => 0 <= Z.of_nat slot < rowset_size l) (slots_of n).
Proof. intros H. apply list.Forall_forall. intros slot Hin. apply elem_of_seq in Hin. lia. Qed.

Lemma advance_rowset_inside c ard ird l o offset b d : descriptors_ok ard ird -> layout_ok l ->
  Forall (fun row => (length row <= length (column_info_ (result c)))%nat) (rows c) -> check_spans c ard ird l = None ->
  Forall (in_bounds c ard ird l) (f_written (advance_rowset w lib local c ard ird l o offset b d)).
Proof.
  intros Hok Hl Hrows H. unfold check_spans in H. destruct (_ || _) eqn:E; [done|]. apply orb_false_iff in E as [E Hcount].
  apply orb_false_iff in E as [_ Hstatus]. apply negb_false_iff in Hcount, Hstatus.
  unfold advance_rowset. destruct (chosen c (rowset_size l) o offset b) as [reached choice]. cbv zeta.
  destruct (choice ≫= _) as [[start overlap]|].
  2: { cbn [f_written fetched]. apply Forall_app; split; [by apply statuses_inside|by apply count_inside]. }
  set (c' := with_position _ c). change (policy c') with (policy c).
  destruct (negb (retrieve_data_ (policy c))) eqn:Er; cbn [f_written fetched].
  - apply Forall_app; split; [by apply statuses_inside|]. apply Forall_app; split; [by apply count_inside|apply statuses_inside; [done..|lia]].
  - destruct (bookmark_record ard ≫= check_bookmark_record c l) eqn:Eb; [done|]. destruct (check_columns _ _ _) eqn:Ec; [|done].
    pose proof (deliver_rows_inside c' ard ird l Hok Hl Hrows Hstatus (Z.to_nat start) Ec Eb
      (slots_of (Z.min (rowset_size l) (size (rows c) - start))) d (slots_below _ l (Z.le_min_l _ _))) as K.
    destruct (deliver_rows _ _ _ _ _ _ _ _ _ _) as [[[errors warning] d'] ws]. cbn [f_written fetched snd] in *.
    apply Forall_app; split; [by apply statuses_inside|]. apply Forall_app; split; [by apply count_inside|]. exact (in_bounds_position _ _ _ _ _ _ K).
Qed.

(** A fetch that retrieves no data writes the statuses and the count. *)
Lemma advance_headers_inside c ard ird l l' o offset b d : descriptors_ok ard ird -> rowset_size l' = rowset_size l ->
  retrieve_data_ (policy c) = false -> check_spans c ard ird l = None ->
  Forall (in_bounds c ard ird l') (f_written (advance_rowset w lib local c ard ird l o offset b d)).
Proof.
  intros Hok Hsize Hr H. unfold check_spans in H. destruct (_ || _) eqn:E; [done|]. apply orb_false_iff in E as [E Hcount].
  apply orb_false_iff in E as [_ Hstatus]. apply negb_false_iff in Hcount, Hstatus. rewrite <- Hsize in Hstatus.
  unfold advance_rowset. rewrite <- Hsize. destruct (chosen c (rowset_size l') o offset b) as [reached choice]. cbv zeta.
  destruct (choice ≫= _) as [[start overlap]|].
  2: { cbn [f_written fetched]. apply Forall_app; split; [by apply statuses_inside|by apply count_inside]. }
  cbn [policy with_position]. rewrite Hr. cbn [negb f_written fetched].
  apply Forall_app; split; [by apply statuses_inside|]. apply Forall_app; split; [by apply count_inside|apply statuses_inside; [done..|lia]].
Qed.

(** ** Any call *)

(** The layout the descriptors ask for. *)
Definition application_layout (s : Surroundings) : Layout :=
  {| rowset_size := array_size (ard s); row_stride := bind_type (ard s);
     binding_offset := if bind_offset_ptr (ard s) =? 0 then 0 else load_ulen (memory s) (bind_offset_ptr (ard s)) |}.

Definition allowed (call : CursorCall) (c : Cursor) (ws : list Write) : Prop :=
  match call with
  | Fetch s | FetchScroll _ _ s | BulkOperations _ _ s => Forall (in_bounds c (ard s) (ird s) (application_layout s)) ws
  | SetPos _ _ _ => ws = []
  end.

Definition descriptors_sound (call : CursorCall) : Prop :=
  match call with
  | Fetch s | FetchScroll _ _ s | BulkOperations _ _ s => (forall a, is_byte (memory s a)) /\ descriptors_ok (ard s) (ird s)
  | SetPos _ _ _ => True
  end.

Lemma binding_offset_loaded mem text ard n : (forall a, is_byte (mem a)) -> binding_offset_of mem text ard = inl n ->
  n = (if bind_offset_ptr ard =? 0 then 0 else load_ulen mem (bind_offset_ptr ard)) /\ 0 <= n.
Proof.
  intros Hm. unfold binding_offset_of. pose proof (load_ulen_nonneg mem (bind_offset_ptr ard) Hm).
  repeat case_match; intros [= <-]; done.
Qed.

Lemma fetch_impl_inside s o offset c d : (forall a, is_byte (memory s a)) -> descriptors_ok (ard s) (ird s) ->
  Forall (fun row => (length row <= length (column_info_ (result c)))%nat) (rows c) ->
  Forall (in_bounds c (ard s) (ird s) (application_layout s))
    (f_written (fetch_impl w lib local (memory s) o offset (ard s) (ird s) c d)).
Proof.
  intros Hm Hok Hrows. unfold fetch_impl. destruct (fetch_checks _ _ _ _ _ _) as [[b l]|r] eqn:E.
  2: { assert (f_written r = []) as ->; [|constructor]. revert E. unfold fetch_checks, needs_data_refusal, input_bookmark, refused.
       repeat (case_match; simplify_eq; try done); by intros [= <-]. }
  unfold fetch_checks in E. destruct (retrieve_data_ (policy c)) eqn:Er.
  - destruct (binding_offset_of (memory s) (str "Binding offset address span is out of range") (ard s)) as [n|[? ?]] eqn:Eo.
    2: { repeat (case_match; simplify_eq; try done). }
    destruct (binding_offset_loaded _ _ _ _ Hm Eo) as [-> Hn].
    fold (application_layout s) in E. destruct (check_spans c (ard s) (ird s) (application_layout s)) as [[? ?]|] eqn:Ec.
    { repeat (case_match; simplify_eq; try done). }
    assert (l = application_layout s) as -> by (clear -E; repeat (case_match; simplify_eq; try done); by injection E).
    apply advance_rowset_inside; [done| |done|done]. destruct Hok. by split_and!.
  - set (l' := {| rowset_size := array_size (ard s); row_stride := 0; binding_offset := 0 |}) in *.
    destruct (check_spans c (ard s) (ird s) l') as [[? ?]|] eqn:Ec; [by repeat (case_match; simplify_eq; try done)|].
    assert (l = l') as -> by (clear -E; by repeat (case_match; simplify_eq; try done)).
    by apply advance_headers_inside.
Qed.

Lemma bulk_span_fits p n width : 0 < width -> bulk_span p n width = true -> span_fits p n width = true.
Proof. intros Hw. unfold bulk_span, span_fits. destruct (p =? 0); [done|]. cbn [orb]. intros H. by case_match. Qed.

Lemma bulk_deliver_inside s bookmark c d : (forall a, is_byte (memory s a)) -> descriptors_ok (ard s) (ird s) ->
  Forall (fun row => (length row <= length (column_info_ (result c)))%nat) (rows c) -> 0 <= binding_offset (application_layout s) ->
  Forall (in_bounds c (ard s) (ird s) (application_layout s))
    (f_written (bulk_deliver w lib local (memory s) (ard s) (ird s) bookmark (binding_offset (application_layout s)) c d)).
Proof.
  intros Hm Hok Hrows Ho. unfold bulk_deliver, refused. cbv zeta. set (l := application_layout s) in *.
  destruct (_ || _) eqn:E; [constructor|]. apply orb_false_iff in E as [E _]. apply orb_false_iff in E as [Hstatus Hcount].
  apply negb_false_iff in Hstatus, Hcount. apply bulk_span_fits in Hstatus, Hcount; [|done..].
  destruct (negb (forallb _ (take _ _))); [constructor|].
  set (n := Nat.min _ _). set (fs := take n (records (ard s))).
  destruct (negb (forallb _ (slots_of _))) eqn:Efit; [constructor|]. apply negb_false_iff in Efit. rewrite forallb_forall in Efit.
  set (requests := map _ _). set (c' := with_position _ c).
  assert (layout_ok l) as Hl by (destruct Hok; by split_and!).
  change {| rowset_size := array_size (ard s); row_stride := bind_type (ard s); binding_offset := binding_offset l |} with l.
  pose proof (bulk_rows_inside c' (ard s) (ird s) l Hok Hl Hrows Hstatus n requests 0 d ltac:(done)) as K.
  fold fs in K. destruct (bulk_rows _ _ _ _ _ _ _ _ _ _ _) as [[[errors warning] d'] ws]. cbn [snd f_written fetched] in *.
  apply Forall_app; split; [by apply count_inside|]. apply Forall_app; split; [by apply statuses_inside|].
  apply (in_bounds_position (bulk_position false (position c))). apply K.
  - unfold requests, size. rewrite length_map. unfold slots_of. rewrite length_seq. destruct Hok. cbn. lia.
  - intros i token masks Hi. unfold requests in Hi. rewrite list_lookup_fmap in Hi. destruct (slots_of (array_size (ard s)) !! i) as [slot|] eqn:Es; [|done].
    injection Hi as _ <-. assert (slot = i) as -> by (by apply lookup_seq in Es as [-> _]).
    split; [unfold row_masks; by rewrite length_map|]. apply Efit. apply list_elem_of_In. by eapply list_elem_of_lookup_2.
Qed.

(** C13.  A fetch writes where it was told to.  Whatever the state of the cursor,
    the descriptors and the bytes of the application's memory, every write of a
    call of SQLFetch, SQLFetchScroll or SQLBulkOperations goes to the count of
    rows, to the status of a row of the rowset, or to the data, length or indicator
    of a bound field in a row of the rowset, at the address its layout gives
    without wrapping around the address space, and is no longer than that element;
    SQLSetPos writes nothing. *)
Theorem fetch_writes_in_bounds (call : CursorCall) (c : Cursor) (d : Diagnostics) (Hcall : descriptors_sound call)
  (Hrows : Forall (fun row => (length row <= length (column_info_ (result c)))%nat) (rows c)) :
  allowed call c (f_written (call_cursor w lib local call c d)).
Proof.
  destruct call as [s|code offset s|row operation lock|limits operation s]; cbn [call_cursor allowed].
  - destruct Hcall. by apply fetch_impl_inside.
  - destruct Hcall. unfold fetch_scroll, refused. repeat (case_match; try (by constructor)); by apply fetch_impl_inside.
  - unfold set_pos, needs_data_refusal, refused. by repeat case_match.
  - destruct Hcall as [Hm Hok]. unfold bulk_operations, needs_data_refusal, refused. repeat (case_match; try (by constructor)).
    match goal with H : binding_offset_of _ _ _ = inl _ |- _ => destruct (binding_offset_loaded _ _ _ _ Hm H) as [-> Hn] end.
    by apply bulk_deliver_inside.
Qed.
End Bounds.

(** Three rows of the sample, of which the last write is the status of the last
    row, two bytes inside the status array. *)
Lemma fetch_writes_in_bounds_witness :
  exists wr, list.last (f_written (call_cursor W16 no_library None (Fetch (sized 3)) (sample_cursor true) new_diagnostics)) = Some wr /\
    in_bounds W16 (sample_cursor true) (ard (sized 3)) (ird (sized 3)) (application_layout (sized 3)) wr /\ wr = (20484, RowStatus 0).
Proof.
  assert (allowed W16 (Fetch (sized 3)) (sample_cursor true)
    (f_written (call_cursor W16 no_library None (Fetch (sized 3)) (sample_cursor true) new_diagnostics))) as H.
  { apply fetch_writes_in_bounds.
    - split; [intros a; split; done|]. split; try (cbn; lia); [|done]. repeat constructor; cbn; unfold sqllen_max; lia.
    - repeat constructor; cbn; lia. }
  cbn [allowed] in H. destruct (list.last (f_written (call_cursor W16 no_library None (Fetch (sized 3)) (sample_cursor true) new_diagnostics))) as [wr|] eqn:E.
  - exists wr. split; [done|]. split; [by eapply (proj1 (Forall_lookup _ _) H); rewrite <- last_lookup|]. vm_compute in E. by injection E.
  - vm_compute in E. discriminate.
Defined.
