(* ===== verification/GetData.v ===== *)
(** * Reading a column in pieces

    [ODBCStatement::get_data] and [get_bookmark_data] of [odbc/odbc_handles.cpp]:
    a column of the selected row of the rowset, in as many calls as the
    application's buffer needs.  The state between two calls is [GetDataState] of
    [Cursor.v]; writes and pointers are those of that file. *)

From S2P Require Import Prelude Digits Utf8 Unicode Hex PgIeee ScaledDecimal ResultTypes ConvertNumber ConvertTime ConvertData Diagnostics ResultConvert Cursor.

(** The offset of a column that has been read to its end. *)
Definition complete : Z := 2 ^ 64 - 1.
Definition SQL_ARD_TYPE : Z := -99.

(** The arguments of a call. *)
Record Request := { g_col : Z; g_type : Z; g_buffer : Z; g_length : Z; g_indicator : Z }.

Definition with_get_data (g : GetDataState) (c : Cursor) : Cursor :=
  let p := position c in
  with_position
    {| static_position_ := static_position_ p; current_row_ := current_row_ p;
       fetched_rowset_size_ := fetched_rowset_size_ p; actual_fetched_rows_ := actual_fetched_rows_ p;
       selected_row_slot_ := selected_row_slot_ p; rowset_exhausted_ := rowset_exhausted_ p;
       row_positioned_ := row_positioned_ p; fetch_failed_ := fetch_failed_ p;
       bulk_unpositioned_ := bulk_unpositioned_ p; get_data_ := g |} c.

Definition state_of (c : Cursor) : GetDataState := get_data_ (position c).

Definition no_wide : WideGetDataState := {| byte_position := 0; remaining_units := 0; valid := false |}.

(** ** Bookmarks *)

Definition pointer_fits (address extent : Z) : bool := (address =? 0) || (extent <=? address_max - address).

(** The index of the selected row. *)
Definition selected_row (c : Cursor) : Z := current_row_ (position c) - 1 + selected_row_slot_ (position c).

Definition bookmark_unbound (ard : Ard) : bool :=
  match bookmark_record ard with Some f => negb (bound f) | None => true end.

Definition get_fixed_bookmark (r : Request) (c : Cursor) (d : Diagnostics) : Fetched :=
  let g := state_of c in
  if (get_data_column_ g =? 0) && (get_data_offset_ g =? complete) then fetched RET_NO_DATA c d []
  else
    let width := fixed_bookmark_c_type_width (g_type r) (g_length r) in
    if negb (pointer_fits (g_buffer r) width) || negb (pointer_fits (g_indicator r) sqllen_bytes)
    then refused (str "HY024") (str "Bookmark output address span is out of range") c d
    else
      let ordinal := selected_row c + 1 in
      fetched RET_SUCCESS
        (with_get_data {| get_data_column_ := 0; get_data_offset_ := complete; get_data_target_type_ := g_type r;
                          wide_get_data_ := no_wide |} c) d
        ((g_buffer r, Ordinal width (if width =? 8 then ordinal else ordinal mod 2 ^ 32)) ::
         store (g_indicator r) (Length width)).

Definition get_variable_bookmark (r : Request) (c : Cursor) (d : Diagnostics) : Fetched :=
  let g := state_of c in
  let continuing := (get_data_column_ g =? 0) && (get_data_target_type_ g =? SQL_C_VARBOOKMARK) in
  let offset := if continuing then get_data_offset_ g else 0 in
  if bookmark_bytes <=? offset then fetched RET_NO_DATA c d []
  else
    let count := Z.min (bookmark_bytes - offset) (g_length r) in
    if negb (pointer_fits (g_buffer r) count) || negb (pointer_fits (g_indicator r) sqllen_bytes)
    then refused (str "HY024") (str "Bookmark output address span is out of range") c d
    else
      let token := bookmark_for c (selected_row c) in
      let ws := (if count =? 0 then [] else [(g_buffer r, Token (take (Z.to_nat count) (drop (Z.to_nat offset) token)))]) ++
                store (g_indicator r) (Length (bookmark_bytes - offset)) in
      let c := with_get_data {| get_data_column_ := 0; get_data_offset_ := offset + count;
                                get_data_target_type_ := SQL_C_VARBOOKMARK; wide_get_data_ := no_wide |} c in
      if count <? bookmark_bytes - offset
      then fetched RET_SUCCESS_WITH_INFO c (set_error (str "01004") (str "Bookmark returned in parts") 0 d) ws
      else fetched RET_SUCCESS c d ws.

Definition get_bookmark_data (ard : Ard) (r : Request) (c : Cursor) (d : Diagnostics) : Fetched :=
  if negb (use_bookmarks c) then refused (str "07009") (str "Bookmarks are disabled") c d
  else
    let fixed := use_fixed_bookmarks c in
    if negb (if fixed then is_supported_fixed_bookmark_c_type (g_type r) else g_type r =? SQL_C_VARBOOKMARK)
    then refused (str "HY003") (str "Invalid bookmark retrieval type") c d
    else if active_bookmark_generation_ (result c) =? 0
    then refused (str "HY000") (str "Owning bookmark result is unavailable") c d
    else if negb (bookmark_unbound ard)
    then refused (str "07009") (str "Bookmark SQLGetData requires an unbound output record") c d
    else if g_buffer r =? 0 then refused (str "HY009") (str "Null bookmark output") c d
    else if g_length r <? 0 then refused (str "HY090") (str "Invalid bookmark output length") c d
    else if fixed then get_fixed_bookmark r c d else get_variable_bookmark r c d.

(** ** Pieces of a text *)

(** Fixed types are returned once, even when only a prefix fits. *)
Definition fixed_character_source (sql_type type : Z) : bool :=
  one_of type [SQL_C_CHAR; SQL_C_WCHAR] &&
  one_of sql_type [SQL_BIT; SQL_TINYINT; SQL_SMALLINT; SQL_INTEGER; SQL_BIGINT; SQL_NUMERIC; SQL_DECIMAL; SQL_REAL;
                   SQL_FLOAT; SQL_DOUBLE; SQL_TYPE_TIME; SQL_TYPE_TIMESTAMP].

Definition truncation_message : bytes := str "Result value was truncated to fit the application buffer".
Definition changed_type_message : bytes := str "SQLGetData target type changed during chunked retrieval".

Section Column.
Context (w : wide) (lib : FloatLibrary) (local : option (Z * Z * Z)).
Context (r : Request) (sql_type type : Z) (c : Cursor) (d : Diagnostics).

(** [save_offset]. *)
Definition save_offset (wide_state : WideGetDataState) (value : Z) : Cursor :=
  with_get_data {| get_data_column_ := g_col r;
                   get_data_offset_ := if fixed_character_source sql_type type then complete else value;
                   get_data_target_type_ := type; wide_get_data_ := wide_state |} c.

(** The end of a piece: more of the value is left, or nothing. *)
Definition end_piece (wide_state : WideGetDataState) (more : bool) (offset : Z) (message : bytes) (ws : list Write) : Fetched :=
  if more then fetched RET_SUCCESS_WITH_INFO (save_offset wide_state offset) (set_error (str "01004") message 0 d) ws
  else fetched RET_SUCCESS (save_offset wide_state complete) d ws.

(** A byte of a binary value has two digits: both or none are in a piece. *)
Definition whole_pairs (binary_as_text : bool) (copy_length remaining : Z) : Z :=
  if binary_as_text && (copy_length <? remaining) then copy_length - copy_length mod 2 else copy_length.

Definition get_characters (binary_as_text : bool) (text : bytes) (offset : Z) : Fetched :=
  if size text <? offset then refused (str "HY010") changed_type_message c d
  else
    let remaining := size text - offset in
    let capacity := if 0 <? g_length r then g_length r - 1 else 0 in
    let copy_length := whole_pairs binary_as_text (Z.min capacity remaining) remaining in
    end_piece (wide_get_data_ (state_of c)) ((offset + copy_length <? size text) || (g_length r =? 0)) (offset + copy_length)
      truncation_message
      (store (g_indicator r) (Length remaining) ++
       (if 0 <? g_length r
        then [(g_buffer r, Object (Chars (take (Z.to_nat copy_length) (drop (Z.to_nat offset) text) ++ [0])))] else [])).

(** The units of a code point. *)
Definition scalar (point : Z) : list Z :=
  if (wchar_size w =? 2) && (0xffff <? point)
  then [0xd800 + Z.shiftr (point - 0x10000) 10; 0xdc00 + Z.land (point - 0x10000) 0x3ff]
  else [point].

(** The loop that copies code points while they fit: what is left of the text and
    the units copied. *)
Definition copy_points_step (capacity : Z) (st : bytes * list Z) : (bytes * list Z) + option (bytes * list Z) :=
  let '(rest, copied) := st in
  match rest with
  | [] => inr (Some (rest, copied))
  | _ =>
      if capacity <=? size copied then inr (Some (rest, copied))
      else
        match next_utf8_code_point rest with
        | None => inr None
        | Some (point, next) =>
            if capacity - size copied <? size (scalar point) then inr (Some (rest, copied))
            else inl (next, copied ++ scalar point)
        end
  end.

Definition copy_points (capacity : Z) (text : bytes) : option (bytes * list Z) :=
  run unread (copy_points_step capacity) (text, []).

(** Text of a character column: the position in the cell is kept between calls. *)
Definition wide_start (text : bytes) : WideGetDataState + (bytes * bytes) :=
  let g := state_of c in
  if negb (valid (wide_get_data_ g)) || negb (get_data_column_ g =? g_col r) || negb (get_data_target_type_ g =? type) then
    match count_wide_units w text with
    | Some (inl units) => inl {| byte_position := 0; remaining_units := units; valid := true |}
    | Some (inr ConversionIssue.NumericValueOutOfRange) =>
        inr (str "22003", str "Wide result length exceeds the application indicator range")
    | _ => inr (str "22018", str "Result value is not valid UTF-8")
    end
  else inl (wide_get_data_ g).

Definition get_wide_text (text : bytes) (offset : Z) : Fetched :=
  match wide_start text with
  | inr (state, message) => refused state message c d
  | inl start =>
      let remaining := remaining_units start in
      let told := store (g_indicator r) (Length (remaining * wchar_size w)) in
      let buffer_units := g_length r / wchar_size w in
      let capacity := if 0 <? buffer_units then buffer_units - 1 else 0 in
      match copy_points capacity (drop (Z.to_nat (byte_position start)) text) with
      | None =>
          let g := state_of c in
          fetched RET_ERROR
            (with_get_data {| get_data_column_ := get_data_column_ g; get_data_offset_ := get_data_offset_ g;
                              get_data_target_type_ := get_data_target_type_ g; wide_get_data_ := start |} c)
            (set_error (str "22018") (str "Result value is not valid UTF-8") 0 d) told
      | Some (rest, copied) =>
          let left := remaining - size copied in
          end_piece {| byte_position := size text - size rest; remaining_units := left; valid := true |}
            (negb (left =? 0) || (buffer_units =? 0)) (offset + size copied) truncation_message
            (told ++ (if 0 <? buffer_units then [(g_buffer r, Object (WideChars (copied ++ [0])))] else []))
      end
  end.

(** The other sources are transcoded at every call. *)
Definition get_wide (binary_as_text : bool) (text : bytes) (offset : Z) : Fetched :=
  match utf8_to_wide w text with
  | None => refused (str "22018") (str "Result value is not valid UTF-8") c d
  | Some units =>
      if size units <? offset then refused (str "HY010") changed_type_message c d
      else
        let remaining := size units - offset in
        let buffer_units := if 0 <? g_length r then g_length r / wchar_size w else 0 in
        let capacity := if 0 <? buffer_units then buffer_units - 1 else 0 in
        let copy_length := whole_pairs binary_as_text (Z.min capacity remaining) remaining in
        let last := default 0 (units !! Z.to_nat (offset + copy_length - 1)) in
        let copy_length :=
          if (wchar_size w =? 2) && (copy_length <? remaining) && (0 <? copy_length) && (0xd800 <=? last) && (last <=? 0xdbff)
          then copy_length - 1 else copy_length in
        end_piece (wide_get_data_ (state_of c)) ((offset + copy_length <? size units) || (buffer_units =? 0))
          (offset + copy_length) truncation_message
          (store (g_indicator r) (Length (remaining * wchar_size w)) ++
           (if 0 <? buffer_units
            then [(g_buffer r, Object (WideChars (take (Z.to_nat copy_length) (drop (Z.to_nat offset) units) ++ [0])))] else []))
  end.

Definition get_bytes (value : bytes) (offset : Z) : Fetched :=
  if size value <? offset then refused (str "HY010") changed_type_message c d
  else
    let remaining := size value - offset in
    let copy_length := Z.min (g_length r) remaining in
    end_piece (wide_get_data_ (state_of c)) (offset + copy_length <? size value) (offset + copy_length)
      (str "Binary result value was truncated to fit the application buffer")
      (store (g_indicator r) (Length remaining) ++
       (if 0 <? copy_length
        then [(g_buffer r, Object (Raw (take (Z.to_nat copy_length) (drop (Z.to_nat offset) value))))] else [])).

(** A value converted whole; [keeps] are the codes after which the column is
    complete. *)
Definition get_converted (keeps : SQLRETURN -> bool) (v : Converted) : Fetched :=
  fetched (match code v with SQL_SUCCESS => RET_SUCCESS | SQL_SUCCESS_WITH_INFO => RET_SUCCESS_WITH_INFO | SQL_ERROR => RET_ERROR end)
    (if keeps (code v) then save_offset (wide_get_data_ (state_of c)) complete else c)
    (set_conversion_diagnostic (code v) (issue v) 0 0 d)
    (match buffer v with Some o => [(g_buffer r, Object o)] | None => [] end ++
     match indicator v with Some n => store (g_indicator r) (Length n) | None => [] end).

Definition not_error (s : SQLRETURN) : bool := match s with SQL_ERROR => false | _ => true end.
Definition success (s : SQLRETURN) : bool := match s with SQL_SUCCESS => true | _ => false end.

(** The value of a cell that is not null. *)
Definition get_value (column : option ColumnInfo) (numeric_of : Z * Z) (value : bytes) (offset : Z) : Fetched :=
  let character := one_of type [SQL_C_CHAR; SQL_C_WCHAR] in
  let binary_as_text := is_binary_sql_type sql_type && character in
  let bit_as_text := (sql_type =? SQL_BIT) && bit_uses_decimal_representation type in
  match (if binary_as_text then Some (encode_pairs value)
         else if bit_as_text then bit_result_as_text value else Some value) with
  | None => refused (str "22018") (str "Invalid normalized boolean result") c d
  | Some text =>
      if bit_as_text && character && (g_length r <? 2 * unit_size w type)
      then refused (str "22003") (str "Bit character result does not fit in the application buffer") c d
      else if invalid_character_numeric_result sql_type type text
      then refused (str "22018") (str "Character result is not a numeric literal") c d
      else if nonfinite_numeric_result sql_type type text
      then refused (str "22003") (str "Non-finite numeric result cannot be represented as SQL_C_NUMERIC") c d
      else if negb (value_preserving_character_buffer_fits w sql_type type text (g_length r) offset)
      then refused (str "22003") (str "Result value does not fit in the character buffer") c d
      else if type =? SQL_C_CHAR then get_characters binary_as_text text offset
      else if (type =? SQL_C_WCHAR) && is_character_sql_type sql_type && negb (binary_as_text || bit_as_text)
      then get_wide_text text offset
      else if type =? SQL_C_WCHAR then get_wide binary_as_text text offset
      else if type =? SQL_C_BINARY then
        match fixed_binary_result_c_type sql_type with
        | Some c_type =>
            get_converted not_error
              (convert_fixed_result_to_binary w lib local c_type value false (g_length r)
                 (default 0 (column_size <$> column)) (default 0 (decimal_digits <$> column)))
        | None =>
            if sql_type =? SQL_BIT then get_converted success (convert_bit_result_to_binary value (g_length r))
            else get_bytes value offset
        end
      else
        get_converted not_error
          (if time_uses_timestamp_projection sql_type type then convert_time_result_to_timestamp w lib local value false
           else convert_data w lib local text type false (g_length r) numeric_of.1 numeric_of.2)
  end.
End Column.

Section Get.
Context (w : wide) (lib : FloatLibrary) (local : option (Z * Z * Z)).

(** The C type the call asks for: a refusal, or the canonical type. *)
Definition requested_type (ard : Ard) (r : Request) (sql_type : Z) : Z + (bytes * bytes) :=
  let chosen :=
    if g_type r =? SQL_ARD_TYPE then
      match records ard !! Z.to_nat (g_col r - 1) with
      | Some f => if is_valid_c_type (f_type f) then Some (effective_type sql_type (f_type f)) else None
      | None => None
      end
    else Some (effective_type sql_type (g_type r)) in
  match chosen with
  | None => inr (str "HY003", str "ARD does not define a valid target type for the column")
  | Some t =>
      let t := canonical_c_type t in
      if is_supported_c_type t then inl t else inr (str "HYC00", str "SQLGetData target type is not supported")
  end.

(** Precision and scale of a numeric target. *)
Definition numeric_target (ard : Ard) (r : Request) (type : Z) : Z * Z :=
  if (type =? SQL_C_NUMERIC) && (g_type r =? SQL_ARD_TYPE) then
    match records ard !! Z.to_nat (g_col r - 1) with Some f => (f_precision f, f_scale f) | None => (38, 0) end
  else (38, 0).

(** A column of the selected row, from 1. *)
Definition get_column (ard : Ard) (r : Request) (row_index : Z) (cell : Cell) (c : Cursor) (d : Diagnostics) : Fetched :=
  let i := Z.to_nat (g_col r - 1) in
  let column := column_info_ (result c) !! i in
  let sql_type := default SQL_VARCHAR (sql_type <$> column) in
  if static_cursor (policy c) && (1 <? fetched_rowset_size_ (position c)) &&
     match records ard !! i with Some f => bound f | None => false end
  then refused (str "07009") (str "Block SQLGetData requires an unbound column") c d
  else if negb (g_type r =? SQL_ARD_TYPE) && negb (is_valid_c_type (g_type r))
  then refused (str "HY003") (str "Invalid SQLGetData target type") c d
  else
    match requested_type ard r sql_type with
    | inr (state, message) => refused state message c d
    | inl type =>
        let g := state_of c in
        let offset := if get_data_column_ g =? g_col r then get_data_offset_ g else 0 in
        if offset =? complete then fetched RET_NO_DATA c d []
        else if (get_data_column_ g =? g_col r) && negb (offset =? 0) && negb (get_data_target_type_ g =? type)
        then refused (str "HY010") changed_type_message c d
        else if g_buffer r =? 0 then refused (str "HY009") (str "Null result buffer") c d
        else if g_length r <? 0 then refused (str "HY090") (str "Invalid result buffer length") c d
        else if negb (is_conversion_supported sql_type type)
        then refused (str "07006") (str "Unsupported result data type conversion") c d
        else
          match cell with
          | None =>
              if g_indicator r =? 0 then refused (str "22002") (str "NULL column requires an indicator variable") c d
              else fetched RET_SUCCESS (save_offset r sql_type type c (wide_get_data_ g) complete) d
                     [(g_indicator r, Length SQL_NULL_DATA)]
          | Some value =>
              if bool_decide ((Z.to_nat row_index, i) ∈ result_cell_errors_ (result c))
              then refused (str "22018") (str "Invalid backend result encoding") c d
              else get_value w lib local r sql_type type c d column (numeric_target ard r type) value offset
          end
    end.

Definition get_data (ard : Ard) (r : Request) (c : Cursor) (d : Diagnostics) : Fetched :=
  let p := position c in
  if needs_data_ c then needs_data_refusal c d
  else if (g_col r =? 0) && negb (executed_ c) then refused (str "HY010") (str "Statement has not been executed") c d
  else if negb (executed_ c) || negb (row_positioned_ p) || (current_row_ p =? 0) || (size (rows c) <? current_row_ p)
  then refused (str "24000") (str "No current row") c d
  else if (1 <? fetched_rowset_size_ p) && negb (static_cursor (policy c))
  then refused (str "HY109") (str "SQLGetData is not supported on a forward-only multirow rowset") c d
  else if (size (rows c) - (current_row_ p - 1) <=? selected_row_slot_ p) || (actual_fetched_rows_ p <=? selected_row_slot_ p)
  then refused (str "24000") (str "No selected owning row is available") c d
  else
    let row := default [] (rows c !! Z.to_nat (selected_row c)) in
    if g_col r =? 0 then get_bookmark_data ard r c d
    else if (g_col r <? 1) || (size row <? g_col r) then refused (str "07009") (str "Invalid column number") c d
    else get_column ard r (selected_row c) (default None (row !! Z.to_nat (g_col r - 1))) c d.
End Get.
