(* ===== verification/GetDataPieces.v ===== *)
(** * The pieces of a value

    A column of character or binary data read with several calls of [SQLGetData]
    ([GetData.v]): the pieces are the value, cut at character boundaries, and the
    reading ends. *)

From S2P Require Import Prelude Digits Utf8 Unicode Hex PgIeee ScaledDecimal ResultTypes ConvertNumber ConvertTime ConvertData Diagnostics ResultConvert Cursor GetData.

(** ** The wide loops on a text *)

#[export] Instance wide_units_decreases w : Decreases unread (wide_units_step w).
Proof.
  intros [s n] [s' n']. destruct s as [|b s]; [done|]. unfold wide_units_step.
  destruct (next_utf8_code_point _) as [[c rest]|] eqn:E; [|done].
  apply next_length in E. repeat case_match; intros [= <- <-]; done.
Qed.

#[export] Instance copy_points_decreases w capacity : Decreases unread (copy_points_step w capacity).
Proof.
  intros [s o] [s' o']. destruct s as [|b s]; [done|]. unfold copy_points_step.
  destruct (_ <=? _); [done|]. destruct (next_utf8_code_point _) as [[c rest]|] eqn:E; [|done].
  apply next_length in E. repeat case_match; intros [= <- <-]; done.
Qed.

Lemma scalar_encode w c : is_scalar c = true -> scalar w c = wide_encode w c.
Proof.
  intros Hc%is_scalar_spec. unfold scalar, wide_encode. destruct w; [|done]. cbn [wchar_size]. change (2 =? 2) with true. cbn [andb].
  destruct (Z.ltb_spec 0xffff c), (Z.leb_spec c 0xffff); try lia; [|done]. by bits.
Qed.

Lemma wide_encode_units w c : 1 <= size (wide_encode w c) <= 2.
Proof. split; [apply wide_encode_size|]. unfold size, wide_encode. destruct w; [case_match|]; cbn; lia. Qed.

Lemma wide_increment w c : is_scalar c = true -> (if (wchar_size w =? 2) && (0xffff <? c) then 2 else 1) = size (wide_encode w c).
Proof.
  intros Hc. rewrite <- scalar_encode by done. unfold scalar. by destruct (_ && _).
Qed.

Lemma count_wide_units_from w cs n : scalars cs -> n + size (wide_text w cs) <= sqllen_max / wchar_size w ->
  run unread (wide_units_step w) (utf8_text cs, n) = Some (inl (n + size (wide_text w cs))).
Proof.
  intros Hcs. revert n. induction Hcs as [|c cs Hc _ IH]; intros n Hn; rewrite run_eq.
  { cbn. rewrite Z.add_0_r. done. }
  rewrite utf8_text_cons. unfold wide_units_step at 1. rewrite decode_complete by done.
  destruct (encode_nonempty c (utf8_text cs)) as (b & t & ->). cbv zeta. rewrite wide_increment by done.
  rewrite wide_text_cons, size_app in Hn |- *. pose proof (size_nonneg (wide_text w cs)).
  destruct (_ <? n) eqn:E; zb; [lia|]. rewrite IH by lia. by rewrite Z.add_assoc.
Qed.

Lemma copy_points_scalar w capacity c s copied : is_scalar c = true ->
  copy_points_step w capacity (utf8_encode c ++ s, copied) =
    if (capacity <=? size copied) || (capacity - size copied <? size (wide_encode w c)) then inr (Some (utf8_encode c ++ s, copied))
    else inl (s, copied ++ wide_encode w c).
Proof.
  intros Hc. unfold copy_points_step. rewrite decode_complete, scalar_encode by done.
  destruct (encode_nonempty c s) as (b & t & ->). by destruct (capacity <=? size copied).
Qed.

Lemma copy_points_from w capacity cs copied : scalars cs -> size copied <= capacity -> exists taken left_,
  cs = taken ++ left_ /\
  run unread (copy_points_step w capacity) (utf8_text cs, copied) = Some (utf8_text left_, copied ++ wide_text w taken) /\
  size copied + size (wide_text w taken) <= capacity /\
  (forall c rest, left_ = c :: rest -> capacity < size copied + size (wide_text w taken) + size (wide_encode w c)).
Proof.
  intros Hcs. revert copied. induction Hcs as [|c cs Hc Hcs IH]; intros copied Hcap.
  { exists [], []. rewrite run_eq. cbn. rewrite app_nil_r. change (size []) with 0. split_and!; [done|done|lia|done]. }
  pose proof (wide_encode_units w c) as Hsize. rewrite run_eq, utf8_text_cons, copy_points_scalar by done.
  destruct (_ || _) eqn:E; zb.
  { exists [], (c :: cs). cbn [wide_text map concat app]. rewrite app_nil_r. change (size []) with 0. split_and!; [done|done|lia|].
    intros ? ? [= <- <-]. lia. }
  destruct (IH (copied ++ wide_encode w c)) as (taken & left_ & -> & Hrun & Hle & Hend); [rewrite size_app; lia|].
  exists (c :: taken), left_. rewrite wide_text_cons, size_app in *. split_and!; [done| |lia|].
  - rewrite Hrun. by rewrite app_assoc.
  - intros c' rest' Hl. specialize (Hend c' rest' Hl). lia.
Qed.

(** Text of ASCII characters. *)
Lemma ascii_text w s : Forall (fun c => 0 <= c < 128) s -> scalars s /\ utf8_text s = s /\ wide_text w s = s.
Proof.
  induction 1 as [|c s Hc _ (H1 & H2 & H3)]; [done|]. split_and!.
  - constructor; [|done]. apply is_scalar_spec. lia.
  - rewrite utf8_text_cons, H2. unfold utf8_encode. by ztest.
  - rewrite wide_text_cons, H3. unfold wide_encode. destruct w; [by ztest|done].
Qed.

Lemma hex_digit_ascii n : 0 <= n < 16 -> 0 <= hex_digit n < 128.
Proof.
  intros H. assert (forallb (fun n => (0 <=? hex_digit n) && (hex_digit n <? 128)) (seqZ 0 16) = true) as K by (vm_compute; reflexivity).
  rewrite forallb_forall in K. specialize (K n). rewrite <- list_elem_of_In, elem_of_seqZ in K. specialize (K ltac:(lia)). lia.
Qed.

Lemma encode_pairs_ascii s : bytes_ok s -> Forall (fun c => 0 <= c < 128) (encode_pairs s).
Proof.
  induction 1 as [|b s Hb _ IH]; [constructor|]. rewrite encode_pairs_cons. unfold is_byte in Hb.
  repeat constructor; try apply IH; apply hex_digit_ascii; dlia.
Qed.

(** ** What a call delivers *)

(** The data of a call, without the terminator. *)
Definition payload (ws : list Write) : list Z :=
  concat (map (fun wr => match snd wr with
                         | Object (Chars s) | Object (WideChars s) => removelast s
                         | Object (Raw s) => s
                         | _ => [] end) ws).

(** The value as the application sees it in the C type. *)
Definition cell_text (sql_type type : Z) (value : bytes) : bytes :=
  if is_binary_sql_type sql_type && one_of type [SQL_C_CHAR; SQL_C_WCHAR] then encode_pairs value else value.
Definition whole (w : wide) (sql_type type : Z) (value : bytes) : option (list Z) :=
  if type =? SQL_C_WCHAR then utf8_to_wide w (cell_text sql_type type value) else Some (cell_text sql_type type value).

(** Data of any length. *)
Definition variable_source (sql_type : Z) : bool := is_character_sql_type sql_type || is_binary_sql_type sql_type.
Definition piece_type (type : Z) : bool := one_of type [SQL_C_CHAR; SQL_C_WCHAR; SQL_C_BINARY].

Section Pieces.
Context (w : wide) (lib : FloatLibrary) (local : option (Z * Z * Z)).
Context (sql_type type : Z).
Abbreviation unit := (unit_size w type).

(** The indicator tells how much was left before the call. *)
Definition tells (q : Request) (rest : list Z) (o : Fetched) : Prop :=
  g_indicator q <> 0 -> (g_indicator q, Length (unit * size rest)) ∈ f_written o.

(** What is written to the buffer is no longer than the buffer. *)
Definition within (q : Request) (o : Fetched) : Prop :=
  Forall (fun wr => match snd wr with Object v => stored_size w v <= g_length q | _ => True end) (f_written o).

(** A piece never ends inside a character, nor between the digits of a byte. *)
Definition uncut (piece : list Z) : Prop :=
  (type = SQL_C_WCHAR -> exists cs, scalars cs /\ piece = wide_text w cs) /\
  (is_binary_sql_type sql_type = true -> one_of type [SQL_C_CHAR; SQL_C_WCHAR] = true -> size piece mod 2 = 0).

(** The answers to some calls, when [rest] is what is left of the value. *)
Inductive delivers : list Request -> list Fetched -> list Z -> Prop :=
| delivers_nothing rest : delivers [] [] rest
| delivers_piece q qs o os piece rest : f_return o = RET_SUCCESS_WITH_INFO -> payload (f_written o) = piece -> within q o ->
    tells q (piece ++ rest) o -> uncut piece -> (3 * unit <= g_length q -> piece <> []) -> delivers qs os rest ->
    delivers (q :: qs) (o :: os) (piece ++ rest)
| delivers_rest q qs o os rest : f_return o = RET_SUCCESS -> payload (f_written o) = rest -> within q o -> tells q rest o ->
    length os = length qs -> Forall (fun o => f_return o = RET_NO_DATA /\ f_written o = []) os ->
    delivers (q :: qs) (o :: os) rest.

(** The state between two calls, when [done_] has been delivered. *)
Definition wide_ok (value : bytes) (s : WideGetDataState) (done_ rest : list Z) : Prop :=
  type = SQL_C_WCHAR -> is_character_sql_type sql_type = true ->
  valid s = true /\ exists cs ds, scalars cs /\ scalars ds /\ value = utf8_text cs ++ utf8_text ds /\ done_ = wide_text w cs /\
    rest = wide_text w ds /\ byte_position s = size (utf8_text cs) /\ remaining_units s = size rest.

(** The end of one call. *)
Definition one_call (value : bytes) (q : Request) (c : Cursor) (done_ rest : list Z) (o : Fetched) : Prop :=
  exists piece rest' s, rest = piece ++ rest' /\ payload (f_written o) = piece /\ within q o /\ tells q rest o /\ uncut piece /\
    (f_return o = RET_SUCCESS /\ rest' = [] /\ f_cursor o = save_offset q sql_type type c s complete \/
     f_return o = RET_SUCCESS_WITH_INFO /\ (3 * unit <= g_length q -> piece <> []) /\
     f_cursor o = save_offset q sql_type type c s (size (done_ ++ piece)) /\ wide_ok value s (done_ ++ piece) rest').

Lemma unit_positive : 0 < unit.
Proof. unfold unit_size. case_match; [by destruct w|done]. Qed.

Lemma payload_told a n ws : payload (store a (Length n) ++ ws) = payload ws.
Proof. unfold payload, store. by case_match. Qed.

Lemma told_written q n ws : g_indicator q <> 0 -> (g_indicator q, Length n) ∈ store (g_indicator q) (Length n) ++ ws.
Proof. intros H. unfold store. rewrite (proj2 (Z.eqb_neq _ 0) H). constructor. Qed.

Lemma drop_done (done_ rest : list Z) : drop (Z.to_nat (size done_)) (done_ ++ rest) = rest.
Proof. unfold size. rewrite Nat2Z.id. by rewrite drop_app_length. Qed.

Lemma within_object q c d a n ws : Forall (fun wr => match snd wr with Object v => stored_size w v <= g_length q | _ => True end) ws ->
  within q (fetched RET_SUCCESS c d (store a (Length n) ++ ws)).
Proof. intros H. unfold within, store. cbn [f_written fetched]. apply Forall_app. split; [|done]. case_match; repeat constructor. Qed.

Lemma size_taken (n : Z) (l : list Z) : 0 <= n <= size l -> size (take (Z.to_nat n) l) = n.
Proof. unfold size. rewrite length_take. lia. Qed.

(** The end of a piece of [n] elements. *)
Lemma end_piece_call value q c d s (done_ rest : list Z) n more message ws :
  0 <= n <= size rest -> (more = false -> n = size rest) -> (3 * unit <= g_length q -> more = true -> 0 < n) ->
  payload ws = take (Z.to_nat n) rest -> within q (fetched RET_SUCCESS c d ws) -> tells q rest (fetched RET_SUCCESS c d ws) -> uncut (take (Z.to_nat n) rest) ->
  wide_ok value s (done_ ++ take (Z.to_nat n) rest) (drop (Z.to_nat n) rest) ->
  one_call value q c done_ rest (end_piece q sql_type type c d s more (size done_ + n) message ws).
Proof.
  intros Hn Hmore Hsome Hp Hin Ht Hu Hw. exists (take (Z.to_nat n) rest), (drop (Z.to_nat n) rest), s.
  pose proof (size_taken n rest Hn) as Hsize.
  split; [by rewrite take_drop|]. unfold end_piece. destruct more; (split; [exact Hp|]); (split; [exact Hin|]); (split; [exact Ht|]); (split; [exact Hu|]).
  - right. split; [done|]. split; [|split; [by rewrite size_app, Hsize|done]]. intros H. specialize (Hsome H eq_refl).
    intros E. rewrite E in Hsize. change (size []) with 0 in Hsize. lia.
  - left. split; [done|]. split; [|done]. rewrite (Hmore eq_refl). unfold size. rewrite Nat2Z.id. apply drop_all.
Qed.

(** How many elements a piece takes of the [remaining] ones. *)
Lemma whole_pairs_spec bat capacity remaining : 0 <= capacity -> 0 <= remaining -> (bat = true -> remaining mod 2 = 0) ->
  let n := whole_pairs bat (Z.min capacity remaining) remaining in
  0 <= n <= remaining /\ n <= capacity /\ (bat = true -> n mod 2 = 0) /\ (2 <= capacity -> 0 < remaining -> 0 < n).
Proof.
  intros Hc Hr Hb n. unfold n, whole_pairs. destruct bat; cbn [andb]; [|split_and!; [lia..|done|lia]]. specialize (Hb eq_refl).
  pose proof (Z.mod_pos_bound (Z.min capacity remaining) 2 ltac:(lia)).
  destruct (Z.ltb_spec (Z.min capacity remaining) remaining).
  - pose proof (Z.div_mod (Z.min capacity remaining) 2 ltac:(lia)). split_and!; [lia..| |lia]. intros _.
    replace (Z.min capacity remaining - Z.min capacity remaining mod 2) with ((Z.min capacity remaining / 2) * 2) by lia. apply Z_mod_mult.
  - replace (Z.min capacity remaining) with remaining by lia. split_and!; [lia..|done|lia].
Qed.

Lemma not_wide_ok value s done_ rest : type <> SQL_C_WCHAR \/ is_character_sql_type sql_type = false -> wide_ok value s done_ rest.
Proof. intros [H|H] ? ?; [done|congruence]. Qed.

Lemma get_characters_call value q c d text done_ rest : type = SQL_C_CHAR -> text = done_ ++ rest -> 0 <= g_length q ->
  (is_binary_sql_type sql_type = true -> size rest mod 2 = 0) ->
  one_call value q c done_ rest (get_characters q sql_type type c d (is_binary_sql_type sql_type) text (size done_)).
Proof.
  intros Ht -> Hlen Heven. assert (unit = 1) as Hunit by (unfold unit_size; by rewrite Ht). pose proof (size_nonneg rest) as Hr. unfold get_characters. rewrite size_app. ztest.
  replace (size done_ + size rest - size done_) with (size rest) by lia. rewrite drop_done. cbv zeta.
  set (capacity := if 0 <? g_length q then g_length q - 1 else 0).
  assert (0 <= capacity) as Hcap by (unfold capacity; case_match; zb; lia).
  destruct (whole_pairs_spec (is_binary_sql_type sql_type) capacity (size rest) Hcap Hr Heven) as (Hn & Hfit & Hpair & Hsome).
  set (n := whole_pairs _ _ _) in *. apply end_piece_call.
  - done.
  - intros [E1 E2]%orb_false_iff. zb. lia.
  - intros Hbig Hmore. apply orb_true_iff in Hmore. rewrite Hunit in Hbig.
    apply Hsome; [unfold capacity; case_match; zb; lia|]. destruct Hmore; zb; lia.
  - rewrite payload_told. destruct (0 <? g_length q) eqn:El; unfold payload; cbn [map concat snd].
    + by rewrite removelast_last, app_nil_r.
    + assert (n = 0) as -> by (unfold capacity in *; lia). done.
  - apply within_object. destruct (0 <? g_length q) eqn:El; repeat constructor. cbn [snd stored_size].
    rewrite size_app, size_taken by done. change (size [0]) with 1. unfold capacity in *. lia.
  - intros Hi. rewrite Hunit, Z.mul_1_l. by apply told_written.
  - split; [intros E; by rewrite E in Ht|]. intros Hb _. specialize (Hpair Hb). by rewrite size_taken.
  - apply not_wide_ok. left. by rewrite Ht.
Qed.

Lemma get_bytes_call value q c d done_ rest : type = SQL_C_BINARY -> value = done_ ++ rest -> 0 <= g_length q ->
  one_call value q c done_ rest (get_bytes q sql_type type c d value (size done_)).
Proof.
  intros Ht -> Hlen. assert (unit = 1) as Hunit by (unfold unit_size; by rewrite Ht). pose proof (size_nonneg rest) as Hr. unfold get_bytes. rewrite size_app. ztest.
  replace (size done_ + size rest - size done_) with (size rest) by lia. rewrite drop_done. cbv zeta.
  set (n := Z.min (g_length q) (size rest)). apply end_piece_call.
  - lia.
  - intros E. zb. lia.
  - intros Hbig Hmore. rewrite Hunit in Hbig. zb. lia.
  - rewrite payload_told. destruct (0 <? n) eqn:El; unfold payload; cbn [map concat snd]; [by rewrite app_nil_r|].
    assert (n = 0) as -> by (zb; lia). done.
  - apply within_object. destruct (0 <? n) eqn:El; repeat constructor. cbn [snd stored_size]. rewrite size_taken; lia.
  - intros Hi. rewrite Hunit, Z.mul_1_l. by apply told_written.
  - split; [intros E; by rewrite E in Ht|]. intros _. by rewrite Ht.
  - apply not_wide_ok. left. by rewrite Ht.
Qed.

(** The digits of a binary value as wide text. *)
Lemma get_wide_call value q c d text done_ rest : type = SQL_C_WCHAR -> is_binary_sql_type sql_type = true ->
  Forall (fun c => 0 <= c < 128) text -> text = done_ ++ rest -> 0 <= g_length q -> size rest mod 2 = 0 ->
  one_call value q c done_ rest (get_wide w q sql_type type c d true text (size done_)).
Proof.
  intros Ht Hb Hascii -> Hlen Heven. pose proof (size_nonneg rest) as Hr. pose proof (size_nonneg done_) as Hd.
  destruct (ascii_text w _ Hascii) as (Hsc & Hu & Hw). unfold get_wide.
  assert (utf8_to_wide w (done_ ++ rest) = Some (done_ ++ rest)) as ->.
  { pose proof (to_wide_from_text w (done_ ++ rest) [] Hsc) as E. rewrite Hu, Hw in E. exact E. }
  rewrite size_app. ztest. replace (size done_ + size rest - size done_) with (size rest) by lia. rewrite drop_done. cbv zeta.
  assert (unit = wchar_size w) as Hunit by (unfold unit_size; by rewrite Ht). pose proof unit_positive as Hpos. rewrite Hunit in Hpos.
  set (buffer_units := if 0 <? g_length q then g_length q / wchar_size w else 0).
  assert (0 <= buffer_units) as Hbu by (unfold buffer_units; case_match; [apply Z.div_pos; lia|lia]).
  set (capacity := if 0 <? buffer_units then buffer_units - 1 else 0).
  assert (0 <= capacity) as Hcap by (unfold capacity; case_match; zb; lia).
  destruct (whole_pairs_spec true capacity (size rest) Hcap Hr ltac:(done)) as (Hn & Hfit & Hpair & Hsome).
  set (n := whole_pairs true _ _) in *.
  set (last_ := default 0 ((done_ ++ rest) !! _)).
  assert (0 <= last_ < 128) as Hlast.
  { unfold last_. destruct ((done_ ++ rest) !! _) as [x|] eqn:Ex; [|cbn; lia]. by apply (proj1 (Forall_lookup _ _) Hascii _ _ Ex). }
  assert ((0xd800 <=? last_) = false) as -> by lia. rewrite !andb_false_r. cbn [andb]. apply end_piece_call.
  - done.
  - intros [E1 E2]%orb_false_iff. zb. lia.
  - rewrite Hunit. intros Hbig Hmore. assert (3 <= buffer_units).
    { unfold buffer_units. ztest. apply Z.div_le_lower_bound; lia. }
    apply orb_true_iff in Hmore. apply Hsome; [unfold capacity; case_match; zb; lia|]. destruct Hmore; zb; lia.
  - rewrite payload_told. destruct (0 <? buffer_units) eqn:El; unfold payload; cbn [map concat snd].
    + by rewrite removelast_last, app_nil_r.
    + assert (n = 0) as -> by (unfold capacity in *; lia). done.
  - apply within_object. destruct (0 <? buffer_units) eqn:El; repeat constructor. cbn [snd stored_size].
    rewrite size_app, size_taken by done. change (size [0]) with 1. unfold capacity, buffer_units in *. destruct (0 <? g_length q); [|done].
    pose proof (Z.mul_div_le (g_length q) (wchar_size w) Hpos). nia.
  - intros Hi. rewrite Hunit, Z.mul_comm. by apply told_written.
  - split.
    + intros _. exists (take (Z.to_nat n) rest). apply Forall_app in Hascii as [_ Hascii].
      destruct (ascii_text w (take (Z.to_nat n) rest)) as (H1 & H2 & H3); [by apply Forall_take|]. by split.
    + intros _ _. specialize (Hpair eq_refl). by rewrite size_taken.
  - apply not_wide_ok. right. clear -Hb. revert Hb. unfold is_binary_sql_type, is_character_sql_type, one_of. cbn [existsb].
    rewrite !orb_true_iff, !Z.eqb_eq. by intros [->|[->|[->|?]]].
Qed.

Lemma get_wide_text_call value q c d done_ rest start : type = SQL_C_WCHAR -> is_character_sql_type sql_type = true ->
  is_binary_sql_type sql_type = false -> wide_start w q type c value = inl start -> wide_ok value start done_ rest -> 0 <= g_length q ->
  one_call value q c done_ rest (get_wide_text w q sql_type type c d value (size done_)).
Proof.
  intros Ht Hch Hbin Hstart Hok Hlen. destruct (Hok Ht Hch) as (_ & cs & ds & Hcs & Hds & -> & Hdone & Hrest & Hbyte & Hleft).
  unfold get_wide_text. rewrite Hstart, Hbyte, drop_done, Hleft. cbv zeta.
  assert (unit = wchar_size w) as Hunit by (unfold unit_size; by rewrite Ht). pose proof unit_positive as Hpos. rewrite Hunit in Hpos.
  set (buffer_units := g_length q / wchar_size w).
  assert (0 <= buffer_units) as Hbu by (apply Z.div_pos; lia).
  set (capacity := if 0 <? buffer_units then buffer_units - 1 else 0).
  assert (0 <= capacity) as Hcap by (unfold capacity; case_match; zb; lia).
  destruct (copy_points_from w capacity ds [] Hds ltac:(done)) as (taken & left_ & -> & Hrun & Hfit & Hend). unfold copy_points. rewrite Hrun.
  cbn [app]. rewrite wide_text_app in Hrest. change (size []) with 0 in *. apply Forall_app in Hds as [Htaken Hrem].
  pose proof (size_nonneg (wide_text w taken)). pose proof (size_nonneg (wide_text w left_)).
  assert (take (Z.to_nat (size (wide_text w taken))) rest = wide_text w taken) as Etake.
  { rewrite Hrest. unfold size. rewrite Nat2Z.id. by rewrite take_app_length. }
  assert (drop (Z.to_nat (size (wide_text w taken))) rest = wide_text w left_) as Edrop by (rewrite Hrest; apply drop_done).
  assert (size rest = size (wide_text w taken) + size (wide_text w left_)) as Esize by (by rewrite Hrest, size_app).
  apply end_piece_call; rewrite ?Etake, ?Edrop.
  - lia.
  - intros [E1 E2]%orb_false_iff. zb. lia.
  - rewrite Hunit. intros Hbig Hmore. assert (3 <= buffer_units) by (apply Z.div_le_lower_bound; lia).
    assert (2 <= capacity) as Hcap2 by (unfold capacity; case_match; zb; lia). destruct taken as [|x taken].
    + destruct left_ as [|x left_]; [apply orb_true_iff in Hmore as [E|E]; cbn in *; zb; lia|].
      specialize (Hend x left_ eq_refl). pose proof (wide_encode_units w x). change (size (wide_text w [])) with 0 in *. lia.
    + rewrite wide_text_cons, size_app. pose proof (wide_encode_units w x). pose proof (size_nonneg (wide_text w taken)). lia.
  - rewrite payload_told. destruct (0 <? buffer_units) eqn:El; unfold payload; cbn [map concat snd].
    + by rewrite removelast_last, app_nil_r.
    + symmetry. apply length_zero_iff_nil. unfold capacity in Hfit. unfold size in *. lia.
  - apply within_object. destruct (0 <? buffer_units) eqn:El; repeat constructor. cbn [snd stored_size].
    rewrite size_app. change (size [0]) with 1. unfold capacity, buffer_units in *.
    pose proof (Z.mul_div_le (g_length q) (wchar_size w) Hpos). nia.
  - intros Hi. rewrite Hunit, Z.mul_comm. by apply told_written.
  - split; [intros _; by exists taken|]. by rewrite Hbin.
  - intros _ _. split; [done|]. exists (cs ++ taken), left_. rewrite !utf8_text_app, wide_text_app, Hdone. cbn [byte_position remaining_units].
    rewrite !size_app. split_and!; [by apply Forall_app|done|by rewrite app_assoc|done|done|lia|lia].
Qed.

(** The start of a wide text that has not been read. *)
Lemma wide_start_fresh q c value text : get_data_column_ (state_of c) <> g_col q -> bytes_ok value -> utf8_to_wide w value = Some text ->
  size text * wchar_size w <= sqllen_max -> exists start, wide_start w q type c value = inl start /\ wide_ok value start [] text.
Proof.
  intros Hcol Hv Hw Hmax. destruct (to_wide_from_sound w value [] text Hv Hw) as (cs & Hcs & -> & ->). cbn [app] in *.
  exists {| byte_position := 0; remaining_units := size (wide_text w cs); valid := true |}. split.
  - unfold wide_start. rewrite (proj2 (Z.eqb_neq _ _) Hcol). rewrite orb_true_r. cbn [negb orb].
    unfold count_wide_units. rewrite count_wide_units_from; [done|done|]. assert (0 < wchar_size w) by (by destruct w).
    apply Z.div_le_lower_bound; lia.
  - intros _ _. split; [done|]. exists [], cs. cbn. by split_and!.
Qed.
End Pieces.

(** ** Reading a column *)

(** The cell a call reads: everything but the position in it. *)
Record readable (ard : Ard) (col t sql_type_ type : Z) (value : bytes) (c : Cursor) : Prop := {
  rd_state : needs_data_ c = false /\ executed_ c = true /\ row_positioned_ (position c) = true;
  rd_row : 1 <= current_row_ (position c) <= size (rows c);
  rd_slot : selected_row_slot_ (position c) < size (rows c) - (current_row_ (position c) - 1) /\
            selected_row_slot_ (position c) < actual_fetched_rows_ (position c);
  rd_block : 1 < fetched_rowset_size_ (position c) -> static_cursor (policy c) = true /\
             forall f, records ard !! Z.to_nat (col - 1) = Some f -> bound f = false;
  rd_col : 1 <= col;
  rd_cell : exists row, rows c !! Z.to_nat (selected_row c) = Some row /\ row !! Z.to_nat (col - 1) = Some (Some value);
  rd_column : sql_type <$> column_info_ (result c) !! Z.to_nat (col - 1) = Some sql_type_;
  rd_encoding : (Z.to_nat (selected_row c), Z.to_nat (col - 1)) ∉ result_cell_errors_ (result c);
  rd_type : t = SQL_ARD_TYPE \/ is_valid_c_type t = true;
  rd_target : forall q, g_col q = col -> g_type q = t -> requested_type ard q sql_type_ = inl type;
  rd_source : variable_source sql_type_ = true;
  rd_piece : piece_type type = true
}.

Lemma readable_with_get_data ard col t sql_type_ type value g c :
  readable ard col t sql_type_ type value c -> readable ard col t sql_type_ type value (with_get_data g c).
Proof. by intros []. Qed.

(** The state of the column: [done_] has been delivered. *)
Definition reading (w : wide) (sql_type_ type : Z) (value : bytes) (col : Z) (c : Cursor) (done_ rest : list Z) : Prop :=
  let g := state_of c in
  get_data_column_ g <> col /\ done_ = [] \/
  get_data_column_ g = col /\ get_data_offset_ g = size done_ /\ get_data_target_type_ g = type /\
    wide_ok w sql_type_ type value (wide_get_data_ g) done_ rest.

Lemma variable_cases sql_type_ : variable_source sql_type_ = true ->
  sql_type_ ∈ [SQL_CHAR; SQL_VARCHAR; SQL_LONGVARCHAR; SQL_WCHAR; SQL_WVARCHAR; SQL_WLONGVARCHAR; SQL_BINARY; SQL_VARBINARY; SQL_LONGVARBINARY].
Proof.
  unfold variable_source, is_character_sql_type, is_binary_sql_type, one_of. cbn [existsb]. rewrite !orb_true_iff, !Z.eqb_eq.
  intros H. rewrite !elem_of_cons, elem_of_nil. clear -H; intuition (auto || done).
Qed.

Lemma piece_cases type : piece_type type = true -> type = SQL_C_CHAR \/ type = SQL_C_WCHAR \/ type = SQL_C_BINARY.
Proof. unfold piece_type, one_of. cbn [existsb]. rewrite !orb_true_iff, !Z.eqb_eq. intuition done. Qed.

Section Reading.
Context (w : wide) (lib : FloatLibrary) (local : option (Z * Z * Z)).
Context (ard : Ard) (col t sql_type_ type : Z) (value : bytes).

Lemma get_value_pieces q c d column numeric_of offset : variable_source sql_type_ = true -> piece_type type = true ->
  get_value w lib local q sql_type_ type c d column numeric_of value offset =
    let text := cell_text sql_type_ type value in
    if type =? SQL_C_CHAR then get_characters q sql_type_ type c d (is_binary_sql_type sql_type_) text offset
    else if type =? SQL_C_BINARY then get_bytes q sql_type_ type c d value offset
    else if is_binary_sql_type sql_type_ then get_wide w q sql_type_ type c d true text offset
    else get_wide_text w q sql_type_ type c d value offset.
Proof.
  intros Hs%variable_cases Hp%piece_cases. rewrite !elem_of_cons, elem_of_nil in Hs.
  destruct Hp as [->|[->| ->]]; decompose [or] Hs; subst; first [done|reflexivity].
Qed.

Lemma piece_supported : variable_source sql_type_ = true -> piece_type type = true -> is_conversion_supported sql_type_ type = true.
Proof.
  intros Hs%variable_cases Hp%piece_cases. rewrite !elem_of_cons, elem_of_nil in Hs.
  destruct Hp as [->|[->| ->]]; decompose [or] Hs; subst; first [done|reflexivity].
Qed.

(** The tests of the row and the column. *)
Lemma get_data_column q c d : readable ard col t sql_type_ type value c -> g_col q = col -> g_type q = t ->
  get_data w lib local ard q c d =
    let g := state_of c in
    let offset := if get_data_column_ g =? col then get_data_offset_ g else 0 in
    if offset =? complete then fetched RET_NO_DATA c d []
    else if (get_data_column_ g =? col) && negb (offset =? 0) && negb (get_data_target_type_ g =? type)
    then refused (str "HY010") changed_type_message c d
    else if g_buffer q =? 0 then refused (str "HY009") (str "Null result buffer") c d
    else if g_length q <? 0 then refused (str "HY090") (str "Invalid result buffer length") c d
    else get_value w lib local q sql_type_ type c d (column_info_ (result c) !! Z.to_nat (col - 1)) (numeric_target ard q type) value offset.
Proof.
  intros [(H1 & H2 & H3) Hrow [Hs1 Hs2] Hblock Hcol (row & Hr & Hcell) Hinfo Henc Ht Htarget Hsrc Hpiece] Eq Et.
  unfold get_data. rewrite H1, H2, H3. cbn [negb orb andb]. rewrite Eq, andb_false_r. repeat ztest. cbn [orb].
  assert ((1 <? fetched_rowset_size_ (position c)) && negb (static_cursor (policy c)) = false) as ->.
  { apply andb_false_iff. destruct (Z.ltb_spec 1 (fetched_rowset_size_ (position c))) as [Hlt|]; [|by left]. right. by destruct (Hblock Hlt) as [-> _]. }
  cbv iota. rewrite Hr. cbn [default from_option id].
  assert ((size row <? col) = false) as -> by (apply Z.ltb_ge; apply lookup_lt_Some in Hcell; unfold size; lia).
  rewrite Hcell. unfold get_column. cbn [default from_option id]. rewrite Eq, Et.
  assert (static_cursor (policy c) && (1 <? fetched_rowset_size_ (position c)) &&
    match records ard !! Z.to_nat (col - 1) with Some f => bound f | None => false end = false) as ->.
  { destruct (Z.ltb_spec 1 (fetched_rowset_size_ (position c))) as [Hlt|]; [|by rewrite andb_false_r]. destruct (Hblock Hlt) as [_ Hb].
    destruct (records ard !! _) as [f|]; [rewrite (Hb f eq_refl)|]; apply andb_false_r. }
  assert (negb (t =? SQL_ARD_TYPE) && negb (is_valid_c_type t) = false) as ->.
  { destruct Ht as [->| ->]; [done|apply andb_false_r]. }
  rewrite Hinfo. cbn [default from_option id]. change (default SQL_VARCHAR (Some sql_type_)) with sql_type_.
  rewrite (Htarget q Eq Et), piece_supported by done. cbn [negb]. rewrite bool_decide_false by done. done.
Qed.

Abbreviation unit := (unit_size w type).
Abbreviation readable_ := (readable ard col t sql_type_ type value).
Abbreviation reading_ := (reading w sql_type_ type value col).
Abbreviation call q c done_ rest o := (one_call w sql_type_ type value q c done_ rest o).

Definition even_rest (rest : list Z) : Prop :=
  is_binary_sql_type sql_type_ = true -> one_of type [SQL_C_CHAR; SQL_C_WCHAR] = true -> size rest mod 2 = 0.

Lemma binary_not_character : is_binary_sql_type sql_type_ = true -> is_character_sql_type sql_type_ = false.
Proof.
  unfold is_binary_sql_type, is_character_sql_type, one_of. cbn [existsb].
  rewrite !orb_true_iff, !Z.eqb_eq. by intros [->|[->|[->|?]]].
Qed.

(** One call on a column that has been read up to [done_]. *)
Lemma get_data_call q c d done_ rest : readable_ c -> reading_ c done_ rest -> whole w sql_type_ type value = Some (done_ ++ rest) ->
  bytes_ok value -> size (done_ ++ rest) * unit <= sqllen_max -> even_rest rest ->
  g_col q = col -> g_type q = t -> g_buffer q <> 0 -> 0 <= g_length q ->
  call q c done_ rest (get_data w lib local ard q c d).
Proof.
  intros Hrd Hre Hw Hv Hmax Heven Eq Et Hbuf Hlen. rewrite get_data_column by done. cbv zeta.
  pose proof (unit_positive w type) as Hpos. pose proof (size_nonneg done_) as Hd. pose proof (size_nonneg rest) as Hr. rewrite size_app in Hmax.
  assert (size done_ < complete) as Hcomplete by (unfold complete, sqllen_max in *; nia).
  assert ((if get_data_column_ (state_of c) =? col then get_data_offset_ (state_of c) else 0) = size done_) as ->.
  { destruct Hre as [[Hne ->]|(E & Ho & _)]; [by rewrite (proj2 (Z.eqb_neq _ _) Hne)|by rewrite E, Z.eqb_refl]. }
  rewrite (proj2 (Z.eqb_neq _ complete)) by lia.
  assert ((get_data_column_ (state_of c) =? col) && negb (size done_ =? 0) && negb (get_data_target_type_ (state_of c) =? type) = false) as ->.
  { destruct Hre as [[Hne ->]|(_ & _ & E & _)]; [by rewrite (proj2 (Z.eqb_neq _ _) Hne)|by rewrite E, Z.eqb_refl, andb_false_r]. }
  rewrite (proj2 (Z.eqb_neq _ 0) Hbuf), (proj2 (Z.ltb_ge _ 0) Hlen).
  pose proof (rd_source _ _ _ _ _ _ _ Hrd) as Hsrc. pose proof (rd_piece _ _ _ _ _ _ _ Hrd) as Hpt.
  rewrite get_value_pieces by done. cbv zeta. unfold whole, cell_text in Hw. unfold cell_text.
  destruct (piece_cases type Hpt) as [E|[E|E]].
  - assert ((type =? SQL_C_CHAR) = true /\ (type =? SQL_C_WCHAR) = false) as [E1 E2] by (by rewrite E). rewrite E1. rewrite E2 in Hw.
    injection Hw as Hw. apply get_characters_call; [done|done|done|]. intros Hb. apply Heven; [done|by rewrite E].
  - assert ((type =? SQL_C_CHAR) = false /\ (type =? SQL_C_WCHAR) = true /\ (type =? SQL_C_BINARY) = false) as (E1 & E2 & E3) by (by rewrite E).
    rewrite E1, E3. rewrite E2 in Hw. assert (one_of type [SQL_C_CHAR; SQL_C_WCHAR] = true) as E4 by (by rewrite E). rewrite E4 in Hw |- *.
    destruct (is_binary_sql_type sql_type_) eqn:Hb; cbn [andb] in Hw |- *.
    + pose proof (encode_pairs_ascii value Hv) as Hascii. destruct (ascii_text w _ Hascii) as (Hsc & Hu & Hwt).
      assert (Some (encode_pairs value) = Some (done_ ++ rest)) as Hw'.
      { rewrite <- Hw. pose proof (to_wide_from_text w (encode_pairs value) [] Hsc) as K. rewrite Hu, Hwt in K. symmetry. exact K. }
      injection Hw' as Hw'. apply get_wide_call; [done|done|done|done|done|by apply Heven].
    + assert (is_character_sql_type sql_type_ = true) as Hch by (unfold variable_source in Hsrc; by rewrite Hb, orb_false_r in Hsrc).
      assert (exists start, wide_start w q type c value = inl start /\ wide_ok w sql_type_ type value start done_ rest) as (start & Hstart & Hok).
      { destruct Hre as [[Hne ->]|(E' & Ho & Et' & Hok)].
        - apply wide_start_fresh; [by rewrite Eq|done|done|]. assert (unit = wchar_size w) as <- by (unfold unit_size; by rewrite E2).
          change (size []) with 0 in Hmax. cbn [app]. lia.
        - exists (wide_get_data_ (state_of c)). split; [|done]. destruct (Hok E Hch) as [Hval _].
          unfold wide_start. by rewrite Hval, E', Eq, Et', !Z.eqb_refl. }
      by apply get_wide_text_call with start.
  - assert ((type =? SQL_C_CHAR) = false /\ (type =? SQL_C_WCHAR) = false /\ (type =? SQL_C_BINARY) = true) as (E1 & E2 & E3) by (by rewrite E).
    rewrite E1, E3. rewrite E2 in Hw. assert (one_of type [SQL_C_CHAR; SQL_C_WCHAR] = false) as E4 by (by rewrite E). rewrite E4, andb_false_r in Hw.
    injection Hw as Hw. by apply get_bytes_call.
Qed.

(** A column read to its end has no more data. *)
Lemma get_data_end q c d : readable_ c -> get_data_column_ (state_of c) = col -> get_data_offset_ (state_of c) = complete ->
  g_col q = col -> g_type q = t -> get_data w lib local ard q c d = fetched RET_NO_DATA c d [].
Proof. intros Hrd E1 E2 Eq Et. rewrite get_data_column by done. cbv zeta. by rewrite E1, Z.eqb_refl, E2, Z.eqb_refl. Qed.

Fixpoint read_all (qs : list Request) (c : Cursor) (d : Diagnostics) : list Fetched :=
  match qs with
  | [] => []
  | q :: qs => let o := get_data w lib local ard q c d in o :: read_all qs (f_cursor o) (f_diag o)
  end.

(** Calls for the column, with a buffer. *)
Definition for_column (q : Request) : Prop := g_col q = col /\ g_type q = t /\ g_buffer q <> 0 /\ 0 <= g_length q.

Lemma read_end qs c d : readable_ c -> get_data_column_ (state_of c) = col -> get_data_offset_ (state_of c) = complete ->
  Forall for_column qs -> length (read_all qs c d) = length qs /\
  Forall (fun o => f_return o = RET_NO_DATA /\ f_written o = []) (read_all qs c d).
Proof.
  intros Hrd E1 E2 Hq. revert d. induction Hq as [|q qs (Eq & Et & _) _ IH]; intros d; [done|]. cbn [read_all].
  rewrite get_data_end by done. cbn [f_cursor f_diag fetched]. destruct (IH d) as [Hl Hf]. split; [cbn; by rewrite Hl|by constructor].
Qed.

Lemma variable_not_fixed : variable_source sql_type_ = true -> fixed_character_source sql_type_ type = false.
Proof.
  intros Hs%variable_cases. unfold fixed_character_source. apply andb_false_iff. right.
  rewrite !elem_of_cons, elem_of_nil in Hs. decompose [or] Hs; subst; first [done|reflexivity].
Qed.

Lemma read_delivers qs c d done_ rest : readable_ c -> reading_ c done_ rest -> whole w sql_type_ type value = Some (done_ ++ rest) ->
  bytes_ok value -> size (done_ ++ rest) * unit <= sqllen_max -> even_rest rest -> Forall for_column qs ->
  delivers w sql_type_ type qs (read_all qs c d) rest.
Proof.
  intros Hrd Hre Hw Hv Hmax Heven Hq. revert c d done_ rest Hrd Hre Hw Hmax Heven.
  induction Hq as [|q qs (Eq & Et & Hb & Hl) Hqs IH]; intros c d done_ rest Hrd Hre Hw Hmax Heven; [constructor|]. cbn [read_all].
  destruct (get_data_call q c d done_ rest Hrd Hre Hw Hv Hmax Heven Eq Et Hb Hl) as (piece & rest' & s & -> & Hp & Hin & Ht & Hu & Hend).
  set (o := get_data w lib local ard q c d) in *. pose proof (variable_not_fixed (rd_source _ _ _ _ _ _ _ Hrd)) as Hnf.
  destruct Hend as [(Hret & -> & Hc)|(Hret & Hsome & Hc & Hok)].
  - rewrite app_nil_r in *. assert (readable_ (f_cursor o)) as Hrd' by (rewrite Hc; by apply readable_with_get_data).
    destruct (read_end qs (f_cursor o) (f_diag o) Hrd') as [H1 H2]; [rewrite Hc; exact Eq| |done|by apply delivers_rest].
    rewrite Hc. cbn. by rewrite Hnf.
  - apply delivers_piece; try done. apply (IH _ _ (done_ ++ piece)).
    + rewrite Hc. by apply readable_with_get_data.
    + right. rewrite Hc. cbn. rewrite Hnf. by split_and!.
    + by rewrite <- app_assoc.
    + by rewrite <- app_assoc.
    + intros H1 H2. specialize (Heven H1 H2). destruct Hu as [_ Hu]. specialize (Hu H1 H2). rewrite size_app, Zplus_mod, Hu in Heven.
      rewrite Z.add_0_l, Zmod_mod in Heven. done.
Qed.

(** What the relation says of the pieces together. *)
Lemma delivers_all qs os rest : delivers w sql_type_ type qs os rest -> exists left_, rest = concat (map (fun o => payload (f_written o)) os) ++ left_ /\
  ((exists o, o ∈ os /\ f_return o = RET_SUCCESS) -> left_ = []) /\
  (Forall (fun q => 3 * unit <= g_length q) qs -> size rest < size qs -> exists o, o ∈ os /\ f_return o = RET_SUCCESS).
Proof.
  induction 1 as [rest|q qs o os piece rest Hret Hp _ _ _ Hsome _ (left_ & E & Hend & Hdone)|q qs o os rest Hret Hp _ _ Hlen Hnd].
  - exists rest. split_and!; [done| |].
    + intros (o & Ho & _). by apply elem_of_nil in Ho.
    + intros _ H. pose proof (size_nonneg rest). change (size []) with 0 in H. lia.
  - exists left_. cbn [map concat]. rewrite Hp, <- app_assoc, <- E. split_and!; [done| |].
    + intros (x & [->|Hx]%elem_of_cons & Hs); [congruence|]. apply Hend. by exists x.
    + intros [Hq Hqs]%Forall_cons_1 Hs. specialize (Hsome Hq). rewrite size_app, size_cons in Hs.
      assert (0 < size piece) by (destruct piece; [done|rewrite size_cons; pose proof (size_nonneg piece); lia]).
      destruct (Hdone Hqs ltac:(lia)) as (x & Hx & Hxs). exists x. split; [by right|done].
  - exists []. cbn [map concat]. rewrite Hp, app_nil_r. split_and!; [|done|].
    + assert (concat (map (fun o => payload (f_written o)) os) = []) as ->; [|by rewrite app_nil_r].
      clear -Hnd. induction Hnd as [|o os [_ H] _ IH]; [done|]. cbn [map concat]. by rewrite H, IH.
    + intros _ _. exists o. split; [left|done].
Qed.

End Reading.

(** ** Four characters, one of them outside the basic plane *)

Definition sample_value : bytes := [0x61; 0x62; 0x63; 0xf0; 0x9f; 0x98; 0x80].
Definition sample_cell : Cursor := {|
  needs_data_ := false; executed_ := true;
  result := {| column_info_ := [{| sql_type := SQL_VARCHAR; column_size := 40; decimal_digits := 0 |}]; result_rows_ := [[Some sample_value]];
               result_cell_errors_ := []; parameter_result_cursor_ := false; active_bookmark_generation_ := 0 |};
  policy := {| static_cursor := false; bookmark_mode_ := UB_OFF; bookmark_statement_id_ := 1; retrieve_data_ := true; fetch_bookmark_ptr_ := 0 |};
  position := on_rowset BeforeStart 0 1 1
|}.
Definition no_bindings : Ard := {| array_size := 1; bind_type := 0; bind_offset_ptr := 0; bookmark_record := None; records := [] |}.
Definition ask (len : Z) : Request := {| g_col := 1; g_type := SQL_C_WCHAR; g_buffer := 4096; g_length := len; g_indicator := 8192 |}.

Lemma sample_readable : readable no_bindings 1 SQL_C_WCHAR SQL_VARCHAR SQL_C_WCHAR sample_value sample_cell.
Proof.
  split; try done; try (by cbn); try (by right).
  - by eexists.
  - by intros ?%elem_of_nil.
  - intros q Ec Et. unfold requested_type. by rewrite Et.
Qed.

