(* ===== verification/DataAtExec.v ===== *)
(** * Parameters supplied at execution

    The state machine of [SQLParamData], [SQLPutData] and [SQLCancel] on an
    [ODBCStatement] ([odbc/odbc_handles.cpp]): [PendingInput], [put_data],
    [param_data], [pending_call_ready], [complete_parameter_set], [cancel] and
    [CancellationLedger].

    The statement's calls are serialised by its handle's lease; [SQLCancel] on
    another thread takes only the ledger's lock, so that it may act just before
    each of a call's critical sections: a call takes, for each of them, whether a
    cancel claims there.  [SQLCancel] itself is two steps, the claim and the reset
    that waits for the lease.  What the connection answers when a call asks for its
    health, the conversion of a complete value ([materialize_parameter_set]) and
    the answer of the server are arguments.  [std::bad_alloc] is not modelled.

    The memory of the application is a function of the address, and writes to it
    are listed, as in [Cursor.v]. *)

From S2P Require Import Prelude Digits Unicode ResultTypes ConvertNumber ConvertTime ConvertData Diagnostics ResultConvert Cursor.

(** ** State *)

Record Value := {
  deferred : bool; supplied : bool; null : bool; token : Z; c_type : Z;
  v_bytes : bytes; v_wide : list Z
}.

Record InputLimits := { max_parameter_bytes : Z; max_parameter_total_bytes : Z }.

Record CancellationLedger := {
  active : bool; available : bool; preparing : bool; locally_claimed : bool; local_need_data : bool
}.

(** What [pending_call_ready] learns of the session before it looks at the
    ledger. *)
Record Health := {
  deadline_expired : bool;
  description_accepted : bool;    (* asked for an array only *)
  connected : option bool         (* None: the question failed *)
}.

Inductive Output :=
| Processed (n : Z)
| ParamStatus (n : Z)
| TokenOut (t : Z).

Definition SQL_PARAM_SUCCESS : Z := 0.
Definition SQL_PARAM_ERROR : Z := 5.
Definition SQL_PARAM_SUCCESS_WITH_INFO : Z := 6.
Definition SQL_PARAM_UNUSED : Z := 7.
Definition SQL_NTS : Z := -3.

Section DataAtExec.
Context (w : wide) (limits : InputLimits).

(** [QueryParameter]. *)
Context {Param : Type}.

Record PendingInput := {
  pieces : list Value;
  values : list Param;
  array_slots : list nat;         (* the sets that are not ignored *)
  parameter_width : nat;
  array_size : Z;                 (* 0 for one set of parameters *)
  status : Z; processed : Z;
  ordinal : nat;
  converted_bytes : Z;            (* bytes *)
  raw_bytes : Z;
  requested : bool; in_call : bool; collecting : bool
}.

(** What reaches the backend: one set, or the sets of an array by their slots. *)
Inductive Sent := OneSet (vs : list Param) | Sets (sets : list (nat * list Param)).

(** The statement: its execution's number, the pending input and the ledger; the
    cancels that wait to reset an input; and, for the theorems, the executions
    that were sent and those whose cancel succeeded. *)
Record Statement := {
  execution : nat;
  pending_input_ : option PendingInput;
  ledger : CancellationLedger;
  resets : list nat;
  sent : list (nat * Sent);
  cancelled : list nat
}.

Record Answer := { a_return : RETCODE; a_state : Statement; a_posted : option bytes; a_writes : list (Z * Output) }.
Definition answer (r : RETCODE) (s : Statement) (posted : option bytes) (ws : list (Z * Output)) : Answer :=
  {| a_return := r; a_state := s; a_posted := posted; a_writes := ws |}.

Definition out (address : Z) (o : Output) : list (Z * Output) := if address =? 0 then [] else [(address, o)].

Definition with_input (i : option PendingInput) (s : Statement) : Statement :=
  {| execution := execution s; pending_input_ := i; ledger := ledger s; resets := resets s; sent := sent s; cancelled := cancelled s |}.
Definition with_ledger (l : CancellationLedger) (s : Statement) : Statement :=
  {| execution := execution s; pending_input_ := pending_input_ s; ledger := l; resets := resets s; sent := sent s; cancelled := cancelled s |}.
Definition record_sent (what : Sent) (s : Statement) : Statement :=
  {| execution := execution s; pending_input_ := pending_input_ s; ledger := ledger s; resets := resets s;
     sent := sent s ++ [(execution s, what)]; cancelled := cancelled s |}.

Definition set_calling (b : bool) (i : PendingInput) : PendingInput :=
  {| pieces := pieces i; values := values i; array_slots := array_slots i; parameter_width := parameter_width i;
     array_size := array_size i; status := status i; processed := processed i; ordinal := ordinal i;
     converted_bytes := converted_bytes i; raw_bytes := raw_bytes i; requested := requested i; in_call := b;
     collecting := collecting i |}.

(** ** The ledger *)

(** [finish], while no server request has been armed. *)
Definition finish (l : CancellationLedger) : CancellationLedger :=
  {| active := false; available := available l; preparing := preparing l; locally_claimed := locally_claimed l;
     local_need_data := local_need_data l |}.

Definition may_claim (l : CancellationLedger) : bool := active l && preparing l && (available l || local_need_data l).

(** The critical section of [cancel] that claims the execution. *)
Definition claim (s : Statement) : Statement :=
  if may_claim (ledger s) then
    let l := ledger s in
    {| execution := execution s; pending_input_ := pending_input_ s;
       ledger := {| active := active l; available := available l; preparing := preparing l; locally_claimed := true;
                    local_need_data := local_need_data l |};
       resets := resets s; sent := sent s; cancelled := execution s :: cancelled s |}
  else s.

(** A cancel that claims just before a critical section of a call. *)
Definition raced (cancel_here : bool) (s : Statement) : Statement := if cancel_here then claim s else s.

Definition abandon_pending_input (s : Statement) : Statement :=
  match pending_input_ s with
  | None => s
  | Some _ => with_ledger (finish (ledger s)) (with_input None s)
  end.

(** ** The end of a parameter set *)

Definition complete_parameter_set (result : RETCODE) (i : PendingInput) : list (Z * Output) :=
  if negb (array_size i =? 0) then
    match result, array_slots i with
    | RET_ERROR, _ :: _ =>
        let compact := Nat.min (ordinal i / parameter_width i) (length (array_slots i) - 1) in
        let slot := Z.of_nat (default 0%nat (array_slots i !! compact)) in
        out (processed i) (Processed (slot + 1)) ++
        (if status i =? 0 then [] else [(status i + slot * 2, ParamStatus SQL_PARAM_ERROR)])
    | _, _ => []
    end
  else
    out (processed i) (Processed 1) ++
    out (status i) (ParamStatus (match result with
                                 | RET_SUCCESS | RET_NO_DATA => SQL_PARAM_SUCCESS
                                 | RET_SUCCESS_WITH_INFO => SQL_PARAM_SUCCESS_WITH_INFO
                                 | _ => SQL_PARAM_ERROR
                                 end)).

(** The pending input is abandoned with a diagnostic. *)
Definition fail (state : bytes) (i : PendingInput) (s : Statement) : Answer :=
  answer RET_ERROR (abandon_pending_input s) (Some state) (complete_parameter_set RET_ERROR i).

(** [pending_call_ready]: the statement with the call marked, or the error. *)
Definition pending_call_ready (h : Health) (cancel_here : bool) (i : PendingInput) (s : Statement) : Statement + Answer :=
  if deadline_expired h then inr (fail (str "HYT00") i s)
  else if negb (array_size i =? 0) && negb (description_accepted h) then inr (fail (str "08003") i s)
  else
    match connected h with
    | None => inr (fail (str "HY000") i s)
    | Some false => inr (fail (str "08003") i s)
    | Some true =>
        let s := with_input (Some (set_calling true i)) (raced cancel_here s) in
        if locally_claimed (ledger s) then inr (fail (str "HY008") (set_calling true i) s) else inl s
    end.

(** ** SQLPutData *)

Definition unit_of (c : Z) : Z := if c =? SQL_C_WCHAR then wchar_size w else 1.
Definition used (v : Value) : Z := if c_type v =? SQL_C_WCHAR then size (v_wide v) * wchar_size w else size (v_bytes v).

Section Memory.
Context (mem : Z -> Z).

Definition load_unit (address unit : Z) : Z := foldr (fun b value => b + 256 * value) 0 (map mem (seqZ address unit)).
Definition load_units (address unit count : Z) : list Z := map (fun k => load_unit (address + k * unit) unit) (seqZ 0 count).

(** The loop that looks for the terminator: the length, or the SQLSTATE. *)
Definition scan_step (address unit space : Z) (n : Z) : Z + (Z + bytes) :=
  if (address_max - address <? n) || (address_max - address - n <? unit) then inr (inr (str "HY024"))
  else if load_unit (address + n) unit =? 0 then inr (inl n)
  else if (space <? n) || (space - n <? unit) then inr (inr (str "HY000"))
  else inl (n + unit).

Definition scan_length (address unit space : Z) : Z + bytes :=
  run (fun n => Z.to_nat (space + unit - n)) (scan_step address unit space) 0.

(** The bytes a call supplies, or why they are refused. *)
Definition supplied_bytes (data len : Z) (v : Value) (i : PendingInput) : Z + bytes :=
  if (len <? 0) && negb (len =? SQL_NTS) then inr (str "HY090")
  else if (data =? 0) && negb (len =? 0) then inr (str "HY009")
  else if (len =? SQL_NTS) && (c_type v =? SQL_C_BINARY) then inr (str "HY090")
  else if (max_parameter_bytes limits <? used v) || (max_parameter_total_bytes limits <? converted_bytes i) ||
          (max_parameter_total_bytes limits - converted_bytes i <? raw_bytes i)
  then inr (str "HY000")
  else
    let space := Z.min (max_parameter_bytes limits - used v)
                       (max_parameter_total_bytes limits - converted_bytes i - raw_bytes i) in
    let unit := unit_of (c_type v) in
    if len =? SQL_NTS then scan_length data unit space
    else if negb (len mod unit =? 0) then inr (str "HY090")
    else if address_max - data <? len then inr (str "HY024")
    else if space <? len then inr (str "HY000")
    else inl len.

Definition append_data (data n : Z) (v : Value) : Value :=
  {| deferred := deferred v; supplied := true; null := null v; token := token v; c_type := c_type v;
     v_bytes := if c_type v =? SQL_C_WCHAR then v_bytes v else v_bytes v ++ load_units data 1 n;
     v_wide := if c_type v =? SQL_C_WCHAR then v_wide v ++ load_units data (wchar_size w) (n / wchar_size w) else v_wide v |}.

Definition set_null (v : Value) : Value :=
  {| deferred := deferred v; supplied := true; null := true; token := token v; c_type := c_type v;
     v_bytes := v_bytes v; v_wide := v_wide v |}.

Definition with_piece (v : Value) (n : Z) (i : PendingInput) : PendingInput :=
  {| pieces := <[ordinal i := v]> (pieces i); values := values i; array_slots := array_slots i;
     parameter_width := parameter_width i; array_size := array_size i; status := status i; processed := processed i;
     ordinal := ordinal i; converted_bytes := converted_bytes i; raw_bytes := raw_bytes i + n; requested := requested i;
     in_call := in_call i; collecting := collecting i |}.

Definition put_data (h1 h2 : Health) (c1 c2 c3 : bool) (data len : Z) (s : Statement) : Answer :=
  match pending_input_ s with
  | Some i =>
      if negb (requested i) then answer RET_ERROR s (Some (str "HY010")) []
      else
        match pending_call_ready h1 c1 i s with
        | inr a => a
        | inl s =>
            let i := set_calling true i in
            match pieces i !! ordinal i with
            | None => answer RET_ERROR s None []      (* no requested piece is out of range *)
            | Some v =>
                let is_null := len =? SQL_NULL_DATA in
                if (is_null && supplied v) || (null v && negb is_null) || (null v && supplied v)
                then fail (str "HY020") i s
                else
                  match (if is_null then inl (with_piece (set_null v) 0 i)
                         else match supplied_bytes data len v i with
                              | inl n => inl (with_piece (append_data data n v) n i)
                              | inr state => inr state
                              end) with
                  | inr state => fail state i s
                  | inl i =>
                      let s := with_input (Some i) s in
                      match pending_call_ready h2 c2 i s with
                      | inr a => a
                      | inl s =>
                          let s := raced c3 s in
                          if locally_claimed (ledger s) then fail (str "HY008") (set_calling true i) s
                          else answer RET_SUCCESS (with_input (Some (set_calling false i)) s) None []
                      end
                  end
            end
        end
  | None => answer RET_ERROR s (Some (str "HY010")) []
  end.
End Memory.

(** ** SQLParamData *)

Section ParamData.

(** [materialize_parameter_set] of one complete value: the parameter and the
    bytes counted so far, or an error of its own. *)
Context (convert : nat -> Value -> Z -> option (Param * Z)).

Definition clear_data (v : Value) : Value :=
  {| deferred := deferred v; supplied := supplied v; null := null v; token := token v; c_type := c_type v; v_bytes := []; v_wide := [] |}.

Definition with_totals (converted raw : Z) (i : PendingInput) : PendingInput :=
  {| pieces := pieces i; values := values i; array_slots := array_slots i; parameter_width := parameter_width i;
     array_size := array_size i; status := status i; processed := processed i; ordinal := ordinal i;
     converted_bytes := converted; raw_bytes := raw; requested := requested i; in_call := in_call i; collecting := collecting i |}.

Definition store_value (v : Value) (p : Param) (i : PendingInput) : PendingInput :=
  {| pieces := <[ordinal i := clear_data v]> (pieces i); values := <[ordinal i := p]> (values i); array_slots := array_slots i;
     parameter_width := parameter_width i; array_size := array_size i; status := status i; processed := processed i;
     ordinal := S (ordinal i); converted_bytes := converted_bytes i; raw_bytes := raw_bytes i; requested := requested i;
     in_call := in_call i; collecting := collecting i |}.

(** The value that is complete: converted and stored, or the error. *)
Definition convert_requested (v : Value) (i : PendingInput) : PendingInput + option bytes :=
  let raw := used v in
  let array := negb (array_size i =? 0) in
  let left_ := raw_bytes i - raw in
  let budget := converted_bytes i + (if array then raw_bytes i else 0) in
  match convert (ordinal i) v budget with
  | None => inr None
  | Some (p, counted) =>
      let converted := if array then counted - raw_bytes i else counted in
      if max_parameter_total_bytes limits - converted <? left_ then inr (Some (str "HY000"))
      else inl (store_value v p (with_totals converted left_ i))
  end.

Definition at_ordinal (n : nat) (i : PendingInput) : PendingInput :=
  {| pieces := pieces i; values := values i; array_slots := array_slots i; parameter_width := parameter_width i;
     array_size := array_size i; status := status i; processed := processed i; ordinal := n;
     converted_bytes := converted_bytes i; raw_bytes := raw_bytes i; requested := requested i; in_call := in_call i;
     collecting := collecting i |}.

(** The first deferred value from [n] on, or the end. *)
Fixpoint next_deferred (vs : list Value) (n : nat) : nat :=
  match vs with
  | v :: vs => if deferred v then n else next_deferred vs (S n)
  | [] => n
  end.

Definition request (i : PendingInput) : PendingInput :=
  {| pieces := pieces i; values := values i; array_slots := array_slots i; parameter_width := parameter_width i;
     array_size := array_size i; status := status i; processed := processed i; ordinal := ordinal i;
     converted_bytes := converted_bytes i; raw_bytes := raw_bytes i; requested := true; in_call := false;
     collecting := collecting i |}.

Definition executing (i : PendingInput) : PendingInput :=
  {| pieces := pieces i; values := values i; array_slots := array_slots i; parameter_width := parameter_width i;
     array_size := array_size i; status := status i; processed := processed i; ordinal := ordinal i;
     converted_bytes := converted_bytes i; raw_bytes := raw_bytes i; requested := requested i; in_call := in_call i;
     collecting := false |}.

(** The values of the sets, by their slots. *)
Definition array_sets (i : PendingInput) : list (nat * list Param) :=
  imap (fun compact slot => (slot, take (parameter_width i) (drop (compact * parameter_width i) (values i)))) (array_slots i).

(** The server's part: for an array the finalizer may refuse the plan. *)
Record Reply := { finalized : bool; reply : RETCODE }.

(** The ledger when the execution begins: [before_transaction], and for an array
    the same with server cancellation off. *)
Definition begin_execution (array : bool) (l : CancellationLedger) : CancellationLedger :=
  {| active := active l; available := if array then false else available l; preparing := false;
     locally_claimed := locally_claimed l; local_need_data := if array then false else local_need_data l |}.

(** All values are there: the execution. *)
Definition execute_input (c3 : bool) (r : Reply) (i : PendingInput) (s : Statement) : Answer :=
  let s := raced c3 s in
  if negb (array_size i =? 0) then
    if locally_claimed (ledger s) then fail (str "HY008") i s
    else
      let s := with_input (Some (executing i)) (with_ledger (begin_execution true (ledger s)) s) in
      if negb (finalized r)
      then answer RET_ERROR (abandon_pending_input s) None (complete_parameter_set RET_ERROR i)
      else answer (reply r) (abandon_pending_input (record_sent (Sets (array_sets i)) s)) None []
  else
    let s := with_input (Some (executing i)) (with_ledger (begin_execution false (ledger s)) s) in
    if locally_claimed (ledger s)
    then answer RET_ERROR (abandon_pending_input s) (Some (str "HY008")) (complete_parameter_set RET_ERROR i)
    else answer (reply r) (abandon_pending_input (record_sent (OneSet (values i)) s)) None
           (complete_parameter_set (reply r) i).

Definition param_data (h1 h2 : Health) (c1 c2 c3 : bool) (token_at : Z) (r : Reply) (s : Statement) : Answer :=
  match pending_input_ s with
  | None => answer RET_ERROR s (Some (str "HY010")) []
  | Some i =>
      match pending_call_ready h1 c1 i s with
      | inr a => a
      | inl s =>
          let i := set_calling true i in
          if token_at =? 0 then fail (str "HY009") i s
          else if address_max - token_at <? 8 then fail (str "HY024") i s
          else
            let current := if requested i then pieces i !! ordinal i else None in
            if match current with Some v => negb (supplied v) | None => false end
            then answer RET_ERROR (with_input (Some (set_calling false i)) s) (Some (str "HY010")) []
            else
              match (match current with Some v => convert_requested v i | None => inl i end) with
              | inr None => answer RET_ERROR (abandon_pending_input s) None (complete_parameter_set RET_ERROR i)
              | inr (Some state) => fail state i s
              | inl i =>
                  let i := at_ordinal (next_deferred (drop (ordinal i) (pieces i)) (ordinal i)) i in
                  match pending_call_ready h2 c2 i (with_input (Some i) s) with
                  | inr a => a
                  | inl s =>
                      match pieces i !! ordinal i with
                      | Some v =>
                          let s := raced c3 s in
                          if locally_claimed (ledger s) then fail (str "HY008") i s
                          else answer RET_NEED_DATA (with_input (Some (request i)) s) None
                                 ((token_at, TokenOut (token v)) ::
                                  (if negb (array_size i =? 0)
                                   then out (processed i)
                                          (Processed (Z.of_nat (default 0%nat (array_slots i !! (ordinal i / parameter_width i)%nat)) + 1))
                                   else []))
                      | None => execute_input c3 r i s
                      end
                  end
              end
      end
  end.

(** ** The start *)

(** Statuses of the sets, all unused. *)
Definition unused_statuses (i : PendingInput) : list (Z * Output) :=
  concat (map (fun slot => if status i =? 0 then [] else [(status i + Z.of_nat slot * 2, ParamStatus SQL_PARAM_UNUSED)])
            (seq 0 (Z.to_nat (if array_size i =? 0 then 1 else array_size i)))).

(** The end of [start_pending_input] and [start_pending_array], once the bindings
    have been captured and the ordinary values converted into [i]. *)
Definition start_collecting (h : Health) (c1 c2 : bool) (can_ask_server : bool) (i : PendingInput) (s : Statement) : Answer :=
  match pending_input_ s with
  | Some _ => answer RET_ERROR s (Some (str "HY010")) []
  | None =>
      let array := negb (array_size i =? 0) in
      let s := {| execution := S (execution s); pending_input_ := Some i;
                  ledger := {| active := true; available := negb array && can_ask_server; preparing := true;
                               locally_claimed := false; local_need_data := true |};
                  resets := resets s; sent := sent s; cancelled := cancelled s |} in
      match pending_call_ready h c1 i s with
      | inr a => a
      | inl s =>
          let i := if array then at_ordinal (next_deferred (drop (ordinal i) (pieces i)) (ordinal i)) i else i in
          let s := raced c2 s in
          if locally_claimed (ledger s) then fail (str "HY008") i s
          else answer RET_NEED_DATA (with_input (Some (set_calling false i)) s) None
                 (if array
                  then unused_statuses i ++
                       out (processed i) (Processed (Z.of_nat (default 0%nat (array_slots i !! (ordinal i / parameter_width i)%nat)) + 1))
                  else out (processed i) (Processed 0) ++ out (status i) (ParamStatus SQL_PARAM_UNUSED))
      end
  end.

(** ** SQLCancel *)

(** The claim: whether the cancel succeeded locally, and whether it will reset. *)
Definition cancel_claim (s : Statement) : Statement * option bool :=
  if negb (active (ledger s)) then (s, Some true)
  else if may_claim (ledger s) then
    let reset := match pending_input_ s with Some i => negb (in_call i) | None => false end in
    let s := claim s in
    ({| execution := execution s; pending_input_ := pending_input_ s; ledger := ledger s;
        resets := if reset then execution s :: resets s else resets s; sent := sent s; cancelled := cancelled s |}, Some true)
  else if negb (available (ledger s)) then (s, Some false)
  else (s, None).      (* the server is asked *)

(** The reset of the execution [id], under the statement's lease. *)
Definition cancel_reset (id : nat) (s : Statement) : Statement * list (Z * Output) :=
  match pending_input_ s with
  | Some i =>
      if bool_decide (execution s = id) then
        (abandon_pending_input s, out (processed i) (Processed 0) ++ unused_statuses i)
      else (s, [])
  | None => (s, [])
  end.

(** ** Any order of the calls *)

Inductive Event :=
| Start (h : Health) (c1 c2 can_ask_server : bool) (i : PendingInput)
| PutData (mem : Z -> Z) (h1 h2 : Health) (c1 c2 c3 : bool) (data len : Z)
| ParamData (h1 h2 : Health) (c1 c2 c3 : bool) (token_at : Z) (r : Reply)
| CancelClaim
| CancelReset (id : nat).

Definition step (e : Event) (s : Statement) : Statement :=
  match e with
  | Start h c1 c2 can_ask_server i => a_state (start_collecting h c1 c2 can_ask_server i s)
  | PutData mem h1 h2 c1 c2 c3 data len => a_state (put_data mem h1 h2 c1 c2 c3 data len s)
  | ParamData h1 h2 c1 c2 c3 token_at r => a_state (param_data h1 h2 c1 c2 c3 token_at r s)
  | CancelClaim => fst (cancel_claim s)
  | CancelReset id => if bool_decide (id ∈ resets s) then fst (cancel_reset id s) else s
  end.

Definition steps (es : list Event) (s : Statement) : Statement := foldl (fun s e => step e s) s es.

(** A statement that has executed nothing. *)
Definition idle : Statement :=
  {| execution := 0; pending_input_ := None;
     ledger := {| active := false; available := false; preparing := true; locally_claimed := false; local_need_data := false |};
     resets := []; sent := []; cancelled := [] |}.

Record statement_ok (s : Statement) : Prop := {
  so_sent : Forall (fun id => id <= execution s)%nat (map fst (sent s));
  so_cancelled : Forall (fun id => id <= execution s)%nat (cancelled s);
  so_once : NoDup (map fst (sent s));
  so_done : execution s ∈ map fst (sent s) -> active (ledger s) = false /\ pending_input_ s = None;
  so_claimed : execution s ∈ cancelled s -> locally_claimed (ledger s) = true;
  so_apart : forall id, id ∈ cancelled s -> id ∉ map fst (sent s)
}.

Lemma ok_claim s : statement_ok s -> statement_ok (claim s).
Proof.
  intros Hok. unfold claim. destruct (may_claim (ledger s)) eqn:E; [|done]. destruct Hok as [H1 H2 H3 H4 H5 H6].
  assert (execution s ∉ map fst (sent s)) as Hn.
  { intros Hin. destruct (H4 Hin) as [E' _]. unfold may_claim in E. by rewrite E' in E. }
  split; cbn; [done|constructor; [lia|done]|done| |done|].
  - intros Hin. by destruct Hn.
  - intros id [->|Hid]%elem_of_cons; [done|by apply H6].
Qed.

Lemma ok_raced b s : statement_ok s -> statement_ok (raced b s).
Proof. destruct b; [apply ok_claim|done]. Qed.

Lemma claim_kept s : pending_input_ (claim s) = pending_input_ s /\ execution (claim s) = execution s.
Proof. unfold claim. by case_match. Qed.
Lemma raced_pending b s : pending_input_ (raced b s) = pending_input_ s.
Proof. destruct b; [apply claim_kept|done]. Qed.

Lemma ok_input i s : statement_ok s -> is_Some (pending_input_ s) -> statement_ok (with_input (Some i) s).
Proof.
  intros [H1 H2 H3 H4 H5 H6] [j Hj]. split; cbn; try done. intros Hin. destruct (H4 Hin) as [_ E]. congruence.
Qed.

Lemma ok_abandon s : statement_ok s -> statement_ok (abandon_pending_input s).
Proof.
  intros Hok. unfold abandon_pending_input. destruct (pending_input_ s); [|done]. destruct Hok as [H1 H2 H3 H4 H5 H6]. by split.
Qed.

(** The execution is handed over once, and only when it is not claimed. *)
Lemma ok_send what array i s : statement_ok s -> is_Some (pending_input_ s) -> locally_claimed (ledger s) = false ->
  statement_ok (abandon_pending_input (record_sent what (with_input (Some i) (with_ledger (begin_execution array (ledger s)) s)))).
Proof.
  intros [H1 H2 H3 H4 H5 H6] [j Hj] Hc.
  assert (execution s ∉ map fst (sent s)) as Hn by (intros Hin; destruct (H4 Hin) as [_ E]; congruence).
  assert (execution s ∉ cancelled s) as Hx by (intros Hin; rewrite (H5 Hin) in Hc; done).
  unfold abandon_pending_input. cbn. split; cbn; rewrite ?map_app; cbn; [|done| | |done|].
  - apply Forall_app. split; [done|by constructor].
  - apply list.NoDup_app. split_and!; [done| |by apply NoDup_singleton]. intros x Hx' Hs%list_elem_of_singleton. by subst x.
  - done.
  - intros id Hid [Hin|Hin]%elem_of_app; [by apply (H6 id)|]. apply list_elem_of_singleton in Hin. by subst id.
Qed.

Lemma ok_begin array s : statement_ok s -> statement_ok (with_ledger (begin_execution array (ledger s)) s).
Proof. intros [H1 H2 H3 H4 H5 H6]. by split. Qed.

Lemma ok_ready h b i s : statement_ok s -> is_Some (pending_input_ s) ->
  match pending_call_ready h b i s with
  | inl s' => statement_ok s' /\ is_Some (pending_input_ s') /\ locally_claimed (ledger s') = false
  | inr a => statement_ok (a_state a)
  end.
Proof.
  intros Hok Hp. unfold pending_call_ready. destruct (deadline_expired h); [by apply ok_abandon|].
  destruct (_ && _); [by apply ok_abandon|]. destruct (connected h) as [[]|]; [|by apply ok_abandon..].
  assert (statement_ok (with_input (Some (set_calling true i)) (raced b s))) as Hok'
    by (apply ok_input; [by apply ok_raced|by rewrite raced_pending]).
  cbv zeta. destruct (locally_claimed _) eqn:E; [by apply ok_abandon|]. split_and!; [done|by eexists|done].
Qed.

Lemma ok_answer r s posted ws : statement_ok s -> statement_ok (a_state (answer r s posted ws)).
Proof. done. Qed.
Lemma ok_fail state i s : statement_ok s -> statement_ok (a_state (fail state i s)).
Proof. apply ok_abandon. Qed.

Lemma ok_put_data mem h1 h2 c1 c2 c3 data len s : statement_ok s -> statement_ok (a_state (put_data mem h1 h2 c1 c2 c3 data len s)).
Proof.
  intros Hok. unfold put_data. destruct (pending_input_ s) as [i|] eqn:Ep; [|done]. destruct (negb (requested i)); [done|].
  pose proof (ok_ready h1 c1 i s Hok ltac:(by rewrite Ep)) as H1. destruct (pending_call_ready h1 c1 i s) as [s1|a]; [|done].
  destruct H1 as (H1 & Hs1 & _). cbv zeta. destruct (pieces _ !! _) as [v|]; [|done]. destruct (_ || _); [by apply ok_fail|].
  destruct (if len =? SQL_NULL_DATA then _ else _) as [i'|state]; [|by apply ok_fail].
  pose proof (ok_ready h2 c2 i' (with_input (Some i') s1) ltac:(by apply ok_input) ltac:(by eexists)) as H2.
  destruct (pending_call_ready h2 c2 i' _) as [s2|a]; [|done]. destruct H2 as (H2 & Hs2 & _).
  destruct (locally_claimed _); [by apply ok_fail, ok_raced|]. apply ok_input; [by apply ok_raced|by rewrite raced_pending].
Qed.

Lemma ok_execute c3 r i s : statement_ok s -> is_Some (pending_input_ s) -> statement_ok (a_state (execute_input c3 r i s)).
Proof.
  intros Hok Hp. unfold execute_input. cbv zeta. assert (statement_ok (raced c3 s)) as Hr by by apply ok_raced.
  assert (is_Some (pending_input_ (raced c3 s))) as Hp' by by rewrite raced_pending.
  assert (forall array, statement_ok (with_input (Some (executing i)) (with_ledger (begin_execution array (ledger (raced c3 s))) (raced c3 s)))) as Hb
    by (intros; apply ok_input; [by apply ok_begin|done]).
  destruct (negb (array_size i =? 0)).
  - destruct (locally_claimed (ledger (raced c3 s))) eqn:E; [by apply ok_fail|].
    destruct (negb (finalized r)); [apply ok_answer, ok_abandon, Hb|by apply ok_answer, ok_send].
  - cbn [locally_claimed ledger with_input with_ledger begin_execution].
    destruct (locally_claimed (ledger (raced c3 s))) eqn:E; [apply ok_answer, ok_abandon, Hb|by apply ok_answer, ok_send].
Qed.

Lemma ok_param_data h1 h2 c1 c2 c3 token_at r s : statement_ok s -> statement_ok (a_state (param_data h1 h2 c1 c2 c3 token_at r s)).
Proof.
  intros Hok. unfold param_data. destruct (pending_input_ s) as [i|] eqn:Ep; [|done].
  pose proof (ok_ready h1 c1 i s Hok ltac:(by rewrite Ep)) as H1. destruct (pending_call_ready h1 c1 i s) as [s1|a]; [|done].
  destruct H1 as (H1 & Hs1 & _). cbv zeta. destruct (token_at =? 0); [by apply ok_fail|]. destruct (_ <? 8); [by apply ok_fail|].
  destruct (match _ with Some v => negb (supplied v) | None => false end); [by apply ok_answer, ok_input|].
  destruct (match _ with Some v => convert_requested _ _ | None => _ end) as [i'|[state|]]; [|by apply ok_fail|by apply ok_answer, ok_abandon].
  set (i2 := at_ordinal _ i').
  pose proof (ok_ready h2 c2 i2 (with_input (Some i2) s1) ltac:(by apply ok_input) ltac:(by eexists)) as H2.
  destruct (pending_call_ready h2 c2 i2 _) as [s2|a]; [|done]. destruct H2 as (H2 & Hs2 & _).
  destruct (pieces i2 !! ordinal i2) as [v|]; [|by apply ok_execute].
  destruct (locally_claimed _); [by apply ok_fail, ok_raced|]. apply ok_answer, ok_input; [by apply ok_raced|by rewrite raced_pending].
Qed.

Lemma ok_start h c1 c2 b i s : statement_ok s -> statement_ok (a_state (start_collecting h c1 c2 b i s)).
Proof.
  intros Hok. unfold start_collecting. destruct (pending_input_ s) eqn:Ep; [done|]. destruct Hok as [H1 H2 H3 H4 H5 H6]. cbv zeta.
  set (s0 := {| execution := S (execution s) |}).
  assert (forall l : list nat, Forall (fun id => id <= execution s)%nat l -> S (execution s) ∉ l) as Hnew.
  { intros l Hl Hin. rewrite list.Forall_forall in Hl. specialize (Hl _ Hin). lia. }
  assert (statement_ok s0) as H0.
  { split; cbn; [eapply Forall_impl; [|exact H1]; cbn; lia|eapply Forall_impl; [|exact H2]; cbn; lia|done| | |done].
    - intros Hin. by destruct (Hnew _ H1).
    - intros Hin. by destruct (Hnew _ H2). }
  pose proof (ok_ready h c1 i s0 H0 ltac:(by eexists)) as Hr. destruct (pending_call_ready h c1 i s0) as [s1|a]; [|done].
  destruct Hr as (Hr & Hs1 & _). destruct (locally_claimed (ledger (raced c2 s1))); [by apply ok_fail, ok_raced|].
  apply ok_answer, ok_input; [by apply ok_raced|by rewrite raced_pending].
Qed.

Lemma ok_step e s : statement_ok s -> statement_ok (step e s).
Proof.
  intros Hok. destruct e as [h c1 c2 b i|mem h1 h2 c1 c2 c3 data len|h1 h2 c1 c2 c3 token_at r| |id]; cbn [step].
  - by apply ok_start.
  - by apply ok_put_data.
  - by apply ok_param_data.
  - unfold cancel_claim. repeat case_match; try done; cbn [fst]; (pose proof (ok_claim s Hok) as [K1 K2 K3 K4 K5 K6]; by split).
  - case_bool_decide; [|done]. unfold cancel_reset. repeat case_match; try done. by apply ok_abandon.
Qed.

Lemma ok_steps es s : statement_ok s -> statement_ok (steps es s).
Proof. revert s. induction es as [|e es IH]; intros s Hok; [done|]. cbn. by apply IH, ok_step. Qed.

Lemma ok_idle : statement_ok idle.
Proof. split; cbn; first [by constructor|by intros ?%elem_of_nil|by intros ? ?%elem_of_nil]. Qed.

End ParamData.
End DataAtExec.
