(* ===== verification/DataAtExecValues.v ===== *)
(** * What is sent is what was supplied

    The values of [DataAtExec.v]: the parameter that reaches the backend for a
    deferred marker is the conversion of exactly the data the application supplied
    for it, whatever calls failed or were repeated in between. *)

From S2P Require Import Prelude Digits Unicode ResultTypes ConvertNumber ConvertTime ConvertData Diagnostics ResultConvert Cursor DataAtExec.

Section Values.
Context (w : wide) (limits : InputLimits).
Context {Param : Type} (convert : nat -> Value -> Z -> option (Param * Z)).

Abbreviation PendingInput := (@PendingInput Param).
Abbreviation Statement := (@Statement Param).
Abbreviation Event := (@Event Param).

(** ** The search for the terminator *)

#[export] Instance scan_decreases mem address unit space :
  0 < unit -> Decreases (fun n => Z.to_nat (space + unit - n)) (scan_step mem address unit space).
Proof.
  intros Hu n n'. unfold scan_step. repeat case_match; zb; intros [= <-]; lia.
Qed.

(** A text in memory: units that are not zero, and a zero. *)
Definition spelled (mem : Z -> Z) (address unit count : Z) : Prop :=
  (forall k, 0 <= k < count -> load_unit mem (address + k * unit) unit <> 0) /\ load_unit mem (address + count * unit) unit = 0.

Lemma scan_from mem address unit space n count : 0 < unit -> 0 <= count -> n = count * unit ->
  (forall k, 0 <= k < count -> load_unit mem (address + k * unit) unit <> 0) ->
  match run (fun n => Z.to_nat (space + unit - n)) (scan_step mem address unit space) n with
  | inl m => exists total, m = total * unit /\ count <= total /\ spelled mem address unit total
  | inr _ => True
  end.
Proof.
  intros Hu. remember (Z.to_nat (space + unit - n)) as f eqn:Hf. revert n count Hf.
  induction f as [f IH] using lt_wf_ind. intros n count -> Hc Hn Hbefore. pose proof (scan_decreases mem address unit space Hu) as Hdec.
  rewrite run_eq. destruct (scan_step mem address unit space n) as [n'|[m|state]] eqn:E.
  - pose proof (IH _ (Hdec n n' E) n' (count + 1) eq_refl) as K. unfold scan_step in E.
    destruct (_ || _); [done|]. destruct (load_unit _ _ _ =? 0) eqn:Ez; [done|]. destruct (_ || _); [done|]. injection E as <-. zb. subst n.
    destruct (run _ _ _) as [m|]; [|done]. destruct K as (total & -> & Hle & Hs); [lia|lia| |].
    + intros k Hk. destruct (decide (k = count)) as [->|]; [done|]. apply Hbefore. lia.
    + exists total. split_and!; [done|lia|done].
  - unfold scan_step in E. repeat (case_match; simplify_eq). zb. exists count. by split_and!.
  - done.
Qed.

(** ** The data of the calls *)

Abbreviation Given := (nat -> option (bool * list Z)).

(** A value with what was supplied for it. *)
Definition filled (v : Value) (is_null : bool) (us : list Z) : Value :=
  {| deferred := deferred v; supplied := true; null := is_null; token := token v; c_type := c_type v;
     v_bytes := if c_type v =? SQL_C_WCHAR then v_bytes v else v_bytes v ++ us;
     v_wide := if c_type v =? SQL_C_WCHAR then v_wide v ++ us else v_wide v |}.

(** The units a call of [SQLPutData] points to. *)
Definition data_of (mem : Z -> Z) (data len : Z) (v : Value) (i : PendingInput) : list Z :=
  match supplied_bytes w limits mem data len v i with
  | inl n => load_units mem data (unit_of w (c_type v)) (n / unit_of w (c_type v))
  | inr _ => []
  end.

(** They are the whole text, up to its terminator, or the length that was given. *)
Lemma data_of_exact mem data len v (i : PendingInput) n : supplied_bytes w limits mem data len v i = inl n ->
  let unit := unit_of w (c_type v) in
  if len =? SQL_NTS then exists count, n = count * unit /\ spelled mem data unit count else n = len.
Proof.
  intros H unit. assert (0 < unit) as Hu by (unfold unit, unit_of; case_match; [by destruct w|done]).
  unfold supplied_bytes in H. cbv zeta in H. fold unit in H. destruct (len =? SQL_NTS) eqn:El.
  - destruct (_ && _); [done|]. destruct (_ && _); [done|]. destruct (_ && _); [done|]. destruct (_ || _); [done|].
    unfold scan_length in H. match type of H with run _ (scan_step _ _ _ ?space) _ = _ =>
      pose proof (scan_from mem data unit space 0 0 Hu ltac:(lia) eq_refl ltac:(lia)) as K end.
    rewrite H in K. destruct K as (total & -> & _ & Hs). by exists total.
  - repeat (case_match; simplify_eq); done.
Qed.

Definition update (k : nat) (x : bool * list Z) (g : Given) : Given := fun j => if decide (j = k) then Some x else g j.

(** The record of what the application supplied. *)
Definition supply (e : Event) (s : Statement) (g : Given) : Given :=
  match e, pending_input_ s with
  | PutData mem h1 h2 c1 c2 c3 data len, Some i =>
      match a_return (put_data w limits mem h1 h2 c1 c2 c3 data len s), pieces i !! ordinal i with
      | RET_SUCCESS, Some v =>
          let before := match g (ordinal i) with Some (_, us) => us | None => [] end in
          update (ordinal i) (if len =? SQL_NULL_DATA then (true, before) else (false, before ++ data_of mem data len v i)) g
      | _, _ => g
      end
  | _, _ => g
  end.

Fixpoint collect (es : list Event) (s : Statement) (g : Given) : Statement * Given :=
  match es with
  | [] => (s, g)
  | e :: es => collect es (step w limits convert e s) (supply e s g)
  end.

Definition not_start (e : Event) : Prop := match e with Start _ _ _ _ _ => False | _ => True end.

(** The input as [start_pending_input] makes it. *)
Record fresh (i : PendingInput) : Prop := {
  fr_values : length (values i) = length (pieces i);
  fr_pieces : Forall (fun v => supplied v = false /\ null v = false /\ v_bytes v = [] /\ v_wide v = []) (pieces i);
  fr_start : ordinal i = 0%nat; fr_requested : requested i = false
}.

(** The values that have to reach the backend. *)
Definition exact_values (i : PendingInput) (g : Given) (vs : list Param) : Prop :=
  length vs = length (pieces i) /\
  forall k v, pieces i !! k = Some v ->
    if deferred v then exists is_null us b b' p, g k = Some (is_null, us) /\ convert k (filled v is_null us) b = Some (p, b') /\ vs !! k = Some p
    else vs !! k = values i !! k.

Definition exact (i : PendingInput) (g : Given) (what : Sent) : Prop :=
  match what with
  | OneSet vs => array_size i = 0 /\ exact_values i g vs
  | Sets sets => array_size i <> 0 /\ exists vs, exact_values i g vs /\
      sets = imap (fun compact slot => (slot, take (parameter_width i) (drop (compact * parameter_width i) vs))) (array_slots i)
  end.

(** ** The input during the collection *)

(** The value at the cursor, with what it has been given. *)
Definition so_far (v : Value) (x : option (bool * list Z)) : Value :=
  match x with None => v | Some (is_null, us) => filled v is_null us end.

Record collected (i0 : PendingInput) (g : Given) (i : PendingInput) : Prop := {
  co_values : length (values i) = length (pieces i0);
  co_pieces : length (pieces i) = length (pieces i0);
  co_frame : array_slots i = array_slots i0 /\ parameter_width i = parameter_width i0 /\ array_size i = array_size i0;
  co_done : forall k v, (k < ordinal i)%nat -> pieces i0 !! k = Some v ->
    if deferred v then exists is_null us b b' p, g k = Some (is_null, us) /\ convert k (filled v is_null us) b = Some (p, b') /\ values i !! k = Some p
    else values i !! k = values i0 !! k;
  co_now : forall v, pieces i0 !! ordinal i = Some v -> pieces i !! ordinal i = Some (so_far v (g (ordinal i)));
  co_todo : forall k, (ordinal i < k)%nat -> g k = None /\ pieces i !! k = pieces i0 !! k;
  co_kept : forall k, (ordinal i <= k)%nat -> values i !! k = values i0 !! k;
  co_requested : if requested i then exists v, pieces i0 !! ordinal i = Some v /\ deferred v = true else g (ordinal i) = None
}.

(** What the invariant looks at. *)
Lemma collected_same i0 g i j : collected i0 g i -> pieces j = pieces i -> values j = values i -> array_slots j = array_slots i ->
  parameter_width j = parameter_width i -> array_size j = array_size i -> ordinal j = ordinal i -> requested j = requested i -> collected i0 g j.
Proof. intros [H1 H2 H3 H4 H5 H6 H7 H8] E1 E2 E3 E4 E5 E6 E7. split; rewrite ?E1, ?E2, ?E3, ?E4, ?E5, ?E6, ?E7; done. Qed.

Lemma collected_calling i0 g i b : collected i0 g i -> collected i0 g (set_calling b i).
Proof. intros H. by apply (collected_same i0 g i). Qed.

Lemma fresh_piece i k v : fresh i -> pieces i !! k = Some v -> supplied v = false /\ null v = false /\ v_bytes v = [] /\ v_wide v = [].
Proof. intros [_ H _ _] Hk. by apply (proj1 (Forall_lookup _ _) H k). Qed.

Lemma collected_start i : fresh i -> collected i (fun _ => None) i.
Proof.
  intros [H1 H2 H3 H4]. split; try done.
  - rewrite H3. lia.
  - by rewrite H4.
Qed.

(** ** The calls *)

Definition quiet (s s' : Statement) : Prop := sent s' = sent s /\ execution s' = execution s.

Lemma quiet_raced b s : quiet s (raced b s).
Proof. destruct b; [|done]. unfold raced, claim. by case_match. Qed.
Lemma quiet_abandon s : quiet s (abandon_pending_input s) /\ (is_Some (pending_input_ s) -> pending_input_ (abandon_pending_input s) = None).
Proof. unfold abandon_pending_input. destruct (pending_input_ s) as [|] eqn:E; [done|]. split; [done|by intros [? ?]]. Qed.

(** A failed call: nothing is sent, and no input is left. *)
Definition ended (s : Statement) (a : Answer) : Prop :=
  a_return a = RET_ERROR /\ quiet s (a_state a) /\ pending_input_ (a_state a) = None.

Lemma ended_abandon s s' posted ws : quiet s s' -> is_Some (pending_input_ s') -> ended s (answer RET_ERROR (abandon_pending_input s') posted ws).
Proof.
  intros [Q1 Q2] Hp. destruct (quiet_abandon s') as [[Q3 Q4] Hn]. split_and!; [done| |by apply Hn]. cbn [a_state answer]. split; congruence.
Qed.

Lemma ready_cases h b (i : PendingInput) s : is_Some (pending_input_ s) ->
  match pending_call_ready h b i s with
  | inl s' => quiet s s' /\ pending_input_ s' = Some (set_calling true i)
  | inr a => ended s a
  end.
Proof.
  intros Hp. unfold pending_call_ready, fail. destruct (deadline_expired h); [by apply ended_abandon|].
  destruct (_ && _); [by apply ended_abandon|]. destruct (connected h) as [[]|]; [|by apply ended_abandon..]. cbv zeta.
  destruct (quiet_raced b s) as [Q1 Q2]. destruct (locally_claimed _); [|done]. apply ended_abandon; [done|by eexists].
Qed.

(** The data goes into the value at the cursor. *)
Definition put_value (mem : Z -> Z) (data len : Z) (v : Value) (i : PendingInput) : option PendingInput :=
  let is_null := len =? SQL_NULL_DATA in
  if (is_null && supplied v) || (null v && negb is_null) || (null v && supplied v) then None
  else if is_null then Some (with_piece (set_null v) 0 i)
  else match supplied_bytes w limits mem data len v i with
       | inl n => Some (with_piece (append_data w mem data n v) n i)
       | inr _ => None
       end.

Lemma put_cases mem h1 h2 c1 c2 c3 data len s i : pending_input_ s = Some i ->
  let a := put_data w limits mem h1 h2 c1 c2 c3 data len s in
  quiet s (a_state a) /\
  (a_return a = RET_SUCCESS /\ requested i = true /\ (exists v i', pieces i !! ordinal i = Some v /\
     put_value mem data len v (set_calling true i) = Some i' /\ pending_input_ (a_state a) = Some (set_calling false i')) \/
   a_return a = RET_ERROR /\ (pending_input_ (a_state a) = None \/ pending_input_ (a_state a) = Some i \/ pending_input_ (a_state a) = Some (set_calling true i))).
Proof.
  intros Hi a. unfold a, put_data. rewrite Hi. destruct (requested i) eqn:Er; cbn [negb]; [|split; [done|right; split; [done|by right; left]]].
  pose proof (ready_cases h1 c1 i s ltac:(by rewrite Hi)) as R1. destruct (pending_call_ready h1 c1 i s) as [s1|b].
  2: { destruct R1 as (Hr & Hq & Hn). split; [done|right; split; [done|by left]]. }
  destruct R1 as [[Q1 Q2] Hp1]. cbv zeta. change (pieces (set_calling true i)) with (pieces i). change (ordinal (set_calling true i)) with (ordinal i).
  destruct (pieces i !! ordinal i) as [v|] eqn:Ev; [|split; [done|right; split; [done|by right; right]]].
  assert (forall s' posted ws, quiet s1 s' -> is_Some (pending_input_ s') ->
    let a := answer RET_ERROR (abandon_pending_input s') posted ws in
    quiet s (a_state a) /\ (a_return a = RET_SUCCESS /\ true = true /\ (exists v0 i', Some v = Some v0 /\
     put_value mem data len v0 (set_calling true i) = Some i' /\ pending_input_ (a_state a) = Some (set_calling false i')) \/
     a_return a = RET_ERROR /\ (pending_input_ (a_state a) = None \/ pending_input_ (a_state a) = Some i \/ pending_input_ (a_state a) = Some (set_calling true i)))) as Hend.
  { intros s' posted ws [Q3 Q4] Hs a'. destruct (ended_abandon s s' posted ws ltac:(split; congruence) Hs) as (_ & Hq & Hn).
    split; [done|right; split; [done|by left]]. }
  destruct (_ || _) eqn:Ec; [apply Hend; [done|by rewrite Hp1]|].
  destruct (if len =? SQL_NULL_DATA then _ else _) as [i'|state] eqn:Ei; [|apply Hend; [done|by rewrite Hp1]].
  assert (put_value mem data len v (set_calling true i) = Some i') as Hput.
  { unfold put_value. cbv zeta. rewrite Ec. destruct (len =? SQL_NULL_DATA); [by injection Ei as <-|]. destruct (supplied_bytes _ _ _ _ _ _ _); by simplify_eq. }
  pose proof (ready_cases h2 c2 i' (with_input (Some i') s1) ltac:(by eexists)) as R2.
  destruct (pending_call_ready h2 c2 i' _) as [s2|b].
  2: { destruct R2 as (Hr & [Q3 Q4] & Hn). split; [split; cbn in *; congruence|right; split; [done|by left]]. }
  destruct R2 as [[Q3 Q4] Hp2]. destruct (quiet_raced c3 s2) as [Q5 Q6]. cbn in Q3, Q4.
  destruct (locally_claimed _); [apply Hend; [split; congruence|rewrite raced_pending; by rewrite Hp2]|].
  split; [split; cbn; congruence|]. left. split_and!; [done|done|]. by exists v, i'.
Qed.

Lemma collected_put i0 g i mem data len v i' : fresh i0 -> collected i0 g i -> requested i = true -> pieces i !! ordinal i = Some v ->
  put_value mem data len v (set_calling true i) = Some i' ->
  let before := match g (ordinal i) with Some (_, us) => us | None => [] end in
  collected i0 (update (ordinal i) (if len =? SQL_NULL_DATA then (true, before) else (false, before ++ data_of mem data len v i)) g) i'.
Proof.
  intros Hf Hco Hr Hv Hput before. pose proof Hco as [H1 H2 H3 H4 H5 H6 H7 H8]. rewrite Hr in H8. destruct H8 as (v0 & Hv0 & Hd).
  rewrite (H5 v0 Hv0) in Hv. injection Hv as <-. destruct (fresh_piece i0 _ _ Hf Hv0) as (F1 & F2 & F3 & F4).
  set (x := if len =? SQL_NULL_DATA then _ else _).
  assert (exists n, i' = with_piece (filled v0 x.1 x.2) n (set_calling true i)) as (n & ->).
  { unfold put_value in Hput. cbv zeta in Hput. unfold before in x. destruct (g (ordinal i)) as [[nl us]|]; cbn [so_far] in *.
    - cbn [supplied filled null] in Hput. rewrite !andb_true_r in Hput. destruct (len =? SQL_NULL_DATA) eqn:En; [done|]. cbn [orb negb] in Hput.
      destruct nl; [done|]. cbn [orb] in Hput. destruct (supplied_bytes _ _ _ _ _ _ _) as [n|] eqn:Es; [|done]. injection Hput as <-.
      exists n. f_equal. unfold x, data_of. change (supplied_bytes w limits mem data len (filled v0 false us) i) with
        (supplied_bytes w limits mem data len (filled v0 false us) (set_calling true i)). rewrite Es. cbn [fst snd].
      unfold append_data, filled, unit_of. cbn [c_type deferred token v_bytes v_wide null].
      destruct (c_type v0 =? SQL_C_WCHAR); by rewrite ?Z.div_1_r, app_assoc.
    - rewrite F1, F2, !andb_false_r in Hput. cbn [orb andb] in Hput. destruct (len =? SQL_NULL_DATA) eqn:En.
      + injection Hput as <-. exists 0. f_equal. unfold x, set_null, filled. cbn [fst snd]. by destruct (c_type v0 =? SQL_C_WCHAR); rewrite ?app_nil_r.
      + destruct (supplied_bytes _ _ _ _ _ _ _) as [n|] eqn:Es; [|done]. injection Hput as <-.
        exists n. f_equal. unfold x, data_of. change (supplied_bytes w limits mem data len v0 i) with
          (supplied_bytes w limits mem data len v0 (set_calling true i)). rewrite Es. cbn [fst snd app].
        unfold append_data, filled, unit_of. rewrite F2. destruct (c_type v0 =? SQL_C_WCHAR); by rewrite ?Z.div_1_r. }
  assert (ordinal i < length (pieces i))%nat as Hlt by (rewrite H2; by eapply lookup_lt_Some).
  split; cbn [values pieces ordinal array_slots parameter_width array_size requested with_piece set_calling].
  - done.
  - by rewrite length_insert.
  - done.
  - intros k u Hk Hu. specialize (H4 k u Hk Hu). unfold update. rewrite decide_False by lia. done.
  - intros u Hu. rewrite Hv0 in Hu. injection Hu as <-. rewrite list_lookup_insert_eq by done. unfold update. rewrite decide_True by done.
    by destruct x.
  - intros k Hk. rewrite list_lookup_insert_ne by lia. unfold update. rewrite decide_False by lia. by apply H6.
  - done.
  - rewrite Hr. by exists v0.
Qed.

(** ** The step to the next value *)

Definition to_next (i : PendingInput) : PendingInput := at_ordinal (next_deferred (drop (ordinal i) (pieces i)) (ordinal i)) i.

Definition advance (i : PendingInput) : option PendingInput :=
  match (if requested i then pieces i !! ordinal i else None) with
  | Some v => if supplied v then match convert_requested w limits convert v i with inl i => Some (to_next i) | inr _ => None end else None
  | None => Some (to_next i)
  end.

Lemma next_deferred_spec vs : forall n, let m := next_deferred vs n in (n <= m <= n + length vs)%nat /\
  (forall k v, (n <= k < m)%nat -> vs !! (k - n)%nat = Some v -> deferred v = false) /\
  (forall v, vs !! (m - n)%nat = Some v -> deferred v = true).
Proof.
  induction vs as [|u vs IH]; intros n; cbn [next_deferred length].
  - split_and!; [lia|lia|intros; lia|]. intros v. by rewrite lookup_nil.
  - destruct (deferred u) eqn:Eu; cbv zeta.
    + split_and!; [lia|lia|intros; lia|]. intros v. rewrite Nat.sub_diag. cbn. by intros [= <-].
    + destruct (IH (S n)) as ([H1 H2] & H3 & H4). set (m := next_deferred vs (S n)) in *. split_and!; [lia|lia| |].
      * intros k v Hk. destruct (decide (k = n)) as [->|Hne]; [rewrite Nat.sub_diag; cbn; by intros [= <-]|].
        replace (k - n)%nat with (S (k - S n)) by lia. cbn. apply H3. lia.
      * intros v. replace (m - n)%nat with (S (m - S n)) by lia. cbn. apply H4.
Qed.

Lemma param_cases h1 h2 c1 c2 c3 token_at r s i : pending_input_ s = Some i ->
  let a := param_data w limits convert h1 h2 c1 c2 c3 token_at r s in
  execution (a_state a) = execution s /\
  (sent (a_state a) = sent s /\
     (pending_input_ (a_state a) = None \/ (exists b, pending_input_ (a_state a) = Some (set_calling b i)) \/
      exists i2 v, advance (set_calling true i) = Some i2 /\ pieces i2 !! ordinal i2 = Some v /\ pending_input_ (a_state a) = Some (request i2)) \/
   pending_input_ (a_state a) = None /\ exists i2, advance (set_calling true i) = Some i2 /\ pieces i2 !! ordinal i2 = None /\
     sent (a_state a) = sent s ++ [(execution s, if array_size i2 =? 0 then OneSet (values i2) else Sets (array_sets i2))]).
Proof.
  intros Hi a. unfold a, param_data. rewrite Hi.
  pose proof (ready_cases h1 c1 i s ltac:(by rewrite Hi)) as R1. destruct (pending_call_ready h1 c1 i s) as [s1|b].
  2: { destruct R1 as (_ & [Q1 Q2] & Hn). split; [done|]. left. split; [done|by left]. }
  destruct R1 as [[Q1 Q2] Hp1]. cbv zeta. set (ic := set_calling true i) in *.
  assert (forall s' posted ws, quiet s1 s' -> is_Some (pending_input_ s') ->
    execution (a_state (answer RET_ERROR (abandon_pending_input s') posted ws)) = execution s /\
    (sent (a_state (answer RET_ERROR (abandon_pending_input s') posted ws)) = sent s) /\
    pending_input_ (a_state (answer RET_ERROR (abandon_pending_input s') posted ws)) = None) as Hend.
  { intros s' posted ws [Q3 Q4] Hs. destruct (ended_abandon s s' posted ws ltac:(split; congruence) Hs) as (_ & [Hq1 Hq2] & Hn). done. }
  assert (is_Some (pending_input_ s1)) as Hs1 by (by rewrite Hp1).
  destruct (token_at =? 0); [destruct (Hend s1 (Some (str "HY009")) (complete_parameter_set RET_ERROR ic)) as (E1 & E2 & E3); [done..|]; split; [done|left; split; [done|by left]]|].
  destruct (_ <? 8); [destruct (Hend s1 (Some (str "HY024")) (complete_parameter_set RET_ERROR ic)) as (E1 & E2 & E3); [done..|]; split; [done|left; split; [done|by left]]|].
  set (current := if requested ic then pieces ic !! ordinal ic else None).
  destruct (match current with Some v => negb (supplied v) | None => false end) eqn:Esup.
  { split; [done|]. left. split; [done|]. right. left. by exists false. }
  destruct (match current with Some v => convert_requested w limits convert v ic | None => inl ic end) as [i1|[state|]] eqn:Ec.
  2: { destruct (Hend s1 (Some state) (complete_parameter_set RET_ERROR ic)) as (E1 & E2 & E3); [done..|]. split; [done|left; split; [done|by left]]. }
  2: { destruct (Hend s1 None (complete_parameter_set RET_ERROR ic)) as (E1 & E2 & E3); [done..|]. split; [done|left; split; [done|by left]]. }
  assert (advance ic = Some (to_next i1)) as Hadv.
  { unfold advance. fold current. destruct current as [v|]; [|by injection Ec as <-]. apply negb_false_iff in Esup. by rewrite Esup, Ec. }
  fold (to_next i1). set (i2 := to_next i1) in *.
  pose proof (ready_cases h2 c2 i2 (with_input (Some i2) s1) ltac:(by eexists)) as R2.
  destruct (pending_call_ready h2 c2 i2 _) as [s2|b].
  2: { destruct R2 as (_ & [Q3 Q4] & Hn). cbn in Q3, Q4. split; [congruence|]. left. split; [congruence|by left]. }
  destruct R2 as [[Q3 Q4] Hp2]. cbn in Q3, Q4. destruct (quiet_raced c3 s2) as [Q5 Q6].
  assert (is_Some (pending_input_ (raced c3 s2))) as Hs2 by (rewrite raced_pending, Hp2; by eexists).
  destruct (pieces i2 !! ordinal i2) as [v|] eqn:Ev.
  - destruct (locally_claimed _).
    + destruct (Hend (raced c3 s2) (Some (str "HY008")) (complete_parameter_set RET_ERROR i2)) as (E1 & E2 & E3); [split; congruence|done|].
      split; [done|left; split; [done|by left]].
    + split; [cbn; congruence|]. left. split; [cbn; congruence|]. right. right. by exists i2, v.
  - unfold execute_input. cbv zeta. destruct (array_size i2 =? 0) eqn:Ea; cbn [negb].
    + destruct (locally_claimed _); [split; [cbn; congruence|left; split; [cbn; congruence|by left]]|].
      split; [cbn; congruence|]. right. split; [done|]. exists i2. split_and!; [done|done|]. rewrite Ea. cbn. congruence.
    + destruct (locally_claimed _).
      * destruct (Hend (raced c3 s2) (Some (str "HY008")) (complete_parameter_set RET_ERROR i2)) as (E1 & E2 & E3); [split; congruence|done|].
        split; [done|left; split; [done|by left]].
      * destruct (negb (finalized r)); [split; [cbn; congruence|left; split; [cbn; congruence|by left]]|].
        split; [cbn; congruence|]. right. split; [done|]. exists i2. split_and!; [done|done|]. rewrite Ea. cbn. congruence.
Qed.

(** Between two values: everything before the cursor is converted, nothing after
    it has been touched. *)
Record settled (i0 : PendingInput) (g : Given) (i : PendingInput) : Prop := {
  se_values : length (values i) = length (pieces i0);
  se_pieces : length (pieces i) = length (pieces i0);
  se_frame : array_slots i = array_slots i0 /\ parameter_width i = parameter_width i0 /\ array_size i = array_size i0;
  se_done : forall k v, (k < ordinal i)%nat -> pieces i0 !! k = Some v ->
    if deferred v then exists is_null us b b' p, g k = Some (is_null, us) /\ convert k (filled v is_null us) b = Some (p, b') /\ values i !! k = Some p
    else values i !! k = values i0 !! k;
  se_todo : forall k, (ordinal i <= k)%nat -> g k = None /\ pieces i !! k = pieces i0 !! k /\ values i !! k = values i0 !! k
}.

Lemma settled_unrequested i0 g i : collected i0 g i -> requested i = false -> settled i0 g i.
Proof.
  intros [H1 H2 H3 H4 H5 H6 H7 H8] Hr. rewrite Hr in H8. split; try done. intros k Hk. destruct (decide (k = ordinal i)) as [->|Hne].
  - split_and!; [done| |by apply H7]. destruct (pieces i0 !! ordinal i) as [v|] eqn:Ev; [rewrite (H5 v eq_refl), H8; done|].
    apply lookup_ge_None_1 in Ev. apply lookup_ge_None_2. lia.
  - destruct (H6 k ltac:(lia)). split_and!; [done|done|by apply H7].
Qed.

Lemma settled_collected i0 g i : settled i0 g i -> requested i = false -> collected i0 g i.
Proof.
  intros [H1 H2 H3 H4 H5] Hr. split; try done.
  - intros v Hv. destruct (H5 (ordinal i) (Nat.le_refl _)) as (E1 & E2 & _). by rewrite E1, E2.
  - intros k Hk. destruct (H5 k ltac:(lia)) as (E1 & E2 & _). done.
  - intros k Hk. by apply H5.
  - rewrite Hr. by apply H5.
Qed.

Lemma settled_converted i0 g i v i1 : fresh i0 -> collected i0 g i -> requested i = true -> pieces i !! ordinal i = Some v -> supplied v = true ->
  convert_requested w limits convert v i = inl i1 -> settled i0 g i1.
Proof.
  intros Hf [H1 H2 H3 H4 H5 H6 H7 H8] Hr Hv Hsup Hc. rewrite Hr in H8. destruct H8 as (v0 & Hv0 & Hd).
  rewrite (H5 v0 Hv0) in Hv. injection Hv as <-. destruct (fresh_piece i0 _ _ Hf Hv0) as (F1 & _ & _ & _).
  destruct (g (ordinal i)) as [[nl us]|] eqn:Eg; [|cbn in Hsup; congruence]. cbn [so_far] in Hc.
  unfold convert_requested in Hc. cbv zeta in Hc. destruct (convert _ _ _) as [[p counted]|] eqn:Ec; [|done].
  destruct (_ <? _); [done|]. injection Hc as <-.
  assert (ordinal i < length (pieces i0))%nat as Hlt by (by eapply lookup_lt_Some).
  split; cbn [values pieces ordinal array_slots parameter_width array_size store_value with_totals].
  - by rewrite length_insert.
  - by rewrite length_insert.
  - done.
  - intros k u Hk Hu. destruct (decide (k = ordinal i)) as [->|Hne].
    + rewrite Hv0 in Hu. injection Hu as <-. rewrite Hd. eexists nl, us, _, counted, p. split_and!; [done|exact Ec|].
      apply list_lookup_insert_eq. lia.
    + rewrite list_lookup_insert_ne by lia. apply H4; [lia|done].
  - intros k Hk. destruct (H6 k ltac:(lia)) as [E1 E2]. rewrite !list_lookup_insert_ne by lia. split_and!; [done|done|]. apply H7. lia.
Qed.

Lemma settled_next i0 g i : settled i0 g i -> settled i0 g (to_next i) /\
  (forall v, pieces (to_next i) !! ordinal (to_next i) = Some v -> pieces i0 !! ordinal (to_next i) = Some v /\ deferred v = true).
Proof.
  intros [H1 H2 H3 H4 H5]. unfold to_next. destruct (next_deferred_spec (drop (ordinal i) (pieces i)) (ordinal i)) as ([N1 N2] & N3 & N4).
  set (m := next_deferred _ _) in *. split; [split; cbn [values pieces ordinal array_slots parameter_width array_size at_ordinal]; try done|].
  - intros k v Hk Hv. destruct (decide (k < ordinal i)%nat) as [|Hge]; [by apply H4|].
    destruct (H5 k ltac:(lia)) as (_ & E1 & E2). rewrite <- E1 in Hv.
    rewrite (N3 k v); [done|lia|]. rewrite lookup_drop. by replace (ordinal i + (k - ordinal i))%nat with k by lia.
  - intros k Hk. apply H5. lia.
  - cbn [pieces ordinal at_ordinal]. intros v Hv. split.
    + by rewrite <- (proj1 (proj2 (H5 m N1))).
    + apply N4. rewrite lookup_drop. by replace (ordinal i + (m - ordinal i))%nat with m by lia.
Qed.

Lemma settled_advance i0 g i i2 : fresh i0 -> collected i0 g i -> advance i = Some i2 -> settled i0 g i2 /\
  (forall v, pieces i2 !! ordinal i2 = Some v -> pieces i0 !! ordinal i2 = Some v /\ deferred v = true).
Proof.
  intros Hf Hco. unfold advance. destruct (requested i) eqn:Er.
  - pose proof (co_requested _ _ _ Hco) as Hq. rewrite Er in Hq. destruct Hq as (v0 & Hv0 & _). pose proof (co_now _ _ _ Hco v0 Hv0) as Hn. rewrite Hn.
    destruct (supplied _) eqn:Es; [|done]. destruct (convert_requested _ _ _ _ _) as [i1|] eqn:Ec; [|done]. intros [= <-].
    apply settled_next. by eapply settled_converted.
  - intros [= <-]. apply settled_next. by apply settled_unrequested.
Qed.

Lemma settled_request i0 g i v : fresh i0 -> settled i0 g i -> pieces i !! ordinal i = Some v -> pieces i0 !! ordinal i = Some v -> deferred v = true ->
  collected i0 g (request i).
Proof.
  intros Hf [H1 H2 H3 H4 H5] Hv Hv0 Hd. split; cbn [values pieces ordinal array_slots parameter_width array_size requested request]; try done.
  - intros u Hu. rewrite Hv0 in Hu. injection Hu as <-. destruct (H5 (ordinal i) ltac:(lia)) as (E & _ & _). by rewrite E.
  - intros k Hk. destruct (H5 k ltac:(lia)) as (E1 & E2 & _). done.
  - intros k Hk. by apply H5.
  - by exists v.
Qed.

Lemma settled_exact i0 g i : settled i0 g i -> pieces i !! ordinal i = None ->
  exact i0 g (if array_size i =? 0 then OneSet (values i) else Sets (array_sets i)).
Proof.
  intros [H1 H2 (F1 & F2 & F3) H4 H5] Hn. apply lookup_ge_None_1 in Hn.
  assert (exact_values i0 g (values i)) as He.
  { split; [done|]. intros k v Hv. apply H4; [|done]. apply lookup_lt_Some in Hv. lia. }
  rewrite F3. destruct (Z.eqb_spec (array_size i0) 0); [by split|]. split; [done|]. exists (values i). split; [done|].
  unfold array_sets. by rewrite F1, F2.
Qed.

(** ** A whole collection *)

(** Where an execution is: still collecting, or ended with at most one hand-over. *)
Definition progress (i0 : PendingInput) (s0 s : Statement) (g : Given) : Prop :=
  execution s = execution s0 /\
  (sent s = sent s0 /\ (pending_input_ s = None \/ exists i, pending_input_ s = Some i /\ collected i0 g i) \/
   pending_input_ s = None /\ exists what, sent s = sent s0 ++ [(execution s0, what)] /\ exact i0 g what).

Lemma supply_none e s g : pending_input_ s = None -> supply e s g = g.
Proof. intros H. unfold supply. destruct e; rewrite ?H; done. Qed.

Lemma step_none e s : not_start e -> pending_input_ s = None -> quiet s (step w limits convert e s) /\ pending_input_ (step w limits convert e s) = None.
Proof.
  intros He Hn. destruct e as [| | | |id]; cbn [step]; [done| | | |].
  - unfold put_data. by rewrite Hn.
  - unfold param_data. by rewrite Hn.
  - unfold cancel_claim. repeat case_match; try done; cbn [fst]; (destruct (quiet_raced true s) as [Q1 Q2]; cbn [raced] in *; split; [done|];
      cbn [pending_input_]; by rewrite (proj1 (claim_kept s))).
  - case_bool_decide; [|done]. unfold cancel_reset. by rewrite Hn.
Qed.

Lemma progress_step i0 s0 s g e : fresh i0 -> not_start e -> progress i0 s0 s g -> progress i0 s0 (step w limits convert e s) (supply e s g).
Proof.
  intros Hf He [Hx Hp]. assert (pending_input_ s = None -> progress i0 s0 (step w limits convert e s) (supply e s g)) as Hnone.
  { intros Hn. rewrite supply_none by done. destruct (step_none e s He Hn) as [[Q1 Q2] Hn']. split; [congruence|].
    destruct Hp as [[Hs _]|[_ (what & Hs & Hw)]]; [left; split; [congruence|by left]|right; split; [done|exists what; split; [congruence|done]]]. }
  destruct Hp as [[Hs [Hn|(i & Hi & Hco)]]|[Hn _]]; [by apply Hnone| |by apply Hnone]. clear Hnone.
  assert (forall s' j, quiet s s' -> pending_input_ s' = Some j -> collected i0 g j -> progress i0 s0 s' g) as Hgo.
  { intros s' j [Q1 Q2] Hj Hc. split; [congruence|]. left. split; [congruence|]. right. by exists j. }
  assert (forall s', quiet s s' -> pending_input_ s' = None -> progress i0 s0 s' g) as Hstop.
  { intros s' [Q1 Q2] Hj. split; [congruence|]. left. split; [congruence|by left]. }
  destruct e as [|mem h1 h2 c1 c2 c3 data len|h1 h2 c1 c2 c3 token_at r| |id]; cbn [step supply]; rewrite ?Hi; [done| | | |].
  - destruct (put_cases mem h1 h2 c1 c2 c3 data len s i Hi) as [[Q1 Q2] [(Hr & Hreq & v & i' & Hv & Hput & Hp')|[Hr Hp']]]; rewrite Hr, ?Hv.
    + split; [congruence|]. left. split; [congruence|]. right. exists (set_calling false i'). split; [done|]. apply collected_calling. by apply collected_put.
    + destruct Hp' as [Hp'|[Hp'|Hp']]; [by apply Hstop|by eapply Hgo|eapply Hgo; [done|exact Hp'|by apply collected_calling]].
  - destruct (param_cases h1 h2 c1 c2 c3 token_at r s i Hi) as [Hex [[Hse [Hp'|[[b Hp']|(i2 & v & Hadv & Hv & Hp')]]]|[Hp' (i2 & Hadv & Hv & Hse)]]].
    + by apply Hstop.
    + eapply Hgo; [done|exact Hp'|by apply collected_calling].
    + destruct (settled_advance i0 g _ i2 Hf (collected_calling _ _ _ true Hco) Hadv) as [Hset Hnext]. destruct (Hnext v Hv) as [Hv0 Hd].
      eapply Hgo; [done|exact Hp'|by eapply settled_request].
    + destruct (settled_advance i0 g _ i2 Hf (collected_calling _ _ _ true Hco) Hadv) as [Hset _].
      split; [congruence|]. right. split; [done|]. eexists. split; [rewrite Hse, Hs, Hx; done|by apply settled_exact].
  - destruct (quiet_raced true s) as [Q1 Q2]. cbn [raced] in *. destruct (claim_kept s) as [Ek _].
    unfold cancel_claim. repeat case_match; cbn [fst]; (eapply Hgo; [done| |done]); cbn [pending_input_]; congruence.
  - case_bool_decide; [|by eapply Hgo]. unfold cancel_reset. rewrite Hi. case_bool_decide; cbn [fst]; [|by eapply Hgo].
    destruct (quiet_abandon s) as [Hq Hn]. apply Hstop; [done|]. apply Hn. by rewrite Hi.
Qed.

Lemma progress_all i0 s0 es : forall s g, fresh i0 -> Forall not_start es -> progress i0 s0 s g ->
  progress i0 s0 (collect es s g).1 (collect es s g).2.
Proof.
  induction es as [|e es IH]; intros s g Hf He Hp; [done|]. apply Forall_cons_1 in He as [He Hes]. cbn [collect]. apply IH; [done|done|].
  by apply progress_step.
Qed.

Lemma progress_start h c1 c2 b i s : fresh i -> pending_input_ s = None -> a_return (start_collecting h c1 c2 b i s) = RET_NEED_DATA ->
  exists s0, quiet s0 (a_state (start_collecting h c1 c2 b i s)) /\ sent s0 = sent s /\
  exists j, pending_input_ (a_state (start_collecting h c1 c2 b i s)) = Some j /\ collected i (fun _ => None) j.
Proof.
  intros Hf Hn. unfold start_collecting. rewrite Hn. cbv zeta. set (s0 := {| execution := S (execution s) |}).
  pose proof (ready_cases h c1 i s0 ltac:(by eexists)) as R. destruct (pending_call_ready h c1 i s0) as [s1|a].
  2: { destruct R as (Hr & _ & _). rewrite Hr. done. }
  destruct R as [[Q1 Q2] Hp]. destruct (quiet_raced c2 s1) as [Q3 Q4].
  set (j := if negb (array_size i =? 0) then _ else i). destruct (locally_claimed _); [done|]. intros _.
  exists s0. split; [split; [exact (eq_trans Q3 Q1)|exact (eq_trans Q4 Q2)]|]. split; [done|]. exists (set_calling false j). split; [done|]. apply collected_calling.
  assert (settled i (fun _ => None) i) as Hset by (apply settled_unrequested; [by apply collected_start|apply (fr_requested i Hf)]).
  unfold j. destruct (negb (array_size i =? 0)); [|by apply collected_start].
  fold (to_next i). apply settled_collected; [by apply settled_next|apply (fr_requested i Hf)].
Qed.

End Values.

(** ** One ordinary parameter and one supplied in two pieces *)

(** A parameter is its bytes or NULL, and counts its bytes. *)
Definition sample_convert (k : nat) (v : Value) (b : Z) : option (option bytes * Z) :=
  if null v then Some (None, b) else Some (Some (v_bytes v), b + size (v_bytes v)).
Definition sample_value_of (later : bool) : Value :=
  {| deferred := later; supplied := false; null := false; token := 77; c_type := SQL_C_CHAR; v_bytes := []; v_wide := [] |}.
Definition sample_input : PendingInput :=
  {| pieces := [sample_value_of false; sample_value_of true]; values := [Some (str "7"); None]; array_slots := []; parameter_width := 0;
     array_size := 0; status := 0; processed := 0; ordinal := 0; converted_bytes := 1; raw_bytes := 0; requested := false;
     in_call := true; collecting := true |}.
Definition sample_limits : InputLimits := {| max_parameter_bytes := 100; max_parameter_total_bytes := 1000 |}.
Definition well : Health := {| deadline_expired := false; description_accepted := true; connected := Some true |}.
Definition text_memory (a : Z) : Z := nth (Z.to_nat (a - 4096)) (str "abc") 0.
Definition answered : Reply := {| finalized := true; reply := RET_SUCCESS |}.
Definition sample_events : list (@Event (option bytes)) :=
  [ParamData well well false false false 9000 answered; PutData text_memory well well false false false 4096 2;
   PutData text_memory well well false false false 4098 SQL_NTS; ParamData well well false false false 9000 answered].


(** A cancel that comes inside the last call wins over the execution. *)
Example cancel_inside_the_last_call :
  let es := Start well false false false sample_input :: take 3 sample_events ++ [ParamData well well false false true 9000 answered] in
  sent (steps W16 sample_limits sample_convert es idle) = [] /\ cancelled (steps W16 sample_limits sample_convert es idle) = [1%nat].
Proof. vm_compute. done. Qed.
